(* ===== verification/_CoqProject ===== *)
-Q . S2P
Prelude.v
OrderedMap.v
Doubles.v
Rounding.v
Values.v
AttributeReferences.v
Contexts.v
Reasons.v
DataModel.v
Externals.v
SemVers.v
ReferenceExternals.v
Operators.v
Bucketing.v
EvalStack.v
Stores.v
Rules.v
EventData.v
Evaluator.v
Dependencies.v
Notifier.v
EventBuffers.v
EventDelivery.v
Sse.v
Backoff.v
Json.v
JsonModel.v
ContextFilters.v
Persistence.v
Fdv2.v
StatusManager.v
SourceManagers.v
SourceResults.v
Conditions.v
Fdv2System.v
Fdv2Sources.v
Expirations.v
LazyLoads.v
MembershipCaches.v
BigSegments.v
Hooks.v
EvaluationEvents.v
ServerClient.v
Encodings.v
EvaluationResults.v
JsonNumbers.v
ClientFlags.v
ClientCache.v
ClientSource.v
JsonTexts.v
BackgroundSync.v
Polling.v
ClientSide.v
ClientLifecycle.v
SseClient.v
Promises.v
Cancellations.v
JsonContexts.v
EventPayloads.v
FlagsStateJson.v
HttpRequester.v
DatabaseSources.v
Logging.v
Configurations.v
ClientConfig.v
CurlMulti.v
CurlClient.v
CurlRequests.v
TracingHooks.v
StreamStart.v
ServerStart.v
CConfigObjects.v
CBindings.v
CHooks.v
CServer.v
CClient.v
CConfig.v
CClientConfig.v
CStatus.v
Fdv2Polling.v
