(* ===== verification/Prelude.v ===== *)
(** * LaunchDarkly C++ SDKs: a verification development

    The program (src/libs) is a family of feature-flag SDKs.  A server-side SDK
    receives flags and segments from LaunchDarkly over streams and polls, parses them
    from JSON, keeps them in a store, and evaluates them against a context (a user, a
    device, ...).  A client-side SDK receives the results of evaluations made for its
    context, and caches them.  Evaluations produce analytics events that are buffered,
    summarized, redacted and delivered.  This development models those parts as
    executable definitions, with machine integers and IEEE doubles where the code has
    them, and proves what makes them correct.

    ** Parts, files and sources

    Shared vocabulary
    - Prelude: tactics, hints, [tl::expected], 64-bit wrap-around, strings.
    - OrderedMap: [std::map]/[std::set] with string keys as sorted lists.
    - Doubles, Rounding: [double] as the Standard Library's executable binary64, and
      how far rounding can be from the exact result.

    Data (libs/common, libs/internal/data_model)
    - Values: common/src/value.cpp.
    - AttributeReferences: common/src/attribute_reference.cpp.
    - Contexts: context.cpp, context_builder.cpp, attributes.cpp, attributes_builder.cpp.
    - Reasons: evaluation_reason.hpp/.cpp, evaluation_detail.hpp.
    - DataModel: flag.hpp/.cpp, segment.hpp, rule_clause.hpp, item_descriptor.hpp, change_set.hpp.

    Evaluation (libs/server-sdk/src/evaluation)
    - Externals, ReferenceExternals: third-party functions as classes, the laws relied
      upon, and an instance that satisfies them.
    - SemVers, Operators: semver_operations, operators, timestamp_operations.
    - Bucketing: bucketing.cpp and evaluation_error.cpp.
    - EvalStack: evaluation_stack.cpp (cycle guards, Big Segment memberships).
    - Rules: rules.cpp.  Evaluator: evaluator.cpp.  EventData: event_factory.cpp,
      event_scope.hpp.
    An evaluation threads an explicit state (guards, memberships, log, sent events)
    through the recursion; its failures are values of [expected].

    Stores and notification (libs/server-sdk/src/data_components)
    - Stores: the [IStore] interface as a class with laws, and memory_store.cpp; the
      evaluator's theorems are proved against the interface.
    - Dependencies: dependency_tracker.cpp.  Notifier: change_notifier.hpp/.cpp.
    - Persistence: json_destination.cpp, json_deserializer.hpp/.cpp.
    - Expirations, LazyLoads: expiration_tracker, lazy_load_system.cpp.
    - MembershipCaches, BigSegments: membership_cache.cpp, big_segment_store_wrapper.cpp,
      with the threads that call the wrapper.
    - DatabaseSources: the Redis and DynamoDB data sources and Big Segment stores
      (libs/server-sdk-redis-source, libs/server-sdk-dynamodb-source).

    Data systems of the server-side SDK (libs/server-sdk/src/data_systems)
    - StatusManager: data_source_status_manager_base.hpp.
    - BackgroundSync: the stream's event_handler.cpp, streaming_data_source.cpp,
      background_sync_system.cpp.  Polling: both polling_data_source.cpp, the server's
      and the client's.  StreamStart: how both streaming_data_source.cpp make their client.
    - Fdv2: fdv2_protocol_handler.cpp, json_fdv2_events.cpp, fdv2_changeset_translation.cpp.
    - SourceManagers, SourceResults, Conditions, Fdv2System, Fdv2Sources, Fdv2Polling: the
      FDv2 data system (source_manager.cpp, fdv2_source_result.hpp, conditions.cpp,
      fdv2_data_system.cpp) and its sources.

    The server-side client (libs/server-sdk/src)
    - Hooks: hooks/hook.cpp, hook_executor.cpp.  TracingHooks: the OpenTelemetry hook
      (libs/server-sdk-otel/src/tracing_hook.cpp).
    - EvaluationEvents: prereq_event_recorder.
    - ServerClient: client_impl.cpp and all_flags_state, which compose the evaluator, the
      event factory and the hooks.  FlagsStateJson: json_all_flags_state.cpp.
    - ServerStart: the construction of a client (client_impl.cpp, synchronizer_factories.cpp,
      initializer_factories.cpp), offline.cpp and [StartAsync].
    - Configurations: config/config_builder.cpp and config/builders, with the builders of
      libs/common/src/config they share.  Logging: log_level.cpp, logging_builder.cpp and
      internal/src/logging.

    The client-side SDK (libs/client-sdk/src)
    - ClientFlags, ClientCache: flag_manager (store, updater, persistence, context index).
    - ClientSource: data_source_event_handler.cpp, streaming_data_source.cpp,
      null_data_source.cpp.
    - ClientSide, ClientLifecycle: client_impl.cpp (variations; starting and identifying).
    - ClientConfig: the configuration (libs/common/src/config).  The client's constructor is
      in ServerStart.

    Events (libs/internal/src/events, context_filter.cpp)
    - EventBuffers: summarizer.cpp, lru_cache.cpp, outbox.cpp.
    - EventDelivery: request_worker.cpp, worker_pool.hpp, asio_event_processor.cpp.
    - ContextFilters: context_filter.cpp.
    - EventPayloads: json_events.cpp, event_batch.cpp.

    C interface (src/bindings/c of libs/common, libs/server-sdk and libs/client-sdk)
    - CBindings: values, arrays, objects and contexts, on a heap.  CHooks: hooks written in
      C.  CServer, CClient: evaluations and tracking of the two clients.  CConfigObjects,
      CConfig, CClientConfig: their configurations, and persistence written in C.  CStatus:
      statuses of the data source, listeners, making and starting clients.

    Streams, formats and asynchrony
    - Sse: server-sent-events/src/parser.hpp, parser.cpp.  Backoff: backoff.cpp,
      backoff_detail.cpp.  SseClient: client.cpp.
    - HttpRequester: internal/src/network/http_requester.cpp, asio_requester.hpp and the
      requests that the polling sources make.
    - CurlMulti, CurlClient, CurlRequests: the same on libcurl
      (networking/src/curl_multi_manager.cpp, server-sent-events/src/curl_client.cpp,
      internal/src/network/curl_requester.cpp).
    - Json: value_mapping.hpp, json_primitives, json_value.cpp: the parsing macros as
      combinators.  JsonModel: json_flag.cpp, json_segment.cpp, json_rule_clause.cpp,
      json_context_kind.cpp, json_sdk_data_set.cpp.  JsonContexts: json_context.cpp,
      json_attributes.cpp.  EvaluationResults: json_evaluation_result.cpp,
      json_evaluation_reason.cpp.  JsonNumbers, JsonTexts: what becomes of these through
      the text of JSON.  Encodings: base_64.cpp.
    - Promises: async/promise.hpp.  Cancellations: async/cancellation.hpp.

    Code that runs on an event loop or on threads (EventDelivery, BigSegments, Fdv2System,
    Polling, ClientLifecycle, SseClient, the libcurl files, Promises, Cancellations) is a
    state with one step per handler or critical section; timers, responses and posted
    handlers are steps of their own, so the theorems hold for every interleaving.

    ** What the theorems show

    - Evaluation always returns, on any store, cyclic or not ([evaluate_total]); its
      result is explained by its reason ([evaluation_explained]); segment membership is
      set membership on acyclic data ([segment_contains_reference]); cycles give the
      malformed-flag error ([cyclic_prerequisites_malformed]); a rollout picks the
      variation whose cumulative weight covers the bucket ([rollout_variation_spec]).
      The client adds its checks, events and hooks ([variation_spec],
      [typed_variations], [all_flags_state_spec]); traced evaluations end their spans
      and report their results once ([evaluations_traced]).
    - Notifications are exactly the reachable flags ([changes_are_reachable]).  The data
      systems refine the sequence of updates they were sent ([background_stream_refines],
      [fdv2_handler_refines], [fdv2_store_refines], [lazy_load_refines]) and keep
      running ([active_source_attended], [stream_client_attended]).  FDv2 polls are answered
      once and at least the interval apart ([poll_calls_answered], [fdv2_polls_spaced]).
    - Concurrent lookups are coalesced ([coalesced_queries]); futures settle as their
      origin says, their work ends, and no wake-up of a waiting thread is lost
      ([futures_settle], [promises_drain], [wait_for_result]); a callback
      never runs after its deregistration has returned ([deregister_synchronizes]).
    - Client side: variations with their events, and when they return
      ([client_variation_spec], [client_variation_termination]); the stream refines its
      messages up to one that throws ([client_stream_refines]); the cache reads back and stays bounded
      ([flag_cache_roundtrip], [flag_cache_bounded]); when the promise of a start or an
      identify of an online client is resolved ([identify_promise]).
    - Events: buffers are bounded ([processor_bounded]), the summary that is sent counts
      exactly the evaluations ([summary_payload]), and of a context exactly the private
      members are left out ([filter_context_spec], [redaction_exact]).
    - Formats: round trips of the SSE wire format under any chunking ([sse_roundtrip],
      [sse_chunk_invariance]), of flags, stored data and contexts through JSON
      ([flag_json_roundtrip], [persisted_data_roundtrip], [context_json_roundtrip]), of
      the service's messages into the store ([service_stream_delivers]), and of values
      through the C interface, without leaks ([c_value_roundtrip], [c_context_built]); what
      the other C functions give and take ([c_hook_stages], [c_string_detail_delivered],
      [null_hook_context]); a configuration built in C is the one the C++ builders build,
      and nothing else is left on the heap ([c_server_config], [c_client_config]).
    - Streams: reconnecting resumes after the last event ([reconnect_resumes]), what a
      response leads to ([response_outcome]), and how long the client waits
      ([backoff_delay_bounds]).  On libcurl, one transfer at a time is under way and
      another follows it ([curl_client_attended]), every transfer is completed once and
      its headers are freed ([transfers_complete_once]), polled sockets are waited for
      ([sockets_monitored]), and a request is answered once ([requests_answered_once]).
    - Requests and sources: a request ends after at most 21 connections
      ([request_completes]); reading a DynamoDB table page by page gives every item
      ([dynamodb_all_items]).
    - Starting: the future of a client that streams is resolved when it is initialized and
      not before ([start_resolved_when_initialized]); an offline client has no source and
      sends nothing ([offline_is_silent]); the stream is asked for with the SDK's key
      ([stream_authorized], [client_stream_authorized]) and, with REPORT, without the context in the URL
      ([report_hides_context]).  From C, a call that waits returns whether the client is
      initialized ([c_start_waits], [c_identify_result]), a status is read as it is
      ([c_status_read]), and a listener is told every status until it is disconnected
      ([c_listener_told], [c_listener_disconnected], [c_flag_listener]).
    - Configuration: it is built when nothing is wrong, and what is built is sound
      ([config_built], [client_config_built], [app_info_tags], [big_segments_times]); a
      log statement writes what the configuration asks for ([logged_as_configured]).

    Some theorems show where the code does not do what it means to: they state what it
    does ([server_polling_stops], [offline_identify_unresolved], [connect_timeout_strands],
    [second_dependent_lost], [track_metric_swapped], [double_variation_truncated],
    [lazy_start_waits_for_reading] and others).

    ** Fuel

    The recursion of the evaluator is not structural: a flag evaluates its
    prerequisites, a segment the segments its clauses name.  [segment_fuel] is one more
    than the number of stored segment keys and [flag_fuel] one more than the number of
    flag keys; each guarded call adds a new key to the set of those seen, so these
    amounts suffice, and [evaluate_total] proves it for every larger amount.
    [changes_fuel] bounds the search of the dependency tracker likewise.  The
    client-side variation has no guard against cycles: one more than the number of
    flags suffices exactly when the prerequisites that can be reached are acyclic
    ([client_variation_termination]).  The walk of the context filter consumes the size
    of the context, the loops of the SSE parser the length of their input.  Promises
    have a measure that every task decreases ([promises_drain]).  A request needs two more
    than its limit of redirects, [request_fuel]; the pages of a query, one more than the
    rows of the partition; reading a value through the C interface, [c_size] steps.

    ** Not modelled

    The making of database clients; flushing events on demand; the threads that clients start and stop; what components log.
    SHA-1, the regular expression engine, RFC 3339 parsing, Boost's URL, HTTP and number
    conversions and the printing and parsing of JSON text are parameters, with the laws
    that are documented of them.  Undefined behaviour of the code (an out-of-range cast,
    a counter past its type, [back()] of an empty list) is a value of its own or a
    parameter without laws, so no theorem depends on it.

    ** Plan

    What is left: the destructors of the clients, with their threads, and [FlushAsync]. *)

From Stdlib Require Export ZArith Lia.
From Stdlib Require Export Ascii.
From stdpp Require Export base numbers strings gmap sets list.

#[global] Open Scope Z_scope.

(** ** Tactics and hints *)

Create HintDb ld.
Create Rewrite HintDb ld.

(** Destruct every existential and conjunction hypothesis. *)
Ltac deex :=
  repeat match goal with
  | H : ∃ _, _ |- _ => destruct H
  | H : _ ∧ _ |- _ => destruct H
  end.

(** Case split on the scrutinee of a [match]/[if] of the goal or of a
    hypothesis, keeping its equation. *)
Ltac csplit :=
  match goal with
  | |- context [match ?x with _ => _ end] => destruct x eqn:?
  | H : context [match ?x with _ => _ end] |- _ => destruct x eqn:?
  end.

(** Decide a closed decidable goal by evaluation. *)
Ltac by_decide := refine (bool_decide_unpack _ _); vm_compute; exact I.

Ltac csplits := repeat (csplit; simplify_eq/=).

(** ** Results: [tl::expected<A, E>] *)

Inductive expected (A E : Type) : Type :=
| Val (a : A)
| Unexpected (e : E).
Arguments Val {A E} _.
Arguments Unexpected {A E} _.

#[global] Instance expected_eq_dec {A E} `{EqDecision A, EqDecision E} :
  EqDecision (expected A E).
Proof. solve_decision. Defined.

(** ** Machine integers *)

Definition u64 (z : Z) : Z := z mod 2 ^ 64.
Definition s64 (z : Z) : Z := (z + 2 ^ 63) mod 2 ^ 64 - 2 ^ 63.

Lemma u64_range z : 0 ≤ u64 z < 2 ^ 64.
Proof. apply Z.mod_pos_bound. lia. Qed.

Lemma u64_small z : 0 ≤ z < 2 ^ 64 → u64 z = z.
Proof. apply Z.mod_small. Qed.

Lemma s64_small z : - 2 ^ 63 ≤ z < 2 ^ 63 → s64 z = z.
Proof. intros. unfold s64. rewrite Z.mod_small; lia. Qed.

(** A signed value survives the trip through the unsigned type of its width. *)
Lemma s64_u64 z : s64 (u64 z) = s64 z.
Proof. unfold s64, u64. f_equal. rewrite Zplus_mod_idemp_l. done. Qed.

(** ** Strings: [std::string] as Rocq strings of octets *)

Definition str_ltb (s t : string) : bool := String.ltb s t.
Definition str_lt (s t : string) : Prop := str_ltb s t = true.

#[global] Instance str_lt_dec s t : Decision (str_lt s t).
Proof. unfold str_lt. apply _. Defined.

Lemma str_lt_alt s t : str_lt s t ↔ (String.le s t ∧ s ≠ t).
Proof.
  unfold str_lt, str_ltb, String.ltb, String.le, String.leb.
  split.
  - destruct (s ?= t)%string eqn:E; try done. intros _. split; [done|].
    intros ->. pose proof (String.compare_antisym t t) as Ha. by rewrite E in Ha.
  - intros [Hle Hne]. destruct (s ?= t)%string eqn:E; try done.
    by apply String.compare_eq_iff in E.
Qed.

#[global] Instance str_lt_strict : StrictOrder str_lt.
Proof.
  split.
  - intros s Hs. apply str_lt_alt in Hs as [_ Hs]. done.
  - intros s t u. rewrite !str_lt_alt. intros [H1 N1] [H2 N2]. split.
    + by transitivity t.
    + intros ->. apply N1. by apply (anti_symm String.le).
Qed.

Lemma str_lt_trichotomy s t : str_lt s t ∨ s = t ∨ str_lt t s.
Proof.
  rewrite !str_lt_alt. destruct (decide (s = t)); [by auto|].
  destruct (total String.le s t); auto.
Qed.

Lemma str_lt_irrefl s : ¬ str_lt s s.
Proof. apply irreflexivity. apply _. Qed.

Lemma str_lt_ne s t : str_lt s t → s ≠ t.
Proof. intros Hlt ->. by apply str_lt_irrefl in Hlt. Qed.

Lemma str_lt_asym s t : str_lt s t → ¬ str_lt t s.
Proof. intros H1 H2. eapply str_lt_irrefl. by etrans. Qed.

Lemma str_ltb_false s t : str_ltb s t = false → s ≠ t → str_lt t s.
Proof.
  intros Hf Hne. destruct (str_lt_trichotomy s t) as [H|[H|H]]; [|done|done].
  unfold str_lt in H. congruence.
Qed.

(** [std::string::operator==] *)
Definition str_eqb (s t : string) : bool := String.eqb s t.

#[global] Arguments str_eqb : simpl never.
#[global] Arguments str_ltb : simpl never.

Lemma str_eqb_eq s t : str_eqb s t = true ↔ s = t.
Proof. apply String.eqb_eq. Qed.

Lemma str_eqb_refl s : str_eqb s s = true.
Proof. apply String.eqb_refl. Qed.

Lemma str_eqb_neq s t : str_eqb s t = false ↔ s ≠ t.
Proof. apply String.eqb_neq. Qed.

(** The characters of a string, and back. *)
Abbreviation chars := String.list_ascii_of_string.
Abbreviation of_chars := String.string_of_list_ascii.

Lemma of_chars_chars s : of_chars (chars s) = s.
Proof. apply String.string_of_list_ascii_of_string. Qed.

Lemma chars_of_chars l : chars (of_chars l) = l.
Proof. apply String.list_ascii_of_string_of_list_ascii. Qed.

Lemma chars_app s t : chars (s +:+ t) = chars s ++ chars t.
Proof. induction s as [|c s IH]; simpl; [done|]. by rewrite IH. Qed.

Lemma of_chars_app l k : of_chars (l ++ k) = of_chars l +:+ of_chars k.
Proof. induction l as [|c l IH]; simpl; [done|]. by rewrite IH. Qed.

Lemma chars_inj s t : chars s = chars t → s = t.
Proof. intros H. rewrite <- (of_chars_chars s), H. apply of_chars_chars. Qed.

#[export] Hint Rewrite of_chars_chars chars_of_chars chars_app of_chars_app : ld.

Definition is_empty (s : string) : bool :=
  match s with EmptyString => true | _ => false end.

Lemma is_empty_true s : is_empty s = true ↔ s = EmptyString.
Proof. by destruct s. Qed.

(** ** Character codes *)

(** A translation of characters to non-empty, prefix-free codes is injective on
    whole strings. *)
Lemma code_injective (f : ascii → list ascii) :
  (∀ a, f a ≠ []) →
  (∀ a b x y, f a ++ x = f b ++ y → a = b ∧ x = y) →
  ∀ l k, l ≫= f = k ≫= f → l = k.
Proof.
  intros Hne Hpf. induction l as [|a l IH]; intros [|b k]; simpl; [done|..].
  - intros H. exfalso. apply (Hne b). by destruct (f b).
  - intros H. exfalso. apply (Hne a). by destruct (f a).
  - intros [-> H]%Hpf. f_equal. by apply IH.
Qed.

(** Splitting at a separator, and its inverse on separator-free tokens. *)
Fixpoint split_at (sep : ascii) (l : list ascii) : list (list ascii) :=
  match l with
  | [] => [[]]
  | c :: l' =>
      if (c =? sep)%char then [] :: split_at sep l'
      else match split_at sep l' with
           | [] => [[c]]
           | t :: ts => (c :: t) :: ts
           end
  end.

Fixpoint join_with (sep : ascii) (ts : list (list ascii)) : list ascii :=
  match ts with
  | [] => []
  | [t] => t
  | t :: ts' => t ++ sep :: join_with sep ts'
  end.

Lemma split_at_app sep t l :
  sep ∉ t → split_at sep (t ++ sep :: l) = t :: split_at sep l.
Proof.
  induction t as [|c t IH]; simpl; intros Hn.
  - by rewrite Ascii.eqb_refl.
  - assert (c ≠ sep) as Hc by set_solver. apply Ascii.eqb_neq in Hc. rewrite Hc.
    rewrite IH by set_solver. done.
Qed.

Lemma split_at_none sep t : sep ∉ t → split_at sep t = [t].
Proof.
  induction t as [|c t IH]; simpl; intros Hn; [done|].
  assert (c ≠ sep) as Hc by set_solver. apply Ascii.eqb_neq in Hc. rewrite Hc.
  rewrite IH by set_solver. done.
Qed.

Lemma split_join sep ts :
  ts ≠ [] → Forall (λ t, sep ∉ t) ts → split_at sep (join_with sep ts) = ts.
Proof.
  induction ts as [|t ts IH]; [done|]. intros _ [Ht Hts]%Forall_cons_1.
  destruct ts as [|t' ts]; [by apply split_at_none|].
  change (join_with sep (t :: t' :: ts)) with (t ++ sep :: join_with sep (t' :: ts)).
  rewrite split_at_app by done. f_equal. by apply IH.
Qed.

Lemma fmap_rev {A B} (g : A → B) (l : list A) : g <$> rev l = rev (g <$> l).
Proof. induction l as [|x l IH]; [done|]. simpl. by rewrite fmap_app, IH. Qed.
