(* ===== verification/OrderedMap.v ===== *)
(** * [std::map<std::string, V>] and [std::set<std::string>]

    The associative containers the SDK iterates over in key order: a list of
    pairs with strictly increasing keys.  [emplace] keeps an existing entry,
    [assign] ([operator\[\]=], [insert_or_assign]) replaces it. *)

From S2P Require Import Prelude.
From stdpp Require Import sorting.

Section OrderedMap.
Context {V : Type}.
Implicit Types (m : list (string * V)) (k : string) (v : V).

Fixpoint find k m : option V :=
  match m with
  | [] => None
  | (k', v') :: m' => if str_eqb k k' then Some v' else find k m'
  end.

Fixpoint assign k v m : list (string * V) :=
  match m with
  | [] => [(k, v)]
  | (k', v') :: m' =>
      if str_eqb k k' then (k, v) :: m'
      else if str_ltb k k' then (k, v) :: m
      else (k', v') :: assign k v m'
  end.

Definition emplace k v m : list (string * V) :=
  match find k m with Some _ => m | None => assign k v m end.

Definition keys m : list string := m.*1.

(** The container invariant: keys strictly increasing. *)
Definition Ordered m : Prop := StronglySorted str_lt (keys m).

Lemma ordered_nil : Ordered [].
Proof. constructor. Qed.

Lemma ordered_cons k v m :
  Ordered ((k, v) :: m) ↔ Ordered m ∧ Forall (str_lt k) (keys m).
Proof. unfold Ordered; simpl. split; [by inversion 1|intros []; by constructor]. Qed.

Lemma find_keys k m : is_Some (find k m) ↔ k ∈ keys m.
Proof.
  induction m as [|[k' v'] m IH]; simpl.
  - split; [by intros []|set_solver].
  - destruct (str_eqb k k') eqn:E.
    + apply str_eqb_eq in E. set_solver.
    + apply str_eqb_neq in E. rewrite IH. set_solver.
Qed.

Lemma find_None_keys k m : find k m = None ↔ k ∉ keys m.
Proof. rewrite <- find_keys, <- eq_None_not_Some. done. Qed.

Lemma find_app k m1 m2 :
  find k (m1 ++ m2) = match find k m1 with Some x => Some x | None => find k m2 end.
Proof. induction m1 as [|[j v] m1 IH]; simpl; [done|]. by destruct (str_eqb k j). Qed.

Lemma find_Some_elem k v m : find k m = Some v → (k, v) ∈ m.
Proof.
  induction m as [|[k' y] m IH]; simpl; [done|]. destruct (str_eqb k k') eqn:E.
  - intros [= ->]. apply str_eqb_eq in E as ->. by left.
  - intros H. right. by apply IH.
Qed.

Lemma find_assign_eq k v m : find k (assign k v m) = Some v.
Proof.
  induction m as [|[k' v'] m IH]; simpl; [by rewrite str_eqb_refl|].
  destruct (str_eqb k k') eqn:E; simpl; [by rewrite str_eqb_refl|].
  destruct (str_ltb k k'); simpl; [by rewrite str_eqb_refl|]. by rewrite E.
Qed.

Lemma find_assign_ne k j v m : k ≠ j → find j (assign k v m) = find j m.
Proof.
  intros Hne. apply not_eq_sym, str_eqb_neq in Hne.
  induction m as [|[k' v'] m IH]; simpl; [by rewrite Hne|].
  destruct (str_eqb k k') eqn:E; simpl.
  - apply str_eqb_eq in E as <-. by rewrite Hne.
  - destruct (str_ltb k k'); simpl; [by rewrite Hne|]. by rewrite IH.
Qed.

Lemma elem_of_keys_assign k v m j : j ∈ keys (assign k v m) ↔ j = k ∨ j ∈ keys m.
Proof.
  rewrite <- !find_keys. destruct (decide (j = k)) as [->|].
  - rewrite find_assign_eq. naive_solver.
  - rewrite find_assign_ne by done. naive_solver.
Qed.

Lemma assign_ordered k v m : Ordered m → Ordered (assign k v m).
Proof.
  induction m as [|[k' v'] m IH]; simpl.
  - intros _. apply ordered_cons. split; [apply ordered_nil|constructor].
  - rewrite ordered_cons. intros [Hm Hk].
    destruct (str_eqb k k') eqn:E.
    + apply str_eqb_eq in E as <-. by apply ordered_cons.
    + apply str_eqb_neq in E. destruct (str_ltb k k') eqn:L.
      * apply ordered_cons. split; [by apply ordered_cons|].
        constructor; [done|]. eapply Forall_impl; [exact Hk|]. simpl.
        intros x Hx. by transitivity k'.
      * apply str_ltb_false in L; [|done]. apply ordered_cons. split; [by apply IH|].
        apply Forall_forall. intros x Hx%elem_of_keys_assign.
        destruct Hx as [->|Hx]; [done|]. by eapply Forall_forall in Hk.
Qed.

Lemma emplace_ordered k v m : Ordered m → Ordered (emplace k v m).
Proof. unfold emplace. destruct (find k m); auto using assign_ordered. Qed.

Lemma find_emplace_present k v v' m : find k m = Some v → emplace k v' m = m.
Proof. unfold emplace. by intros ->. Qed.

Lemma find_emplace_new k v m : find k m = None → find k (emplace k v m) = Some v.
Proof. unfold emplace. intros ->. apply find_assign_eq. Qed.

Lemma find_emplace_ne k j v m : k ≠ j → find j (emplace k v m) = find j m.
Proof. intros. unfold emplace. destruct (find k m); [done|]. by apply find_assign_ne. Qed.

Lemma assign_Forall (P : string * V → Prop) k v m : Forall P m → P (k, v) → Forall P (assign k v m).
Proof.
  intros Hm Hkv. induction Hm as [|[k' v'] m Hx Hm IH]; simpl; [by constructor|].
  destruct (str_eqb k k'); [by constructor|]. destruct (str_ltb k k'); repeat constructor; auto.
Qed.

Lemma ordered_nodup m : Ordered m → NoDup (keys m).
Proof.
  induction m as [|[k v] m IH]; [by constructor|].
  rewrite ordered_cons. intros [Hm Hk]. constructor; [|auto]. simpl.
  intros Hin. eapply Forall_forall in Hk; [|done]. by apply str_lt_irrefl in Hk.
Qed.

Lemma find_ordered_elem m kv : Ordered m → kv ∈ m → find kv.1 m = Some kv.2.
Proof.
  destruct kv as [k v]. intros Ho%ordered_nodup. revert Ho. unfold keys. induction m as [|[k' v'] m IH]; simpl.
  { intros _ Hin. by apply not_elem_of_nil in Hin. }
  intros [Hk Hnd]%NoDup_cons [Heq|Hin]%elem_of_cons; simpl in *.
  - simplify_eq. by rewrite str_eqb_refl.
  - rewrite IH by done. destruct (str_eqb k k') eqn:E; [|done]. apply str_eqb_eq in E as ->.
    exfalso. apply Hk. apply list_elem_of_fmap. by exists (k', v).
Qed.

Lemma assign_last k v m :
  Forall (λ j, str_lt j k) (keys m) → assign k v m = m ++ [(k, v)].
Proof.
  induction m as [|[j w] m IH]; simpl; [done|].
  intros [Hj Hm]%Forall_cons_1.
  rewrite (proj2 (str_eqb_neq k j)) by (by apply not_eq_sym, str_lt_ne).
  destruct (str_ltb k j) eqn:E; [by apply str_lt_asym in Hj|].
  by rewrite IH.
Qed.

Lemma ordered_app m1 m2 :
  Ordered (m1 ++ m2) ↔
  Ordered m1 ∧ Ordered m2 ∧ ∀ x y, x ∈ keys m1 → y ∈ keys m2 → str_lt x y.
Proof.
  unfold Ordered, keys. rewrite fmap_app. revert m2.
  induction (m1.*1) as [|k l IH]; intros m2; simpl.
  - split; [|naive_solver]. intros. split_and!; [constructor|done|set_solver].
  - split.
    + inversion 1 as [|?? HS HF]; subst. apply IH in HS as (? & ? & Hlt).
      apply Forall_app in HF as [HF1 HF2]. split_and!; [by constructor|done|].
      intros x y [->|Hx]%elem_of_cons Hy; [|by apply Hlt].
      by eapply Forall_forall in HF2.
    + intros (HS & H2 & Hlt). inversion HS as [|?? HS' HF]; subst. constructor.
      * apply IH. split_and!; [done..|]. intros. apply Hlt; set_solver.
      * apply Forall_app. split; [done|]. apply Forall_forall. intros. apply Hlt; set_solver.
Qed.

(** Two ordered containers with the same lookups are the same sequence. *)
Lemma ordered_ext m1 m2 :
  Ordered m1 → Ordered m2 → (∀ k, find k m1 = find k m2) → m1 = m2.
Proof.
  revert m2. induction m1 as [|[k1 v1] m1 IH]; intros [|[k2 v2] m2] H1 H2 Hf.
  - done.
  - specialize (Hf k2). simpl in Hf. by rewrite str_eqb_refl in Hf.
  - specialize (Hf k1). simpl in Hf. by rewrite str_eqb_refl in Hf.
  - apply ordered_cons in H1 as [O1 F1]. apply ordered_cons in H2 as [O2 F2].
    assert (k1 = k2) as <-.
    { destruct (str_lt_trichotomy k1 k2) as [Hl|[?|Hl]]; [|done|]; exfalso.
      - assert (k1 ∈ keys ((k2, v2) :: m2)) as Hin.
        { apply find_keys. rewrite <- Hf. simpl. rewrite str_eqb_refl. eauto. }
        apply elem_of_cons in Hin as [->|Hin]; [by apply str_lt_irrefl in Hl|].
        eapply Forall_forall in F2; [|done]. by eapply str_lt_asym.
      - assert (k2 ∈ keys ((k1, v1) :: m1)) as Hin.
        { apply find_keys. rewrite Hf. simpl. rewrite str_eqb_refl. eauto. }
        apply elem_of_cons in Hin as [->|Hin]; [by apply str_lt_irrefl in Hl|].
        eapply Forall_forall in F1; [|done]. by eapply str_lt_asym. }
    assert (v1 = v2) as <-.
    { specialize (Hf k1). simpl in Hf. rewrite str_eqb_refl in Hf. by simplify_eq. }
    f_equal. apply IH; [done..|]. intros k. specialize (Hf k). simpl in Hf.
    destruct (str_eqb k k1) eqn:E; [|done]. apply str_eqb_eq in E as ->.
    assert (∀ m, Forall (str_lt k1) (keys m) → find k1 m = None) as HN.
    { intros m HF. apply find_None_keys. intros Hin.
      eapply Forall_forall in HF; [|done]. by apply str_lt_irrefl in HF. }
    by rewrite !HN.
Qed.
End OrderedMap.

(** Copying an ordered container entry by entry, with any of the insertion
    operations, maps its values in place. *)
Section Copy.
Context {V W : Type} (f : V → W).

Lemma keys_fmap (m : list (string * V)) : keys ((λ kv, (kv.1, f kv.2)) <$> m) = keys m.
Proof. unfold keys. rewrite <- list_fmap_compose. by apply list_fmap_ext. Qed.

Lemma find_fmap (m : list (string * V)) k :
  find k ((λ kv, (kv.1, f kv.2)) <$> m) = f <$> find k m.
Proof. induction m as [|[j v] m IH]; simpl; [done|]. by destruct (str_eqb k j). Qed.

Lemma foldl_assign_copy (m : list (string * V)) (acc : list (string * W)) :
  Ordered m → (∀ x y, x ∈ keys acc → y ∈ keys m → str_lt x y) →
  foldl (λ a kv, assign kv.1 (f kv.2) a) acc m = acc ++ ((λ kv, (kv.1, f kv.2)) <$> m).
Proof.
  revert acc. induction m as [|[k v] m IH]; intros acc Hm Hlt; simpl; [by rewrite app_nil_r|].
  apply ordered_cons in Hm as [Hm Hk].
  assert (Forall (λ j, str_lt j k) (keys acc)) as HF.
  { apply Forall_forall. intros. apply Hlt; [done|]. by left. }
  rewrite assign_last by done. rewrite IH; [by rewrite <- app_assoc|done|].
  intros x y Hx Hy. unfold keys in Hx. rewrite fmap_app, elem_of_app in Hx.
  destruct Hx as [Hx|Hx]; [apply Hlt; [done|by right]|].
  apply list_elem_of_singleton in Hx as ->. by eapply Forall_forall in Hk.
Qed.

Lemma foldl_assign_nil (m : list (string * V)) :
  Ordered m → foldl (λ a kv, assign kv.1 (f kv.2) a) [] m = (λ kv, (kv.1, f kv.2)) <$> m.
Proof. intros. rewrite foldl_assign_copy; [done..|]. intros ? ? Hx. by inversion Hx. Qed.

Lemma foldl_emplace_copy (m : list (string * V)) (acc : list (string * W)) :
  Ordered m → (∀ x y, x ∈ keys acc → y ∈ keys m → str_lt x y) →
  foldl (λ a kv, emplace kv.1 (f kv.2) a) acc m =
  foldl (λ a kv, assign kv.1 (f kv.2) a) acc m.
Proof.
  revert acc. induction m as [|[k v] m IH]; intros acc Hm Hlt; simpl; [done|].
  apply ordered_cons in Hm as [Hm Hk].
  assert (find k acc = None) as HN.
  { apply find_None_keys. intros Hin. eapply (str_lt_irrefl k), Hlt; [done|by left]. }
  unfold emplace at 2. rewrite HN. apply IH; [done|].
  intros x y [->|Hx]%elem_of_keys_assign Hy; [by eapply Forall_forall in Hk|].
  apply Hlt; [done|by right].
Qed.

Lemma foldl_emplace_nil (m : list (string * V)) :
  Ordered m → foldl (λ a kv, emplace kv.1 (f kv.2) a) [] m = (λ kv, (kv.1, f kv.2)) <$> m.
Proof.
  intros. rewrite foldl_emplace_copy, foldl_assign_nil; [done..|].
  intros ? ? Hx. by inversion Hx.
Qed.
End Copy.

#[export] Hint Resolve ordered_nil assign_ordered emplace_ordered : ld.
