(* ===== verification/Doubles.v ===== *)
(** * [double]: IEEE-754 binary64 arithmetic

    The numbers of flag data are C++ [double]s.  They are modelled by the
    Standard Library's executable specification of binary floating-point
    numbers ([SpecFloat]) at precision 53 and maximal exponent 1024, with
    rounding to nearest even, so every comparison, division and conversion of
    the code is the IEEE operation and not an operation on rationals. *)

From S2P Require Import Prelude.
From Stdlib Require Import SpecFloat.

Abbreviation double := spec_float.

Definition d_add : double → double → double := SFadd 53 1024.
Definition d_div : double → double → double := SFdiv 53 1024.
Definition d_eqb : double → double → bool := SFeqb.
Definition d_ltb : double → double → bool := SFltb.

(** Conversion of an integer, rounding to nearest even. *)
Definition d_of_Z (z : Z) : double := binary_normalize 53 1024 z 0 false.

Definition is_nan (x : double) : bool :=
  match x with S754_nan => true | _ => false end.

(** The integer part of a finite double; [None] for infinities and NaN. *)
Definition d_int_part (x : double) : option Z :=
  match x with
  | S754_zero _ => Some 0
  | S754_finite s m e =>
      let a := if 0 <=? e then Z.shiftl (Zpos m) e else Z.shiftr (Zpos m) (- e) in
      Some (if s then - a else a)
  | _ => None
  end.

(** [std::trunc] *)
Definition d_trunc (x : double) : double :=
  match x with
  | S754_finite s m e =>
      if 0 <=? e then x
      else
        let q := Z.shiftr (Zpos m) (- e) in
        binary_normalize 53 1024 (if s then - q else q) 0 s
  | _ => x
  end.

(** [static_cast<T>(d)] for a signed integer type of [w] bits: truncation
    towards zero, undefined ([None]) when the truncated value does not fit. *)
Definition d_to_signed (w : Z) (x : double) : option Z :=
  match d_int_part x with
  | Some z => if (- 2 ^ (w - 1) <=? z) && (z <? 2 ^ (w - 1)) then Some z else None
  | None => None
  end.

(** ** Order *)

(** Every number except NaN has a position in a lexicographic order of
    integer triples: the sign class, the exponent and the mantissa. *)
Definition d_key (x : double) : Z * Z * Z :=
  match x with
  | S754_infinity true => (-2, 0, 0)
  | S754_finite true m e => (-1, - e, - Zpos m)
  | S754_zero _ => (0, 0, 0)
  | S754_finite false m e => (1, e, Zpos m)
  | S754_infinity false => (2, 0, 0)
  | S754_nan => (0, 0, 0)
  end.

Definition key_lt (a b : Z * Z * Z) : Prop :=
  let '(a1, a2, a3) := a in
  let '(b1, b2, b3) := b in
  a1 < b1 ∨ a1 = b1 ∧ (a2 < b2 ∨ a2 = b2 ∧ a3 < b3).

Lemma SFcompare_key x y :
  match SFcompare x y with
  | None => is_nan x = true ∨ is_nan y = true
  | Some c =>
      is_nan x = false ∧ is_nan y = false ∧
      match c with
      | Eq => d_key x = d_key y
      | Lt => key_lt (d_key x) (d_key y)
      | Gt => key_lt (d_key y) (d_key x)
      end
  end.
Proof.
  destruct x as [[]|[]| |[] m1 e1], y as [[]|[]| |[] m2 e2]; simpl;
    try (repeat split; (reflexivity || (left; lia) || lia)); auto.
  all: change (Pos.compare_cont Eq m1 m2) with (m1 ?= m2)%positive;
    destruct (Z.compare_spec e1 e2) as [->| |], (Pos.compare_spec m1 m2) as [->| |];
    simpl; split_and!; auto; lia.
Qed.

Lemma key_lt_irrefl a : ¬ key_lt a a.
Proof. destruct a as [[]]; simpl; lia. Qed.

Lemma key_lt_trans a b c : key_lt a b → key_lt b c → key_lt a c.
Proof. destruct a as [[]], b as [[]], c as [[]]; simpl; lia. Qed.

Lemma d_ltb_spec x y :
  d_ltb x y = true ↔ is_nan x = false ∧ is_nan y = false ∧ key_lt (d_key x) (d_key y).
Proof.
  unfold d_ltb, SFltb. pose proof (SFcompare_key x y) as H.
  destruct (SFcompare x y) as [[]|]; deex; split; intros; deex; try done.
  - rewrite H1 in H4. by apply key_lt_irrefl in H4.
  - exfalso. eapply key_lt_irrefl, key_lt_trans; eauto.
  - destruct H; congruence.
Qed.

Lemma d_eqb_spec x y :
  d_eqb x y = true ↔ is_nan x = false ∧ is_nan y = false ∧ d_key x = d_key y.
Proof.
  unfold d_eqb, SFeqb. pose proof (SFcompare_key x y) as H.
  destruct (SFcompare x y) as [[]|]; deex; split; intros; deex; try done.
  - rewrite H4 in H1. by apply key_lt_irrefl in H1.
  - rewrite H4 in H1. by apply key_lt_irrefl in H1.
  - destruct H; congruence.
Qed.

Lemma d_ltb_irrefl x : d_ltb x x = false.
Proof.
  destruct (d_ltb x x) eqn:E; [|done]. apply d_ltb_spec in E. deex.
  by apply key_lt_irrefl in H1.
Qed.

Lemma d_ltb_trans x y z : d_ltb x y = true → d_ltb y z = true → d_ltb x z = true.
Proof. rewrite !d_ltb_spec. intros; deex; eauto using key_lt_trans. Qed.

Lemma d_eqb_refl x : d_eqb x x = negb (is_nan x).
Proof.
  destruct (is_nan x) eqn:E; simpl.
  - by destruct x.
  - by apply d_eqb_spec.
Qed.

Lemma d_eqb_sym x y : d_eqb x y = d_eqb y x.
Proof. apply eq_iff_eq_true. rewrite !d_eqb_spec. naive_solver. Qed.

Lemma d_eqb_trans x y z : d_eqb x y = true → d_eqb y z = true → d_eqb x z = true.
Proof. rewrite !d_eqb_spec. naive_solver congruence. Qed.

Lemma d_ltb_excl x y :
  d_ltb x y = true → d_eqb x y = false ∧ d_ltb y x = false.
Proof.
  rewrite <- !not_true_iff_false, d_eqb_spec, !d_ltb_spec. intros (? & ? & Hlt). split.
  - intros (_ & _ & Heq). rewrite Heq in Hlt. by apply key_lt_irrefl in Hlt.
  - intros (_ & _ & Hgt). eapply key_lt_irrefl, key_lt_trans; eauto.
Qed.

(** Outside NaN the order is total. *)
Lemma d_trichotomy x y :
  is_nan x = false → is_nan y = false →
  d_ltb x y = true ∨ d_eqb x y = true ∨ d_ltb y x = true.
Proof.
  intros Hx Hy. rewrite !d_ltb_spec, d_eqb_spec, Hx, Hy.
  destruct (d_key x) as [[a1 a2] a3], (d_key y) as [[b1 b2] b3]. simpl.
  destruct (decide ((a1, a2, a3) = (b1, b2, b3))) as [?|Hne]; [by auto|].
  assert (a1 ≠ b1 ∨ a2 ≠ b2 ∨ a3 ≠ b3).
  { destruct (decide (a1 = b1)), (decide (a2 = b2)), (decide (a3 = b3)); naive_solver. }
  lia.
Qed.

#[export] Hint Rewrite d_ltb_irrefl d_eqb_refl : ld.

(** ** Exact conversions *)

Lemma digits2_shift m d : Zpos (digits2_pos (Pos.iter xO m d)) = Zpos (digits2_pos m) + Zpos d.
Proof.
  induction d as [|d IH] using Pos.peano_ind; [simpl; lia|].
  rewrite Pos.iter_succ. simpl. lia.
Qed.

Lemma iter_xO m d : Zpos (Pos.iter xO m d) = Z.shiftl (Zpos m) (Zpos d).
Proof.
  induction d as [|d IH] using Pos.peano_ind; [by rewrite Z.shiftl_mul_pow2, Z.mul_comm by lia|].
  rewrite Pos.iter_succ, Pos2Z.inj_xO, IH, !Z.shiftl_mul_pow2 by lia.
  rewrite Pos2Z.inj_succ, Z.pow_succ_r by lia. lia.
Qed.

Lemma digits2_bound p : 2 ^ (Zpos (digits2_pos p) - 1) <= Zpos p.
Proof.
  assert (0 <= Zpos (digits2_pos p) - 1) by lia.
  induction p as [p IH|p IH|]; simpl; [..|done];
    rewrite Pos2Z.inj_succ, Z.sub_succ_l, Z.pow_succ_r in * by lia; lia.
Qed.

(** A mantissa that already has its 53 digits is not rounded. *)
Lemma round_aux_exact s m e :
  Zpos (digits2_pos m) = 53 → -1074 <= e <= 971 → binary_round_aux 53 1024 s (Zpos m) e loc_Exact = S754_finite s m e.
Proof.
  intros Hd He. unfold binary_round_aux, shr_fexp, fexp, emin, Zdigits2. rewrite Hd.
  replace (_ - e) with 0 by lia. cbn. rewrite Hd. replace (_ - e) with 0 by lia. cbn.
  by rewrite (proj2 (Z.leb_le _ _)) by lia.
Qed.

Lemma round_exact s p :
  Zpos p < 2 ^ 53 → d_int_part (binary_round 53 1024 s p 0) = Some (if s then Zneg p else Zpos p).
Proof.
  intros Hp. pose proof (digits2_bound p) as Hb.
  assert (Zpos (digits2_pos p) <= 53) as Hd.
  { destruct (Z.le_gt_cases (Zpos (digits2_pos p)) 53) as [|Hgt]; [done|].
    assert (2 ^ 53 <= 2 ^ (Zpos (digits2_pos p) - 1)) by (apply Z.pow_le_mono_r; lia). lia. }
  unfold binary_round, shl_align, fexp, emin. rewrite Z.add_0_r, Z.sub_0_r, Z.max_l by lia.
  destruct (Zpos (digits2_pos p) - 53) as [|q|q] eqn:E; [| lia |].
  - rewrite round_aux_exact by lia. simpl. by destruct s.
  - rewrite round_aux_exact; [|rewrite digits2_shift; lia|lia].
    unfold d_int_part. cbn [Z.leb Z.compare Z.opp]. rewrite iter_xO, Z.shiftr_shiftl_l, Z.sub_diag, Z.shiftl_0_r by lia.
    by destruct s.
Qed.

(** Integers of fewer than 54 bits survive the conversion. *)
Lemma d_of_Z_exact z : Z.abs z < 2 ^ 53 → d_int_part (d_of_Z z) = Some z.
Proof. unfold d_of_Z. destruct z as [|p|p]; simpl; intros H; [done|by apply round_exact..]. Qed.

Lemma d_to_signed_of_Z w z : 0 < w <= 53 → - 2 ^ (w - 1) <= z < 2 ^ (w - 1) → d_to_signed w (d_of_Z z) = Some z.
Proof.
  intros Hw Hz. assert (2 ^ (w - 1) < 2 ^ 53) by (apply Z.pow_lt_mono_r; lia).
  unfold d_to_signed. rewrite d_of_Z_exact by lia.
  by rewrite (proj2 (Z.leb_le _ _)), (proj2 (Z.ltb_lt _ _)) by lia.
Qed.
