(* ===== verification/Rounding.v ===== *)
(** * Rounding of [double] arithmetic against exact bounds

    A product or a difference of doubles is the exact value rounded to nearest
    even.  Rounding never crosses a representable number: an exact value between
    two multiples [n1 * 2^f] and [n2 * 2^f] with 53-bit factors is rounded to a
    number between them.  The lemmas of this file give that bound for the
    operations of Doubles, on values scaled to integers. *)

From S2P Require Import Prelude Doubles.
From Stdlib Require Import SpecFloat.

Definition d_mul : double → double → double := SFmul 53 1024.
Definition d_sub : double → double → double := SFsub 53 1024.
Definition d_leb : double → double → bool := SFleb.

(** Values are counted in units of [2 ^ -3000], below every product of doubles. *)
Definition unit_exp : Z := 3000.
Definition scaled (m e : Z) : Z := m * 2 ^ (e + unit_exp).

(** The scaled value of a double that is not negative. *)
Definition value (x : double) : option Z :=
  match x with
  | S754_zero _ => Some 0
  | S754_finite false m e => if - unit_exp <=? e then Some (scaled (Zpos m) e) else None
  | _ => None
  end.

(** ** Shifting right *)

Lemma iter_pos_iter {A} (f : A → A) p x : iter_pos f p x = Nat.iter (Pos.to_nat p) f x.
Proof.
  revert x. induction p as [p IH|p IH|]; intros x; cbn [iter_pos]; [..|done]; rewrite !IH, <- Nat.iter_add.
  - rewrite Pos2Nat.inj_xI, <- Nat.iter_succ_r. f_equal. lia.
  - rewrite Pos2Nat.inj_xO. f_equal. lia.
Qed.

Lemma shr_1_spec m r s :
  0 <= m → shr_1 (Build_shr_record m r s) = Build_shr_record (m / 2) (Z.odd m) (r || s).
Proof.
  intros Hm. rewrite <- Z.div2_div. destruct m as [|[p|p|]|p]; simpl; done.
Qed.

Lemma shr_floor m n :
  0 <= m →
  let r := Nat.iter n shr_1 (Build_shr_record m false false) in
  shr_m r = m / 2 ^ Z.of_nat n ∧ (shr_r r || shr_s r = true → m mod 2 ^ Z.of_nat n ≠ 0).
Proof.
  intros Hm. induction n as [|n [IHm IHs]]; [simpl; rewrite Z.div_1_r; done|].
  rewrite Nat2Z.inj_succ, Z.pow_succ_r by lia. cbn [Nat.iter nat_rect].
  change (nat_rect _ _ _ n) with (Nat.iter n shr_1 (Build_shr_record m false false)) in *.
  destruct (Nat.iter n shr_1 _) as [k r s]. cbn [shr_m shr_r shr_s] in *.
  assert (0 < 2 ^ Z.of_nat n) by (apply Z.pow_pos_nonneg; lia).
  assert (0 <= m / 2 ^ Z.of_nat n) by (apply Z.div_pos; lia).
  rewrite shr_1_spec by lia. cbn. split.
  - by rewrite IHm, Z.div_div, Z.mul_comm by lia.
  - intros Hrs. rewrite Z.mul_comm, Z.rem_mul_r by lia. rewrite <- IHm, Zmod_odd.
    pose proof (Z.mod_pos_bound m (2 ^ Z.of_nat n)). destruct (Z.odd k); [nia|].
    specialize (IHs Hrs). nia.
Qed.

Lemma digits2_upper p : Zpos p < 2 ^ Zpos (digits2_pos p).
Proof.
  induction p as [p IH|p IH|]; simpl; [..|done]; rewrite Pos2Z.inj_succ, Z.pow_succ_r by lia; lia.
Qed.

(** One rounding to nearest even of an exact integer, by [n] places: the floor or,
    when something is lost, the next integer. *)
Lemma nearest_bounds m e n r :
  0 <= m → 0 <= n → shr (Build_shr_record m false false) e n = (r, e + n) →
  let q := round_nearest_even (shr_m r) (loc_of_shr_record r) in
  (∀ B, m <= B * 2 ^ n → q <= B) ∧ (∀ B, B * 2 ^ n <= m → B <= q).
Proof.
  intros Hm Hn Hshr.
  assert (shr_m r = m / 2 ^ n ∧ (shr_r r || shr_s r = true → m mod 2 ^ n ≠ 0)) as [Hfl Hrem].
  { destruct n as [|p|p]; [|rewrite <- (positive_nat_Z p)|lia].
    - injection Hshr as <-. simpl. by rewrite Z.div_1_r.
    - injection Hshr as <-. rewrite iter_pos_iter. by apply shr_floor. }
  assert (0 < 2 ^ n) by (apply Z.pow_pos_nonneg; lia).
  pose proof (Z.div_mod m (2 ^ n)) as Hdm. pose proof (Z.mod_pos_bound m (2 ^ n)) as Hb.
  destruct r as [k rr rs]. cbn [shr_m shr_r shr_s loc_of_shr_record] in *. subst k.
  assert (round_nearest_even (m / 2 ^ n) (loc_of_shr_record (Build_shr_record (m / 2 ^ n) rr rs)) = m / 2 ^ n ∨
    round_nearest_even (m / 2 ^ n) (loc_of_shr_record (Build_shr_record (m / 2 ^ n) rr rs)) = m / 2 ^ n + 1 ∧ m mod 2 ^ n ≠ 0) as Hq.
  { destruct rr, rs; simpl in *; try destruct (Z.even _); auto. }
  cbn [loc_of_shr_record] in Hq. split; intros B HB; destruct Hq as [->|[-> Hne]]; nia.
Qed.

Lemma shr_max mrs e k : ∃ r, shr mrs e k = (r, e + Z.max 0 k) ∧ shr mrs e (Z.max 0 k) = (r, e + Z.max 0 k).
Proof.
  destruct k as [|p|p]; simpl; eexists; (split; [f_equal; lia|]); [f_equal; lia|done|f_equal; lia].
Qed.

(** Scaled values are compared through a common exponent. *)
Lemma scaled_move m e n : - unit_exp <= e → 0 <= n → scaled m (e + n) = scaled (m * 2 ^ n) e.
Proof.
  intros He Hn. unfold scaled. replace (e + n + unit_exp) with (n + (e + unit_exp)) by lia.
  rewrite Z.pow_add_r by lia. lia.
Qed.

Lemma scaled_mono m n e : - unit_exp <= e → scaled m e <= scaled n e ↔ m <= n.
Proof. intros He. unfold scaled. assert (0 < 2 ^ (e + unit_exp)) by (apply Z.pow_pos_nonneg; lia). nia. Qed.

Lemma scaled_pow m e N f :
  - unit_exp <= e → - unit_exp <= f → 2 ^ 52 <= m → N < 2 ^ 53 → scaled m e <= scaled N f → e <= f.
Proof.
  intros He Hf Hm HN Hle. destruct (Z.le_gt_cases e f) as [|Hgt]; [done|].
  replace e with (f + (e - f)) in Hle by lia. rewrite scaled_move, scaled_mono in Hle by lia.
  assert (2 ^ 1 <= 2 ^ (e - f)) by (apply Z.pow_le_mono_r; lia). nia.
Qed.

(** The exponent chosen for a 53-bit result, and that it keeps the bounds. *)
Definition places (d e : Z) : Z := Z.max 0 (fexp 53 1024 (d + e) - e).

Lemma places_exponent m e N f :
  - unit_exp <= e → -1074 <= f → N < 2 ^ 53 → scaled (Zpos m) e <= scaled N f →
  let n := places (Zpos (digits2_pos m)) e in n = 0 ∨ e + n <= f.
Proof.
  intros He Hf HN Hle n. unfold n, places, fexp, emin in *.
  destruct (Z.le_gt_cases (Z.max (Zpos (digits2_pos m) + e - 53) (-1074) - e) 0) as [|Hgt]; [lia|right].
  destruct (Z.le_gt_cases (e + Z.max 0 (Z.max (Zpos (digits2_pos m) + e - 53) (-1074) - e)) f) as [|Hgt']; [done|].
  set (d := Zpos (digits2_pos m)) in *. assert (0 < d - 53) by (unfold unit_exp in *; lia).
  assert (e + (d - 53) <= f); [|lia].
  apply (scaled_pow (2 ^ 52) (e + (d - 53)) N f); [unfold unit_exp in *; lia..|done|].
  rewrite scaled_move by lia. etrans; [|exact Hle]. apply scaled_mono; [done|].
  rewrite <- Z.pow_add_r by lia. replace (52 + (d - 53)) with (d - 1) by lia. apply digits2_bound.
Qed.

Lemma rounded_between m e N1 N2 f r :
  - unit_exp <= e → -1074 <= f → N2 < 2 ^ 53 →
  scaled N1 f <= scaled (Zpos m) e → scaled (Zpos m) e <= scaled N2 f →
  let n := places (Zpos (digits2_pos m)) e in
  shr (Build_shr_record (Zpos m) false false) e n = (r, e + n) →
  let q := round_nearest_even (shr_m r) (loc_of_shr_record r) in
  scaled N1 f <= scaled q (e + n) <= scaled N2 f ∧ 0 <= q <= 2 ^ 53.
Proof.
  intros He Hf HN2 H1 H2 n Hshr q.
  assert (0 <= n) as Hn by (unfold n, places; lia).
  destruct (nearest_bounds (Zpos m) e n r) as [HU HL]; [lia|done|done|]. fold q in HU, HL.
  pose proof (places_exponent m e N2 f He Hf HN2 H2) as Hx. fold n in Hx.
  split.
  - destruct Hx as [Hx|Hx].
    + rewrite Hx, Z.add_0_r in *. assert (q = Zpos m) as ->; [|done].
      apply Z.le_antisymm; [apply HU|apply HL]; lia.
    + replace f with (e + n + (f - (e + n))) in H1, H2 |- * by lia.
      rewrite (scaled_move N1 (e + n)), (scaled_move _ e), scaled_mono in H1 by lia.
      rewrite (scaled_move N2 (e + n)), (scaled_move _ e), scaled_mono in H2 by lia.
      rewrite (scaled_move N1 (e + n)), (scaled_move N2 (e + n)), !scaled_mono by lia. split; [apply HL|apply HU]; lia.
  - split; [apply HL; lia|apply HU]. pose proof (digits2_upper m) as Hup.
    etrans; [apply Z.lt_le_incl, Hup|]. rewrite <- Z.pow_add_r by lia. apply Z.pow_le_mono_r; [lia|].
    unfold n, places, fexp. lia.
Qed.

(** The second pass of the rounding only carries [2 ^ 53] over. *)
Lemma carry_value q e :
  0 <= q <= 2 ^ 53 → -1074 <= e → (0 < q → e < 971) →
  let '(r, e') := shr_fexp 53 1024 q e loc_Exact in
  value (match shr_m r with
         | Z0 => S754_zero false
         | Zpos m => if e' <=? 1024 - 53 then S754_finite false m e' else S754_infinity false
         | Zneg _ => S754_nan
         end) = Some (scaled q e).
Proof.
  intros Hq He Hov. unfold shr_fexp, shr_record_of_loc.
  destruct (decide (q = 2 ^ 53)) as [->|Hne].
  { replace (fexp 53 1024 _ - e) with 1; [|unfold fexp, emin; change (Zdigits2 (2 ^ 53)) with 54; lia].
    change (shr (Build_shr_record (2 ^ 53) false false) e 1) with (Build_shr_record (2 ^ 52) false false, e + 1).
    cbv beta iota. cbn [shr_m]. change (2 ^ 52) with (Zpos 4503599627370496). cbv beta iota.
    rewrite (proj2 (Z.leb_le _ _)) by lia. cbn [value]. rewrite (proj2 (Z.leb_le _ _)) by (unfold unit_exp; lia).
    f_equal. rewrite scaled_move by (unfold unit_exp; lia). done. }
  assert (fexp 53 1024 (Zdigits2 q + e) - e <= 0) as Hk.
  { destruct q as [|p|p]; [unfold fexp, emin; simpl Zdigits2; lia| |lia].
    pose proof (digits2_bound p). unfold fexp, emin. simpl Zdigits2.
    assert (Zpos (digits2_pos p) <= 53); [|lia].
    destruct (Z.le_gt_cases (Zpos (digits2_pos p)) 53) as [|Hgt]; [done|].
    assert (2 ^ 53 <= 2 ^ (Zpos (digits2_pos p) - 1)) by (apply Z.pow_le_mono_r; lia). lia. }
  destruct (fexp 53 1024 (Zdigits2 q + e) - e) as [|k|k]; [|lia|]; cbn [shr shr_m];
    (destruct q as [|p|p]; [done| |lia]; rewrite (proj2 (Z.leb_le _ _)) by lia; cbn [value];
     by rewrite (proj2 (Z.leb_le _ _)) by (unfold unit_exp; lia)).
Qed.

(** Rounding keeps representable bounds. *)
Lemma round_aux_between m e N1 N2 f :
  - unit_exp <= e → -1074 <= f <= 900 → N2 < 2 ^ 53 →
  scaled N1 f <= scaled (Zpos m) e <= scaled N2 f →
  ∃ v, value (binary_round_aux 53 1024 false (Zpos m) e loc_Exact) = Some v ∧ scaled N1 f <= v <= scaled N2 f.
Proof.
  intros He Hf HN2 [H1 H2]. unfold binary_round_aux, shr_fexp at 1, shr_record_of_loc, Zdigits2.
  destruct (shr_max (Build_shr_record (Zpos m) false false) e (fexp 53 1024 (Zpos (digits2_pos m) + e) - e)) as (r & -> & Hr).
  fold (places (Zpos (digits2_pos m)) e) in *. set (n := places (Zpos (digits2_pos m)) e) in *.
  destruct (rounded_between m e N1 N2 f r He (proj1 Hf) HN2 H1 H2 Hr) as [Hb Hq].
  fold n in Hb, Hq.
  set (q := round_nearest_even _ _) in *. exists (scaled q (e + n)). split; [|done].
  pose proof (carry_value q (e + n)) as Hc.
  destruct (shr_fexp 53 1024 q (e + n) loc_Exact) as [r2 e2]. apply Hc; [done|unfold n, places, fexp, emin; lia|].
  intros Hpos. destruct (Z.le_gt_cases 971 (e + n)) as [Hge|]; [exfalso|lia].
  destruct Hb as [_ Hb]. assert (scaled (2 ^ 52) (e + n - 52) <= scaled N2 f) as Hs.
  { etrans; [|exact Hb]. replace (e + n) with (e + n - 52 + 52) at 2 by lia.
    rewrite scaled_move by (unfold unit_exp; lia). apply scaled_mono; [unfold unit_exp; lia|]. lia. }
  apply scaled_pow in Hs; unfold unit_exp in *; lia.
Qed.

(** ** The operations *)

Lemma shl_align_scaled m e e' :
  - unit_exp <= e' → - unit_exp <= e →
  let '(m', e'') := shl_align m e e' in scaled (Zpos m') e'' = scaled (Zpos m) e ∧ - unit_exp <= e''.
Proof.
  intros He' He. unfold shl_align. destruct (e' - e) as [|d|d] eqn:E; [done..|].
  rewrite iter_xO, Z.shiftl_mul_pow2 by lia. split; [|done].
  replace e with (e' + Zpos d) by lia. by rewrite scaled_move by lia.
Qed.

Lemma round_between m e N1 N2 f :
  - unit_exp <= e → -1074 <= f <= 900 → N2 < 2 ^ 53 →
  scaled N1 f <= scaled (Zpos m) e <= scaled N2 f →
  ∃ v, value (binary_round 53 1024 false m e) = Some v ∧ scaled N1 f <= v <= scaled N2 f.
Proof.
  intros He Hf HN2 Hb. unfold binary_round.
  pose proof (shl_align_scaled m e (fexp 53 1024 (Zpos (digits2_pos m) + e))) as Ha.
  destruct (shl_align _ _ _) as [m' e']. destruct Ha as [Heq Hr]; [unfold fexp, emin, unit_exp; lia|done|].
  apply round_aux_between; [done..|by rewrite Heq].
Qed.

(** An integer of fewer than 54 bits is converted exactly. *)
Lemma value_of_Z z : 0 <= z < 2 ^ 53 → value (d_of_Z z) = Some (scaled z 0).
Proof.
  intros Hz. unfold d_of_Z. destruct z as [|p|p]; [done| |lia]. cbn [binary_normalize].
  destruct (round_between p 0 (Zpos p) (Zpos p) 0) as (v & -> & Hv); [unfold unit_exp; lia..|].
  f_equal. lia.
Qed.

Lemma of_Z_exponent z m e : 0 <= z < 2 ^ 53 → d_of_Z z = S754_finite false m e → -1074 <= e.
Proof.
  intros Hz Heq. unfold d_of_Z in Heq. destruct z as [|p|p]; [done| |lia]. cbn [binary_normalize] in Heq.
  pose proof (digits2_bound p) as Hb. assert (Zpos (digits2_pos p) <= 53) as Hd.
  { destruct (Z.le_gt_cases (Zpos (digits2_pos p)) 53) as [|Hgt]; [done|].
    assert (2 ^ 53 <= 2 ^ (Zpos (digits2_pos p) - 1)) by (apply Z.pow_le_mono_r; lia). lia. }
  unfold binary_round, shl_align, fexp, emin in Heq. rewrite Z.add_0_r, Z.sub_0_r, Z.max_l in Heq by lia.
  destruct (Zpos (digits2_pos p) - 53) as [|q|q] eqn:E; [| lia |];
    (rewrite round_aux_exact in Heq; [injection Heq as <- <-; lia|rewrite ?digits2_shift; lia|lia]).
Qed.

Lemma value_finite x v :
  value x = Some v → v = 0 ∧ (∃ s, x = S754_zero s) ∨ ∃ m e, x = S754_finite false m e ∧ - unit_exp <= e ∧ v = scaled (Zpos m) e.
Proof.
  destruct x as [s|s| |[] m e]; simpl; try done; [naive_solver|].
  destruct (_ <=? e) eqn:He; [|done]. intros [= <-]. right. exists m, e. by apply Z.leb_le in He.
Qed.

(** The exact product of two values, in the units of one of them. *)
Lemma scaled_mul m1 e1 m2 e2 :
  - unit_exp <= e1 → - unit_exp <= e2 → - unit_exp <= e1 + e2 →
  scaled (m1 * m2) (e1 + e2) * 2 ^ unit_exp = scaled m1 e1 * scaled m2 e2.
Proof.
  intros. unfold scaled. rewrite <- Z.mul_assoc, <- Z.pow_add_r by (unfold unit_exp in *; lia).
  replace (e1 + e2 + unit_exp + unit_exp) with ((e1 + unit_exp) + (e2 + unit_exp)) by lia.
  rewrite Z.pow_add_r by lia. lia.
Qed.

Lemma mul_below x y vx vy N f :
  value x = Some vx → value y = Some vy → -1074 <= f <= 900 → 0 <= N < 2 ^ 53 →
  (∀ m e, x = S754_finite false m e → -1074 <= e) → (∀ m e, y = S754_finite false m e → -1074 <= e) →
  vx * vy <= scaled N f * 2 ^ unit_exp →
  ∃ v, value (d_mul x y) = Some v ∧ 0 <= v <= scaled N f.
Proof.
  intros Hx Hy Hf HN Rx Ry Hle.
  assert (0 <= scaled N f) by (unfold scaled; apply Z.mul_nonneg_nonneg; [lia|apply Z.pow_nonneg; lia]).
  destruct (value_finite _ _ Hx) as [[-> [s ->]]|(m1 & e1 & -> & He1 & ->)];
    destruct (value_finite _ _ Hy) as [[-> [s' ->]]|(m2 & e2 & -> & He2 & ->)]; [by exists 0..|].
  specialize (Rx _ _ eq_refl). specialize (Ry _ _ eq_refl).
  unfold d_mul, SFmul. cbn [xorb].
  destruct (round_aux_between (m1 * m2) (e1 + e2) 0 N f) as (v & -> & Hv); [unfold unit_exp; lia..| |eauto].
  split; [unfold scaled; apply Z.mul_nonneg_nonneg; [lia|apply Z.pow_nonneg; lia]|].
  rewrite <- scaled_mul in Hle by (unfold unit_exp; lia).
  assert (0 < 2 ^ unit_exp) by (apply Z.pow_pos_nonneg; unfold unit_exp; lia).
  rewrite Pos2Z.inj_mul. nia.
Qed.

Lemma align_min m e ez :
  - unit_exp <= ez <= e → scaled (Zpos (fst (shl_align m e ez))) ez = scaled (Zpos m) e.
Proof.
  intros He. unfold shl_align. destruct (ez - e) as [|d|d] eqn:E; cbn [fst].
  - by replace ez with e by lia.
  - lia.
  - rewrite iter_xO, Z.shiftl_mul_pow2 by lia. replace e with (ez + Zpos d) by lia. by rewrite scaled_move by lia.
Qed.

Lemma scaled_sub m1 m2 e : scaled (m1 - m2) e = scaled m1 e - scaled m2 e.
Proof. unfold scaled. lia. Qed.

Lemma scaled_pos p e : - unit_exp <= e → 0 < scaled (Zpos p) e.
Proof. intros. unfold scaled. assert (0 < 2 ^ (e + unit_exp)) by (apply Z.pow_pos_nonneg; lia). lia. Qed.

Lemma scaled_nonneg m e : 0 <= m → 0 <= scaled m e.
Proof. intros. unfold scaled. apply Z.mul_nonneg_nonneg; [done|]. apply Z.pow_nonneg. lia. Qed.

Lemma sub_between x y vx vy N1 N2 f :
  value x = Some vx → value y = Some vy → vy <= vx → -1074 <= f <= 900 → N2 < 2 ^ 53 →
  scaled N1 f <= vx - vy <= scaled N2 f →
  ∃ v, value (d_sub x y) = Some v ∧ scaled N1 f <= v <= scaled N2 f.
Proof.
  intros Hx Hy Hle Hf HN Hb.
  destruct (value_finite _ _ Hx) as [[-> [s ->]]|(m1 & e1 & -> & He1 & ->)];
    destruct (value_finite _ _ Hy) as [[-> [s' ->]]|(m2 & e2 & -> & He2 & ->)].
  - exists 0. split; [by destruct s, s'|lia].
  - pose proof (scaled_pos m2 e2 He2). lia.
  - exists (scaled (Zpos m1) e1). split; [done|lia].
  - unfold d_sub, SFsub. cbn [cond_Zopp].
    rewrite <- (align_min m1 e1 (Z.min e1 e2)), <- (align_min m2 e2 (Z.min e1 e2)), <- scaled_sub in Hb by lia.
    rewrite <- (align_min m1 e1 (Z.min e1 e2)), <- (align_min m2 e2 (Z.min e1 e2)), scaled_mono in Hle by lia.
    destruct (_ - _) as [|p|p] eqn:E; [|by apply round_between; [lia..|]|lia].
    exists 0. split; [done|]. exact Hb.
Qed.

(** The integer part is the floor of the value. *)
Lemma value_int_part x v : value x = Some v → d_int_part x = Some (v / 2 ^ unit_exp).
Proof.
  intros Hx. assert (0 < 2 ^ unit_exp) by (apply Z.pow_pos_nonneg; unfold unit_exp; lia).
  destruct (value_finite _ _ Hx) as [[-> [s ->]]|(m & e & -> & He & ->)]; [done|].
  unfold d_int_part, scaled. f_equal. destruct (0 <=? e) eqn:E.
  - apply Z.leb_le in E. rewrite Z.shiftl_mul_pow2, Z.pow_add_r, Z.mul_assoc, Z.div_mul by (unfold unit_exp; lia). done.
  - apply Z.leb_gt in E. rewrite Z.shiftr_div_pow2 by lia.
    replace unit_exp with (- e + (e + unit_exp)) at 2 by lia.
    rewrite (Z.pow_add_r 2 (- e)) by lia. rewrite Z.div_mul_cancel_r; [done|..]; apply Z.pow_nonzero; lia.
Qed.

(** [static_cast<std::uint64_t>(d)]: undefined out of range. *)
Definition d_to_uint64 (x : double) : option Z :=
  match d_int_part x with
  | Some z => if (0 <=? z) && (z <? 2 ^ 64) then Some z else None
  | None => None
  end.

(** A double in canonical form, at most another: the same of their values. *)
Lemma canonical_exponent m e : canonical_mantissa 53 1024 m e = true → -1074 <= e ∧ Zpos m < 2 ^ 53.
Proof.
  unfold canonical_mantissa, fexp, emin. intros H%Z.eqb_eq. split; [lia|].
  pose proof (digits2_upper m). assert (2 ^ Zpos (digits2_pos m) <= 2 ^ 53) by (apply Z.pow_le_mono_r; lia). lia.
Qed.

Lemma scaled_factor k m e : scaled (k * m) e = k * scaled m e.
Proof. unfold scaled. lia. Qed.

Lemma scaled_double m e : - unit_exp <= e → scaled m (e + 1) = 2 * scaled m e.
Proof. intros He. rewrite scaled_move by lia. unfold scaled. lia. Qed.

Lemma scaled_floor m : scaled m 0 / 2 ^ unit_exp = m.
Proof. unfold scaled. rewrite Z.add_0_l. apply Z.div_mul, Z.pow_nonzero; unfold unit_exp; lia. Qed.

(** The floor of a value between half an integer and an integer. *)
Lemma scaled_floor_between n1 n2 v :
  scaled n1 (-1) <= v <= scaled n2 0 → n1 / 2 <= v / 2 ^ unit_exp <= n2.
Proof.
  intros [H1 H2]. assert (0 < 2 ^ unit_exp) by (apply Z.pow_pos_nonneg; unfold unit_exp; lia). split.
  - rewrite <- (scaled_floor (n1 / 2)). apply Z.div_le_mono; [done|]. etrans; [|exact H1].
    change 0 with (-1 + 1) at 1. rewrite scaled_move by (unfold unit_exp; lia).
    apply scaled_mono; [unfold unit_exp; lia|]. pose proof (Z.mul_div_le n1 2). lia.
  - rewrite <- (scaled_floor n2). by apply Z.div_le_mono.
Qed.

Lemma value_pow2 n :
  0 <= n → value (S754_finite false 4503599627370496 (n - 52)) = Some (scaled (2 ^ n) 0).
Proof.
  intros Hn. unfold value. rewrite (proj2 (Z.leb_le _ _)) by (unfold unit_exp; lia). f_equal. unfold scaled.
  change (Zpos 4503599627370496) with (2 ^ 52). rewrite <- !Z.pow_add_r by (unfold unit_exp; lia). f_equal. lia.
Qed.

(** The order of canonical doubles is the order of their values. *)
Lemma leb_scaled m e m' e' :
  - unit_exp <= e → Zpos m < 2 ^ 53 → 2 ^ 52 <= Zpos m' →
  d_leb (S754_finite false m e) (S754_finite false m' e') = true → scaled (Zpos m) e <= scaled (Zpos m') e'.
Proof.
  intros He Hm Hm' Hle. unfold d_leb, SFleb in Hle. simpl in Hle.
  change (Pos.compare_cont Eq m m') with (m ?= m')%positive in Hle.
  destruct (Z.compare_spec e e') as [<-|Hlt|]; [| |done].
  - apply scaled_mono; [done|]. destruct (Pos.compare_spec m m'); [lia..|done].
  - replace e' with (e + (e' - e)) by lia. rewrite scaled_move by lia. apply scaled_mono; [done|].
    assert (2 ^ 1 <= 2 ^ (e' - e)) by (apply Z.pow_le_mono_r; lia). nia.
Qed.

#[global] Opaque scaled.
