(* ===== verification/Values.v ===== *)
(** * [launchdarkly::Value]

    The JSON-like value of flag variations and context attributes
    (libs/common/src/value.cpp, value.hpp): the variant, its typed accessors
    with their fallback for the wrong type, equality and numeric ordering. *)

From S2P Require Import Prelude OrderedMap Doubles.

(** [Value::Type] *)
Module ValueType.
Inductive t := kNull | kBool | kNumber | kString | kObject | kArray.
#[global] Instance eq_dec : EqDecision t.
Proof. solve_decision. Defined.
End ValueType.

(** The storage variant.  [Value::Object] wraps a [std::map]: its entries are
    kept in key order (see [WfValue]). *)
Inductive Value : Type :=
| VNull
| VBool (b : bool)
| VNumber (d : double)
| VString (s : string)
| VArray (a : list Value)
| VObject (o : list (string * Value)).

(** ** Induction through the nested containers *)

Section ValueInd.
Variable P : Value → Prop.
Hypothesis HNull : P VNull.
Hypothesis HBool : ∀ b, P (VBool b).
Hypothesis HNumber : ∀ d, P (VNumber d).
Hypothesis HString : ∀ s, P (VString s).
Hypothesis HArray : ∀ a, Forall P a → P (VArray a).
Hypothesis HObject : ∀ o, Forall (λ kv, P (snd kv)) o → P (VObject o).

Fixpoint Value_nested_ind (v : Value) : P v :=
  match v with
  | VNull => HNull
  | VBool b => HBool b
  | VNumber d => HNumber d
  | VString s => HString s
  | VArray a =>
      HArray a ((fix go (l : list Value) : Forall P l :=
        match l with
        | [] => Forall_nil_2 P
        | x :: l' => Forall_cons_2 P x l' (Value_nested_ind x) (go l')
        end) a)
  | VObject o =>
      HObject o ((fix go (l : list (string * Value)) : Forall (λ kv, P (snd kv)) l :=
        match l with
        | [] => Forall_nil_2 _
        | kv :: l' => Forall_cons_2 (λ kv, P (snd kv)) kv l' (Value_nested_ind (snd kv)) (go l')
        end) o)
  end.
End ValueInd.

(** ** Accessors *)

(** [Value::Type()] *)
Definition Type_of (v : Value) : ValueType.t :=
  match v with
  | VNull => ValueType.kNull
  | VBool _ => ValueType.kBool
  | VNumber _ => ValueType.kNumber
  | VString _ => ValueType.kString
  | VArray _ => ValueType.kArray
  | VObject _ => ValueType.kObject
  end.

Definition IsNull (v : Value) : bool := match v with VNull => true | _ => false end.
Definition IsBool (v : Value) : bool := match v with VBool _ => true | _ => false end.
Definition IsNumber (v : Value) : bool := match v with VNumber _ => true | _ => false end.
Definition IsString (v : Value) : bool := match v with VString _ => true | _ => false end.
Definition IsArray (v : Value) : bool := match v with VArray _ => true | _ => false end.
Definition IsObject (v : Value) : bool := match v with VObject _ => true | _ => false end.

Definition AsBool (v : Value) : bool := match v with VBool b => b | _ => false end.

(** [Value::AsInt]: [static_cast<int>] of the stored double, whose behaviour is
    undefined ([None]) when the truncated number does not fit 32 bits. *)
Definition AsInt (v : Value) : option Z :=
  match v with VNumber d => d_to_signed 32 d | _ => Some 0 end.

Definition AsDouble (v : Value) : double :=
  match v with VNumber d => d | _ => d_of_Z 0 end.

Definition AsString (v : Value) : string :=
  match v with VString s => s | _ => EmptyString end.

Definition AsArray (v : Value) : list Value :=
  match v with VArray a => a | _ => [] end.

Definition AsObject (v : Value) : list (string * Value) :=
  match v with VObject o => o | _ => [] end.

(** [Value(std::optional<std::string>)] *)
Definition of_opt_string (o : option string) : Value :=
  match o with Some s => VString s | None => VNull end.

(** [Value(int)] *)
Definition of_int (n : Z) : Value := VNumber (d_of_Z n).

(** [Value::Object(std::initializer_list<...>)]: [std::map::insert] keeps the
    first of two entries with the same key. *)
Definition Object_of_list (l : list (string * Value)) : list (string * Value) :=
  foldl (λ m kv, emplace kv.1 kv.2 m) [] l.

(** [Value::Array::operator\[\]]; [None] models the undefined access past the end. *)
Definition Array_at (a : list Value) (index : nat) : option Value := a !! index.

(** [Value::Object::operator\[\]] ([std::map::at]); [None] models the exception. *)
Definition Object_at (o : list (string * Value)) (key : string) : option Value :=
  find key o.

Definition Object_Count (o : list (string * Value)) (key : string) : nat :=
  match find key o with Some _ => 1%nat | None => 0%nat end.

(** ** Comparison *)

(** [operator==(Value, Value)], with [std::equal] on the containers. *)
Fixpoint Value_eqb (lhs rhs : Value) {struct lhs} : bool :=
  match lhs, rhs with
  | VNull, VNull => true
  | VBool x, VBool y => Bool.eqb x y
  | VNumber x, VNumber y => d_eqb x y
  | VString x, VString y => str_eqb x y
  | VArray xs, VArray ys =>
      (fix go (xs ys : list Value) : bool :=
         match xs, ys with
         | [], [] => true
         | x :: xs', y :: ys' => Value_eqb x y && go xs' ys'
         | _, _ => false
         end) xs ys
  | VObject xs, VObject ys =>
      (fix go (xs ys : list (string * Value)) : bool :=
         match xs, ys with
         | [], [] => true
         | (k, x) :: xs', (j, y) :: ys' => str_eqb k j && Value_eqb x y && go xs' ys'
         | _, _ => false
         end) xs ys
  | _, _ => false
  end.

Definition Value_neqb (lhs rhs : Value) : bool := negb (Value_eqb lhs rhs).

Definition BothNumbers (lhs rhs : Value) : bool := IsNumber lhs && IsNumber rhs.

Definition Value_ltb (lhs rhs : Value) : bool :=
  BothNumbers lhs rhs && d_ltb (AsDouble lhs) (AsDouble rhs).

Definition Value_gtb (lhs rhs : Value) : bool :=
  BothNumbers lhs rhs && Value_ltb rhs lhs.

Definition Value_leb (lhs rhs : Value) : bool :=
  BothNumbers lhs rhs && negb (Value_gtb lhs rhs).

Definition Value_geb (lhs rhs : Value) : bool :=
  BothNumbers lhs rhs && negb (Value_ltb lhs rhs).

(** ** Well-formed values *)

(** Every object is an ordered container. *)
Fixpoint WfValue (v : Value) : Prop :=
  match v with
  | VArray a => (fix go l := match l with [] => True | x :: l' => WfValue x ∧ go l' end) a
  | VObject o =>
      Ordered o ∧
      (fix go l := match l with [] => True | kv :: l' => WfValue (snd kv) ∧ go l' end) o
  | _ => True
  end.

(** No NaN anywhere (JSON cannot spell one). *)
Fixpoint nan_free (v : Value) : bool :=
  match v with
  | VNumber d => negb (is_nan d)
  | VArray a => forallb nan_free a
  | VObject o => forallb (λ kv, nan_free (snd kv)) o
  | _ => true
  end.

Lemma Value_eqb_array xs ys :
  Value_eqb (VArray xs) (VArray ys) = true ↔ Forall2 (λ x y, Value_eqb x y = true) xs ys.
Proof.
  revert ys. induction xs as [|x xs IH]; intros [|y ys]; simpl;
    try (split; [by (done || constructor)|by inversion 1]).
  split.
  - intros [H1 H2]%andb_true_iff. constructor; [done|by apply IH].
  - inversion 1; subst. apply andb_true_iff. split; [done|by apply IH].
Qed.

Lemma Value_eqb_object xs ys :
  Value_eqb (VObject xs) (VObject ys) = true ↔
  Forall2 (λ x y, x.1 = y.1 ∧ Value_eqb x.2 y.2 = true) xs ys.
Proof.
  revert ys. induction xs as [|[k x] xs IH]; intros [|[j y] ys]; simpl;
    try (split; [by (done || constructor)|by inversion 1]).
  split.
  - intros [[H1%str_eqb_eq H2]%andb_true_iff H3]%andb_true_iff.
    constructor; [done|by apply IH].
  - inversion 1 as [|???? []]; simplify_eq/=. rewrite str_eqb_refl.
    apply andb_true_iff. split; [done|by apply IH].
Qed.

Lemma Value_eqb_sym_true x y : Value_eqb x y = true → Value_eqb y x = true.
Proof.
  revert y. induction x as [|b|d|s|a IH|o IH] using Value_nested_ind;
    intros []; try done.
  - simpl. by rewrite !eqb_true_iff.
  - simpl. by rewrite d_eqb_sym.
  - simpl. rewrite !str_eqb_eq. done.
  - rewrite !Value_eqb_array. intros H. apply Forall2_flip. revert IH.
    induction H; intros; decompose_Forall_hyps; constructor; simpl; auto.
  - rewrite !Value_eqb_object. intros H. apply Forall2_flip. revert IH.
    induction H; intros; decompose_Forall_hyps; constructor; simpl; naive_solver.
Qed.

(** Equality of values is symmetric. *)
Lemma Value_eqb_sym x y : Value_eqb x y = Value_eqb y x.
Proof. apply eq_iff_eq_true. split; apply Value_eqb_sym_true. Qed.

Lemma Value_eqb_trans x y z :
  Value_eqb x y = true → Value_eqb y z = true → Value_eqb x z = true.
Proof.
  revert y z. induction x as [|b|d|s|a IH|o IH] using Value_nested_ind;
    intros [|?|?|?|ya|yo] [|?|?|?|za|zo]; try done.
  - simpl. rewrite !eqb_true_iff. congruence.
  - simpl. apply d_eqb_trans.
  - simpl. rewrite !str_eqb_eq. congruence.
  - rewrite !Value_eqb_array. intros H1. revert za IH.
    induction H1; intros za IH H2; inversion H2; subst; decompose_Forall_hyps;
      constructor; eauto.
  - rewrite !Value_eqb_object. intros H1. revert zo IH.
    induction H1; intros zo IH H2; inversion H2; subst; decompose_Forall_hyps;
      constructor; naive_solver congruence.
Qed.

Lemma Value_eqb_refl x : nan_free x = true → Value_eqb x x = true.
Proof.
  induction x as [|b|d|s|a IH|o IH] using Value_nested_ind; intros Hn; try done.
  - simpl. by apply eqb_true_iff.
  - simpl. by rewrite d_eqb_refl.
  - simpl. apply str_eqb_refl.
  - apply Value_eqb_array. simpl in Hn.
    induction a as [|x a IHa]; [constructor|]. simpl in Hn. apply andb_true_iff in Hn as [].
    apply Forall_cons_1 in IH as []. constructor; auto.
  - apply Value_eqb_object. simpl in Hn.
    induction o as [|x a IHa]; [constructor|]. simpl in Hn. apply andb_true_iff in Hn as [].
    apply Forall_cons_1 in IH as []. constructor; auto.
Qed.

(** Equal strings, and nothing else, equal a string value. *)
Lemma Value_eqb_string s v : Value_eqb (VString s) v = true ↔ v = VString s.
Proof.
  destruct v; simpl; split; try done.
  - by intros ->%str_eqb_eq.
  - intros [= ->]. apply str_eqb_refl.
Qed.

Lemma Value_ltb_spec x y :
  Value_ltb x y = true ↔ ∃ d e, x = VNumber d ∧ y = VNumber e ∧ d_ltb d e = true.
Proof.
  unfold Value_ltb, BothNumbers. destruct x, y; simpl; split; try done; naive_solver.
Qed.

Lemma Value_gtb_flip x y : Value_gtb x y = Value_ltb y x.
Proof. unfold Value_gtb, Value_ltb, BothNumbers. destruct x, y; simpl; done. Qed.

(** On NaN-free numbers the four operators are the strict and weak orders of a
    total order whose equality is [operator==]. *)
Lemma Value_order_numbers d e :
  is_nan d = false → is_nan e = false →
  Value_leb (VNumber d) (VNumber e) =
    Value_ltb (VNumber d) (VNumber e) || Value_eqb (VNumber d) (VNumber e) ∧
  Value_geb (VNumber d) (VNumber e) = Value_leb (VNumber e) (VNumber d).
Proof.
  intros Hd He. unfold Value_leb, Value_geb. rewrite !Value_gtb_flip.
  unfold Value_ltb, BothNumbers; simpl. split; [|done].
  destruct (d_trichotomy d e Hd He) as [H|[H|H]]; rewrite H; simpl.
  - by rewrite (proj2 (d_ltb_excl _ _ H)).
  - rewrite orb_true_r. apply negb_true_iff, not_true_iff_false.
    intros [E _]%d_ltb_excl. rewrite d_eqb_sym in E. congruence.
  - apply d_ltb_excl in H as [E ->]. by rewrite d_eqb_sym, E.
Qed.

Lemma WfValue_array a : WfValue (VArray a) ↔ Forall WfValue a.
Proof.
  induction a as [|x a IH]; [by repeat constructor|]. split.
  - intros [? ?]. constructor; [done|by apply IH].
  - intros [? ?]%Forall_cons_1. split; [done|by apply IH].
Qed.

Lemma WfValue_object o : WfValue (VObject o) ↔ Ordered o ∧ Forall (λ kv, WfValue kv.2) o.
Proof.
  apply and_iff_compat_l. induction o as [|x o IH]; [by repeat constructor|]. split.
  - intros [? ?]. constructor; [done|by apply IH].
  - intros [? ?]%Forall_cons_1. split; [done|by apply IH].
Qed.

(** Building an object from an initializer list gives an ordered container in
    which a key maps to its first occurrence. *)
Lemma Object_of_list_spec l :
  Ordered (Object_of_list l) ∧ ∀ k, find k (Object_of_list l) = find k l.
Proof.
  unfold Object_of_list.
  assert (∀ m, Ordered m → Ordered (foldl (λ m kv, emplace kv.1 kv.2 m) m l) ∧
    ∀ k, find k (foldl (λ m kv, emplace kv.1 kv.2 m) m l) =
      match find k m with Some v => Some v | None => find k l end) as H.
  { induction l as [|[k v] l IH]; simpl; intros m Hm.
    - split; [done|]. intros k. by destruct (find k m).
    - destruct (IH (emplace k v m)) as [IH1 IH2]; [by apply emplace_ordered|].
      split; [done|]. intros j. rewrite IH2. clear IH1 IH2 IH.
      destruct (str_eqb j k) eqn:E.
      + apply str_eqb_eq in E as ->. destruct (find k m) eqn:F.
        * by erewrite find_emplace_present, F by done.
        * by rewrite find_emplace_new.
      + apply str_eqb_neq in E. by rewrite find_emplace_ne. }
  destruct (H [] ordered_nil) as [H1 H2]. split; [done|]. intros k. by rewrite H2.
Qed.

#[export] Hint Resolve Value_eqb_refl : ld.
