(* ===== verification/AttributeReferences.v ===== *)
(** * Attribute references

    libs/common/src/attribute_reference.cpp: the character-driven state machine
    that decodes a reference string into path components, the escaping of
    literals, and the printing of a path as a reference string. *)

From S2P Require Import Prelude.

Definition NUL : ascii := zero.

(** ** The parser *)

Module ParseState.
Inductive t := kBegin | kPlain | kTokenBegin | kSearchingEnd | kEscapeBegin | kRefEnd.
End ParseState.

Module ParseEvent.
Inductive t := kNoop | kChar | kTilde | kForwardSlash | kTokenEnd | kInputEnd | kError.
End ParseEvent.

Definition ParseChar (state : ParseState.t) (input : ascii) : ParseState.t * ParseEvent.t :=
  match state with
  | ParseState.kBegin =>
      if (input =? "/")%char then (ParseState.kTokenBegin, ParseEvent.kNoop)
      else if (input =? NUL)%char then (ParseState.kRefEnd, ParseEvent.kError)
      else (ParseState.kPlain, ParseEvent.kChar)
  | ParseState.kPlain =>
      if (input =? NUL)%char then (ParseState.kRefEnd, ParseEvent.kInputEnd)
      else (ParseState.kPlain, ParseEvent.kChar)
  | ParseState.kTokenBegin =>
      if (input =? NUL)%char || (input =? "/")%char
      then (ParseState.kRefEnd, ParseEvent.kError)
      else if (input =? "~")%char then (ParseState.kEscapeBegin, ParseEvent.kNoop)
      else (ParseState.kSearchingEnd, ParseEvent.kChar)
  | ParseState.kSearchingEnd =>
      if (input =? NUL)%char then (ParseState.kRefEnd, ParseEvent.kInputEnd)
      else if (input =? "~")%char then (ParseState.kEscapeBegin, ParseEvent.kNoop)
      else if (input =? "/")%char then (ParseState.kTokenBegin, ParseEvent.kTokenEnd)
      else (ParseState.kSearchingEnd, ParseEvent.kChar)
  | ParseState.kEscapeBegin =>
      if (input =? "0")%char then (ParseState.kSearchingEnd, ParseEvent.kTilde)
      else if (input =? "1")%char then (ParseState.kSearchingEnd, ParseEvent.kForwardSlash)
      else (ParseState.kRefEnd, ParseEvent.kError)
  | ParseState.kRefEnd => (ParseState.kRefEnd, ParseEvent.kNoop)
  end.

(** The loop of [ParseRef] from an intermediate state: the characters still to
    read, the token under construction and the components pushed so far.  The
    result is the returned flag with the final contents of [components]. *)
Fixpoint ParseRef_loop (p_state : ParseState.t) (tmp_token : list ascii)
    (components : list string) (input : list ascii) : bool * list string :=
  match input with
  | [] => (false, components)
  | character :: input' =>
      let '(new_p_state, event) := ParseChar p_state character in
      match event with
      | ParseEvent.kNoop => ParseRef_loop new_p_state tmp_token components input'
      | ParseEvent.kChar =>
          ParseRef_loop new_p_state (tmp_token ++ [character]) components input'
      | ParseEvent.kForwardSlash =>
          ParseRef_loop new_p_state (tmp_token ++ ["/"%char]) components input'
      | ParseEvent.kTilde =>
          ParseRef_loop new_p_state (tmp_token ++ ["~"%char]) components input'
      | ParseEvent.kTokenEnd =>
          ParseRef_loop new_p_state [] (components ++ [of_chars tmp_token]) input'
      | ParseEvent.kInputEnd => (true, components ++ [of_chars tmp_token])
      | ParseEvent.kError => (false, components)
      end
  end.

(** [ParseRef]: the loop reads one NUL past the end of the string. *)
Definition ParseRef (str : string) : bool * list string :=
  ParseRef_loop ParseState.kBegin [] [] (chars str ++ [NUL]).

(** ** Escaping *)

Definition escape_char (character : ascii) : list ascii :=
  if (character =? "~")%char then ["~"; "0"]%char
  else if (character =? "/")%char then ["~"; "1"]%char
  else [character].

Definition EscapeLiteral (literal : string) (prepend_slash : bool) : string :=
  of_chars ((if prepend_slash then ["/"%char] else []) ++ (chars literal ≫= escape_char)).

(** ** The reference *)

Record AttributeReference := mkAttributeReference {
  valid_ : bool;
  redaction_name_ : string;
  components_ : list string;
}.

(** The private constructor [AttributeReference(std::string, bool)]. *)
Definition make_reference (str : string) (literal : bool) : AttributeReference :=
  match chars str with
  | [] => mkAttributeReference false EmptyString []
  | c :: _ =>
      if literal then
        mkAttributeReference true
          (if (c =? "/")%char then EscapeLiteral str true else str) [str]
      else
        let '(ok, comps) := ParseRef str in
        mkAttributeReference ok str (if ok then comps else [])
  end.

Definition FromLiteralStr (lit_str : string) : AttributeReference := make_reference lit_str true.
Definition FromReferenceStr (ref_str : string) : AttributeReference := make_reference ref_str false.

Definition Component (r : AttributeReference) (depth : nat) : string :=
  default EmptyString (components_ r !! depth).

Definition Depth (r : AttributeReference) : nat := length (components_ r).

Definition IsKind (r : AttributeReference) : bool :=
  (Depth r =? 1)%nat && str_eqb (Component r 0) "kind".

Definition Valid (r : AttributeReference) : bool := valid_ r.
Definition RedactionName (r : AttributeReference) : string := redaction_name_ r.

(** [operator==(std::vector<std::string_view>)] *)
Definition ref_matches_path (r : AttributeReference) (path : list string) : bool :=
  bool_decide (components_ r = path).

(** [std::string(char const star)]: reading stops at the first NUL. *)
Fixpoint c_str (l : list ascii) : list ascii :=
  match l with
  | [] => []
  | c :: l' => if (c =? NUL)%char then [] else c :: c_str l'
  end.

(** One component of [PathToStringReference]: the escaped form goes through
    [component.data()], hence through a C string. *)
Definition path_component (component : string) : list ascii :=
  if existsb (λ c, (c =? "/")%char || (c =? "~")%char) (chars component)
  then chars (EscapeLiteral (of_chars (c_str (chars component))) false)
  else chars component.

Fixpoint path_tail (path : list string) : list ascii :=
  match path with
  | [] => []
  | component :: path' => "/"%char :: path_component component ++ path_tail path'
  end.

Definition PathToStringReference (path : list string) : string :=
  of_chars
    (match path with
     | [] => ["/"%char]
     | component :: path' => "/"%char :: path_component component ++ path_tail path'
     end).

(** ** Lemmas *)

Definition nul_free (l : list ascii) : Prop := NUL ∉ l.

#[global] Instance nul_free_dec l : Decision (nul_free l).
Proof. unfold nul_free. apply _. Defined.

Lemma c_str_nul_free l : nul_free l → c_str l = l.
Proof.
  unfold nul_free. induction l as [|c l IH]; simpl; [done|]. intros H.
  destruct (c =? NUL)%char eqn:E.
  - apply Ascii.eqb_eq in E. set_solver.
  - f_equal. apply IH. set_solver.
Qed.

Lemma escape_char_plain c :
  (c =? "/")%char = false → (c =? "~")%char = false → escape_char c = [c].
Proof. unfold escape_char. by intros -> ->. Qed.

(** Escaping a NUL-free component is the character-wise escape, whether or not
    the code takes its fast path. *)
Lemma path_component_escape s :
  nul_free (chars s) → path_component s = chars s ≫= escape_char.
Proof.
  intros Hn. unfold path_component, EscapeLiteral.
  destruct (existsb _ _) eqn:E.
  - rewrite c_str_nul_free by done. autorewrite with ld. done.
  - clear Hn. induction (chars s) as [|c l IH]; [done|]. simpl in *.
    apply orb_false_iff in E as [E1 E2]. apply orb_false_iff in E1 as [Es Et].
    rewrite escape_char_plain by done. simpl. f_equal. by apply IH.
Qed.

Ltac char_cases c :=
  destruct (c =? "/")%char eqn:?Hslash; [apply Ascii.eqb_eq in Hslash; subst c|];
  [|destruct (c =? "~")%char eqn:?Htilde; [apply Ascii.eqb_eq in Htilde; subst c|]].

(** Reading back the escape of a token from inside a token. *)
Lemma parse_escaped_token l tok comps rest :
  nul_free l →
  ParseRef_loop ParseState.kSearchingEnd tok comps ((l ≫= escape_char) ++ rest) =
  ParseRef_loop ParseState.kSearchingEnd (tok ++ l) comps rest.
Proof.
  unfold nul_free. revert tok. induction l as [|c l IH]; intros tok Hn; simpl.
  - by rewrite app_nil_r.
  - assert (c ≠ NUL ∧ NUL ∉ l) as [Hc Hl] by set_solver.
    apply Ascii.eqb_neq in Hc. rewrite <- app_assoc.
    unfold escape_char at 1. char_cases c; simpl.
    + rewrite IH by done. by rewrite <- app_assoc.
    + rewrite IH by done. by rewrite <- app_assoc.
    + rewrite Hc, Htilde, Hslash. simpl. rewrite IH by done. by rewrite <- app_assoc.
Qed.

Lemma parse_escaped_first l comps rest :
  nul_free l → l ≠ [] →
  ParseRef_loop ParseState.kTokenBegin [] comps ((l ≫= escape_char) ++ rest) =
  ParseRef_loop ParseState.kSearchingEnd l comps rest.
Proof.
  destruct l as [|c l]; [done|]. intros Hn _. unfold nul_free in *.
  assert (c ≠ NUL ∧ NUL ∉ l) as [Hc Hl] by set_solver. apply Ascii.eqb_neq in Hc.
  simpl. rewrite <- app_assoc. unfold escape_char at 1. char_cases c; simpl.
  - by rewrite parse_escaped_token.
  - by rewrite parse_escaped_token.
  - rewrite Hc, Htilde, Hslash. simpl. by rewrite parse_escaped_token.
Qed.

(** A path component that the round trips are about. *)
Definition good_component (s : string) : Prop := s ≠ EmptyString ∧ nul_free (chars s).

#[global] Instance good_component_dec s : Decision (good_component s).
Proof. unfold good_component. apply _. Defined.

Lemma chars_nonempty s : s ≠ EmptyString → chars s ≠ [].
Proof. by destruct s. Qed.

Lemma parse_path_tail path c comps :
  Forall good_component path →
  ParseRef_loop ParseState.kSearchingEnd (chars c) comps (path_tail path ++ [NUL]) =
  (true, comps ++ c :: path).
Proof.
  revert c comps. induction path as [|d path IH]; intros c comps Hg; simpl.
  - by rewrite of_chars_chars.
  - apply Forall_cons_1 in Hg as [[Hne Hn] Hg].
    rewrite path_component_escape, <- app_assoc by done.
    rewrite parse_escaped_first by auto using chars_nonempty.
    rewrite IH by done. rewrite of_chars_chars, <- app_assoc. done.
Qed.

Lemma parse_path path :
  path ≠ [] → Forall good_component path →
  ParseRef (PathToStringReference path) = (true, path).
Proof.
  destruct path as [|c path]; [done|]. intros _ [[Hne Hn] Hg]%Forall_cons_1.
  unfold ParseRef, PathToStringReference. rewrite chars_of_chars. simpl.
  rewrite path_component_escape, <- app_assoc by done.
  rewrite parse_escaped_first by auto using chars_nonempty.
  by rewrite parse_path_tail.
Qed.

Lemma parse_plain l tok comps :
  nul_free l →
  ParseRef_loop ParseState.kPlain tok comps (l ++ [NUL]) =
  (true, comps ++ [of_chars (tok ++ l)]).
Proof.
  unfold nul_free. revert tok. induction l as [|c l IH]; intros tok Hn; simpl.
  - by rewrite app_nil_r.
  - assert (c ≠ NUL ∧ NUL ∉ l) as [Hc Hl] by set_solver. apply Ascii.eqb_neq in Hc.
    rewrite Hc. simpl. rewrite IH by done. by rewrite <- app_assoc.
Qed.

(** What the reference constructor guarantees of its result. *)
Definition WfReference (r : AttributeReference) : Prop :=
  (valid_ r = true ↔ components_ r ≠ []) ∧ Forall (λ s, s ≠ EmptyString) (components_ r).

(** The token under construction is non-empty in every state from which it can
    be pushed. *)
Definition token_ok (st : ParseState.t) (tok : list ascii) : Prop :=
  match st with
  | ParseState.kPlain | ParseState.kSearchingEnd => tok ≠ []
  | _ => True
  end.

Lemma ParseRef_loop_nonempty st tok comps input res :
  ParseRef_loop st tok comps input = (true, res) → token_ok st tok →
  Forall (λ s, s ≠ EmptyString) comps →
  res ≠ [] ∧ Forall (λ s, s ≠ EmptyString) res.
Proof.
  revert st tok comps. induction input as [|c input IH]; intros st tok comps; simpl; [done|].
  assert (∀ tok' : list ascii, tok' ≠ [] → of_chars tok' ≠ EmptyString) as Hoc.
  { by intros []. }
  assert (∀ s, s ≠ EmptyString → Forall (λ s, s ≠ EmptyString) comps →
    Forall (λ s, s ≠ EmptyString) (comps ++ [s])) as Hsnoc.
  { intros. apply Forall_app. split; [done|]. by constructor. }
  destruct (ParseChar st c) as [st' ev] eqn:E. destruct ev; intros Heq Hok HF; simplify_eq.
  all: unfold ParseChar in E; destruct st; csplits; simplify_eq/=;
    try (eapply IH; eauto; simpl; auto; by destruct tok).
  all: split; [by destruct comps|auto].
Qed.

Lemma make_reference_wf str literal : WfReference (make_reference str literal).
Proof.
  unfold make_reference, WfReference. destruct (chars str) as [|c l] eqn:E.
  - split; [done|constructor].
  - assert (str ≠ EmptyString) by (by intros ->). destruct literal; simpl.
    + split; [done|]. by constructor.
    + destruct (ParseRef str) as [ok comps] eqn:P. simpl. destruct ok.
      * unfold ParseRef in P. apply ParseRef_loop_nonempty in P as [? ?]; done.
      * split; [done|constructor].
Qed.

#[export] Hint Resolve make_reference_wf : ld.

(** Escapes are canonical: what the parser accepts after a leading slash prints
    back to the characters that were read. *)
Lemma parse_print_loop input : ∀ st tok comps res,
  ParseRef_loop st tok comps (input ++ [NUL]) = (true, res) → nul_free input →
  match st with
  | ParseState.kTokenBegin =>
      tok = [] → ∃ c path, res = comps ++ c :: path ∧
        input = (chars c ≫= escape_char) ++ (path ≫= λ d, "/"%char :: (chars d ≫= escape_char))
  | ParseState.kSearchingEnd =>
      ∃ c path, res = comps ++ of_chars (tok ++ c) :: path ∧
        input = (c ≫= escape_char) ++ (path ≫= λ d, "/"%char :: (chars d ≫= escape_char))
  | ParseState.kEscapeBegin =>
      ∃ c path, res = comps ++ of_chars (tok ++ c) :: path ∧
        "~"%char :: input =
          (c ≫= escape_char) ++ (path ≫= λ d, "/"%char :: (chars d ≫= escape_char))
  | _ => True
  end.
Proof.
  induction input as [|ch input IH]; intros st tok comps res Hp Hn.
  - destruct st; simpl in *; simplify_eq; try done.
    exists [], []. by rewrite app_nil_r.
  - unfold nul_free in *. assert (ch ≠ NUL ∧ NUL ∉ input) as [Hc Hl] by set_solver.
    apply Ascii.eqb_neq in Hc. destruct st; try done; simpl in Hp; rewrite ?Hc in Hp; simpl in Hp.
    + intros ->. destruct (ch =? "/")%char eqn:Es; [done|]. simpl in Hp.
      destruct (ch =? "~")%char eqn:Et.
      * apply Ascii.eqb_eq in Et as ->. apply IH in Hp as (c & path & -> & E); [|done].
        exists (of_chars c), path. rewrite chars_of_chars. done.
      * apply IH in Hp as (c & path & -> & ->); [|done].
        exists (of_chars (ch :: c)), path. split; [done|].
        rewrite chars_of_chars. simpl. by rewrite escape_char_plain.
    + destruct (ch =? "~")%char eqn:Et.
      { apply Ascii.eqb_eq in Et as ->. by apply IH in Hp. }
      destruct (ch =? "/")%char eqn:Es.
      * apply Ascii.eqb_eq in Es as ->.
        destruct (IH _ _ _ _ Hp Hl eq_refl) as (c & path & -> & ->).
        exists [], (c :: path). rewrite app_nil_r, <- app_assoc. done.
      * apply IH in Hp as (c & path & -> & ->); [|done].
        exists (ch :: c), path. rewrite <- app_assoc. split; [done|].
        simpl. by rewrite escape_char_plain.
    + destruct (ch =? "0")%char eqn:E0; [|destruct (ch =? "1")%char eqn:E1; [|done]].
      * apply Ascii.eqb_eq in E0 as ->. apply IH in Hp as (c & path & -> & ->); [|done].
        exists ("~"%char :: c), path. by rewrite <- app_assoc.
      * apply Ascii.eqb_eq in E1 as ->. apply IH in Hp as (c & path & -> & ->); [|done].
        exists ("/"%char :: c), path. by rewrite <- app_assoc.
Qed.

Lemma escape_nul_free l : nul_free (l ≫= escape_char) → nul_free l.
Proof.
  unfold nul_free. induction l as [|c l IH]; simpl; [done|].
  intros Hn [Hc|H]%elem_of_cons.
  - apply Hn. apply elem_of_app. left. rewrite <- Hc. by left.
  - apply IH; [|done]. intros ?. apply Hn. apply elem_of_app. by right.
Qed.

Lemma path_tail_escape path :
  nul_free (path ≫= λ d, "/"%char :: (chars d ≫= escape_char)) →
  path_tail path = path ≫= λ d, "/"%char :: (chars d ≫= escape_char).
Proof.
  induction path as [|d path IH]; simpl; [done|]. intros Hn.
  unfold nul_free in Hn. rewrite not_elem_of_cons, not_elem_of_app in Hn.
  destruct Hn as (_ & Hd & Hp). rewrite IH by done.
  by rewrite path_component_escape by (by apply escape_nul_free).
Qed.

(** ** Properties *)

Lemma path_reference_roundtrip_lemma path :
  path ≠ [] → Forall good_component path →
  Valid (FromReferenceStr (PathToStringReference path)) = true ∧
  components_ (FromReferenceStr (PathToStringReference path)) = path.
Proof.
  intros Hne Hgood. unfold FromReferenceStr, make_reference.
  destruct (chars (PathToStringReference path)) as [|c l] eqn:E.
  - destruct path; [done|]. by unfold PathToStringReference in E.
  - by rewrite parse_path.
Qed.

Lemma literal_components (lit : string)
  (Hne : lit ≠ EmptyString) (Hnul : nul_free (chars lit)) :
  let r := FromReferenceStr (RedactionName (FromLiteralStr lit)) in
  Valid r = true ∧ components_ r = components_ (FromLiteralStr lit).
Proof.
  destruct (chars lit) as [|c l] eqn:E; [by apply chars_nonempty in Hne|].
  assert (FromLiteralStr lit = mkAttributeReference true
    (if (c =? "/")%char then EscapeLiteral lit true else lit) [lit]) as ->.
  { unfold FromLiteralStr, make_reference. by rewrite E. }
  unfold RedactionName. simpl. destruct (c =? "/")%char eqn:Es.
  - assert (EscapeLiteral lit true = PathToStringReference [lit]) as ->.
    { unfold EscapeLiteral, PathToStringReference. simpl.
      rewrite path_component_escape by (by rewrite E). rewrite app_nil_r. done. }
    apply path_reference_roundtrip_lemma; [done|]. constructor; [|constructor].
    split; [done|]. by rewrite E.
  - unfold FromReferenceStr, make_reference. rewrite E. unfold ParseRef. rewrite E. simpl.
    unfold nul_free in *. assert (c ≠ NUL ∧ NUL ∉ l) as [Hc Hl] by set_solver.
    apply Ascii.eqb_neq in Hc. rewrite Es, Hc. simpl. rewrite parse_plain by done. simpl.
    split; [done|]. f_equal. rewrite <- (of_chars_chars lit), E. done.
Qed.

Lemma reference_redaction_name s : RedactionName (FromReferenceStr s) = s.
Proof.
  unfold FromReferenceStr, make_reference. destruct (chars s) as [|c l] eqn:E.
  - by destruct s.
  - by destruct (ParseRef s).
Qed.

(** A NUL-free literal is recovered from its redaction name, flags and all. *)
Lemma literal_reference_stable lit :
  nul_free (chars lit) → FromReferenceStr (RedactionName (FromLiteralStr lit)) = FromLiteralStr lit.
Proof.
  intros Hn. destruct (decide (lit = EmptyString)) as [-> |Hne]; [done|].
  destruct (literal_components lit Hne Hn) as [Hv Hc].
  pose proof (reference_redaction_name (RedactionName (FromLiteralStr lit))) as Hr.
  destruct (FromReferenceStr _) as [v' n' c'].
  assert (valid_ (FromLiteralStr lit) = true) as Hl.
  { unfold FromLiteralStr, make_reference. destruct (chars lit) eqn:E; [|done].
    by apply chars_nonempty in Hne. }
  destruct (FromLiteralStr lit) as [v n c]. unfold Valid, RedactionName in *. simpl in *. congruence.
Qed.

(** Printing a path and parsing it back gives the path: for every
    non-empty path of non-empty NUL-free components, the reference built from
    [PathToStringReference] is valid and has exactly these components, whatever
    '/' and '~' characters they contain. *)
Theorem path_reference_roundtrip (path : list string)
  (Hne : path ≠ []) (Hgood : Forall good_component path) :
  Valid (FromReferenceStr (PathToStringReference path)) = true ∧
  components_ (FromReferenceStr (PathToStringReference path)) = path.
Proof. by apply path_reference_roundtrip_lemma. Qed.

Lemma path_reference_roundtrip_witness :
  components_ (FromReferenceStr (PathToStringReference ["a/b"; "~c"; "d"])) = ["a/b"; "~c"; "d"].
Proof.
  apply (path_reference_roundtrip ["a/b"; "~c"; "d"]); [done|].
  by_decide.
Defined.

(** Parsing is the inverse of printing: a valid NUL-free reference string
    that starts with '/' is exactly the string printed for its components, so
    distinct reference strings denote distinct paths. *)
Theorem reference_path_roundtrip (s : string)
  (Hslash : head (chars s) = Some "/"%char)
  (Hnul : nul_free (chars s))
  (Hvalid : Valid (FromReferenceStr s) = true) :
  PathToStringReference (components_ (FromReferenceStr s)) = s.
Proof.
  unfold FromReferenceStr, make_reference in *.
  destruct (chars s) as [|c l] eqn:E; simplify_eq/=.
  destruct (ParseRef s) as [ok comps] eqn:P. simpl in Hvalid. subst ok. simpl.
  unfold ParseRef in P. rewrite E in P. simpl in P.
  assert (nul_free l) as Hl by (unfold nul_free in *; set_solver).
  apply parse_print_loop in P; [|done]. destruct (P eq_refl) as (d & path & -> & El).
  apply chars_inj. rewrite E, El. unfold PathToStringReference. simpl.
  rewrite chars_of_chars. rewrite El in Hl. unfold nul_free in Hl.
  rewrite not_elem_of_app in Hl. destruct Hl as [Hd Hp].
  by rewrite path_component_escape, path_tail_escape by auto using escape_nul_free.
Qed.

Lemma reference_path_roundtrip_witness :
  PathToStringReference (components_ (FromReferenceStr "/a~1b/~0c")) = "/a~1b/~0c".
Proof.
  apply (reference_path_roundtrip "/a~1b/~0c"); [reflexivity| |reflexivity].
  by_decide.
Defined.

(** The redaction name of a literal is itself a reference string for that
    literal: a NUL-free non-empty literal, also one that starts with '/', is
    the only component of the reference parsed from its redaction name. *)
Theorem literal_redaction_roundtrip (lit : string)
  (Hne : lit ≠ EmptyString) (Hnul : nul_free (chars lit)) :
  let r := FromReferenceStr (RedactionName (FromLiteralStr lit)) in
  Valid r = true ∧ components_ r = components_ (FromLiteralStr lit).
Proof. by apply literal_components. Qed.

Lemma literal_redaction_roundtrip_witness :
  components_ (FromReferenceStr (RedactionName (FromLiteralStr "/~lit/eral"))) = ["/~lit/eral"].
Proof.
  apply (literal_redaction_roundtrip "/~lit/eral"); [done|].
  by_decide.
Defined.
