(* ===== verification/Contexts.v ===== *)
(** * Evaluation contexts and their builders

    libs/common: attributes.hpp/.cpp ([Attributes]), context.hpp/.cpp
    ([Context]), attributes_builder.hpp/.cpp and context_builder.cpp. *)

From S2P Require Import Prelude OrderedMap Doubles Values AttributeReferences.

(** ** [AttributeReference::SetType] *)

(** [operator<] compares the component vectors lexicographically. *)
Fixpoint comps_ltb (a b : list string) : bool :=
  match a, b with
  | _, [] => false
  | [], _ :: _ => true
  | x :: a', y :: b' => str_ltb x y || (negb (str_ltb y x) && comps_ltb a' b')
  end.

(** [std::set::insert]: an equivalent element already present is kept. *)
Fixpoint ref_set_insert (r : AttributeReference) (l : list AttributeReference) :
    list AttributeReference :=
  match l with
  | [] => [r]
  | x :: l' =>
      if comps_ltb (components_ r) (components_ x) then r :: l
      else if comps_ltb (components_ x) (components_ r) then x :: ref_set_insert r l'
      else l
  end.

(** ** Attributes *)

Record Attributes := mkAttributes {
  key_ : Value;
  name_ : Value;
  anonymous_ : Value;
  private_attributes_ : list AttributeReference;
  custom_attributes_ : Value;
}.

(** The public constructor. *)
Definition make_attributes (key : string) (name : option string) (anonymous : bool)
    (attributes : Value) (private_attributes : list AttributeReference) : Attributes :=
  mkAttributes (VString key) (of_opt_string name) (VBool anonymous)
    private_attributes attributes.

Definition Attributes_Key (a : Attributes) : string := AsString (key_ a).
Definition Attributes_Name (a : Attributes) : string := AsString (name_ a).
Definition Attributes_Anonymous (a : Attributes) : bool := AsBool (anonymous_ a).

(** The loop of [Attributes::Get] over the components still to visit. *)
Fixpoint Get_loop (node : Value) (found : bool) (components : list string) : Value * bool :=
  match components with
  | [] => (node, found)
  | component :: rest =>
      match node with
      | VObject map =>
          match find component map with
          | Some v => Get_loop v found rest
          | None => (node, false)
          end
      | _ => Get_loop node false rest
      end
  end.

Definition Attributes_Get (a : Attributes) (ref : AttributeReference) : Value :=
  if negb (Valid ref) then VNull
  else if IsKind ref then VNull
  else if (Depth ref =? 1)%nat && str_eqb (Component ref 0) "key" then key_ a
  else if (Depth ref =? 1)%nat && str_eqb (Component ref 0) "name" then name_ a
  else if (Depth ref =? 1)%nat && str_eqb (Component ref 0) "anonymous" then anonymous_ a
  else
    let '(node, found) := Get_loop (custom_attributes_ a) true (components_ ref) in
    if found then node else VNull.

(** ** Contexts *)

Record Context := mkContext {
  attributes_ : list (string * Attributes);
  kinds_ : list string;
  kinds_to_keys_ : list (string * string);
  ctx_valid_ : bool;
  errors_ : string;
  canonical_key_ : string;
}.

Definition NeedsEscape (to_check : string) : bool :=
  existsb (λ c, (c =? "%")%char || (c =? ":")%char) (chars to_check).

Definition escape_key_char (character : ascii) : list ascii :=
  if (character =? "%")%char then ["%"; "3"; "A"]%char
  else if (character =? ":")%char then ["%"; "2"; "5"]%char
  else [character].

Definition EscapeKey (to_escape : string) : string :=
  of_chars (chars to_escape ≫= escape_key_char).

(** One iteration of the loop of [make_canonical_key]. *)
Definition canonical_entry (kind key : string) : string :=
  kind +:+ ":" +:+ (if NeedsEscape key then EscapeKey key else key).

Fixpoint canonical_join (first : bool) (l : list (string * string)) : string :=
  match l with
  | [] => EmptyString
  | (kind, key) :: l' =>
      (if first then EmptyString else ":") +:+ canonical_entry kind key +:+ canonical_join false l'
  end.

Definition make_canonical_key (kinds_to_keys : list (string * string)) : string :=
  if (length kinds_to_keys =? 1)%nat then
    match find "user" kinds_to_keys with
    | Some key => key
    | None => canonical_join true kinds_to_keys
    end
  else canonical_join true kinds_to_keys.

(** [Context(std::string)]: an invalid context. *)
Definition invalid_context (error_message : string) : Context :=
  mkContext [] [] [] false error_message EmptyString.

(** [Context(std::map<std::string, Attributes>)] *)
Definition make_context (attributes : list (string * Attributes)) : Context :=
  let kinds := attributes.*1 in
  let kinds_to_keys :=
    foldl (λ m kv, assign kv.1 (Attributes_Key kv.2) m) [] attributes in
  mkContext attributes kinds kinds_to_keys true EmptyString (make_canonical_key kinds_to_keys).

Definition Context_Kinds (c : Context) : list string := kinds_ c.
Definition Context_Valid (c : Context) : bool := ctx_valid_ c.

Definition Context_Get (c : Context) (kind : string) (ref : AttributeReference) : Value :=
  match find kind (attributes_ c) with
  | Some a => Attributes_Get a ref
  | None => VNull
  end.

(** [Context::Attributes] ([std::map::at], [None] models the exception). *)
Definition Context_Attributes (c : Context) (kind : string) : option Attributes :=
  find kind (attributes_ c).

Definition CanonicalKey (c : Context) : string := canonical_key_ c.

(** ** Attributes builder *)

Record AttributesBuilder := mkAttributesBuilder {
  ab_key_ : string;
  ab_name_ : string;
  ab_anonymous_ : bool;
  ab_values_ : list (string * Value);
  ab_private_ : list AttributeReference;
}.

Definition new_attributes_builder (key : string) : AttributesBuilder :=
  mkAttributesBuilder key EmptyString false [] [].

(** The constructor from existing attributes. *)
Definition builder_of_attributes (a : Attributes) : AttributesBuilder :=
  mkAttributesBuilder (Attributes_Key a) (Attributes_Name a) (Attributes_Anonymous a)
    (foldl (λ m kv, assign kv.1 kv.2 m) [] (AsObject (custom_attributes_ a)))
    (private_attributes_ a).

Definition AB_Key (key : string) (b : AttributesBuilder) : AttributesBuilder :=
  mkAttributesBuilder key (ab_name_ b) (ab_anonymous_ b) (ab_values_ b) (ab_private_ b).
Definition AB_Name (name : string) (b : AttributesBuilder) : AttributesBuilder :=
  mkAttributesBuilder (ab_key_ b) name (ab_anonymous_ b) (ab_values_ b) (ab_private_ b).
Definition AB_Anonymous (anonymous : bool) (b : AttributesBuilder) : AttributesBuilder :=
  mkAttributesBuilder (ab_key_ b) (ab_name_ b) anonymous (ab_values_ b) (ab_private_ b).
Definition AB_AddPrivateAttribute (ref : AttributeReference) (b : AttributesBuilder) :
    AttributesBuilder :=
  mkAttributesBuilder (ab_key_ b) (ab_name_ b) (ab_anonymous_ b) (ab_values_ b)
    (ref_set_insert ref (ab_private_ b)).
Definition AB_set_value (name : string) (v : Value) (b : AttributesBuilder) : AttributesBuilder :=
  mkAttributesBuilder (ab_key_ b) (ab_name_ b) (ab_anonymous_ b)
    (assign name v (ab_values_ b)) (ab_private_ b).

Definition ProtectedAttributes : list string := ["key"; "kind"; "_meta"].

(** [TypedAttributes]: the expected type of a special attribute and its setter. *)
Definition TypedAttributes (name : string) :
    option (ValueType.t * (Value → AttributesBuilder → AttributesBuilder)) :=
  if str_eqb name "anonymous" then Some (ValueType.kBool, λ v, AB_Anonymous (AsBool v))
  else if str_eqb name "name" then Some (ValueType.kString, λ v, AB_Name (AsString v))
  else None.

(** [AttributesBuilder::Set(name, value, private_attribute)]; the private set
    receives the name as a reference string. *)
Definition AB_Set (name : string) (value : Value) (private_attribute : bool)
    (b : AttributesBuilder) : AttributesBuilder :=
  if existsb (str_eqb name) ProtectedAttributes then b
  else
    match TypedAttributes name with
    | Some (ty, setter) =>
        if bool_decide (Type_of value = ty) then
          let b' := setter value b in
          if private_attribute then AB_AddPrivateAttribute (FromReferenceStr name) b' else b'
        else b
    | None =>
        let b' := AB_set_value name value b in
        if private_attribute then AB_AddPrivateAttribute (FromReferenceStr name) b' else b'
    end.

(** [BuildAttributes]: the name is a [std::string], so the optional is never empty. *)
Definition BuildAttributes (b : AttributesBuilder) : Attributes :=
  make_attributes (ab_key_ b) (Some (ab_name_ b)) (ab_anonymous_ b)
    (VObject (ab_values_ b)) (ab_private_ b).

(** ** Context builder *)

Definition dquote : string := String "034"%char EmptyString.

Definition kInvalidKind : string :=
  dquote +:+ "Kind contained invalid characters. A kind may contain ASCII letters or numbers, as well as '.', '-', and '_'." +:+ dquote.
Definition kInvalidKey : string :=
  dquote +:+ "The key for a context may not be empty." +:+ dquote.
Definition kMissingKinds : string :=
  dquote +:+ "The context must contain at least 1 kind." +:+ dquote.

Definition between (lo c hi : ascii) : bool :=
  (N_of_ascii lo <=? N_of_ascii c)%N && (N_of_ascii c <=? N_of_ascii hi)%N.

Definition valid_kind_char (c : ascii) : bool :=
  (c =? ".")%char || (c =? "-")%char || (c =? "_")%char ||
  between "0" c "9" || between "A" c "Z" || between "a" c "z".

Definition ValidKind (kind : string) : bool :=
  negb (is_empty kind) && negb (str_eqb kind "multi" || str_eqb kind "kind") &&
  forallb valid_kind_char (chars kind).

Abbreviation ContextBuilder := (list (string * AttributesBuilder)).

(** The constructor from an existing context. *)
Definition builder_of_context (c : Context) : ContextBuilder :=
  if Context_Valid c then
    foldl (λ m kind,
      match Context_Attributes c kind with
      | Some a => emplace kind (builder_of_attributes a) m
      | None => m
      end) [] (kinds_ c)
  else [].

(** [ContextBuilder::Kind(kind, key)] *)
Definition CB_Kind (kind key : string) (b : ContextBuilder) : ContextBuilder :=
  match find kind b with
  | Some kind_builder => assign kind (AB_Key key kind_builder) b
  | None => emplace kind (new_attributes_builder key) b
  end.

(** Writing to a [std::stringstream] constructed from [contents]: the put area
    starts at the beginning, so the characters written overwrite it. *)
Definition stream_write (contents written : string) : string :=
  of_chars (chars written ++ drop (length (chars written)) (chars contents)).

(** One iteration of the validation loop of [Build]. *)
Definition validate_kind (acc : bool * string) (kb : string * AttributesBuilder) : bool * string :=
  let '(valid, errors) := acc in
  let '(kind, builder) := kb in
  let kind_valid := ValidKind kind in
  let key_valid := negb (is_empty (ab_key_ builder)) in
  if negb kind_valid || negb key_valid then
    let append := negb (is_empty errors) in
    (false, stream_write errors
      ((if append then ", " else EmptyString) +:+
       (if negb kind_valid
        then kind +:+ ": " +:+ kInvalidKind +:+ (if negb key_valid then ", " else EmptyString)
        else EmptyString) +:+
       (if negb key_valid then kind +:+ ": " +:+ kInvalidKey else EmptyString)))
  else (valid, errors).

Definition CB_Build (builders : ContextBuilder) : Context :=
  let start := match builders with [] => (false, kMissingKinds) | _ => (true, EmptyString) end in
  let '(valid, errors) := foldl validate_kind start builders in
  if valid then make_context (foldl (λ m kb, emplace kb.1 (BuildAttributes kb.2) m) [] builders)
  else invalid_context errors.

(** ** Lemmas *)

Lemma validate_kind_spec valid errors kind builder :
  (validate_kind (valid, errors) (kind, builder)).1 =
  valid && ValidKind kind && negb (is_empty (ab_key_ builder)).
Proof.
  unfold validate_kind. destruct (ValidKind kind), (is_empty (ab_key_ builder)); simpl;
    destruct valid; done.
Qed.

Lemma validate_all acc l :
  (foldl validate_kind acc l).1 =
  acc.1 && forallb (λ kb, ValidKind kb.1 && negb (is_empty (ab_key_ kb.2))) l.
Proof.
  revert acc. induction l as [|[kind b] l IH]; intros [v e];
    cbn [foldl forallb fst snd]; [by rewrite andb_true_r|].
  by rewrite IH, validate_kind_spec, !andb_assoc.
Qed.

(** What makes a builder buildable. *)
Definition Buildable (b : ContextBuilder) : Prop :=
  b ≠ [] ∧ Forall (λ kb, ValidKind kb.1 = true ∧ ab_key_ kb.2 ≠ EmptyString) b.

#[global] Instance Buildable_dec b : Decision (Buildable b).
Proof. unfold Buildable. apply _. Defined.

Lemma forallb_buildable b :
  forallb (λ kb : string * AttributesBuilder,
    ValidKind kb.1 && negb (is_empty (ab_key_ kb.2))) b = true ↔
  Forall (λ kb, ValidKind kb.1 = true ∧ ab_key_ kb.2 ≠ EmptyString) b.
Proof.
  induction b as [|kb b IH]; simpl; [by repeat constructor|].
  assert (negb (is_empty (ab_key_ kb.2)) = true ↔ ab_key_ kb.2 ≠ EmptyString) as He.
  { by destruct (ab_key_ kb.2). }
  rewrite !andb_true_iff, He. split.
  - intros [? ?]. constructor; [done|by apply IH].
  - intros [? ?]%Forall_cons_1. split; [done|by apply IH].
Qed.

Lemma CB_Build_cases b :
  Ordered b →
  (Buildable b ∧ CB_Build b = make_context ((λ kb, (kb.1, BuildAttributes kb.2)) <$> b)) ∨
  (¬ Buildable b ∧ ∃ e, CB_Build b = invalid_context e).
Proof.
  intros Ho. unfold CB_Build. pose proof (validate_all
    (match b with [] => (false, kMissingKinds) | _ => (true, EmptyString) end) b) as Hv.
  destruct (foldl _ _ b) as [valid errors]. simpl in Hv. subst valid.
  unfold Buildable. rewrite <- forallb_buildable.
  destruct b as [|kb b]; [right; split; [tauto|eauto]|].
  simpl (_.1). rewrite andb_true_l. destruct (forallb _ _) eqn:E; [left|right].
  - split; [done|]. by rewrite foldl_emplace_nil.
  - split; [naive_solver|eauto].
Qed.

Lemma make_context_keys l :
  Ordered l → kinds_to_keys_ (make_context l) = (λ kv, (kv.1, Attributes_Key kv.2)) <$> l.
Proof. intros. unfold make_context. simpl. by rewrite foldl_assign_nil. Qed.

(** ** Canonical keys *)

Lemma NeedsEscape_code key :
  chars (if NeedsEscape key then EscapeKey key else key) = chars key ≫= escape_key_char.
Proof.
  unfold NeedsEscape, EscapeKey. destruct (existsb _ _) eqn:E; [by rewrite chars_of_chars|].
  induction (chars key) as [|c l IH]; [done|]. simpl in *.
  apply orb_false_iff in E as [[E1 E2]%orb_false_iff E3].
  unfold escape_key_char at 1. rewrite E1, E2. simpl. f_equal. by apply IH.
Qed.

Lemma escape_key_injective l k : l ≫= escape_key_char = k ≫= escape_key_char → l = k.
Proof.
  apply code_injective.
  - intros a. unfold escape_key_char. by repeat case_match.
  - intros a b x y. unfold escape_key_char.
    destruct (a =? "%")%char eqn:A1; [|destruct (a =? ":")%char eqn:A2];
    (destruct (b =? "%")%char eqn:B1; [|destruct (b =? ":")%char eqn:B2]); simpl;
      intros H; simplify_eq; rewrite ?Ascii.eqb_eq in *; subst; try done.
Qed.

Lemma escape_key_no_colon l : ":"%char ∉ l ≫= escape_key_char.
Proof.
  induction l as [|c l IH]; simpl; [by apply not_elem_of_nil|].
  rewrite not_elem_of_app. split; [|done]. unfold escape_key_char.
  destruct (c =? "%")%char eqn:E1; [set_solver|].
  destruct (c =? ":")%char eqn:E2; [set_solver|].
  apply Ascii.eqb_neq in E2. set_solver.
Qed.

Lemma valid_kind_no_colon kind : ValidKind kind = true → ":"%char ∉ chars kind.
Proof.
  unfold ValidKind. intros [_ H]%andb_true_iff Hin.
  rewrite forallb_forall in H. apply list_elem_of_In in Hin. by apply H in Hin.
Qed.

(** The tokens between the colons of a canonical key. *)
Definition canonical_tokens (l : list (string * string)) : list (list ascii) :=
  l ≫= λ kv, [chars kv.1; chars kv.2 ≫= escape_key_char].

Lemma canonical_join_tokens l :
  chars (canonical_join true l) = join_with ":"%char (canonical_tokens l) ∧
  (l ≠ [] → chars (canonical_join false l) = ":"%char :: join_with ":"%char (canonical_tokens l)).
Proof.
  assert (∀ first kind key l', chars (canonical_join first ((kind, key) :: l')) =
    (if first then [] else [":"%char]) ++ chars kind ++ ":"%char ::
    (chars key ≫= escape_key_char) ++ chars (canonical_join false l')) as Hstep.
  { intros first kind key l'. simpl. unfold canonical_entry. rewrite !chars_app, NeedsEscape_code.
    destruct first; simpl; by rewrite <- ?app_assoc. }
  induction l as [|[kind key] l IH]; [by split|].
  rewrite !Hstep. destruct l as [|kv l].
  - simpl. rewrite !app_nil_r. by split.
  - rewrite (proj2 IH) by done. destruct kv as [k2 v2]. by split.
Qed.

Lemma canonical_tokens_nil l : canonical_tokens l = [] → l = [].
Proof. by destruct l. Qed.

Lemma canonical_tokens_inj l1 l2 : canonical_tokens l1 = canonical_tokens l2 → l1 = l2.
Proof.
  revert l2. induction l1 as [|[k v] l1 IH]; intros [|[j w] l2]; simpl; try done.
  intros [= Hk%chars_inj Hv%escape_key_injective%chars_inj Hl]. subst. f_equal. by apply IH.
Qed.

Lemma canonical_join_inj l1 l2 :
  Forall (λ kv, ValidKind kv.1 = true) l1 → Forall (λ kv, ValidKind kv.1 = true) l2 →
  canonical_join true l1 = canonical_join true l2 → l1 ≠ [] → l2 ≠ [] → l1 = l2.
Proof.
  intros H1 H2 Heq N1 N2. apply canonical_tokens_inj.
  assert (∀ l, Forall (λ kv : string * string, ValidKind kv.1 = true) l →
    Forall (λ t, ":"%char ∉ t) (canonical_tokens l)) as Hfree.
  { intros l. induction 1 as [|kv l Hkv _ IH]; simpl; [constructor|].
    repeat constructor; [by apply valid_kind_no_colon|apply escape_key_no_colon|done]. }
  rewrite <- (split_join ":" (canonical_tokens l1)), <- (split_join ":" (canonical_tokens l2));
    auto using canonical_tokens_nil.
  by rewrite <- !(proj1 (canonical_join_tokens _)), Heq.
Qed.

(** ** Properties *)

(** [ContextBuilder::Build] succeeds exactly when there is a kind and every
    kind name is valid and every key non-empty; the built context then has the
    builder's kinds in order, its keys, and returns for each kind the key the
    builder holds, and otherwise it is invalid and has no attributes at all. *)
Theorem context_build_spec (b : ContextBuilder) (Ho : Ordered b) :
  (Context_Valid (CB_Build b) = true ↔ Buildable b) ∧
  (Context_Valid (CB_Build b) = true →
    Context_Kinds (CB_Build b) = keys b ∧
    kinds_to_keys_ (CB_Build b) = (λ kb, (kb.1, ab_key_ kb.2)) <$> b ∧
    ∀ kind ab, find kind b = Some ab →
      Context_Get (CB_Build b) kind (FromReferenceStr "key") = VString (ab_key_ ab)) ∧
  (Context_Valid (CB_Build b) = false → attributes_ (CB_Build b) = []).
Proof.
  destruct (CB_Build_cases b Ho) as [[Hb ->]|[Hb [e ->]]]; [|done].
  split_and!; [done|intros _|done]. split_and!.
  - apply keys_fmap.
  - rewrite make_context_keys, <- list_fmap_compose; [done|].
    unfold Ordered. by rewrite keys_fmap.
  - intros kind ab Hf. unfold Context_Get. simpl. by rewrite find_fmap, Hf.
Qed.

Lemma context_build_spec_witness :
  let b := CB_Kind "org" "acme" (CB_Kind "user" "bob" []) in
  Context_Kinds (CB_Build b) = ["org"; "user"] ∧
  Context_Get (CB_Build b) "user" (FromReferenceStr "key") = VString "bob".
Proof.
  assert (Ordered (CB_Kind "org" "acme" (CB_Kind "user" "bob" []))) as Ho by
    (unfold Ordered; vm_compute; repeat constructor).
  destruct (context_build_spec _ Ho) as (_ & H & _).
  destruct (H eq_refl) as (H1 & _ & H3). split; [exact H1|].
  exact (H3 "user" (new_attributes_builder "bob") eq_refl).
Defined.

(** C23: the canonical key identifies a context: two valid contexts, neither of
    them a single [user] context, with the same canonical key have the same
    kinds with the same keys. *)
Theorem canonical_key_injective (b1 b2 : ContextBuilder) (H1 : Ordered b1) (H2 : Ordered b2)
  (V1 : Buildable b1) (V2 : Buildable b2)
  (U1 : keys b1 ≠ ["user"]) (U2 : keys b2 ≠ ["user"])
  (Hk : CanonicalKey (CB_Build b1) = CanonicalKey (CB_Build b2)) :
  kinds_to_keys_ (CB_Build b1) = kinds_to_keys_ (CB_Build b2).
Proof.
  assert (∀ b, Ordered b → Buildable b → keys b ≠ ["user"] →
    let l := kinds_to_keys_ (CB_Build b) in
    CanonicalKey (CB_Build b) = canonical_join true l ∧ l ≠ [] ∧
    Forall (λ kv, ValidKind kv.1 = true) l) as Hcan.
  { intros b Ho Hb Hu. destruct (CB_Build_cases b Ho) as [[_ ->]|[]]; [|done].
    assert (Ordered ((λ kb, (kb.1, BuildAttributes kb.2)) <$> b)) as Ho' by
      (unfold Ordered; by rewrite keys_fmap).
    cbv zeta. unfold CanonicalKey. rewrite make_context_keys by done.
    destruct Hb as [Hne HF]. split_and!.
    - unfold make_context; simpl. rewrite foldl_assign_nil by done.
      unfold make_canonical_key. case_match eqn:El; [|done].
      destruct b as [|[k ab] [|]]; try done. simpl.
      destruct (str_eqb "user" k) eqn:E; [|done].
      apply str_eqb_eq in E as <-. done.
    - by destruct b.
    - rewrite !Forall_fmap. eapply Forall_impl; [exact HF|]. simpl. tauto. }
  destruct (Hcan b1) as (E1 & N1 & F1); [done..|].
  destruct (Hcan b2) as (E2 & N2 & F2); [done..|].
  apply canonical_join_inj; [done..| |done|done]. by rewrite <- E1, <- E2.
Qed.

Lemma canonical_key_injective_witness :
  let b1 := CB_Kind "org" "a%b:c" [] in
  let b2 := [("org", AB_Set "color" (VString "red") false (new_attributes_builder "a%b:c"))] in
  CanonicalKey (CB_Build b1) = "org:a%3Ab%25c" ∧
  kinds_to_keys_ (CB_Build b1) = kinds_to_keys_ (CB_Build b2).
Proof.
  split; [reflexivity|].
  apply canonical_key_injective; try by_decide; try reflexivity.
  all: unfold Ordered; vm_compute; repeat constructor.
Defined.

(** What is set is what is read: setting a custom attribute (any name that
    is neither protected nor typed) and building yields attributes in which the
    literal reference to that name is exactly the value set; setting a
    protected name or a typed name with a value of the wrong type changes
    nothing. *)
Theorem attribute_set_get (name : string) (v : Value) (priv : bool) (b : AttributesBuilder) :
  (name ∈ ProtectedAttributes → AB_Set name v priv b = b) ∧
  (name = "anonymous" → Type_of v ≠ ValueType.kBool → AB_Set name v priv b = b) ∧
  (name = "name" → Type_of v ≠ ValueType.kString → AB_Set name v priv b = b) ∧
  (name ∉ ["key"; "kind"; "_meta"; "anonymous"; "name"; ""] →
    Attributes_Get (BuildAttributes (AB_Set name v priv b)) (FromLiteralStr name) = v).
Proof.
  split_and!.
  - intros H. unfold AB_Set. assert (existsb (str_eqb name) ProtectedAttributes = true) as ->; [|done].
    apply existsb_exists. exists name. rewrite <- list_elem_of_In. by rewrite str_eqb_refl.
  - intros -> H. unfold AB_Set. simpl. by rewrite bool_decide_eq_false_2.
  - intros -> H. unfold AB_Set. simpl. by rewrite bool_decide_eq_false_2.
  - rewrite !not_elem_of_cons. intros (N1 & N2 & N3 & N4 & N5 & N6 & _).
    rewrite <- ?str_eqb_neq in *. unfold AB_Set, TypedAttributes. simpl.
    rewrite N1, N2, N3, N4, N5. simpl.
    assert (∀ b', find name (ab_values_ b') = Some v →
      Attributes_Get (BuildAttributes b') (FromLiteralStr name) = v) as Hget.
    { intros b' Hf. unfold FromLiteralStr, make_reference. destruct (chars name) eqn:E.
      - apply str_eqb_neq in N6. by destruct name.
      - unfold Attributes_Get. simpl. unfold IsKind, Depth, Component. simpl.
        rewrite N1, N2, N4, N5. simpl. by rewrite Hf. }
    destruct priv; apply Hget; simpl; apply find_assign_eq.
Qed.

(** The literal message of a second invalid kind overwrites the first one's. *)
Lemma build_errors_overwritten :
  errors_ (CB_Build (CB_Kind "b!" "k" (CB_Kind "a!" "k" []))) = ", b!: " +:+ kInvalidKind.
Proof. reflexivity. Qed.

(** A context built without a name reports the empty string, not null. *)
Lemma unset_name_is_empty_string b :
  ab_name_ b = EmptyString →
  Attributes_Get (BuildAttributes b) (FromReferenceStr "name") = VString EmptyString.
Proof. intros H. unfold Attributes_Get. simpl. by rewrite H. Qed.
