(* ===== verification/Reasons.v ===== *)
(** * Evaluation reasons and details

    libs/common: evaluation_reason.hpp/.cpp and evaluation_detail.hpp/.cpp. *)

From S2P Require Import Prelude.

Module Kind.
Inductive t :=
  kOff | kFallthrough | kTargetMatch | kRuleMatch | kPrerequisiteFailed | kError.
#[global] Instance eq_dec : EqDecision t.
Proof. solve_decision. Defined.
End Kind.

Module ErrorKind.
Inductive t :=
  kClientNotReady | kUserNotSpecified | kFlagNotFound | kWrongType
| kMalformedFlag | kException.
#[global] Instance eq_dec : EqDecision t.
Proof. solve_decision. Defined.
End ErrorKind.

(** [EvaluationReason::BigSegmentsStatus] *)
Module BigSegmentsStatus.
Inductive t := kNone | kHealthy | kStale | kNotConfigured | kStoreError.
#[global] Instance eq_dec : EqDecision t.
Proof. solve_decision. Defined.
End BigSegmentsStatus.

Record EvaluationReason := mkReason {
  kind_ : Kind.t;
  error_kind_ : option ErrorKind.t;
  rule_index_ : option nat;
  rule_id_ : option string;
  prerequisite_key_ : option string;
  in_experiment_ : bool;
  big_segments_status_ : BigSegmentsStatus.t;
  big_segment_status_ : option string;
}.

#[global] Instance EvaluationReason_eq_dec : EqDecision EvaluationReason.
Proof. solve_decision. Defined.

(** The seven-argument constructor with a [BigSegmentsStatus]. *)
Definition make_reason (kind : Kind.t) (error_kind : option ErrorKind.t)
    (rule_index : option nat) (rule_id prerequisite_key : option string)
    (in_experiment : bool) (status : BigSegmentsStatus.t) : EvaluationReason :=
  mkReason kind error_kind rule_index rule_id prerequisite_key in_experiment status None.

Definition error_reason (error_kind : ErrorKind.t) : EvaluationReason :=
  make_reason Kind.kError (Some error_kind) None None None false BigSegmentsStatus.kNone.

Definition Off : EvaluationReason :=
  make_reason Kind.kOff None None None None false BigSegmentsStatus.kNone.

Definition PrerequisiteFailed (prerequisite_key : string) : EvaluationReason :=
  make_reason Kind.kPrerequisiteFailed None None None (Some prerequisite_key) false
    BigSegmentsStatus.kNone.

Definition TargetMatch : EvaluationReason :=
  make_reason Kind.kTargetMatch None None None None false BigSegmentsStatus.kNone.

Definition Fallthrough (in_experiment : bool) : EvaluationReason :=
  make_reason Kind.kFallthrough None None None None in_experiment BigSegmentsStatus.kNone.

Definition RuleMatch (rule_index : nat) (rule_id : option string) (in_experiment : bool) :
    EvaluationReason :=
  make_reason Kind.kRuleMatch None (Some rule_index) rule_id None in_experiment
    BigSegmentsStatus.kNone.

Definition MalformedFlag : EvaluationReason := error_reason ErrorKind.kMalformedFlag.

(** [operator==] compares field by field. *)
Definition reason_eqb (lhs rhs : EvaluationReason) : bool :=
  bool_decide (kind_ lhs = kind_ rhs) && bool_decide (error_kind_ lhs = error_kind_ rhs) &&
  Bool.eqb (in_experiment_ lhs) (in_experiment_ rhs) &&
  bool_decide (big_segments_status_ lhs = big_segments_status_ rhs) &&
  bool_decide (big_segment_status_ lhs = big_segment_status_ rhs) &&
  bool_decide (prerequisite_key_ lhs = prerequisite_key_ rhs) &&
  bool_decide (rule_id_ lhs = rule_id_ rhs) && bool_decide (rule_index_ lhs = rule_index_ rhs).

(** ** [EvaluationDetail<T>] *)

Record EvaluationDetail (T : Type) := mkDetail {
  value_ : T;
  variation_index_ : option Z;
  reason_ : option EvaluationReason;
}.
Arguments mkDetail {T} _ _ _.
Arguments value_ {T} _.
Arguments variation_index_ {T} _.
Arguments reason_ {T} _.

(** [EvaluationDetail(error_kind, default_value)] *)
Definition error_detail {T} (error_kind : ErrorKind.t) (default_value : T) : EvaluationDetail T :=
  mkDetail default_value None (Some (error_reason error_kind)).

(** [EvaluationDetail(reason)]: a value-initialised [T]. *)
Definition reason_detail {T} (init : T) (reason : EvaluationReason) : EvaluationDetail T :=
  mkDetail init None (Some reason).

Definition IsError {T} (d : EvaluationDetail T) : bool :=
  match reason_ d with
  | Some r => match error_kind_ r with Some _ => true | None => false end
  | None => false
  end.

(** Equality of reasons is the comparison of all their fields. *)
Lemma reason_eqb_eq lhs rhs : reason_eqb lhs rhs = true ↔ lhs = rhs.
Proof.
  unfold reason_eqb. rewrite !andb_true_iff, !bool_decide_eq_true, eqb_true_iff.
  destruct lhs, rhs; simpl. split; [intros; deex; by subst|intros [=]; subst; tauto].
Qed.
