(* ===== verification/DataModel.v ===== *)
(** * Flags and segments

    libs/internal: data_model/flag.hpp, flag.cpp, segment.hpp, rule_clause.hpp,
    item_descriptor.hpp, sdk_data_set.hpp, context_kind.hpp, change_set.hpp,
    selector.hpp.  [std::int64_t] and [std::uint64_t] fields are [Z]; the code
    that converts between them wraps explicitly (see [u64], [s64]). *)

From S2P Require Import Prelude Values AttributeReferences Reasons.

(** [Clause::Op] *)
Module Op.
Inductive t :=
  kUnrecognized | kIn | kStartsWith | kEndsWith | kMatches | kContains
| kLessThan | kLessThanOrEqual | kGreaterThan | kGreaterThanOrEqual
| kBefore | kAfter | kSemVerEqual | kSemVerLessThan | kSemVerGreaterThan
| kSegmentMatch.
#[global] Instance eq_dec : EqDecision t.
Proof. solve_decision. Defined.
End Op.

Record Clause := mkClause {
  op : Op.t;
  clause_values : list Value;
  negate : bool;
  clause_contextKind : string;
  clause_attribute : AttributeReference;
}.

(** [IsUser(ContextKind)] *)
Definition IsUser (kind : string) : bool := str_eqb kind "user".

(** ** Flags *)

Module RolloutKind.
Inductive t := kUnrecognized | kExperiment | kRollout.
#[global] Instance eq_dec : EqDecision t.
Proof. solve_decision. Defined.
End RolloutKind.

Record WeightedVariation := mkWeighted {
  wv_variation : Z;
  wv_weight : Z;
  wv_untracked : bool;
}.

Record Rollout := mkRollout {
  rollout_variations : list WeightedVariation;
  rollout_kind : RolloutKind.t;
  rollout_seed : option Z;
  rollout_bucketBy : AttributeReference;
  rollout_contextKind : string;
}.

(** [Rollout(std::vector<WeightedVariation>)] *)
Definition make_rollout (variations : list WeightedVariation) : Rollout :=
  mkRollout variations RolloutKind.kRollout None (FromReferenceStr "key") "user".

(** [std::variant<std::optional<Variation>, Rollout>] *)
Inductive VariationOrRollout :=
| VVariation (v : option Z)
| VRollout (r : Rollout).

Record Prerequisite := mkPrerequisite { prereq_key : string; prereq_variation : Z }.

Record Target := mkTarget {
  target_values : list string;
  target_variation : Z;
  target_contextKind : string;
}.

Record FlagRule := mkFlagRule {
  fr_clauses : list Clause;
  fr_variationOrRollout : VariationOrRollout;
  fr_trackEvents : bool;
  fr_id : option string;
}.

Record Flag := mkFlag {
  flag_key : string;
  flag_version : Z;
  flag_on : bool;
  flag_fallthrough : VariationOrRollout;
  flag_variations : list Value;
  flag_prerequisites : list Prerequisite;
  flag_targets : list Target;
  flag_contextTargets : list Target;
  flag_rules : list FlagRule;
  flag_offVariation : option Z;
  flag_clientSide : bool;
  flag_usingMobileKey : bool;
  flag_usingEnvironmentId : bool;
  flag_salt : option string;
  flag_trackEvents : bool;
  flag_trackEventsFallthrough : bool;
  flag_debugEventsUntilDate : option Z;
}.

(** [Flag::IsExperimentationEnabled] *)
Definition IsExperimentationEnabled (f : Flag) (reason : option EvaluationReason) : bool :=
  match reason with
  | None => false
  | Some r =>
      if in_experiment_ r then true
      else
        match kind_ r with
        | Kind.kFallthrough => flag_trackEventsFallthrough f
        | Kind.kRuleMatch =>
            match rule_index_ r with
            | None => false
            | Some i =>
                match flag_rules f !! i with
                | Some rule => fr_trackEvents rule
                | None => false
                end
            end
        | _ => false
        end
  end.

(** ** Segments *)

Record SegmentTarget := mkSegmentTarget {
  st_contextKind : string;
  st_values : list string;
}.

Record SegmentRule := mkSegmentRule {
  sr_clauses : list Clause;
  sr_id : option string;
  sr_weight : option Z;
  sr_rolloutContextKind : string;
  sr_bucketBy : AttributeReference;
}.

Record Segment := mkSegment {
  segment_key : string;
  segment_version : Z;
  segment_included : list string;
  segment_excluded : list string;
  segment_includedContexts : list SegmentTarget;
  segment_excludedContexts : list SegmentTarget;
  segment_rules : list SegmentRule;
  segment_salt : option string;
  segment_unbounded : bool;
  segment_unboundedContextKind : option string;
  segment_generation : option Z;
}.

(** ** Descriptors and data sets *)

Record ItemDescriptor (T : Type) := mkDescriptor {
  version : Z;
  item : option T;
}.
Arguments mkDescriptor {T} _ _.
Arguments version {T} _.
Arguments item {T} _.

(** [ItemDescriptor(Tombstone)] *)
Definition tombstone {T} (v : Z) : ItemDescriptor T := mkDescriptor v None.
(** [ItemDescriptor(T)] for the two item types. *)
Definition flag_descriptor (f : Flag) : ItemDescriptor Flag := mkDescriptor (flag_version f) (Some f).
Definition segment_descriptor (s : Segment) : ItemDescriptor Segment :=
  mkDescriptor (segment_version s) (Some s).

Abbreviation FlagDescriptor := (ItemDescriptor Flag).
Abbreviation SegmentDescriptor := (ItemDescriptor Segment).

Record SDKDataSet := mkDataSet {
  ds_flags : gmap string FlagDescriptor;
  ds_segments : gmap string SegmentDescriptor;
}.

(** ** Change sets *)

Record SelectorState := mkSelectorState { selector_version : Z; selector_state : string }.

(** [Selector]: the value, when there is one. *)
Abbreviation Selector := (option SelectorState).

Module ChangeSetType.
Inductive t := kFull | kPartial | kNone.
#[global] Instance eq_dec : EqDecision t.
Proof. solve_decision. Defined.
End ChangeSetType.

Record ChangeSet (T : Type) := mkChangeSet {
  cs_type : ChangeSetType.t;
  cs_data : T;
  cs_selector : Selector;
}.
Arguments mkChangeSet {T} _ _ _.
Arguments cs_type {T} _.
Arguments cs_data {T} _.
Arguments cs_selector {T} _.

(** [data_interfaces::ItemChange]: a key with one of the two descriptors. *)
Inductive ItemChange :=
| FlagChange (key : string) (object : FlagDescriptor)
| SegmentChange (key : string) (object : SegmentDescriptor).

Abbreviation ChangeSetData := (list ItemChange).

(** ** Experimentation *)

(** A rule-match reason tracks exactly when its rule does, whatever the index. *)
Lemma experimentation_rule_index f i id :
  IsExperimentationEnabled f (Some (RuleMatch i id false)) =
  match flag_rules f !! i with Some r => fr_trackEvents r | None => false end.
Proof. done. Qed.
