(* ===== verification/Externals.v ===== *)
(** * Third-party code used by flag evaluation

    Boost, OpenSSL and the RFC 3339 parser are not part of the repository: the
    functions the code calls are the fields of a class, and what the theorems
    rely on are the laws of a second class.  Conversions whose behaviour C++
    leaves undefined are also fields, so no theorem can depend on their result. *)

From S2P Require Import Prelude Doubles.
From stdpp Require Import pretty.

(** [std::to_string] and [operator<<] of an integer: decimal digits. *)
Definition to_string (z : Z) : string := pretty z.

(** The named captures of [kSemVerRegex]. *)
Record SemVerCaptures := mkCaptures {
  cap_major : option string;
  cap_minor : option string;
  cap_patch : option string;
  cap_prerelease : option string;
}.

(** The outcomes of [boost::regex_match(value, match, SemVerRegex())]. *)
Inductive SemVerMatchResult :=
| RegexThrow                       (** std::runtime_error *)
| RegexNoMatch
| RegexMatched (c : SemVerCaptures).

Class Externals := {
  (** [boost::regex_match] with [kSemVerRegex] *)
  semver_regex_match : string → SemVerMatchResult;
  (** [boost::lexical_cast<std::uint64_t>]; [None] is [bad_lexical_cast] *)
  lexical_cast_u64 : string → option Z;
  (** [boost::split] with [is_any_of(".")] *)
  split_dots : string → list string;
  (** [boost::regex_search(context_value, boost::regex(clause_value))];
      [None] is an exception *)
  regex_search : string → string → option bool;
  (** [timestamp_parse]: seconds and nanoseconds; [None] is a non-zero return *)
  timestamp_parse : string → option (Z * Z);
  (** OpenSSL's [SHA1]: the digest's octets *)
  SHA1 : string → list ascii;
  (** results of conversions that are undefined behaviour *)
  ub_int_cast : double → Z;
  ub_timepoint : Z → Z;
  ub_ll_cast : double → Z;
}.

(** ** The language of [kSemVerRegex] *)

Definition is_digit (c : ascii) : bool := (48 <=? N_of_ascii c)%N && (N_of_ascii c <=? 57)%N.
Definition is_letter (c : ascii) : bool :=
  (65 <=? N_of_ascii c)%N && (N_of_ascii c <=? 90)%N ||
  (97 <=? N_of_ascii c)%N && (N_of_ascii c <=? 122)%N.
Definition is_ident_char (c : ascii) : bool := is_digit c || is_letter c || (c =? "-")%char.

(** [0|\[1-9\]\d*] *)
Definition numeric_ident (l : list ascii) : bool :=
  match l with
  | [] => false
  | c :: l' =>
      if (c =? "0")%char then match l' with [] => true | _ => false end
      else forallb is_digit l
  end.

(** [\d*\[a-zA-Z-\]\[0-9a-zA-Z-\]*] *)
Definition alnum_ident (l : list ascii) : bool :=
  forallb is_ident_char l && negb (forallb is_digit l).

Definition pre_ident (l : list ascii) : bool := numeric_ident l || alnum_ident l.

Definition opt_field (sep : ascii) (o : option string) : list ascii :=
  match o with None => [] | Some s => sep :: chars s end.

(** [s] is matched by the pattern with these captures, the optional groups
    taken greedily: the patch group is not used when the minor group is not. *)
Definition semver_denotes (s : string) (c : SemVerCaptures) : Prop :=
  ∃ major build,
    cap_major c = Some major ∧ numeric_ident (chars major) = true ∧
    (∀ x, cap_minor c = Some x → numeric_ident (chars x) = true) ∧
    (∀ x, cap_patch c = Some x → numeric_ident (chars x) = true ∧ cap_minor c ≠ None) ∧
    (∀ x, cap_prerelease c = Some x →
       Forall (λ t, pre_ident t = true) (split_at "." (chars x))) ∧
    (∀ x, build = Some x →
       Forall (λ t, t ≠ [] ∧ forallb is_ident_char t = true) (split_at "." (chars x))) ∧
    chars s = chars major ++ opt_field "." (cap_minor c) ++ opt_field "." (cap_patch c) ++
      opt_field "-" (cap_prerelease c) ++ opt_field "+" build.

(** What the theorems use of the third-party functions. *)
Class ExternalsSpec (X : Externals) : Prop := {
  (** a string of the pattern's language is matched with its captures *)
  semver_regex_complete : ∀ s c, semver_denotes s c → semver_regex_match s = RegexMatched c;
  (** reading back what [operator<<] prints *)
  lexical_cast_print : ∀ n : Z, (0 ≤ n < 2 ^ 64)%Z → lexical_cast_u64 (to_string n) = Some n;
  (** splitting at every dot, keeping empty tokens *)
  split_dots_spec : ∀ s, split_dots s = of_chars <$> split_at "." (chars s);
  (** the digest has [SHA_DIGEST_LENGTH] octets *)
  SHA1_length : ∀ s, length (SHA1 s) = 20%nat;
}.

(** ** Decimal printing *)

Lemma pretty_N_char_digit x : is_digit (pretty_N_char x) = true.
Proof. unfold pretty_N_char. by repeat case_match. Qed.

Lemma pretty_N_char_nonzero x : (0 < x < 10)%N → (pretty_N_char x =? "0")%char = false.
Proof.
  intros H. unfold pretty_N_char. repeat case_match; try done. lia.
Qed.

Lemma pretty_N_go_digits x s :
  (0 < x)%N → ∃ c l, chars (pretty_N_go x s) = c :: l ++ chars s ∧
    (c =? "0")%char = false ∧ forallb is_digit (c :: l) = true.
Proof.
  revert s. induction (N.lt_wf_0 x) as [x _ IH]. intros s Hx.
  rewrite pretty_N_go_step by done.
  destruct (decide (x < 10)%N) as [Hlt|Hge].
  - rewrite N.div_small, N.mod_small by done. rewrite pretty_N_go_0.
    exists (pretty_N_char x), []. split_and!; [done|by apply pretty_N_char_nonzero|].
    simpl. by rewrite pretty_N_char_digit.
  - destruct (IH (x `div` 10)%N) with (s := String (pretty_N_char (x `mod` 10)) s)
      as (c & l & Hc & H0 & Hd).
    + by apply N.div_lt.
    + apply N.div_str_pos. lia.
    + exists c, (l ++ [pretty_N_char (x `mod` 10)%N]). split_and!; [|done|].
      * rewrite Hc. simpl. by rewrite <- app_assoc.
      * simpl in *. rewrite forallb_app. apply andb_true_iff in Hd as [-> ->].
        simpl. by rewrite pretty_N_char_digit.
Qed.

(** A non-negative number prints as a numeric identifier without leading zeros. *)
Lemma to_string_numeric (n : Z) : (0 ≤ n)%Z → numeric_ident (chars (to_string n)) = true.
Proof.
  intros Hn. unfold to_string. destruct n as [|p|p]; [done| |lia].
  change (pretty (Zpos p)) with (pretty (Npos p)). unfold pretty, pretty_N.
  rewrite decide_False by done.
  destruct (pretty_N_go_digits (Npos p) EmptyString) as (c & l & -> & H0 & Hd); [done|].
  rewrite app_nil_r. unfold numeric_ident. by rewrite H0.
Qed.
