(* ===== verification/SemVers.v ===== *)
(** * Semantic versions

    libs/server-sdk/src/evaluation/detail/semver_operations.hpp/.cpp: parsing,
    printing and the precedence order of semantic versions. *)

From S2P Require Import Prelude Doubles Externals.
#[local] Open Scope Z_scope.

(** [SemVer::Token]: [std::variant<std::uint64_t, std::string>] *)
Inductive Token :=
| TNum (n : Z)
| TStr (s : string).

#[global] Instance Token_eq_dec : EqDecision Token.
Proof. solve_decision. Defined.

Record SemVer := mkSemVer {
  Major : Z;
  Minor : Z;
  Patch : Z;
  Prerelease : option (list Token);
}.

#[global] Instance SemVer_eq_dec : EqDecision SemVer.
Proof. solve_decision. Defined.

(** [operator<(Token, Token)]: numeric identifiers come first. *)
Definition Token_ltb (lhs rhs : Token) : bool :=
  match lhs, rhs with
  | TNum x, TNum y => x <? y
  | TNum _, TStr _ => true
  | TStr _, TNum _ => false
  | TStr x, TStr y => str_ltb x y
  end.

(** [std::vector::operator<]: lexicographic comparison. *)
Fixpoint tokens_ltb (lhs rhs : list Token) : bool :=
  match lhs, rhs with
  | _, [] => false
  | [], _ :: _ => true
  | x :: lhs', y :: rhs' =>
      if Token_ltb x y then true else if Token_ltb y x then false else tokens_ltb lhs' rhs'
  end.

Definition SemVer_eqb (lhs rhs : SemVer) : bool :=
  (Major lhs =? Major rhs) && (Minor lhs =? Minor rhs) && (Patch lhs =? Patch rhs) &&
  bool_decide (Prerelease lhs = Prerelease rhs).

Definition SemVer_ltb (lhs rhs : SemVer) : bool :=
  if Major lhs <? Major rhs then true
  else if Major rhs <? Major lhs then false
  else if Minor lhs <? Minor rhs then true
  else if Minor rhs <? Minor lhs then false
  else if Patch lhs <? Patch rhs then true
  else if Patch rhs <? Patch lhs then false
  else
    match Prerelease lhs, Prerelease rhs with
    | None, None => false
    | Some _, None => true
    | None, Some _ => false
    | Some p, Some q => tokens_ltb p q
    end.

Definition SemVer_gtb (lhs rhs : SemVer) : bool := SemVer_ltb rhs lhs.

Section Parsing.
Context `{X : Externals}.

(** [boost::lexical_cast] of an optional group: 0 when it did not match. *)
Definition version_field (group : option string) : option Z :=
  match group with None => Some 0 | Some s => lexical_cast_u64 s end.

Definition parse_token (token : string) : Token :=
  match lexical_cast_u64 token with Some n => TNum n | None => TStr token end.

(** [SemVer::Parse] *)
Definition Parse (value : string) : option SemVer :=
  if is_empty value then None
  else
    match semver_regex_match value with
    | RegexThrow | RegexNoMatch => None
    | RegexMatched m =>
        match version_field (cap_major m) with
        | None => None
        | Some major =>
        match version_field (cap_minor m) with
        | None => None
        | Some minor =>
        match version_field (cap_patch m) with
        | None => None
        | Some patch =>
            match cap_prerelease m with
            | None => Some (mkSemVer major minor patch None)
            | Some pre =>
                Some (mkSemVer major minor patch (Some (parse_token <$> split_dots pre)))
            end
        end end end
    end.
End Parsing.

(** [operator<<] *)
Definition print_token (t : Token) : string :=
  match t with TNum n => to_string n | TStr s => s end.

Fixpoint print_tokens (l : list Token) : string :=
  match l with
  | [] => EmptyString
  | [t] => print_token t
  | t :: l' => print_token t +:+ "." +:+ print_tokens l'
  end.

Definition print_semver (v : SemVer) : string :=
  to_string (Major v) +:+ "." +:+ to_string (Minor v) +:+ "." +:+ to_string (Patch v) +:+
  match Prerelease v with
  | None => EmptyString
  | Some l => "-" +:+ print_tokens l
  end.

(** ** The precedence order *)

Lemma Token_ltb_irrefl x : Token_ltb x x = false.
Proof.
  destruct x as [n|s]; simpl; [apply Z.ltb_irrefl|].
  apply not_true_iff_false. apply str_lt_irrefl.
Qed.

Lemma Token_ltb_trans x y z :
  Token_ltb x y = true → Token_ltb y z = true → Token_ltb x z = true.
Proof.
  destruct x, y, z; simpl; try done; [rewrite !Z.ltb_lt; lia|].
  apply (transitivity (R := str_lt)).
Qed.

Lemma Token_trichotomy x y : Token_ltb x y = true ∨ x = y ∨ Token_ltb y x = true.
Proof.
  destruct x as [n|s], y as [m|t]; simpl; auto.
  - rewrite !Z.ltb_lt. destruct (decide (n = m)) as [->|]; [auto|lia].
  - destruct (str_lt_trichotomy s t) as [|[->|]]; auto.
Qed.

Lemma Token_ltb_asym x y : Token_ltb x y = true → Token_ltb y x = false.
Proof.
  intros H. apply not_true_iff_false. intros H'.
  pose proof (Token_ltb_trans x y x H H') as E. by rewrite Token_ltb_irrefl in E.
Qed.

Lemma tokens_ltb_irrefl l : tokens_ltb l l = false.
Proof. induction l as [|x l IH]; simpl; [done|]. by rewrite Token_ltb_irrefl. Qed.

Lemma tokens_trichotomy l k : tokens_ltb l k = true ∨ l = k ∨ tokens_ltb k l = true.
Proof.
  revert k. induction l as [|x l IH]; intros [|y k]; simpl; auto.
  destruct (Token_trichotomy x y) as [H|[->|H]].
  - rewrite H. auto.
  - rewrite Token_ltb_irrefl. destruct (IH k) as [|[->|]]; auto.
  - rewrite H, (Token_ltb_asym _ _ H). auto.
Qed.

Lemma tokens_ltb_trans l k j :
  tokens_ltb l k = true → tokens_ltb k j = true → tokens_ltb l j = true.
Proof.
  revert k j. induction l as [|x l IH]; intros [|y k] [|z j]; simpl; try done.
  destruct (Token_trichotomy x y) as [Hxy|[->|Hxy]].
  - rewrite Hxy. intros _. destruct (Token_trichotomy y z) as [Hyz|[->|Hyz]].
    + rewrite (Token_ltb_trans _ _ _ Hxy Hyz). done.
    + by rewrite Hxy.
    + by rewrite Hyz, (Token_ltb_asym _ _ Hyz).
  - rewrite Token_ltb_irrefl. intros Hl. destruct (Token_ltb y z); [done|].
    destruct (Token_ltb z y); [done|]. by apply IH.
  - by rewrite Hxy, (Token_ltb_asym _ _ Hxy).
Qed.

(** The comparison as a lexicographic order: numbers first, then the
    prerelease, where its absence is the greatest. *)
Definition pre_lt (p q : option (list Token)) : Prop :=
  match p, q with
  | Some _, None => True
  | Some l, Some k => tokens_ltb l k = true
  | None, _ => False
  end.

Lemma SemVer_ltb_spec v w :
  SemVer_ltb v w = true ↔
  Major v < Major w ∨ Major v = Major w ∧
    (Minor v < Minor w ∨ Minor v = Minor w ∧
      (Patch v < Patch w ∨ Patch v = Patch w ∧ pre_lt (Prerelease v) (Prerelease w))).
Proof.
  unfold SemVer_ltb. repeat case_match; rewrite ?Z.ltb_lt, ?Z.ltb_ge in *;
    unfold pre_lt; split; intros; try done; intuition (lia || congruence).
Qed.

Lemma pre_lt_trans p q r : pre_lt p q → pre_lt q r → pre_lt p r.
Proof. destruct p, q, r; simpl; try done. apply tokens_ltb_trans. Qed.

Lemma pre_lt_irrefl p : ¬ pre_lt p p.
Proof. destruct p; simpl; [|tauto]. by rewrite tokens_ltb_irrefl. Qed.

Lemma pre_trichotomy p q : pre_lt p q ∨ p = q ∨ pre_lt q p.
Proof.
  destruct p as [l|], q as [k|]; simpl; auto.
  destruct (tokens_trichotomy l k) as [|[->|]]; auto.
Qed.

Lemma SemVer_order :
  (∀ v, SemVer_ltb v v = false) ∧
  (∀ v w, SemVer_ltb v w = true → SemVer_ltb w v = false).
Proof.
  assert (∀ v, SemVer_ltb v v = false) as Hirr.
  { intros v. apply not_true_iff_false. rewrite SemVer_ltb_spec.
    pose proof (pre_lt_irrefl (Prerelease v)). intuition lia. }
  split; [done|]. intros v w. rewrite <- not_true_iff_false, !SemVer_ltb_spec.
  pose proof (pre_lt_trans (Prerelease v) (Prerelease w) (Prerelease v)).
  pose proof (pre_lt_irrefl (Prerelease v)). intuition lia.
Qed.

(** ** Round trip *)

Section RoundTrip.
Context `{X : Externals} `{!ExternalsSpec X}.

(** A prerelease identifier the grammar can spell and that is read back as
    itself: a number, or an alphanumeric identifier that is not a number. *)
Definition good_token (t : Token) : Prop :=
  match t with
  | TNum n => 0 ≤ n < 2 ^ 64
  | TStr s => alnum_ident (chars s) = true ∧ lexical_cast_u64 s = None
  end.

Definition good_semver (v : SemVer) : Prop :=
  0 ≤ Major v < 2 ^ 64 ∧ 0 ≤ Minor v < 2 ^ 64 ∧ 0 ≤ Patch v < 2 ^ 64 ∧
  (∀ l, Prerelease v = Some l → l ≠ [] ∧ Forall good_token l).

Lemma parse_print_token t : good_token t → parse_token (print_token t) = t.
Proof.
  destruct t as [n|s]; simpl; unfold parse_token.
  - intros. by rewrite lexical_cast_print.
  - by intros [_ ->].
Qed.

Lemma print_token_ident t : good_token t → pre_ident (chars (print_token t)) = true.
Proof.
  unfold pre_ident. destruct t as [n|s]; simpl.
  - intros. by rewrite to_string_numeric by lia.
  - intros [-> _]. apply orb_true_r.
Qed.

Lemma pre_ident_no_dot l : pre_ident l = true → "."%char ∉ l.
Proof.
  intros Hp Hin.
  assert (is_ident_char "."%char = true) as H; [|done].
  apply orb_true_iff in Hp as [Hp|[Hp _]%andb_true_iff].
  - destruct l as [|c l]; [done|]. simpl in Hp. destruct (c =? "0")%char eqn:E.
    + apply Ascii.eqb_eq in E as ->. destruct l; [set_solver|done].
    + change (forallb is_digit (c :: l) = true) in Hp. rewrite forallb_forall in Hp.
      apply list_elem_of_In, Hp in Hin. done.
  - rewrite forallb_forall in Hp. by apply list_elem_of_In, Hp in Hin.
Qed.

Lemma print_tokens_join l :
  chars (print_tokens l) = join_with "." (chars ∘ print_token <$> l).
Proof.
  induction l as [|t l IH]; [done|]. destruct l as [|t' l]; [done|].
  change (print_tokens (t :: t' :: l)) with (print_token t +:+ "." +:+ print_tokens (t' :: l)).
  rewrite !chars_app, IH. done.
Qed.

Lemma split_print_tokens l :
  l ≠ [] → Forall good_token l →
  split_at "." (chars (print_tokens l)) = chars ∘ print_token <$> l.
Proof.
  intros Hne HF. rewrite print_tokens_join. apply split_join; [by destruct l|].
  apply Forall_fmap. eapply Forall_impl; [exact HF|]. simpl.
  intros t Ht. by apply pre_ident_no_dot, print_token_ident.
Qed.

(** The captures of a printed version. *)
Lemma print_semver_denotes v :
  good_semver v →
  semver_denotes (print_semver v)
    (mkCaptures (Some (to_string (Major v))) (Some (to_string (Minor v)))
       (Some (to_string (Patch v))) (print_tokens <$> Prerelease v)).
Proof.
  intros (H1 & H2 & H3 & Hp). exists (to_string (Major v)), None. simpl. split_and!.
  - done.
  - apply to_string_numeric; lia.
  - intros x [= <-]. apply to_string_numeric; lia.
  - intros x [= <-]. split; [apply to_string_numeric; lia|done].
  - intros x Hx. destruct (Prerelease v) as [l|]; simplify_eq/=.
    destruct (Hp l eq_refl) as [Hne HF]. rewrite split_print_tokens by done.
    apply Forall_fmap. eapply Forall_impl; [exact HF|]. exact print_token_ident.
  - done.
  - unfold print_semver. rewrite !chars_app. simpl. rewrite app_nil_r.
    destruct (Prerelease v); simpl; by rewrite <- ?app_assoc.
Qed.

Lemma print_semver_nonempty v : good_semver v → is_empty (print_semver v) = false.
Proof.
  intros (H1 & _). unfold print_semver.
  pose proof (to_string_numeric (Major v)) as Hn. destruct (to_string (Major v)); [|done].
  exfalso. assert (0 ≤ Major v) as H by lia. by specialize (Hn H).
Qed.
End RoundTrip.

(** ** Properties *)

(** Semantic-version precedence is a strict total order: [operator<] is
    irreflexive and transitive, exactly one of [<], [==], [>] holds between two
    versions, [==] is equality of versions, and a prerelease precedes the
    release with the same numbers. *)
Theorem semver_strict_total_order :
  (∀ v, SemVer_ltb v v = false) ∧
  (∀ u v w, SemVer_ltb u v = true → SemVer_ltb v w = true → SemVer_ltb u w = true) ∧
  (∀ v w, SemVer_eqb v w = true ↔ v = w) ∧
  (∀ v w, SemVer_ltb v w = true ∨ SemVer_eqb v w = true ∨ SemVer_gtb v w = true) ∧
  (∀ v w, SemVer_ltb v w = true → SemVer_gtb v w = false ∧ SemVer_eqb v w = false) ∧
  (∀ v l, SemVer_ltb (mkSemVer (Major v) (Minor v) (Patch v) (Some l))
            (mkSemVer (Major v) (Minor v) (Patch v) None) = true).
Proof.
  destruct SemVer_order as [Hirr Hasym].
  assert (∀ u v w, SemVer_ltb u v = true → SemVer_ltb v w = true → SemVer_ltb u w = true) as Htr.
  { intros u v w. rewrite !SemVer_ltb_spec.
    pose proof (pre_lt_trans (Prerelease u) (Prerelease v) (Prerelease w)). intuition lia. }
  assert (∀ v w, SemVer_eqb v w = true ↔ v = w) as Heq.
  { intros [] []. unfold SemVer_eqb; simpl.
    rewrite !andb_true_iff, !Z.eqb_eq, bool_decide_eq_true. intuition congruence. }
  split_and!; [done..| | |].
  - intros v w. rewrite Heq. unfold SemVer_gtb. rewrite !SemVer_ltb_spec.
    destruct v as [a1 a2 a3 p], w as [b1 b2 b3 q]; simpl.
    destruct (pre_trichotomy p q) as [|[->|]];
      destruct (Z.lt_trichotomy a1 b1) as [|[->|]], (Z.lt_trichotomy a2 b2) as [|[->|]],
        (Z.lt_trichotomy a3 b3) as [|[->|]]; intuition lia.
  - intros v w Hlt. unfold SemVer_gtb. split; apply not_true_iff_false.
    + rewrite (Hasym _ _ Hlt). done.
    + rewrite Heq. intros ->. by rewrite Hirr in Hlt.
  - intros v l. rewrite SemVer_ltb_spec. simpl. lia.
Qed.

(** Printing a version and parsing it gives the version back, for every
    version whose numbers fit 64 bits and whose prerelease identifiers are in
    the grammar and not themselves numbers. *)
Theorem semver_parse_print `{X : Externals} `{!ExternalsSpec X} (v : SemVer)
  (Hv : good_semver v) : Parse (print_semver v) = Some v.
Proof.
  unfold Parse. rewrite print_semver_nonempty by done.
  erewrite semver_regex_complete by (by apply print_semver_denotes). simpl.
  pose proof Hv as (H1 & H2 & H3 & Hp). rewrite !lexical_cast_print by done.
  destruct v as [a b c [l|]]; simpl in *; [|done].
  destruct (Hp l eq_refl) as [Hne HF].
  rewrite split_dots_spec, split_print_tokens by done.
  do 3 f_equal. rewrite <- list_fmap_compose, <- list_fmap_compose.
  rewrite <- (list_fmap_id l) at 2. apply list_fmap_ext. intros i t Hi. simpl.
  rewrite of_chars_chars. apply parse_print_token.
  by eapply Forall_lookup in HF.
Qed.
