(* ===== verification/ReferenceExternals.v ===== *)
(** * A model of the third-party functions

    Concrete functions that satisfy the laws of [ExternalsSpec]: they show that
    the laws are consistent and let the evaluator run on concrete inputs. *)

From S2P Require Import Prelude Doubles Externals SemVers.
From stdpp Require Import pretty.
#[local] Open Scope Z_scope.

(** ** A recogniser for the semantic-version pattern *)

(** The characters before the first separator, and those after it. *)
Fixpoint break_at (sep : ascii) (l : list ascii) : list ascii * option (list ascii) :=
  match l with
  | [] => ([], None)
  | c :: l' =>
      if (c =? sep)%char then ([], Some l')
      else let '(a, b) := break_at sep l' in (c :: a, b)
  end.

Definition opt_forall (f : list ascii → bool) (o : option (list ascii)) : bool :=
  match o with None => true | Some l => forallb f (split_at "." l) end.

Definition ref_semver_match (s : string) : SemVerMatchResult :=
  let '(head, build) := break_at "+" (chars s) in
  let '(core, pre) := break_at "-" head in
  let result major minor patch :=
    RegexMatched (mkCaptures (Some (of_chars major)) (of_chars <$> minor) (of_chars <$> patch)
      (of_chars <$> pre)) in
  if negb (opt_forall pre_ident pre) ||
     negb (opt_forall (λ t, negb (bool_decide (t = [])) && forallb is_ident_char t) build)
  then RegexNoMatch
  else
    match split_at "." core with
    | [a] => if numeric_ident a then result a None None else RegexNoMatch
    | [a; b] => if numeric_ident a && numeric_ident b then result a (Some b) None else RegexNoMatch
    | [a; b; c] =>
        if numeric_ident a && numeric_ident b && numeric_ident c
        then result a (Some b) (Some c) else RegexNoMatch
    | _ => RegexNoMatch
    end.

Lemma break_at_none sep l : sep ∉ l → break_at sep l = (l, None).
Proof.
  induction l as [|c l IH]; simpl; [done|]. intros Hn.
  assert (c ≠ sep) as Hc%Ascii.eqb_neq by set_solver. by rewrite Hc, IH by set_solver.
Qed.

Lemma break_at_some sep l k : sep ∉ l → break_at sep (l ++ sep :: k) = (l, Some k).
Proof.
  induction l as [|c l IH]; simpl; intros Hn; [by rewrite Ascii.eqb_refl|].
  assert (c ≠ sep) as Hc%Ascii.eqb_neq by set_solver. by rewrite Hc, IH by set_solver.
Qed.

Lemma break_at_field sep l o :
  sep ∉ l → break_at sep (l ++ opt_field sep o) = (l, String.list_ascii_of_string <$> o).
Proof.
  intros. destruct o as [s|]; simpl; [by apply break_at_some|].
  rewrite app_nil_r. by apply break_at_none.
Qed.

Lemma numeric_digits l : numeric_ident l = true → forallb is_digit l = true.
Proof.
  destruct l as [|c l]; [done|]. simpl. destruct (c =? "0")%char eqn:E; [|done].
  apply Ascii.eqb_eq in E as ->. by destruct l.
Qed.

Lemma numeric_free sep l : is_digit sep = false → numeric_ident l = true → sep ∉ l.
Proof.
  intros Hs Hl%numeric_digits Hin. rewrite forallb_forall in Hl.
  apply list_elem_of_In, Hl in Hin. congruence.
Qed.

Lemma pre_ident_plus l : pre_ident l = true → "+"%char ∉ l.
Proof.
  intros [H|[H _]%andb_true_iff]%orb_true_iff; [by apply numeric_free|].
  intros Hin. rewrite forallb_forall in H. apply list_elem_of_In, H in Hin. done.
Qed.

Lemma split_free sep l :
  sep ≠ "."%char → Forall (λ t, sep ∉ t) (split_at "." l) → sep ∉ l.
Proof.
  intros Hs. induction l as [|c l IH]; simpl; [by intros; apply not_elem_of_nil|].
  destruct (c =? ".")%char eqn:E.
  - apply Ascii.eqb_eq in E as ->. intros [_ H]%Forall_cons_1. set_solver.
  - destruct (split_at "." l) as [|t ts] eqn:S; intros [H1 H2]%Forall_cons_1.
    + rewrite not_elem_of_cons in H1. apply not_elem_of_cons. split; [tauto|].
      apply IH. constructor.
    + rewrite not_elem_of_cons in H1. apply not_elem_of_cons. split; [tauto|].
      apply IH. constructor; tauto.
Qed.

Lemma opt_field_free sep sep' o :
  sep ≠ sep' → (∀ x, o = Some x → sep ∉ chars x) → sep ∉ opt_field sep' o.
Proof. intros Hne Ho. destruct o; simpl; [|apply not_elem_of_nil]. apply not_elem_of_cons. auto. Qed.

Lemma opt_forall_true f o :
  (∀ x, o = Some x → Forall (λ t, f t = true) (split_at "." (chars x))) →
  opt_forall f (String.list_ascii_of_string <$> o) = true.
Proof.
  intros H. destruct o as [x|]; [|done]. simpl. apply forallb_forall. intros t Ht.
  specialize (H x eq_refl). rewrite Forall_forall in H. apply H. by apply list_elem_of_In.
Qed.

Lemma fmap_of_chars (o : option string) : of_chars <$> (String.list_ascii_of_string <$> o) = o.
Proof. destruct o; simpl; [by rewrite of_chars_chars|done]. Qed.

Lemma ref_semver_complete s c : semver_denotes s c → ref_semver_match s = RegexMatched c.
Proof.
  intros (major & build & Hmaj & Nmaj & Hmin & Hpat & Hpre & Hbuild & Hs).
  set (core := chars major ++ opt_field "." (cap_minor c) ++ opt_field "." (cap_patch c)).
  assert (∀ sep, is_digit sep = false → sep ≠ "."%char → sep ∉ core) as Hcore.
  { intros sep Hd Hdot. subst core. rewrite !not_elem_of_app. split_and!.
    - by apply numeric_free.
    - apply opt_field_free; [done|]. intros x Hx. apply numeric_free; auto.
    - apply opt_field_free; [done|]. intros x Hx. apply numeric_free; [done|]. by apply Hpat. }
  assert ("+"%char ∉ core ++ opt_field "-" (cap_prerelease c)) as Hplus.
  { rewrite not_elem_of_app. split; [by apply Hcore|]. apply opt_field_free; [done|].
    intros x Hx. apply split_free; [done|]. eapply Forall_impl; [by apply Hpre|].
    apply pre_ident_plus. }
  unfold ref_semver_match. rewrite Hs.
  replace (chars major ++ opt_field "." (cap_minor c) ++ opt_field "." (cap_patch c) ++
      opt_field "-" (cap_prerelease c) ++ opt_field "+" build)
    with ((core ++ opt_field "-" (cap_prerelease c)) ++ opt_field "+" build)
    by (subst core; by rewrite <- !app_assoc).
  rewrite break_at_field by done. rewrite break_at_field by (by apply Hcore).
  rewrite !opt_forall_true; [|
    intros x Hx; eapply Forall_impl; [by apply Hbuild|]; simpl; intros t [Ht ->];
      by rewrite bool_decide_eq_false_2 | done]. simpl.
  rewrite fmap_of_chars. subst core. destruct c as [maj [mi|] [pa|] pre]; simpl in *; simplify_eq.
  - rewrite split_at_app by (by apply numeric_free).
    specialize (Hmin _ eq_refl). destruct (Hpat _ eq_refl) as [Hp _].
    rewrite split_at_app, split_at_none by (by apply numeric_free).
    rewrite Nmaj, Hmin, Hp. simpl. by rewrite !of_chars_chars.
  - rewrite split_at_app by (by apply numeric_free). rewrite app_nil_r.
    rewrite split_at_none by (apply numeric_free; [done|]; by apply Hmin).
    rewrite Nmaj, (Hmin _ eq_refl). simpl. by rewrite !of_chars_chars.
  - by destruct (Hpat _ eq_refl).
  - rewrite app_nil_r. rewrite split_at_none by (by apply numeric_free).
    rewrite Nmaj. by rewrite of_chars_chars.
Qed.

(** ** Decimal reading *)

Definition digit_value (c : ascii) : Z := Z.of_N (N_of_ascii c) - 48.

Definition digits_value (l : list ascii) : Z :=
  foldl (λ acc c, acc * 10 + digit_value c) 0 l.

Definition ref_lexical_cast (s : string) : option Z :=
  if negb (is_empty s) && forallb is_digit (chars s) then
    let n := digits_value (chars s) in if n <? 2 ^ 64 then Some n else None
  else None.

Lemma digit_value_pretty x : (x < 10)%N → digit_value (pretty_N_char x) = Z.of_N x.
Proof.
  intros. assert (x = 0 ∨ x = 1 ∨ x = 2 ∨ x = 3 ∨ x = 4 ∨ x = 5 ∨ x = 6 ∨ x = 7 ∨ x = 8 ∨ x = 9)%N
    as Hx by lia.
  by repeat destruct Hx as [->|Hx]; [..|subst].
Qed.

Lemma digits_value_snoc l c : digits_value (l ++ [c]) = digits_value l * 10 + digit_value c.
Proof. unfold digits_value. by rewrite foldl_app. Qed.

Lemma pretty_N_go_value x s :
  ∃ l, chars (pretty_N_go x s) = l ++ chars s ∧ digits_value l = Z.of_N x.
Proof.
  revert s. induction (N.lt_wf_0 x) as [x _ IH]. intros s.
  destruct (decide (0 < x)%N) as [Hx|Hx].
  - rewrite pretty_N_go_step by done.
    destruct (IH (x `div` 10)%N (N.div_lt x 10 Hx eq_refl)
      (String (pretty_N_char (x `mod` 10)) s)) as (l & -> & Hl).
    exists (l ++ [pretty_N_char (x `mod` 10)%N]). split; [by rewrite <- app_assoc|].
    rewrite digits_value_snoc, Hl, digit_value_pretty by (by apply N.mod_lt).
    pose proof (N.div_mod x 10). lia.
  - assert (x = 0%N) as -> by lia. exists []. by rewrite pretty_N_go_0.
Qed.

Lemma to_string_value n : 0 ≤ n → digits_value (chars (to_string n)) = n.
Proof.
  intros Hn. destruct n as [|p|p]; [done| |lia].
  change (to_string (Zpos p)) with (pretty_N_go (Npos p) EmptyString).
  destruct (pretty_N_go_value (Npos p) EmptyString) as (l & -> & Hl).
  rewrite app_nil_r, Hl. done.
Qed.

Lemma ref_lexical_cast_print n : 0 ≤ n < 2 ^ 64 → ref_lexical_cast (to_string n) = Some n.
Proof.
  intros [Hn Hlt]. unfold ref_lexical_cast.
  pose proof (to_string_numeric n Hn) as Hnum.
  assert (is_empty (to_string n) = false) as -> by (by destruct (to_string n)).
  rewrite numeric_digits by done. simpl. rewrite to_string_value by done.
  apply Z.ltb_lt in Hlt. by rewrite Hlt.
Qed.

(** ** The instance *)

(** A stand-in digest with the length of a SHA-1 digest. *)
Definition ref_digest (s : string) : list ascii := take 20 (chars s ++ replicate 20 "a"%char).

#[export] Instance ref_externals : Externals := {|
  semver_regex_match := ref_semver_match;
  lexical_cast_u64 := ref_lexical_cast;
  split_dots s := of_chars <$> split_at "." (chars s);
  regex_search hay needle := Some (bool_decide (hay = needle));
  timestamp_parse s := match ref_lexical_cast s with Some n => Some (n, 0) | None => None end;
  SHA1 := ref_digest;
  ub_int_cast _ := 0;
  ub_timepoint _ := 0;
  ub_ll_cast _ := 0;
|}.

#[export] Instance ref_externals_spec : ExternalsSpec ref_externals.
Proof.
  split; simpl.
  - apply ref_semver_complete.
  - apply ref_lexical_cast_print.
  - done.
  - intros s. unfold ref_digest. rewrite length_take, length_app, length_replicate. lia.
Qed.

Lemma semver_parse_print_witness :
  let v := mkSemVer 1 20 300 (Some [TStr "alpha"; TNum 1; TStr "x-y"]) in
  print_semver v = "1.20.300-alpha.1.x-y" ∧ Parse (print_semver v) = Some v.
Proof.
  split; [reflexivity|]. apply semver_parse_print.
  unfold good_semver; simpl. split_and!; try lia.
  intros l [= <-]. split; [done|]. repeat constructor; simpl; try lia.
Defined.
