(* ===== verification/Operators.v ===== *)
(** * Clause operators

    libs/server-sdk/src/evaluation: operators.cpp and
    detail/timestamp_operations.cpp. *)

From S2P Require Import Prelude Doubles Values Externals SemVers DataModel.
#[local] Open Scope Z_scope.

(** ** Timestamps *)

(** [system_clock::time_point] as nanoseconds since the epoch in 64 bits; a
    result that does not fit is undefined behaviour. *)
Definition fits_s64 (z : Z) : bool := (- 2 ^ 63 <=? z) && (z <? 2 ^ 63).

Section Times.
Context `{X : Externals}.

Definition checked_ns (z : Z) : Z := if fits_s64 z then z else ub_timepoint z.

Definition MillisecondsToTimepoint (ms : double) : option Z :=
  if d_ltb ms (d_of_Z 0) then None
  else if d_eqb (d_trunc ms) ms then
    let ll := default (ub_ll_cast ms) (d_to_signed 64 ms) in
    Some (checked_ns (ll * 1000000))
  else None.

Definition RFC3339ToTimepoint (timestamp : string) : option Z :=
  if is_empty timestamp then None
  else
    match timestamp_parse timestamp with
    | None => None
    | Some (sec, nsec) => Some (checked_ns (checked_ns (sec * 1000000000) + nsec))
    end.

Definition ToTimepoint (value : Value) : option Z :=
  match value with
  | VNumber ms => MillisecondsToTimepoint ms
  | VString s => RFC3339ToTimepoint s
  | _ => None
  end.
End Times.

(** ** String operations *)

(** [std::equal(first1, last1, first2)], the second range being long enough. *)
Fixpoint std_equal (l k : list ascii) : bool :=
  match l, k with
  | [], _ => true
  | x :: l', y :: k' => (x =? y)%char && std_equal l' k'
  | _ :: _, [] => false
  end.

Definition StartsWith (context_value clause_value : string) : bool :=
  (length (chars clause_value) <=? length (chars context_value))%nat &&
  std_equal (chars clause_value) (chars context_value).

Definition EndsWith (context_value clause_value : string) : bool :=
  (length (chars clause_value) <=? length (chars context_value))%nat &&
  std_equal (rev (chars clause_value)) (rev (chars context_value)).

(** [std::string::find]: the first position at which the needle occurs. *)
Fixpoint std_find (hay needle : list ascii) : option nat :=
  if (length needle <=? length hay)%nat && std_equal needle hay then Some 0%nat
  else match hay with
       | [] => None
       | _ :: hay' => S <$> std_find hay' needle
       end.

Definition Contains (context_value clause_value : string) : bool :=
  match std_find (chars context_value) (chars clause_value) with
  | Some _ => true
  | None => false
  end.

Section Match.
Context `{X : Externals}.

Definition RegexMatch (context_value clause_value : string) : bool :=
  default false (regex_search context_value clause_value).

Definition StringOp (context_value clause_value : Value) (f : string → string → bool) : bool :=
  if negb (bool_decide (Type_of context_value = ValueType.kString) &&
           bool_decide (Type_of clause_value = ValueType.kString)) then false
  else f (AsString context_value) (AsString clause_value).

Definition SemverOp (context_value clause_value : Value) (f : SemVer → SemVer → bool) : bool :=
  StringOp context_value clause_value (λ context clause,
    match Parse context with
    | None => false
    | Some context_semver =>
        match Parse clause with
        | None => false
        | Some clause_semver => f context_semver clause_semver
        end
    end).

Definition TimeOp (context_value clause_value : Value) (f : Z → Z → bool) : bool :=
  match ToTimepoint context_value with
  | None => false
  | Some context_tp =>
      match ToTimepoint clause_value with
      | None => false
      | Some clause_tp => f context_tp clause_tp
      end
  end.

(** [operators::Match] *)
Definition op_Match (op : Op.t) (context_value clause_value : Value) : bool :=
  match op with
  | Op.kIn => Value_eqb context_value clause_value
  | Op.kStartsWith => StringOp context_value clause_value StartsWith
  | Op.kEndsWith => StringOp context_value clause_value EndsWith
  | Op.kMatches => StringOp context_value clause_value RegexMatch
  | Op.kContains => StringOp context_value clause_value Contains
  | Op.kLessThan => Value_ltb context_value clause_value
  | Op.kLessThanOrEqual => Value_leb context_value clause_value
  | Op.kGreaterThan => Value_gtb context_value clause_value
  | Op.kGreaterThanOrEqual => Value_geb context_value clause_value
  | Op.kBefore => TimeOp context_value clause_value Z.ltb
  | Op.kAfter => TimeOp context_value clause_value (λ lhs rhs, rhs <? lhs)
  | Op.kSemVerEqual => SemverOp context_value clause_value SemVer_eqb
  | Op.kSemVerLessThan => SemverOp context_value clause_value SemVer_ltb
  | Op.kSemVerGreaterThan => SemverOp context_value clause_value SemVer_gtb
  | _ => false
  end.
End Match.

(** ** Lemmas *)

Lemma std_equal_prefix l k : std_equal l k = true ↔ ∃ r, k = l ++ r.
Proof.
  revert k. induction l as [|x l IH]; intros k; simpl; [split; eauto|].
  destruct k as [|y k]; [split; [done|by intros []]|].
  rewrite andb_true_iff, IH, Ascii.eqb_eq. split.
  - intros [-> [r ->]]. by exists r.
  - intros [r [= -> ->]]. eauto.
Qed.

Lemma length_prefix_ok (l k : list ascii) :
  (length l <=? length k)%nat && std_equal l k = std_equal l k.
Proof.
  destruct (std_equal l k) eqn:E; [|apply andb_false_r].
  apply std_equal_prefix in E as [r ->]. rewrite length_app, andb_true_r.
  apply Nat.leb_le. lia.
Qed.

Lemma std_find_step hay needle :
  std_find hay needle =
  if std_equal needle hay then Some 0%nat
  else match hay with [] => None | _ :: hay' => S <$> std_find hay' needle end.
Proof. rewrite <- length_prefix_ok. by destruct hay. Qed.

Lemma std_find_spec hay needle :
  is_Some (std_find hay needle) ↔ ∃ a b, hay = a ++ needle ++ b.
Proof.
  induction hay as [|c hay IH]; rewrite std_find_step.
  - destruct (std_equal needle []) eqn:E; simpl.
    + apply std_equal_prefix in E as [r E]. split; [|eauto]. intros _. exists [], r. by rewrite <- E.
    + split; [by intros []|]. intros (a & b & H). exfalso.
      apply eq_sym, app_eq_nil in H as [-> [-> ->]%app_eq_nil]. done.
  - destruct (std_equal needle (c :: hay)) eqn:E; simpl.
    + apply std_equal_prefix in E as [r E]. split; [|eauto]. intros _. exists [], r. done.
    + rewrite fmap_is_Some, IH. split.
      * intros (a & b & ->). by exists (c :: a), b.
      * intros ([|x a] & b & H); simplify_eq/=; [|eauto].
        rewrite H in E. exfalso. apply not_true_iff_false in E. apply E.
        apply std_equal_prefix. eauto.
Qed.

Lemma StringOp_spec (x y : Value) (f : string → string → bool) :
  StringOp x y f = true ↔ ∃ s t, x = VString s ∧ y = VString t ∧ f s t = true.
Proof.
  unfold StringOp. destruct x as [| | |s| |], y as [| | |t| |]; simpl;
    split; try done; try (by intros (? & ? & ? & ? & ?)).
  - eauto.
  - intros (? & ? & [= ->] & [= ->] & ?). done.
Qed.

Lemma string_app_chars s t : (∃ r, chars s = chars t ++ r) ↔ ∃ r, s = t +:+ r.
Proof.
  split.
  - intros [r Hr]. exists (of_chars r). apply chars_inj. autorewrite with ld. done.
  - intros [r ->]. rewrite chars_app. eauto.
Qed.

Lemma StartsWith_spec s t : StartsWith s t = true ↔ ∃ r, s = t +:+ r.
Proof.
  unfold StartsWith. rewrite length_prefix_ok, std_equal_prefix. apply string_app_chars.
Qed.

Lemma EndsWith_spec s t : EndsWith s t = true ↔ ∃ r, s = r +:+ t.
Proof.
  unfold EndsWith. rewrite <- (length_rev (chars t)), <- (length_rev (chars s)).
  rewrite length_prefix_ok, std_equal_prefix. split.
  - intros [r Hr]. exists (of_chars (rev r)). apply chars_inj. autorewrite with ld.
    rewrite <- (rev_involutive (chars s)), Hr, rev_app_distr. by rewrite rev_involutive.
  - intros [r ->]. rewrite chars_app, rev_app_distr. eauto.
Qed.

Lemma Contains_spec s t : Contains s t = true ↔ ∃ a b, s = a +:+ t +:+ b.
Proof.
  unfold Contains.
  assert ((match std_find (chars s) (chars t) with Some _ => true | None => false end) = true ↔
    is_Some (std_find (chars s) (chars t))) as ->.
  { by destruct (std_find _ _); split; intros H; (done || (by inversion H) || eauto). }
  rewrite std_find_spec. split.
  - intros (a & b & H). exists (of_chars a), (of_chars b). apply chars_inj.
    autorewrite with ld. done.
  - intros (a & b & ->). rewrite !chars_app. eauto.
Qed.

Lemma TimeOp_flip `{X : Externals} (x y : Value) (f : Z → Z → bool) :
  TimeOp x y (λ a b, f b a) = TimeOp y x f.
Proof. unfold TimeOp. by destruct (ToTimepoint x), (ToTimepoint y). Qed.

Lemma SemverOp_flip `{X : Externals} (x y : Value) (f : SemVer → SemVer → bool) :
  SemverOp x y (λ a b, f b a) = SemverOp y x f.
Proof.
  unfold SemverOp, StringOp. destruct x, y; simpl; try done.
  by destruct (Parse s), (Parse s0).
Qed.

(** ** Properties *)

(** The string operators decide prefix, suffix and substring, on strings
    only: [startsWith] holds exactly when both values are strings and the
    clause value is a prefix of the context value, and similarly for the other
    two. *)
Theorem string_operators_spec `{X : Externals} (x y : Value) :
  (op_Match Op.kStartsWith x y = true ↔
     ∃ s t r, x = VString s ∧ y = VString t ∧ s = t +:+ r) ∧
  (op_Match Op.kEndsWith x y = true ↔
     ∃ s t r, x = VString s ∧ y = VString t ∧ s = r +:+ t) ∧
  (op_Match Op.kContains x y = true ↔
     ∃ s t a b, x = VString s ∧ y = VString t ∧ s = a +:+ t +:+ b).
Proof.
  unfold op_Match. rewrite !StringOp_spec.
  setoid_rewrite StartsWith_spec. setoid_rewrite EndsWith_spec. setoid_rewrite Contains_spec.
  split_and!; split; intros; deex; eauto 10.
Qed.

(** The ordering operators are coherent: each "greater" operator is its
    "less" operator with the arguments exchanged, a value is never strictly
    before, after, below or above itself, and a strict relation excludes its
    converse. *)
Theorem ordering_operators_dual `{X : Externals} (x y : Value) :
  op_Match Op.kGreaterThan x y = op_Match Op.kLessThan y x ∧
  op_Match Op.kAfter x y = op_Match Op.kBefore y x ∧
  op_Match Op.kSemVerGreaterThan x y = op_Match Op.kSemVerLessThan y x ∧
  (∀ o, o ∈ [Op.kLessThan; Op.kBefore; Op.kSemVerLessThan] →
    op_Match o x x = false ∧ (op_Match o x y = true → op_Match o y x = false)).
Proof.
  split_and!; [apply Value_gtb_flip|apply TimeOp_flip|apply SemverOp_flip|].
  destruct SemVer_order as (Hirr & Hasym).
  intros o Ho. repeat (apply elem_of_cons in Ho as [->|Ho]); [..|by inversion Ho]; simpl.
  - unfold Value_ltb, BothNumbers. destruct x, y; simpl; rewrite ?d_ltb_irrefl; split; try done.
    intros H. apply d_ltb_excl in H. tauto.
  - unfold TimeOp. destruct (ToTimepoint x) as [a|], (ToTimepoint y) as [b|];
      rewrite ?Z.ltb_irrefl; split; try done.
    rewrite Z.ltb_lt, Z.ltb_ge. lia.
  - unfold SemverOp, StringOp. destruct x, y; simpl; try done.
    all: destruct (Parse s) as [v|]; rewrite ?Hirr; split; try done.
    all: destruct (Parse s0) as [w|]; try done. apply Hasym.
Qed.
