(* ===== verification/Bucketing.v ===== *)
(** * Bucketing

    libs/server-sdk/src/evaluation: evaluation_error.hpp/.cpp, bucketing.hpp
    and bucketing.cpp; libs/internal: encoding/base_16.hpp and sha_1.cpp. *)

From S2P Require Import Prelude Doubles Values AttributeReferences Contexts Externals DataModel.
From S2P Require Import ReferenceExternals.
#[local] Open Scope Z_scope.

(** ** Evaluation errors *)

Record Error := mkError { format_ : string; arg_ : option string }.

#[global] Instance Error_eq_dec : EqDecision Error.
Proof. solve_decision. Defined.

Definition CyclicSegmentReference (segment_key : string) : Error :=
  mkError ("segment rule referencing segment " +:+ dquote +:+ "%1%" +:+ dquote +:+
    " caused a circular reference; this is probably a temporary condition due to an incomplete update")
    (Some segment_key).
Definition CyclicPrerequisiteReference (prereq_key : string) : Error :=
  mkError ("prerequisite relationship to " +:+ dquote +:+ "%1%" +:+ dquote +:+
    " caused a circular reference; this is probably a temporary condition due to an incomplete update")
    (Some prereq_key).
Definition MissingSalt (key : string) : Error :=
  mkError (dquote +:+ "%1%" +:+ dquote +:+ " is missing a salt") (Some key).
Definition RolloutMissingVariations : Error :=
  mkError "rollout or experiment with no variations" None.
Definition InvalidAttributeReference (ref : string) : Error :=
  mkError ("invalid attribute reference: " +:+ dquote +:+ "%1%" +:+ dquote) (Some ref).
Definition NonexistentVariationIndex (index : Z) : Error :=
  mkError "rule, fallthrough, or target referenced a nonexistent variation index (%1%)"
    (Some (to_string index)).

(** ** Hexadecimal *)

Definition hex_digit (n : N) : ascii :=
  if (n <? 10)%N then ascii_of_N (48 + n) else ascii_of_N (87 + n).

(** [Base16Encode]: two digits per octet, padded with zero. *)
Definition Base16Encode (arr : list ascii) : string :=
  of_chars (arr ≫= λ byte,
    [hex_digit (N_of_ascii byte / 16); hex_digit (N_of_ascii byte mod 16)]).

Definition hex_value (c : ascii) : option Z :=
  let n := N_of_ascii c in
  if (48 <=? n)%N && (n <=? 57)%N then Some (Z.of_N n - 48)
  else if (97 <=? n)%N && (n <=? 102)%N then Some (Z.of_N n - 87)
  else if (65 <=? n)%N && (n <=? 70)%N then Some (Z.of_N n - 55)
  else None.

(** [std::stoull(str, nullptr, 16)] on a string without sign or prefix: the
    longest run of digits; [None] is an exception (no digit, or out of range). *)
Fixpoint stoull16_digits (acc : Z) (l : list ascii) : Z :=
  match l with
  | [] => acc
  | c :: l' => match hex_value c with Some d => stoull16_digits (acc * 16 + d) l' | None => acc end
  end.

Definition stoull16 (s : string) : option Z :=
  match chars s with
  | [] => None
  | c :: _ =>
      match hex_value c with
      | None => None
      | Some _ => let n := stoull16_digits 0 (chars s) in if n <? 2 ^ 64 then Some n else None
      end
  end.

(** ** Hashing a context value *)

Inductive BucketPrefix :=
| KeyAndSalt (key salt : string)
| Seed (seed : Z).

(** [operator<<(std::ostream, BucketPrefix)] *)
Definition print_prefix (p : BucketPrefix) : string :=
  match p with
  | KeyAndSalt key salt => key +:+ "." +:+ salt
  | Seed seed => to_string seed
  end.

Inductive RolloutKindLookup := kPresent | kAbsent.

#[global] Instance RolloutKindLookup_eq_dec : EqDecision RolloutKindLookup.
Proof. solve_decision. Defined.

Definition kBucketScale : double := d_of_Z 100000.
Definition kBucketHashScale : double := d_of_Z 1152921504606846975. (* 0x0FFFFFFFFFFFFFFF *)

Definition IsIntegral (f : double) : bool := d_eqb (d_trunc f) f.

Definition Key : AttributeReference := FromReferenceStr "key".

Record BucketResult := mkBucketResult {
  VariationIndex : Z;
  InExperiment : bool;
}.

(** The constructors of [BucketResult]; the index becomes a [std::size_t]. *)
Definition bucket_weighted (wv : WeightedVariation) (is_experiment : bool) : BucketResult :=
  mkBucketResult (u64 (wv_variation wv)) (is_experiment && negb (wv_untracked wv)).
Definition bucket_plain (variation : Z) : BucketResult := mkBucketResult (u64 variation) false.

Section Bucketing.
Context `{X : Externals}.

Definition BucketValue (value : Value) : option string :=
  match value with
  | VString s => Some s
  | VNumber d =>
      if IsIntegral d then Some (to_string (default (ub_int_cast d) (AsInt value))) else None
  | _ => None
  end.

(** The number a digest stands for: its first fifteen hexadecimal digits. *)
Definition hash_number (input : string) : option Z :=
  stoull16 (of_chars (take 15 (chars (Base16Encode (SHA1 input))))).

Definition ContextHash (value : Value) (prefix : BucketPrefix) : option double :=
  match BucketValue value with
  | None => None
  | Some id =>
      match hash_number (print_prefix prefix +:+ "." +:+ id) with
      | Some as_number => Some (d_div (d_of_Z as_number) kBucketHashScale)
      | None => None
      end
  end.

Definition Bucket (context : Context) (by_attr : AttributeReference) (prefix : BucketPrefix)
    (is_experiment : bool) (context_kind : string) :
    expected (double * RolloutKindLookup) Error :=
  let ref := if is_experiment then Key else by_attr in
  if negb (Valid ref) then Unexpected (InvalidAttributeReference (RedactionName ref))
  else
    let value := Context_Get context context_kind ref in
    let is_bucketable :=
      bool_decide (Type_of value = ValueType.kNumber) ||
      bool_decide (Type_of value = ValueType.kString) in
    if is_bucketable then
      Val (default (d_of_Z 0) (ContextHash value prefix), kPresent)
    else
      Val (d_of_Z 0,
           if existsb (str_eqb context_kind) (Context_Kinds context) then kPresent else kAbsent).

(** The loop over the weighted variations, from a partial sum. *)
Fixpoint pick_variation (bucket sum : double) (last : WeightedVariation)
    (variations : list WeightedVariation) : WeightedVariation :=
  match variations with
  | [] => last
  | variation :: rest =>
      let sum' := d_add sum (d_div (d_of_Z (wv_weight variation)) kBucketScale) in
      if d_ltb bucket sum' then variation else pick_variation bucket sum' variation rest
  end.

(** [Variation] *)
Definition Variation (vr : VariationOrRollout) (flag_key : string) (context : Context)
    (salt : option string) : expected BucketResult Error :=
  match salt with
  | None => Unexpected (MissingSalt flag_key)
  | Some salt =>
      match vr with
      | VVariation None => Unexpected RolloutMissingVariations
      | VVariation (Some v) => Val (bucket_plain v)
      | VRollout arg =>
          match rollout_variations arg with
          | [] => Unexpected RolloutMissingVariations
          | first :: _ =>
              let is_experiment := bool_decide (rollout_kind arg = RolloutKind.kExperiment) in
              let prefix :=
                match rollout_seed arg with
                | Some seed => Seed seed
                | None => KeyAndSalt flag_key salt
                end in
              match Bucket context (rollout_bucketBy arg) prefix is_experiment
                      (rollout_contextKind arg) with
              | Unexpected e => Unexpected e
              | Val (bucket, lookup) =>
                  Val (bucket_weighted
                         (pick_variation bucket (d_of_Z 0) first (rollout_variations arg))
                         (is_experiment && bool_decide (lookup = kPresent)))
              end
          end
      end
  end.
End Bucketing.

(** ** Lemmas *)

(** The sums the loop compares the bucket with: one per variation. *)
Fixpoint running_sums (sum : double) (l : list WeightedVariation) : list double :=
  match l with
  | [] => []
  | wv :: l' =>
      let sum' := d_add sum (d_div (d_of_Z (wv_weight wv)) kBucketScale) in
      sum' :: running_sums sum' l'
  end.

Lemma length_running_sums sum l : length (running_sums sum l) = length l.
Proof. revert sum. induction l as [|wv l IH]; intros sum; simpl; [done|]. by rewrite IH. Qed.

Lemma last_default {A} (l : list A) (x a b : A) : List.last (x :: l) a = List.last (x :: l) b.
Proof. revert x. induction l as [|y l IH]; intros x; [done|]. apply (IH y). Qed.

(** The loop returns the first variation whose running sum exceeds the bucket,
    or the last one. *)
Lemma pick_variation_spec bucket sum last l :
  (∃ i wv, pick_variation bucket sum last l = wv ∧ l !! i = Some wv ∧
     (∃ s, running_sums sum l !! i = Some s ∧ d_ltb bucket s = true) ∧
     (∀ j s, (j < i)%nat → running_sums sum l !! j = Some s → d_ltb bucket s = false)) ∨
  (pick_variation bucket sum last l = List.last l last ∧
   ∀ j s, running_sums sum l !! j = Some s → d_ltb bucket s = false).
Proof.
  revert sum last. induction l as [|wv l IH]; intros sum last; simpl.
  - right. split; [done|]. intros j s Hj. by rewrite lookup_nil in Hj.
  - set (sum' := d_add _ _). destruct (d_ltb bucket sum') eqn:E.
    + left. exists 0%nat, wv. split_and!; [done|done|eauto|]. intros; lia.
    + destruct (IH sum' wv) as [(i & w & Hp & Hi & (s & Hs & Hlt) & Hj)|[Hp Hj]].
      * left. exists (S i), w. split_and!; [done|done|eauto|].
        intros [|j] s' Hji Hs'; simplify_eq/=; [done|]. eapply Hj; [|done]. lia.
      * right. split.
        -- rewrite Hp. destruct l as [|w l]; [done|]. by apply last_default.
        -- intros [|j] s' Hs'; simplify_eq/=; eauto.
Qed.

Lemma pick_variation_in bucket sum last l :
  l ≠ [] → pick_variation bucket sum last l ∈ l.
Proof.
  intros Hne. destruct (pick_variation_spec bucket sum last l) as [(i & wv & -> & Hi & _)|[-> _]].
  - by eapply list_elem_of_lookup_2.
  - destruct l as [|wv l]; [done|]. clear Hne. revert wv.
    induction l as [|w l IH]; intros wv; [by left|].
    change (List.last (wv :: w :: l) last) with (List.last (w :: l) last). right. apply IH.
Qed.

Lemma hex_digit_value n : (n < 16)%N → hex_value (hex_digit n) = Some (Z.of_N n).
Proof.
  intros Hn. destruct n as [|p]; [done|].
  do 4 (destruct p as [p|p|]; try done; try lia).
Qed.

(** The digits of a digest are hexadecimal digits. *)
Lemma Base16_digits arr :
  Forall (λ c, ∃ d, hex_value c = Some d ∧ 0 ≤ d < 16) (chars (Base16Encode arr)).
Proof.
  unfold Base16Encode. rewrite chars_of_chars. induction arr as [|b arr IH]; simpl; [constructor|].
  assert (N_of_ascii b < 256)%N as Hb by apply N_ascii_bounded.
  repeat constructor; [| |done].
  - assert (N_of_ascii b / 16 < 16)%N by (apply N.Div0.div_lt_upper_bound; exact Hb).
    rewrite hex_digit_value by done. eexists. split; [done|]. split; [apply N2Z.is_nonneg|]. by apply (N2Z.inj_lt _ 16).
  - assert (N_of_ascii b mod 16 < 16)%N by (by apply N.mod_lt).
    rewrite hex_digit_value by done. eexists. split; [done|]. split; [apply N2Z.is_nonneg|]. by apply (N2Z.inj_lt _ 16).
Qed.

Lemma stoull16_digits_bound l acc :
  Forall (λ c, ∃ d, hex_value c = Some d ∧ 0 ≤ d < 16) l → 0 ≤ acc →
  0 ≤ stoull16_digits acc l < (acc + 1) * 16 ^ Z.of_nat (length l).
Proof.
  revert acc. induction l as [|c l IH]; intros acc HF Ha; simpl stoull16_digits.
  - simpl. lia.
  - apply Forall_cons_1 in HF as [(d & -> & Hd) HF].
    specialize (IH (acc * 16 + d) HF ltac:(lia)).
    simpl length. rewrite Nat2Z.inj_succ, Z.pow_succ_r by lia.
    split; [lia|]. eapply Z.lt_le_trans; [apply IH|]. nia.
Qed.

(** A digest always yields a number below 2^60, so no exception path of
    [ContextHash] is ever taken. *)
Lemma hash_number_total `{X : Externals} `{!ExternalsSpec X} input :
  ∃ n, hash_number input = Some n ∧ 0 ≤ n < 2 ^ 60.
Proof.
  unfold hash_number, stoull16. rewrite chars_of_chars.
  pose proof (Base16_digits (SHA1 input)) as HF.
  assert (length (chars (Base16Encode (SHA1 input))) = 40%nat) as Hlen.
  { unfold Base16Encode. rewrite chars_of_chars. pose proof (SHA1_length input) as Hl.
    revert Hl. generalize (SHA1 input). intros l Hl.
    transitivity (2 * length l)%nat; [|lia]. clear.
    induction l as [|b l IH]; [done|]. rewrite bind_cons, length_app, IH. simpl. lia. }
  pose proof (Forall_take _ 15 _ HF) as HT.
  pose proof (stoull16_digits_bound _ 0 HT ltac:(lia)) as Hb.
  rewrite length_take, Hlen in Hb. change (Z.of_nat (15 `min` 40)) with 15 in Hb.
  destruct (take 15 (chars (Base16Encode (SHA1 input)))) as [|c l] eqn:E.
  { apply (f_equal length) in E. by rewrite length_take, Hlen in E. }
  apply Forall_cons_1 in HT as [(d & Hd & _) _]. rewrite Hd.
  exists (stoull16_digits 0 (c :: l)). split; [|exact Hb].
  case_match eqn:Hlt; [done|]. apply Z.ltb_ge in Hlt. lia.
Qed.

Lemma Bucket_valid `{X : Externals} ctx by_attr prefix (exp : bool) kind :
  Valid (if exp then Key else by_attr) = true →
  ∃ bucket lookup, Bucket ctx by_attr prefix exp kind = Val (bucket, lookup).
Proof. intros H. unfold Bucket. rewrite H. simpl. destruct (_ || _); eauto. Qed.

Lemma Bucket_error `{X : Externals} ctx by_attr prefix (exp : bool) kind e :
  Bucket ctx by_attr prefix exp kind = Unexpected e ↔
  exp = false ∧ Valid by_attr = false ∧ e = InvalidAttributeReference (RedactionName by_attr).
Proof.
  unfold Bucket. destruct exp; simpl.
  - split; [by destruct (_ || _)|by intros []].
  - destruct (Valid by_attr); simpl; split.
    + by destruct (_ || _).
    + by intros (_ & ? & _).
    + intros [= <-]. done.
    + by intros (_ & _ & ->).
Qed.

(** ** Properties *)

(** C7: a rollout with at least one variation and a usable bucketing attribute
    always yields a variation: the first one whose cumulative weight exceeds
    the context's bucket, or the last one when the weights do not add up to it;
    the result is in the experiment exactly when the rollout is an experiment,
    the context kind is present and the variation is tracked. *)
Theorem rollout_variation_spec `{X : Externals} (arg : Rollout) (flag_key salt : string)
  (ctx : Context)
  (Hne : rollout_variations arg ≠ [])
  (Href : rollout_kind arg = RolloutKind.kExperiment ∨ Valid (rollout_bucketBy arg) = true) :
  ∃ bucket lookup wv,
    Bucket ctx (rollout_bucketBy arg)
      (match rollout_seed arg with Some s => Seed s | None => KeyAndSalt flag_key salt end)
      (bool_decide (rollout_kind arg = RolloutKind.kExperiment)) (rollout_contextKind arg)
      = Val (bucket, lookup) ∧
    Variation (VRollout arg) flag_key ctx (Some salt) =
      Val (mkBucketResult (u64 (wv_variation wv))
        (bool_decide (rollout_kind arg = RolloutKind.kExperiment) &&
         bool_decide (lookup = kPresent) && negb (wv_untracked wv))) ∧
    ((∃ i s, rollout_variations arg !! i = Some wv ∧
        running_sums (d_of_Z 0) (rollout_variations arg) !! i = Some s ∧
        d_ltb bucket s = true ∧
        ∀ j t, (j < i)%nat →
          running_sums (d_of_Z 0) (rollout_variations arg) !! j = Some t → d_ltb bucket t = false) ∨
     (last (rollout_variations arg) = Some wv ∧
      ∀ j t, running_sums (d_of_Z 0) (rollout_variations arg) !! j = Some t →
        d_ltb bucket t = false)).
Proof.
  set (exp := bool_decide (rollout_kind arg = RolloutKind.kExperiment)).
  assert (Valid (if exp then Key else rollout_bucketBy arg) = true) as Hv.
  { subst exp. destruct Href as [->|Hv]; [done|]. by destruct (bool_decide _). }
  edestruct (Bucket_valid ctx (rollout_bucketBy arg)
    (match rollout_seed arg with Some s => Seed s | None => KeyAndSalt flag_key salt end)
    exp (rollout_contextKind arg) Hv) as (bucket & lookup & HB).
  unfold Variation. fold exp. rewrite HB.
  destruct (rollout_variations arg) as [|first l] eqn:E; [done|].
  eexists bucket, lookup, _. split; [done|]. split; [reflexivity|].
  destruct (pick_variation_spec bucket (d_of_Z 0) first (first :: l))
    as [(i & wv & Hp & Hi & (s & Hs & Hlt) & Hj)|[Hp Hj]]; rewrite Hp; [left|right].
  - exists i, s. split_and!; done.
  - split; [|done]. clear. revert first. induction l as [|w l IH]; intros first; [done|].
    rewrite last_cons_cons, (IH w). f_equal. apply (last_default l w w first).
Qed.

(** Two variations of half the weight each, for a context that is a user. *)
Definition sample_rollout : Rollout :=
  make_rollout [mkWeighted 0 50000 false; mkWeighted 1 50000 false].

Lemma rollout_variation_spec_witness :
  ∃ bucket lookup (wv : WeightedVariation),
    Bucket (CB_Build (CB_Kind "user" "bob" [])) (rollout_bucketBy sample_rollout) (KeyAndSalt "flag" "salt")
      false "user" = Val (bucket, lookup) ∧
    Variation (VRollout sample_rollout) "flag" (CB_Build (CB_Kind "user" "bob" [])) (Some "salt") =
      Val (mkBucketResult (u64 (wv_variation wv)) false).
Proof.
  destruct (rollout_variation_spec sample_rollout "flag" "salt" (CB_Build (CB_Kind "user" "bob" [])))
    as (bucket & lookup & wv & HB & HV & _); [done|by right|].
  exists bucket, lookup, wv. split; [exact HB|exact HV].
Defined.

(** When a rollout has a seed its outcome depends on neither the flag key
    nor the salt, so flags sharing a seed bucket contexts identically; and an
    experiment's outcome does not depend on the bucketing attribute. *)
Lemma seeded_rollout_stable `{X : Externals} (arg : Rollout) (ctx : Context)
  (k1 k2 s1 s2 : string) (other : AttributeReference) :
  (is_Some (rollout_seed arg) →
     Variation (VRollout arg) k1 ctx (Some s1) = Variation (VRollout arg) k2 ctx (Some s2)) ∧
  (rollout_kind arg = RolloutKind.kExperiment →
     Variation (VRollout arg) k1 ctx (Some s1) =
     Variation (VRollout (mkRollout (rollout_variations arg) (rollout_kind arg)
       (rollout_seed arg) other (rollout_contextKind arg))) k1 ctx (Some s1)).
Proof. split; [intros [seed Hs]|intros Hk]; simpl; [rewrite Hs|rewrite Hk]; done. Qed.

(** The only failures of [Variation] are a missing salt, a missing
    variation or empty rollout, and an invalid bucketing attribute of a rollout
    that is not an experiment; each is reported with its own error. *)
Theorem variation_error_spec `{X : Externals} (vr : VariationOrRollout) (flag_key : string)
  (ctx : Context) (salt : option string) (e : Error) :
  Variation vr flag_key ctx salt = Unexpected e ↔
  (salt = None ∧ e = MissingSalt flag_key) ∨
  (salt ≠ None ∧ vr = VVariation None ∧ e = RolloutMissingVariations) ∨
  (∃ r, salt ≠ None ∧ vr = VRollout r ∧ rollout_variations r = [] ∧ e = RolloutMissingVariations) ∨
  (∃ r, salt ≠ None ∧ vr = VRollout r ∧ rollout_variations r ≠ [] ∧
     rollout_kind r ≠ RolloutKind.kExperiment ∧ Valid (rollout_bucketBy r) = false ∧
     e = InvalidAttributeReference (RedactionName (rollout_bucketBy r))).
Proof.
  unfold Variation. destruct salt as [salt|].
  2:{ split; [intros [= <-]; by left|].
      intros [[_ ->]|[[? _]|[(? & ? & _)|(? & ? & _)]]]; done. }
  destruct vr as [[v|]|r].
  - split; [done|]. intros [[? _]|[(_ & ? & _)|[(? & _ & ? & _)|(? & _ & ? & _)]]]; done.
  - split; [intros [= <-]; right; left; done|].
    intros [[? _]|[(_ & _ & ->)|[(? & _ & ? & _)|(? & _ & ? & _)]]]; done.
  - destruct (rollout_variations r) as [|wv l] eqn:E.
    + split; [intros [= <-]; right; right; left; by exists r|].
      intros [[? _]|[(_ & ? & _)|[(r' & _ & [= <-] & _ & ->)|(r' & _ & [= <-] & ? & _)]]]; done.
    + destruct (Bucket _ _ _ _ _) as [[b lk]|e'] eqn:HB.
      * split; [done|].
        intros [[? _]|[(_ & ? & _)|[(r' & _ & [= <-] & ? & _)|(r' & _ & [= <-] & _ & Hk & Hv & _)]]];
          try done; [congruence|].
        exfalso. unfold Bucket in HB. rewrite bool_decide_eq_false_2, Hv in HB by done. done.
      * apply Bucket_error in HB as (He%bool_decide_eq_false & Hv & ->). split.
        -- intros [= <-]. right; right; right. exists r. by rewrite E.
        -- intros [[? _]|[(_ & ? & _)|[(r' & _ & [= <-] & ? & _)|(r' & _ & [= <-] & _ & _ & _ & ->)]]];
             try done. congruence.
Qed.
