(* ===== verification/EvalStack.v ===== *)
(** * The evaluation stack

    libs/server-sdk/src/evaluation/evaluation_stack.hpp/.cpp: the per-evaluation
    state (visited prerequisites and segments, Big Segments status, memberships
    already looked up, keys whose lookup failed), and
    integrations/big_segments/big_segment_store_types.hpp ([Membership]).

    The Big Segment store wrapper is reached through an interface
    ([BigSegmentStore]); its state is threaded through the stack, where the code
    holds a pointer to it. *)

From S2P Require Import Prelude Reasons.
#[local] Open Scope Z_scope.

(** ** Memberships *)

Abbreviation Membership := (gmap string bool).

(** [Membership::FromSegmentRefs] *)
Definition FromSegmentRefs (included_segment_refs excluded_segment_refs : list string) :
    Membership :=
  foldl (λ m ref, <[ref := true]> m)
    (foldl (λ m ref, <[ref := false]> m) ∅ excluded_segment_refs) included_segment_refs.

Definition CheckMembership (m : Membership) (segment_ref : string) : option bool :=
  m !! segment_ref.

(** [data_components::BigSegmentsStatus] *)
Module StoreStatus.
Inductive t := kHealthy | kStale | kStoreError | kNotConfigured.
#[global] Instance eq_dec : EqDecision t.
Proof. solve_decision. Defined.
End StoreStatus.

Record GetMembershipResult := mkMembershipResult {
  result_membership : Membership;
  result_status : StoreStatus.t;
}.

(** What the evaluation asks of the store wrapper. *)
Class BigSegmentStore (W : Type) :=
  GetMembership : W → string → W * GetMembershipResult.

(** ** The stack *)

Record EvaluationStack (W : Type) := mkStack {
  prerequisites_seen_ : gset string;
  segments_seen_ : gset string;
  big_segment_store_ : option W;
  stack_status_ : BigSegmentsStatus.t;
  memberships_ : gmap string Membership;
  store_error_keys_ : gset string;
}.
Arguments mkStack {W} _ _ _ _ _ _.
Arguments prerequisites_seen_ {W} _.
Arguments segments_seen_ {W} _.
Arguments big_segment_store_ {W} _.
Arguments stack_status_ {W} _.
Arguments memberships_ {W} _.
Arguments store_error_keys_ {W} _.

(** The constructor. *)
Definition new_stack {W} (store : option W) : EvaluationStack W :=
  mkStack ∅ ∅ store BigSegmentsStatus.kNone ∅ ∅.

Definition Precedence (status : BigSegmentsStatus.t) : Z :=
  match status with
  | BigSegmentsStatus.kNone => 0
  | BigSegmentsStatus.kHealthy => 1
  | BigSegmentsStatus.kStale => 2
  | BigSegmentsStatus.kStoreError => 3
  | BigSegmentsStatus.kNotConfigured => 4
  end.

Section Operations.
Context {W : Type}.
Implicit Types (st : EvaluationStack W).

(** [NoticePrerequisite] and the destructor of its guard. *)
Definition NoticePrerequisite (prerequisite_key : string) st : option (EvaluationStack W) :=
  if bool_decide (prerequisite_key ∈ prerequisites_seen_ st) then None
  else Some (mkStack ({[prerequisite_key]} ∪ prerequisites_seen_ st) (segments_seen_ st)
    (big_segment_store_ st) (stack_status_ st) (memberships_ st) (store_error_keys_ st)).

Definition ForgetPrerequisite (key : string) st : EvaluationStack W :=
  mkStack (prerequisites_seen_ st ∖ {[key]}) (segments_seen_ st)
    (big_segment_store_ st) (stack_status_ st) (memberships_ st) (store_error_keys_ st).

(** [NoticeSegment] and the destructor of its guard. *)
Definition NoticeSegment (segment_key : string) st : option (EvaluationStack W) :=
  if bool_decide (segment_key ∈ segments_seen_ st) then None
  else Some (mkStack (prerequisites_seen_ st) ({[segment_key]} ∪ segments_seen_ st)
    (big_segment_store_ st) (stack_status_ st) (memberships_ st) (store_error_keys_ st)).

Definition ForgetSegment (key : string) st : EvaluationStack W :=
  mkStack (prerequisites_seen_ st) (segments_seen_ st ∖ {[key]})
    (big_segment_store_ st) (stack_status_ st) (memberships_ st) (store_error_keys_ st).

Definition RecordBigSegmentsStatus (status : BigSegmentsStatus.t) st : EvaluationStack W :=
  if Precedence (stack_status_ st) <? Precedence status then
    mkStack (prerequisites_seen_ st) (segments_seen_ st) (big_segment_store_ st) status
      (memberships_ st) (store_error_keys_ st)
  else st.

Definition FindMembership (context_key : string) st : option Membership :=
  memberships_ st !! context_key.

(** [emplace]: an entry already present is kept. *)
Definition StoreMembership (context_key : string) (m : Membership) st : EvaluationStack W :=
  mkStack (prerequisites_seen_ st) (segments_seen_ st) (big_segment_store_ st) (stack_status_ st)
    (match memberships_ st !! context_key with
     | Some _ => memberships_ st
     | None => <[context_key := m]> (memberships_ st)
     end) (store_error_keys_ st).

Definition RecordStoreError (context_key : string) st : EvaluationStack W :=
  mkStack (prerequisites_seen_ st) (segments_seen_ st) (big_segment_store_ st) (stack_status_ st)
    (memberships_ st) ({[context_key]} ∪ store_error_keys_ st).

Definition DidStoreError (context_key : string) st : bool :=
  bool_decide (context_key ∈ store_error_keys_ st).

(** The state of the wrapper after a call through the pointer. *)
Definition set_store (w : W) st : EvaluationStack W :=
  mkStack (prerequisites_seen_ st) (segments_seen_ st) (Some w) (stack_status_ st)
    (memberships_ st) (store_error_keys_ st).
End Operations.

(** ** A state monad

    The code threads the stack by reference.  [None] means that the recursion
    bound was exhausted; the theorems show that this never happens. *)

Definition M (St A : Type) : Type := St → option (St * A).

Definition mret {St A} (a : A) : M St A := λ st, Some (st, a).
Definition bind {St A B} (m : M St A) (k : A → M St B) : M St B :=
  λ st, match m st with Some (st', a) => k a st' | None => None end.
Definition modify {St} (f : St → St) : M St unit := λ st, Some (f st, ()).
Definition gets {St A} (f : St → A) : M St A := λ st, Some (st, f st).
Definition out_of_fuel {St A} : M St A := λ _, None.

Declare Scope eval_scope.
Delimit Scope eval_scope with eval.
Notation "x <- m ;; k" := (bind m (λ x, k))
  (at level 100, m at next level, right associativity) : eval_scope.
Notation "m ;;; k" := (bind m (λ _, k)) (at level 100, right associativity) : eval_scope.

(** A computation that, from every state satisfying [Pre], returns, relates the
    two states by [R], and yields a result satisfying [Post]. *)
Definition runs {St A} (Pre : St → Prop) (R : St → St → Prop) (Post : A → Prop) (m : M St A) :
    Prop :=
  ∀ st, Pre st → ∃ st' a, m st = Some (st', a) ∧ R st st' ∧ Post a.

Section Runs.
Context {St : Type} (Pre : St → Prop) (R : St → St → Prop) `{!PreOrder R}.
Hypothesis stable : ∀ st st', Pre st → R st st' → Pre st'.

Lemma runs_ret {A} (Post : A → Prop) a : Post a → runs Pre R Post (mret a).
Proof. intros Ha st _. exists st, a. by split_and!. Qed.

Lemma runs_bind {A B} (PA : A → Prop) (PB : B → Prop) m (k : A → M St B) :
  runs Pre R PA m → (∀ a, PA a → runs Pre R PB (k a)) → runs Pre R PB (bind m k).
Proof.
  intros Hm Hk st Hst. destruct (Hm st Hst) as (st1 & a & E & HR & Ha). unfold bind. rewrite E.
  destruct (Hk a Ha st1) as (st2 & b & E2 & HR2 & Hb); [by eapply stable|].
  exists st2, b. split_and!; [done|by etrans|done].
Qed.

Lemma runs_modify (f : St → St) : (∀ st, Pre st → R st (f st)) → runs Pre R (λ _, True) (modify f).
Proof. intros Hf st Hst. exists (f st), (). split_and!; auto. Qed.
End Runs.

Lemma runs_weaken {St A} (Pre Pre' : St → Prop) (R R' : St → St → Prop) (P P' : A → Prop) m :
  runs Pre R P m → (∀ st, Pre' st → Pre st) → (∀ st st', Pre' st → R st st' → R' st st') →
  (∀ a, P a → P' a) → runs Pre' R' P' m.
Proof.
  intros Hm HP HR HA st Hst. destruct (Hm st (HP _ Hst)) as (st' & a & E & H1 & H2).
  exists st', a. split_and!; auto.
Qed.

(** ** Lemmas *)

Lemma FromSegmentRefs_lookup inc exc ref :
  CheckMembership (FromSegmentRefs inc exc) ref =
  if bool_decide (ref ∈ inc) then Some true
  else if bool_decide (ref ∈ exc) then Some false else None.
Proof.
  unfold CheckMembership, FromSegmentRefs.
  assert (∀ (b : bool) l (m : Membership),
    foldl (λ m ref, <[ref := b]> m) m l !! ref =
    if bool_decide (ref ∈ l) then Some b else m !! ref) as H.
  { intros b l. induction l as [|r l IH]; intros m; simpl; [done|]. rewrite IH.
    destruct (decide (ref ∈ l)).
    - rewrite !bool_decide_eq_true_2; set_solver.
    - rewrite (bool_decide_eq_false_2 (ref ∈ l)) by done.
      destruct (decide (ref = r)) as [->|].
      + rewrite lookup_insert_eq, bool_decide_eq_true_2; set_solver.
      + rewrite lookup_insert_ne, bool_decide_eq_false_2; set_solver. }
  by rewrite !H, lookup_empty.
Qed.

(** The status after recording is the more severe of the two. *)
Lemma RecordBigSegmentsStatus_max {W} status (st : EvaluationStack W) :
  Precedence (stack_status_ (RecordBigSegmentsStatus status st)) =
  Z.max (Precedence (stack_status_ st)) (Precedence status).
Proof.
  unfold RecordBigSegmentsStatus. destruct (Z.ltb_spec (Precedence (stack_status_ st)) (Precedence status));
    simpl; lia.
Qed.

Lemma Precedence_inj s t : Precedence s = Precedence t → s = t.
Proof. by destruct s, t. Qed.
