(* ===== verification/Stores.v ===== *)
(** * Stores

    libs/server-sdk/src/data_interfaces/store/istore.hpp and
    destination/itransactional_destination.hpp: what the evaluator and the
    change notifier ask of a flag store, as classes of operations with the laws
    their clients rely on; and data_components/memory_store, which implements
    both.  A null [shared_ptr] is [None]. *)

From S2P Require Import Prelude DataModel.

Class IStore (St : Type) := {
  GetFlag : St → string → option FlagDescriptor;
  GetSegment : St → string → option SegmentDescriptor;
  AllFlags : St → gmap string FlagDescriptor;
  AllSegments : St → gmap string SegmentDescriptor;
}.

Class IStoreLaws (St : Type) `{!IStore St} : Prop := {
  GetFlag_all : ∀ s k, GetFlag s k = AllFlags s !! k;
  GetSegment_all : ∀ s k, GetSegment s k = AllSegments s !! k;
}.

(** The keys that the items of a store carry. *)
Definition stored_flag_keys {St} `{IStore St} (s : St) : gset string :=
  list_to_set (omap (λ kd, flag_key <$> item kd.2) (map_to_list (AllFlags s))).

Definition stored_segment_keys {St} `{IStore St} (s : St) : gset string :=
  list_to_set (omap (λ kd, segment_key <$> item kd.2) (map_to_list (AllSegments s))).

Lemma stored_flag_key {St} `{IStoreLaws St} (s : St) k d f :
  GetFlag s k = Some d → item d = Some f → flag_key f ∈ stored_flag_keys s.
Proof.
  rewrite GetFlag_all. intros Hk Hd. unfold stored_flag_keys.
  apply elem_of_list_to_set, list_elem_of_omap. exists (k, d).
  split; [by apply elem_of_map_to_list|]. simpl. by rewrite Hd.
Qed.

Lemma stored_segment_key {St} `{IStoreLaws St} (s : St) k d g :
  GetSegment s k = Some d → item d = Some g → segment_key g ∈ stored_segment_keys s.
Proof.
  rewrite GetSegment_all. intros Hk Hd. unfold stored_segment_keys.
  apply elem_of_list_to_set, list_elem_of_omap. exists (k, d).
  split; [by apply elem_of_map_to_list|]. simpl. by rewrite Hd.
Qed.

(** [IDestination] and [ITransactionalDestination] *)
Class Destination (D : Type) := {
  dest_Init : SDKDataSet → D → D;
  dest_UpsertFlag : string → FlagDescriptor → D → D;
  dest_UpsertSegment : string → SegmentDescriptor → D → D;
  dest_Apply : ChangeSet ChangeSetData → D → D;
}.

(** ** [MemoryStore] *)

Record MemoryStore := mkMemoryStore {
  flags_ : gmap string FlagDescriptor;
  segments_ : gmap string SegmentDescriptor;
  initialized_ : bool;
}.

Definition empty_memory_store : MemoryStore := mkMemoryStore ∅ ∅ false.

Module Memory.
Definition GetFlag (s : MemoryStore) (key : string) : option FlagDescriptor := flags_ s !! key.
Definition GetSegment (s : MemoryStore) (key : string) : option SegmentDescriptor :=
  segments_ s !! key.
Definition AllFlags (s : MemoryStore) : gmap string FlagDescriptor := flags_ s.
Definition AllSegments (s : MemoryStore) : gmap string SegmentDescriptor := segments_ s.
Definition Initialized (s : MemoryStore) : bool := initialized_ s.

(** The maps are cleared and refilled by [emplace]; the keys of the data set
    are distinct. *)
Definition Init (dataSet : SDKDataSet) (s : MemoryStore) : MemoryStore :=
  mkMemoryStore
    (map_fold (λ k d m, match m !! k with Some _ => m | None => <[k := d]> m end) ∅ (ds_flags dataSet))
    (map_fold (λ k d m, match m !! k with Some _ => m | None => <[k := d]> m end) ∅ (ds_segments dataSet))
    true.

Definition UpsertFlag (key : string) (flag : FlagDescriptor) (s : MemoryStore) : MemoryStore :=
  mkMemoryStore (<[key := flag]> (flags_ s)) (segments_ s) (initialized_ s).

Definition UpsertSegment (key : string) (segment : SegmentDescriptor) (s : MemoryStore) :
    MemoryStore :=
  mkMemoryStore (flags_ s) (<[key := segment]> (segments_ s)) (initialized_ s).

Definition RemoveFlag (key : string) (s : MemoryStore) : MemoryStore * bool :=
  (mkMemoryStore (delete key (flags_ s)) (segments_ s) (initialized_ s),
   bool_decide (is_Some (flags_ s !! key))).

Definition RemoveSegment (key : string) (s : MemoryStore) : MemoryStore * bool :=
  (mkMemoryStore (flags_ s) (delete key (segments_ s)) (initialized_ s),
   bool_decide (is_Some (segments_ s !! key))).

Definition apply_change (s : MemoryStore) (change : ItemChange) : MemoryStore :=
  match change with
  | FlagChange key object =>
      mkMemoryStore (<[key := object]> (flags_ s)) (segments_ s) (initialized_ s)
  | SegmentChange key object =>
      mkMemoryStore (flags_ s) (<[key := object]> (segments_ s)) (initialized_ s)
  end.

Definition Apply (changeSet : ChangeSet ChangeSetData) (s : MemoryStore) : MemoryStore :=
  match cs_type changeSet with
  | ChangeSetType.kNone => s
  | ChangeSetType.kPartial => foldl apply_change s (cs_data changeSet)
  | ChangeSetType.kFull => foldl apply_change (mkMemoryStore ∅ ∅ true) (cs_data changeSet)
  end.
End Memory.

#[global] Instance memory_store : IStore MemoryStore := {
  GetFlag := Memory.GetFlag;
  GetSegment := Memory.GetSegment;
  AllFlags := Memory.AllFlags;
  AllSegments := Memory.AllSegments;
}.

#[global] Instance memory_store_laws : IStoreLaws MemoryStore.
Proof. by split. Qed.

#[global] Instance memory_destination : Destination MemoryStore := {
  dest_Init := Memory.Init;
  dest_UpsertFlag := Memory.UpsertFlag;
  dest_UpsertSegment := Memory.UpsertSegment;
  dest_Apply := Memory.Apply;
}.

(** ** Lemmas on the memory store *)

Lemma map_fold_emplace {A} (m : gmap string A) :
  map_fold (λ k d acc, match acc !! k with Some _ => acc | None => <[k := d]> acc end) ∅ m = m.
Proof.
  apply (map_fold_weak_ind (λ acc m, acc = m)); [done|].
  intros k d m' acc Hk ->. by rewrite Hk.
Qed.

(** The change sets that an item of a flag changes last. *)
Fixpoint last_flag_change (key : string) (l : ChangeSetData) : option FlagDescriptor :=
  match l with
  | [] => None
  | c :: l' =>
      match last_flag_change key l' with
      | Some d => Some d
      | None => match c with FlagChange k d => if str_eqb k key then Some d else None | _ => None end
      end
  end.

Lemma apply_changes_flag l s key :
  Memory.GetFlag (foldl Memory.apply_change s l) key =
  match last_flag_change key l with Some d => Some d | None => Memory.GetFlag s key end.
Proof.
  unfold Memory.GetFlag. revert s. induction l as [|c l IH]; intros s; simpl; [done|].
  rewrite IH. destruct (last_flag_change key l); [done|].
  destruct c as [k d|k d]; simpl; [|done]. destruct (str_eqb k key) eqn:E.
  - apply str_eqb_eq in E as ->. by rewrite lookup_insert_eq.
  - apply str_eqb_neq in E. by rewrite lookup_insert_ne.
Qed.
