(* ===== verification/Rules.v ===== *)
(** * Rules, clauses and segments

    libs/server-sdk/src/evaluation/rules.hpp and rules.cpp.

    [Contains], [MatchSegment] and the two [Match] overloads are mutually
    recursive through the store.  They are written here with the recursive call
    as an argument ([contains]) and tied together by [SegmentContains], whose
    fuel bounds the depth of nested segments. *)

From S2P Require Import Prelude Doubles Values AttributeReferences Contexts Reasons DataModel.
From S2P Require Import Externals ReferenceExternals Operators Bucketing EvalStack Stores.
#[local] Open Scope Z_scope.
#[local] Open Scope eval_scope.

(** ** Big Segments *)

Definition ToBigSegmentsStatus (status : StoreStatus.t) : BigSegmentsStatus.t :=
  match status with
  | StoreStatus.kHealthy => BigSegmentsStatus.kHealthy
  | StoreStatus.kStale => BigSegmentsStatus.kStale
  | StoreStatus.kStoreError => BigSegmentsStatus.kStoreError
  | StoreStatus.kNotConfigured => BigSegmentsStatus.kNotConfigured
  end.

(** [MakeBigSegmentRef], for a segment that has a generation. *)
Definition MakeBigSegmentRef (segment : Segment) (generation : Z) : string :=
  segment_key segment +:+ ".g" +:+ to_string generation.

(** The context kind of a Big Segment. *)
Definition big_segment_kind (segment : Segment) : string :=
  match segment_unboundedContextKind segment with
  | Some kind => if is_empty kind then "user" else kind
  | None => "user"
  end.

Definition MatchBigSegment {W} `{BigSegmentStore W} (segment : Segment) (context : Context)
    (st : EvaluationStack W) : EvaluationStack W * option bool :=
  match segment_generation segment with
  | None => (RecordBigSegmentsStatus BigSegmentsStatus.kNotConfigured st, Some false)
  | Some generation =>
      match Context_Get context (big_segment_kind segment) Key with
      | VString key =>
          if DidStoreError key st then (st, Some false)
          else
            let ref := MakeBigSegmentRef segment generation in
            match FindMembership key st with
            | Some membership => (st, CheckMembership membership ref)
            | None =>
                match big_segment_store_ st with
                | None =>
                    (RecordBigSegmentsStatus BigSegmentsStatus.kNotConfigured st, Some false)
                | Some store =>
                    let '(store', result) := GetMembership store key in
                    let status := ToBigSegmentsStatus (result_status result) in
                    let st := RecordBigSegmentsStatus status (set_store store' st) in
                    if bool_decide (status = BigSegmentsStatus.kStoreError) then
                      (RecordStoreError key st, Some false)
                    else
                      let st := StoreMembership key (result_membership result) st in
                      (st, match FindMembership key st with
                           | Some membership => CheckMembership membership ref
                           | None => None
                           end)
                end
            end
      | _ => (st, Some false)
      end
  end.

(** ** Clauses that do not name a segment *)

Definition MaybeNegate (clause : Clause) (value : bool) : bool :=
  if negate clause then negb value else value.

Definition MatchNonSegment `{X : Externals} (clause : Clause) (context : Context) :
    expected bool Error :=
  let attr := clause_attribute clause in
  if negb (Valid attr) then Unexpected (InvalidAttributeReference (RedactionName attr))
  else if IsKind attr then
    Val (MaybeNegate clause
      (existsb (λ clause_value,
         existsb (λ kind, op_Match (op clause) (VString kind) clause_value)
           (Context_Kinds context)) (clause_values clause)))
  else
    let attribute := Context_Get context (clause_contextKind clause) attr in
    if IsNull attribute then Val false
    else if IsArray attribute then
      Val (MaybeNegate clause
        (existsb (λ clause_value,
           existsb (λ context_value, op_Match (op clause) context_value clause_value)
             (AsArray attribute)) (clause_values clause)))
    else
      Val (MaybeNegate clause
        (existsb (λ clause_value, op_Match (op clause) attribute clause_value)
           (clause_values clause))).

(** [IsTargeted] *)
Definition IsTargeted (context : Context) (user_keys : list string)
    (context_targets : list SegmentTarget) : bool :=
  if existsb (λ target,
       let key := Context_Get context (st_contextKind target) Key in
       IsString key && existsb (λ v, Value_eqb (VString v) key) (st_values target))
       context_targets
  then true
  else
    let key := Context_Get context "user" Key in
    if negb (IsNull key) then existsb (str_eqb (AsString key)) user_keys else false.

(** ** Segments *)

Section Segments.
Context `{X : Externals} {W : Type} `{!BigSegmentStore W} {St : Type} `{!IStore St}.
Abbreviation Stk := (M (EvaluationStack W)).
Variable (context : Context) (store : St).

Section Recursive.
(** The recursive call of [MatchSegment] to [Contains]. *)
Variable contains : Segment → Stk (expected bool Error).

(** [MatchSegment]'s loop over the clause's values. *)
Fixpoint match_segments (clause : Clause) (values : list Value) : Stk (expected bool Error) :=
  match values with
  | [] => mret (Val (MaybeNegate clause false))
  | VString key :: values' =>
      match GetSegment store key with
      | Some (mkDescriptor _ (Some segment)) =>
          r <- contains segment ;;
          match r with
          | Unexpected e => mret (Unexpected e)
          | Val true => mret (Val (MaybeNegate clause true))
          | Val false => match_segments clause values'
          end
      | _ => match_segments clause values'
      end
  | _ :: values' => match_segments clause values'
  end.

Definition MatchSegment (clause : Clause) : Stk (expected bool Error) :=
  match_segments clause (clause_values clause).

(** [Match(Clause)] *)
Definition Match_clause (clause : Clause) : Stk (expected bool Error) :=
  if bool_decide (op clause = Op.kSegmentMatch) then MatchSegment clause
  else mret (MatchNonSegment clause context).

(** The loop over the clauses of a rule, of a flag or of a segment. *)
Fixpoint match_clauses (clauses : list Clause) : Stk (expected bool Error) :=
  match clauses with
  | [] => mret (Val true)
  | clause :: clauses' =>
      r <- Match_clause clause ;;
      match r with
      | Unexpected e => mret (Unexpected e)
      | Val false => mret (Val false)
      | Val true => match_clauses clauses'
      end
  end.

(** [Match(Flag::Rule)] *)
Definition Match_flag_rule (rule : FlagRule) : Stk (expected bool Error) :=
  match_clauses (fr_clauses rule).

(** What a matching segment rule's weight decides. *)
Definition segment_rule_weight (rule : SegmentRule) (key salt : string) : expected bool Error :=
  match sr_weight rule with
  | Some weight =>
      if 0 <=? weight then
        match Bucket context (sr_bucketBy rule) (KeyAndSalt key salt) false
                (sr_rolloutContextKind rule) with
        | Unexpected e => Unexpected e
        | Val (bucket, _) => Val (d_ltb bucket (d_div (d_of_Z weight) kBucketScale))
        end
      else Val true
  | None => Val true
  end.

(** [Match(Segment::Rule)] *)
Definition Match_segment_rule (rule : SegmentRule) (key salt : string) :
    Stk (expected bool Error) :=
  r <- match_clauses (sr_clauses rule) ;;
  match r with
  | Unexpected e => mret (Unexpected e)
  | Val false => mret (Val false)
  | Val true => mret (segment_rule_weight rule key salt)
  end.

(** [Contains]'s loop over the segment's rules. *)
Fixpoint match_segment_rules (segment : Segment) (rules : list SegmentRule) :
    Stk (expected bool Error) :=
  match rules with
  | [] => mret (Val false)
  | rule :: rules' =>
      match segment_salt segment with
      | None => mret (Unexpected (MissingSalt (segment_key segment)))
      | Some salt =>
          r <- Match_segment_rule rule (segment_key segment) salt ;;
          match r with
          | Unexpected e => mret (Unexpected e)
          | Val true => mret (Val true)
          | Val false => match_segment_rules segment rules'
          end
      end
  end.

(** [Contains] between the acquisition and the release of its guard. *)
Definition contains_body (segment : Segment) : Stk (expected bool Error) :=
  if segment_unbounded segment then
    match_ <- (λ st, Some (MatchBigSegment segment context st)) ;;
    match match_ with
    | Some b => mret (Val b)
    | None => match_segment_rules segment (segment_rules segment)
    end
  else if IsTargeted context (segment_included segment) (segment_includedContexts segment)
  then mret (Val true)
  else if IsTargeted context (segment_excluded segment) (segment_excludedContexts segment)
  then mret (Val false)
  else match_segment_rules segment (segment_rules segment).
End Recursive.

(** The scope of the guard of [NoticeSegment]: the body runs with the key
    noticed, and the guard's destructor forgets it. *)
Definition with_segment_guard (key : string) (body : Stk (expected bool Error)) :
    Stk (expected bool Error) :=
  λ st,
    match NoticeSegment key st with
    | None => Some (st, Unexpected (CyclicSegmentReference key))
    | Some st1 =>
        match body st1 with
        | Some (st2, r) => Some (ForgetSegment key st2, r)
        | None => None
        end
    end.

(** [Contains] *)
Fixpoint SegmentContains (fuel : nat) (segment : Segment) : Stk (expected bool Error) :=
  match fuel with
  | O => out_of_fuel
  | S fuel' =>
      with_segment_guard (segment_key segment) (contains_body (SegmentContains fuel') segment)
  end.
End Segments.

(** ** Lemmas: a recursion scheme for computations of this file

    Every computation is built from the big-segment lookup, the guard and
    [contains]; whatever relation on states they respect, the whole respects. *)

(** The part of the stack that is not the bookkeeping of guards. *)
Definition core {W} (st : EvaluationStack W) :
    option W * BigSegmentsStatus.t * gmap string Membership * gset string :=
  (big_segment_store_ st, stack_status_ st, memberships_ st, store_error_keys_ st).

(** Both states notice the same keys, and their cores are related. *)
Definition balanced {W} (Q : relation (option W * BigSegmentsStatus.t * gmap string Membership * gset string))
    (st st' : EvaluationStack W) : Prop :=
  prerequisites_seen_ st' = prerequisites_seen_ st ∧ segments_seen_ st' = segments_seen_ st ∧
  Q (core st) (core st').

#[global] Instance balanced_preorder {W} Q `{!PreOrder Q} : PreOrder (@balanced W Q).
Proof.
  split.
  - intros st. by repeat split.
  - intros s1 s2 s3 (A1 & B1 & C1) (A2 & B2 & C2). repeat split; try congruence. by etrans.
Qed.

(** The store holds segment [seg] under [key]. *)
Definition stored_segment {St} `{!IStore St} (store : St) (key : string) (seg : Segment) : Prop :=
  ∃ d, GetSegment store key = Some d ∧ item d = Some seg.

(** Clause [c] refers to the stored segment [seg]. *)
Definition clause_refers {St} `{!IStore St} (store : St) (c : Clause) (seg : Segment) : Prop :=
  op c = Op.kSegmentMatch ∧ ∃ key, VString key ∈ clause_values c ∧ stored_segment store key seg.

Definition segment_refers {St} `{!IStore St} (store : St) (s seg : Segment) : Prop :=
  ∃ rule c, rule ∈ segment_rules s ∧ c ∈ sr_clauses rule ∧ clause_refers store c seg.

Definition only_errors (E : Error → Prop) (r : expected bool Error) : Prop :=
  match r with Unexpected e => E e | Val _ => True end.

Section Scheme.
Context `{X : Externals} {W : Type} `{!BigSegmentStore W} {St : Type} `{!IStore St}.
Context (context : Context) (store : St).
Context (Q : relation (option W * BigSegmentsStatus.t * gmap string Membership * gset string))
  `{!PreOrder Q} (Pre : EvaluationStack W → Prop) (E : Error → Prop).
Context (contains : Segment → M (EvaluationStack W) (expected bool Error)).
Hypothesis stable : ∀ st st', Pre st → balanced Q st st' → Pre st'.
Hypothesis E_salt : ∀ k, E (MissingSalt k).
Hypothesis E_ref : ∀ k, E (InvalidAttributeReference k).
Abbreviation ok := (runs Pre (balanced Q) (only_errors E)).

Lemma ok_ret r : only_errors E r → ok (mret r).
Proof. intros Hr. apply runs_ret; [apply _|done]. Qed.

Lemma ok_bind {A} (P : A → Prop) m (k : A → M (EvaluationStack W) (expected bool Error)) :
  runs Pre (balanced Q) P m → (∀ a, P a → ok (k a)) → ok (bind m k).
Proof. intros Hm Hk. eapply runs_bind; [apply _|done|done|done]. Qed.

Ltac ret := solve [apply ok_ret; simpl; auto].

Lemma match_segments_ok clause values :
  (∀ key seg, VString key ∈ values → stored_segment store key seg → ok (contains seg)) →
  ok (match_segments store contains clause values).
Proof.
  induction values as [|v values IH]; intros Hc; simpl; [ret|].
  assert (ok (match_segments store contains clause values)) as Hrest.
  { apply IH. intros key seg Hk. apply Hc. by right. }
  destruct v as [| | |key| |]; try done.
  destruct (GetSegment store key) as [[v [seg|]]|] eqn:Hg; try done.
  eapply ok_bind; [by apply (Hc key); [left|eexists]|].
  intros [[]|e] He; [ret|done|ret].
Qed.

Lemma MatchNonSegment_ok clause : only_errors E (MatchNonSegment clause context).
Proof.
  unfold MatchNonSegment. destruct (negb _); [apply E_ref|].
  destruct (IsKind _); [done|]. destruct (IsNull _); [done|]. by destruct (IsArray _).
Qed.

Lemma match_clauses_ok clauses :
  (∀ c seg, c ∈ clauses → clause_refers store c seg → ok (contains seg)) →
  ok (match_clauses context store contains clauses).
Proof.
  induction clauses as [|c clauses IH]; intros Hc; simpl; [ret|].
  apply (ok_bind (only_errors E)).
  - unfold Match_clause. case_bool_decide as Hop.
    + apply match_segments_ok. intros key seg Hk Hs. apply (Hc c); [by left|]. split; eauto.
    + apply ok_ret, MatchNonSegment_ok.
  - intros [[]|e] He; [|ret|ret].
    apply IH. intros c' seg Hin. apply Hc. by right.
Qed.

Lemma segment_rule_weight_ok rule key salt :
  only_errors E (segment_rule_weight context rule key salt).
Proof.
  unfold segment_rule_weight. destruct (sr_weight rule) as [w|]; [|done].
  destruct (0 <=? w); [|done]. destruct (Bucket _ _ _ _ _) as [[b l]|e] eqn:HB; [done|].
  apply Bucket_error in HB as (_ & _ & ->). apply E_ref.
Qed.

Lemma match_segment_rules_ok segment rules :
  (∀ rule c seg, rule ∈ rules → c ∈ sr_clauses rule → clause_refers store c seg →
    ok (contains seg)) →
  ok (match_segment_rules context store contains segment rules).
Proof.
  induction rules as [|rule rules IH]; intros Hc; simpl; [ret|].
  destruct (segment_salt segment) as [salt|]; [|ret].
  apply (ok_bind (only_errors E)).
  - apply (ok_bind (only_errors E)).
    + apply match_clauses_ok. intros c seg Hin. apply (Hc rule); [by left|done].
    + intros [[]|e] He; first [ret|apply ok_ret, segment_rule_weight_ok].
  - intros [[]|e] He; [ret| |ret].
    apply IH. intros rule' c seg Hin. apply Hc. by right.
Qed.

Hypothesis big_ok : ∀ seg st, segments_seen_ (MatchBigSegment seg context st).1 = segments_seen_ st ∧
  prerequisites_seen_ (MatchBigSegment seg context st).1 = prerequisites_seen_ st ∧
  Q (core st) (core (MatchBigSegment seg context st).1).

Lemma contains_body_ok segment :
  (∀ seg, segment_refers store segment seg → ok (contains seg)) →
  ok (contains_body context store contains segment).
Proof.
  intros Hc. unfold contains_body.
  assert (ok (match_segment_rules context store contains segment (segment_rules segment))) as Hr.
  { apply match_segment_rules_ok. intros rule c seg Hin Hc' Hr. apply Hc. by exists rule, c. }
  destruct (segment_unbounded segment).
  - apply (ok_bind (λ _, True)).
    + intros st Hst. destruct (big_ok segment st) as (H1 & H2 & H3).
      destruct (MatchBigSegment segment context st) as [st' r].
      exists st', r. split_and!; [done|split_and!; done|done].
    + intros [b|] _; [ret|done].
  - destruct (IsTargeted _ _ _); [ret|].
    destruct (IsTargeted _ _ _); [ret|done].
Qed.
End Scheme.

(** ** Lemmas: the big-segment lookup *)

(** Nothing recorded during an evaluation is lost or downgraded. *)
Definition core_grows {W} (c c' : option W * BigSegmentsStatus.t * gmap string Membership * gset string) :
    Prop :=
  match c, c' with
  | (store, status, ms, errs), (store', status', ms', errs') =>
      Precedence status ≤ Precedence status' ∧ ms ⊆ ms' ∧ errs ⊆ errs' ∧
      (is_Some store ↔ is_Some store')
  end.

#[global] Instance core_grows_preorder {W} : PreOrder (@core_grows W).
Proof.
  split.
  - intros [[[s t] m] e]. simpl. split_and!; done || lia.
  - intros [[[s1 t1] m1] e1] [[[s2 t2] m2] e2] [[[s3 t3] m3] e3]; simpl.
    intros (A1 & B1 & C1 & D1) (A2 & B2 & C2 & D2). split_and!; [lia|by etrans|by etrans|tauto].
Qed.

(** A wrapper that also records the keys it is asked for. *)
#[global] Instance logged_store {W} `{BigSegmentStore W} : BigSegmentStore (W * list string) :=
  λ wl key, let '(w', r) := GetMembership wl.1 key in ((w', wl.2 ++ [key]), r).

(** No key was asked for twice, and every answer is remembered. *)
Definition log_ok {W} (c : option (W * list string) * BigSegmentsStatus.t *
    gmap string Membership * gset string) : Prop :=
  match c with
  | (Some (_, l), _, ms, errs) => NoDup l ∧ ∀ k, k ∈ l → is_Some (ms !! k) ∨ k ∈ errs
  | _ => True
  end.

#[global] Instance log_ok_preorder {W} : PreOrder (λ c c', @log_ok W c → log_ok c').
Proof. split; [by intros c|intros c1 c2 c3; tauto]. Qed.

Section BigSegments.
Context {W : Type} `{!BigSegmentStore W}.
Implicit Types (st : EvaluationStack W).

Lemma Record_seen status st :
  segments_seen_ (RecordBigSegmentsStatus status st) = segments_seen_ st ∧
  prerequisites_seen_ (RecordBigSegmentsStatus status st) = prerequisites_seen_ st ∧
  memberships_ (RecordBigSegmentsStatus status st) = memberships_ st ∧
  store_error_keys_ (RecordBigSegmentsStatus status st) = store_error_keys_ st ∧
  big_segment_store_ (RecordBigSegmentsStatus status st) = big_segment_store_ st.
Proof. unfold RecordBigSegmentsStatus. by destruct (_ <? _). Qed.

Lemma Record_grows status st : core_grows (core st) (core (RecordBigSegmentsStatus status st)).
Proof.
  pose proof (RecordBigSegmentsStatus_max status st) as Hm.
  destruct (Record_seen status st) as (_ & _ & H3 & H4 & H5). unfold core_grows, core.
  rewrite H3, H4, H5. split_and!; [lia|done..].
Qed.

Lemma StoreMembership_grows key m st : memberships_ st ⊆ memberships_ (StoreMembership key m st).
Proof.
  unfold StoreMembership. simpl. destruct (memberships_ st !! key) eqn:E; [done|].
  by apply insert_subseteq.
Qed.

Lemma MatchBigSegment_seen seg ctx st :
  segments_seen_ (MatchBigSegment seg ctx st).1 = segments_seen_ st ∧
  prerequisites_seen_ (MatchBigSegment seg ctx st).1 = prerequisites_seen_ st.
Proof.
  unfold MatchBigSegment.
  destruct (segment_generation seg) as [g|]; [|split; apply Record_seen].
  destruct (Context_Get _ _ _) as [| | |key| |]; try done.
  destruct (DidStoreError key st); [done|]. destruct (FindMembership key st); [done|].
  destruct (big_segment_store_ st) as [w|]; [|split; apply Record_seen].
  destruct (GetMembership w key) as [w' r].
  destruct (Record_seen (ToBigSegmentsStatus (result_status r)) (set_store w' st)) as (H1 & H2 & _).
  case_bool_decide; simpl; by rewrite H1, H2.
Qed.

Lemma MatchBigSegment_grows seg ctx st :
  core_grows (core st) (core (MatchBigSegment seg ctx st).1).
Proof.
  unfold MatchBigSegment.
  destruct (segment_generation seg) as [g|]; [|apply Record_grows].
  destruct (Context_Get _ _ _) as [| | |key| |]; try apply PreOrder_Reflexive.
  destruct (DidStoreError key st); [apply PreOrder_Reflexive|].
  destruct (FindMembership key st); [apply PreOrder_Reflexive|].
  destruct (big_segment_store_ st) as [w|] eqn:Hw; [|apply Record_grows].
  destruct (GetMembership w key) as [w' r].
  set (status := ToBigSegmentsStatus (result_status r)).
  etransitivity; [|etransitivity; [apply (Record_grows status (set_store w' st))|]].
  { unfold core_grows, core. simpl. rewrite Hw. split_and!; [lia|done..]. }
  case_bool_decide; unfold core, core_grows; cbn [fst StoreMembership RecordStoreError
    stack_status_ memberships_ store_error_keys_ big_segment_store_].
  - split_and!; [lia|done|set_solver|done].
  - split_and!; [lia| |done|done]. apply StoreMembership_grows.
Qed.

End BigSegments.

Section BigSegmentLog.
Context {W : Type} `{!BigSegmentStore W}.

Lemma MatchBigSegment_log seg ctx (st : EvaluationStack (W * list string)) :
  log_ok (core st) → log_ok (core (MatchBigSegment seg ctx st).1).
Proof.
  assert (∀ status (st : EvaluationStack (W * list string)),
    log_ok (core st) → log_ok (core (RecordBigSegmentsStatus status st))) as Hrec.
  { intros status s. unfold RecordBigSegmentsStatus. by destruct (_ <? _). }
  unfold MatchBigSegment. intros Hst.
  destruct (segment_generation seg) as [g|]; [|by apply Hrec].
  destruct (Context_Get _ _ _) as [| | |key| |]; try done.
  destruct (DidStoreError key st) eqn:Herr; [done|].
  apply bool_decide_eq_false in Herr.
  destruct (FindMembership key st) eqn:Hfind; [done|].
  destruct (big_segment_store_ st) as [[w l]|] eqn:Hw; [|by apply Hrec].
  unfold GetMembership, logged_store. simpl. destruct (GetMembership w key) as [w' r].
  set (status := ToBigSegmentsStatus (result_status r)).
  destruct (Record_seen status (set_store (w', l ++ [key]) st)) as (_ & _ & H3 & H4 & H5).
  unfold core, log_ok in Hst. rewrite Hw in Hst. destruct Hst as [Hnd Hl].
  assert (NoDup (l ++ [key])) as Hnd'.
  { apply NoDup_app. split_and!; [done| |apply NoDup_singleton]. intros k Hk Hk'. apply list_elem_of_singleton in Hk' as ->.
    destruct (Hl key Hk) as [[m Hm]|]; [|done]. unfold FindMembership in Hfind. congruence. }
  case_bool_decide; unfold core, log_ok; cbn [fst StoreMembership RecordStoreError
    memberships_ store_error_keys_ big_segment_store_];
    rewrite H3, H4, H5; simpl; (split; [done|]); intros k Hk; apply elem_of_app in Hk as [Hk|Hk];
    [|apply list_elem_of_singleton in Hk as ->| |apply list_elem_of_singleton in Hk as ->].
  - destruct (Hl k Hk); [by left|right; set_solver].
  - right. set_solver.
  - destruct (Hl k Hk) as [[m Hm]|]; [left|by right].
    destruct (memberships_ st !! key) eqn:E; [by eauto|]. rewrite lookup_insert_ne; [by eauto|].
    intros <-. congruence.
  - left. unfold FindMembership in Hfind. rewrite Hfind, lookup_insert_eq. eauto.
Qed.
End BigSegmentLog.

(** ** Lemmas: termination, and independence of the fuel *)

(** [m'] agrees with [m] wherever [m] returns. *)
Definition extends {St A} (m m' : M St A) : Prop := ∀ st r, m st = Some r → m' st = Some r.

Lemma extends_refl {St A} (m : M St A) : extends m m.
Proof. by intros st r. Qed.

Lemma extends_bind {St A B} (m m' : M St A) (k k' : A → M St B) :
  extends m m' → (∀ a, extends (k a) (k' a)) → extends (bind m k) (bind m' k').
Proof.
  intros Hm Hk st r. unfold bind. destruct (m st) as [[st1 a]|] eqn:E; [|done].
  rewrite (Hm _ _ E). apply Hk.
Qed.

#[export] Hint Resolve extends_refl extends_bind : ld.

Section Fuel.
Context `{X : Externals} {W : Type} `{!BigSegmentStore W} {St : Type} `{!IStore St}.
Context (context : Context) (store : St).
Context (contains contains' : Segment → M (EvaluationStack W) (expected bool Error)).
Hypothesis Hext : ∀ seg, extends (contains seg) (contains' seg).

Lemma match_segments_extends clause values :
  extends (match_segments store contains clause values) (match_segments store contains' clause values).
Proof.
  induction values as [|[| | |key| |] values IH]; simpl; auto with ld.
  destruct (GetSegment store key) as [[v [seg|]]|]; auto with ld.
  apply extends_bind; [done|]. intros [[]|e]; auto with ld.
Qed.

Lemma match_clauses_extends clauses :
  extends (match_clauses context store contains clauses)
          (match_clauses context store contains' clauses).
Proof.
  induction clauses as [|c clauses IH]; simpl; auto with ld.
  apply extends_bind; [|intros [[]|e]; auto with ld].
  unfold Match_clause. case_bool_decide; auto with ld. apply match_segments_extends.
Qed.

Lemma contains_body_extends segment :
  extends (contains_body context store contains segment)
          (contains_body context store contains' segment).
Proof.
  assert (∀ rules, extends (match_segment_rules context store contains segment rules)
                           (match_segment_rules context store contains' segment rules)) as Hr.
  { induction rules as [|rule rules IH]; simpl; auto with ld.
    destruct (segment_salt segment) as [salt|]; auto with ld.
    apply extends_bind; [|intros [[]|e]; auto with ld].
    apply extends_bind; [apply match_clauses_extends|]. auto with ld. }
  unfold contains_body. destruct (segment_unbounded segment).
  - apply extends_bind; auto with ld. intros [b|]; auto with ld.
  - repeat (destruct (IsTargeted _ _ _); auto with ld).
Qed.
End Fuel.

Section Termination.
Context `{X : Externals} {W : Type} `{!BigSegmentStore W} {St : Type} `{!IStore St}.
Context (context : Context) (store : St).

Lemma with_segment_guard_extends key (m m' : M (EvaluationStack W) (expected bool Error)) :
  extends m m' → extends (with_segment_guard key m) (with_segment_guard key m').
Proof.
  intros Hm st r. unfold with_segment_guard. destruct (NoticeSegment key st); [|done].
  destruct (m e) as [[st2 r2]|] eqn:E; [|done]. by rewrite (Hm _ _ E).
Qed.

Lemma SegmentContains_extends n n' seg :
  (n ≤ n')%nat → extends (SegmentContains (W:=W) context store n seg)
                         (SegmentContains context store n' seg).
Proof.
  revert n' seg. induction n as [|n IH]; intros n' seg Hn; [done|].
  destruct n' as [|n']; [lia|]. simpl. apply with_segment_guard_extends.
  apply contains_body_extends. intros seg'. apply IH. lia.
Qed.

(** The number of stored segments that an evaluation has not yet entered. *)
Definition unseen (K : gset string) (st : EvaluationStack W) : nat :=
  size (K ∖ segments_seen_ st).

Lemma unseen_notice K key (st st1 : EvaluationStack W) :
  key ∈ K → NoticeSegment key st = Some st1 → (unseen K st1 < unseen K st)%nat.
Proof.
  unfold NoticeSegment. case_bool_decide as Hk; [done|]. intros HK [= <-]. unfold unseen. simpl.
  apply subset_size. set_solver.
Qed.

Lemma guard_balanced Q key (st st1 st2 : EvaluationStack W) :
  NoticeSegment key st = Some st1 → balanced Q st1 st2 → balanced Q st (ForgetSegment key st2).
Proof.
  unfold NoticeSegment. case_bool_decide as Hk; [done|]. intros [= <-] (H1 & H2 & H3).
  split_and!; [done| |done]. simpl in *. rewrite H2. set_solver.
Qed.

Context (Q : relation (option W * BigSegmentsStatus.t * gmap string Membership * gset string))
  `{!PreOrder Q}.
Hypothesis Q_big : ∀ seg (st : EvaluationStack W),
  Q (core st) (core (MatchBigSegment seg context st).1).

Lemma SegmentContains_runs `{!IStoreLaws St} K n seg :
  stored_segment_keys store ⊆ K → segment_key seg ∈ K →
  runs (λ st, (unseen K st < n)%nat) (balanced Q) (λ _, True) (SegmentContains context store n seg).
Proof.
  intros HK. revert seg. induction n as [|n IH]; intros seg Hseg st Hst; [lia|].
  simpl. unfold with_segment_guard.
  destruct (NoticeSegment (segment_key seg) st) as [st1|] eqn:Hn.
  2:{ exists st. eexists. split_and!; [done|apply balanced_preorder; apply _|done]. }
  pose proof (unseen_notice K _ _ _ Hseg Hn).
  destruct (contains_body_ok context store Q (λ st, (unseen K st < n)%nat) (λ _, True)
    (SegmentContains context store n)) with (segment := seg) (st := st1)
    as (st2 & r & E & HR & _); try done.
  - intros s s' Hs (_ & Heq & _). unfold unseen in *. by rewrite Heq.
  - intros s s'. destruct (MatchBigSegment_seen s context s'). eauto.
  - intros seg' (rule & c & _ & _ & _ & key & _ & d & Hg & Hd).
    eapply runs_weaken; [apply IH|..]; try done; [|by intros [] _].
    apply HK. by eapply stored_segment_key.
  - lia.
  - rewrite E. eexists _, _. split_and!; [done| |done]. by eapply guard_balanced.
Qed.
End Termination.

(** ** A reference semantics for bounded segments

    Set membership without a stack, errors or short-circuits.  It is meant for
    stores whose segments do not refer to themselves, directly or not. *)

Section Reference.
Context `{X : Externals} {St : Type} `{!IStore St}.
Context (context : Context) (store : St).

Definition value_or_false (r : expected bool Error) : bool :=
  match r with Val b => b | Unexpected _ => false end.

Section Clause.
Variable mem : Segment → bool.

Definition names_member (v : Value) : bool :=
  match v with
  | VString key =>
      match GetSegment store key with
      | Some (mkDescriptor _ (Some segment)) => mem segment
      | _ => false
      end
  | _ => false
  end.

Definition clause_holds (c : Clause) : bool :=
  if bool_decide (op c = Op.kSegmentMatch)
  then MaybeNegate c (existsb names_member (clause_values c))
  else value_or_false (MatchNonSegment c context).

Definition rule_holds (segment : Segment) (rule : SegmentRule) : bool :=
  forallb clause_holds (sr_clauses rule) &&
  value_or_false (segment_rule_weight context rule (segment_key segment)
    (default EmptyString (segment_salt segment))).
End Clause.

Fixpoint member (n : nat) (segment : Segment) : bool :=
  match n with
  | O => false
  | S n' =>
      IsTargeted context (segment_included segment) (segment_includedContexts segment) ||
      (negb (IsTargeted context (segment_excluded segment) (segment_excludedContexts segment)) &&
       existsb (rule_holds (member n') segment) (segment_rules segment))
  end.
End Reference.

(** A bounded segment whose rules can be evaluated: it has a salt if it has
    rules, and its attribute references are valid. *)
Definition plain_segment (s : Segment) : bool :=
  negb (segment_unbounded s) &&
  (bool_decide (segment_rules s = []%list) || bool_decide (is_Some (segment_salt s))) &&
  forallb (λ rule,
    forallb (λ c, bool_decide (op c = Op.kSegmentMatch) || Valid (clause_attribute c)) (sr_clauses rule) &&
    (negb (bool_decide (is_Some (sr_weight rule))) || Valid (sr_bucketBy rule)))
    (segment_rules s).

Section ReferenceLemmas.
Context `{X : Externals} {W : Type} `{!BigSegmentStore W} {St : Type} `{!IStore St}.
Context (context : Context) (store : St) (st : EvaluationStack W).
Context (contains : Segment → M (EvaluationStack W) (expected bool Error)) (mem : Segment → bool).

Abbreviation decided seg := (contains seg st = Some (st, Val (mem seg))).

Lemma match_segments_ref clause values :
  (∀ key seg, VString key ∈ values → stored_segment store key seg → decided seg) →
  match_segments store contains clause values st =
  Some (st, Val (MaybeNegate clause (existsb (names_member store mem) values))).
Proof.
  induction values as [|v values IH]; intros Hc; [done|].
  assert (match_segments store contains clause values st =
    Some (st, Val (MaybeNegate clause (existsb (names_member store mem) values)))) as Hrest.
  { apply IH. intros key seg Hk. apply Hc. by right. }
  destruct v as [| | |key| |]; try exact Hrest. simpl.
  destruct (GetSegment store key) as [[v [seg|]]|] eqn:Hg; try exact Hrest.
  unfold bind. rewrite (Hc key seg); [|by left|by eexists]. by destruct (mem seg).
Qed.

Lemma MatchNonSegment_valid c :
  Valid (clause_attribute c) = true → ∃ b, MatchNonSegment c context = Val b.
Proof.
  intros Hv. unfold MatchNonSegment. rewrite Hv. simpl.
  destruct (IsKind _); [eauto|]. destruct (IsNull _); [eauto|]. destruct (IsArray _); eauto.
Qed.

Lemma match_clauses_ref clauses :
  (∀ c, c ∈ clauses → op c = Op.kSegmentMatch ∨ Valid (clause_attribute c) = true) →
  (∀ c seg, c ∈ clauses → clause_refers store c seg → decided seg) →
  match_clauses context store contains clauses st =
  Some (st, Val (forallb (clause_holds context store mem) clauses)).
Proof.
  induction clauses as [|c clauses IH]; intros Hv Hc; [done|].
  assert (Match_clause context store contains c st =
    Some (st, Val (clause_holds context store mem c))) as Hhd.
  { unfold Match_clause, clause_holds. case_bool_decide as Hop.
    - apply match_segments_ref. intros key seg Hk Hs. apply (Hc c); [by left|]. split; eauto.
    - destruct (Hv c) as [|Hval]; [by left|done|].
      destruct (MatchNonSegment_valid c Hval) as [b Hb]. unfold mret. by rewrite Hb. }
  simpl. unfold bind. rewrite Hhd. destruct (clause_holds context store mem c); [|done].
  apply IH; [intros c' Hin; apply Hv; by right|intros c' seg Hin; apply Hc; by right].
Qed.

Lemma segment_rule_weight_valid rule key salt :
  is_Some (sr_weight rule) → Valid (sr_bucketBy rule) = true →
  ∃ b, segment_rule_weight context rule key salt = Val b.
Proof.
  intros [w Hw] Hv. unfold segment_rule_weight. rewrite Hw. destruct (0 <=? w); [|eauto].
  destruct (Bucket_valid context (sr_bucketBy rule) (KeyAndSalt key salt) false
    (sr_rolloutContextKind rule) Hv) as (b & l & HB). rewrite HB. eauto.
Qed.

Lemma match_segment_rules_ref segment salt rules :
  segment_salt segment = Some salt →
  (∀ rule c, rule ∈ rules → c ∈ sr_clauses rule →
     op c = Op.kSegmentMatch ∨ Valid (clause_attribute c) = true) →
  (∀ rule, rule ∈ rules → is_Some (sr_weight rule) → Valid (sr_bucketBy rule) = true) →
  (∀ rule c seg, rule ∈ rules → c ∈ sr_clauses rule → clause_refers store c seg → decided seg) →
  match_segment_rules context store contains segment rules st =
  Some (st, Val (existsb (rule_holds context store mem segment) rules)).
Proof.
  intros Hsalt. induction rules as [|rule rules IH]; intros Hv Hw Hc; [done|].
  assert (Match_segment_rule context store contains rule (segment_key segment) salt st =
    Some (st, Val (rule_holds context store mem segment rule))) as Hhd.
  { unfold Match_segment_rule, rule_holds, bind. rewrite match_clauses_ref.
    2:{ intros c. apply Hv. by left. }
    2:{ intros c seg. apply (Hc rule). by left. }
    rewrite Hsalt. simpl. destruct (forallb _ _); [|done].
    destruct (sr_weight rule) eqn:Hwt.
    - destruct (segment_rule_weight_valid rule (segment_key segment) salt) as [b Hb];
        [rewrite Hwt; eauto|apply Hw; [by left|rewrite Hwt; eauto]|].
      rewrite Hb. done.
    - unfold segment_rule_weight. by rewrite Hwt. }
  simpl. unfold bind. rewrite Hsalt, Hhd. destruct (rule_holds context store mem segment rule); [done|].
  apply IH; [intros r c Hin; apply Hv|intros r Hin; apply Hw|intros r c seg Hin; apply Hc]; by right.
Qed.

Lemma contains_body_ref segment :
  plain_segment segment = true →
  (∀ seg, segment_refers store segment seg → decided seg) →
  contains_body context store contains segment st =
  Some (st, Val
    (IsTargeted context (segment_included segment) (segment_includedContexts segment) ||
     (negb (IsTargeted context (segment_excluded segment) (segment_excludedContexts segment)) &&
      existsb (rule_holds context store mem segment) (segment_rules segment)))).
Proof.
  unfold plain_segment. rewrite !andb_true_iff, negb_true_iff. intros [[Hb Hs] Hr] Hc.
  apply Is_true_true, forallb_True in Hr. rewrite Forall_forall in Hr. unfold contains_body. rewrite Hb.
  destruct (IsTargeted _ (segment_included _) _); [done|].
  destruct (IsTargeted _ (segment_excluded _) _); [done|]. simpl.
  destruct (segment_rules segment) as [|rule rules] eqn:Hrules; [done|].
  destruct (segment_salt segment) as [salt|] eqn:Hsalt; [|done]. rewrite <- Hrules in *.
  apply (match_segment_rules_ref _ salt); [done|..].
  - intros r c Hin Hin'. specialize (Hr r Hin). rewrite andb_True, forallb_True, Forall_forall in Hr.
    destruct Hr as [Hr _]. specialize (Hr c Hin'). apply orb_True in Hr as [H|H].
    + left. by apply bool_decide_unpack in H.
    + right. by apply Is_true_true.
  - intros r Hin Hw. specialize (Hr r Hin). rewrite andb_True, orb_True in Hr.
    destruct Hr as [_ [H|H]]; [|by apply Is_true_true].
    rewrite bool_decide_eq_true_2 in H by done. done.
  - intros r c seg Hin Hin' Href. apply Hc. by exists r, c.
Qed.
End ReferenceLemmas.

Lemma notice_fresh {W} key (st : EvaluationStack W) :
  key ∉ segments_seen_ st →
  ∃ st1, NoticeSegment key st = Some st1 ∧ segments_seen_ st1 = {[key]} ∪ segments_seen_ st ∧
    ForgetSegment key st1 = st.
Proof.
  intros Hk. unfold NoticeSegment. rewrite bool_decide_eq_false_2 by done.
  eexists. split_and!; [done|done|]. unfold ForgetSegment. simpl. destruct st; simpl in *.
  f_equal. set_solver.
Qed.

(** A store with fixed answers. *)
#[global] Instance fixed_big_segments : BigSegmentStore (gmap string GetMembershipResult) :=
  λ w key, (w, default (mkMembershipResult ∅ StoreStatus.kHealthy) (w !! key)).

(** The same clause with the opposite [negate]. *)
Definition flip_negate (c : Clause) : Clause :=
  mkClause (op c) (clause_values c) (negb (negate c)) (clause_contextKind c) (clause_attribute c).

(** An executable certificate that a memory store's segments are well formed and
    decrease a rank along references. *)
Definition refs_below (rank : string → nat) (store : MemoryStore) (s : Segment) : bool :=
  forallb (λ rule, forallb (λ c, forallb (λ v,
    match v with
    | VString key =>
        match segments_ store !! key with
        | Some (mkDescriptor _ (Some s')) => (rank (segment_key s') <? rank (segment_key s))%nat
        | _ => true
        end
    | _ => true
    end) (clause_values c)) (sr_clauses rule)) (segment_rules s).

Definition certified_store (rank : string → nat) (store : MemoryStore) : Prop :=
  map_Forall (λ _ d, match item d with
    | Some s => plain_segment s && refs_below rank store s
    | None => true
    end = true) (segments_ store).

Lemma certified_store_sound rank store :
  certified_store rank store →
  (∀ key s, stored_segment store key s → plain_segment s = true) ∧
  (∀ key s s', stored_segment store key s → segment_refers store s s' →
     (rank (segment_key s') < rank (segment_key s))%nat).
Proof.
  intros Hc.
  assert (∀ key s, stored_segment store key s →
    plain_segment s = true ∧ refs_below rank store s = true) as H.
  { intros key s (d & Hd & Hi). specialize (Hc key d Hd). simpl in Hc. rewrite Hi in Hc.
    by apply andb_true_iff in Hc. }
  split; [intros key s Hs; by apply (H key)|].
  intros key s s' Hs (rule & c & Hr & Hcl & _ & k & Hk & d & Hg & Hi).
  destruct (H _ _ Hs) as [_ Hb]. unfold refs_below in Hb.
  rewrite <- Is_true_true, forallb_True, Forall_forall in Hb. specialize (Hb rule Hr).
  rewrite forallb_True, Forall_forall in Hb. specialize (Hb c Hcl).
  rewrite forallb_True, Forall_forall in Hb. specialize (Hb _ Hk). simpl in Hb, Hg.
  unfold Memory.GetSegment in Hg. rewrite Hg in Hb. destruct d as [v [s''|]]; simplify_eq/=.
  apply Is_true_true, Nat.ltb_lt in Hb. done.
Qed.

(** ** Example data *)

Definition example_clause (negated : bool) (segments : list string) : Clause :=
  mkClause Op.kSegmentMatch (VString <$> segments) negated "user" Key.

Definition example_segment (key : string) (included : list string) (refs : list string) : Segment :=
  mkSegment key 1 included [] [] []
    [mkSegmentRule [example_clause false refs] None None "user" Key] (Some "salt") false None None.

Definition example_context (key : string) : Context :=
  make_context [("user", make_attributes key None false (VObject []) [])].

(** Three segments, the first referring to the others. *)
Definition example_store : MemoryStore :=
  mkMemoryStore ∅
    (list_to_map [("a", segment_descriptor (example_segment "a" [] ["b"; "c"]));
                  ("b", segment_descriptor (example_segment "b" ["x"] []));
                  ("c", segment_descriptor (example_segment "c" ["y"] []))]) true.

(** ** Properties *)

(** Asking whether a segment contains a context always terminates, however
    the segments of the store refer to each other: with fuel above the number
    of stored segments not yet entered, the result is defined and does not
    depend on the fuel; the guards are all released, and nothing recorded about
    Big Segments is lost or downgraded. *)
Theorem segment_contains_total `{X : Externals} {W} `{!BigSegmentStore W} {St} `{!IStore St}
  `{!IStoreLaws St} (context : Context) (store : St) (seg : Segment) (st : EvaluationStack W) :
  ∃ st' r,
    (∀ fuel, (unseen ({[segment_key seg]} ∪ stored_segment_keys store) st < fuel)%nat →
       SegmentContains context store fuel seg st = Some (st', r)) ∧
    balanced core_grows st st'.
Proof.
  set (K := {[segment_key seg]} ∪ stored_segment_keys store).
  destruct (SegmentContains_runs context store core_grows
    (λ seg st, MatchBigSegment_grows seg context st) K (S (unseen K st)) seg) with (st := st)
    as (st' & r & E & HR & _); [set_solver|set_solver|lia|].
  exists st', r. split; [|done]. intros fuel Hfuel.
  by eapply SegmentContains_extends; [|exact E].
Qed.

Lemma segment_contains_total_witness :
  ∃ st' r,
    (∀ fuel, (1 < fuel)%nat →
       SegmentContains (example_context "y") empty_memory_store fuel (example_segment "s" [] ["s"])
         (new_stack (Some (∅ : gmap string GetMembershipResult))) = Some (st', r)) ∧
    balanced core_grows (new_stack (Some ∅)) st'.
Proof.
  exact (segment_contains_total (example_context "y") empty_memory_store
    (example_segment "s" [] ["s"]) (new_stack (Some (∅ : gmap string GetMembershipResult)))).
Defined.

(** C6: on a store of well-formed bounded segments that do not refer to each
    other in a cycle, the code decides exactly set membership: included, or
    neither included nor excluded and matched by some rule all of whose clauses
    hold; it raises no error and leaves the stack as it was. *)
Theorem segment_contains_reference `{X : Externals} {W} `{!BigSegmentStore W} {St} `{!IStore St}
  (context : Context) (store : St) (rank : string → nat)
  (Hplain : ∀ key s, stored_segment store key s → plain_segment s = true)
  (Hrank : ∀ key s s', stored_segment store key s → segment_refers store s s' →
     (rank (segment_key s') < rank (segment_key s))%nat)
  (n : nat) (key : string) (seg : Segment) (st : EvaluationStack W)
  (Hseg : stored_segment store key seg)
  (Hn : (rank (segment_key seg) < n)%nat)
  (Hst : ∀ k, k ∈ segments_seen_ st → (rank (segment_key seg) < rank k)%nat) :
  SegmentContains context store n seg st = Some (st, Val (member context store n seg)).
Proof.
  revert key seg st Hseg Hn Hst. induction n as [|n IH]; intros key seg st Hseg Hn Hst; [lia|].
  cbn [SegmentContains member]. unfold with_segment_guard.
  destruct (notice_fresh (segment_key seg) st) as (st1 & -> & Hseen & Hforget).
  { intros Hin%Hst. lia. }
  rewrite (contains_body_ref context store st1 _ (member context store n));
    [by rewrite Hforget|by eapply Hplain|].
  intros s' Hs'. pose proof (Hrank _ _ _ Hseg Hs') as Hlt.
  pose proof Hs' as (_ & _ & _ & _ & _ & key' & _ & Hstored).
  apply (IH key'); [done|lia|]. intros k. rewrite Hseen, elem_of_union, elem_of_singleton.
  intros [->|Hk%Hst]; lia.
Qed.

Lemma segment_contains_reference_witness :
  SegmentContains (example_context "y") example_store 2 (example_segment "a" [] ["b"; "c"])
    (new_stack (W := gmap string GetMembershipResult) None) = Some (new_stack None, Val true).
Proof.
  destruct (certified_store_sound (λ k, if str_eqb k "a" then 1 else 0)%nat example_store) as [Hp Hr].
  { unfold certified_store. by_decide. }
  refine (segment_contains_reference (example_context "y") example_store
    (λ k, if str_eqb k "a" then 1 else 0)%nat Hp Hr 2 "a"
    (example_segment "a" [] ["b"; "c"]) (new_stack None) _ _ _).
  - exists (segment_descriptor (example_segment "a" [] ["b"; "c"])). split; reflexivity.
  - vm_compute. lia.
  - intros k Hk. exfalso. revert Hk. apply not_elem_of_empty.
Defined.

(** Negating a clause flips its outcome, with one exception: a clause on an
    attribute the context does not have never matches, negated or not.  A
    clause on segments always flips. *)
Theorem clause_negation `{X : Externals} {W} `{!BigSegmentStore W} {St} `{!IStore St}
  (c : Clause) (context : Context) (store : St)
  (contains : Segment → M (EvaluationStack W) (expected bool Error)) (st : EvaluationStack W) :
  (MatchNonSegment (flip_negate c) context =
     match MatchNonSegment c context with
     | Val b => Val (if negb (IsKind (clause_attribute c)) &&
                        IsNull (Context_Get context (clause_contextKind c) (clause_attribute c))
                     then false else negb b)
     | Unexpected e => Unexpected e
     end) ∧
  (IsKind (clause_attribute c) = false →
   IsNull (Context_Get context (clause_contextKind c) (clause_attribute c)) = true →
   MatchNonSegment c context ≠ Val true) ∧
  MatchSegment store contains (flip_negate c) st =
    match MatchSegment store contains c st with
    | Some (st', Val b) => Some (st', Val (negb b))
    | r => r
    end.
Proof.
  assert (∀ b, MaybeNegate (flip_negate c) b = negb (MaybeNegate c b)) as Hflip.
  { intros b. unfold MaybeNegate. simpl. by destruct (negate c), b. }
  split_and!.
  - unfold MatchNonSegment. simpl. destruct (negb (Valid _)); [done|].
    destruct (IsKind _); [by rewrite Hflip|]. destruct (IsNull _); [done|].
    destruct (IsArray _); by rewrite Hflip.
  - intros Hk Hnull. unfold MatchNonSegment. rewrite Hk, Hnull. by destruct (negb _).
  - unfold MatchSegment. simpl. generalize (clause_values c). intros values. revert st.
    induction values as [|v values IH]; intros st; simpl.
    + by rewrite Hflip.
    + destruct v as [| | |key| |]; try apply IH.
      destruct (GetSegment store key) as [[v [seg|]]|]; try apply IH.
      unfold bind. by destruct (contains seg st) as [[st' [[]|e]]|].
Qed.
