(* ===== verification/EventData.v ===== *)
(** * Input events and their factory

    libs/internal: events/data/common_events.hpp and events.hpp (the events the
    SDK hands to its event processor); libs/server-sdk/src/events:
    event_factory.hpp/.cpp and event_scope.hpp.  A [Date] is a number of
    nanoseconds since the epoch. *)

From S2P Require Import Prelude Doubles Values Contexts Reasons DataModel Externals.
From S2P Require Import Operators.
#[local] Open Scope Z_scope.

Abbreviation Date := Z.

Record TrackEventParams := mkTrackParams {
  te_creation_date : Date;
  te_key : string;
  te_context : Context;
  te_data : option Value;
  te_metric_value : option double;
}.

Record IdentifyEventParams := mkIdentifyParams {
  ie_creation_date : Date;
  ie_context : Context;
}.

Record FeatureEventParams := mkFeatureParams {
  fe_creation_date : Date;
  fe_key : string;
  fe_context : Context;
  fe_value : Value;
  fe_default : Value;
  fe_version : option Z;
  fe_variation : option Z;
  fe_reason : option EvaluationReason;
  fe_require_full_event : bool;
  fe_debug_events_until_date : option Date;
  fe_prereq_of : option string;
}.

Inductive InputEvent :=
| Feature (e : FeatureEventParams)
| Identify (e : IdentifyEventParams)
| Track (e : TrackEventParams).

(** ** [EventFactory] *)

Module ReasonPolicy.
Inductive t := Default | Require.
#[global] Instance eq_dec : EqDecision t.
Proof. solve_decision. Defined.
End ReasonPolicy.

Section Factory.
Context `{X : Externals}.
(** The factory's policy, and what its clock reads. *)
Variable (reason_policy_ : ReasonPolicy.t) (now_ : Date).

(** [events::Date\{time_point\{milliseconds(ms)\}\}] *)
Definition date_of_ms (ms : Z) : Date := checked_ns (s64 ms * 1000000).

Definition FeatureRequest (key : string) (context : Context) (flag : option Flag)
    (detail : EvaluationDetail Value) (default_val : Value) (prereq_of : option string) :
    InputEvent :=
  let flag_track_events := match flag with Some f => flag_trackEvents f | None => false end in
  let require_experiment_data :=
    match flag with Some f => IsExperimentationEnabled f (reason_ detail) | None => false end in
  let debug_events_until_date :=
    match flag with
    | Some f => match flag_debugEventsUntilDate f with Some d => Some (date_of_ms d) | None => None end
    | None => None
    end in
  let reason :=
    if bool_decide (reason_policy_ = ReasonPolicy.Require) || require_experiment_data
    then reason_ detail else None in
  Feature (mkFeatureParams now_ key context (value_ detail) default_val
    (match flag with Some f => Some (flag_version f) | None => None end)
    (variation_index_ detail) reason (flag_track_events || require_experiment_data)
    debug_events_until_date prereq_of).

Definition UnknownFlag (key : string) (ctx : Context) (detail : EvaluationDetail Value)
    (default_val : Value) : InputEvent :=
  FeatureRequest key ctx None detail default_val None.

Definition Eval (key : string) (ctx : Context) (flag : option Flag)
    (detail : EvaluationDetail Value) (default_value : Value) (prereq_of : option string) :
    InputEvent :=
  FeatureRequest key ctx flag detail default_value prereq_of.

Definition IdentifyEvent (ctx : Context) : InputEvent := Identify (mkIdentifyParams now_ ctx).

Definition Custom (ctx : Context) (event_name : string) (data : option Value)
    (metric_value : option double) : InputEvent :=
  Track (mkTrackParams now_ event_name ctx data metric_value).
End Factory.

(** [EventScope]: the policy of its factory and the readings of the factory's
    clock, when there is a processor to forward events to. *)
Record EventScope := mkScope {
  scope_processor : bool;
  scope_policy : ReasonPolicy.t;
  scope_clock : nat → Date;
}.

(** The default scope forwards nothing. *)
Definition no_scope : EventScope := mkScope false ReasonPolicy.Default (λ _, 0).

(** [EventScope::Send]: the events handed to the processor so far, and one more. *)
Definition Send (scope : EventScope) (callable : ReasonPolicy.t → Date → InputEvent)
    (sent : list InputEvent) : list InputEvent :=
  if scope_processor scope
  then sent ++ [callable (scope_policy scope) (scope_clock scope (length sent))] else sent.
