(* ===== verification/Evaluator.v ===== *)
(** * The evaluator

    libs/server-sdk/src/evaluation/evaluator.hpp and evaluator.cpp.

    The state of an evaluation is the stack, the errors logged and the
    prerequisite events sent.  [Evaluate]'s recursion over prerequisites is
    bounded by fuel; [Evaluate] computes a sufficient amount from the store.
    The store is the one seen during the evaluation: each of its [shared_ptr]s
    is read once per use. *)

From S2P Require Import Prelude Values Contexts Reasons DataModel Externals ReferenceExternals.
From S2P Require Import Bucketing EvalStack Stores Rules EventData.
#[local] Open Scope Z_scope.
#[local] Open Scope eval_scope.

(** ** Targets *)

Definition TargetMatchVariation (context : Context) (target : Target) : option Z :=
  let key := Context_Get context (target_contextKind target) Key in
  if IsNull key then None
  else if existsb (λ value, Value_eqb (VString value) key) (target_values target)
  then Some (u64 (target_variation target)) else None.

(** The first of a list of targets that matches and satisfies [p]. *)
Fixpoint first_target (context : Context) (p : Target → bool) (targets : list Target) : option Z :=
  match targets with
  | [] => None
  | target :: rest =>
      if p target then
        match TargetMatchVariation context target with
        | Some index => Some index
        | None => first_target context p rest
        end
      else first_target context p rest
  end.

(** The loop over [contextTargets]. *)
Fixpoint context_target_match (context : Context) (targets context_targets : list Target) : option Z :=
  match context_targets with
  | [] => None
  | context_target :: rest =>
      let found :=
        if IsUser (target_contextKind context_target) &&
           (match target_values context_target with [] => true | _ => false end)
        then first_target context
               (λ target, target_variation target =? target_variation context_target) targets
        else TargetMatchVariation context context_target in
      match found with
      | Some index => Some index
      | None => context_target_match context targets rest
      end
  end.

Definition AnyTargetMatchVariation (context : Context) (flag : Flag) : option Z :=
  match flag_contextTargets flag with
  | [] => first_target context (λ _, true) (flag_targets flag)
  | context_targets => context_target_match context (flag_targets flag) context_targets
  end.

(** [WithBigSegmentsStatus] *)
Definition WithBigSegmentsStatus (detail : EvaluationDetail Value) (status : BigSegmentsStatus.t) :
    EvaluationDetail Value :=
  match reason_ detail with
  | None => detail
  | Some reason =>
      mkDetail (value_ detail) (variation_index_ detail)
        (Some (make_reason (kind_ reason) (error_kind_ reason) (rule_index_ reason)
          (rule_id_ reason) (prerequisite_key_ reason) (in_experiment_ reason) status))
  end.

(** ** The evaluation *)

Record EState (W : Type) := mkEState {
  es_stack : EvaluationStack W;
  es_log : list (string * Error);
  es_events : list InputEvent;
}.
Arguments mkEState {W} _ _ _.
Arguments es_stack {W} _.
Arguments es_log {W} _.
Arguments es_events {W} _.

Definition set_stack {W} (stk : EvaluationStack W) (st : EState W) : EState W :=
  mkEState stk (es_log st) (es_events st).

(** A computation on the stack alone. *)
Definition on_stack {W A} (m : M (EvaluationStack W) A) : M (EState W) A :=
  λ st, match m (es_stack st) with
        | Some (stk, a) => Some (set_stack stk st, a)
        | None => None
        end.

Definition malformed : EvaluationDetail Value := reason_detail VNull MalformedFlag.

Section Evaluator.
Context `{X : Externals} {W : Type} `{!BigSegmentStore W} {St : Type} `{!IStore St}.
Abbreviation Ev := (M (EState W)).
Abbreviation Detail := (EvaluationDetail Value).
Variable (source_ : St) (context : Context) (event_scope : EventScope).

Definition LogError (key : string) (error : Error) : Ev unit :=
  modify (λ st, mkEState (es_stack st) (es_log st ++ [(key, error)]) (es_events st)).

(** Log an error and return the malformed-flag detail. *)
Definition fail (key : string) (error : Error) : Ev Detail :=
  LogError key error ;;; mret malformed.

(** [FlagVariation]; the index is an [int64_t], the detail's a [size_t]. *)
Definition FlagVariation (flag : Flag) (variation_index : Z) (reason : EvaluationReason) :
    Ev Detail :=
  if (variation_index <? 0) ||
     (Z.of_nat (length (flag_variations flag)) <=? u64 variation_index)
  then fail (flag_key flag) (NonexistentVariationIndex variation_index)
  else mret (mkDetail (default VNull (flag_variations flag !! Z.to_nat (u64 variation_index)))
               (Some (u64 variation_index)) (Some reason)).

Definition OffValue (flag : Flag) (reason : EvaluationReason) : Ev Detail :=
  match flag_offVariation flag with
  | Some off => FlagVariation flag off reason
  | None => mret (reason_detail VNull reason)
  end.

Definition send_prerequisite_event (p : Prerequisite) (prereq : Flag) (detail : Detail)
    (flag : Flag) : Ev unit :=
  modify (λ st, mkEState (es_stack st) (es_log st)
    (Send event_scope (λ policy now,
       Eval policy now (prereq_key p) context (Some prereq) detail VNull (Some (flag_key flag)))
       (es_events st))).

Section Recursive.
(** The recursive call, on a prerequisite. *)
Variable evaluate : Flag → Ev Detail.

(** The loop over the prerequisites; [Some] is an early return. *)
Fixpoint check_prerequisites (flag : Flag) (ps : list Prerequisite) : Ev (option Detail) :=
  match ps with
  | [] => mret None
  | p :: ps' =>
      match GetFlag source_ (prereq_key p) with
      | Some (mkDescriptor _ (Some prereq)) =>
          d <- evaluate prereq ;;
          if IsError d then mret (Some d)
          else
            send_prerequisite_event p prereq d flag ;;;
            if negb (flag_on prereq) ||
               negb (bool_decide (variation_index_ d = Some (u64 (prereq_variation p))))
            then d' <- OffValue flag (PrerequisiteFailed (prereq_key p)) ;; mret (Some d')
            else check_prerequisites flag ps'
      | _ => d' <- OffValue flag (PrerequisiteFailed (prereq_key p)) ;; mret (Some d')
      end
  end.

(** What runs in the scope of the prerequisite guard. *)
Definition guarded (flag : Flag) : Ev (option Detail) :=
  if negb (flag_on flag) then d <- OffValue flag Off ;; mret (Some d)
  else check_prerequisites flag (flag_prerequisites flag).

Variable contains : Segment → M (EvaluationStack W) (expected bool Error).

(** The loop over the rules, from index [i]; then the fallthrough. *)
Fixpoint evaluate_rules (flag : Flag) (i : nat) (rules : list FlagRule) : Ev Detail :=
  match rules with
  | [] =>
      match Variation (flag_fallthrough flag) (flag_key flag) context (flag_salt flag) with
      | Unexpected e => fail (flag_key flag) e
      | Val result =>
          FlagVariation flag (s64 (VariationIndex result)) (Fallthrough (InExperiment result))
      end
  | rule :: rules' =>
      rule_match <- on_stack (Match_flag_rule context source_ contains rule) ;;
      match rule_match with
      | Unexpected e => fail (flag_key flag) e
      | Val false => evaluate_rules flag (S i) rules'
      | Val true =>
          match Variation (fr_variationOrRollout rule) (flag_key flag) context
                  (flag_salt flag) with
          | Unexpected e => fail (flag_key flag) e
          | Val result =>
              FlagVariation flag (s64 (VariationIndex result))
                (RuleMatch i (fr_id rule) (InExperiment result))
          end
      end
  end.

(** What runs after the guard is released. *)
Definition evaluate_matches (flag : Flag) : Ev Detail :=
  match AnyTargetMatchVariation context flag with
  | Some variation_index => FlagVariation flag (s64 variation_index) TargetMatch
  | None => evaluate_rules flag 0 (flag_rules flag)
  end.

(** One activation of the recursive [Evaluate]. *)
Definition evaluate_step (parent_key : option string) (flag : Flag) : Ev Detail :=
  λ st,
    match NoticePrerequisite (flag_key flag) (es_stack st) with
    | None =>
        fail (default "(no parent)" parent_key) (CyclicPrerequisiteReference (flag_key flag)) st
    | Some stk =>
        match guarded flag (set_stack stk st) with
        | None => None
        | Some (st1, returned) =>
            let st2 := set_stack (ForgetPrerequisite (flag_key flag) (es_stack st1)) st1 in
            match returned with
            | Some d => Some (st2, d)
            | None => evaluate_matches flag st2
            end
        end
    end.
End Recursive.

Fixpoint evaluate_flag (seg_fuel fuel : nat) (parent_key : option string) (flag : Flag) : Ev Detail :=
  match fuel with
  | O => out_of_fuel
  | S fuel' =>
      evaluate_step (λ prereq, evaluate_flag seg_fuel fuel' (Some (flag_key flag)) prereq)
        (SegmentContains context source_ seg_fuel) parent_key flag
  end.

(** More than the number of distinct keys of segments, and of flags. *)
Definition segment_fuel : nat := S (size (stored_segment_keys source_)).
Definition flag_fuel (flag : Flag) : nat :=
  S (size ({[flag_key flag]} ∪ stored_flag_keys source_)).

(** [Evaluator::Evaluate(flag, context, event_scope)] *)
Definition Evaluate (big_segment_store : option W) (flag : Flag) : option (EState W * Detail) :=
  match evaluate_flag segment_fuel (flag_fuel flag) None flag
          (mkEState (new_stack big_segment_store) [] []) with
  | None => None
  | Some (st, detail) =>
      let status := stack_status_ (es_stack st) in
      Some (st, if bool_decide (status = BigSegmentsStatus.kNone) then detail
                else WithBigSegmentsStatus detail status)
  end.
End Evaluator.

(** ** Lemmas: what every evaluation guarantees *)

(** The shape of a result: malformed; a variation of the flag at the reported
    index; or no value, when there is no off variation. *)
Definition detail_ok (flag : Flag) (d : EvaluationDetail Value) : Prop :=
  d = malformed ∨
  (∃ i reason v, d = mkDetail v (Some (Z.of_nat i)) (Some reason) ∧
     flag_variations flag !! i = Some v ∧ error_kind_ reason = None) ∨
  (flag_offVariation flag = None ∧ ∃ reason, d = reason_detail VNull reason ∧
     (reason = Off ∧ flag_on flag = false ∨ ∃ key, reason = PrerequisiteFailed key)).

(** What holds between the states around an evaluation of [flag] that returns
    [d]: guards released, cores related by [Q], one error logged exactly when
    the result is an error, events only added. *)
Definition eval_post {W} (Q : relation (option W * BigSegmentsStatus.t * gmap string Membership * gset string))
    (flag : Flag) (st st' : EState W) (d : EvaluationDetail Value) : Prop :=
  balanced Q (es_stack st) (es_stack st') ∧ detail_ok flag d ∧
  (∃ l, es_log st' = es_log st ++ l ∧ length l = if IsError d then 1%nat else 0%nat) ∧
  (∃ evs, es_events st' = es_events st ++ evs).

Section Guarantees.
Context `{X : Externals} {W : Type} `{!BigSegmentStore W} {St : Type} `{!IStore St} `{!IStoreLaws St}.
Context (source_ : St) (context : Context) (event_scope : EventScope).
Context (Q : relation (option W * BigSegmentsStatus.t * gmap string Membership * gset string))
  `{!PreOrder Q}.
Hypothesis Q_big : ∀ seg (st : EvaluationStack W),
  Q (core st) (core (MatchBigSegment seg context st).1).
Implicit Types (st : EState W) (d : EvaluationDetail Value).

Abbreviation evals Pre m P :=
  (∀ st : EState W, Pre st → ∃ st' d, m st = Some (st', d) ∧ P st st' d).

Lemma balanced_refl (stk : EvaluationStack W) : balanced Q stk stk.
Proof. reflexivity. Qed.

Lemma fail_post flag key e st :
  ∃ st', fail key e st = Some (st', malformed) ∧ es_stack st' = es_stack st ∧
    eval_post Q flag st st' malformed.
Proof.
  eexists. split_and!; [reflexivity|done|]. split_and!; [apply balanced_refl|by left| |].
  - by exists [(key, e)].
  - exists []. by rewrite app_nil_r.
Qed.

Lemma ret_post flag st d : detail_ok flag d → IsError d = false → eval_post Q flag st st d.
Proof.
  intros Hd He. split_and!; [apply balanced_refl|done| |];
    exists []; rewrite app_nil_r, ?He; done.
Qed.

Lemma FlagVariation_post flag vi reason st :
  error_kind_ reason = None →
  ∃ st' d, FlagVariation flag vi reason st = Some (st', d) ∧ eval_post Q flag st st' d.
Proof.
  intros Hr. unfold FlagVariation. destruct (_ || _) eqn:E.
  - destruct (fail_post flag (flag_key flag) (NonexistentVariationIndex vi) st) as (st' & ? & _ & ?).
    eauto.
  - apply orb_false_iff in E as [_ E%Z.leb_gt]. pose proof (u64_range vi).
    eexists _, _. split; [reflexivity|]. apply ret_post.
    + right; left. destruct (lookup_lt_is_Some_2 (flag_variations flag) (Z.to_nat (u64 vi))) as [v Hv];
        [lia|]. exists (Z.to_nat (u64 vi)), reason, v. rewrite Hv, Z2Nat.id by lia. done.
    + unfold IsError. simpl. by rewrite Hr.
Qed.

Lemma OffValue_post flag reason st :
  (reason = Off ∧ flag_on flag = false ∨ ∃ key, reason = PrerequisiteFailed key) →
  ∃ st' d, OffValue flag reason st = Some (st', d) ∧ eval_post Q flag st st' d.
Proof.
  intros Hr. assert (error_kind_ reason = None) as He by (by destruct Hr as [[-> _]|[k ->]]).
  unfold OffValue. destruct (flag_offVariation flag) as [off|] eqn:Hoff.
  - by apply FlagVariation_post.
  - eexists _, _. split; [reflexivity|]. apply ret_post.
    + right; right. split; [done|]. by exists reason.
    + unfold IsError. simpl. by rewrite He.
Qed.

Lemma eval_post_trans flag flag' st1 st2 st3 d1 d2 :
  eval_post Q flag' st1 st2 d1 → IsError d1 = false → eval_post Q flag st2 st3 d2 →
  eval_post Q flag st1 st3 d2.
Proof.
  intros (B1 & _ & (l1 & L1 & N1) & (e1 & E1)) He (B2 & D2 & (l2 & L2 & N2) & (e2 & E2)).
  rewrite He in N1. apply nil_length_inv in N1 as ->.
  split_and!; [by etransitivity|done| |].
  - exists l2. split; [|done]. by rewrite L2, L1, app_nil_r.
  - exists (e1 ++ e2). by rewrite E2, E1, app_assoc.
Qed.

(** A step that only touches the stack keeps the guarantees. *)
Lemma eval_post_stack flag st st1 st' d :
  balanced Q (es_stack st) (es_stack st1) → es_log st1 = es_log st → es_events st1 = es_events st →
  eval_post Q flag st1 st' d → eval_post Q flag st st' d.
Proof.
  intros HB HL HE (B & D & L & E). split_and!; [by etransitivity|done|by rewrite <- HL|by rewrite <- HE].
Qed.

(** The segment fuel suffices from [st] on. *)
Definition seg_ready (seg_fuel : nat) st : Prop :=
  (unseen (stored_segment_keys source_) (es_stack st) < seg_fuel)%nat.

Lemma seg_ready_stable n st st' :
  seg_ready n st → segments_seen_ (es_stack st') = segments_seen_ (es_stack st) → seg_ready n st'.
Proof. unfold seg_ready, unseen. by intros H ->. Qed.

Lemma flag_rule_runs seg_fuel rule st :
  seg_ready seg_fuel st →
  ∃ stk r, Match_flag_rule context source_ (SegmentContains context source_ seg_fuel) rule
             (es_stack st) = Some (stk, r) ∧ balanced Q (es_stack st) stk.
Proof.
  intros Hst.
  destruct (match_clauses_ok context source_ Q
    (λ stk, (unseen (stored_segment_keys source_) stk < seg_fuel)%nat) (λ _, True)
    (SegmentContains context source_ seg_fuel)) with (clauses := fr_clauses rule) (st := es_stack st)
    as (stk & r & E & HR & _); try done.
  - intros s s' Hs (_ & Heq & _). unfold unseen in *. by rewrite Heq.
  - intros c seg _ (_ & key & _ & d & Hg & Hd).
    eapply runs_weaken; [apply (SegmentContains_runs context source_ Q Q_big (stored_segment_keys source_))|..];
      try done; [exact (stored_segment_key _ _ _ _ Hg Hd)|by intros [] _].
  - by exists stk, r.
Qed.

Lemma evaluate_rules_post seg_fuel flag i rules :
  evals (seg_ready seg_fuel)
    (evaluate_rules source_ context (SegmentContains context source_ seg_fuel) flag i rules)
    (eval_post Q flag).
Proof.
  revert i. induction rules as [|rule rules IH]; intros i st Hst; simpl.
  - destruct (Variation _ _ _ _) as [r|e]; [by apply FlagVariation_post|].
    destruct (fail_post flag (flag_key flag) e st) as (st' & ? & _ & ?). eauto.
  - unfold bind, on_stack. destruct (flag_rule_runs seg_fuel rule st Hst) as (stk & r & -> & HB).
    set (st1 := set_stack stk st).
    assert (seg_ready seg_fuel st1) as Hst1 by (eapply seg_ready_stable; [exact Hst|apply HB]).
    assert (∀ m : M (EState W) (EvaluationDetail Value),
      (∃ st' d, m st1 = Some (st', d) ∧ eval_post Q flag st1 st' d) →
      ∃ st' d, m st1 = Some (st', d) ∧ eval_post Q flag st st' d) as Hlift.
    { intros m (st' & d & E & H). exists st', d. split; [done|]. by apply (eval_post_stack flag st st1). }
    destruct r as [[]|e]; apply Hlift.
    + destruct (Variation _ _ _ _) as [r|e]; [by apply FlagVariation_post|].
      destruct (fail_post flag (flag_key flag) e st1) as (st' & ? & _ & ?). eauto.
    + by apply IH.
    + destruct (fail_post flag (flag_key flag) e st1) as (st' & ? & _ & ?). eauto.
Qed.

Lemma evaluate_matches_post seg_fuel flag :
  evals (seg_ready seg_fuel)
    (evaluate_matches source_ context (SegmentContains context source_ seg_fuel) flag)
    (eval_post Q flag).
Proof.
  intros st Hst. unfold evaluate_matches. destruct (AnyTargetMatchVariation _ _).
  - by apply FlagVariation_post.
  - by apply evaluate_rules_post.
Qed.

(** No error logged, events only added. *)
Definition quiet st st' : Prop :=
  balanced Q (es_stack st) (es_stack st') ∧ es_log st' = es_log st ∧
  ∃ evs, es_events st' = es_events st ++ evs.

Lemma quiet_refl st : quiet st st.
Proof. split_and!; [apply balanced_refl|done|]. exists []. by rewrite app_nil_r. Qed.

Lemma quiet_trans st1 st2 st3 : quiet st1 st2 → quiet st2 st3 → quiet st1 st3.
Proof.
  intros (B1 & L1 & (e1 & E1)) (B2 & L2 & (e2 & E2)).
  split_and!; [by etransitivity|congruence|]. exists (e1 ++ e2). by rewrite E2, E1, app_assoc.
Qed.

Lemma quiet_post flag st1 st2 st3 d :
  quiet st1 st2 → eval_post Q flag st2 st3 d → eval_post Q flag st1 st3 d.
Proof.
  intros (B1 & L1 & (e1 & E1)) (B2 & D & L & (e2 & E2)).
  split_and!; [by etransitivity|done|by rewrite <- L1|].
  exists (e1 ++ e2). by rewrite E2, E1, app_assoc.
Qed.

Lemma post_quiet flag st st' d : eval_post Q flag st st' d → IsError d = false → quiet st st'.
Proof.
  intros (B & _ & (l & L & N) & E) He. rewrite He in N. apply nil_length_inv in N as ->.
  rewrite app_nil_r in L. by split_and!.
Qed.

Lemma detail_ok_error flag d : detail_ok flag d → IsError d = true → d = malformed.
Proof.
  intros [->|[(i & r & v & -> & _ & Hr)|(_ & r & -> & Hr)]]; [done|..]; unfold IsError; simpl.
  - by rewrite Hr.
  - by destruct Hr as [[-> _]|[k ->]].
Qed.

(** An error is passed on as it is. *)
Lemma post_error flag flag' st st' d :
  eval_post Q flag' st st' d → IsError d = true → eval_post Q flag st st' d.
Proof.
  intros (B & D & L & E) He. split_and!; try done. left. by eapply detail_ok_error.
Qed.

Lemma send_quiet p prereq d flag st :
  ∃ st', send_prerequisite_event context event_scope p prereq d flag st = Some (st', ()) ∧ quiet st st'.
Proof.
  eexists. split; [reflexivity|]. split_and!; [apply balanced_refl|done|]. simpl. unfold Send.
  destruct (scope_processor event_scope); [eauto|]. exists []. by rewrite app_nil_r.
Qed.

(** Early returns satisfy the guarantees; otherwise nothing was logged. *)
Definition checked (flag : Flag) st st' (r : option (EvaluationDetail Value)) : Prop :=
  match r with Some d => eval_post Q flag st st' d | None => quiet st st' end.

Lemma off_checked flag reason st :
  (reason = Off ∧ flag_on flag = false ∨ ∃ key, reason = PrerequisiteFailed key) →
  ∃ st' r, (d <- OffValue flag reason ;; mret (Some d)) st = Some (st', r) ∧ checked flag st st' r.
Proof.
  intros Hr. destruct (OffValue_post flag reason st Hr) as (st' & d & E & H).
  exists st', (Some d). unfold bind. by rewrite E.
Qed.

Lemma checked_quiet flag st st1 (m : M (EState W) (option (EvaluationDetail Value))) :
  quiet st st1 →
  (∃ st' r, m st1 = Some (st', r) ∧ checked flag st1 st' r) →
  ∃ st' r, m st1 = Some (st', r) ∧ checked flag st st' r.
Proof.
  intros Hq (st' & r & E & H). exists st', r. split; [done|].
  destruct r; [by eapply quiet_post|by eapply quiet_trans].
Qed.

Lemma check_prerequisites_post (P : EState W → Prop) evaluate flag ps :
  (∀ st st', P st → balanced Q (es_stack st) (es_stack st') → P st') →
  (∀ key v f, GetFlag source_ key = Some (mkDescriptor v (Some f)) →
     evals P (evaluate f) (eval_post Q f)) →
  ∀ st, P st → ∃ st' r,
    check_prerequisites source_ context event_scope evaluate flag ps st = Some (st', r) ∧
    checked flag st st' r.
Proof.
  intros Hstable Hev. induction ps as [|p ps IH]; intros st Hst; simpl.
  { exists st, None. split; [done|apply quiet_refl]. }
  destruct (GetFlag source_ (prereq_key p)) as [[v [f|]]|] eqn:Hg; [|apply off_checked; eauto..].
  destruct (Hev _ _ _ Hg st Hst) as (st1 & d & E & Hpost). unfold bind at 1. rewrite E.
  destruct (IsError d) eqn:He.
  { exists st1, (Some d). split; [done|]. by eapply post_error. }
  pose proof (post_quiet _ _ _ _ Hpost He) as Hq1.
  destruct (send_quiet p f d flag st1) as (st2 & E2 & Hq2). unfold bind at 1. rewrite E2.
  pose proof (quiet_trans _ _ _ Hq1 Hq2) as Hq.
  destruct (_ || _); apply checked_quiet; [done| |done|].
  - apply off_checked. eauto.
  - apply IH. eapply Hstable; [exact Hst|]. apply Hq.
Qed.

Lemma guarded_post (P : EState W → Prop) evaluate flag :
  (∀ st st', P st → balanced Q (es_stack st) (es_stack st') → P st') →
  (∀ key v f, GetFlag source_ key = Some (mkDescriptor v (Some f)) →
     evals P (evaluate f) (eval_post Q f)) →
  ∀ st, P st → ∃ st' r,
    guarded source_ context event_scope evaluate flag st = Some (st', r) ∧ checked flag st st' r.
Proof.
  intros Hstable Hev st Hst. unfold guarded. destruct (flag_on flag) eqn:Hon; simpl.
  - by eapply check_prerequisites_post.
  - apply off_checked. auto.
Qed.

(** The number of flags that the evaluation has not yet entered. *)
Definition unseen_flags (K : gset string) st : nat :=
  size (K ∖ prerequisites_seen_ (es_stack st)).

Lemma notice_prerequisite key (stk : EvaluationStack W) :
  key ∉ prerequisites_seen_ stk →
  ∃ stk1, NoticePrerequisite key stk = Some stk1 ∧
    prerequisites_seen_ stk1 = {[key]} ∪ prerequisites_seen_ stk ∧
    segments_seen_ stk1 = segments_seen_ stk ∧ core stk1 = core stk ∧
    (∀ stk2, balanced Q stk1 stk2 → balanced Q stk (ForgetPrerequisite key stk2)).
Proof.
  intros Hk. unfold NoticePrerequisite. rewrite bool_decide_eq_false_2 by done.
  eexists. split_and!; [done..|]. intros stk2 (H1 & H2 & H3).
  split_and!; [|done|done]. simpl in *. rewrite H1. set_solver.
Qed.

Lemma evaluate_flag_post K seg_fuel n parent flag :
  stored_flag_keys source_ ⊆ K → flag_key flag ∈ K →
  evals (λ st, seg_ready seg_fuel st ∧ (unseen_flags K st < n)%nat)
    (evaluate_flag source_ context event_scope seg_fuel n parent flag) (eval_post Q flag).
Proof.
  intros HK. revert parent flag. induction n as [|n IH]; intros parent flag Hk st [Hs Hf]; [lia|].
  cbn [evaluate_flag]. unfold evaluate_step.
  destruct (decide (flag_key flag ∈ prerequisites_seen_ (es_stack st))) as [Hin|Hin].
  { unfold NoticePrerequisite. rewrite bool_decide_eq_true_2 by done.
    edestruct (fail_post flag) as (st' & E & _ & H). rewrite E. eauto. }
  destruct (notice_prerequisite _ _ Hin) as (stk & -> & Hseen & Hsegs & Hcore & Hforget).
  destruct (guarded_post (λ st, seg_ready seg_fuel st ∧ (unseen_flags K st < n)%nat)
    (λ prereq, evaluate_flag source_ context event_scope seg_fuel n (Some (flag_key flag)) prereq) flag)
    with (st := set_stack stk st) as (st1 & r & -> & Hr).
  - intros s s' [H1 H2] (B1 & B2 & _). split; [by eapply seg_ready_stable|].
    unfold unseen_flags. by rewrite B1.
  - intros key v f Hg. apply IH. apply HK. by eapply stored_flag_key.
  - split; [by eapply seg_ready_stable|]. unfold unseen_flags in *. simpl. rewrite Hseen.
    eapply Nat.lt_le_trans; [|apply Nat.lt_succ_r, Hf]. apply subset_size. set_solver.
  - destruct r as [d|].
    + destruct Hr as (HB & HD & HL & HE). eexists _, _. split; [reflexivity|].
      split_and!; [by apply Hforget|done|done|done].
    + destruct Hr as (HB & HL & HE). apply Hforget in HB. simpl in HL, HE.
      set (st2 := set_stack (ForgetPrerequisite (flag_key flag) (es_stack st1)) st1).
      assert (quiet st st2) as Hq by (split_and!; done).
      destruct (evaluate_matches_post seg_fuel flag st2) as (st3 & d & E & H).
      { eapply seg_ready_stable; [exact Hs|]. apply HB. }
      exists st3, d. split; [done|]. by eapply quiet_post.
Qed.
End Guarantees.

(** ** Lemmas: independence of the fuel *)

Section EvaluatorFuel.
Context `{X : Externals} {W : Type} `{!BigSegmentStore W} {St : Type} `{!IStore St}.
Context (source_ : St) (context : Context) (event_scope : EventScope).

Lemma on_stack_extends {A} (m m' : M (EvaluationStack W) A) :
  extends m m' → extends (on_stack m) (on_stack m').
Proof.
  intros Hm st r. unfold on_stack. destruct (m (es_stack st)) as [[stk a]|] eqn:E; [|done].
  by rewrite (Hm _ _ E).
Qed.

Lemma evaluate_matches_extends contains contains' flag :
  (∀ seg, extends (contains seg) (contains' seg)) →
  extends (evaluate_matches (W:=W) source_ context contains flag)
          (evaluate_matches source_ context contains' flag).
Proof.
  intros Hc. unfold evaluate_matches. destruct (AnyTargetMatchVariation _ _); auto with ld.
  generalize 0%nat. induction (flag_rules flag) as [|rule rules IH]; intros i; simpl; auto with ld.
  apply extends_bind; [by apply on_stack_extends, match_clauses_extends|].
  intros [[]|e]; auto with ld.
Qed.

Lemma guarded_extends (evaluate evaluate' : Flag → M (EState W) (EvaluationDetail Value)) flag :
  (∀ f, extends (evaluate f) (evaluate' f)) →
  extends (guarded source_ context event_scope evaluate flag)
          (guarded source_ context event_scope evaluate' flag).
Proof.
  intros He. unfold guarded. destruct (negb (flag_on flag)); auto with ld.
  induction (flag_prerequisites flag) as [|p ps IH]; simpl; auto with ld.
  destruct (GetFlag source_ (prereq_key p)) as [[v [f|]]|]; auto with ld.
  apply extends_bind; [done|]. intros d. destruct (IsError d); auto with ld.
  apply extends_bind; [auto with ld|]. intros _. destruct (_ || _); auto with ld.
Qed.

Lemma evaluate_flag_extends s s' n n' parent flag :
  (s ≤ s')%nat → (n ≤ n')%nat →
  extends (evaluate_flag (W:=W) source_ context event_scope s n parent flag)
          (evaluate_flag source_ context event_scope s' n' parent flag).
Proof.
  intros Hs. revert n' parent flag. induction n as [|n IH]; intros n' parent flag Hn; [done|].
  destruct n' as [|n']; [lia|]. cbn [evaluate_flag]. intros st r. unfold evaluate_step.
  destruct (NoticePrerequisite _ _) as [stk|]; [|done].
  destruct (guarded _ _ _ _ flag _) as [[st1 o]|] eqn:E; [|done].
  eapply guarded_extends in E as ->; [|intros f; apply IH; lia].
  destruct o; [done|]. apply evaluate_matches_extends. intros seg. by apply SegmentContains_extends.
Qed.
End EvaluatorFuel.

(** ** Properties of the evaluator *)

(** The shape of a reported detail, whatever Big Segments status it carries. *)
Definition result_ok (flag : Flag) (d : EvaluationDetail Value) : Prop :=
  ∃ r, reason_ d = Some r ∧
  ((kind_ r = Kind.kError ∧ error_kind_ r = Some ErrorKind.kMalformedFlag ∧
      value_ d = VNull ∧ variation_index_ d = None) ∨
   (error_kind_ r = None ∧
      ∃ i, variation_index_ d = Some (Z.of_nat i) ∧ flag_variations flag !! i = Some (value_ d)) ∨
   (error_kind_ r = None ∧ (kind_ r = Kind.kOff ∨ kind_ r = Kind.kPrerequisiteFailed) ∧
      flag_offVariation flag = None ∧ value_ d = VNull ∧ variation_index_ d = None)).

Lemma detail_ok_result flag d status :
  detail_ok flag d → result_ok flag d ∧ result_ok flag (WithBigSegmentsStatus d status).
Proof.
  intros [->|[(i & r & v & -> & Hv & Hr)|(Ho & r & -> & Hr)]].
  - split; (eexists; split; [done|]; by left).
  - split; (eexists; split; [done|]; right; left; eauto).
  - destruct Hr as [[-> _]|[k ->]];
      (split; (eexists; split; [done|]; right; right; split_and!; simpl; auto)).
Qed.

Lemma IsError_status d status : IsError (WithBigSegmentsStatus d status) = IsError d.
Proof. unfold IsError, WithBigSegmentsStatus. by destruct (reason_ d) eqn:E; [|rewrite E]. Qed.

Section Start.
Context `{X : Externals} {W : Type} `{!BigSegmentStore W} {St : Type} `{!IStore St} `{!IStoreLaws St}.
Context (source_ : St) (context : Context) (scope : EventScope).

(** [Evaluate] returns, and its run satisfies the guarantees for any [Q]. *)
Lemma Evaluate_post Q `{!PreOrder Q} (store : option W) flag :
  (∀ seg (st : EvaluationStack W), Q (core st) (core (MatchBigSegment seg context st).1)) →
  ∃ st d, evaluate_flag source_ context scope (segment_fuel source_) (flag_fuel source_ flag) None flag
            (mkEState (new_stack store) [] []) = Some (st, d) ∧
    eval_post Q flag (mkEState (new_stack store) [] []) st d.
Proof.
  intros HQ. apply (evaluate_flag_post source_ context scope Q HQ ({[flag_key flag]} ∪ stored_flag_keys source_)).
  - set_solver.
  - set_solver.
  - split.
    + unfold seg_ready, unseen, segment_fuel. simpl. rewrite difference_empty_L. lia.
    + unfold unseen_flags, flag_fuel. simpl. rewrite difference_empty_L. lia.
Qed.
End Start.

(** C1: evaluating a flag always returns, whatever the flags and segments of
    the store refer to: the fuel computed from the store suffices, any larger
    amount gives the same outcome, and all cycle guards are released. *)
Theorem evaluate_total `{X : Externals} {W} `{!BigSegmentStore W} {St} `{!IStore St} `{!IStoreLaws St}
  (source_ : St) (context : Context) (scope : EventScope) (store : option W) (flag : Flag) :
  ∃ st d,
    (∀ seg_fuel fuel, (segment_fuel source_ ≤ seg_fuel)%nat → (flag_fuel source_ flag ≤ fuel)%nat →
       evaluate_flag source_ context scope seg_fuel fuel None flag
         (mkEState (new_stack store) [] []) = Some (st, d)) ∧
    is_Some (Evaluate source_ context scope store flag) ∧
    prerequisites_seen_ (es_stack st) = ∅ ∧ segments_seen_ (es_stack st) = ∅.
Proof.
  destruct (Evaluate_post source_ context scope core_grows store flag
    (λ seg st, MatchBigSegment_grows seg context st)) as (st & d & E & (B1 & B2 & _) & _).
  exists st, d. split_and!; [|unfold Evaluate; rewrite E; eauto|done|done].
  intros s n Hs Hn. by eapply evaluate_flag_extends; [..|exact E].
Qed.

Definition example_flag (key : string) (prereqs : list Prerequisite) : Flag :=
  mkFlag key 1 true (VVariation (Some 0)) [VBool true; VBool false] prereqs [] []
    [mkFlagRule [example_clause false ["a"]] (VVariation (Some 1)) false (Some "rule")]
    (Some 1) false false false (Some "salt") false false None.

(** Two flags, each a prerequisite of the other. *)
Definition cyclic_store : MemoryStore :=
  mkMemoryStore
    (list_to_map [("f", flag_descriptor (example_flag "f" [mkPrerequisite "g" 0]));
                  ("g", flag_descriptor (example_flag "g" [mkPrerequisite "f" 0]))])
    (segments_ example_store) true.

Lemma evaluate_total_witness :
  ∃ st d,
    (∀ seg_fuel fuel, (4 ≤ seg_fuel)%nat → (3 ≤ fuel)%nat →
       evaluate_flag cyclic_store (example_context "x") no_scope seg_fuel fuel None
         (example_flag "f" [mkPrerequisite "g" 0])
         (mkEState (new_stack (Some (∅ : gmap string GetMembershipResult))) [] []) = Some (st, d)) ∧
    is_Some (Evaluate cyclic_store (example_context "x") no_scope
      (Some (∅ : gmap string GetMembershipResult)) (example_flag "f" [mkPrerequisite "g" 0])) ∧
    prerequisites_seen_ (es_stack st) = ∅ ∧ segments_seen_ (es_stack st) = ∅.
Proof.
  exact (evaluate_total cyclic_store (example_context "x") no_scope
    (Some (∅ : gmap string GetMembershipResult)) (example_flag "f" [mkPrerequisite "g" 0])).
Defined.

(** Every result is well formed.  It carries a reason; it is either the
    malformed-flag error with a null value, or the value of the flag's variation
    at the reported index, or null when the flag is off or fails a prerequisite
    and has no off variation.  Exactly one error is logged when the result is an
    error and none otherwise; and once a Big Segment has been consulted the
    reason carries the most severe status recorded. *)
Theorem evaluate_result_ok `{X : Externals} {W} `{!BigSegmentStore W} {St} `{!IStore St} `{!IStoreLaws St}
  (source_ : St) (context : Context) (scope : EventScope) (store : option W) (flag : Flag) :
  ∃ st d, Evaluate source_ context scope store flag = Some (st, d) ∧
    result_ok flag d ∧
    length (es_log st) = (if IsError d then 1%nat else 0%nat) ∧
    (stack_status_ (es_stack st) ≠ BigSegmentsStatus.kNone →
       ∃ r, reason_ d = Some r ∧ big_segments_status_ r = stack_status_ (es_stack st)).
Proof.
  destruct (Evaluate_post source_ context scope core_grows store flag
    (λ seg st, MatchBigSegment_grows seg context st)) as (st & d & E & _ & HD & (l & HL & HN) & _).
  unfold Evaluate. rewrite E. simpl in HL. subst l.
  destruct (detail_ok_result flag d (stack_status_ (es_stack st)) HD) as [H1 H2].
  case_bool_decide as Hs.
  - exists st, d. split_and!; done.
  - eexists st, _. split_and!; [done|done|by rewrite IsError_status|]. intros _.
    destruct H1 as (r & Hr & _). unfold WithBigSegmentsStatus. rewrite Hr. simpl. eauto.
Qed.

Lemma evaluate_result_ok_witness :
  ∃ st d, Evaluate cyclic_store (example_context "x") no_scope
      (Some (∅ : gmap string GetMembershipResult)) (example_flag "f" [mkPrerequisite "g" 0]) = Some (st, d) ∧
    result_ok (example_flag "f" [mkPrerequisite "g" 0]) d ∧
    length (es_log st) = (if IsError d then 1%nat else 0%nat) ∧
    (stack_status_ (es_stack st) ≠ BigSegmentsStatus.kNone →
       ∃ r, reason_ d = Some r ∧ big_segments_status_ r = stack_status_ (es_stack st)).
Proof.
  exact (evaluate_result_ok cyclic_store (example_context "x") no_scope
    (Some (∅ : gmap string GetMembershipResult)) (example_flag "f" [mkPrerequisite "g" 0])).
Defined.

(** During one evaluation the Big Segment store is asked at most once for
    each context key, however many segments, rules and prerequisites refer to
    it: a wrapper that records its queries ends with a list without repetition. *)
Theorem big_segment_single_query `{X : Externals} {W} `{!BigSegmentStore W} {St} `{!IStore St}
  `{!IStoreLaws St} (source_ : St) (context : Context) (scope : EventScope) (w : W) (flag : Flag) :
  ∃ st d w' queries, Evaluate source_ context scope (Some (w, [])) flag = Some (st, d) ∧
    big_segment_store_ (es_stack st) = Some (w', queries) ∧ NoDup queries.
Proof.
  pose (Q := λ c c' : option (W * list string) * BigSegmentsStatus.t * gmap string Membership * gset string,
    core_grows c c' ∧ (log_ok c → log_ok c')).
  assert (PreOrder Q) as HQ.
  { split.
    - intros c. split; [reflexivity|done].
    - intros c1 c2 c3 [A1 B1] [A2 B2]. split; [by etransitivity|tauto]. }
  destruct (Evaluate_post source_ context scope Q (Some (w, [])) flag) as (st & d & E & (_ & _ & Hg & Hl) & _).
  { intros seg st. split; [apply MatchBigSegment_grows|apply MatchBigSegment_log]. }
  unfold Evaluate. rewrite E. unfold core in Hg, Hl. simpl in Hg.
  destruct (big_segment_store_ (es_stack st)) as [[w' queries]|] eqn:Hb.
  - eexists st, _, w', queries. split_and!; [done|done|]. apply Hl. simpl. split; [constructor|].
    intros k Hk. by apply elem_of_nil in Hk.
  - destruct Hg as (_ & _ & _ & [H _]). exfalso. destruct H as [x Hx]; [by eauto|done].
Qed.

Lemma big_segment_single_query_witness :
  ∃ st d w' queries, Evaluate cyclic_store (example_context "x") no_scope
      (Some ((∅ : gmap string GetMembershipResult), [])) (example_flag "f" []) = Some (st, d) ∧
    big_segment_store_ (es_stack st) = Some (w', queries) ∧ NoDup queries.
Proof.
  exact (big_segment_single_query cyclic_store (example_context "x") no_scope
    (∅ : gmap string GetMembershipResult) (example_flag "f" [])).
Defined.

(** ** How a result was decided *)

Section Trace.
Context `{X : Externals} {W : Type} `{!BigSegmentStore W} {St : Type} `{!IStore St}.
Context (source_ : St) (context : Context).

(** The rules, tried in order, that did not match. *)
Inductive rejected (contains : Segment → M (EvaluationStack W) (expected bool Error)) :
    EState W → list FlagRule → EState W → Prop :=
| rejected_nil st : rejected contains st [] st
| rejected_cons st st1 st2 rule rules :
    on_stack (Match_flag_rule context source_ contains rule) st = Some (st1, Val false) →
    rejected contains st1 rules st2 → rejected contains st (rule :: rules) st2.

(** The prerequisite is stored, on, and evaluates to the required variation. *)
Definition prerequisite_met (evaluate : Flag → M (EState W) (EvaluationDetail Value))
    (p : Prerequisite) : Prop :=
  ∃ v prereq st st' d, GetFlag source_ (prereq_key p) = Some (mkDescriptor v (Some prereq)) ∧
    flag_on prereq = true ∧ evaluate prereq st = Some (st', d) ∧
    variation_index_ d = Some (u64 (prereq_variation p)).

Definition decided_by (contains : Segment → M (EvaluationStack W) (expected bool Error))
    (flag : Flag) (r : EvaluationReason) : Prop :=
  match kind_ r with
  | Kind.kTargetMatch => is_Some (AnyTargetMatchVariation context flag)
  | Kind.kRuleMatch =>
      AnyTargetMatchVariation context flag = None ∧
      ∃ i rule st st1 st2, rule_index_ r = Some i ∧ flag_rules flag !! i = Some rule ∧
        rule_id_ r = fr_id rule ∧ rejected contains st (take i (flag_rules flag)) st1 ∧
        on_stack (Match_flag_rule context source_ contains rule) st1 = Some (st2, Val true)
  | Kind.kFallthrough =>
      AnyTargetMatchVariation context flag = None ∧
      ∃ st st1, rejected contains st (flag_rules flag) st1
  | _ => False
  end.

Lemma FlagVariation_reason flag vi reason (st st' : EState W) d :
  FlagVariation flag vi reason st = Some (st', d) → d = malformed ∨ reason_ d = Some reason.
Proof. unfold FlagVariation. destruct (_ || _); intros [= <- <-]; auto. Qed.

Lemma OffValue_reason flag reason (st st' : EState W) d :
  OffValue flag reason st = Some (st', d) → d = malformed ∨ reason_ d = Some reason.
Proof.
  unfold OffValue. destruct (flag_offVariation flag); [apply FlagVariation_reason|].
  intros [= <- <-]. by right.
Qed.

Lemma fail_malformed key e (st st' : EState W) d : fail key e st = Some (st', d) → d = malformed.
Proof. by intros [= <- <-]. Qed.

Lemma rejected_snoc contains st rules st1 rule st2 :
  rejected contains st rules st1 →
  on_stack (Match_flag_rule context source_ contains rule) st1 = Some (st2, Val false) →
  rejected contains st (rules ++ [rule]) st2.
Proof.
  induction 1 as [st|st sta stb r rs Hm _ IH]; intros H; simpl.
  - eapply rejected_cons; [exact H|constructor].
  - eapply rejected_cons; [exact Hm|by apply IH].
Qed.

Lemma evaluate_rules_decided contains flag i rules st0 st st' d r :
  AnyTargetMatchVariation context flag = None →
  drop i (flag_rules flag) = rules → rejected contains st0 (take i (flag_rules flag)) st →
  evaluate_rules source_ context contains flag i rules st = Some (st', d) →
  reason_ d = Some r → d ≠ malformed → decided_by contains flag r.
Proof.
  intros Ht. revert i st. induction rules as [|rule rules IH]; intros i st Hd Hrej; simpl.
  - intros E Hr Hm. rewrite take_ge in Hrej by (by apply drop_nil_inv).
    destruct (Variation _ _ _ _) as [b|e]; [|by apply fail_malformed in E].
    apply FlagVariation_reason in E as [?|E]; [done|]. simplify_eq. split; [done|]. by exists st0, st.
  - unfold bind. destruct (on_stack _ st) as [[st1 o]|] eqn:Em; [|done].
    assert (flag_rules flag !! i = Some rule) as Hi.
    { rewrite <- (take_drop i (flag_rules flag)), Hd.
      assert (i < length (flag_rules flag))%nat.
      { apply (f_equal length) in Hd. rewrite length_drop in Hd. simpl in Hd. lia. }
      rewrite lookup_app_r; rewrite length_take; [|lia].
      by replace (i - i `min` length (flag_rules flag))%nat with 0%nat by lia. }
    destruct o as [[]|e]; intros E Hr Hm; [| |by apply fail_malformed in E].
    + destruct (Variation _ _ _ _) as [b|e]; [|by apply fail_malformed in E].
      apply FlagVariation_reason in E as [?|E]; [done|]. simplify_eq. split; [done|].
      by exists i, rule, st0, st, st1.
    + eapply (IH (S i)); [|erewrite take_S_r by done; by eapply rejected_snoc|done..].
      rewrite <- (Nat.add_1_r i), <- drop_drop, Hd. done.
Qed.

(** The prerequisite is unknown or deleted, off, or evaluates to something else. *)
Definition prerequisite_unmet (evaluate : Flag → M (EState W) (EvaluationDetail Value))
    (p : Prerequisite) : Prop :=
  (∀ v prereq, GetFlag source_ (prereq_key p) ≠ Some (mkDescriptor v (Some prereq))) ∨
  ∃ v prereq st st' d, GetFlag source_ (prereq_key p) = Some (mkDescriptor v (Some prereq)) ∧
    evaluate prereq st = Some (st', d) ∧
    (flag_on prereq = false ∨ variation_index_ d ≠ Some (u64 (prereq_variation p))).

Variable (scope : EventScope).

Definition stopped_at evaluate (ps : list Prerequisite) (r : EvaluationReason) : Prop :=
  ∃ before p after, ps = before ++ p :: after ∧ r = PrerequisiteFailed (prereq_key p) ∧
    Forall (prerequisite_met evaluate) before ∧ prerequisite_unmet evaluate p.

Lemma check_prerequisites_decided evaluate flag ps st st' o :
  check_prerequisites source_ context scope evaluate flag ps st = Some (st', o) →
  match o with
  | None => Forall (prerequisite_met evaluate) ps
  | Some d => ∀ r, IsError d = false → reason_ d = Some r → stopped_at evaluate ps r
  end.
Proof.
  revert st. induction ps as [|p ps IH]; intros st; simpl; [by intros [= <- <-]|].
  assert (∀ s s' : EState W, (d' <- OffValue flag (PrerequisiteFailed (prereq_key p)) ;; mret (Some d')) s =
      Some (s', o) → prerequisite_unmet evaluate p →
    ∃ d, o = Some d ∧ ∀ r, IsError d = false → reason_ d = Some r → stopped_at evaluate (p :: ps) r) as Hoff.
  { intros s s'. unfold bind. destruct (OffValue _ _ s) as [[s1 d]|] eqn:E; [|done].
    intros [= <- <-] Hun. exists d. split; [done|]. intros r He Hr.
    apply OffValue_reason in E as [->|E]; [done|]. exists [], p, ps. simplify_eq. by split_and!. }
  destruct (GetFlag source_ (prereq_key p)) as [[v [f|]]|] eqn:Hg.
  2,3: intros E; apply Hoff in E as (d & -> & H); [done|left; intros v' f'; by rewrite Hg].
  unfold bind at 1. destruct (evaluate f st) as [[st1 d]|] eqn:Hev; [|done].
  destruct (IsError d) eqn:He. { intros [= <- <-] r. congruence. }
  unfold bind at 1. simpl. destruct (_ || _) eqn:Hfail.
  - intros E. apply Hoff in E as (d' & -> & H); [done|]. right. exists v, f, st, st1, d.
    split_and!; [done|done|]. apply orb_true_iff in Hfail as [Hf|Hf]; [left|right].
    + by apply negb_true_iff.
    + by apply negb_true_iff, bool_decide_eq_false in Hf.
  - apply orb_false_iff in Hfail as [Hon Hv]. apply negb_false_iff in Hon, Hv.
    apply bool_decide_eq_true in Hv.
    assert (prerequisite_met evaluate p) as Hmet by (by exists v, f, st, st1, d).
    intros E. apply IH in E. destruct o as [d'|]; [|by constructor].
    intros r He' Hr. destruct (E r He' Hr) as (before & q & after & -> & ? & ? & ?).
    exists (p :: before), q, after. split_and!; [done|done|by constructor|done].
Qed.

Lemma evaluate_step_decided evaluate contains parent flag st st' d r :
  evaluate_step source_ context scope evaluate contains parent flag st = Some (st', d) →
  IsError d = false → reason_ d = Some r →
  (flag_on flag = false ∧ r = Off) ∨
  (flag_on flag = true ∧ stopped_at evaluate (flag_prerequisites flag) r) ∨
  (flag_on flag = true ∧ Forall (prerequisite_met evaluate) (flag_prerequisites flag) ∧
   decided_by contains flag r).
Proof.
  unfold evaluate_step. intros E He Hr.
  assert (d ≠ malformed) as Hm by (by intros ->).
  destruct (NoticePrerequisite _ _) as [stk|]; [|by apply fail_malformed in E].
  destruct (guarded _ _ _ _ flag _) as [[st1 o]|] eqn:Hg; [|done].
  unfold guarded in Hg. destruct (flag_on flag) eqn:Hon; simpl in Hg.
  - apply check_prerequisites_decided in Hg. destruct o as [d'|]; simplify_eq; [by auto|].
    right; right. split_and!; [done|done|]. unfold evaluate_matches in E.
    destruct (AnyTargetMatchVariation context flag) eqn:Ht.
    + apply FlagVariation_reason in E as [?|E]; [done|]. simplify_eq. unfold decided_by. simpl.
      rewrite Ht. eauto.
    + eapply (evaluate_rules_decided contains flag 0 (flag_rules flag)); [exact Ht|apply drop_0|constructor|exact E|exact Hr|exact Hm].
  - unfold bind in Hg. destruct (OffValue _ _ _) as [[s d']|] eqn:Ho; [|done].
    injection Hg as <- <-. injection E as <- <-.
    left. split; [done|]. apply OffValue_reason in Ho as [?|Ho]; [done|]. congruence.
Qed.
End Trace.

(** C2: a result that is not an error is explained by its reason.  Off: the
    flag is off.  Prerequisite failed: the flag is on, the named prerequisite is
    the first one that is not met.  Otherwise all prerequisites are met, and
    target matches take priority over rules, the reported rule is the first one
    that matches, and the fallthrough is used only when no target and no rule
    matches. *)
Theorem evaluation_explained `{X : Externals} {W} `{!BigSegmentStore W} {St} `{!IStore St}
  (source_ : St) (context : Context) (scope : EventScope) (seg_fuel n : nat)
  (parent : option string) (flag : Flag) (st st' : EState W) (d : EvaluationDetail Value)
  (r : EvaluationReason)
  (Heval : evaluate_flag source_ context scope seg_fuel (S n) parent flag st = Some (st', d))
  (Hok : IsError d = false) (Hr : reason_ d = Some r) :
  let evaluate := evaluate_flag source_ context scope seg_fuel n (Some (flag_key flag)) in
  (flag_on flag = false ∧ r = Off) ∨
  (flag_on flag = true ∧ stopped_at source_ evaluate (flag_prerequisites flag) r) ∨
  (flag_on flag = true ∧ Forall (prerequisite_met source_ evaluate) (flag_prerequisites flag) ∧
   decided_by source_ context (SegmentContains context source_ seg_fuel) flag r).
Proof. by eapply evaluate_step_decided. Qed.

Lemma evaluation_explained_witness :
  let evaluate := evaluate_flag (W := gmap string GetMembershipResult) cyclic_store
    (example_context "x") no_scope 4 2 (Some "h") in
  let flag := example_flag "h" [] in
  let r := RuleMatch 0 (Some "rule") false in
  (flag_on flag = false ∧ r = Off) ∨
  (flag_on flag = true ∧ stopped_at cyclic_store evaluate (flag_prerequisites flag) r) ∨
  (flag_on flag = true ∧ Forall (prerequisite_met cyclic_store evaluate) (flag_prerequisites flag) ∧
   decided_by cyclic_store (example_context "x") (SegmentContains (example_context "x") cyclic_store 4) flag r).
Proof.
  refine (evaluation_explained cyclic_store (example_context "x") no_scope 4 2 None
    (example_flag "h" []) (mkEState (new_stack None) [] []) (mkEState (new_stack None) [] [])
    (mkDetail (VBool false) (Some 1) (Some (RuleMatch 0 (Some "rule") false)))
    (RuleMatch 0 (Some "rule") false) _ _ _); vm_compute; reflexivity.
Defined.

(** ** Cycles *)

Section Cycle.
Context `{X : Externals} {W : Type} `{!BigSegmentStore W} {St : Type} `{!IStore St}.
Context (source_ : St) (context : Context) (scope : EventScope).

(** The flags with keys in [C] are on, and the first prerequisite of each is
    again in [C]. *)
Definition closed_cycle (C : gset string) : Prop :=
  ∀ k, k ∈ C → ∃ v f p ps, GetFlag source_ k = Some (mkDescriptor v (Some f)) ∧
    flag_on f = true ∧ flag_prerequisites f = p :: ps ∧ prereq_key p ∈ C.

Lemma cycle_malformed C seg_fuel n parent k v f (st st' : EState W) d :
  closed_cycle C → k ∈ C → GetFlag source_ k = Some (mkDescriptor v (Some f)) →
  evaluate_flag source_ context scope seg_fuel n parent f st = Some (st', d) →
  d = malformed ∧ core (es_stack st') = core (es_stack st).
Proof.
  intros HC. revert parent k v f st st' d.
  induction n as [|n IH]; intros parent k v f st st' d Hk Hg; [done|].
  cbn [evaluate_flag]. unfold evaluate_step.
  destruct (HC k Hk) as (v' & f' & p & ps & Hg' & Hon & Hps & Hp). simplify_eq.
  destruct (HC _ Hp) as (v2 & f2 & _ & _ & Hg2 & _).
  unfold NoticePrerequisite. case_bool_decide as Hin; [by intros [= <- <-]|].
  unfold guarded. rewrite Hon, Hps. simpl. rewrite Hg2. unfold bind at 1.
  destruct (evaluate_flag _ _ _ _ n _ f2 _) as [[st1 d1]|] eqn:E; [|done].
  destruct (IH _ _ _ _ _ _ _ Hp Hg2 E) as [-> Hcore]. simpl. by intros [= <- <-].
Qed.
End Cycle.

(** C8: when the first prerequisites of a set of flags that are on lead back
    into the set, the evaluation of each of these flags detects the cycle: it
    returns the malformed-flag error and logs one error. *)
Theorem cyclic_prerequisites_malformed `{X : Externals} {W} `{!BigSegmentStore W} {St} `{!IStore St}
  `{!IStoreLaws St} (source_ : St) (context : Context) (scope : EventScope) (store : option W)
  (C : gset string) (HC : closed_cycle source_ C) (k : string) (Hk : k ∈ C) (v : Z) (f : Flag)
  (Hf : GetFlag source_ k = Some (mkDescriptor v (Some f))) :
  ∃ st, Evaluate source_ context scope store f = Some (st, malformed) ∧ length (es_log st) = 1%nat.
Proof.
  destruct (Evaluate_post source_ context scope core_grows store f
    (λ seg st, MatchBigSegment_grows seg context st)) as (st & d & E & _ & _ & (l & HL & HN) & _).
  destruct (cycle_malformed source_ context scope C _ _ _ _ _ _ _ _ _ HC Hk Hf E) as [-> Hcore].
  unfold Evaluate. rewrite E. unfold core in Hcore. injection Hcore as _ Hs _ _. rewrite Hs. simpl.
  exists st. split; [done|]. by rewrite HL.
Qed.

Lemma cyclic_prerequisites_malformed_witness :
  ∃ st, Evaluate cyclic_store (example_context "x") no_scope
    (None : option (gmap string GetMembershipResult)) (example_flag "f" [mkPrerequisite "g" 0]) =
    Some (st, malformed) ∧ length (es_log st) = 1%nat.
Proof.
  apply (cyclic_prerequisites_malformed cyclic_store (example_context "x") no_scope None
    {["f"; "g"]}) with (k := "f") (v := 1).
  - intros k Hk. apply elem_of_union in Hk as [Hk|Hk]; apply elem_of_singleton in Hk as ->.
    + exists 1, (example_flag "f" [mkPrerequisite "g" 0]), (mkPrerequisite "g" 0), [].
      split_and!; [reflexivity..|by_decide].
    + exists 1, (example_flag "g" [mkPrerequisite "f" 0]), (mkPrerequisite "f" 0), [].
      split_and!; [reflexivity..|by_decide].
  - by_decide.
  - reflexivity.
Defined.
