(* ===== verification/Dependencies.v ===== *)
(** * Dependency tracking

    libs/server-sdk/src/data_components/dependency_tracker: data_kind.hpp,
    tagged_data.hpp, dependency_tracker.hpp/.cpp.

    A [std::set] is a [gset]: the operations below only insert, remove, test and
    enumerate, and [calculate_changes_reach] shows that the order of the
    enumeration does not matter. *)

From S2P Require Import Prelude Values DataModel.

Module DataKind.
Inductive t := kFlag | kSegment.
#[global] Instance eq_dec : EqDecision t.
Proof. solve_decision. Defined.
End DataKind.

(** ** [DependencySet]: the array of two tagged sets *)

Record DependencySet := mkDeps { deps_flags : gset string; deps_segments : gset string }.

Definition empty_deps : DependencySet := mkDeps ∅ ∅.

Definition SetForKind (kind : DataKind.t) (s : DependencySet) : gset string :=
  match kind with DataKind.kFlag => deps_flags s | DataKind.kSegment => deps_segments s end.

Definition deps_Set (kind : DataKind.t) (key : string) (s : DependencySet) : DependencySet :=
  match kind with
  | DataKind.kFlag => mkDeps ({[key]} ∪ deps_flags s) (deps_segments s)
  | DataKind.kSegment => mkDeps (deps_flags s) ({[key]} ∪ deps_segments s)
  end.

Definition deps_Remove (kind : DataKind.t) (key : string) (s : DependencySet) : DependencySet :=
  match kind with
  | DataKind.kFlag => mkDeps (deps_flags s ∖ {[key]}) (deps_segments s)
  | DataKind.kSegment => mkDeps (deps_flags s) (deps_segments s ∖ {[key]})
  end.

Definition deps_Contains (kind : DataKind.t) (key : string) (s : DependencySet) : bool :=
  bool_decide (key ∈ SetForKind kind s).

Definition deps_Size (s : DependencySet) : nat := (size (deps_flags s) + size (deps_segments s))%nat.

(** The pairs that the nested range-for loops visit. *)
Definition deps_items (s : DependencySet) : list (DataKind.t * string) :=
  ((λ k, (DataKind.kFlag, k)) <$> elements (deps_flags s)) ++
  ((λ k, (DataKind.kSegment, k)) <$> elements (deps_segments s)).

(** ** [DependencyMap] *)

Record DependencyMap := mkDepMap {
  map_flags : gmap string DependencySet;
  map_segments : gmap string DependencySet;
}.

Definition empty_dep_map : DependencyMap := mkDepMap ∅ ∅.

Definition map_Get (kind : DataKind.t) (key : string) (m : DependencyMap) : option DependencySet :=
  match kind with
  | DataKind.kFlag => map_flags m !! key
  | DataKind.kSegment => map_segments m !! key
  end.

(** [emplace]: an entry already present is kept. *)
Definition map_Set (kind : DataKind.t) (key : string) (val : DependencySet) (m : DependencyMap) :
    DependencyMap :=
  match map_Get kind key m with
  | Some _ => m
  | None =>
      match kind with
      | DataKind.kFlag => mkDepMap (<[key := val]> (map_flags m)) (map_segments m)
      | DataKind.kSegment => mkDepMap (map_flags m) (<[key := val]> (map_segments m))
      end
  end.

(** ** [DependencyTracker] *)

Record DependencyTracker := mkTracker {
  dependencies_from_ : DependencyMap;
  dependencies_to_ : DependencyMap;
}.

Definition empty_tracker : DependencyTracker := mkTracker empty_dep_map empty_dep_map.

Definition tracker_Clear (t : DependencyTracker) : DependencyTracker := empty_tracker.

Definition CalculateClauseDeps (clauses : list Clause) (dependencies : DependencySet) : DependencySet :=
  foldl (λ deps clause,
    if bool_decide (op clause = Op.kSegmentMatch)
    then foldl (λ deps value, deps_Set DataKind.kSegment (AsString value) deps) deps (clause_values clause)
    else deps) dependencies clauses.

(** One iteration of the second loop of [UpdateDependencies]: [Get] returns a
    copy, so recording [key] in the set of a dependency that already has one
    changes the copy only. *)
Definition add_dependent (kind : DataKind.t) (key : string) (to_ : DependencyMap)
    (dep : DataKind.t * string) : DependencyMap :=
  match map_Get dep.1 dep.2 to_ with
  | None => map_Set dep.1 dep.2 (deps_Set kind key empty_deps) to_
  | Some deps_to_this_dep => let _copy := deps_Set kind key deps_to_this_dep in to_
  end.

(** One iteration of the first loop: again on a copy. *)
Definition remove_dependent (key : string) (to_ : DependencyMap) (dep : DataKind.t * string) :
    DependencyMap :=
  match map_Get dep.1 dep.2 to_ with
  | Some deps_to_this_dep => let _copy := deps_Remove dep.1 key deps_to_this_dep in to_
  | None => to_
  end.

(** [UpdateDependencies(DataKind, key, deps)] *)
Definition UpdateDependencies (kind : DataKind.t) (key : string) (deps : DependencySet)
    (t : DependencyTracker) : DependencyTracker :=
  let to1 :=
    match map_Get kind key (dependencies_from_ t) with
    | Some current_deps =>
        foldl (remove_dependent key) (dependencies_to_ t) (deps_items current_deps)
    | None => dependencies_to_ t
    end in
  mkTracker (map_Set kind key deps (dependencies_from_ t))
    (foldl (add_dependent kind key) to1 (deps_items deps)).

Definition flag_dependencies (flag : FlagDescriptor) : DependencySet :=
  match item flag with
  | None => empty_deps
  | Some f =>
      foldl (λ deps rule, CalculateClauseDeps (fr_clauses rule) deps)
        (foldl (λ deps p, deps_Set DataKind.kFlag (prereq_key p) deps) empty_deps
           (flag_prerequisites f)) (flag_rules f)
  end.

Definition segment_dependencies (segment : SegmentDescriptor) : DependencySet :=
  match item segment with
  | None => empty_deps
  | Some s => foldl (λ deps rule, CalculateClauseDeps (sr_clauses rule) deps) empty_deps (segment_rules s)
  end.

Definition UpdateFlagDependencies (key : string) (flag : FlagDescriptor) (t : DependencyTracker) :
    DependencyTracker :=
  UpdateDependencies DataKind.kFlag key (flag_dependencies flag) t.

Definition UpdateSegmentDependencies (key : string) (segment : SegmentDescriptor)
    (t : DependencyTracker) : DependencyTracker :=
  UpdateDependencies DataKind.kSegment key (segment_dependencies segment) t.

(** [CalculateChanges]: a depth-first search; [None] when the fuel runs out. *)
Fixpoint CalculateChanges (to_ : DependencyMap) (fuel : nat) (kind : DataKind.t) (key : string)
    (dependency_set : DependencySet) : option DependencySet :=
  match fuel with
  | O => None
  | S fuel' =>
      if deps_Contains kind key dependency_set then Some dependency_set
      else
        let dependency_set := deps_Set kind key dependency_set in
        match map_Get kind key to_ with
        | None => Some dependency_set
        | Some affected_items =>
            foldl (λ acc dep,
              match acc with
              | Some s => CalculateChanges to_ fuel' dep.1 dep.2 s
              | None => None
              end) (Some dependency_set) (deps_items affected_items)
        end
  end.

(** ** Lemmas *)

Definition in_deps (x : DataKind.t * string) (s : DependencySet) : Prop := x.2 ∈ SetForKind x.1 s.

Lemma deps_items_spec x s : x ∈ deps_items s ↔ in_deps x s.
Proof.
  unfold deps_items, in_deps. destruct x as [[] k]; simpl;
    rewrite elem_of_app, !list_elem_of_fmap; setoid_rewrite elem_of_elements; naive_solver.
Qed.

Lemma in_deps_Set x kind key s : in_deps x (deps_Set kind key s) ↔ x = (kind, key) ∨ in_deps x s.
Proof. unfold in_deps. destruct x as [[] k], kind; simpl; set_solver. Qed.

#[global] Instance in_deps_dec x s : Decision (in_deps x s).
Proof. unfold in_deps. apply _. Defined.

Lemma deps_Contains_spec kind key s : deps_Contains kind key s = true ↔ in_deps (kind, key) s.
Proof. unfold deps_Contains, in_deps. by rewrite bool_decide_eq_true. Qed.

(** [y] depends directly on [x], as far as the tracker knows. *)
Definition affects (to_ : DependencyMap) (x y : DataKind.t * string) : Prop :=
  ∃ s, map_Get x.1 x.2 to_ = Some s ∧ in_deps y s.

Lemma deps_eq s t : (∀ x, in_deps x s ↔ in_deps x t) → s = t.
Proof.
  intros H. destruct s as [sf ss], t as [tf ts]. f_equal; apply set_eq; intros k.
  - apply (H (DataKind.kFlag, k)).
  - apply (H (DataKind.kSegment, k)).
Qed.

Definition deps_union (s t : DependencySet) : DependencySet :=
  mkDeps (deps_flags s ∪ deps_flags t) (deps_segments s ∪ deps_segments t).

(** Everything that some entry of the map lists. *)
Definition universe (to_ : DependencyMap) : DependencySet :=
  deps_union (map_fold (λ _ s acc, deps_union s acc) empty_deps (map_flags to_))
             (map_fold (λ _ s acc, deps_union s acc) empty_deps (map_segments to_)).

(** Enough fuel for any search. *)
Definition changes_fuel (to_ : DependencyMap) : nat := S (S (deps_Size (universe to_))).

Lemma in_deps_union x s t : in_deps x (deps_union s t) ↔ in_deps x s ∨ in_deps x t.
Proof. unfold in_deps. destruct x as [[] k]; simpl; set_solver. Qed.

Lemma in_fold_union x (m : gmap string DependencySet) k s :
  m !! k = Some s → in_deps x s → in_deps x (map_fold (λ _ s acc, deps_union s acc) empty_deps m).
Proof.
  revert k s. apply (map_fold_weak_ind (λ acc m, ∀ k s, m !! k = Some s → in_deps x s → in_deps x acc)).
  - intros k s. by rewrite lookup_empty.
  - intros k0 s0 m' acc Hk IH k s. rewrite in_deps_union. destruct (decide (k0 = k)) as [->|].
    + rewrite lookup_insert_eq. intros [= ->]. auto.
    + rewrite lookup_insert_ne by done. eauto.
Qed.

Lemma universe_affects to_ x y : affects to_ x y → in_deps y (universe to_).
Proof.
  intros (s & Hs & Hy). unfold universe. rewrite in_deps_union.
  destruct x as [[] k]; simpl in Hs; [left|right]; by eapply in_fold_union.
Qed.

Lemma size_insert_le (k : string) (A : gset string) : (size ({[k]} ∪ A) ≤ S (size A))%nat.
Proof.
  rewrite size_union_alt, size_singleton. simpl. apply le_n_S, subseteq_size. set_solver.
Qed.

Section Search.
Context (to_ : DependencyMap) (U : DependencySet).
Hypothesis HU : ∀ x y, affects to_ x y → in_deps y U.

Definition unreached (s : DependencySet) : nat :=
  (size (deps_flags U ∖ deps_flags s) + size (deps_segments U ∖ deps_segments s))%nat.

Lemma unreached_mono s t : (∀ x, in_deps x s → in_deps x t) → (unreached t ≤ unreached s)%nat.
Proof using U.
  clear HU to_. intros H. unfold unreached. apply Nat.add_le_mono; apply subseteq_size.
  - pose proof (λ k, H (DataKind.kFlag, k)) as Hf. unfold in_deps in Hf. simpl in Hf. set_solver.
  - pose proof (λ k, H (DataKind.kSegment, k)) as Hf. unfold in_deps in Hf. simpl in Hf. set_solver.
Qed.

Lemma unreached_Set kind key s :
  in_deps (kind, key) U → ¬ in_deps (kind, key) s →
  (unreached (deps_Set kind key s) < unreached s)%nat.
Proof using U.
  clear HU to_. unfold in_deps, unreached. intros HUk Hs. destruct kind; simpl in *.
  - apply Nat.add_lt_mono_r, subset_size. set_solver.
  - apply Nat.add_lt_mono_l, subset_size. set_solver.
Qed.

(** The outcome of searching from the items of [l] with [s] already visited. *)
Definition searched (l : list (DataKind.t * string)) (s s' : DependencySet) : Prop :=
  (∀ x, in_deps x s → in_deps x s') ∧ (∀ x, x ∈ l → in_deps x s') ∧
  (∀ x, in_deps x s' → in_deps x s ∨ ∃ y, y ∈ l ∧ rtc (affects to_) y x) ∧
  (∀ x y, in_deps x s' → ¬ in_deps x s → affects to_ x y → in_deps y s').

Lemma search_list (f : DataKind.t * string → DependencySet → option DependencySet) n l s :
  (∀ x s, x ∈ l → (unreached s < n)%nat → ∃ s', f x s = Some s' ∧ searched [x] s s') →
  (unreached s < n)%nat →
  ∃ s', foldl (λ acc dep, match acc with Some s => f dep s | None => None end) (Some s) l = Some s' ∧
    searched l s s'.
Proof.
  revert s. induction l as [|x l IH]; intros s Hf Hs.
  - exists s. split; [done|]. split_and!; [done| |auto|done]. intros x Hx. by apply elem_of_nil in Hx.
  - simpl. destruct (Hf x s) as (s1 & -> & (M1 & L1 & R1 & C1)); [by left|done|].
    destruct (IH s1) as (s2 & -> & (M2 & L2 & R2 & C2)).
    { intros y t Hy. apply Hf. by right. }
    { eapply Nat.le_lt_trans; [by apply unreached_mono|done]. }
    exists s2. split; [done|]. split_and!.
    + auto.
    + intros y [->|Hy]%elem_of_cons; [|auto]. apply M2, L1. by left.
    + intros y Hy. destruct (R2 y Hy) as [H1|(z & Hz & Hr)].
      * destruct (R1 y H1) as [|(z & Hz & Hr)]; [by left|]. right. exists z.
        apply list_elem_of_singleton in Hz as ->. split; [by left|done].
      * right. exists z. split; [by right|done].
    + intros y z Hy Hn Ha. destruct (decide (in_deps y s1)); eauto.
Qed.

Lemma search_total n kind key s :
  in_deps (kind, key) U → (unreached s < n)%nat →
  ∃ s', CalculateChanges to_ n kind key s = Some s' ∧ searched [(kind, key)] s s'.
Proof.
  revert kind key s. induction n as [|n IH]; intros kind key s Hk Hs; [lia|].
  cbn [CalculateChanges]. destruct (deps_Contains kind key s) eqn:Hc.
  { apply deps_Contains_spec in Hc. exists s. split; [done|].
    split_and!; [done| |auto|done]. intros x Hx. by apply list_elem_of_singleton in Hx as ->. }
  assert (¬ in_deps (kind, key) s) as Hn by (rewrite <- deps_Contains_spec, Hc; done).
  pose proof (unreached_Set kind key s Hk Hn) as Hlt.
  destruct (map_Get kind key to_) as [affected|] eqn:Hg.
  - destruct (search_list (λ dep, CalculateChanges to_ n dep.1 dep.2) n (deps_items affected)
      (deps_Set kind key s)) as (s' & E & (HM & HL & HR & HC)).
    { intros [k2 x2] t Hx%deps_items_spec Ht. apply IH; [|done].
      apply (HU (kind, key)). by exists affected. }
    { lia. }
    exists s'. split; [exact E|]. split_and!.
    + intros x Hx. apply HM, in_deps_Set. auto.
    + intros x Hx. apply list_elem_of_singleton in Hx as ->. apply HM, in_deps_Set. auto.
    + intros x Hx. destruct (HR x Hx) as [[->|]%in_deps_Set|(y & Hy%deps_items_spec & Hr)]; [|by left|].
      * right. exists (kind, key). split; [by left|constructor].
      * right. exists (kind, key). split; [by left|]. eapply rtc_l; [|exact Hr]. by exists affected.
    + intros x y Hx Hxs Ha. destruct (decide (x = (kind, key))) as [->|Hne].
      * apply HL, deps_items_spec. destruct Ha as (a & Ha & Hy). simpl in Ha. by simplify_eq.
      * apply (HC x y Hx); [|done]. rewrite in_deps_Set. tauto.
  - exists (deps_Set kind key s). split; [done|]. split_and!.
    + intros x Hx. apply in_deps_Set. auto.
    + intros x Hx. apply list_elem_of_singleton in Hx as ->. apply in_deps_Set. auto.
    + intros x [->|]%in_deps_Set; [|by left]. right. exists (kind, key). split; [by left|constructor].
    + intros x y [->|]%in_deps_Set Hxs (a & Ha & _); [|done]. simpl in Ha. congruence.
Qed.
End Search.

(** A set of items with everything they affect. *)
Definition closed_under (to_ : DependencyMap) (s : DependencySet) : Prop :=
  ∀ x y, in_deps x s → affects to_ x y → in_deps y s.

(** The search, with enough fuel: everything reachable is added, nothing else. *)
Lemma calculate_changes_reach to_ n kind key s :
  closed_under to_ s → (changes_fuel to_ ≤ n)%nat →
  ∃ s', CalculateChanges to_ n kind key s = Some s' ∧ closed_under to_ s' ∧
    ∀ x, in_deps x s' ↔ in_deps x s ∨ rtc (affects to_) (kind, key) x.
Proof.
  intros Hcl Hn. set (U := deps_Set kind key (universe to_)).
  destruct (search_total to_ U) with (n := n) (kind := kind) (key := key) (s := s)
    as (s' & E & (HM & HL & HR & HC)).
  - intros x y Ha. apply in_deps_Set. right. by eapply universe_affects.
  - apply in_deps_Set. by left.
  - eapply Nat.le_lt_trans; [apply (unreached_mono U empty_deps)|].
    { intros x. unfold in_deps. destruct x as [[] k]; simpl; set_solver. }
    eapply Nat.lt_le_trans; [|exact Hn]. unfold unreached, changes_fuel, U, deps_Size.
    generalize (universe to_). intros V. destruct kind; simpl; rewrite !difference_empty_L.
    + pose proof (size_insert_le key (deps_flags V)). lia.
    + pose proof (size_insert_le key (deps_segments V)). lia.
  - assert (closed_under to_ s') as Hcl'.
    { intros x y Hx Ha. destruct (decide (in_deps x s)); [apply HM; by eapply Hcl|by eapply HC]. }
    exists s'. split_and!; [done|done|]. intros x. split.
    + intros Hx. destruct (HR x Hx) as [|(y & Hy & Hr)]; [by left|].
      apply list_elem_of_singleton in Hy as ->. by right.
    + intros [Hx|Hr]; [by apply HM|].
      assert (in_deps (kind, key) s') as H0 by (apply HL; by left).
      revert H0. clear HL HR. induction Hr as [x|x y z Ha _ IH]; [done|]. intros Hx. apply IH. exact (Hcl' _ _ Hx Ha).
Qed.

(** The set recorded for an item, once it exists, never changes. *)
Lemma add_dependents_keep kind key l to_ x s :
  map_Get x.1 x.2 to_ = Some s → map_Get x.1 x.2 (foldl (add_dependent kind key) to_ l) = Some s.
Proof.
  revert to_. induction l as [|dep l IH]; intros to_ Hx; simpl; [done|]. apply IH.
  unfold add_dependent. destruct (map_Get dep.1 dep.2 to_) eqn:Hd; [done|].
  unfold map_Set. rewrite Hd. destruct dep as [[] d], x as [[] k]; simpl in *; try done;
    (rewrite lookup_insert_ne; [done|intros ->; congruence]).
Qed.

Lemma remove_dependents_keep key l to_ : foldl (remove_dependent key) to_ l = to_.
Proof.
  induction l as [|dep l IH]; simpl; [done|]. unfold remove_dependent at 2.
  by destruct (map_Get _ _ _).
Qed.

(** ** Properties *)

(** C10: the search for the items affected by a change terminates and finds
    exactly the items reachable through the recorded reverse dependencies. *)
Theorem changes_are_reachable (to_ : DependencyMap) (extra : nat) (kind : DataKind.t) (key : string) :
  ∃ s, CalculateChanges to_ (changes_fuel to_ + extra) kind key empty_deps = Some s ∧
    ∀ x, in_deps x s ↔ rtc (affects to_) (kind, key) x.
Proof.
  assert (∀ x, ¬ in_deps x empty_deps) as He.
  { intros [[] k]; unfold in_deps; simpl; set_solver. }
  destruct (calculate_changes_reach to_ (changes_fuel to_ + extra) kind key empty_deps)
    as (s & E & _ & Hs); [by intros x y Hx%He|lia|].
  exists s. split; [done|]. intros x. rewrite Hs. split; [|by right]. by intros [?%He|].
Qed.

(** The reverse dependencies of an item are those of the first update that
    mentions it: later dependents are dropped, and stale ones are kept. *)
Lemma reverse_dependencies_frozen (t : DependencyTracker) kind key deps x s :
  map_Get x.1 x.2 (dependencies_to_ t) = Some s →
  map_Get x.1 x.2 (dependencies_to_ (UpdateDependencies kind key deps t)) = Some s.
Proof.
  intros H. unfold UpdateDependencies. simpl. apply add_dependents_keep.
  destruct (map_Get kind key (dependencies_from_ t)); [|done]. by rewrite remove_dependents_keep.
Qed.

(** So of two flags with the same prerequisite only the first is reported when
    the prerequisite changes. *)
Example second_dependent_lost :
  let t := UpdateDependencies DataKind.kFlag "f2" (deps_Set DataKind.kFlag "p" empty_deps)
             (UpdateDependencies DataKind.kFlag "f1" (deps_Set DataKind.kFlag "p" empty_deps)
                empty_tracker) in
  CalculateChanges (dependencies_to_ t) 4 DataKind.kFlag "p" empty_deps =
  Some (mkDeps {["p"; "f1"]} ∅).
Proof. vm_compute. reflexivity. Qed.
