(* ===== verification/Notifier.v ===== *)
(** * Change notification

    libs/server-sdk/src/data_components/change_notifier/change_notifier.hpp and
    .cpp, over a store that is both its source and its sink, as in
    BackgroundSync and FDv2DataSystem ([change_notifier_(store_, store_)]).

    The trace of emitted signals records with each change set the contents of
    the store at that moment, which is what a listener would read.

    [std::unordered_map] is enumerated in an unspecified order: the class
    [HashOrder] stands for it. *)

From S2P Require Import Prelude DataModel Stores Dependencies.

(** An enumeration of a hash map. *)
Class HashOrder := {
  iterate {A : Type} : gmap string A → list (string * A);
  iterate_perm {A : Type} (m : gmap string A) : iterate m ≡ₚ map_to_list m;
}.

#[global] Instance list_order : HashOrder := {|
  iterate A m := map_to_list m;
  iterate_perm A m := Permutation_refl _;
|}.

Record ChangeNotifier (D : Type) := mkNotifier {
  nt_store : D;
  dependency_tracker_ : DependencyTracker;
  nt_listeners : nat;
  nt_emitted : list (gset string * D);
}.
Arguments mkNotifier {D} _ _ _ _.
Arguments nt_store {D} _.
Arguments dependency_tracker_ {D} _.
Arguments nt_listeners {D} _.
Arguments nt_emitted {D} _.

(** [dependency_tracker_.CalculateChanges]; the search always returns. *)
Definition calculate (t : DependencyTracker) (kind : DataKind.t) (key : string) (s : DependencySet) :
    DependencySet :=
  default s (CalculateChanges (dependencies_to_ t) (changes_fuel (dependencies_to_ t)) kind key s).

Section Notifier.
Context `{!HashOrder} {D : Type} `{!IStore D} `{!Destination D}.
Implicit Types (st : ChangeNotifier D).

Definition OnFlagChange st : ChangeNotifier D :=
  mkNotifier (nt_store st) (dependency_tracker_ st) (S (nt_listeners st)) (nt_emitted st).

Definition HasListeners st : bool := negb (nt_listeners st =? 0)%nat.

(** Only emit an event if there are changes. *)
Definition NotifyChanges (changes : DependencySet) st : ChangeNotifier D :=
  let flag_changes := SetForKind DataKind.kFlag changes in
  if bool_decide (flag_changes = ∅) then st
  else mkNotifier (nt_store st) (dependency_tracker_ st) (nt_listeners st)
         (nt_emitted st ++ [(flag_changes, nt_store st)]).

(** [UpsertCommon], with the tracker's and the sink's overloads for the item. *)
Definition UpsertCommon {T} (kind : DataKind.t) (key : string) (existing : option (ItemDescriptor T))
    (updated : ItemDescriptor T)
    (update_dependencies : DependencyTracker → DependencyTracker)
    (upsert : D → D) st : ChangeNotifier D :=
  if (match existing with Some e => version updated <=? version e | None => false end)
  then st
  else
    let st := mkNotifier (nt_store st) (update_dependencies (dependency_tracker_ st))
                (nt_listeners st) (nt_emitted st) in
    let st :=
      if HasListeners st
      then NotifyChanges (calculate (dependency_tracker_ st) kind key empty_deps) st
      else st in
    mkNotifier (upsert (nt_store st)) (dependency_tracker_ st) (nt_listeners st) (nt_emitted st).

Definition UpsertFlag (key : string) (flag : FlagDescriptor) st : ChangeNotifier D :=
  UpsertCommon DataKind.kFlag key (GetFlag (nt_store st) key) flag
    (UpdateFlagDependencies key flag) (dest_UpsertFlag key flag) st.

Definition UpsertSegment (key : string) (segment : SegmentDescriptor) st : ChangeNotifier D :=
  UpsertCommon DataKind.kSegment key (GetSegment (nt_store st) key) segment
    (UpdateSegmentDependencies key segment) (dest_UpsertSegment key segment) st.

(** The keys that the two loops of [CalculateChanges] do not skip. *)
Definition not_newer {T} (new old : option (ItemDescriptor T)) : bool :=
  match new, old with Some n, Some o => version n <=? version o | _, _ => false end.

Definition changed_keys {T} (existing new : gmap string (ItemDescriptor T)) : list string :=
  (fst <$> filter (λ kd, not_newer (new !! kd.1) (Some kd.2) = false) (iterate existing)) ++
  (fst <$> filter (λ kd, not_newer (Some kd.2) (existing !! kd.1) = false) (iterate new)).

(** [CalculateChanges(kind, existing, new, updated_items)] *)
Definition CollectChanges {T} (t : DependencyTracker) (kind : DataKind.t)
    (existing new : gmap string (ItemDescriptor T)) (updated_items : DependencySet) : DependencySet :=
  foldl (λ acc key, calculate t kind key acc) updated_items (changed_keys existing new).

Definition Init (data_set : SDKDataSet) st : ChangeNotifier D :=
  let t := dependency_tracker_ st in
  let change_notifications :=
    if HasListeners st then
      Some (CollectChanges t DataKind.kSegment (AllSegments (nt_store st)) (ds_segments data_set)
             (CollectChanges t DataKind.kFlag (AllFlags (nt_store st)) (ds_flags data_set) empty_deps))
    else None in
  let t := tracker_Clear t in
  let t := foldl (λ t kd, UpdateFlagDependencies kd.1 kd.2 t) t (iterate (ds_flags data_set)) in
  let t := foldl (λ t kd, UpdateSegmentDependencies kd.1 kd.2 t) t (iterate (ds_segments data_set)) in
  let st := mkNotifier (dest_Init data_set (nt_store st)) t (nt_listeners st) (nt_emitted st) in
  match change_notifications with Some changes => NotifyChanges changes st | None => st end.

(** The items of a full change set, grouped by kind; [emplace] keeps the first. *)
Definition group_flags (l : ChangeSetData) : gmap string FlagDescriptor :=
  foldl (λ m c, match c with
    | FlagChange k d => match m !! k with Some _ => m | None => <[k := d]> m end
    | SegmentChange _ _ => m
    end) ∅ l.

Definition group_segments (l : ChangeSetData) : gmap string SegmentDescriptor :=
  foldl (λ m c, match c with
    | SegmentChange k d => match m !! k with Some _ => m | None => <[k := d]> m end
    | FlagChange _ _ => m
    end) ∅ l.

Definition update_for_change (t : DependencyTracker) (c : ItemChange) : DependencyTracker :=
  match c with
  | FlagChange k d => UpdateFlagDependencies k d t
  | SegmentChange k d => UpdateSegmentDependencies k d t
  end.

Definition change_item (c : ItemChange) : DataKind.t * string :=
  match c with
  | FlagChange k _ => (DataKind.kFlag, k)
  | SegmentChange k _ => (DataKind.kSegment, k)
  end.

Definition Apply (change_set : ChangeSet ChangeSetData) st : ChangeNotifier D :=
  if bool_decide (cs_type change_set = ChangeSetType.kNone) then st
  else
    let t := dependency_tracker_ st in
    let full := bool_decide (cs_type change_set = ChangeSetType.kFull) in
    let change_notifications :=
      if HasListeners st then
        Some (if full then
                CollectChanges t DataKind.kSegment (AllSegments (nt_store st))
                  (group_segments (cs_data change_set))
                  (CollectChanges t DataKind.kFlag (AllFlags (nt_store st))
                     (group_flags (cs_data change_set)) empty_deps)
              else
                foldl (λ acc c, calculate t (change_item c).1 (change_item c).2 acc) empty_deps
                  (cs_data change_set))
      else None in
    let t := if full then tracker_Clear t else t in
    let t := foldl update_for_change t (cs_data change_set) in
    let st := mkNotifier (dest_Apply change_set (nt_store st)) t (nt_listeners st) (nt_emitted st) in
    match change_notifications with Some changes => NotifyChanges changes st | None => st end.
End Notifier.

(** ** Lemmas *)

Lemma calculate_spec t kind key s :
  closed_under (dependencies_to_ t) s →
  closed_under (dependencies_to_ t) (calculate t kind key s) ∧
  ∀ x, in_deps x (calculate t kind key s) ↔
    in_deps x s ∨ rtc (affects (dependencies_to_ t)) (kind, key) x.
Proof.
  intros Hs. unfold calculate.
  destruct (calculate_changes_reach (dependencies_to_ t) (changes_fuel (dependencies_to_ t)) kind key s)
    as (s' & -> & Hc & Hin); [done|done|]. done.
Qed.

Lemma not_in_empty x : ¬ in_deps x empty_deps.
Proof. destruct x as [[] k]; unfold in_deps; simpl; set_solver. Qed.

Lemma closed_empty to_ : closed_under to_ empty_deps.
Proof. by intros x y Hx%not_in_empty. Qed.

(** Searching from several items adds what is reachable from any of them. *)
Lemma calculate_many_spec t (l : list (DataKind.t * string)) s :
  closed_under (dependencies_to_ t) s →
  closed_under (dependencies_to_ t) (foldl (λ acc x, calculate t x.1 x.2 acc) s l) ∧
  ∀ x, in_deps x (foldl (λ acc x, calculate t x.1 x.2 acc) s l) ↔
    in_deps x s ∨ ∃ y, y ∈ l ∧ rtc (affects (dependencies_to_ t)) y x.
Proof.
  revert s. induction l as [|[kind key] l IH]; intros s Hs; simpl.
  - split; [done|]. intros x. split; [by left|]. intros [|(y & Hy & _)]; [done|].
    by apply elem_of_nil in Hy.
  - destruct (calculate_spec t kind key s Hs) as [Hc Hin]. destruct (IH _ Hc) as [Hc' Hin'].
    split; [done|]. intros x. rewrite Hin', Hin. split.
    + intros [[|]|(y & Hy & Hr)]; [by left|right|right].
      * exists (kind, key). split; [by left|done].
      * exists y. split; [by right|done].
    + intros [|(y & Hy & Hr)]; [by auto|]. apply elem_of_cons in Hy as [->|Hy]; eauto.
Qed.

Section Versions.
Context `{!HashOrder}.
Implicit Types (st : ChangeNotifier MemoryStore).

(** What a flag update does to the stored flags. *)
Definition offer {T} (m : gmap string (ItemDescriptor T)) (u : string * ItemDescriptor T) :
    gmap string (ItemDescriptor T) :=
  match m !! u.1 with
  | Some e => if version u.2 <=? version e then m else <[u.1 := u.2]> m
  | None => <[u.1 := u.2]> m
  end.

Lemma UpsertFlag_flags key d st :
  flags_ (nt_store (UpsertFlag key d st)) = offer (flags_ (nt_store st)) (key, d).
Proof.
  unfold UpsertFlag, UpsertCommon, offer. simpl. unfold Memory.GetFlag.
  assert (∀ changes (s : ChangeNotifier MemoryStore), nt_store (NotifyChanges changes s) = nt_store s) as Hn.
  { intros changes s. unfold NotifyChanges. by destruct (bool_decide _). }
  destruct (flags_ (nt_store st) !! key) as [e|]; [destruct (version d <=? version e); [done|]|];
    simpl; (destruct (HasListeners _); [by rewrite Hn|done]).
Qed.

Lemma upserts_flags l st :
  flags_ (nt_store (foldl (λ s u, UpsertFlag u.1 u.2 s) st l)) = foldl offer (flags_ (nt_store st)) l.
Proof.
  revert st. induction l as [|[k d] l IH]; intros st; simpl; [done|]. by rewrite IH, UpsertFlag_flags.
Qed.

(** Descriptors of one key and one version are the same. *)
Definition coherent {T} (f : string → Z → ItemDescriptor T) (m : gmap string (ItemDescriptor T)) : Prop :=
  ∀ k d, m !! k = Some d → d = f k (version d).

Lemma offer_coherent {T} (f : string → Z → ItemDescriptor T) m u : coherent f m → u.2 = f u.1 (version u.2) → coherent f (offer m u).
Proof.
  intros Hm Hu k d. unfold offer.
  assert (∀ d, <[u.1 := u.2]> m !! k = Some d → d = f k (version d)) as Hi.
  { intros d'. destruct (decide (u.1 = k)) as [<-|].
    - rewrite lookup_insert_eq. by intros [= <-].
    - rewrite lookup_insert_ne by done. apply Hm. }
  destruct (m !! u.1) as [e|]; [|apply Hi]. destruct (_ <=? _); [apply Hm|apply Hi].
Qed.

Lemma offer_lookup {T} (m : gmap string (ItemDescriptor T)) u k :
  offer m u !! k =
  if decide (u.1 = k) then
    match m !! k with Some e => if version u.2 <=? version e then Some e else Some u.2 | None => Some u.2 end
  else m !! k.
Proof.
  unfold offer. destruct (decide (u.1 = k)) as [<-|Hne].
  - destruct (m !! u.1) as [e|] eqn:E; [destruct (_ <=? _)|];
      rewrite ?lookup_insert_eq; done.
  - destruct (m !! u.1) as [e|]; [destruct (_ <=? _)|]; rewrite ?lookup_insert_ne; done.
Qed.

Lemma offer_comm {T} (f : string → Z → ItemDescriptor T) m u u' :
  coherent f m → u.2 = f u.1 (version u.2) → u'.2 = f u'.1 (version u'.2) →
  offer (offer m u) u' = offer (offer m u') u.
Proof.
  intros Hm Hu Hu'. apply map_eq. intros k. rewrite !offer_lookup.
  destruct (decide (u.1 = k)) as [<-|], (decide (u'.1 = u.1)) as [He|]; try done.
  rewrite He in Hu'. destruct (m !! u.1) as [e|] eqn:Hl.
  - pose proof (Hm _ _ Hl) as Hd.
    destruct (Z.leb_spec (version u.2) (version e)), (Z.leb_spec (version u'.2) (version e));
      repeat match goal with |- context [?a <=? ?b] => destruct (Z.leb_spec a b) end; try done; try lia.
    f_equal. rewrite Hu, Hu'. f_equal. lia.
  - repeat match goal with |- context [?a <=? ?b] => destruct (Z.leb_spec a b) end; try done; try lia.
    f_equal. rewrite Hu, Hu'. f_equal. lia.
Qed.

Lemma offers_perm {T} (f : string → Z → ItemDescriptor T) l l' m :
  l ≡ₚ l' → coherent f m → Forall (λ u, u.2 = f u.1 (version u.2)) l →
  foldl offer m l = foldl offer m l'.
Proof.
  intros Hp. revert m. induction Hp as [|u l l' _ IH|u u' l|l1 l2 l3 H12 IH1 _ IH2]; intros m Hm HF.
  - done.
  - apply Forall_cons_1 in HF as [Hu HF]. simpl. apply IH; [by apply offer_coherent|done].
  - apply Forall_cons_1 in HF as [Hu [Hu' HF]%Forall_cons_1]. simpl. by rewrite (offer_comm f).
  - rewrite IH1 by done. apply IH2; [done|]. by rewrite <- H12.
Qed.
End Versions.

(** The flags announced for a change of flag [key]. *)
Lemma calculate_flags t key :
  let changes := deps_flags (calculate t DataKind.kFlag key empty_deps) in
  key ∈ changes ∧
  ∀ k, k ∈ changes ↔ rtc (affects (dependencies_to_ t)) (DataKind.kFlag, key) (DataKind.kFlag, k).
Proof.
  destruct (calculate_spec t DataKind.kFlag key empty_deps (closed_empty _)) as [_ Hin].
  assert (∀ k, k ∈ deps_flags (calculate t DataKind.kFlag key empty_deps) ↔
    rtc (affects (dependencies_to_ t)) (DataKind.kFlag, key) (DataKind.kFlag, k)) as H.
  { intros k. rewrite (Hin (DataKind.kFlag, k)). split; [|by right]. by intros [?%not_in_empty|]. }
  split; [|exact H]. apply H. constructor.
Qed.

Lemma UpsertFlag_reject key d (st : ChangeNotifier MemoryStore) :
  not_newer (Some d) (GetFlag (nt_store st) key) = true → UpsertFlag key d st = st.
Proof.
  unfold UpsertFlag, UpsertCommon, not_newer. destruct (GetFlag _ _); [|done]. by intros ->.
Qed.

Lemma UpsertFlag_accept key d (st : ChangeNotifier MemoryStore) :
  not_newer (Some d) (GetFlag (nt_store st) key) = false →
  UpsertFlag key d st =
  let t := UpdateFlagDependencies key d (dependency_tracker_ st) in
  mkNotifier (Memory.UpsertFlag key d (nt_store st)) t (nt_listeners st)
    (if HasListeners st
     then nt_emitted st ++ [(deps_flags (calculate t DataKind.kFlag key empty_deps), nt_store st)]
     else nt_emitted st).
Proof.
  intros Hnew. unfold UpsertFlag, UpsertCommon. unfold not_newer in Hnew. rewrite Hnew. cbv zeta.
  set (t := UpdateFlagDependencies key d (dependency_tracker_ st)).
  unfold HasListeners. cbn [nt_listeners dependency_tracker_].
  destruct (negb _); [|done]. unfold NotifyChanges. cbn [nt_store nt_emitted SetForKind].
  rewrite bool_decide_eq_false_2; [done|]. intros H0.
  destruct (calculate_flags t key) as [Hk _]. rewrite H0 in Hk. by apply not_elem_of_empty in Hk.
Qed.

(** ** Properties *)

(** Flag updates may arrive in any order.  When a key and a version
    determine a descriptor, two sequences of updates that are permutations of
    each other leave the same flags in the store, whoever listens. *)
Theorem upserts_converge `{!HashOrder} (f : string → Z → FlagDescriptor)
  (st st' : ChangeNotifier MemoryStore) (l l' : list (string * FlagDescriptor))
  (Hperm : l ≡ₚ l') (Hst : flags_ (nt_store st) = flags_ (nt_store st'))
  (Hcoh : coherent f (flags_ (nt_store st)))
  (Hl : Forall (λ u, u.2 = f u.1 (version u.2)) l) :
  flags_ (nt_store (foldl (λ s u, UpsertFlag u.1 u.2 s) st l)) =
  flags_ (nt_store (foldl (λ s u, UpsertFlag u.1 u.2 s) st' l')).
Proof. rewrite !upserts_flags, Hst in *. by eapply offers_perm. Qed.

Lemma upserts_converge_witness :
  flags_ (nt_store (foldl (λ s u, UpsertFlag u.1 u.2 s)
    (mkNotifier empty_memory_store empty_tracker 1 []) [("a", tombstone 2); ("a", tombstone 1)])) =
  flags_ (nt_store (foldl (λ s u, UpsertFlag u.1 u.2 s)
    (mkNotifier empty_memory_store empty_tracker 0 []) [("a", tombstone 1); ("a", tombstone 2)])).
Proof.
  apply (upserts_converge (λ _ v, tombstone v)).
  - constructor.
  - reflexivity.
  - intros k d H. discriminate H.
  - repeat constructor.
Defined.

(** An update that is not newer than the stored flag changes nothing and
    notifies nobody.  An accepted one is stored; with a listener, exactly the
    flags reachable from it through the tracker's reverse dependencies are
    announced, the flag itself among them.  The announcement precedes the
    store's update, so a listener that reads the store sees the old data. *)
Theorem upsert_notification `{!HashOrder} (key : string) (d : FlagDescriptor)
  (st : ChangeNotifier MemoryStore) :
  let st' := UpsertFlag key d st in
  let to_ := dependencies_to_ (dependency_tracker_ st') in
  (not_newer (Some d) (GetFlag (nt_store st) key) = true → st' = st) ∧
  (not_newer (Some d) (GetFlag (nt_store st) key) = false →
     GetFlag (nt_store st') key = Some d ∧
     (nt_listeners st = 0%nat → nt_emitted st' = nt_emitted st) ∧
     (nt_listeners st ≠ 0%nat →
        ∃ changes, nt_emitted st' = nt_emitted st ++ [(changes, nt_store st)] ∧
          key ∈ changes ∧
          ∀ k, k ∈ changes ↔ rtc (affects to_) (DataKind.kFlag, key) (DataKind.kFlag, k))).
Proof.
  cbv zeta. split; [apply UpsertFlag_reject|].
  intros Hnew. rewrite (UpsertFlag_accept key d st Hnew).
  cbn [nt_store nt_listeners nt_emitted dependency_tracker_].
  set (t := UpdateFlagDependencies key d (dependency_tracker_ st)).
  destruct (calculate_flags t key) as [Hkey Hin].
  split; [unfold GetFlag, memory_store, Memory.GetFlag; simpl; by rewrite lookup_insert_eq|].
  unfold HasListeners. split.
  - intros Hz. by rewrite Hz.
  - intros Hz%Nat.eqb_neq. rewrite Hz. eexists. split_and!; [reflexivity|done|done].
Qed.

Section InitLemmas.
Context `{!HashOrder}.

Lemma elem_of_iterate {A} (m : gmap string A) k d : (k, d) ∈ iterate m ↔ m !! k = Some d.
Proof. rewrite iterate_perm. apply elem_of_map_to_list. Qed.

(** A key present on one side at least whose new version is not older. *)
Definition item_changed {T} (existing new : gmap string (ItemDescriptor T)) (k : string) : Prop :=
  (is_Some (existing !! k) ∨ is_Some (new !! k)) ∧ not_newer (new !! k) (existing !! k) = false.

Lemma changed_keys_spec {T} (existing new : gmap string (ItemDescriptor T)) k :
  k ∈ changed_keys existing new ↔ item_changed existing new k.
Proof.
  unfold changed_keys, item_changed. rewrite elem_of_app, !list_elem_of_fmap. split.
  - intros [([k' d] & -> & [Hf Hin]%list_elem_of_filter)|([k' d] & -> & [Hf Hin]%list_elem_of_filter)];
      apply elem_of_iterate in Hin; simpl in *; rewrite Hin; eauto.
  - intros [[[d Hd]|[d Hd]] Hn].
    + left. exists (k, d). rewrite Hd in Hn. split; [done|].
      by apply list_elem_of_filter; rewrite elem_of_iterate.
    + right. exists (k, d). rewrite Hd in Hn. split; [done|].
      by apply list_elem_of_filter; rewrite elem_of_iterate.
Qed.

Lemma CollectChanges_spec {T} t kind (existing new : gmap string (ItemDescriptor T)) s :
  closed_under (dependencies_to_ t) s →
  closed_under (dependencies_to_ t) (CollectChanges t kind existing new s) ∧
  ∀ x, in_deps x (CollectChanges t kind existing new s) ↔
    in_deps x s ∨ ∃ k, item_changed existing new k ∧ rtc (affects (dependencies_to_ t)) (kind, k) x.
Proof.
  intros Hs. unfold CollectChanges.
  pose proof (calculate_many_spec t ((λ k, (kind, k)) <$> changed_keys existing new) s Hs) as [Hc Hin].
  rewrite foldl_fmap in Hc, Hin. split; [exact Hc|]. intros x. rewrite Hin.
  setoid_rewrite list_elem_of_fmap. split.
  - intros [|(y & (k & -> & Hk%changed_keys_spec) & Hr)]; eauto.
  - intros [|(k & Hk%changed_keys_spec & Hr)]; eauto 10.
Qed.
End InitLemmas.

(** Initialisation replaces the store's contents by the data set; listeners
    then hear once, after the store has been updated, of exactly the flags that
    are reachable through the old dependencies from an item that was deleted,
    is new, or has a newer version; and not at all when there is none. *)
Theorem init_notification `{!HashOrder} (data_set : SDKDataSet) (st : ChangeNotifier MemoryStore)
  (Hl : nt_listeners st ≠ 0%nat) :
  let st' := Init data_set st in
  let to_ := dependencies_to_ (dependency_tracker_ st) in
  nt_store st' = mkMemoryStore (ds_flags data_set) (ds_segments data_set) true ∧
  ∃ changes : gset string,
    nt_emitted st' =
      (if bool_decide (changes = ∅) then nt_emitted st
       else nt_emitted st ++ [(changes, nt_store st')]) ∧
    ∀ k, k ∈ changes ↔
      (∃ j, item_changed (AllFlags (nt_store st)) (ds_flags data_set) j ∧
            rtc (affects to_) (DataKind.kFlag, j) (DataKind.kFlag, k)) ∨
      (∃ j, item_changed (AllSegments (nt_store st)) (ds_segments data_set) j ∧
            rtc (affects to_) (DataKind.kSegment, j) (DataKind.kFlag, k)).
Proof.
  cbv zeta. unfold Init, HasListeners. apply Nat.eqb_neq in Hl. rewrite Hl. cbn [negb].
  set (t := dependency_tracker_ st).
  destruct (CollectChanges_spec t DataKind.kFlag (AllFlags (nt_store st)) (ds_flags data_set) empty_deps
    (closed_empty _)) as [Hc1 Hin1].
  set (s1 := CollectChanges t DataKind.kFlag _ _ _) in *.
  destruct (CollectChanges_spec t DataKind.kSegment (AllSegments (nt_store st)) (ds_segments data_set) s1 Hc1)
    as [_ Hin2].
  set (s2 := CollectChanges t DataKind.kSegment _ _ _) in *.
  assert (∀ t', nt_store (NotifyChanges s2 (mkNotifier (dest_Init data_set (nt_store st)) t'
    (nt_listeners st) (nt_emitted st))) =
    mkMemoryStore (ds_flags data_set) (ds_segments data_set) true) as Hstore.
  { intros t'. assert (dest_Init data_set (nt_store st) =
      mkMemoryStore (ds_flags data_set) (ds_segments data_set) true) as HI.
    { unfold dest_Init, memory_destination, Memory.Init. by rewrite !map_fold_emplace. }
    unfold NotifyChanges. by destruct (bool_decide _). }
  split; [apply Hstore|]. exists (deps_flags s2). split.
  - rewrite Hstore. unfold NotifyChanges. cbn [SetForKind]. case_bool_decide; [done|].
    cbn [nt_emitted nt_store]. do 3 f_equal. unfold dest_Init, memory_destination, Memory.Init.
    by rewrite !map_fold_emplace.
  - intros k. rewrite (Hin2 (DataKind.kFlag, k)), (Hin1 (DataKind.kFlag, k)). split.
    + intros [[?%not_in_empty|]|]; [done|by left|by right].
    + intros [|]; auto.
Qed.

Lemma init_notification_witness :
  let st := mkNotifier empty_memory_store empty_tracker 1 [] in
  let data_set := mkDataSet {["f" := tombstone 1]} ∅ in
  nt_store (Init data_set st) = mkMemoryStore {["f" := tombstone 1]} ∅ true.
Proof.
  cbv zeta.
  destruct (init_notification (mkDataSet {["f" := tombstone 1]} ∅)
    (mkNotifier empty_memory_store empty_tracker 1 []) ltac:(discriminate)) as [Hs _]. exact Hs.
Defined.
