(* ===== verification/EventBuffers.v ===== *)
(** * The event processor's buffers

    libs/internal: events/detail/summarizer.hpp and src/events/summarizer.cpp,
    lru_cache.hpp/.cpp, outbox.hpp/.cpp. *)

From S2P Require Import Prelude Values Contexts EventData.
#[local] Open Scope Z_scope.

(** ** [Summarizer] *)

(** [std::int32_t count_]; [None] after a signed overflow. *)
Record VariationSummary := mkSummary { summary_count_ : option Z; summary_value_ : Value }.

(** [VariationKey]: version and variation.  Its [operator<] is a total order on
    the pairs, so keys are equivalent exactly when they are equal. *)
Abbreviation VariationKey := (option Z * option Z)%type.

Record SummaryState := mkSummaryState {
  ss_default_ : Value;
  context_kinds : gset string;
  counters : gmap VariationKey VariationSummary;
}.

Record Summarizer := mkSummarizer {
  start_time_ : Date;
  end_time_ : Date;
  features_ : gmap string SummaryState;
}.

Definition new_summarizer (start : Date) : Summarizer := mkSummarizer start 0 ∅.

Definition Summarizer_Empty (s : Summarizer) : bool := bool_decide (features_ s = ∅).

Definition Increment (v : VariationSummary) : VariationSummary :=
  mkSummary (match summary_count_ v with
             | Some c => if c <? 2 ^ 31 - 1 then Some (c + 1) else None
             | None => None
             end) (summary_value_ v).

(** [Summarizer::Update]: [try_emplace] keeps the state and the counter that
    are already there. *)
Definition Update (s : Summarizer) (event : FeatureEventParams) : Summarizer :=
  let state := default (mkSummaryState (fe_default event) ∅ ∅) (features_ s !! fe_key event) in
  let kinds := list_to_set (Context_Kinds (fe_context event)) ∪ context_kinds state in
  let key := (fe_version event, fe_variation event) in
  let counter := default (mkSummary (Some 0) (fe_value event)) (counters state !! key) in
  mkSummarizer (start_time_ s) (end_time_ s)
    (<[fe_key event :=
         mkSummaryState (ss_default_ state) kinds (<[key := Increment counter]> (counters state))]>
       (features_ s)).

Definition Finish (s : Summarizer) (end_time : Date) : Summarizer :=
  mkSummarizer (start_time_ s) end_time (features_ s).

(** ** [LRUCache] *)

(** The keys of [map_], and [list_] from front to back. *)
Record LRUCache := mkLRU {
  lru_capacity_ : nat;
  lru_map_ : gset string;
  lru_list_ : list string;
}.

Definition new_lru (capacity : nat) : LRUCache := mkLRU capacity ∅ [].

(** The loop [while (map_.size() >= capacity_)] over the list from the back;
    [None] stands for [back()] of an empty list. *)
Fixpoint evict (capacity : nat) (map_ : gset string) (from_back : list string) :
    option (gset string * list string) :=
  if (capacity <=? size map_)%nat then
    match from_back with
    | [] => None
    | back :: rest => evict capacity (map_ ∖ {[back]}) rest
    end
  else Some (map_, from_back).

(** [LRUCache::Notice] *)
Definition Notice (value : string) (c : LRUCache) : option (LRUCache * bool) :=
  if bool_decide (value ∈ lru_map_ c) then
    Some (mkLRU (lru_capacity_ c) (lru_map_ c)
            (value :: filter (λ x, x ≠ value) (lru_list_ c)), true)
  else
    match evict (lru_capacity_ c) (lru_map_ c) (reverse (lru_list_ c)) with
    | None => None
    | Some (m, from_back) =>
        Some (mkLRU (lru_capacity_ c) ({[value]} ∪ m) (value :: reverse from_back), false)
    end.

Definition LRU_Clear (c : LRUCache) : LRUCache := mkLRU (lru_capacity_ c) ∅ [].
Definition LRU_Size (c : LRUCache) : nat := length (lru_list_ c).

(** ** [Outbox] *)

Record Outbox (E : Type) := mkOutbox { items_ : list E; outbox_capacity_ : nat }.
Arguments mkOutbox {E} _ _.
Arguments items_ {E} _.
Arguments outbox_capacity_ {E} _.

Section Outbox.
Context {E : Type}.

Definition new_outbox (capacity : nat) : Outbox E := mkOutbox [] capacity.

Definition Push (item : E) (o : Outbox E) : Outbox E * bool :=
  if (outbox_capacity_ o <=? length (items_ o))%nat then (o, false)
  else (mkOutbox (items_ o ++ [item]) (outbox_capacity_ o), true).

Fixpoint PushDiscardingOverflow (items : list E) (o : Outbox E) : Outbox E * bool :=
  match items with
  | [] => (o, true)
  | item :: items' =>
      let '(o', accepted) := Push item o in
      if accepted then PushDiscardingOverflow items' o' else (o', false)
  end.

Definition Consume (o : Outbox E) : Outbox E * list E := (mkOutbox [] (outbox_capacity_ o), items_ o).

Definition Outbox_Empty (o : Outbox E) : bool := match items_ o with [] => true | _ => false end.

(** What is accepted is a prefix of what is offered, cut at the capacity. *)
Lemma PushDiscardingOverflow_spec items o :
  (length (items_ o) ≤ outbox_capacity_ o)%nat →
  PushDiscardingOverflow items o =
  (mkOutbox (items_ o ++ take (outbox_capacity_ o - length (items_ o)) items) (outbox_capacity_ o),
   (length (items_ o) + length items <=? outbox_capacity_ o)%nat).
Proof.
  destruct o as [l cap]. simpl. revert l. induction items as [|x items IH]; intros l Hl; simpl.
  - rewrite take_nil, app_nil_r, Nat.add_0_r. f_equal. symmetry. by apply Nat.leb_le.
  - unfold Push. simpl. destruct (Nat.leb_spec cap (length l)).
    + assert (cap = length l) as -> by lia. rewrite Nat.sub_diag, take_0, app_nil_r. f_equal.
      symmetry. apply Nat.leb_gt. lia.
    + rewrite IH by (rewrite length_app; simpl; lia). rewrite length_app. simpl.
      destruct (cap - length l)%nat as [|n] eqn:E'; [lia|].
      replace (cap - (length l + 1))%nat with n by lia. simpl. rewrite <- app_assoc. simpl.
      f_equal. f_equal. lia.
Qed.
End Outbox.

(** ** Lemmas on the summarizer *)

(** The events of a flag, and those of one of its counters. *)
Definition for_flag (key : string) (e : FeatureEventParams) : Prop := fe_key e = key.
Definition for_counter (key : string) (vk : VariationKey) (e : FeatureEventParams) : Prop :=
  fe_key e = key ∧ (fe_version e, fe_variation e) = vk.

#[global] Instance for_flag_dec key e : Decision (for_flag key e).
Proof. unfold for_flag. apply _. Defined.
#[global] Instance for_counter_dec key vk e : Decision (for_counter key vk e).
Proof. unfold for_counter. apply _. Defined.

(** What the summary of [events] says about flag [key]. *)
Definition summary_ok (events : list FeatureEventParams) (key : string) (o : option SummaryState) : Prop :=
  match filter (for_flag key) events with
  | [] => o = None
  | first :: _ =>
      ∃ st, o = Some st ∧ ss_default_ st = fe_default first ∧
      (∀ k, k ∈ context_kinds st ↔
         ∃ e, e ∈ events ∧ fe_key e = key ∧ k ∈ Context_Kinds (fe_context e)) ∧
      ∀ vk : VariationKey, counters st !! vk =
        match filter (for_counter key vk) events with
        | [] => None
        | e :: rest => Some (mkSummary (Some (Z.of_nat (S (length rest)))) (fe_value e))
        end
  end.

Lemma counter_filter_nil key vk events :
  filter (for_flag key) events = [] → filter (for_counter key vk) events = [].
Proof.
  intros H. induction events as [|e events IH]; [done|]. rewrite filter_cons in H.
  destruct (decide (for_flag key e)) as [|Hn]; [done|]. rewrite filter_cons.
  destruct (decide (for_counter key vk e)) as [[? _]|_]; [done|by apply IH].
Qed.

Lemma counter_filter_le key vk events : (length (filter (for_counter key vk) events) ≤ length events)%nat.
Proof. apply length_filter. Qed.

(** Counting one more event. *)
Lemma Increment_count (key : string) (vk : VariationKey) (events : list FeatureEventParams) (e : FeatureEventParams) (cs : gmap VariationKey VariationSummary) :
  fe_key e = key → Z.of_nat (length events) < 2 ^ 31 - 1 →
  (∀ vk : VariationKey, cs !! vk =
    match filter (for_counter key vk) events with
    | [] => None
    | e :: rest => Some (mkSummary (Some (Z.of_nat (S (length rest)))) (fe_value e))
    end) →
  let vk0 := (fe_version e, fe_variation e) in
  <[vk0 := Increment (default (mkSummary (Some 0) (fe_value e)) (cs !! vk0))]> cs !! vk =
  match filter (for_counter key vk) (events ++ [e]) with
  | [] => None
  | e :: rest => Some (mkSummary (Some (Z.of_nat (S (length rest)))) (fe_value e))
  end.
Proof.
  intros Hkey Hlen Hcs vk0. rewrite filter_app, filter_cons, filter_nil.
  destruct (decide (vk0 = vk)) as [<-|Hne].
  - rewrite lookup_insert_eq, decide_True by done. rewrite Hcs.
    pose proof (counter_filter_le key vk0 events) as Hle.
    destruct (filter (for_counter key vk0) events) as [|e' rest]; [done|].
    simpl. unfold Increment. simpl in *. rewrite (proj2 (Z.ltb_lt _ _)) by lia.
    do 3 f_equal. rewrite length_app. simpl. lia.
  - rewrite lookup_insert_ne by done. rewrite decide_False, app_nil_r by (intros [_ ?]; done). apply Hcs.
Qed.

Lemma Update_ok events s e :
  Z.of_nat (length events) < 2 ^ 31 - 1 →
  (∀ key, summary_ok events key (features_ s !! key)) →
  ∀ key, summary_ok (events ++ [e]) key (features_ (Update s e) !! key).
Proof.
  intros Hlen Hs key. specialize (Hs key). unfold Update. cbn [features_]. unfold summary_ok in *.
  rewrite filter_app, filter_cons, filter_nil. destruct (decide (fe_key e = key)) as [Hk|Hk].
  - rewrite decide_True by done. rewrite Hk, lookup_insert_eq.
    destruct (filter (for_flag key) events) as [|first rest] eqn:Hf.
    + rewrite Hs. simpl. eexists. split_and!; [done|done| |].
      * intros k. simpl. rewrite union_empty_r_L, elem_of_list_to_set. split.
        -- intros Hin. exists e. split_and!; [apply elem_of_app; right; by left|done|done].
        -- intros (e' & [Hin|Hin]%elem_of_app & Hke & Hin').
           ++ exfalso. assert (e' ∈ filter (for_flag key) events) as Hx
                by (by apply list_elem_of_filter). rewrite Hf in Hx. by apply elem_of_nil in Hx.
           ++ by apply list_elem_of_singleton in Hin as ->.
      * intros vk. apply Increment_count; [done|done|]. intros vk'.
        by rewrite counter_filter_nil, lookup_empty.
    + destruct Hs as (st & -> & Hd & Hkinds & Hc). simpl. eexists. split_and!; [done|done| |].
      * intros k. simpl. rewrite elem_of_union, elem_of_list_to_set, Hkinds. split.
        -- intros [Hin|(e' & Hin & He')].
           ++ exists e. split_and!; [apply elem_of_app; right; by left|done|done].
           ++ exists e'. split; [apply elem_of_app; by left|done].
        -- intros (e' & [Hin|Hin]%elem_of_app & Hke & Hin').
           ++ right. by exists e'.
           ++ left. by apply list_elem_of_singleton in Hin as ->.
      * intros vk. by apply Increment_count.
  - rewrite decide_False by done. rewrite app_nil_r, lookup_insert_ne by done.
    destruct (filter (for_flag key) events) as [|first rest]; [done|].
    destruct Hs as (st & -> & Hd & Hkinds & Hc). exists st. split_and!; [done|done| |].
    + intros k. rewrite Hkinds. split; intros (e' & Hin & Hke & Hin'); exists e'.
      * split; [apply elem_of_app; by left|done].
      * split; [|done]. apply elem_of_app in Hin as [|Hin]; [done|].
        by apply list_elem_of_singleton in Hin as ->.
    + intros vk. rewrite Hc, filter_app, filter_cons, filter_nil.
      rewrite decide_False, app_nil_r by (intros [? _]; done). done.
Qed.

Lemma summary_counts (start : Date) (events : list FeatureEventParams) :
  Z.of_nat (length events) < 2 ^ 31 → ∀ key,
  summary_ok events key (features_ (foldl Update (new_summarizer start) events) !! key).
Proof.
  intros Hlen. induction events as [|e events IH] using rev_ind; intros key.
  - unfold summary_ok. simpl. by rewrite lookup_empty.
  - rewrite length_app in Hlen. simpl in Hlen. rewrite foldl_app. simpl.
    apply Update_ok; [lia|]. apply IH. lia.
Qed.

(** ** Lemmas on the cache *)

(** A history of values, most recent first, without repetitions. *)
Fixpoint recency (history : list string) : list string :=
  match history with
  | [] => []
  | v :: h => v :: filter (λ x, x ≠ v) (recency h)
  end.

Definition lru_ok (c : LRUCache) : Prop :=
  lru_map_ c = list_to_set (lru_list_ c) ∧ NoDup (lru_list_ c) ∧
  (length (lru_list_ c) ≤ lru_capacity_ c)%nat.

Lemma NoDup_recency h : NoDup (recency h).
Proof.
  induction h as [|v h IH]; simpl; constructor.
  - rewrite list_elem_of_filter. by intros [? _].
  - by apply NoDup_filter.
Qed.

(** Removing an element of the first [n] before cutting at [n - 1]. *)
Lemma take_filter_ne (l : list string) v n :
  NoDup l →
  take n (filter (λ x, x ≠ v) l) =
  if decide (v ∈ take (S n) l) then filter (λ x, x ≠ v) (take (S n) l) else take n l.
Proof.
  revert n. induction l as [|x l IH]; intros n Hnd.
  - destruct n; [done|]. by case_decide.
  - apply NoDup_cons in Hnd as [Hx Hnd]. rewrite filter_cons. destruct (decide (x ≠ v)) as [Hne|Heq].
    + destruct n as [|n].
      { simpl. case_decide as Hd; [|done]. apply list_elem_of_singleton in Hd. congruence. }
      rewrite (firstn_cons (S n)), (firstn_cons n), IH by done. rewrite firstn_cons.
      destruct (decide (v ∈ take (S n) l)) as [Hin|Hin].
      * rewrite decide_True by (by right). by rewrite filter_cons, decide_True.
      * rewrite decide_False; [done|]. intros [|]%elem_of_cons; congruence.
    + apply dec_stable in Heq as ->. rewrite firstn_cons, decide_True by (by left).
      rewrite filter_cons, decide_False by (intros H; by apply H).
      assert (∀ k : list string, v ∉ k → filter (λ x, x ≠ v) k = k) as Hid.
      { intros k. induction k as [|y k IHk]; intros Hk; [done|].
        rewrite filter_cons, decide_True by set_solver. f_equal. apply IHk. set_solver. }
      rewrite !Hid; [done| |done]. intros Hin. apply Hx. rewrite <- (take_drop n l). apply elem_of_app. by left.
Qed.

Lemma NoDup_take {A} n (l : list A) : NoDup l → NoDup (take n l).
Proof. rewrite <- (take_drop n l) at 1. by intros [? _]%NoDup_app. Qed.

Lemma evict_spec n l :
  NoDup l → (length l ≤ S n)%nat →
  evict (S n) (list_to_set l) (reverse l) = Some (list_to_set (take n l), reverse (take n l)).
Proof.
  intros Hnd Hlen.
  assert (∀ k : list string, NoDup k → (length k ≤ n)%nat →
    evict (S n) (list_to_set k) (reverse k) = Some (list_to_set k, reverse k)) as Hstop.
  { intros k Hk Hkn. destruct (reverse k); cbn [evict];
      rewrite size_list_to_set by done; by rewrite (proj2 (Nat.leb_gt _ _)) by lia. }
  destruct (decide (length l ≤ n)%nat) as [Hle|Hgt].
  { rewrite take_ge by done. by apply Hstop. }
  destruct l as [|last k _] using rev_ind; [simpl in Hgt; lia|].
  rewrite length_app in Hlen, Hgt. simpl in Hlen, Hgt.
  rewrite take_app_le, take_ge, reverse_snoc by lia. cbn [evict].
  rewrite size_list_to_set, length_app by done. rewrite (proj2 (Nat.leb_le _ _)) by (simpl; lia).
  apply NoDup_app in Hnd as (Hk & Hdisj & _). specialize (λ x H, Hdisj x H).
  rewrite <- Hstop by (done || lia). f_equal. rewrite list_to_set_app_L. simpl.
  assert (last ∉ k) by (intros Hin; apply (Hdisj last Hin); by left). set_solver.
Qed.

(** Noticing the values of a history, oldest last. *)
Fixpoint notice_all (capacity : nat) (history : list string) : option LRUCache :=
  match history with
  | [] => Some (new_lru capacity)
  | v :: h =>
      match notice_all capacity h with
      | Some c => match Notice v c with Some (c', _) => Some c' | None => None end
      | None => None
      end
  end.

Lemma Notice_spec n v h c :
  c = mkLRU (S n) (list_to_set (take (S n) (recency h))) (take (S n) (recency h)) →
  Notice v c =
  Some (mkLRU (S n) (list_to_set (take (S n) (recency (v :: h)))) (take (S n) (recency (v :: h))),
        bool_decide (v ∈ take (S n) (recency h))).
Proof.
  intros ->. unfold Notice. cbn [lru_map_ lru_list_ lru_capacity_ recency].
  pose proof (NoDup_recency h) as Hnd. rewrite firstn_cons, take_filter_ne by done.
  rewrite (bool_decide_ext _ (v ∈ take (S n) (recency h))) by (by rewrite elem_of_list_to_set).
  set (l := take (S n) (recency h)).
  assert (NoDup l) as Hl by (by apply NoDup_take).
  destruct (decide (v ∈ l)) as [Hin|Hin].
  - rewrite bool_decide_eq_true_2 by done. do 3 f_equal. apply set_eq. intros x.
    rewrite list_to_set_cons, elem_of_union, elem_of_singleton, !elem_of_list_to_set, list_elem_of_filter.
    destruct (decide (x = v)) as [->|]; tauto.
  - rewrite bool_decide_eq_false_2 by done. rewrite evict_spec; [|done|].
    + unfold l. rewrite take_take, Nat.min_l by lia. rewrite reverse_involutive.
      do 3 f_equal.
    + unfold l. rewrite length_take. lia.
Qed.

Lemma notice_all_spec n h :
  notice_all (S n) h =
  Some (mkLRU (S n) (list_to_set (take (S n) (recency h))) (take (S n) (recency h))).
Proof.
  induction h as [|v h IH]; [done|]. cbn [notice_all]. rewrite IH. by rewrite (Notice_spec n v h).
Qed.

(** ** Properties *)

(** A summary counts exactly what it was given.  For fewer than 2^31 events,
    each flag's summary has the default of its first event, the union of the
    kinds of its contexts, and for each version and variation the number of
    events with them and the value of the first. *)
Theorem summary_exact (start : Date) (events : list FeatureEventParams)
  (Hlen : Z.of_nat (length events) < 2 ^ 31) (key : string) :
  summary_ok events key (features_ (foldl Update (new_summarizer start) events) !! key).
Proof. by apply summary_counts. Qed.

Definition example_event (key : string) (v : Z) : FeatureEventParams :=
  mkFeatureParams 0 key (invalid_context EmptyString) (VBool true) VNull (Some 1) (Some v) None false None None.

Lemma summary_exact_witness :
  summary_ok [example_event "f" 0; example_event "f" 1; example_event "f" 0] "f"
    (features_ (foldl Update (new_summarizer 0)
      [example_event "f" 0; example_event "f" 1; example_event "f" 0]) !! "f").
Proof. apply summary_exact. vm_compute. reflexivity. Defined.

(** The cache of context keys is an LRU set.  With a positive capacity it
    never runs into an empty list, it holds the [capacity] most recently noticed
    distinct values, most recent first, and [Notice] answers whether the value
    was among them. *)
Theorem lru_cache_refines (capacity : nat) (Hcap : (0 < capacity)%nat) (history : list string) :
  ∃ c, notice_all capacity history = Some c ∧ lru_ok c ∧
    lru_list_ c = take capacity (recency history) ∧
    ∀ v, ∃ c', Notice v c = Some (c', bool_decide (v ∈ take capacity (recency history))).
Proof.
  destruct capacity as [|n]; [lia|]. rewrite notice_all_spec. eexists. split_and!; [done| |done|].
  - split_and!; cbn [lru_map_ lru_list_ lru_capacity_]; [done|apply NoDup_take, NoDup_recency|].
    rewrite length_take. lia.
  - intros v. rewrite (Notice_spec n v history) by done. eauto.
Qed.

Lemma lru_cache_refines_witness :
  ∃ c, notice_all 2 ["a"; "b"; "a"; "c"] = Some c ∧ lru_ok c ∧
    lru_list_ c = take 2 (recency ["a"; "b"; "a"; "c"]) ∧
    ∀ v, ∃ c', Notice v c = Some (c', bool_decide (v ∈ take 2 (recency ["a"; "b"; "a"; "c"]))).
Proof. apply lru_cache_refines. lia. Defined.

(** A cache without capacity fails on its first value. *)
Example lru_zero_capacity : Notice "a" (new_lru 0) = None.
Proof. reflexivity. Qed.
