(* ===== verification/EventDelivery.v ===== *)
(** * Event delivery

    libs/internal/src/events: request_worker.cpp, worker_pool.cpp and
    asio_event_processor.cpp, with their headers.

    A worker is driven by four things: a batch to deliver, the response to a
    request, the retry timer firing, and the timer being cancelled.  The
    processor is driven by [SendAsync] on any thread and by the handlers of its
    strand, which run one at a time in the order they were posted. *)

From S2P Require Import Prelude Doubles Values Contexts Reasons EventData EventBuffers.
#[local] Open Scope Z_scope.

(** ** HTTP results *)

(** [boost::beast::http::status_class] *)
Module StatusClass.
Inductive t := unknown | informational | successful | redirection | client_error | server_error.
#[global] Instance eq_dec : EqDecision t.
Proof. solve_decision. Defined.
End StatusClass.

(** [boost::beast::http::to_status_class]. *)
Class BoostStatus := to_status_class : Z → StatusClass.t.

Class BoostStatusSpec (B : BoostStatus) : Prop := {
  status_class_successful : ∀ s, to_status_class s = StatusClass.successful ↔ 200 ≤ s < 300;
  status_class_client_error : ∀ s, to_status_class s = StatusClass.client_error ↔ 400 ≤ s < 500;
}.

(** [network::HttpResult]: what the worker reads of it. *)
Record HttpResult := mkHttpResult {
  http_IsError : bool;
  http_Status : Z;
  http_date : option string;  (* the Date header *)
}.

(** ** [RequestWorker] *)

Module WorkerState.
Inductive t := Idle | FirstChance | SecondChance | PermanentlyFailed.
#[global] Instance eq_dec : EqDecision t.
Proof. solve_decision. Defined.
End WorkerState.

Module Action.
Inductive t := None_ | Reset | ParseDateAndReset | Retry | NotifyPermanentFailure.
#[global] Instance eq_dec : EqDecision t.
Proof. solve_decision. Defined.
End Action.

Section Policy.
Context `{B : BoostStatus}.

Definition IsTransientFailure (result : HttpResult) : bool :=
  let status := http_Status result in
  if http_IsError result || negb (bool_decide (to_status_class status = StatusClass.client_error))
  then true
  else (status =? 400) || (status =? 408) || (status =? 429) || (status =? 413).

Definition IsRetryable (status : Z) : bool := negb (status =? 413).

Definition IsSuccess (result : HttpResult) : bool :=
  negb (http_IsError result) &&
  bool_decide (to_status_class (http_Status result) = StatusClass.successful).

Definition NextState (state : WorkerState.t) (result : HttpResult) : WorkerState.t * Action.t :=
  match state with
  | WorkerState.Idle => (state, Action.None_)
  | WorkerState.PermanentlyFailed => (state, Action.None_)
  | WorkerState.FirstChance =>
      if IsSuccess result then (WorkerState.Idle, Action.ParseDateAndReset)
      else if IsTransientFailure result then
        if IsRetryable (http_Status result)
        then (WorkerState.SecondChance, Action.Retry)
        else (WorkerState.Idle, Action.Reset)
      else (WorkerState.PermanentlyFailed, Action.NotifyPermanentFailure)
  | WorkerState.SecondChance =>
      if IsSuccess result then (WorkerState.Idle, Action.ParseDateAndReset)
      else if IsTransientFailure result then (WorkerState.Idle, Action.Reset)
      else (WorkerState.PermanentlyFailed, Action.NotifyPermanentFailure)
  end.
End Policy.

(** [DeliveryResult] *)
Inductive DeliveryResult :=
| PermanentFailureResult (status : Z)
| ServerTimeResult (time : Date).

Record RequestWorker (Batch : Type) := mkWorker {
  state_ : WorkerState.t;
  batch_ : option Batch;
  date_header_locale_ : bool;
}.
Arguments mkWorker {Batch} _ _ _.
Arguments state_ {Batch} _.
Arguments batch_ {Batch} _.
Arguments date_header_locale_ {Batch} _.

Section Worker.
Context `{B : BoostStatus} {Batch : Type}.
(** [ParseDateHeader] (it reads the header with [std::get_time]). *)
Context (ParseDateHeader : string → option Date).

Definition new_worker (locale : bool) : RequestWorker Batch := mkWorker WorkerState.Idle None locale.

Definition Available (w : RequestWorker Batch) : bool := bool_decide (state_ w = WorkerState.Idle).

(** [AsyncDeliver]: the request is sent at once. *)
Definition AsyncDeliver (batch : Batch) (w : RequestWorker Batch) : RequestWorker Batch :=
  mkWorker WorkerState.FirstChance (Some batch) (date_header_locale_ w).

(** [OnDeliveryAttempt]: the worker, whether the retry timer is started, and
    the invocation of the callback, if any. *)
Definition OnDeliveryAttempt (result : HttpResult) (w : RequestWorker Batch) :
    RequestWorker Batch * bool * option DeliveryResult :=
  let '(next_state, action) := NextState (state_ w) result in
  let loc := date_header_locale_ w in
  match action with
  | Action.None_ => (mkWorker next_state (batch_ w) loc, false, None)
  | Action.Reset => (mkWorker next_state None loc, false, None)
  | Action.NotifyPermanentFailure =>
      (mkWorker next_state None loc, false, Some (PermanentFailureResult (http_Status result)))
  | Action.ParseDateAndReset =>
      let callback :=
        if loc then
          match http_date result with
          | Some date =>
              match ParseDateHeader date with
              | Some server_time => Some (ServerTimeResult server_time)
              | None => None
              end
          | None => None
          end
        else None in
      (mkWorker next_state None loc, false, callback)
  | Action.Retry => (mkWorker next_state (batch_ w) loc, true, None)
  end.

(** The worker with its environment: requests without a response, whether the
    retry timer is running, the requests sent for the current batch. *)
Record WorkerSystem := mkWorkerSystem {
  ws_worker : RequestWorker Batch;
  ws_in_flight : nat;
  ws_timer : bool;
  ws_sent : nat;
}.

Definition worker_start (locale : bool) : WorkerSystem := mkWorkerSystem (new_worker locale) 0 false 0.

Inductive worker_step : WorkerSystem → WorkerSystem → Prop :=
| step_deliver w n timer sent batch :
    (* the pool hands out available workers only *)
    Available w = true →
    worker_step (mkWorkerSystem w n timer sent) (mkWorkerSystem (AsyncDeliver batch w) (S n) timer 1)
| step_response w n timer sent result w' retry cb :
    OnDeliveryAttempt result w = (w', retry, cb) →
    worker_step (mkWorkerSystem w (S n) timer sent) (mkWorkerSystem w' n (timer || retry) sent)
| step_retry w n sent :
    (* the timer fires: the batch is requested again *)
    worker_step (mkWorkerSystem w n true sent) (mkWorkerSystem w (S n) false (S sent))
| step_cancel w n sent :
    worker_step (mkWorkerSystem w n true sent) (mkWorkerSystem w n false sent).

(** [WorkerPool::Get]: the first available worker. *)
Fixpoint pool_Get (workers : list (RequestWorker Batch)) : option nat :=
  match workers with
  | [] => None
  | w :: rest =>
      if Available w then Some 0%nat
      else match pool_Get rest with Some i => Some (S i) | None => None end
  end.
End Worker.

(** ** Output events *)

(** What [ContextFilter] offers to the processor: contexts as redacted JSON. *)
Class Filtering (J : Type) := {
  Filter : Context → J;
  FilterWithAnonymousRedaction : Context → J;
}.

Record FeatureEventBase := mkFeatureBase {
  fb_creation_date : Date;
  fb_key : string;
  fb_version : option Z;
  fb_variation : option Z;
  fb_value : Value;
  fb_reason : option EvaluationReason;
  fb_default : Value;
  fb_prereq_of : option string;
}.

(** [FeatureEventBase(FeatureEventParams)] *)
Definition feature_base (p : FeatureEventParams) : FeatureEventBase :=
  mkFeatureBase (fe_creation_date p) (fe_key p) (fe_version p) (fe_variation p) (fe_value p)
    (fe_reason p) (fe_default p) (fe_prereq_of p).

Inductive OutputEvent (J : Type) :=
| OutFeature (base : FeatureEventBase) (context : J)
| OutDebug (base : FeatureEventBase) (context : J)
| OutIdentify (creation_date : Date) (context : J)
| OutIndex (creation_date : Date) (context : J)
| OutTrack (creation_date : Date) (key : string) (context : J) (data : option Value)
    (metric_value : option double).
Arguments OutFeature {J} _ _.
Arguments OutDebug {J} _ _.
Arguments OutIdentify {J} _ _.
Arguments OutIndex {J} _ _.
Arguments OutTrack {J} _ _ _ _ _.

(** ** [AsioEventProcessor] *)

(** A batch: the events, and the summary when there is one. *)
Abbreviation EventBatch J := (list (OutputEvent J) * option Summarizer)%type.

Record Processor (J : Type) := mkProcessor {
  outbox_ : Outbox (OutputEvent J);
  summarizer_ : Summarizer;
  workers_ : list (RequestWorker (EventBatch J));
  inbox_capacity_ : nat;
  inbox_size_ : nat;
  full_outbox_encountered_ : bool;
  full_inbox_encountered_ : bool;
  permanent_delivery_failure_ : bool;
  last_known_past_time_ : option Date;
  context_key_cache_ : LRUCache;
  pending : list InputEvent;  (* handlers posted by SendAsync, not yet run *)
}.
Arguments mkProcessor {J} _ _ _ _ _ _ _ _ _ _ _.
Arguments outbox_ {J} _.
Arguments summarizer_ {J} _.
Arguments workers_ {J} _.
Arguments inbox_capacity_ {J} _.
Arguments inbox_size_ {J} _.
Arguments full_outbox_encountered_ {J} _.
Arguments full_inbox_encountered_ {J} _.
Arguments permanent_delivery_failure_ {J} _.
Arguments last_known_past_time_ {J} _.
Arguments context_key_cache_ {J} _.
Arguments pending {J} _.

Section Processor.
Context {J : Type} `{!Filtering J} `{B : BoostStatus} (ParseDateHeader : string → option Date).
(** [std::is_same<SDK, ServerSDK>] *)
Context (server : bool).
Implicit Types (p : Processor J).

(** The constructor; [now] is the clock. *)
Definition new_processor (now : Date) (capacity pool_size : nat) (locale : bool)
    (context_keys : option nat) : Processor J :=
  mkProcessor (new_outbox capacity) (new_summarizer now) (replicate pool_size (new_worker locale))
    capacity 0 false false false None (new_lru (default 0%nat context_keys)) [].

Definition set_inbox (size : nat) (full : bool) (queue : list InputEvent) p : Processor J :=
  mkProcessor (outbox_ p) (summarizer_ p) (workers_ p) (inbox_capacity_ p) size
    (full_outbox_encountered_ p) full (permanent_delivery_failure_ p) (last_known_past_time_ p)
    (context_key_cache_ p) queue.

Definition InboxIncrement p : Processor J * bool :=
  if permanent_delivery_failure_ p then (p, false)
  else if (inbox_size_ p <? inbox_capacity_ p)%nat
  then (set_inbox (S (inbox_size_ p)) (full_inbox_encountered_ p) (pending p) p, true)
  else (set_inbox (inbox_size_ p) true (pending p) p, false).

Definition InboxDecrement p : Processor J :=
  set_inbox (pred (inbox_size_ p)) (full_inbox_encountered_ p) (pending p) p.

(** [SendAsync]: an accepted event is posted to the strand. *)
Definition SendAsync (event : InputEvent) p : Processor J :=
  let '(p', ok) := InboxIncrement p in
  if ok then set_inbox (inbox_size_ p') (full_inbox_encountered_ p') (pending p' ++ [event]) p'
  else p'.

(** [context_key_cache_.Notice], for the server SDK only. *)
Definition notice_context (context : Context) p : option (Processor J * bool) :=
  match Notice (CanonicalKey context) (context_key_cache_ p) with
  | None => None
  | Some (cache, seen) =>
      Some (mkProcessor (outbox_ p) (summarizer_ p) (workers_ p) (inbox_capacity_ p) (inbox_size_ p)
              (full_outbox_encountered_ p) (full_inbox_encountered_ p) (permanent_delivery_failure_ p)
              (last_known_past_time_ p) cache (pending p), seen)
  end.

Definition set_summarizer (s : Summarizer) p : Processor J :=
  mkProcessor (outbox_ p) s (workers_ p) (inbox_capacity_ p) (inbox_size_ p)
    (full_outbox_encountered_ p) (full_inbox_encountered_ p) (permanent_delivery_failure_ p)
    (last_known_past_time_ p) (context_key_cache_ p) (pending p).

(** The index event of a context not seen recently. *)
Definition index_events (creation_date : Date) (context : Context) p :
    option (Processor J * list (OutputEvent J)) :=
  if server then
    match notice_context context p with
    | None => None
    | Some (p', seen) => Some (p', if seen then [] else [OutIndex creation_date (Filter context)])
    end
  else Some (p, []).

(** [Process]; [None] when the cache fails. *)
Definition Process (now : Date) (input_event : InputEvent) p :
    option (Processor J * list (OutputEvent J)) :=
  match input_event with
  | Feature event =>
      let p := set_summarizer (Update (summarizer_ p) event) p in
      match index_events (fe_creation_date event) (fe_context event) p with
      | None => None
      | Some (p', index) =>
          let base := feature_base event in
          let conservative_now := Z.max now (default 0 (last_known_past_time_ p')) in
          let emit_debug_event :=
            match fe_debug_events_until_date event with
            | Some until => conservative_now <? until
            | None => false
            end in
          Some (p', index ++
            (if emit_debug_event then [OutDebug base (Filter (fe_context event))] else []) ++
            (if fe_require_full_event event
             then [OutFeature base (FilterWithAnonymousRedaction (fe_context event))] else []))
      end
  | Identify event =>
      let out := [OutIdentify (ie_creation_date event) (Filter (ie_context event))] in
      if server then
        match notice_context (ie_context event) p with
        | None => None
        | Some (p', _) => Some (p', out)
        end
      else Some (p, out)
  | Track event =>
      match index_events (te_creation_date event) (te_context event) p with
      | None => None
      | Some (p', index) =>
          let filtered_context :=
            if server then FilterWithAnonymousRedaction (te_context event)
            else Filter (te_context event) in
          Some (p', index ++
            [OutTrack (te_creation_date event) (te_key event) filtered_context (te_data event)
               (te_metric_value event)])
      end
  end.

Definition HandleSend (now : Date) (event : InputEvent) p : option (Processor J) :=
  match Process now event p with
  | None => None
  | Some (p, output_events) =>
      let '(outbox, inserted) := PushDiscardingOverflow output_events (outbox_ p) in
      Some (mkProcessor outbox (summarizer_ p) (workers_ p) (inbox_capacity_ p) (inbox_size_ p)
              (negb inserted) (full_inbox_encountered_ p) (permanent_delivery_failure_ p)
              (last_known_past_time_ p) (context_key_cache_ p) (pending p))
  end.

(** The strand runs the oldest posted handler. *)
Definition run_handler (now : Date) p : option (Processor J) :=
  match pending p with
  | [] => Some p
  | event :: rest =>
      HandleSend now event
        (InboxDecrement (set_inbox (inbox_size_ p) (full_inbox_encountered_ p) rest p))
  end.

(** [CreateBatch] *)
Definition CreateBatch (now : Date) p : Processor J * option (EventBatch J) :=
  let '(outbox, events) := Consume (outbox_ p) in
  let summary := Finish (summarizer_ p) now in
  let p' := mkProcessor outbox summary (workers_ p) (inbox_capacity_ p) (inbox_size_ p)
              (full_outbox_encountered_ p) (full_inbox_encountered_ p)
              (permanent_delivery_failure_ p) (last_known_past_time_ p) (context_key_cache_ p)
              (pending p) in
  if negb (Summarizer_Empty summary) then (p', Some (events, Some summary))
  else match events with [] => (p', None) | _ => (p', Some (events, None)) end.

(** [Flush]: the batch goes to the first available worker; without one nothing
    is taken out of the buffers. *)
Definition Flush (now : Date) p : Processor J * option (nat * EventBatch J) :=
  match pool_Get (workers_ p) with
  | None => (p, None)
  | Some i =>
      match CreateBatch now p with
      | (p', None) => (p', None)
      | (p', Some batch) =>
          (mkProcessor (outbox_ p') (new_summarizer now)
             (alter (AsyncDeliver batch) i (workers_ p')) (inbox_capacity_ p') (inbox_size_ p')
             (full_outbox_encountered_ p') (full_inbox_encountered_ p')
             (permanent_delivery_failure_ p') (last_known_past_time_ p') (context_key_cache_ p')
             (pending p'), Some (i, batch))
      end
  end.

Definition OnEventDeliveryResult (result : DeliveryResult) p : Processor J :=
  match result with
  | ServerTimeResult server_time =>
      mkProcessor (outbox_ p) (summarizer_ p) (workers_ p) (inbox_capacity_ p) (inbox_size_ p)
        (full_outbox_encountered_ p) (full_inbox_encountered_ p) (permanent_delivery_failure_ p)
        (Some server_time) (context_key_cache_ p) (pending p)
  | PermanentFailureResult _ =>
      mkProcessor (outbox_ p) (summarizer_ p) (workers_ p) (inbox_capacity_ p) (inbox_size_ p)
        (full_outbox_encountered_ p) (full_inbox_encountered_ p) true
        (last_known_past_time_ p) (context_key_cache_ p) (pending p)
  end.

(** The response to worker [i]'s request. *)
Definition on_response (i : nat) (result : HttpResult) p : Processor J :=
  match workers_ p !! i with
  | None => p
  | Some w =>
      let '(w', _, callback) := OnDeliveryAttempt ParseDateHeader result w in
      let p := mkProcessor (outbox_ p) (summarizer_ p) (<[i := w']> (workers_ p)) (inbox_capacity_ p)
                 (inbox_size_ p) (full_outbox_encountered_ p) (full_inbox_encountered_ p)
                 (permanent_delivery_failure_ p) (last_known_past_time_ p) (context_key_cache_ p)
                 (pending p) in
      match callback with Some r => OnEventDeliveryResult r p | None => p end
  end.

(** Interleavings of the operations. *)
Inductive processor_step : Processor J → Processor J → Prop :=
| step_send event p : processor_step p (SendAsync event p)
| step_handler now p p' : run_handler now p = Some p' → processor_step p p'
| step_flush now p : processor_step p (Flush now p).1
| step_on_response i result p : processor_step p (on_response i result p).
End Processor.

(** ** A model of [to_status_class] *)

#[export] Instance ref_status : BoostStatus := λ s,
  if (100 <=? s) && (s <? 200) then StatusClass.informational
  else if (200 <=? s) && (s <? 300) then StatusClass.successful
  else if (300 <=? s) && (s <? 400) then StatusClass.redirection
  else if (400 <=? s) && (s <? 500) then StatusClass.client_error
  else if (500 <=? s) && (s <? 600) then StatusClass.server_error
  else StatusClass.unknown.

#[export] Instance ref_status_spec : BoostStatusSpec ref_status.
Proof.
  split; intros s; unfold to_status_class, ref_status;
    repeat match goal with |- context [if ?b then _ else _] => destruct b eqn:? end;
    rewrite ?andb_true_iff, ?andb_false_iff, ?Z.leb_le, ?Z.ltb_lt, ?Z.leb_gt, ?Z.ltb_ge in *;
    split; intros ?; (done || lia).
Qed.

(** ** Properties *)

(** How a delivery attempt ends. *)
Inductive Outcome := Delivered | RetryOnce | Dropped | GiveUp.

(** The delivery policy, on status codes. *)
Definition policy (first : bool) (result : HttpResult) : Outcome :=
  let s := http_Status result in
  if negb (http_IsError result) && (200 <=? s) && (s <? 300) then Delivered
  else if http_IsError result || negb ((400 <=? s) && (s <? 500)) || (s =? 400) || (s =? 408) || (s =? 429)
  then if first && negb (s =? 413) then RetryOnce else Dropped
  else if s =? 413 then Dropped else GiveUp.

(** The delivery policy.  Success frees the batch; an I/O error, a status
    outside the client-error range, 400, 408 and 429 are retried once and then
    dropped; 413 is dropped at once; any other client error ends delivery for
    good. *)
Theorem delivery_policy `{B : BoostStatus} `{!BoostStatusSpec B} (result : HttpResult) (first : bool) :
  NextState (if first then WorkerState.FirstChance else WorkerState.SecondChance) result =
  match policy first result with
  | Delivered => (WorkerState.Idle, Action.ParseDateAndReset)
  | RetryOnce => (WorkerState.SecondChance, Action.Retry)
  | Dropped => (WorkerState.Idle, Action.Reset)
  | GiveUp => (WorkerState.PermanentlyFailed, Action.NotifyPermanentFailure)
  end.
Proof.
  unfold policy, NextState, IsSuccess, IsTransientFailure, IsRetryable.
  set (s := http_Status result).
  rewrite (bool_decide_ext (to_status_class s = StatusClass.successful) (200 ≤ s < 300))
    by apply status_class_successful.
  rewrite (bool_decide_ext (to_status_class s = StatusClass.client_error) (400 ≤ s < 500))
    by apply status_class_client_error.
  destruct (http_IsError result); simpl;
    destruct first; simpl; repeat case_bool_decide;
    destruct (Z.leb_spec 200 s), (Z.ltb_spec s 300), (Z.leb_spec 400 s), (Z.ltb_spec s 500); try lia;
    destruct (Z.eqb_spec s 400), (Z.eqb_spec s 408), (Z.eqb_spec s 429), (Z.eqb_spec s 413);
    simpl; try lia; done.
Qed.

Lemma delivery_policy_witness :
  NextState WorkerState.FirstChance (mkHttpResult false 503 None) =
  (WorkerState.SecondChance, Action.Retry).
Proof. exact (delivery_policy (mkHttpResult false 503 None) true). Defined.

(** What holds of a worker and its environment: exactly one thing is pending
    while a batch is held, and it is sent at most twice. *)
Definition worker_inv {Batch} (s : WorkerSystem (Batch := Batch)) : Prop :=
  match state_ (ws_worker s) with
  | WorkerState.Idle | WorkerState.PermanentlyFailed =>
      batch_ (ws_worker s) = None ∧ ws_in_flight s = 0%nat ∧ ws_timer s = false ∧ (ws_sent s ≤ 2)%nat
  | WorkerState.FirstChance =>
      is_Some (batch_ (ws_worker s)) ∧ ws_in_flight s = 1%nat ∧ ws_timer s = false ∧ ws_sent s = 1%nat
  | WorkerState.SecondChance =>
      is_Some (batch_ (ws_worker s)) ∧
      ((ws_in_flight s = 1%nat ∧ ws_timer s = false ∧ ws_sent s = 2%nat) ∨
       (ws_in_flight s = 0%nat ∧ ws_sent s = 1%nat))
  end.

Lemma worker_step_inv `{B : BoostStatus} {Batch} parse (s s' : WorkerSystem (Batch := Batch)) :
  worker_inv s → worker_step parse s s' → worker_inv s'.
Proof.
  intros Hinv Hstep. destruct Hstep as [w n timer sent batch Ha|w n timer sent result w' retry cb E|w n sent|w n sent];
    unfold worker_inv in *; simpl in *.
  - apply bool_decide_eq_true in Ha. rewrite Ha in Hinv. destruct Hinv as (_ & -> & -> & _). eauto.
  - unfold OnDeliveryAttempt in E. destruct (state_ w) eqn:Hs; simpl in E.
    1,4: destruct Hinv as (_ & ? & _); lia.
    + destruct Hinv as (Hb & Hn & -> & ->).
      destruct (IsSuccess result), (IsTransientFailure result), (IsRetryable (http_Status result));
        injection E as <- <- _; simpl; split_and!; auto; try lia; right; lia.
    + destruct Hinv as (Hb & [(Hn & -> & ->)|[? _]]); [|lia].
      destruct (IsSuccess result), (IsTransientFailure result);
        injection E as <- <- _; simpl; split_and!; auto; lia.
  - destruct (state_ w); destruct Hinv as (Hb & Hrest); try (exfalso; naive_solver).
    destruct Hrest as [(_ & ? & _)|[-> ->]]; [done|]. auto.
  - destruct (state_ w); destruct Hinv as (Hb & Hrest); try (exfalso; naive_solver).
    destruct Hrest as [(_ & ? & _)|[-> ->]]; [done|]. auto.
Qed.

(** Along every interleaving of deliveries, responses and timer events, a
    worker sends a batch at most twice, has at most one request outstanding, and
    holds a batch exactly while a delivery is under way, so the batch it
    dereferences when a response or the timer arrives is there. *)
Theorem worker_invariant `{B : BoostStatus} {Batch : Type} (parse : string → option Date) (locale : bool)
  (s : WorkerSystem (Batch := Batch)) (Hreach : rtc (worker_step parse) (worker_start locale) s) :
  worker_inv s ∧ (ws_sent s ≤ 2)%nat ∧ (ws_in_flight s ≤ 1)%nat ∧
  (is_Some (batch_ (ws_worker s)) ↔ Available (ws_worker s) = false ∧
     state_ (ws_worker s) ≠ WorkerState.PermanentlyFailed).
Proof.
  assert (worker_inv s) as Hinv.
  { assert (worker_inv (worker_start (Batch := Batch) locale)) as H0 by (split_and!; (done || simpl; lia)).
    revert H0. induction Hreach as [|x y z Hxy _ IH]; [done|]. intros Hx. apply IH.
    by eapply worker_step_inv. }
  split; [done|]. unfold worker_inv, Available in *. destruct (state_ (ws_worker s)).
  - destruct Hinv as (-> & ? & _ & ?). split_and!; [lia|lia|]. split; [by intros [? ?]|by intros []].
  - destruct Hinv as (? & ? & _ & ?). split_and!; [lia|lia|]. by split.
  - destruct Hinv as (? & Hr). split_and!; [lia|lia|]. by split.
  - destruct Hinv as (-> & ? & _ & ?). split_and!; [lia|lia|]. split; [by intros [? ?]|]. by intros [_ ?].
Qed.

Lemma worker_invariant_witness :
  worker_inv (mkWorkerSystem (mkWorker WorkerState.SecondChance (Some 7) true) 0 true 1).
Proof.
  refine (proj1 (worker_invariant (λ _, None) true _ _)).
  eapply rtc_l; [apply (step_deliver _ _ 0 false 0 7); reflexivity|].
  eapply rtc_l; [eapply (step_response _ _ 0 _ _ (mkHttpResult false 503 None)); reflexivity|].
  apply rtc_refl.
Defined.

(** ** The processor's inbox and outbox *)

Section ProcessorInv.
Context {J : Type} `{!Filtering J} `{B : BoostStatus} (parse : string → option Date) (server : bool).
Implicit Types (p : Processor J).

Definition processor_inv p : Prop :=
  inbox_size_ p = length (pending p) ∧ (inbox_size_ p ≤ inbox_capacity_ p)%nat ∧
  (length (items_ (outbox_ p)) ≤ outbox_capacity_ (outbox_ p))%nat.

(** [p'] has the inbox and the outbox of [p]. *)
Definition same_buffers p p' : Prop :=
  inbox_size_ p' = inbox_size_ p ∧ inbox_capacity_ p' = inbox_capacity_ p ∧
  pending p' = pending p ∧ outbox_ p' = outbox_ p.

Lemma notice_context_buffers context p p' seen :
  notice_context context p = Some (p', seen) → same_buffers p p'.
Proof.
  unfold notice_context. destruct (Notice _ _) as [[cache b]|]; [|done]. by intros [= <- <-].
Qed.

Lemma index_events_buffers date context p p' out :
  index_events server date context p = Some (p', out) → same_buffers p p'.
Proof.
  unfold index_events. destruct server; [|by intros [= <- <-]].
  destruct (notice_context context p) as [[p1 seen]|] eqn:E; [|done].
  intros [= <- _]. by eapply notice_context_buffers.
Qed.

Lemma Process_buffers now event p p' out :
  Process server now event p = Some (p', out) → same_buffers p p'.
Proof.
  unfold Process. destruct event as [e|e|e]; simpl.
  - destruct (index_events server _ _ _) as [[p1 index]|] eqn:E; [|done].
    intros [= <- _]. by apply index_events_buffers in E.
  - destruct server; [|by intros [= <- _]].
    destruct (notice_context _ _) as [[p1 seen]|] eqn:E; [|done].
    intros [= <- _]. by eapply notice_context_buffers.
  - destruct (index_events server _ _ _) as [[p1 index]|] eqn:E; [|done].
    intros [= <- _]. by apply index_events_buffers in E.
Qed.

Lemma processor_step_inv p p' :
  processor_inv p → processor_step parse server p p' → processor_inv p'.
Proof.
  intros (H1 & H2 & H3) Hs. destruct Hs as [event p|now p p' E|now p|i result p].
  - unfold SendAsync, InboxIncrement. destruct (permanent_delivery_failure_ p); [by split_and!|].
    destruct (Nat.ltb_spec (inbox_size_ p) (inbox_capacity_ p)); split_and!; simpl; try done; try lia.
    rewrite length_app. simpl. lia.
  - unfold run_handler in E. destruct (pending p) as [|event rest] eqn:Hp; [injection E as <-; split_and!; [by rewrite Hp|done|done]|].
    unfold HandleSend in E. destruct (Process _ _ _ _) as [[p1 out]|] eqn:EP; [|done].
    apply Process_buffers in EP as (E1 & E2 & E3 & E4). simpl in *.
    rewrite PushDiscardingOverflow_spec in E by (by rewrite E4). simplify_eq.
    rewrite E4. split_and!; simpl; [rewrite E1; simpl in H1; lia|lia|].
    rewrite length_app, length_take. lia.
  - unfold Flush, CreateBatch. destruct (pool_Get (workers_ p)); [|done]. simpl.
    destruct (negb _); [by split_and!; simpl; lia|]. destruct (items_ (outbox_ p)); by split_and!; simpl; lia.
  - unfold on_response. destruct (workers_ p !! i) as [w|]; [|done].
    destruct (OnDeliveryAttempt parse result w) as [[w' t] [[]|]]; done.
Qed.
End ProcessorInv.

(** Whatever the interleaving of producers, handlers, flushes and responses,
    the inbox counter is the number of events waiting, it never exceeds the
    configured capacity, and neither does the outbox; after a permanent delivery
    failure every further event is refused. *)
Theorem processor_bounded {J : Type} `{!Filtering J} `{B : BoostStatus} (parse : string → option Date)
  (server : bool) (now : Date) (capacity pool_size : nat) (locale : bool) (keys : option nat)
  (p : Processor J)
  (Hreach : rtc (processor_step parse server) (new_processor now capacity pool_size locale keys) p) :
  processor_inv p ∧
  (permanent_delivery_failure_ p = true → ∀ event, SendAsync event p = p).
Proof.
  split.
  - assert (processor_inv (new_processor (J := J) now capacity pool_size locale keys)) as H0
      by (split_and!; simpl; lia).
    revert H0. induction Hreach as [|x y z Hxy _ IH]; [done|]. intros Hx. apply IH.
    by eapply processor_step_inv.
  - intros Hf event. unfold SendAsync, InboxIncrement. by rewrite Hf.
Qed.

(** The filter that keeps the canonical key only, for the examples. *)
#[local] Instance key_filter : Filtering string := {
  Filter := CanonicalKey;
  FilterWithAnonymousRedaction := CanonicalKey;
}.

Lemma processor_bounded_witness :
  let p := SendAsync (Feature (example_event "f" 0)) (new_processor (J := string) 0 1 1 false (Some 5%nat)) in
  processor_inv p ∧ (permanent_delivery_failure_ p = true → ∀ event, SendAsync event p = p).
Proof.
  apply (processor_bounded (λ _, None) true 0 1 1 false (Some 5%nat)).
  eapply rtc_l; [apply step_send|apply rtc_refl].
Defined.

(** A flush loses nothing.  Without a free worker the buffers keep their
    contents.  With one, everything in the outbox and the summary, if any, go
    into one batch handed to the first free worker, and the buffers start
    empty; when there is nothing to send no worker is used. *)
Theorem flush_conserves {J : Type} `{!Filtering J} (now : Date) (p : Processor J) :
  match pool_Get (workers_ p) with
  | None => Flush now p = (p, None)
  | Some i =>
      ∃ w, workers_ p !! i = Some w ∧ Available w = true ∧
      (∀ j w', (j < i)%nat → workers_ p !! j = Some w' → Available w' = false) ∧
      let p' := (Flush now p).1 in
      items_ (outbox_ p') = [] ∧ features_ (summarizer_ p') = ∅ ∧
      if bool_decide (items_ (outbox_ p) = []) && Summarizer_Empty (summarizer_ p)
      then (Flush now p).2 = None ∧ workers_ p' = workers_ p
      else
        ∃ batch, (Flush now p).2 = Some (i, batch) ∧ batch.1 = items_ (outbox_ p) ∧
          (features_ <$> batch.2) =
            (if Summarizer_Empty (summarizer_ p) then None else Some (features_ (summarizer_ p))) ∧
          workers_ p' = <[i := AsyncDeliver batch w]> (workers_ p)
  end.
Proof.
  unfold Flush. destruct (pool_Get (workers_ p)) as [i|] eqn:Hg; [|done].
  assert (∃ w, workers_ p !! i = Some w ∧ Available w = true ∧
    ∀ j w', (j < i)%nat → workers_ p !! j = Some w' → Available w' = false) as (w & Hw & Ha & Hj).
  { revert i Hg. induction (workers_ p) as [|w ws IH]; intros i Hg; [done|]. simpl in Hg.
    destruct (Available w) eqn:Hav.
    - injection Hg as <-. exists w. split_and!; [done|done|]. intros; lia.
    - destruct (pool_Get ws) as [k|]; [|done]. injection Hg as <-.
      destruct (IH k) as (w' & ? & ? & Hlt); [done|]. exists w'. split_and!; [done|done|].
      intros [|j] w2 Hjk H2; simplify_eq/=; [done|]. apply (Hlt j); [lia|done]. }
  exists w. split; [done|]. split; [done|]. split; [done|].
  assert (∀ b, alter (AsyncDeliver b) i (workers_ p) = <[i := AsyncDeliver b w]> (workers_ p)) as Hal.
  { intros b. apply list_eq. intros k. destruct (decide (i = k)) as [<-|].
    - rewrite list_lookup_alter_eq, Hw, list_lookup_insert_eq; [done|]. by eapply lookup_lt_Some.
    - by rewrite list_lookup_alter_ne, list_lookup_insert_ne by done. }
  unfold CreateBatch, Summarizer_Empty. simpl.
  case_bool_decide as Hs; simpl.
  - destruct (items_ (outbox_ p)) as [|e es] eqn:Hi; simpl; [by split_and!|].
    split_and!; [done|done|]. eexists. split_and!; [done|done|done|]. apply Hal.
  - split_and!; [done|done|]. rewrite andb_false_r. eexists. split_and!; [done|done|done|]. apply Hal.
Qed.
