(* ===== verification/Sse.v ===== *)
(** * Server-sent events

    libs/server-sent-events/src/parser.hpp and parser.cpp, event.hpp/event.cpp.

    A [std::string] of octets is a [list ascii] here.  The receiver's calls are
    recorded in [emitted]. *)

From S2P Require Import Prelude.

Abbreviation text := (list ascii).

Definition CR : ascii := "013"%char.
Definition LF : ascii := "010"%char.

(** [launchdarkly::sse::Event], as handed to the receiver. *)
Record SseEvent := mkSseEvent { sse_type : text; sse_data : text; sse_id : option text }.

(** [detail::Event], under construction. *)
Record PartialEvent := mkPartial { ev_type : text; ev_data : text; ev_id : option text }.

Definition new_event : PartialEvent := mkPartial (chars "message") [] None.

Definition append_data (input : text) (e : PartialEvent) : PartialEvent :=
  mkPartial (ev_type e) (ev_data e ++ input ++ [LF]) (ev_id e).

Definition trim_trailing_newline (e : PartialEvent) : PartialEvent :=
  match last (ev_data e) with
  | Some c =>
      if (c =? LF)%char then mkPartial (ev_type e) (take (length (ev_data e) - 1) (ev_data e)) (ev_id e)
      else e
  | None => e
  end.

(** [EventBody::reader], with the [value_type] it refers to. *)
Record Reader := mkReader {
  buffered_line_ : option text;
  complete_lines_ : list text;
  begin_CR_ : bool;
  event_ : option PartialEvent;
  last_event_id_ : option text;
  emitted : list SseEvent;
}.

Definition new_reader : Reader := mkReader None [] false None None [].

Definition set_line (buffered : option text) (lines : list text) (cr : bool) (r : Reader) : Reader :=
  mkReader buffered lines cr (event_ r) (last_event_id_ r) (emitted r).

(** ** Lines *)

Definition complete_line (r : Reader) : Reader :=
  match buffered_line_ r with
  | Some line => set_line None (complete_lines_ r ++ [line]) (begin_CR_ r) r
  | None => r
  end.

Definition is_eol (c : ascii) : bool := (c =? CR)%char || (c =? LF)%char.

(** The text up to the first CR or LF, and what is left. *)
Fixpoint find_eol (body : text) : text * text :=
  match body with
  | [] => ([], [])
  | c :: rest => if is_eol c then ([], body) else let '(a, b) := find_eol rest in (c :: a, b)
  end.

(** [append_up_to(body, "\r\n")]: the reader, and the rest of the body. *)
Definition append_up_to (body : text) (r : Reader) : Reader * text :=
  let '(prefix, rest) := find_eol body in
  (set_line (Some (default [] (buffered_line_ r) ++ prefix)) (complete_lines_ r) (begin_CR_ r) r, rest).

(** The loop of [parse_stream]; the fuel is the length of the body. *)
Fixpoint parse_loop (fuel : nat) (body : text) (r : Reader) : Reader :=
  match fuel with
  | O => r
  | S fuel' =>
      match body with
      | [] => r
      | _ =>
          let '(r, rest) := append_up_to body r in
          match rest with
          | [] => r
          | c :: rest' =>
              if (c =? CR)%char then
                let r := complete_line r in
                parse_loop fuel' rest' (set_line (buffered_line_ r) (complete_lines_ r) true r)
              else if (c =? LF)%char then
                if begin_CR_ r then
                  parse_loop fuel' rest' (set_line (buffered_line_ r) (complete_lines_ r) false r)
                else parse_loop fuel' rest' (complete_line r)
              else parse_loop fuel' rest (set_line (buffered_line_ r) (complete_lines_ r) false r)
          end
      end
  end.

Definition parse_stream (body : text) (r : Reader) : Reader := parse_loop (length body) body r.

(** ** Fields *)

(** The text before the first colon, and after it. *)
Fixpoint find_colon (field : text) : option (text * text) :=
  match field with
  | [] => None
  | c :: rest =>
      if (c =? ":")%char then Some ([], rest)
      else match find_colon rest with Some (a, b) => Some (c :: a, b) | None => None end
  end.

Definition parse_field (field : text) : text * text :=
  match find_colon field with
  | Some ([], value) => (chars "comment", value)
  | None => (field, [])
  | Some (key, value) =>
      (key, match value with
            | c :: rest => if (c =? " ")%char then rest else value
            | [] => []
            end)
  end.

(** ** Events *)

(** One line of [parse_events]. *)
Definition parse_line (r : Reader) (line : text) : Reader :=
  let set ev last_id out := mkReader (buffered_line_ r) (complete_lines_ r) (begin_CR_ r) ev last_id out in
  match line with
  | [] =>
      match event_ r with
      | Some e =>
          let e := trim_trailing_newline e in
          set None (last_event_id_ r) (emitted r ++ [mkSseEvent (ev_type e) (ev_data e) (ev_id e)])
      | None => r
      end
  | _ =>
      let '(name, value) := parse_field line in
      if bool_decide (name = chars "comment") then
        set (event_ r) (last_event_id_ r) (emitted r ++ [mkSseEvent (chars "comment") value None])
      else
        let e := default (mkPartial (ev_type new_event) (ev_data new_event) (last_event_id_ r)) (event_ r) in
        if bool_decide (name = chars "event") then
          set (Some (mkPartial value (ev_data e) (ev_id e))) (last_event_id_ r) (emitted r)
        else if bool_decide (name = chars "data") then
          set (Some (append_data value e)) (last_event_id_ r) (emitted r)
        else if bool_decide (name = chars "id") then
          if existsb (λ c, (c =? zero)%char) value then set (Some e) (last_event_id_ r) (emitted r)
          else set (Some (mkPartial (ev_type e) (ev_data e) (Some value))) (Some value) (emitted r)
        else set (Some e) (last_event_id_ r) (emitted r)
  end.

(** [parse_events]: the complete lines are consumed from the front. *)
Definition parse_events (r : Reader) : Reader :=
  foldl parse_line (set_line (buffered_line_ r) [] (begin_CR_ r) r) (complete_lines_ r).

(** [put] *)
Definition put (data : text) (r : Reader) : Reader := parse_events (parse_stream data r).

(** ** Lemmas: the stream, character by character *)

Definition push_char (r : Reader) (c : ascii) : Reader :=
  let line := default [] (buffered_line_ r) in
  if (c =? CR)%char then set_line None (complete_lines_ r ++ [line]) true r
  else if (c =? LF)%char then
    if begin_CR_ r then set_line (Some line) (complete_lines_ r) false r
    else set_line None (complete_lines_ r ++ [line]) false r
  else set_line (Some (line ++ [c])) (complete_lines_ r) (begin_CR_ r) r.

Lemma find_eol_app body a b :
  find_eol body = (a, b) →
  body = a ++ b ∧ Forall (λ c, is_eol c = false) a ∧
  match b with [] => True | c :: _ => is_eol c = true end.
Proof.
  revert a b. induction body as [|c body IH]; intros a b; simpl; [by intros [= <- <-]|].
  destruct (is_eol c) eqn:Hc; [by intros [= <- <-]|].
  destruct (find_eol body) as [a' b'] eqn:E. intros [= <- <-].
  destruct (IH a' b') as (-> & HF & Hb); [done|]. split_and!; [done|by constructor|done].
Qed.

Lemma push_plain r a :
  Forall (λ c, is_eol c = false) a → a ≠ [] →
  foldl push_char r a =
  set_line (Some (default [] (buffered_line_ r) ++ a)) (complete_lines_ r) (begin_CR_ r) r.
Proof.
  revert r. induction a as [|c a IH]; intros r HF Hne; [done|].
  apply Forall_cons_1 in HF as [Hc HF]. apply orb_false_iff in Hc as [Hcr Hlf].
  simpl. unfold push_char at 2. rewrite Hcr, Hlf.
  destruct a as [|c' a]; [done|]. rewrite IH by done. simpl. by rewrite <- app_assoc.
Qed.

Lemma parse_loop_fold fuel body r :
  (length body ≤ fuel)%nat → parse_loop fuel body r = foldl push_char r body.
Proof.
  revert body r. induction fuel as [|fuel IH]; intros body r Hlen.
  { destruct body; [done|simpl in Hlen; lia]. }
  destruct body as [|c0 body]; [done|]. set (b := c0 :: body) in *.
  cbn [parse_loop]. subst b. unfold append_up_to.
  destruct (find_eol (c0 :: body)) as [a rest] eqn:E.
  destruct (find_eol_app _ _ _ E) as (Heq & HF & Hrest). rewrite Heq, foldl_app.
  assert (foldl push_char r a =
    if decide (a = []) then r
    else set_line (Some (default [] (buffered_line_ r) ++ a)) (complete_lines_ r) (begin_CR_ r) r) as Ha.
  { case_decide as Hd; [by rewrite Hd|by apply push_plain]. }
  destruct rest as [|c rest].
  { rewrite app_nil_r in Heq. rewrite Ha. simpl. case_decide; [|done]. by subst. }
  assert (length rest ≤ fuel)%nat as Hl.
  { apply (f_equal length) in Heq. rewrite length_app in Heq. simpl in Heq, Hlen. lia. }
  simpl foldl. rewrite Ha. unfold is_eol in Hrest. unfold push_char at 2.
  destruct (c =? CR)%char.
  - rewrite IH by done. simpl. case_decide; [|done]. subst. by rewrite app_nil_r.
  - destruct (c =? LF)%char; [|done]. simpl.
    destruct (begin_CR_ r) eqn:Hcr; rewrite IH by done; case_decide; simpl; rewrite ?Hcr; try done;
      subst; by rewrite app_nil_r.
Qed.

Lemma parse_stream_fold body r : parse_stream body r = foldl push_char r body.
Proof. by apply parse_loop_fold. Qed.

(** ** Lemmas: lines and events do not interfere *)

Definition clear_lines (r : Reader) : Reader := set_line (buffered_line_ r) [] (begin_CR_ r) r.

(** A change of the line-reading fields only does not affect a line's meaning. *)
Lemma parse_line_with_lines b ls cr r line :
  parse_line (set_line b ls cr r) line = set_line b ls cr (parse_line r line).
Proof.
  destruct r as [bl cl bcr ev li em]. unfold parse_line, set_line. cbn.
  destruct line as [|c line]; [by destruct ev|].
  destruct (parse_field (c :: line)) as [name value].
  repeat case_bool_decide; try done. by destruct (existsb _ value).
Qed.

Lemma parse_line_lines r line :
  buffered_line_ (parse_line r line) = buffered_line_ r ∧
  complete_lines_ (parse_line r line) = complete_lines_ r ∧
  begin_CR_ (parse_line r line) = begin_CR_ r.
Proof.
  destruct r as [bl cl bcr ev li em]. unfold parse_line. cbn.
  destruct line as [|c line]; [by destruct ev|].
  destruct (parse_field (c :: line)) as [name value].
  repeat case_bool_decide; try done. by destruct (existsb _ value).
Qed.

Lemma push_char_set_line b ls cr r c :
  push_char (set_line b ls cr r) c =
  set_line (buffered_line_ (push_char (set_line b ls cr r) c))
    (complete_lines_ (push_char (set_line b ls cr r) c))
    (begin_CR_ (push_char (set_line b ls cr r) c)) r.
Proof.
  unfold push_char, set_line. simpl. destruct (c =? CR)%char; [done|].
  destruct (c =? LF)%char; [|done]. by destruct cr.
Qed.

Lemma push_parse_comm r c line : push_char (parse_line r line) c = parse_line (push_char r c) line.
Proof.
  destruct (parse_line_lines r line) as (H1 & H2 & H3).
  unfold push_char. rewrite H1, H2, H3.
  destruct (c =? CR)%char; [by rewrite parse_line_with_lines|].
  destruct (c =? LF)%char; [destruct (begin_CR_ r)|]; by rewrite parse_line_with_lines.
Qed.

Lemma fold_push_parse_comm r lines l :
  foldl push_char (foldl parse_line r lines) l = foldl parse_line (foldl push_char r l) lines.
Proof.
  revert r. induction l as [|c l IH]; intros r; simpl; [done|]. rewrite <- IH. f_equal.
  clear IH. revert r. induction lines as [|line lines IH]; intros r; simpl; [done|].
  by rewrite IH, push_parse_comm.
Qed.

Lemma fold_parse_clear r lines :
  clear_lines (foldl parse_line r lines) = foldl parse_line (clear_lines r) lines ∧
  complete_lines_ (foldl parse_line r lines) = complete_lines_ r.
Proof.
  revert r. induction lines as [|line lines IH]; intros r; simpl; [done|].
  destruct (IH (parse_line r line)) as [-> ->]. destruct (parse_line_lines r line) as (H1 & H2 & H3).
  split; [|done]. f_equal. unfold clear_lines. by rewrite H1, H3, parse_line_with_lines.
Qed.

(** The lines already complete play no part in reading further ones. *)
Lemma push_char_prefix r c :
  complete_lines_ (push_char r c) = complete_lines_ r ++ complete_lines_ (push_char (clear_lines r) c) ∧
  clear_lines (push_char r c) = clear_lines (push_char (clear_lines r) c).
Proof.
  unfold push_char, clear_lines, set_line. simpl.
  destruct (c =? CR)%char; [done|]. destruct (c =? LF)%char; [destruct (begin_CR_ r)|];
    simpl; by rewrite ?app_nil_r.
Qed.

Lemma fold_push_prefix r l :
  complete_lines_ (foldl push_char r l) =
    complete_lines_ r ++ complete_lines_ (foldl push_char (clear_lines r) l) ∧
  clear_lines (foldl push_char r l) = clear_lines (foldl push_char (clear_lines r) l).
Proof.
  revert r. induction l as [|c l IH]; intros r; simpl; [by rewrite app_nil_r|].
  destruct (IH (push_char r c)) as [-> ->]. destruct (IH (push_char (clear_lines r) c)) as [-> ->].
  destruct (push_char_prefix r c) as [-> ->]. by rewrite app_assoc.
Qed.

Lemma put_app a b r : put b (put a r) = put (a ++ b) r.
Proof.
  unfold put. rewrite !parse_stream_fold, foldl_app. unfold parse_events.
  set (s := foldl push_char r a). fold (clear_lines s).
  rewrite fold_push_parse_comm. set (U := foldl push_char (clear_lines s) b).
  destruct (fold_parse_clear U (complete_lines_ s)) as [Hc Hl].
  fold (clear_lines (foldl parse_line U (complete_lines_ s))).
  fold (clear_lines (foldl push_char s b)).
  rewrite Hc, Hl. destruct (fold_push_prefix s b) as [-> ->]. by rewrite foldl_app.
Qed.

Lemma put_chunks (chunks : list text) (first : text) (r : Reader) :
  foldl (λ r chunk, put chunk r) (put first r) chunks = put (first ++ concat chunks) r.
Proof.
  revert first. induction chunks as [|c chunks IH]; intros first; simpl; [by rewrite app_nil_r|].
  by rewrite put_app, IH, <- app_assoc.
Qed.

(** ** Specification: the wire format a server writes *)

Record Message := mkMessage { msg_type : text; msg_lines : list text; msg_id : option text }.

Fixpoint join_lines (ls : list text) : text :=
  match ls with
  | [] => []
  | [l] => l
  | l :: ls => l ++ LF :: join_lines ls
  end.

(** The lines of a message, without their terminators. *)
Definition wire_lines (m : Message) : list text :=
  (chars "event: " ++ msg_type m) ::
  ((λ l, chars "data: " ++ l) <$> msg_lines m) ++
  match msg_id m with Some i => [chars "id: " ++ i] | None => [] end ++ [[]].

Definition wire (eol : text) (ms : list Message) : text :=
  concat ((λ l, l ++ eol) <$> concat (wire_lines <$> ms)).

(** What a receiver is owed: a message without an id carries the last one seen. *)
Fixpoint owed (last_id : option text) (ms : list Message) : list SseEvent :=
  match ms with
  | [] => []
  | m :: ms =>
      let last_id := match msg_id m with Some i => Some i | None => last_id end in
      mkSseEvent (msg_type m) (join_lines (msg_lines m)) last_id :: owed last_id ms
  end.

Definition one_line (l : text) : bool := forallb (λ c, negb (is_eol c)) l.

Definition message_ok (m : Message) : bool :=
  one_line (msg_type m) && forallb one_line (msg_lines m) &&
  match msg_id m with Some i => one_line i && negb (existsb (λ c, (c =? zero)%char) i) | None => true end.

Definition eols : list text := [[LF]; [CR]; [CR; LF]].

(** Nothing of a line has been read; a pending CR matters only to a stream whose
    lines end in a bare LF. *)
Definition at_line_start (eol : text) (r : Reader) : Prop :=
  default [] (buffered_line_ r) = [] ∧ (eol = [LF] → begin_CR_ r = false).

Lemma push_line eol r line :
  eol ∈ eols → one_line line = true → at_line_start eol r →
  ∃ b cr, foldl push_char r (line ++ eol) = set_line b (complete_lines_ r ++ [line]) cr r ∧
          at_line_start eol (set_line b (complete_lines_ r ++ [line]) cr r).
Proof.
  intros Heol Hl [Hb Hcr]. rewrite foldl_app.
  assert (Forall (λ c, is_eol c = false) line) as HF.
  { apply Forall_forall. intros c Hc. unfold one_line in Hl. rewrite forallb_forall in Hl.
    apply list_elem_of_In in Hc. specialize (Hl c Hc). by destruct (is_eol c). }
  assert (∃ b, foldl push_char r line = set_line b (complete_lines_ r) (begin_CR_ r) r ∧
               default [] b = line) as (b & -> & Hd).
  { destruct (decide (line = [])) as [-> |Hne].
    - exists (buffered_line_ r). split; [by destruct r|done].
    - rewrite push_plain by done. eexists. split; [done|]. simpl. by rewrite Hb. }
  unfold eols in Heol. rewrite !elem_of_cons in Heol.
  destruct Heol as [-> | [-> | [-> |Heol]]]; [..|by apply elem_of_nil in Heol].
  - unfold foldl, push_char at 1. simpl. rewrite Hcr by done. rewrite Hd.
    eexists None, false. split; [done|]. by split.
  - eexists None, true. simpl. rewrite <- Hd. split; [done|]. split; [done|]. intros [=].
  - eexists (Some []), false. simpl. rewrite <- Hd. split; [done|]. by split.
Qed.

Lemma push_lines eol ls r :
  eol ∈ eols → forallb one_line ls = true → at_line_start eol r →
  ∃ b cr, foldl push_char r (concat ((λ l, l ++ eol) <$> ls)) = set_line b (complete_lines_ r ++ ls) cr r.
Proof.
  intros Heol. revert r. induction ls as [|l ls IH]; intros r.
  { intros _ _. exists (buffered_line_ r), (begin_CR_ r). rewrite app_nil_r. by destruct r. }
  intros [Hl Hls]%andb_true_iff Hr. rewrite fmap_cons. cbn [concat]. rewrite foldl_app.
  destruct (push_line eol r l) as (b & cr & -> & Hs); [done..|].
  destruct (IH _ Hls Hs) as (b' & cr' & ->). exists b', cr'. unfold set_line. simpl.
  by rewrite <- app_assoc.
Qed.

(** The lines of one message, from a state with no event under construction. *)
Lemma parse_field_name name value :
  find_colon name = None → name ≠ [] → parse_field (name ++ chars ": " ++ value) = (name, value).
Proof.
  intros Hn Hne. unfold parse_field.
  assert (find_colon (name ++ chars ": " ++ value) = Some (name, " "%char :: value)) as ->.
  { clear Hne. induction name as [|c name IH]; [done|]. simpl in *. destruct (c =? ":")%char; [done|].
    destruct (find_colon name) as [[]|] eqn:E; [done|]. by rewrite IH. }
  by destruct name.
Qed.

Definition with_event (r : Reader) (ev : option PartialEvent) (last_id : option text) (out : list SseEvent) : Reader :=
  mkReader (buffered_line_ r) (complete_lines_ r) (begin_CR_ r) ev last_id out.

Lemma parse_event_line r t :
  event_ r = None →
  parse_line r (chars "event: " ++ t) =
  with_event r (Some (mkPartial t [] (last_event_id_ r))) (last_event_id_ r) (emitted r).
Proof.
  intros He. unfold parse_line. change (chars "event: " ++ t) with (chars "event" ++ chars ": " ++ t).
  rewrite parse_field_name by done. simpl. by rewrite He.
Qed.

Lemma parse_data_lines r e ls :
  event_ r = Some e →
  foldl parse_line r ((λ l, chars "data: " ++ l) <$> ls) =
  with_event r (Some (mkPartial (ev_type e) (ev_data e ++ concat ((λ l, l ++ [LF]) <$> ls)) (ev_id e)))
    (last_event_id_ r) (emitted r).
Proof.
  revert r e. induction ls as [|l ls IH]; intros r e He.
  { simpl. rewrite app_nil_r. destruct r, e. simpl in *. by subst. }
  rewrite !fmap_cons. cbn [foldl concat].
  assert (parse_line r (chars "data: " ++ l) =
    with_event r (Some (append_data l e)) (last_event_id_ r) (emitted r)) as ->.
  { unfold parse_line. change (chars "data: " ++ l) with (chars "data" ++ chars ": " ++ l).
    rewrite parse_field_name by done. simpl. by rewrite He. }
  rewrite (IH _ (append_data l e)) by done. unfold with_event, append_data. simpl.
  by rewrite <- !app_assoc.
Qed.

Lemma parse_id_line r e i :
  event_ r = Some e → existsb (λ c, (c =? zero)%char) i = false →
  parse_line r (chars "id: " ++ i) =
  with_event r (Some (mkPartial (ev_type e) (ev_data e) (Some i))) (Some i) (emitted r).
Proof.
  intros He Hz. unfold parse_line. change (chars "id: " ++ i) with (chars "id" ++ chars ": " ++ i).
  rewrite parse_field_name by done. simpl. by rewrite Hz, He.
Qed.

Lemma trim_joined t ls i :
  trim_trailing_newline (mkPartial t (concat ((λ l, l ++ [LF]) <$> ls)) i) = mkPartial t (join_lines ls) i.
Proof.
  assert (ls = [] ∨ concat ((λ l, l ++ [LF]) <$> ls) = join_lines ls ++ [LF]) as [-> | Hj]; [|done|].
  { induction ls as [|l ls IH]; [by left|right]. rewrite fmap_cons. cbn [concat].
    destruct IH as [-> | Hj]; [simpl; by rewrite app_nil_r|]. rewrite Hj.
    destruct ls as [|l' ls]; [by apply (f_equal length) in Hj|].
    change (join_lines (l :: l' :: ls)) with (l ++ LF :: join_lines (l' :: ls)).
    by rewrite <- !app_assoc. }
  unfold trim_trailing_newline. cbn [ev_data ev_type ev_id]. rewrite Hj, last_snoc. simpl. f_equal.
  rewrite length_app. simpl. rewrite Nat.add_sub. by rewrite take_app_length.
Qed.

Lemma parse_message r m :
  event_ r = None → message_ok m = true →
  foldl parse_line r (wire_lines m) =
  let last_id := match msg_id m with Some i => Some i | None => last_event_id_ r end in
  with_event r None last_id
    (emitted r ++ [mkSseEvent (msg_type m) (join_lines (msg_lines m)) last_id]).
Proof.
  intros He Hok. unfold wire_lines. cbn [foldl]. rewrite parse_event_line by done.
  rewrite foldl_app. rewrite (parse_data_lines _ (mkPartial (msg_type m) [] (last_event_id_ r))) by done.
  cbn [app ev_data]. rewrite foldl_app. unfold message_ok in Hok.
  destruct (msg_id m) as [i|].
  - apply andb_true_iff in Hok as [_ [_ Hz]%andb_true_iff]. apply negb_true_iff in Hz.
    cbn [foldl]. erewrite parse_id_line by done. simpl. by rewrite trim_joined.
  - simpl. by rewrite trim_joined.
Qed.

Lemma parse_messages r ms :
  event_ r = None → forallb message_ok ms = true →
  emitted (foldl parse_line r (concat (wire_lines <$> ms))) = emitted r ++ owed (last_event_id_ r) ms.
Proof.
  revert r. induction ms as [|m ms IH]; intros r He; [by rewrite app_nil_r|].
  intros [Hm Hms]%andb_true_iff. rewrite fmap_cons. cbn [concat]. rewrite foldl_app, parse_message by done.
  cbv zeta. rewrite IH by done. simpl. by rewrite <- app_assoc.
Qed.

(** The id a reader remembers after the messages. *)
Definition last_id (id : option text) (ms : list Message) : option text :=
  foldl (λ id m, match msg_id m with Some i => Some i | None => id end) id ms.

Lemma parse_messages_id r ms :
  event_ r = None → forallb message_ok ms = true →
  last_event_id_ (foldl parse_line r (concat (wire_lines <$> ms))) = last_id (last_event_id_ r) ms.
Proof.
  revert r. induction ms as [|m ms IH]; intros r He; [done|].
  intros [Hm Hms]%andb_true_iff. rewrite fmap_cons. cbn [concat]. rewrite foldl_app, parse_message by done.
  cbv zeta. by rewrite IH.
Qed.

Lemma one_line_app a b : one_line (a ++ b) = one_line a && one_line b.
Proof. apply forallb_app. Qed.

Lemma wire_lines_one_line m : message_ok m = true → forallb one_line (wire_lines m) = true.
Proof.
  unfold message_ok, wire_lines. intros [[Ht Hl]%andb_true_iff Hi]%andb_true_iff.
  cbn [forallb]. rewrite !forallb_app, one_line_app, Ht. apply andb_true_iff. split; [done|].
  apply andb_true_iff. split.
  - clear -Hl. induction (msg_lines m) as [|l ls IH]; [done|]. rewrite fmap_cons. cbn [forallb] in *.
    apply andb_true_iff in Hl as [Hl Hls]. by rewrite one_line_app, Hl, IH.
  - destruct (msg_id m) as [i|]; [|done]. apply andb_true_iff in Hi as [Hi _].
    cbn [forallb]. by rewrite one_line_app, Hi.
Qed.

Lemma wire_all_one_line ms :
  forallb message_ok ms = true → forallb one_line (concat (wire_lines <$> ms)) = true.
Proof.
  induction ms as [|m ms IH]; [done|]. intros [Hm Hms]%andb_true_iff.
  rewrite fmap_cons. cbn [concat]. rewrite forallb_app, IH by done. by rewrite wire_lines_one_line.
Qed.

(** Reading a whole stream of messages. *)
Lemma wire_read eol ms r :
  eol ∈ eols → forallb message_ok ms = true → at_line_start eol r → event_ r = None → complete_lines_ r = [] →
  emitted (put (wire eol ms) r) = emitted r ++ owed (last_event_id_ r) ms ∧
  last_event_id_ (put (wire eol ms) r) = last_id (last_event_id_ r) ms.
Proof.
  intros Heol Hok Hs He Hl. unfold put, wire, parse_events. rewrite parse_stream_fold.
  destruct (push_lines eol (concat (wire_lines <$> ms)) r) as (b & cr & ->);
    [done|by apply wire_all_one_line|done|].
  rewrite Hl. cbn [complete_lines_ set_line app]. by rewrite parse_messages, parse_messages_id.
Qed.

(** Events are only ever added. *)
Lemma parse_line_emitted r line : ∃ out, emitted (parse_line r line) = emitted r ++ out.
Proof.
  unfold parse_line. destruct line as [|c line]; [destruct (event_ r); [by eexists|exists []; by rewrite app_nil_r]|].
  destruct (parse_field (c :: line)) as [name value].
  repeat case_bool_decide; try (by eexists); try (exists []; by rewrite app_nil_r).
  destruct (existsb _ value); exists []; by rewrite app_nil_r.
Qed.

Lemma push_char_emitted r c : emitted (push_char r c) = emitted r.
Proof. unfold push_char. by repeat csplit. Qed.

Lemma put_emitted data r : ∃ out, emitted (put data r) = emitted r ++ out.
Proof.
  unfold put, parse_events. rewrite parse_stream_fold.
  assert (emitted (foldl push_char r data) = emitted r) as Hp.
  { revert r. induction data as [|c data IH]; intros r; [done|]. simpl. by rewrite IH, push_char_emitted. }
  rewrite <- Hp. generalize (foldl push_char r data) as r0. intros r0. clear r Hp data.
  change (emitted r0) with (emitted (set_line (buffered_line_ r0) [] (begin_CR_ r0) r0)).
  generalize (complete_lines_ r0) as ls. generalize (set_line (buffered_line_ r0) [] (begin_CR_ r0) r0) as r.
  intros r ls. revert r. induction ls as [|l ls IH]; intros r; [exists []; by rewrite app_nil_r|].
  simpl. destruct (IH (parse_line r l)) as [o ->]. destruct (parse_line_emitted r l) as [o' ->].
  exists (o' ++ o). by rewrite app_assoc.
Qed.

(** ** Properties *)

(** How the network splits a stream into chunks does not matter: feeding the
    chunks one by one leaves the reader in the same state, and has emitted the
    same events, as feeding the whole stream at once. *)
Theorem sse_chunk_invariance (chunks : list text) (first : text) (r : Reader) :
  foldl (λ r chunk, put chunk r) (put first r) chunks = put (first ++ concat chunks) r.
Proof. apply put_chunks. Qed.

(** C13: the parser inverts the wire format: a stream of messages, written with any
    of the three line endings and cut into chunks anywhere, makes the reader emit
    exactly those messages, in order, each once, with its data lines joined by line
    feeds and with the last id seen where it has none of its own. *)
Theorem sse_roundtrip (eol : text) (ms : list Message) (first : text) (chunks : list text) (r : Reader) :
  eol ∈ eols → forallb message_ok ms = true →
  at_line_start eol r → event_ r = None → complete_lines_ r = [] →
  first ++ concat chunks = wire eol ms →
  emitted (foldl (λ r chunk, put chunk r) (put first r) chunks) = emitted r ++ owed (last_event_id_ r) ms.
Proof. intros Heol Hok Hs He Hl Hw. rewrite put_chunks, Hw. by apply (wire_read eol ms r). Qed.

Definition sample_messages : list Message :=
  [mkMessage (chars "put") [chars "{a:"; chars "1}"] (Some (chars "7"));
   mkMessage (chars "patch") [] None].

Lemma sse_roundtrip_witness :
  emitted (foldl (λ r chunk, put chunk r) (put (wire [CR; LF] sample_messages) new_reader) []) =
  emitted new_reader ++ owed (last_event_id_ new_reader) sample_messages ∧
  owed None sample_messages =
  [mkSseEvent (chars "put") (chars "{a:" ++ LF :: chars "1}") (Some (chars "7"));
   mkSseEvent (chars "patch") [] (Some (chars "7"))].
Proof.
  split; [|reflexivity]. apply (sse_roundtrip [CR; LF]).
  - repeat constructor.
  - reflexivity.
  - by split.
  - reflexivity.
  - reflexivity.
  - by rewrite app_nil_r.
Defined.

(** A line that starts after a CR and ends with a LF is not completed by it when
    nothing else has cleared the pending CR: with mixed line endings the LF is
    swallowed and the next line is glued to it. *)
Lemma mixed_endings_glue_lines :
  complete_lines_ (parse_stream (chars "a" ++ [CR] ++ chars "b" ++ [LF] ++ chars "c" ++ [LF]) new_reader) =
  [chars "a"; chars "bc"].
Proof. reflexivity. Qed.
