(* ===== verification/Backoff.v ===== *)
(** * Reconnection delays

    libs/server-sent-events/src/backoff.cpp, backoff.hpp, backoff_detail.cpp.

    Durations are milliseconds ([std::chrono::milliseconds], a signed 64-bit count),
    times are ticks of [std::chrono::system_clock], of a nanosecond each.  The jitter
    is computed on [double]s.  A conversion of a [double] that does not fit the integer
    type is undefined behaviour: the operation has no result ([None]). *)

From S2P Require Import Prelude Doubles Rounding.
From Stdlib Require Import SpecFloat.

Definition kDefaultJitterRatio : double := S754_finite false 4503599627370496 (-53).
Definition kDefaultResetInterval : Z := 60000.

Record Backoff := mkBackoff {
  initial_ : Z;
  max_ : Z;
  max_exponent_ : Z;
  attempt_ : Z;
  active_since_ : option Z;
  jitter_ratio_ : double;
  reset_interval_ : Z;
}.

(** [std::pow(2, n)] for a natural [n]. *)
Definition d_pow2 (n : Z) : double :=
  if n <=? 1023 then S754_finite false 4503599627370496 (n - 52) else S754_infinity false.

Definition calculate_backoff (initial attempt max_exponent : Z) : option Z :=
  let exponent := Z.min (u64 (attempt - 1)) max_exponent in
  let exponentiated := d_pow2 exponent in
  match d_to_uint64 exponentiated with
  | Some p => Some (s64 (u64 (u64 initial * p)))
  | None => None
  end.

Definition jitter (base : Z) (jitter_ratio : double) (random : double → double) : option Z :=
  let j := random jitter_ratio in
  let base_as_double := d_of_Z base in
  let jittered_base := d_sub base_as_double (d_mul j base_as_double) in
  match d_to_uint64 jittered_base with
  | Some d => Some (s64 d)
  | None => None
  end.

Definition delay_detail (initial max attempt max_exponent : Z) (jitter_ratio : double) (random : double → double) : option Z :=
  match calculate_backoff initial attempt max_exponent with
  | Some backoff => jitter (Z.min backoff max) jitter_ratio random
  | None => None
  end.

Definition delay (random : double → double) (b : Backoff) : option Z :=
  delay_detail (initial_ b) (max_ b) (attempt_ b) (max_exponent_ b) (jitter_ratio_ b) random.

Definition set_attempt (n : Z) (b : Backoff) : Backoff :=
  mkBackoff (initial_ b) (max_ b) (max_exponent_ b) n None (jitter_ratio_ b) (reset_interval_ b).

Definition fail (now : Z) (b : Backoff) : Backoff :=
  match active_since_ b with
  | Some since =>
      let active_duration := Z.quot (now - since) 1000000 in
      if reset_interval_ b <? active_duration then set_attempt 1 b else set_attempt (u64 (attempt_ b + 1)) b
  | None => set_attempt (u64 (attempt_ b + 1)) b
  end.

Definition succeed (now : Z) (b : Backoff) : Backoff :=
  mkBackoff (initial_ b) (max_ b) (max_exponent_ b) (attempt_ b) (Some now) (jitter_ratio_ b) (reset_interval_ b).

(** [std::ceil(std::log2(n))] converted to [std::uint64_t]: no value for the logarithm
    of zero or of a negative number.  The code takes the logarithm in [double]s: below 2^47
    a number that is no power of two has a logarithm further from an integer than the
    rounding of the result, and the value is the exact one written here; for larger numbers
    (delays of more than four thousand years) it may be smaller by one. *)
Definition ceil_log2 (n : Z) : option Z := if 0 <? n then Some (Z.log2_up n) else None.

Definition Backoff_custom (initial max : Z) (jitter_ratio : double) (reset_interval : Z) : option Backoff :=
  match ceil_log2 (Z.quot max (Z.max 1 initial)) with
  | Some max_exponent => Some (mkBackoff initial max max_exponent 1 None jitter_ratio reset_interval)
  | None => None
  end.

Definition Backoff_default (initial max : Z) : option Backoff :=
  Backoff_custom initial max kDefaultJitterRatio kDefaultResetInterval.

(** ** Histories *)

Inductive BackoffOp := Fail (now : Z) | Succeed (now : Z).

Definition backoff_op (b : Backoff) (op : BackoffOp) : Backoff :=
  match op with Fail now => fail now b | Succeed now => succeed now b end.

(** The delay before jitter: the initial delay doubled for every attempt after the
    first, up to the exponent that reaches the largest delay. *)
Definition base_delay (initial max attempt : Z) : Z :=
  Z.min max (initial * 2 ^ Z.min (u64 (attempt - 1)) (Z.log2_up (max / Z.max 1 initial))).

(** ** Lemmas *)

Lemma pow2_uint64 n : 0 <= n < 64 → d_to_uint64 (d_pow2 n) = Some (2 ^ n).
Proof.
  intros Hn. unfold d_to_uint64, d_pow2. rewrite (proj2 (Z.leb_le n 1023)) by lia.
  rewrite (value_int_part _ _ (value_pow2 n ltac:(lia))), scaled_floor.
  assert (0 < 2 ^ n) by (apply Z.pow_pos_nonneg; lia). assert (2 ^ n < 2 ^ 64) by (apply Z.pow_lt_mono_r; lia).
  by rewrite (proj2 (Z.leb_le _ _)), (proj2 (Z.ltb_lt _ _)) by lia.
Qed.

(** The largest exponent keeps the product below twice the largest delay. *)
Lemma exponent_bound initial max :
  0 <= initial <= max → 1 <= max →
  let e := Z.log2_up (max / Z.max 1 initial) in 0 <= e ∧ initial * 2 ^ e <= 2 * max ∧ 2 ^ e <= 2 * max.
Proof.
  intros Hi Hm e. set (q := max / Z.max 1 initial).
  assert (Z.max 1 initial * q <= max) as Hq by (apply Z.mul_div_le; lia).
  assert (1 <= q) as Hq1 by (apply Z.div_le_lower_bound; lia).
  assert (0 <= e) as He by apply Z.log2_up_nonneg.
  assert (2 ^ e <= 2 * q) as Hp.
  { unfold e. fold q. destruct (decide (q = 1)) as [->|]; [done|].
    pose proof (Z.log2_up_spec q). assert (1 <= Z.log2_up q) by (apply (Z.log2_up_le_mono 2); lia).
    rewrite <- (Z.succ_pred (Z.log2_up q)), Z.pow_succ_r by lia. lia. }
  split_and!; [done|nia|nia].
Qed.

Lemma calculate_base initial max attempt :
  0 <= initial <= max → 1 <= max < 2 ^ 53 →
  ∃ b, calculate_backoff initial attempt (Z.log2_up (max / Z.max 1 initial)) = Some b ∧ Z.min b max = base_delay initial max attempt.
Proof.
  intros Hi Hm. destruct (exponent_bound initial max) as (He & Hp & Hp'); [lia..|].
  pose proof (u64_range (attempt - 1)) as Ha. unfold calculate_backoff, base_delay.
  set (e := Z.log2_up _) in *. set (n := Z.min (u64 (attempt - 1)) e).
  assert (0 < 2 ^ n <= 2 ^ e) as Hn.
  { split; [apply Z.pow_pos_nonneg; lia|apply Z.pow_le_mono_r; lia]. }
  assert (n < 64) as Hn64.
  { destruct (Z.le_gt_cases 64 n) as [Hge|]; [|done].
    assert (2 ^ 64 <= 2 ^ n) by (apply Z.pow_le_mono_r; lia). lia. }
  rewrite pow2_uint64 by lia. eexists. split; [done|].
  rewrite (u64_small initial) by lia. rewrite u64_small, s64_small by nia. apply Z.min_comm.
Qed.

(** A draw of the jitter: a number between zero and the ratio. *)
Definition valid_draw (ratio r : double) : bool :=
  valid_binary 53 1024 r && d_leb (S754_zero false) r && d_leb r ratio.

Lemma draw_value r :
  valid_draw kDefaultJitterRatio r = true →
  ∃ v, value r = Some v ∧ 0 <= v <= scaled 1 (-1) ∧ ∀ m e, r = S754_finite false m e → -1074 <= e.
Proof.
  unfold valid_draw. intros [[Hv H0]%andb_true_iff Hh]%andb_true_iff.
  destruct r as [s|[]| |[] m e]; try done.
  { exists 0. split_and!; [done|lia|by apply scaled_nonneg|done]. }
  cbn [valid_binary] in Hv. apply andb_true_iff in Hv as [Hc _]. destruct (canonical_exponent _ _ Hc) as [He Hm].
  exists (scaled (Zpos m) e). unfold value. rewrite (proj2 (Z.leb_le _ _)) by (unfold unit_exp; lia).
  split_and!; [done|apply Z.lt_le_incl, scaled_pos; unfold unit_exp; lia| |by intros ?? [= <- <-]].
  change (-1) with (-53 + 52). rewrite scaled_move by (unfold unit_exp; lia).
  apply (leb_scaled m e 4503599627370496 (-53)); [unfold unit_exp; lia|done|done|exact Hh].
Qed.

(** Jitter takes at most half of the delay away. *)
Lemma jitter_bounds base r :
  0 <= base < 2 ^ 52 → valid_draw kDefaultJitterRatio r = true →
  ∃ d, jitter base kDefaultJitterRatio (λ _, r) = Some d ∧ base / 2 <= d <= base.
Proof.
  intros Hb Hr. destruct (draw_value r Hr) as (v & Hv & Hv2 & Hx).
  assert (0 <= base < 2 ^ 53) as Hb' by lia. pose proof (value_of_Z base Hb') as Hbv. unfold jitter.
  assert (scaled base 0 = 2 * scaled base (-1)) as Htwo.
  { rewrite <- scaled_double by (unfold unit_exp; lia). done. }
  destruct (mul_below r (d_of_Z base) v (scaled base 0) base (-1)) as (w & Hw & Hw2);
    [done|done|lia|lia|exact Hx|intros m e; by apply of_Z_exponent| |].
  { etrans; [apply Z.mul_le_mono_nonneg_r; [by apply scaled_nonneg; lia|apply Hv2]|].
    rewrite <- scaled_mul, Z.mul_1_l by (unfold unit_exp; lia). done. }
  destruct (sub_between (d_of_Z base) (d_mul r (d_of_Z base)) (scaled base 0) w base (2 * base) (-1)) as (x & Hxv & Hx2);
    [done|done|lia|lia|lia| |].
  { rewrite (scaled_factor 2). lia. }
  rewrite (scaled_factor 2), <- Htwo in Hx2. unfold d_to_uint64. rewrite (value_int_part _ _ Hxv).
  pose proof (scaled_floor_between _ _ _ Hx2) as Hf. assert (0 <= base / 2) by (apply Z.div_pos; lia).
  rewrite (proj2 (Z.leb_le _ _)), (proj2 (Z.ltb_lt _ _)) by lia. cbn [andb].
  rewrite s64_small by lia. eauto.
Qed.

(** ** Invariant of the histories *)

Lemma backoff_op_keeps b op :
  initial_ (backoff_op b op) = initial_ b ∧ max_ (backoff_op b op) = max_ b ∧
  max_exponent_ (backoff_op b op) = max_exponent_ b ∧ jitter_ratio_ (backoff_op b op) = jitter_ratio_ b.
Proof. destruct op; simpl; [|done]. unfold fail, set_attempt. by repeat csplit. Qed.

Lemma backoff_history ops b :
  let b' := foldl backoff_op b ops in
  initial_ b' = initial_ b ∧ max_ b' = max_ b ∧ max_exponent_ b' = max_exponent_ b ∧ jitter_ratio_ b' = jitter_ratio_ b.
Proof.
  revert b. induction ops as [|op ops IH]; intros b; [done|]. simpl.
  destruct (IH (backoff_op b op)) as (-> & -> & -> & ->). apply backoff_op_keeps.
Qed.

(** The number of failures in a row: those since the last failure of a connection that
    had been up for longer than the reset interval. *)
Fixpoint streak (reset : Z) (since : option Z) (count : Z) (ops : list BackoffOp) : Z :=
  match ops with
  | [] => count
  | Succeed now :: rest => streak reset (Some now) count rest
  | Fail now :: rest =>
      let long := match since with Some t => reset <? Z.quot (now - t) 1000000 | None => false end in
      streak reset None (if long then 0 else count + 1) rest
  end.

Lemma streak_range reset ops since n : 0 <= n → 0 <= streak reset since n ops <= n + Z.of_nat (length ops).
Proof.
  revert since n. induction ops as [|op ops IH]; intros since n Hn; cbn [streak length]; [lia|].
  destruct op as [now|now]; cbn [streak].
  - destruct (match since with Some t => _ | None => _ end); [specialize (IH None 0)|specialize (IH None (n + 1))]; lia.
  - specialize (IH (Some now) n). lia.
Qed.

Lemma attempt_streak ops b n :
  attempt_ b = 1 + n → 0 <= n → n + Z.of_nat (length ops) < 2 ^ 64 - 1 →
  attempt_ (foldl backoff_op b ops) = 1 + streak (reset_interval_ b) (active_since_ b) n ops.
Proof.
  revert b n. induction ops as [|op ops IH]; intros b n Ha Hn Hlen; [done|]. cbn [length] in Hlen.
  destruct op as [now|now]; cbn [foldl streak backoff_op].
  - unfold fail. destruct (active_since_ b) as [t|] eqn:Et; [destruct (_ <? _) eqn:El|]; cbn [streak].
    + rewrite (IH _ 0); [done|done|lia|lia].
    + rewrite (IH _ (n + 1)); [done| |lia|lia]. cbn. rewrite Ha, u64_small; lia.
    + rewrite (IH _ (n + 1)); [done| |lia|lia]. cbn. rewrite Ha, u64_small; lia.
  - rewrite (IH _ n); [done|done|lia|lia].
Qed.

(** ** Properties *)

(** C18: let the initial delay be between 0 and the largest delay, and the largest delay at
    least 1 ms and below 2^47 ms (an initial delay above the largest one gives the constructor
    no exponent at all).  After any sequence of fewer than 2^64 - 1 successes and failures, and
    for any draw between 0 and the ratio, a backoff with the default jitter of one half has a
    delay: no conversion or product is out of range.  It lies between half of a base and that
    base, the base being the initial delay doubled k times and cut at the largest delay.  Here
    k is the number of failures in a row, counted anew from zero when a connection that had
    been up for more than 60 s fails, but never more than the logarithm to base 2, rounded
    up, of the largest delay divided by the initial one (by 1 for 0), this quotient rounded
    down: with 7 s and 30 s the base stops at 28 s. *)
Theorem backoff_delay_bounds initial max (ops : list BackoffOp) (r : double) :
  0 <= initial <= max → 1 <= max < 2 ^ 47 → Z.of_nat (length ops) < 2 ^ 64 - 1 →
  valid_draw kDefaultJitterRatio r = true →
  ∃ b d, Backoff_default initial max = Some b ∧ delay (λ _, r) (foldl backoff_op b ops) = Some d ∧
    let base := Z.min max (initial * 2 ^ Z.min (streak kDefaultResetInterval None 0 ops) (Z.log2_up (max / Z.max 1 initial))) in
    base / 2 <= d <= base.
Proof.
  intros Hi Hm Hlen Hr. unfold Backoff_default, Backoff_custom, ceil_log2.
  assert (1 <= max / Z.max 1 initial) by (apply Z.div_le_lower_bound; lia).
  rewrite Z.quot_div_nonneg, (proj2 (Z.ltb_lt _ _)) by lia.
  set (b0 := mkBackoff _ _ _ _ _ _ _). pose proof (attempt_streak ops b0 0 eq_refl ltac:(lia) ltac:(lia)) as Ha.
  destruct (backoff_history ops b0) as (H1 & H2 & H3 & H4). exists b0. unfold delay. rewrite H1, H2, H3, H4.
  unfold delay_detail. destruct (calculate_base initial max (attempt_ (foldl backoff_op b0 ops))) as (c & Hc & Hbase); [lia..|].
  cbn [b0 initial_ max_ max_exponent_ jitter_ratio_] in *. rewrite Hc, Hbase.
  assert (0 <= initial * 2 ^ Z.min (u64 (attempt_ (foldl backoff_op b0 ops) - 1)) (Z.log2_up (max / Z.max 1 initial))).
  { apply Z.mul_nonneg_nonneg; [lia|]. apply Z.pow_nonneg. lia. }
  destruct (jitter_bounds (base_delay initial max (attempt_ (foldl backoff_op b0 ops))) r) as (d & Hd & Hd2);
    [unfold base_delay; lia|done|].
  exists d. split; [done|]. split; [done|]. revert Hd2. unfold base_delay. rewrite Ha.
  pose proof (streak_range kDefaultResetInterval ops None 0 ltac:(lia)).
  change (streak (reset_interval_ b0) (active_since_ b0) 0 ops) with (streak kDefaultResetInterval None 0 ops).
  rewrite Z.add_simpl_l, u64_small by lia. done.
Qed.

(** A backoff of one second up to thirty, after two failures in a row and a draw of a
    quarter: four seconds less a quarter. *)
Lemma backoff_delay_bounds_witness :
  let r := S754_finite false 4503599627370496 (-54) in
  let ops := [Fail 0; Fail 5000000000] in
  Backoff_default 1000 30000 ≫= (λ b, delay (λ _, r) (foldl backoff_op b ops)) = Some 3000 ∧
  ∃ b d, Backoff_default 1000 30000 = Some b ∧ delay (λ _, r) (foldl backoff_op b ops) = Some d ∧
    let base := Z.min 30000 (1000 * 2 ^ Z.min (streak kDefaultResetInterval None 0 ops) (Z.log2_up (30000 / Z.max 1 1000))) in
    base / 2 <= d <= base.
Proof.
  intros r ops. split; [by vm_compute|].
  apply (backoff_delay_bounds 1000 30000 ops r); [lia|lia|by vm_compute|by vm_compute].
Defined.

(** An initial delay above the largest one leaves the exponent undefined: the logarithm
    is that of zero. *)
Lemma long_initial_undefined initial max :
  0 <= initial → 0 <= max → Backoff_default initial max = None ↔ max < Z.max 1 initial.
Proof.
  intros Hi Hm. unfold Backoff_default, Backoff_custom, ceil_log2. rewrite Z.quot_div_nonneg by lia.
  destruct (0 <? max / Z.max 1 initial) eqn:E.
  - apply Z.ltb_lt in E. split; [done|]. intros Hlt. rewrite Z.div_small in E; lia.
  - apply Z.ltb_ge in E. split; [intros _|done]. destruct (Z.lt_ge_cases max (Z.max 1 initial)) as [|Hge]; [done|].
    assert (1 <= max / Z.max 1 initial) by (apply Z.div_le_lower_bound; lia). lia.
Qed.

(** The quotient is rounded down before its logarithm is taken: from seven seconds the
    delay doubles to twenty-eight seconds and never reaches the thirty allowed. *)
Lemma largest_delay_unreached n : 0 <= n < 2 ^ 64 → base_delay 7000 30000 n <= 28000.
Proof.
  intros Hn. unfold base_delay. change (Z.log2_up (30000 / Z.max 1 7000)) with 2.
  pose proof (u64_range (n - 1)). assert (2 ^ Z.min (u64 (n - 1)) 2 <= 2 ^ 2) by (apply Z.pow_le_mono_r; lia). lia.
Qed.
