(* ===== verification/Json.v ===== *)
(** * JSON values and the parsing macros

    libs/internal/include/launchdarkly/serialization/value_mapping.hpp and
    src/serialization/value_mapping.cpp, json_primitives.cpp,
    libs/common/include/launchdarkly/detail/serialization/json_primitives.hpp,
    json_errors.hpp and libs/common/src/serialization/json_value.cpp.

    A [boost::json::value] is its kind with its contents.  A JSON object keeps
    its members in insertion order; looking a key up finds its first member.
    A deserializer [tag_invoke(value_to_tag<tl::expected<std::optional<T>, JsonError>>)]
    is a function [json → parsed T]; the [PARSE_*] macros are combinators. *)

From S2P Require Import Prelude OrderedMap Doubles Values AttributeReferences.

Module JsonError.
Inductive t :=
  kSchemaFailure
| kContextMissingKindField | kContextInvalidKindField | kContextMustBeObject
| kContextMissingKeyField | kContextInvalidKeyField | kContextInvalidNameField
| kContextInvalidAnonymousField | kContextInvalidMetaField | kContextInvalidSecondaryField
| kContextInvalidAttributeReference | kContextInvalidPrivateAttributesField
| kTombstoneInvalidDeletedField.
#[global] Instance eq_dec : EqDecision t.
Proof. solve_decision. Defined.
End JsonError.

Inductive json : Type :=
| JNull
| JBool (b : bool)
| JInt64 (z : Z)
| JUint64 (z : Z)
| JDouble (d : double)
| JString (s : string)
| JArray (a : list json)
| JObject (o : list (string * json)).

(** Boost's number conversions.  [to_number<T>(ec)] is [None] when it sets the
    error code. *)
Class BoostJson := {
  to_number_int64 : json → option Z;
  to_number_uint64 : json → option Z;
  to_number_double : json → double;
}.

(** An integer that fits the target type is converted to itself. *)
Class BoostJsonSpec (B : BoostJson) : Prop := {
  int64_of_int64 : ∀ z, - 2 ^ 63 ≤ z < 2 ^ 63 → to_number_int64 (JInt64 z) = Some z;
  int64_of_uint64 : ∀ z, 0 ≤ z < 2 ^ 63 → to_number_int64 (JUint64 z) = Some z;
  uint64_of_uint64 : ∀ z, 0 ≤ z < 2 ^ 64 → to_number_uint64 (JUint64 z) = Some z;
  uint64_of_int64 : ∀ z, 0 ≤ z < 2 ^ 63 → to_number_uint64 (JInt64 z) = Some z;
}.

(** ** Results *)

Abbreviation parsed A := (expected (option A) JsonError.t).

Definition ebind {A B E : Type} (e : expected A E) (k : A → expected B E) : expected B E :=
  match e with Val a => k a | Unexpected err => Unexpected err end.

Notation "'let?' x ':=' e 'in' k" := (ebind e (λ x, k))
  (at level 200, x pattern, e at level 200, k at level 200,
   format "'[v' 'let?'  x  ':='  e  'in' '/' k ']'").

Definition schema_failure {A} : expected A JsonError.t := Unexpected JsonError.kSchemaFailure.

(** ** Objects *)

(** [object::find] *)
Definition obj_find (key : string) (obj : list (string * json)) : option json := find key obj.

(** [object::emplace]: appends unless the key is there. *)
Definition obj_emplace (key : string) (v : json) (obj : list (string * json)) : list (string * json) :=
  match obj_find key obj with Some _ => obj | None => obj ++ [(key, v)] end.

(** [object::insert_or_assign] *)
Fixpoint obj_assign (key : string) (v : json) (obj : list (string * json)) : list (string * json) :=
  match obj with
  | [] => [(key, v)]
  | (k, x) :: obj' => if str_eqb key k then (k, v) :: obj' else (k, x) :: obj_assign key v obj'
  end.

Section Macros.
Context {T A : Type}.

(** [PARSE_CONDITIONAL_FIELD] of a field that is [std::nullopt] beforehand. *)
Definition parse_conditional_field (to : json → parsed T) (obj : list (string * json)) (key : string)
    : parsed T :=
  match obj_find key obj with
  | Some v => to v
  | None => Val None
  end.

(** [PARSE_FIELD_DEFAULT] *)
Definition parse_field_default (to : json → parsed T) (obj : list (string * json)) (key : string)
    (default_value : T) : expected T JsonError.t :=
  let? maybe_val := parse_conditional_field to obj key in
  Val (default default_value maybe_val).

(** [PARSE_REQUIRED_FIELD] *)
Definition parse_required_field (to : json → parsed T) (obj : list (string * json)) (key : string)
    : expected T JsonError.t :=
  match obj_find key obj with
  | None => schema_failure
  | Some v =>
      let? maybe_val := to v in
      match maybe_val with
      | None => schema_failure
      | Some val => Val val
      end
  end.

(** [REQUIRE_OBJECT] *)
Definition require_object (json_value : json) (k : list (string * json) → parsed A) : parsed A :=
  match json_value with
  | JNull => Val None
  | JObject obj => k obj
  | _ => schema_failure
  end.

(** [REQUIRE_STRING] *)
Definition require_string (json_value : json) (k : string → parsed A) : parsed A :=
  match json_value with
  | JNull => Val None
  | JString s => k s
  | _ => schema_failure
  end.
End Macros.

(** ** Primitives *)

Definition to_bool (json_value : json) : parsed bool :=
  match json_value with
  | JNull => Val None
  | JBool b => Val (Some b)
  | _ => schema_failure
  end.

Definition is_number (json_value : json) : bool :=
  match json_value with JInt64 _ | JUint64 _ | JDouble _ => true | _ => false end.

Definition to_uint64 `{BoostJson} (json_value : json) : parsed Z :=
  match json_value with
  | JNull => Val None
  | _ =>
      if negb (is_number json_value) then schema_failure
      else match to_number_uint64 json_value with
           | None => schema_failure
           | Some val => Val (Some val)
           end
  end.

Definition to_int64 `{BoostJson} (json_value : json) : parsed Z :=
  match json_value with
  | JNull => Val None
  | _ =>
      if negb (is_number json_value) then schema_failure
      else match to_number_int64 json_value with
           | None => schema_failure
           | Some val => Val (Some val)
           end
  end.

Definition to_str (json_value : json) : parsed string := require_string json_value (λ s, Val (Some s)).

(** The loop of [std::vector<T>]: null elements are dropped. *)
Fixpoint to_items {T} (to : json → parsed T) (arr : list json) : expected (list T) JsonError.t :=
  match arr with
  | [] => Val []
  | item :: rest =>
      let? maybe_val := to item in
      let? items := to_items to rest in
      Val (match maybe_val with Some v => v :: items | None => items end)
  end.

Definition to_vector {T} (to : json → parsed T) (json_value : json) : parsed (list T) :=
  match json_value with
  | JNull => Val None
  | JArray arr => let? items := to_items to arr in Val (Some items)
  | _ => schema_failure
  end.

(** The loop of [std::unordered_map<std::string, V>]: [emplace] keeps the first. *)
Fixpoint to_entries {V} (to : json → parsed V) (obj : list (string * json)) (descriptors : gmap string V)
    : expected (gmap string V) JsonError.t :=
  match obj with
  | [] => Val descriptors
  | (key, v) :: rest =>
      let? maybe_val := to v in
      to_entries to rest
        (match maybe_val with
         | Some x => match descriptors !! key with Some _ => descriptors | None => <[key := x]> descriptors end
         | None => descriptors
         end)
  end.

Definition to_map {V} (to : json → parsed V) (json_value : json) : parsed (gmap string V) :=
  match json_value with
  | JNull => Val None
  | JObject obj => let? descriptors := to_entries to obj ∅ in Val (Some descriptors)
  | _ => schema_failure
  end.

(** The overload for a bare [T]: null gives the default-constructed one. *)
Definition to_value_or {T} (to : json → parsed T) (zero_value : T) (json_value : json)
    : expected T JsonError.t :=
  let? maybe_val := to json_value in Val (default zero_value maybe_val).

(** [std::string(char const star)] *)
Definition from_c_str (s : string) : string := of_chars (c_str (chars s)).

(** ** Values *)

Fixpoint to_Value `{BoostJson} (json_value : json) : parsed Value :=
  match json_value with
  | JNull => Val (Some VNull)
  | JBool b => Val (Some (VBool b))
  | JInt64 _ | JUint64 _ => Val (Some (VNumber (to_number_double json_value)))
  | JDouble d => Val (Some (VNumber d))
  | JString s => Val (Some (VString s))
  | JArray vec =>
      let? values :=
        (fix go (vec : list json) : expected (list Value) JsonError.t :=
           match vec with
           | [] => Val []
           | item :: rest =>
               let? value := to_Value item in
               let? values := go rest in
               Val (default VNull value :: values)
           end) vec in
      Val (Some (VArray values))
  | JObject obj =>
      let? values :=
        (fix go (obj : list (string * json)) (values : list (string * Value))
            : expected (list (string * Value)) JsonError.t :=
           match obj with
           | [] => Val values
           | (key, v) :: rest =>
               let? value := to_Value v in
               go rest (emplace (from_c_str key) (default VNull value) values)
           end) obj [] in
      Val (Some (VObject values))
  end.

Fixpoint from_Value (ld_value : Value) : json :=
  match ld_value with
  | VNull => JNull
  | VBool b => JBool b
  | VNumber d => JDouble d
  | VString s => JString s
  | VArray a => JArray (map from_Value a)
  | VObject o =>
      JObject ((fix go (o : list (string * Value)) (obj : list (string * json)) : list (string * json) :=
                  match o with
                  | [] => obj
                  | (k, v) :: o' => go o' (obj_assign (from_c_str k) (from_Value v) obj)
                  end) o [])
  end.

(** ** Serialization *)

(** [WriteMinimal] of an optional, of a vector and of a boolean. *)
Definition write_opt {T} (from : T → json) (key : string) (val : option T) (obj : list (string * json))
    : list (string * json) :=
  match val with Some v => obj_emplace key (from v) obj | None => obj end.

Definition write_vec {T} (from : T → json) (key : string) (val : list T) (obj : list (string * json))
    : list (string * json) :=
  match val with [] => obj | _ => obj_emplace key (JArray (from <$> val)) obj end.

(** [WriteMinimal] with a predicate. *)
Definition write_if (key : string) (v : json) (predicate : bool) (obj : list (string * json))
    : list (string * json) :=
  if predicate then obj_emplace key v obj else obj.

Definition write_bool (key : string) (val : bool) (obj : list (string * json)) : list (string * json) :=
  if val then obj_emplace key (JBool val) obj else obj.

(** ** Lemmas: looking up what was written *)

(** What a write adds to a lookup that failed before. *)
Definition or_written (found : option json) (k key : string) (v : option json) : option json :=
  match found with Some x => Some x | None => if str_eqb k key then v else None end.

Lemma find_emplaced k key v obj :
  obj_find k (obj_emplace key v obj) = or_written (obj_find k obj) k key (Some v).
Proof.
  unfold obj_emplace, or_written, obj_find. destruct (find key obj) eqn:E.
  - destruct (find k obj) eqn:F; [done|]. destruct (str_eqb k key) eqn:S; [|done].
    apply str_eqb_eq in S as ->. congruence.
  - rewrite find_app. simpl. destruct (find k obj); [done|]. by destruct (str_eqb k key).
Qed.

Lemma find_write_opt {T} k (from : T → json) key val obj :
  obj_find k (write_opt from key val obj) = or_written (obj_find k obj) k key (from <$> val).
Proof.
  destruct val; simpl; [apply find_emplaced|]. unfold or_written.
  destruct (obj_find k obj); [done|]. by destruct (str_eqb k key).
Qed.

Lemma find_write_if k key v (b : bool) obj :
  obj_find k (write_if key v b obj) = or_written (obj_find k obj) k key (if b then Some v else None).
Proof.
  destruct b; simpl; [apply find_emplaced|]. unfold or_written.
  destruct (obj_find k obj); [done|]. by destruct (str_eqb k key).
Qed.

Lemma find_write_bool k key (b : bool) obj :
  obj_find k (write_bool key b obj) = or_written (obj_find k obj) k key (if b then Some (JBool b) else None).
Proof. by destruct b; [apply find_emplaced|apply (find_write_if k key JNull false)]. Qed.

Lemma find_write_vec {T} k (from : T → json) key val obj :
  obj_find k (write_vec from key val obj) =
  or_written (obj_find k obj) k key (match val with [] => None | _ => Some (JArray (from <$> val)) end).
Proof. by destruct val; [apply (find_write_if k key JNull false)|apply find_emplaced]. Qed.

#[export] Hint Rewrite @find_emplaced @find_write_opt @find_write_if @find_write_bool @find_write_vec : written.

Lemma or_written_ne f k key v : str_eqb k key = false → or_written f k key v = f.
Proof. unfold or_written. intros ->. by destruct f. Qed.

Lemma or_written_eq k v : or_written None k k v = v.
Proof. unfold or_written. by rewrite str_eqb_refl. Qed.

(** Evaluate the lookup of a literal key in an object built by literal writes. *)
Ltac lookup_written :=
  autorewrite with written;
  change (obj_find _ []) with (@None json);
  repeat first [rewrite or_written_ne by reflexivity | rewrite or_written_eq].

(** ** Lemmas: fields read back *)

(** A deserializer inverts a serializer on a value. *)
Definition inverts {T} (to : json → parsed T) (from : T → json) (v : T) : Prop :=
  to (from v) = Val (Some v).

Section Fields.
Context {T : Type} (to : json → parsed T) (from : T → json).

Lemma conditional_written obj key val :
  obj_find key obj = from <$> val → (∀ v, val = Some v → inverts to from v) →
  parse_conditional_field to obj key = Val val.
Proof.
  unfold parse_conditional_field. intros -> Hi. destruct val as [v|]; [|done]. by apply Hi.
Qed.

Lemma required_written obj key v :
  obj_find key obj = Some (from v) → inverts to from v → parse_required_field to obj key = Val v.
Proof. unfold parse_required_field. intros -> ->. done. Qed.

Lemma default_written obj key d v :
  obj_find key obj = Some (from v) → inverts to from v → parse_field_default to obj key d = Val v.
Proof. unfold parse_field_default, parse_conditional_field. intros -> ->. done. Qed.

(** Elements may be stored in a normal form. *)
Lemma to_items_stored (norm : T → T) (l : list T) :
  Forall (λ v, to (from v) = Val (Some (norm v))) l → to_items to (from <$> l) = Val (norm <$> l).
Proof.
  induction 1 as [|v l Hv Hl IH]; [done|]. rewrite !fmap_cons. cbn [to_items].
  by rewrite Hv, IH.
Qed.

Lemma default_all_stored (norm : T → T) obj key l :
  obj_find key obj = Some (JArray (from <$> l)) →
  Forall (λ v, to (from v) = Val (Some (norm v))) l →
  parse_field_default (to_vector to) obj key [] = Val (norm <$> l).
Proof.
  unfold parse_field_default, parse_conditional_field. intros -> Hl.
  unfold to_vector. by rewrite (to_items_stored norm).
Qed.

Lemma default_vec_stored (norm : T → T) obj key l :
  obj_find key obj = match l with [] => None | _ => Some (JArray (from <$> l)) end →
  Forall (λ v, to (from v) = Val (Some (norm v))) l →
  parse_field_default (to_vector to) obj key [] = Val (norm <$> l).
Proof.
  destruct l; [|apply default_all_stored].
  unfold parse_field_default, parse_conditional_field. by intros ->.
Qed.

Lemma default_all_written obj key l :
  obj_find key obj = Some (JArray (from <$> l)) →
  Forall (inverts to from) l → parse_field_default (to_vector to) obj key [] = Val l.
Proof. intros Ho Hl. rewrite (default_all_stored id _ _ l Ho Hl). by rewrite list_fmap_id. Qed.

Lemma default_vec_written obj key l :
  obj_find key obj = match l with [] => None | _ => Some (JArray (from <$> l)) end →
  Forall (inverts to from) l → parse_field_default (to_vector to) obj key [] = Val l.
Proof. intros Ho Hl. rewrite (default_vec_stored id _ _ l Ho Hl). by rewrite list_fmap_id. Qed.
End Fields.

Lemma default_absent {T} (to : json → parsed T) obj key d :
  obj_find key obj = None → parse_field_default to obj key d = Val d.
Proof. unfold parse_field_default, parse_conditional_field. by intros ->. Qed.

Lemma default_bool_written obj key (b : bool) :
  obj_find key obj = (if b then Some (JBool b) else None) →
  parse_field_default to_bool obj key false = Val b.
Proof. unfold parse_field_default, parse_conditional_field. intros ->. by destruct b. Qed.

Lemma str_inverts s : inverts to_str JString s.
Proof. done. Qed.

Lemma strs_invert l : Forall (inverts to_str JString) l.
Proof. by apply Forall_forall. Qed.

Lemma int64_inverts `{BoostJsonSpec} z : - 2 ^ 63 ≤ z < 2 ^ 63 → inverts to_int64 JInt64 z.
Proof. intros. unfold inverts, to_int64. simpl. by rewrite int64_of_int64. Qed.

Lemma int64_inverts_unsigned `{BoostJsonSpec} z : 0 ≤ z < 2 ^ 63 → inverts to_int64 JUint64 z.
Proof. intros. unfold inverts, to_int64. simpl. by rewrite int64_of_uint64. Qed.

Lemma uint64_inverts `{BoostJsonSpec} z : 0 ≤ z < 2 ^ 64 → inverts to_uint64 JUint64 z.
Proof. intros. unfold inverts, to_uint64. simpl. by rewrite uint64_of_uint64. Qed.

#[export] Hint Resolve str_inverts strs_invert int64_inverts int64_inverts_unsigned uint64_inverts : written.

(** ** Lemmas: values *)

Lemma from_c_str_nul_free s : nul_free (chars s) → from_c_str s = s.
Proof. intros Hs. unfold from_c_str. by rewrite c_str_nul_free, of_chars_chars. Qed.

(** No key of an object contains a NUL. *)
Fixpoint keys_nul_free (v : Value) : bool :=
  match v with
  | VArray a => forallb keys_nul_free a
  | VObject o => forallb (λ kv, bool_decide (nul_free (chars (fst kv))) && keys_nul_free (snd kv)) o
  | _ => true
  end.

Lemma obj_assign_new k v obj : obj_find k obj = None → obj_assign k v obj = obj ++ [(k, v)].
Proof.
  unfold obj_find. induction obj as [|[j x] obj IH]; simpl; [done|].
  destruct (str_eqb k j); [done|]. intros H. by rewrite IH.
Qed.

Lemma from_Value_object (o : list (string * Value)) :
  Ordered o → Forall (λ kv, nul_free (chars kv.1)) o →
  from_Value (VObject o) = JObject ((λ kv, (kv.1, from_Value kv.2)) <$> o).
Proof.
  intros Ho Hn. cbn [from_Value]. f_equal.
  rewrite <- (app_nil_l ((λ kv : string * Value, (kv.1, from_Value kv.2)) <$> o)).
  assert (∀ j, j ∈ keys o → j ∉ keys (@nil (string * json))) as Hd by (intros ? _; set_solver).
  revert Hd. generalize (@nil (string * json)) as acc.
  induction o as [|[k v] o IH]; intros acc Hd; [by rewrite app_nil_r|].
  apply ordered_cons in Ho as [Ho Hk]. apply Forall_cons_1 in Hn as [Hn1 Hn].
  simpl in Hn1. rewrite from_c_str_nul_free, obj_assign_new; [|by apply find_None_keys, Hd; set_solver|done].
  rewrite IH; [|done|done|].
  - by rewrite <- app_assoc.
  - intros j Hj. unfold keys. rewrite fmap_app, not_elem_of_app. split; [apply Hd; set_solver|].
    simpl. rewrite list_elem_of_singleton. intros ->.
    eapply Forall_forall in Hk; [|done]. by apply str_lt_irrefl in Hk.
Qed.

Section ValueRoundtrip.
Context `{BoostJson}.

Lemma to_Value_object (o : list (string * Value)) :
  Ordered o → Forall (λ kv, nul_free (chars kv.1)) o →
  Forall (λ kv, inverts to_Value from_Value kv.2) o →
  inverts to_Value from_Value (VObject o).
Proof.
  intros Ho Hn Hi. unfold inverts. rewrite from_Value_object by done. cbn [to_Value].
  assert (∀ x y, x ∈ keys (@nil (string * Value)) → y ∈ keys o → str_lt x y) as Hd.
  { intros ? ? Hx. by inversion Hx. }
  rewrite <- (app_nil_l o) at 2.
  revert Hd. generalize (@nil (string * Value)) as acc. revert Ho Hn Hi.
  induction o as [|[k v] o IH]; intros Ho Hn Hi acc Hd; [by rewrite app_nil_r|].
  apply ordered_cons in Ho as [Ho Hk]. apply Forall_cons_1 in Hn as [Hn1 Hn].
  apply Forall_cons_1 in Hi as [Hv Hi]. simpl in Hn1, Hv. rewrite fmap_cons.
  cbn [fst snd]. rewrite Hv. cbn [ebind default]. rewrite from_c_str_nul_free by done.
  assert (find k acc = None) as Hf.
  { apply find_None_keys. intros Hin. eapply str_lt_irrefl, (Hd k k Hin). set_solver. }
  unfold emplace. rewrite Hf, assign_last.
  - specialize (IH Ho Hn Hi (acc ++ [(k, v)])). rewrite <- app_assoc in IH. apply IH.
    intros x y. unfold keys. rewrite fmap_app, elem_of_app. simpl. rewrite list_elem_of_singleton.
    intros [Hx | ->] Hy; [apply Hd; set_solver|]. by eapply Forall_forall in Hk.
  - apply Forall_forall. intros j Hj. apply Hd; set_solver.
Qed.

Lemma to_Value_array a : Forall (inverts to_Value from_Value) a → inverts to_Value from_Value (VArray a).
Proof.
  intros Ha. unfold inverts. cbn [from_Value to_Value].
  induction Ha as [|v a Hv Ha IH]; [done|]. cbn [map]. rewrite Hv. cbn [ebind default].
  unfold ebind at 1 in IH. unfold ebind at 1 2. by destruct (_ (map from_Value a)); simplify_eq.
Qed.

Lemma Value_inverts v : WfValue v → keys_nul_free v = true → inverts to_Value from_Value v.
Proof.
  induction v as [|b|d|s|a IH|o IH] using Value_nested_ind; try done.
  - rewrite WfValue_array. intros Hw Hn. apply to_Value_array. simpl in Hn.
    induction a as [|x a IHa]; [constructor|]. simpl in Hn. apply andb_true_iff in Hn as [].
    apply Forall_cons_1 in IH as [], Hw as []. constructor; auto.
  - rewrite WfValue_object. intros [Ho Hw] Hn. simpl in Hn.
    assert (Forall (λ kv, nul_free (chars kv.1) ∧ keys_nul_free kv.2 = true) o) as Hk.
    { apply Forall_forall. intros kv Hin. rewrite forallb_forall in Hn.
      apply list_elem_of_In in Hin. apply Hn, andb_true_iff in Hin as [Hin ?].
      by apply bool_decide_eq_true in Hin. }
    apply to_Value_object; [done|by eapply Forall_impl; [exact Hk|intros ? []]|].
    rewrite Forall_forall in IH, Hw, Hk. apply Forall_forall. intros kv Hin.
    apply IH; [done|by apply Hw|by apply Hk].
Qed.
End ValueRoundtrip.

(** ** Properties *)

(** Serializing a value and reading it back gives the same value: the numbers
    bit for bit, nested arrays with their nulls, and objects in key order, for any
    value whose object keys contain no NUL. *)
Theorem value_json_roundtrip `{BoostJson} (v : Value) :
  WfValue v → keys_nul_free v = true → to_Value (from_Value v) = Val (Some v).
Proof. apply Value_inverts. Qed.

(** A key with a NUL is cut at it in both directions. *)
Lemma value_key_truncated `{BoostJson} :
  to_Value (from_Value (VObject [(of_chars ["a"; zero; "b"]%char, VBool true)])) =
  Val (Some (VObject [("a", VBool true)])).
Proof. reflexivity. Qed.

(** An instance of Boost's conversions that satisfies their specification. *)
Definition reference_boost_json : BoostJson := {|
  to_number_int64 j :=
    match j with
    | JInt64 z | JUint64 z => if (- 2 ^ 63 <=? z) && (z <? 2 ^ 63) then Some z else None
    | _ => None
    end;
  to_number_uint64 j :=
    match j with
    | JInt64 z | JUint64 z => if (0 <=? z) && (z <? 2 ^ 64) then Some z else None
    | _ => None
    end;
  to_number_double j := match j with JInt64 z | JUint64 z => d_of_Z z | JDouble d => d | _ => d_of_Z 0 end;
|}.

Lemma reference_boost_json_spec : BoostJsonSpec reference_boost_json.
Proof.
  split; intros z Hz; unfold to_number_int64, to_number_uint64, reference_boost_json;
    destruct (Z.leb_spec (- 2 ^ 63) z), (Z.ltb_spec z (2 ^ 63)), (Z.leb_spec 0 z), (Z.ltb_spec z (2 ^ 64));
    done || lia.
Qed.

Lemma value_json_roundtrip_witness :
  @to_Value reference_boost_json
    (from_Value (VObject [("a", VArray [VNull; VNumber (d_of_Z 3)]); ("b", VString "x")])) =
  Val (Some (VObject [("a", VArray [VNull; VNumber (d_of_Z 3)]); ("b", VString "x")])).
Proof.
  apply (@value_json_roundtrip reference_boost_json); [|reflexivity].
  repeat constructor.
Defined.
