(* ===== verification/JsonModel.v ===== *)
(** * Flags and segments as JSON

    libs/internal/src/serialization: json_context_kind.cpp, json_rule_clause.cpp,
    json_segment.cpp, json_flag.cpp, json_sdk_data_set.cpp, and the headers
    json_context_aware_reference.hpp and json_item_descriptor.hpp.  [to_X] is the
    deserializer of [X], [from_X] its serializer. *)

From S2P Require Import Prelude OrderedMap Doubles Values AttributeReferences DataModel Json.

Abbreviation object := (list (string * json)).

Section Model.
Context `{BoostJson}.

(** ** Context kinds and references *)

Definition to_ContextKind (json_value : json) : parsed string :=
  require_string json_value (λ str,
    if is_empty str then schema_failure else Val (Some (from_c_str str))).

Definition from_ContextKind (context_kind : string) : json := JString context_kind.

(** [ContextAwareReference<Fields>], given the two field names. *)
Definition to_ContextAwareReference (kContextFieldName kReferenceFieldName : string) (obj : object)
    : expected (string * AttributeReference) JsonError.t :=
  let? kind := parse_conditional_field to_ContextKind obj kContextFieldName in
  let? attr_ref_or_name := parse_field_default to_str obj kReferenceFieldName "key" in
  Val (match kind with
       | Some kind => (kind, FromReferenceStr attr_ref_or_name)
       | None => ("user", FromLiteralStr attr_ref_or_name)
       end).

(** ** Clauses *)

Definition op_names : list (string * Op.t) :=
  [("in", Op.kIn); ("endsWith", Op.kEndsWith); ("startsWith", Op.kStartsWith);
   ("matches", Op.kMatches); ("contains", Op.kContains); ("lessThan", Op.kLessThan);
   ("lessThanOrEqual", Op.kLessThanOrEqual); ("greaterThan", Op.kGreaterThan);
   ("greaterThanOrEqual", Op.kGreaterThanOrEqual); ("before", Op.kBefore); ("after", Op.kAfter);
   ("semVerEqual", Op.kSemVerEqual); ("semVerLessThan", Op.kSemVerLessThan);
   ("semVerGreaterThan", Op.kSemVerGreaterThan); ("segmentMatch", Op.kSegmentMatch)].

Definition to_Op (json_value : json) : parsed Op.t :=
  require_string json_value (λ str,
    if is_empty str then Val None
    else Val (Some (default Op.kUnrecognized (find str op_names)))).

Definition from_Op (op : Op.t) : json :=
  match op with
  | Op.kUnrecognized => JNull
  | Op.kIn => JString "in"
  | Op.kStartsWith => JString "startsWith"
  | Op.kEndsWith => JString "endsWith"
  | Op.kMatches => JString "matches"
  | Op.kContains => JString "contains"
  | Op.kLessThan => JString "lessThan"
  | Op.kLessThanOrEqual => JString "lessThanOrEqual"
  | Op.kGreaterThan => JString "greaterThan"
  | Op.kGreaterThanOrEqual => JString "greaterThanOrEqual"
  | Op.kBefore => JString "before"
  | Op.kAfter => JString "after"
  | Op.kSemVerEqual => JString "semVerEqual"
  | Op.kSemVerLessThan => JString "semVerLessThan"
  | Op.kSemVerGreaterThan => JString "semVerGreaterThan"
  | Op.kSegmentMatch => JString "segmentMatch"
  end.

Definition to_Clause (json_value : json) : parsed Clause :=
  require_object json_value (λ obj,
    let? op := parse_required_field to_Op obj "op" in
    let? values := parse_field_default (to_vector to_Value) obj "values" [] in
    let? negate := parse_field_default to_bool obj "negate" false in
    let? kind_and_attr := to_ContextAwareReference "contextKind" "attribute" obj in
    Val (Some (mkClause op values negate kind_and_attr.1 kind_and_attr.2))).

Definition from_Clause (clause : Clause) : json :=
  let obj := obj_emplace "values" (JArray (from_Value <$> clause_values clause)) [] in
  let obj := write_bool "negate" (negate clause) obj in
  let obj := write_if "op" (from_Op (op clause)) (negb (bool_decide (op clause = Op.kUnrecognized))) obj in
  let obj := write_if "attribute" (JString (RedactionName (clause_attribute clause)))
               (Valid (clause_attribute clause)) obj in
  let obj := obj_emplace "contextKind" (JString (clause_contextKind clause)) obj in
  JObject obj.

(** ** Segments *)

Definition to_SegmentTarget (json_value : json) : parsed SegmentTarget :=
  require_object json_value (λ obj,
    let? contextKind := parse_required_field to_ContextKind obj "contextKind" in
    let? values := parse_field_default (to_vector to_str) obj "values" [] in
    Val (Some (mkSegmentTarget contextKind values))).

Definition from_SegmentTarget (target : SegmentTarget) : json :=
  let obj := obj_emplace "values" (JArray (JString <$> st_values target)) [] in
  let obj := obj_emplace "contextKind" (from_ContextKind (st_contextKind target)) obj in
  JObject obj.

Definition to_SegmentRule (json_value : json) : parsed SegmentRule :=
  require_object json_value (λ obj,
    let? clauses := parse_field_default (to_vector to_Clause) obj "clauses" [] in
    let? weight := parse_conditional_field to_uint64 obj "weight" in
    let? id := parse_conditional_field to_str obj "id" in
    let? kind_and_bucket_by := to_ContextAwareReference "rolloutContextKind" "bucketBy" obj in
    Val (Some (mkSegmentRule clauses id weight kind_and_bucket_by.1 kind_and_bucket_by.2))).

Definition from_SegmentRule (rule : SegmentRule) : json :=
  let obj := write_opt JUint64 "weight" (sr_weight rule) [] in
  let obj := write_opt JString "id" (sr_id rule) obj in
  let obj := obj_emplace "clauses" (JArray (from_Clause <$> sr_clauses rule)) obj in
  let obj := obj_emplace "bucketBy" (JString (RedactionName (sr_bucketBy rule))) obj in
  let obj := obj_emplace "rolloutContextKind" (JString (sr_rolloutContextKind rule)) obj in
  JObject obj.

Definition to_Segment (json_value : json) : parsed Segment :=
  match json_value with
  | JNull => Val None
  | JObject [] => Val None
  | JObject obj =>
      let? key := parse_required_field to_str obj "key" in
      let? version := parse_required_field to_uint64 obj "version" in
      let? generation := parse_conditional_field to_uint64 obj "generation" in
      let? salt := parse_conditional_field to_str obj "salt" in
      let? unboundedContextKind := parse_conditional_field to_ContextKind obj "unboundedContextKind" in
      let? excluded := parse_field_default (to_vector to_str) obj "excluded" [] in
      let? included := parse_field_default (to_vector to_str) obj "included" [] in
      let? unbounded := parse_field_default to_bool obj "unbounded" false in
      let? includedContexts := parse_field_default (to_vector to_SegmentTarget) obj "includedContexts" [] in
      let? excludedContexts := parse_field_default (to_vector to_SegmentTarget) obj "excludedContexts" [] in
      let? rules := parse_field_default (to_vector to_SegmentRule) obj "rules" [] in
      Val (Some (mkSegment key version included excluded includedContexts excludedContexts rules
                   salt unbounded unboundedContextKind generation))
  | _ => schema_failure
  end.

Definition from_Segment (segment : Segment) : json :=
  let obj := obj_emplace "key" (JString (segment_key segment)) [] in
  let obj := obj_emplace "version" (JUint64 (segment_version segment)) obj in
  let obj := write_opt JString "salt" (segment_salt segment) obj in
  let obj := write_opt JUint64 "generation" (segment_generation segment) obj in
  let obj := write_opt from_ContextKind "unboundedContextKind" (segment_unboundedContextKind segment) obj in
  let obj := write_bool "unbounded" (segment_unbounded segment) obj in
  let obj := write_vec from_SegmentRule "rules" (segment_rules segment) obj in
  let obj := write_vec JString "excluded" (segment_excluded segment) obj in
  let obj := write_vec from_SegmentTarget "excludedContexts" (segment_excludedContexts segment) obj in
  let obj := write_vec JString "included" (segment_included segment) obj in
  let obj := write_vec from_SegmentTarget "includedContexts" (segment_includedContexts segment) obj in
  JObject obj.

(** ** Flags *)

Definition to_WeightedVariation (json_value : json) : parsed WeightedVariation :=
  require_object json_value (λ obj,
    let? variation := parse_field_default to_int64 obj "variation" 0 in
    let? weight := parse_field_default to_int64 obj "weight" 0 in
    let? untracked := parse_field_default to_bool obj "untracked" false in
    Val (Some (mkWeighted variation weight untracked))).

Definition from_WeightedVariation (w : WeightedVariation) : json :=
  let obj := obj_emplace "variation" (JInt64 (wv_variation w)) [] in
  let obj := obj_emplace "weight" (JInt64 (wv_weight w)) obj in
  let obj := write_bool "untracked" (wv_untracked w) obj in
  JObject obj.

Definition to_RolloutKind (json_value : json) : parsed RolloutKind.t :=
  require_string json_value (λ str,
    Val (Some (if str_eqb str "experiment" then RolloutKind.kExperiment
               else if str_eqb str "rollout" then RolloutKind.kRollout
               else RolloutKind.kUnrecognized))).

Definition from_RolloutKind (kind : RolloutKind.t) : json :=
  match kind with
  | RolloutKind.kUnrecognized => JNull
  | RolloutKind.kExperiment => JString "experiment"
  | RolloutKind.kRollout => JString "rollout"
  end.

Definition to_Rollout (json_value : json) : parsed Rollout :=
  require_object json_value (λ obj,
    let? variations := parse_field_default (to_vector to_WeightedVariation) obj "variations" [] in
    let? kind := parse_field_default to_RolloutKind obj "kind" RolloutKind.kRollout in
    let? seed := parse_conditional_field to_int64 obj "seed" in
    let? kind_and_bucket_by := to_ContextAwareReference "contextKind" "bucketBy" obj in
    Val (Some (mkRollout variations kind seed kind_and_bucket_by.2 kind_and_bucket_by.1))).

Definition from_Rollout (rollout : Rollout) : json :=
  let obj := obj_emplace "variations" (JArray (from_WeightedVariation <$> rollout_variations rollout)) [] in
  let obj := write_if "kind" (from_RolloutKind (rollout_kind rollout))
               (negb (bool_decide (rollout_kind rollout = RolloutKind.kUnrecognized))) obj in
  let obj := write_opt JInt64 "seed" (rollout_seed rollout) obj in
  let obj := obj_emplace "bucketBy" (JString (RedactionName (rollout_bucketBy rollout))) obj in
  let obj := obj_emplace "contextKind" (JString (rollout_contextKind rollout)) obj in
  JObject obj.

(** The returned [std::optional<Variation>] initializes the variant, so the result
    is engaged also when there is no variation. *)
Definition to_VariationOrRollout (json_value : json) : parsed VariationOrRollout :=
  require_object json_value (λ obj,
    let? rollout := parse_conditional_field to_Rollout obj "rollout" in
    match rollout with
    | Some rollout => Val (Some (VRollout rollout))
    | None =>
        let? variation := parse_conditional_field to_int64 obj "variation" in
        Val (Some (VVariation variation))
    end).

Definition from_VariationOrRollout (variation_or_rollout : VariationOrRollout) : json :=
  JObject
    match variation_or_rollout with
    | VRollout arg => obj_emplace "rollout" (from_Rollout arg) []
    | VVariation (Some arg) => obj_emplace "variation" (JInt64 arg) []
    | VVariation None => []
    end.

Definition to_Prerequisite (json_value : json) : parsed Prerequisite :=
  require_object json_value (λ obj,
    let? key := parse_required_field to_str obj "key" in
    let? variation := parse_field_default to_int64 obj "variation" 0 in
    Val (Some (mkPrerequisite key variation))).

Definition from_Prerequisite (prerequisite : Prerequisite) : json :=
  let obj := obj_emplace "key" (JString (prereq_key prerequisite)) [] in
  let obj := obj_emplace "variation" (JInt64 (prereq_variation prerequisite)) obj in
  JObject obj.

Definition to_Target (json_value : json) : parsed Target :=
  require_object json_value (λ obj,
    let? values := parse_field_default (to_vector to_str) obj "values" [] in
    let? variation := parse_field_default to_int64 obj "variation" 0 in
    let? contextKind := parse_field_default to_ContextKind obj "contextKind" "user" in
    Val (Some (mkTarget values variation contextKind))).

Definition from_Target (target : Target) : json :=
  let obj := obj_emplace "values" (JArray (JString <$> target_values target)) [] in
  let obj := obj_emplace "variation" (JInt64 (target_variation target)) obj in
  let obj := obj_emplace "contextKind" (JString (target_contextKind target)) obj in
  JObject obj.

(** [UserTarget]: its [variation] is a [std::uint64_t]. *)
Definition from_UserTarget (target : Target) : json :=
  let obj := obj_emplace "values" (JArray (JString <$> target_values target)) [] in
  let obj := obj_emplace "variation" (JUint64 (u64 (target_variation target))) obj in
  JObject obj.

Definition to_FlagRule (json_value : json) : parsed FlagRule :=
  require_object json_value (λ obj,
    let? trackEvents := parse_field_default to_bool obj "trackEvents" false in
    let? clauses := parse_field_default (to_vector to_Clause) obj "clauses" [] in
    let? id := parse_conditional_field to_str obj "id" in
    let? variation_or_rollout := to_VariationOrRollout json_value in
    Val (Some (mkFlagRule clauses (default (VVariation (Some 0)) variation_or_rollout) trackEvents id))).

(** The visitor tests for [Flag::Rollout] and for [Flag::Variation]; the variant's
    other alternative is [std::optional<Flag::Variation>], which is neither. *)
Definition from_FlagRule (rule : FlagRule) : json :=
  let obj := write_bool "trackEvents" (fr_trackEvents rule) [] in
  let obj := write_opt JString "id" (fr_id rule) obj in
  let obj :=
    match fr_variationOrRollout rule with
    | VRollout arg => obj_emplace "rollout" (from_Rollout arg) obj
    | VVariation _ => obj
    end in
  let obj := obj_emplace "clauses" (JArray (from_Clause <$> fr_clauses rule)) obj in
  JObject obj.

(** [ClientSideAvailability]: (usingMobileKey, usingEnvironmentId) *)
Definition to_ClientSideAvailability (json_value : json) : parsed (bool * bool) :=
  require_object json_value (λ obj,
    let? usingEnvironmentId := parse_field_default to_bool obj "usingEnvironmentId" false in
    let? usingMobileKey := parse_field_default to_bool obj "usingMobileKey" false in
    Val (Some (usingMobileKey, usingEnvironmentId))).

Definition from_ClientSideAvailability (availability : bool * bool) : json :=
  let obj := write_bool "usingEnvironmentId" availability.2 [] in
  let obj := write_bool "usingMobileKey" availability.1 obj in
  JObject obj.

Definition to_Flag (json_value : json) : parsed Flag :=
  require_object json_value (λ obj,
    let? key := parse_required_field to_str obj "key" in
    let? debugEventsUntilDate := parse_conditional_field to_uint64 obj "debugEventsUntilDate" in
    let? salt := parse_conditional_field to_str obj "salt" in
    let? offVariation := parse_conditional_field to_int64 obj "offVariation" in
    let? version := parse_field_default to_uint64 obj "version" 0 in
    let? on := parse_field_default to_bool obj "on" false in
    let? variations := parse_field_default (to_vector to_Value) obj "variations" [] in
    let? prerequisites := parse_field_default (to_vector to_Prerequisite) obj "prerequisites" [] in
    let? targets := parse_field_default (to_vector to_Target) obj "targets" [] in
    let? contextTargets := parse_field_default (to_vector to_Target) obj "contextTargets" [] in
    let? rules := parse_field_default (to_vector to_FlagRule) obj "rules" [] in
    let? clientSide := parse_field_default to_bool obj "clientSide" false in
    let? availability := parse_field_default to_ClientSideAvailability obj "clientSideAvailability"
                           (false, false) in
    let? trackEvents := parse_field_default to_bool obj "trackEvents" false in
    let? trackEventsFallthrough := parse_field_default to_bool obj "trackEventsFallthrough" false in
    let? fallthrough := parse_field_default to_VariationOrRollout obj "fallthrough" (VVariation None) in
    Val (Some (mkFlag key version on fallthrough variations prerequisites targets contextTargets rules
                 offVariation clientSide availability.1 availability.2 salt trackEvents
                 trackEventsFallthrough debugEventsUntilDate))).

Definition from_Flag (flag : Flag) : json :=
  let obj := write_bool "trackEvents" (flag_trackEvents flag) [] in
  let obj := write_bool "clientSide" (flag_clientSide flag) obj in
  let obj := write_bool "on" (flag_on flag) obj in
  let obj := write_bool "trackEventsFallthrough" (flag_trackEventsFallthrough flag) obj in
  let obj := write_opt JUint64 "debugEventsUntilDate" (flag_debugEventsUntilDate flag) obj in
  let obj := write_opt JString "salt" (flag_salt flag) obj in
  let obj := write_opt JInt64 "offVariation" (flag_offVariation flag) obj in
  let obj := obj_emplace "key" (JString (flag_key flag)) obj in
  let obj := obj_emplace "version" (JUint64 (flag_version flag)) obj in
  let obj := write_vec from_Value "variations" (flag_variations flag) obj in
  let obj := write_vec from_FlagRule "rules" (flag_rules flag) obj in
  let obj := write_vec from_Prerequisite "prerequisites" (flag_prerequisites flag) obj in
  let obj := write_if "fallthrough" (from_VariationOrRollout (flag_fallthrough flag))
               (match flag_fallthrough flag with VVariation v => bool_decide (is_Some v) | VRollout _ => true end)
               obj in
  let obj := write_if "clientSideAvailability"
               (from_ClientSideAvailability (flag_usingMobileKey flag, flag_usingEnvironmentId flag))
               (flag_usingEnvironmentId flag || flag_usingMobileKey flag) obj in
  let obj := write_vec from_Target "contextTargets" (flag_contextTargets flag) obj in
  let obj := write_vec from_UserTarget "targets" (flag_targets flag) obj in
  JObject obj.

(** ** Data sets *)

(** [ItemDescriptor<T>], for the constructor of a descriptor from an item. *)
Definition to_ItemDescriptor {T} (to : json → parsed T) (descriptor : T → ItemDescriptor T)
    (json_value : json) : parsed (ItemDescriptor T) :=
  let? item := to json_value in
  Val (match item with None => None | Some item => Some (descriptor item) end).

Definition to_SDKDataSet (json_value : json) : parsed SDKDataSet :=
  require_object json_value (λ obj,
    let? flags := parse_field_default (to_map (to_ItemDescriptor to_Flag flag_descriptor)) obj "flags" ∅ in
    let? segments :=
      parse_field_default (to_map (to_ItemDescriptor to_Segment segment_descriptor)) obj "segments" ∅ in
    Val (Some (mkDataSet flags segments))).
End Model.

(** ** What can be stored *)

Definition int64_ok (z : Z) : Prop := - 2 ^ 63 ≤ z < 2 ^ 63.
Definition uint64_ok (z : Z) : Prop := 0 ≤ z < 2 ^ 64.

(** A context kind: not empty, without NUL. *)
Definition kind_ok (kind : string) : Prop := kind ≠ EmptyString ∧ nul_free (chars kind).

(** A reference that its own redaction name denotes. *)
Definition reference_ok (r : AttributeReference) : Prop := FromReferenceStr (RedactionName r) = r.

Definition value_ok (v : Value) : Prop := WfValue v ∧ keys_nul_free v = true.

(** Every reference made from a reference string can be stored, and so can every
    NUL-free literal. *)
Lemma reference_str_ok s : reference_ok (FromReferenceStr s).
Proof. unfold reference_ok. by rewrite reference_redaction_name. Qed.

Lemma literal_str_ok s : nul_free (chars s) → reference_ok (FromLiteralStr s).
Proof. apply literal_reference_stable. Qed.

Definition clause_ok (c : Clause) : Prop :=
  op c ≠ Op.kUnrecognized ∧ Forall value_ok (clause_values c) ∧
  kind_ok (clause_contextKind c) ∧ reference_ok (clause_attribute c).

Definition segment_target_ok (t : SegmentTarget) : Prop := kind_ok (st_contextKind t).

Definition segment_rule_ok (r : SegmentRule) : Prop :=
  Forall clause_ok (sr_clauses r) ∧ (∀ w, sr_weight r = Some w → uint64_ok w) ∧
  kind_ok (sr_rolloutContextKind r) ∧ reference_ok (sr_bucketBy r).

Definition segment_ok (s : Segment) : Prop :=
  uint64_ok (segment_version s) ∧ (∀ g, segment_generation s = Some g → uint64_ok g) ∧
  (∀ k, segment_unboundedContextKind s = Some k → kind_ok k) ∧
  Forall segment_target_ok (segment_includedContexts s) ∧
  Forall segment_target_ok (segment_excludedContexts s) ∧
  Forall segment_rule_ok (segment_rules s).

Definition weighted_ok (w : WeightedVariation) : Prop := int64_ok (wv_variation w) ∧ int64_ok (wv_weight w).

Definition rollout_ok (r : Rollout) : Prop :=
  Forall weighted_ok (rollout_variations r) ∧ (∀ s, rollout_seed r = Some s → int64_ok s) ∧
  kind_ok (rollout_contextKind r) ∧ reference_ok (rollout_bucketBy r).

Definition variation_or_rollout_ok (v : VariationOrRollout) : Prop :=
  match v with
  | VVariation (Some z) => int64_ok z
  | VVariation None => True
  | VRollout r => rollout_ok r
  end.

Definition target_ok (t : Target) : Prop := int64_ok (target_variation t) ∧ kind_ok (target_contextKind t).
(** A target of "targets" is written with an unsigned variation. *)
Definition user_target_ok (t : Target) : Prop := 0 ≤ target_variation t < 2 ^ 63.

Definition flag_rule_ok (r : FlagRule) : Prop :=
  Forall clause_ok (fr_clauses r) ∧ variation_or_rollout_ok (fr_variationOrRollout r).

Definition flag_ok (f : Flag) : Prop :=
  uint64_ok (flag_version f) ∧ (∀ v, flag_offVariation f = Some v → int64_ok v) ∧
  (∀ d, flag_debugEventsUntilDate f = Some d → uint64_ok d) ∧
  variation_or_rollout_ok (flag_fallthrough f) ∧ Forall value_ok (flag_variations f) ∧
  Forall (λ p, int64_ok (prereq_variation p)) (flag_prerequisites f) ∧
  Forall user_target_ok (flag_targets f) ∧ Forall target_ok (flag_contextTargets f) ∧
  Forall flag_rule_ok (flag_rules f).

(** ** What is read back: the stored form of each structure *)

(** An invalid attribute is not written, and reads back as the default "key". *)
Definition stored_clause (c : Clause) : Clause :=
  if Valid (clause_attribute c) then c
  else mkClause (op c) (clause_values c) (negate c) (clause_contextKind c) (FromReferenceStr "key").

Definition stored_segment_rule (r : SegmentRule) : SegmentRule :=
  mkSegmentRule (stored_clause <$> sr_clauses r) (sr_id r) (sr_weight r) (sr_rolloutContextKind r) (sr_bucketBy r).

Definition stored_segment (s : Segment) : Segment :=
  mkSegment (segment_key s) (segment_version s) (segment_included s) (segment_excluded s)
    (segment_includedContexts s) (segment_excludedContexts s) (stored_segment_rule <$> segment_rules s)
    (segment_salt s) (segment_unbounded s) (segment_unboundedContextKind s) (segment_generation s).

(** An unrecognized kind is not written, and reads back as a rollout. *)
Definition stored_rollout_kind (kind : RolloutKind.t) : RolloutKind.t :=
  match kind with
  | RolloutKind.kUnrecognized | RolloutKind.kRollout => RolloutKind.kRollout
  | RolloutKind.kExperiment => RolloutKind.kExperiment
  end.

Definition stored_rollout (r : Rollout) : Rollout :=
  mkRollout (rollout_variations r) (stored_rollout_kind (rollout_kind r)) (rollout_seed r) (rollout_bucketBy r) (rollout_contextKind r).

Definition stored_fallthrough (v : VariationOrRollout) : VariationOrRollout :=
  match v with VRollout r => VRollout (stored_rollout r) | _ => v end.

(** A rule's plain variation is not written. *)
Definition stored_flag_rule (r : FlagRule) : FlagRule :=
  mkFlagRule (stored_clause <$> fr_clauses r)
    (match fr_variationOrRollout r with
     | VRollout ro => VRollout (stored_rollout ro)
     | VVariation _ => VVariation None
     end) (fr_trackEvents r) (fr_id r).

(** A user target is written without its context kind. *)
Definition stored_user_target (t : Target) : Target := mkTarget (target_values t) (target_variation t) "user".

Definition stored_flag (f : Flag) : Flag :=
  mkFlag (flag_key f) (flag_version f) (flag_on f) (stored_fallthrough (flag_fallthrough f))
    (flag_variations f) (flag_prerequisites f) (stored_user_target <$> flag_targets f)
    (flag_contextTargets f) (stored_flag_rule <$> flag_rules f) (flag_offVariation f)
    (flag_clientSide f) (flag_usingMobileKey f) (flag_usingEnvironmentId f) (flag_salt f)
    (flag_trackEvents f) (flag_trackEventsFallthrough f) (flag_debugEventsUntilDate f).

(** ** Lemmas *)

Section Roundtrip.
Context `{BJ : BoostJsonSpec}.

Lemma kind_inverts kind : kind_ok kind → inverts to_ContextKind from_ContextKind kind.
Proof.
  intros [Hne Hn]. unfold inverts, to_ContextKind, from_ContextKind. simpl.
  destruct kind; [done|]. cbn [is_empty]. by rewrite from_c_str_nul_free.
Qed.

Lemma values_invert l : Forall value_ok l → Forall (inverts to_Value from_Value) l.
Proof. intros Hl. eapply Forall_impl; [exact Hl|]. intros v [??]. by apply Value_inverts. Qed.

Lemma reference_written ckey rkey obj kind r (b : bool) :
  obj_find ckey obj = Some (JString kind) → kind_ok kind →
  obj_find rkey obj = (if b then Some (JString (RedactionName r)) else None) → reference_ok r →
  to_ContextAwareReference ckey rkey obj = Val (kind, if b then r else FromReferenceStr "key").
Proof.
  intros Hc Hk Hr Hok. unfold to_ContextAwareReference.
  rewrite (conditional_written _ from_ContextKind _ _ (Some kind)); [|done|].
  2:{ intros ? [= <-]. by apply kind_inverts. }
  cbn [ebind]. destruct b.
  - rewrite (default_written _ JString _ _ _ (RedactionName r)) by done. simpl. by rewrite Hok.
  - by rewrite default_absent.
Qed.

Lemma op_inverts o : o ≠ Op.kUnrecognized → inverts to_Op from_Op o.
Proof. by destruct o. Qed.

Lemma clause_stored c : clause_ok c → to_Clause (from_Clause c) = Val (Some (stored_clause c)).
Proof.
  intros (Hop & Hv & Hk & Hr). unfold to_Clause, from_Clause. cbv zeta. cbn [require_object].
  rewrite (required_written _ from_Op _ _ (op c)); [|lookup_written; by rewrite bool_decide_eq_false_2|by apply op_inverts].
  cbn [ebind].
  rewrite (default_all_written _ from_Value _ _ (clause_values c)); [|by lookup_written|by apply values_invert].
  cbn [ebind]. rewrite (default_bool_written _ _ (negate c)) by by lookup_written. cbn [ebind].
  rewrite (reference_written _ _ _ (clause_contextKind c) (clause_attribute c) (Valid (clause_attribute c)));
    [|by lookup_written|done|by lookup_written|done].
  cbn. unfold stored_clause. destruct (Valid _); by destruct c.
Qed.

Lemma segment_target_inverts t : segment_target_ok t → inverts to_SegmentTarget from_SegmentTarget t.
Proof.
  intros Hk. unfold inverts, to_SegmentTarget, from_SegmentTarget. cbv zeta. cbn [require_object].
  rewrite (required_written _ from_ContextKind _ _ (st_contextKind t));
    [|by lookup_written|by apply kind_inverts].
  rewrite (default_all_written _ JString _ _ (st_values t)); [|by lookup_written|apply strs_invert].
  by destruct t.
Qed.

Lemma clauses_stored l :
  Forall clause_ok l → Forall (λ c, to_Clause (from_Clause c) = Val (Some (stored_clause c))) l.
Proof. intros Hl. eapply Forall_impl; [exact Hl|]. apply clause_stored. Qed.

Lemma segment_rule_stored r :
  segment_rule_ok r → to_SegmentRule (from_SegmentRule r) = Val (Some (stored_segment_rule r)).
Proof.
  intros (Hc & Hw & Hk & Hr). unfold to_SegmentRule, from_SegmentRule. cbv zeta. cbn [require_object].
  rewrite (default_all_stored _ from_Clause stored_clause _ _ (sr_clauses r));
    [|by lookup_written|by apply clauses_stored]. cbn [ebind].
  rewrite (conditional_written _ JUint64 _ _ (sr_weight r));
    [|by lookup_written|intros; by apply uint64_inverts, Hw].
  cbn [ebind]. rewrite (conditional_written _ JString _ _ (sr_id r)) by by lookup_written. cbn [ebind].
  by rewrite (reference_written _ _ _ (sr_rolloutContextKind r) (sr_bucketBy r) true)
    by first [done | by lookup_written].
Qed.

(** [from_Segment] never writes the empty object. *)
Lemma to_Segment_nonempty obj v :
  obj_find "key" obj = Some v →
  to_Segment (JObject obj) =
    (let? key := parse_required_field to_str obj "key" in
     let? version := parse_required_field to_uint64 obj "version" in
     let? generation := parse_conditional_field to_uint64 obj "generation" in
     let? salt := parse_conditional_field to_str obj "salt" in
     let? unboundedContextKind := parse_conditional_field to_ContextKind obj "unboundedContextKind" in
     let? excluded := parse_field_default (to_vector to_str) obj "excluded" [] in
     let? included := parse_field_default (to_vector to_str) obj "included" [] in
     let? unbounded := parse_field_default to_bool obj "unbounded" false in
     let? includedContexts := parse_field_default (to_vector to_SegmentTarget) obj "includedContexts" [] in
     let? excludedContexts := parse_field_default (to_vector to_SegmentTarget) obj "excludedContexts" [] in
     let? rules := parse_field_default (to_vector to_SegmentRule) obj "rules" [] in
     Val (Some (mkSegment key version included excluded includedContexts excludedContexts rules
                  salt unbounded unboundedContextKind generation))).
Proof. by destruct obj. Qed.

Lemma segment_stored s : segment_ok s → to_Segment (from_Segment s) = Val (Some (stored_segment s)).
Proof.
  intros (Hv & Hg & Hu & Hi & He & Hr). unfold from_Segment. cbv zeta.
  erewrite to_Segment_nonempty by by lookup_written.
  rewrite (required_written _ JString _ _ (segment_key s)) by by lookup_written. cbn [ebind].
  rewrite (required_written _ JUint64 _ _ (segment_version s));
    [|by lookup_written|by apply uint64_inverts]. cbn [ebind].
  rewrite (conditional_written _ JUint64 _ _ (segment_generation s));
    [|by lookup_written|intros; by apply uint64_inverts, Hg]. cbn [ebind].
  rewrite (conditional_written _ JString _ _ (segment_salt s)) by by lookup_written. cbn [ebind].
  rewrite (conditional_written _ from_ContextKind _ _ (segment_unboundedContextKind s));
    [|by lookup_written|intros; by apply kind_inverts, Hu]. cbn [ebind].
  rewrite (default_vec_written _ JString _ _ (segment_excluded s)) by (by lookup_written || apply strs_invert).
  cbn [ebind].
  rewrite (default_vec_written _ JString _ _ (segment_included s)) by (by lookup_written || apply strs_invert).
  cbn [ebind]. rewrite (default_bool_written _ _ (segment_unbounded s)) by by lookup_written. cbn [ebind].
  rewrite (default_vec_written _ from_SegmentTarget _ _ (segment_includedContexts s));
    [|by lookup_written|by eapply Forall_impl, segment_target_inverts]. cbn [ebind].
  rewrite (default_vec_written _ from_SegmentTarget _ _ (segment_excludedContexts s));
    [|by lookup_written|by eapply Forall_impl, segment_target_inverts]. cbn [ebind].
  rewrite (default_vec_stored _ from_SegmentRule stored_segment_rule _ _ (segment_rules s));
    [|by lookup_written|by eapply Forall_impl, segment_rule_stored]. done.
Qed.

Lemma weighted_inverts w : weighted_ok w → inverts to_WeightedVariation from_WeightedVariation w.
Proof.
  intros [Hv Hw]. unfold inverts, to_WeightedVariation, from_WeightedVariation. cbv zeta.
  cbn [require_object].
  rewrite (default_written _ JInt64 _ _ _ (wv_variation w)); [|by lookup_written|by apply int64_inverts].
  rewrite (default_written _ JInt64 _ _ _ (wv_weight w)); [|by lookup_written|by apply int64_inverts].
  cbn [ebind]. rewrite (default_bool_written _ _ (wv_untracked w)) by by lookup_written.
  by destruct w.
Qed.

Lemma rollout_kind_written obj kind :
  obj_find "kind" obj =
    (if negb (bool_decide (kind = RolloutKind.kUnrecognized)) then Some (from_RolloutKind kind) else None) →
  parse_field_default to_RolloutKind obj "kind" RolloutKind.kRollout =
  Val (stored_rollout_kind kind).
Proof.
  unfold parse_field_default, parse_conditional_field. intros ->. by destruct kind.
Qed.

Lemma rollout_stored r : rollout_ok r → to_Rollout (from_Rollout r) = Val (Some (stored_rollout r)).
Proof.
  intros (Hw & Hs & Hk & Hr). unfold to_Rollout, from_Rollout. cbv zeta. cbn [require_object].
  rewrite (default_all_written _ from_WeightedVariation _ _ (rollout_variations r));
    [|by lookup_written|by eapply Forall_impl, weighted_inverts]. cbn [ebind].
  rewrite (rollout_kind_written _ (rollout_kind r)) by by lookup_written. cbn [ebind].
  rewrite (conditional_written _ JInt64 _ _ (rollout_seed r));
    [|by lookup_written|intros; by apply int64_inverts, Hs]. cbn [ebind].
  by rewrite (reference_written _ _ _ (rollout_contextKind r) (rollout_bucketBy r) true)
    by first [done | by lookup_written].
Qed.

(** Reading the variation or rollout of any object with at most these members. *)
Lemma variation_or_rollout_written obj v :
  variation_or_rollout_ok v →
  obj_find "rollout" obj = match v with VRollout r => Some (from_Rollout r) | _ => None end →
  obj_find "variation" obj = match v with VVariation z => JInt64 <$> z | _ => None end →
  to_VariationOrRollout (JObject obj) = Val (Some (stored_fallthrough v)).
Proof.
  intros Hok Hr Hv. unfold to_VariationOrRollout. cbn [require_object].
  unfold parse_conditional_field at 1. rewrite Hr. destruct v as [z|r].
  - cbn [ebind]. rewrite (conditional_written _ JInt64 _ _ z); [done|done|].
    intros ? ->. by apply int64_inverts.
  - by rewrite rollout_stored.
Qed.

Lemma fallthrough_written obj v :
  variation_or_rollout_ok v →
  obj_find "fallthrough" obj =
    (if match v with VVariation v => bool_decide (is_Some v) | VRollout _ => true end
     then Some (from_VariationOrRollout v) else None) →
  parse_field_default to_VariationOrRollout obj "fallthrough" (VVariation None) =
  Val (stored_fallthrough v).
Proof.
  intros Hok Hf. unfold parse_field_default, parse_conditional_field. rewrite Hf.
  unfold from_VariationOrRollout. destruct v as [[z|]|r]; [|done|].
  - rewrite bool_decide_eq_true_2 by done. cbv iota. rewrite (variation_or_rollout_written _ (VVariation (Some z))); done.
  - cbv iota. rewrite (variation_or_rollout_written _ (VRollout r)); done.
Qed.

Lemma prerequisite_inverts p :
  int64_ok (prereq_variation p) → inverts to_Prerequisite from_Prerequisite p.
Proof.
  intros Hv. unfold inverts, to_Prerequisite, from_Prerequisite. cbv zeta. cbn [require_object].
  rewrite (required_written _ JString _ _ (prereq_key p)) by by lookup_written.
  rewrite (default_written _ JInt64 _ _ _ (prereq_variation p)); [|by lookup_written|by apply int64_inverts].
  by destruct p.
Qed.

Lemma target_inverts t : target_ok t → inverts to_Target from_Target t.
Proof.
  intros [Hv Hk]. unfold inverts, to_Target, from_Target. cbv zeta. cbn [require_object].
  rewrite (default_all_written _ JString _ _ (target_values t)); [|by lookup_written|apply strs_invert].
  rewrite (default_written _ JInt64 _ _ _ (target_variation t)); [|by lookup_written|by apply int64_inverts].
  rewrite (default_written _ from_ContextKind _ _ _ (target_contextKind t));
    [|by lookup_written|by apply kind_inverts].
  by destruct t.
Qed.

Lemma user_target_stored t :
  user_target_ok t → to_Target (from_UserTarget t) = Val (Some (stored_user_target t)).
Proof.
  intros Hv. unfold to_Target, from_UserTarget. cbv zeta. cbn [require_object].
  unfold user_target_ok in Hv. rewrite u64_small by lia.
  rewrite (default_all_written _ JString _ _ (target_values t)); [|by lookup_written|apply strs_invert].
  rewrite (default_written _ JUint64 _ _ _ (target_variation t));
    [|by lookup_written|by apply int64_inverts_unsigned].
  by rewrite default_absent by by lookup_written.
Qed.

Lemma flag_rule_stored r :
  flag_rule_ok r → to_FlagRule (from_FlagRule r) = Val (Some (stored_flag_rule r)).
Proof.
  intros [Hc Hv]. unfold to_FlagRule, from_FlagRule. cbv zeta. cbn [require_object].
  unfold stored_flag_rule. destruct (fr_variationOrRollout r) as [z|ro].
  all: rewrite (default_bool_written _ _ (fr_trackEvents r)) by by lookup_written.
  all: cbn [ebind]; rewrite (default_all_stored _ from_Clause stored_clause _ _ (fr_clauses r));
    [|by lookup_written|by apply clauses_stored].
  all: cbn [ebind]; rewrite (conditional_written _ JString _ _ (fr_id r)) by by lookup_written.
  all: cbn [ebind].
  - by rewrite (variation_or_rollout_written _ (VVariation None)) by by lookup_written.
  - by rewrite (variation_or_rollout_written _ (VRollout ro)) by first [done | by lookup_written].
Qed.

Lemma availability_written obj (mobile env : bool) :
  obj_find "clientSideAvailability" obj =
    (if env || mobile then Some (from_ClientSideAvailability (mobile, env)) else None) →
  parse_field_default to_ClientSideAvailability obj "clientSideAvailability" (false, false) =
  Val (mobile, env).
Proof.
  unfold parse_field_default, parse_conditional_field. intros ->. by destruct mobile, env.
Qed.

Lemma flag_stored f : flag_ok f → to_Flag (from_Flag f) = Val (Some (stored_flag f)).
Proof.
  intros (Hv & Ho & Hd & Hf & Hvs & Hp & Ht & Hct & Hr). unfold to_Flag, from_Flag. cbv zeta.
  cbn [require_object].
  rewrite (required_written _ JString _ _ (flag_key f)) by by lookup_written. cbn [ebind].
  rewrite (conditional_written _ JUint64 _ _ (flag_debugEventsUntilDate f));
    [|by lookup_written|intros; by apply uint64_inverts, Hd]. cbn [ebind].
  rewrite (conditional_written _ JString _ _ (flag_salt f)) by by lookup_written. cbn [ebind].
  rewrite (conditional_written _ JInt64 _ _ (flag_offVariation f));
    [|by lookup_written|intros; by apply int64_inverts, Ho]. cbn [ebind].
  rewrite (default_written _ JUint64 _ _ _ (flag_version f));
    [|by lookup_written|by apply uint64_inverts]. cbn [ebind].
  rewrite (default_bool_written _ _ (flag_on f)) by by lookup_written. cbn [ebind].
  rewrite (default_vec_written _ from_Value _ _ (flag_variations f));
    [|by lookup_written|by apply values_invert]. cbn [ebind].
  rewrite (default_vec_written _ from_Prerequisite _ _ (flag_prerequisites f));
    [|by lookup_written|by eapply Forall_impl, prerequisite_inverts]. cbn [ebind].
  rewrite (default_vec_stored _ from_UserTarget stored_user_target _ _ (flag_targets f));
    [|by lookup_written|by eapply Forall_impl, user_target_stored]. cbn [ebind].
  rewrite (default_vec_written _ from_Target _ _ (flag_contextTargets f));
    [|by lookup_written|by eapply Forall_impl, target_inverts]. cbn [ebind].
  rewrite (default_vec_stored _ from_FlagRule stored_flag_rule _ _ (flag_rules f));
    [|by lookup_written|by eapply Forall_impl, flag_rule_stored]. cbn [ebind].
  rewrite (default_bool_written _ _ (flag_clientSide f)) by by lookup_written. cbn [ebind].
  rewrite (availability_written _ (flag_usingMobileKey f) (flag_usingEnvironmentId f)) by by lookup_written.
  cbn [ebind]. rewrite (default_bool_written _ _ (flag_trackEvents f)) by by lookup_written. cbn [ebind].
  rewrite (default_bool_written _ _ (flag_trackEventsFallthrough f)) by by lookup_written. cbn [ebind].
  by rewrite (fallthrough_written _ (flag_fallthrough f)) by first [done | by lookup_written].
Qed.
End Roundtrip.

(** ** Properties *)

(** Nothing of the flag is changed by storing it. *)
Definition lossless_clause (c : Clause) : bool := Valid (clause_attribute c).
Definition lossless_rollout (r : Rollout) : bool :=
  negb (bool_decide (rollout_kind r = RolloutKind.kUnrecognized)).
Definition lossless_rule (r : FlagRule) : bool :=
  forallb lossless_clause (fr_clauses r) &&
  match fr_variationOrRollout r with
  | VRollout ro => lossless_rollout ro
  | VVariation z => bool_decide (z = None)
  end.
Definition lossless_flag (f : Flag) : bool :=
  match flag_fallthrough f with VRollout r => lossless_rollout r | VVariation _ => true end &&
  forallb (λ t, str_eqb (target_contextKind t) "user") (flag_targets f) &&
  forallb lossless_rule (flag_rules f).
Definition lossless_segment (s : Segment) : bool :=
  forallb (λ r, forallb lossless_clause (sr_clauses r)) (segment_rules s).

Lemma fmap_lossless {A} (f : A → A) (p : A → bool) (l : list A) :
  (∀ x, p x = true → f x = x) → forallb p l = true → f <$> l = l.
Proof.
  intros Hf. induction l as [|x l IH]; [done|]. intros [Hx Hl]%andb_true_iff.
  rewrite fmap_cons, Hf by done. f_equal. by apply IH.
Qed.

Lemma stored_clause_lossless c : lossless_clause c = true → stored_clause c = c.
Proof. unfold stored_clause, lossless_clause. by intros ->. Qed.

Lemma stored_rollout_lossless r : lossless_rollout r = true → stored_rollout r = r.
Proof. unfold lossless_rollout. destruct r as [? []]; done. Qed.

Lemma stored_rule_lossless r : lossless_rule r = true → stored_flag_rule r = r.
Proof.
  unfold lossless_rule, stored_flag_rule. intros [Hc Hv]%andb_true_iff.
  rewrite (fmap_lossless _ _ _ stored_clause_lossless Hc). destruct r as [? [z|ro] ??]; simpl in *.
  - by apply bool_decide_eq_true in Hv as ->.
  - by rewrite stored_rollout_lossless.
Qed.

Lemma stored_flag_lossless f : lossless_flag f = true → stored_flag f = f.
Proof.
  unfold lossless_flag. intros [[Hf Ht]%andb_true_iff Hr]%andb_true_iff. unfold stored_flag.
  rewrite (fmap_lossless stored_flag_rule _ _ stored_rule_lossless Hr).
  rewrite (fmap_lossless stored_user_target _ _) with (2 := Ht).
  2:{ intros [vs v k]. simpl. by intros ->%str_eqb_eq. }
  destruct f as [? ? ? [z|r]]; simpl in *; [done|]. by rewrite stored_rollout_lossless.
Qed.

Lemma stored_segment_lossless s : lossless_segment s = true → stored_segment s = s.
Proof.
  unfold lossless_segment. intros Hr. unfold stored_segment.
  rewrite (fmap_lossless stored_segment_rule _ _) with (2 := Hr); [by destruct s|].
  intros r Hc. unfold stored_segment_rule. rewrite (fmap_lossless _ _ _ stored_clause_lossless Hc).
  by destruct r.
Qed.

(** A segment with recognized operators and valid context kinds survives the
    trip through JSON: it reads back as its stored form, which is the segment
    itself when every clause has a valid attribute. *)
Theorem segment_json_roundtrip `{BoostJsonSpec} (s : Segment) (Hok : segment_ok s) :
  to_Segment (from_Segment s) = Val (Some (stored_segment s)) ∧
  (lossless_segment s = true → to_Segment (from_Segment s) = Val (Some s)).
Proof.
  rewrite segment_stored by done. split; [done|]. intros Hl. by rewrite stored_segment_lossless.
Qed.

(** C11: a flag with recognized operators, 64-bit numbers and valid context kinds
    survives the trip through JSON except for what its serializer does not write:
    it reads back as [stored_flag], in which a rule's plain variation is gone, and
    which is the flag itself when its rules have rollouts (or nothing). *)
Theorem flag_json_roundtrip `{BoostJsonSpec} (f : Flag) (Hok : flag_ok f) :
  to_Flag (from_Flag f) = Val (Some (stored_flag f)) ∧
  (lossless_flag f = true → to_Flag (from_Flag f) = Val (Some f)).
Proof.
  rewrite flag_stored by done. split; [done|]. intros Hl. by rewrite stored_flag_lossless.
Qed.

Definition sample_segment : Segment :=
  mkSegment "seg" 87 ["bob"; "sam"] [] [mkSegmentTarget "org" ["x"]] []
    [mkSegmentRule [mkClause Op.kIn [VString "a"] true "user" (FromReferenceStr "/potato")]
       (Some "id") (Some 300) "user" (FromReferenceStr "/happy")]
    (Some "salty") true (Some "company") (Some 12).

Lemma segment_json_roundtrip_witness :
  @to_Segment reference_boost_json (from_Segment sample_segment) = Val (Some sample_segment).
Proof.
  apply (@segment_json_roundtrip reference_boost_json reference_boost_json_spec); [|reflexivity].
  assert (∀ k, k ∈ ["user"; "org"; "company"] → kind_ok k) as Hk.
  { intros k Hk. unfold kind_ok. revert k Hk. apply Forall_forall. by_decide. }
  split_and!; unfold uint64_ok; cbn [sample_segment segment_version segment_generation
    segment_unboundedContextKind segment_includedContexts segment_excludedContexts segment_rules].
  - unfold uint64_ok. by_decide.
  - intros ? [= <-]. by_decide.
  - intros ? [= <-]. apply Hk. set_solver.
  - constructor; [|constructor]. apply Hk. set_solver.
  - constructor.
  - constructor; [|constructor]. split_and!.
    + constructor; [|constructor]. split_and!; [done| |apply Hk; set_solver|reflexivity].
      constructor; [|constructor]. done.
    + intros ? [= <-]. unfold uint64_ok. by_decide.
    + apply Hk. set_solver.
    + reflexivity.
Defined.

(** A flag with one rule that serves variation 1 by itself. *)
Definition sample_flag : Flag :=
  mkFlag "flag" 21 true (VRollout (mkRollout [mkWeighted 0 100000 false] RolloutKind.kExperiment (Some 61)
      (FromReferenceStr "key") "user"))
    [VBool false; VBool true] [mkPrerequisite "other" 1] [mkTarget ["u1"] 1 "user"] [mkTarget ["o1"] 0 "org"]
    [mkFlagRule [mkClause Op.kIn [VString "a"] false "user" (FromReferenceStr "name")]
       (VVariation (Some 1)) false (Some "r1")]
    (Some 0) true false true (Some "salt") true false (Some 900).

Lemma flag_json_roundtrip_witness :
  @to_Flag reference_boost_json (from_Flag sample_flag) = Val (Some (stored_flag sample_flag)) ∧
  fr_variationOrRollout <$> flag_rules (stored_flag sample_flag) = [VVariation None].
Proof.
  split; [|reflexivity].
  apply (@flag_json_roundtrip reference_boost_json reference_boost_json_spec).
  assert (∀ k, k ∈ ["user"; "org"] → kind_ok k) as Hk.
  { intros k Hk. unfold kind_ok. revert k Hk. apply Forall_forall. by_decide. }
  split_and!; cbn [sample_flag flag_offVariation flag_debugEventsUntilDate flag_fallthrough
    flag_variations flag_prerequisites flag_targets flag_contextTargets flag_rules].
  - unfold uint64_ok. by_decide.
  - intros ? [= <-]. unfold int64_ok. by_decide.
  - intros ? [= <-]. unfold uint64_ok. by_decide.
  - split_and!.
    + constructor; [|constructor]. split; unfold int64_ok; by_decide.
    + intros ? [= <-]. unfold int64_ok. by_decide.
    + apply Hk. set_solver.
    + reflexivity.
  - repeat constructor.
  - constructor; [|constructor]. unfold int64_ok. by_decide.
  - constructor; [|constructor]. unfold user_target_ok. by_decide.
  - constructor; [|constructor]. split; [unfold int64_ok; by_decide|apply Hk; set_solver].
  - constructor; [|constructor]. split.
    + constructor; [|constructor]. split_and!; [done| |apply Hk; set_solver|reflexivity].
      constructor; [|constructor]. done.
    + unfold variation_or_rollout_ok, int64_ok. by_decide.
Defined.

(** A clause with an operator this version does not know is written without its
    operator, and then cannot be read at all. *)
Lemma unrecognized_op_unreadable `{BoostJson} (c : Clause) :
  op c = Op.kUnrecognized → to_Clause (from_Clause c) = schema_failure.
Proof.
  intros Hop. unfold to_Clause, from_Clause. cbv zeta. cbn [require_object]. unfold parse_required_field.
  lookup_written. by rewrite Hop.
Qed.
