(* ===== verification/ContextFilters.v ===== *)
(** * Redaction of private attributes

    libs/internal/src/context_filter.cpp and context_filter.hpp: a context as JSON
    for an analytics event, without its private attributes.

    The code walks a context with an explicit stack whose items refer to the JSON
    container their value goes into ([JsonValue& parent]).  A reference is modelled
    by the address of its target inside the document under construction, so that
    what is written through it, and whether it still denotes its target, can be
    stated. *)

From S2P Require Import Prelude OrderedMap Doubles Values AttributeReferences Contexts Json.

(** ** References into a document *)

Inductive Step := PKey (k : string) | PIndex (i : nat).
Abbreviation Address := (list Step).

#[global] Instance Step_eq_dec : EqDecision Step.
Proof. solve_decision. Defined.

(** What an address refers to; [None] when nothing is there. *)
Fixpoint get (a : Address) (j : json) : option json :=
  match a with
  | [] => Some j
  | PKey k :: a' =>
      match j with
      | JObject o => match obj_find k o with Some x => get a' x | None => None end
      | _ => None
      end
  | PIndex i :: a' =>
      match j with
      | JArray l => match l !! i with Some x => get a' x | None => None end
      | _ => None
      end
  end.

Fixpoint alter_key (k : string) (f : json → json) (o : list (string * json)) : list (string * json) :=
  match o with
  | [] => []
  | (k', x) :: o' => if str_eqb k k' then (k', f x) :: o' else (k', x) :: alter_key k f o'
  end.

(** The document after the value at an address has become [q]. *)
Fixpoint put (a : Address) (q : json) (j : json) : json :=
  match a with
  | [] => q
  | PKey k :: a' => match j with JObject o => JObject (alter_key k (put a' q) o) | _ => j end
  | PIndex i :: a' => match j with JArray l => JArray (alter (put a' q) i l) | _ => j end
  end.

(** ** The filter *)

Record ContextFilter := mkContextFilter {
  all_attributes_private_ : bool;
  global_private_attributes_ : list AttributeReference;
}.

Record StackItem := mkItem { item_value : Value; item_path : list string; item_parent : Address }.

(** [Redact]: the name pushed to the redactions, when it returns true. *)
Definition Redact (f : ContextFilter) (path : list string) (attributes : Attributes) (redactAll : bool)
    : option string :=
  let matches (ref : AttributeReference) := Valid ref && ref_matches_path ref path in
  if redactAll then Some (PathToStringReference path)
  else
    match List.find matches (global_private_attributes_ f) with
    | Some ref => Some (RedactionName ref)
    | None => RedactionName <$> List.find matches (private_attributes_ attributes)
    end.

(** Adding a value to its parent, with the step that leads to it.  [path.back()] of an
    empty path and [as_array()] of anything else are undefined. *)
Definition place (path : list string) (addition parent : json) : option (json * Step) :=
  match parent with
  | JObject o =>
      match last path with
      | Some k => Some (JObject (obj_emplace k addition o), PKey k)
      | None => None
      end
  | JArray l => Some (JArray (l ++ [addition]), PIndex (length l))
  | _ => None
  end.

(** [Emplace] and [AppendContainer]: the document, and the address of the addition. *)
Definition Emplace (item : StackItem) (addition filtered : json) : option (json * Address) :=
  match get (item_parent item) filtered with
  | None => None
  | Some parent =>
      match place (item_path item) addition parent with
      | Some (parent', step) => Some (put (item_parent item) parent' filtered, item_parent item ++ [step])
      | None => None
      end
  end.

(** The JSON of a simple value in [AppendSimpleType]; a string goes through a C string. *)
Definition simple_json (v : Value) : json :=
  match v with
  | VBool b => JBool b
  | VNumber d => JDouble d
  | VString s => JString (from_c_str s)
  | _ => JNull
  end.

Definition AppendSimpleType (item : StackItem) (filtered : json) : option json :=
  fst <$> Emplace item (simple_json (item_value item)) filtered.

Section Filter.
Context (f : ContextFilter) (attributes : Attributes) (redactAll : bool).

(** The state of the loop: the stack with its top first, the document, the redactions. *)
Definition WalkState : Type := list StackItem * json * list string.

Definition object_items (path : list string) (parent : Address) (o : list (string * Value)) : list StackItem :=
  (λ kv, mkItem kv.2 (path ++ [kv.1]) parent) <$> o.
Definition array_items (parent : Address) (a : list Value) : list StackItem := (λ v, mkItem v [] parent) <$> a.

(** One iteration for the popped item.  The members of an object are pushed in order,
    so its last one is on top; an array's elements are pushed in reverse. *)
Definition visit (item : StackItem) (stack : list StackItem) (filtered : json) (redactions : list string)
    : option WalkState :=
  match (if bool_decide (item_path item = []) then None else Redact f (item_path item) attributes redactAll) with
  | Some name => Some (stack, filtered, redactions ++ [name])
  | None =>
      match item_value item with
      | VObject o =>
          match Emplace item (JObject []) filtered with
          | Some (filtered, nested) => Some (rev (object_items (item_path item) nested o) ++ stack, filtered, redactions)
          | None => None
          end
      | VArray a =>
          match Emplace item (JArray []) filtered with
          | Some (filtered, nested) => Some (array_items nested a ++ stack, filtered, redactions)
          | None => None
          end
      | _ =>
          match AppendSimpleType item filtered with
          | Some filtered => Some (stack, filtered, redactions)
          | None => None
          end
      end
  end.

(** [while (!stack.empty())] *)
Fixpoint walk (fuel : nat) (stack : list StackItem) (filtered : json) (redactions : list string)
    : option (json * list string) :=
  match stack with
  | [] => Some (filtered, redactions)
  | item :: stack =>
      match fuel with
      | O => None
      | S fuel =>
          match visit item stack filtered redactions with
          | Some (stack, filtered, redactions) => walk fuel stack filtered redactions
          | None => None
          end
      end
  end.
End Filter.

(** The nodes of a value. *)
Fixpoint value_size (v : Value) : nat :=
  match v with
  | VArray a => S (sum_list_with value_size a)
  | VObject o => S (sum_list_with (λ kv, value_size (snd kv)) o)
  | _ => 1
  end.

(** The members written before the walk. *)
Definition base_object (f : ContextFilter) (kind : string) (include_kind : bool) (attributes : Attributes)
    (redactAll : bool) : list (string * json) * list string :=
  let filtered := obj_emplace "key" (JString (Attributes_Key attributes)) [] in
  let filtered := if include_kind then obj_emplace "kind" (JString kind) filtered else filtered in
  let filtered := if Attributes_Anonymous attributes
                  then obj_emplace "anonymous" (JBool (Attributes_Anonymous attributes)) filtered else filtered in
  if is_empty (Attributes_Name attributes) then (filtered, [])
  else
    match Redact f ["name"] attributes redactAll with
    | Some name => (filtered, [name])
    | None => (obj_assign "name" (JString (Attributes_Name attributes)) filtered, [])
    end.

Definition FilterSingleContext (f : ContextFilter) (kind : string) (include_kind : bool)
    (attributes : Attributes) (redactAnonymous : bool) : option json :=
  let redactAll := all_attributes_private_ f || (redactAnonymous && Attributes_Anonymous attributes) in
  let '(filtered, redactions) := base_object f kind include_kind attributes redactAll in
  let custom := AsObject (custom_attributes_ attributes) in
  match walk f attributes redactAll (sum_list_with (λ kv, value_size kv.2) custom)
          (rev (object_items [] [] custom)) (JObject filtered) redactions with
  | None => None
  | Some (filtered, []) => Some filtered
  | Some (JObject o, redactions) =>
      let arr := JString <$> redactions in
      Some (JObject (obj_emplace "_meta" (JObject (obj_emplace "redactedAttributes" (JArray arr) [])) o))
  | Some _ => None
  end.

(** The loop of [FilterMultiContext] over the kinds. *)
Fixpoint filter_kinds (f : ContextFilter) (context : Context) (redactAnonymous : bool) (kinds : list string)
    (filtered : list (string * json)) : option json :=
  match kinds with
  | [] => Some (JObject filtered)
  | kind :: kinds =>
      match Context_Attributes context kind with
      | None => None
      | Some attributes =>
          match FilterSingleContext f kind false attributes redactAnonymous with
          | None => None
          | Some j => filter_kinds f context redactAnonymous kinds (obj_emplace kind j filtered)
          end
      end
  end.

Definition FilterMultiContext (f : ContextFilter) (context : Context) (redactAnonymous : bool) : option json :=
  filter_kinds f context redactAnonymous (Context_Kinds context) (obj_emplace "kind" (JString "multi") []).

(** [Filter(context, redactAnonymous)] *)
Definition FilterContext (f : ContextFilter) (context : Context) (redactAnonymous : bool) : option json :=
  match Context_Kinds context with
  | [kind] =>
      match Context_Attributes context kind with
      | Some attributes => FilterSingleContext f kind true attributes redactAnonymous
      | None => None
      end
  | _ => FilterMultiContext f context redactAnonymous
  end.

(** ** Specification: redaction by recursion *)

Section Render.
Context (redacts : list string → option string).

(** The JSON of the value at [path] and the names redacted inside it, in the order the
    walk meets them: members last to first, elements first to last.  Inside an array
    the path starts over. *)
Fixpoint render (path : list string) (v : Value) {struct v} : json * list string :=
  match v with
  | VObject o =>
      let '(members, names) :=
        (fix go (o : list (string * Value)) : list (string * json) * list string :=
           match o with
           | [] => ([], [])
           | (k, x) :: o' =>
               let '(members, names) := go o' in
               match redacts (path ++ [k]) with
               | Some name => (members, names ++ [name])
               | None => let '(j, inner) := render (path ++ [k]) x in (members ++ [(k, j)], names ++ inner)
               end
           end) o in
      (JObject members, names)
  | VArray a =>
      let '(elements, names) :=
        (fix go (a : list Value) : list json * list string :=
           match a with
           | [] => ([], [])
           | x :: a' =>
               let '(j, inner) := render [] x in
               let '(elements, names) := go a' in
               (j :: elements, inner ++ names)
           end) a in
      (JArray elements, names)
  | v => (simple_json v, [])
  end.

(** The members of an object, in the order they are added. *)
Fixpoint render_members (path : list string) (l : list (string * Value)) : list (string * json) * list string :=
  match l with
  | [] => ([], [])
  | (k, x) :: l' =>
      let '(members, names) := render_members path l' in
      match redacts (path ++ [k]) with
      | Some name => (members, name :: names)
      | None => let '(j, inner) := render (path ++ [k]) x in ((k, j) :: members, inner ++ names)
      end
  end.

Lemma render_members_app path l1 l2 :
  render_members path (l1 ++ l2) =
  ((render_members path l1).1 ++ (render_members path l2).1,
   (render_members path l1).2 ++ (render_members path l2).2).
Proof.
  induction l1 as [|[k x] l1 IH]; simpl; [by destruct (render_members path l2)|].
  rewrite IH. destruct (render_members path l1) as [m n]. simpl.
  destruct (redacts (path ++ [k])); [done|]. destruct (render (path ++ [k]) x). simpl.
  by rewrite <- app_assoc.
Qed.

Lemma render_object path o :
  render path (VObject o) = (JObject (render_members path (rev o)).1, (render_members path (rev o)).2).
Proof.
  cbn [render]. induction o as [|[k x] o IH]; [done|]. cbn [rev].
  rewrite render_members_app. cbn [render_members].
  destruct ((fix go (o : list (string * Value)) := _) o) as [members names] eqn:E.
  simplify_eq/=. destruct (render_members path (rev o)) as [m n]. simplify_eq/=.
  destruct (redacts (path ++ [k])); simpl; [by rewrite app_nil_r|].
  destruct (render (path ++ [k]) x). simpl. by rewrite app_nil_r.
Qed.

Fixpoint render_elements (a : list Value) : list json * list string :=
  match a with
  | [] => ([], [])
  | x :: a' =>
      ((render [] x).1 :: (render_elements a').1, (render [] x).2 ++ (render_elements a').2)
  end.

Lemma render_array path a :
  render path (VArray a) = (JArray (render_elements a).1, (render_elements a).2).
Proof.
  cbn [render]. induction a as [|x a IH]; [done|]. cbn [render_elements].
  destruct ((fix go (a : list Value) := _) a) as [elements names].
  destruct (render [] x). simplify_eq/=. by destruct (render_elements a); simplify_eq/=.
Qed.
End Render.

(** ** Lemmas: addresses *)

Lemma get_app a b j : get (a ++ b) j = match get a j with Some p => get b p | None => None end.
Proof.
  revert j. induction a as [|[k|i] a IH]; intros j; [done|..]; simpl; destruct j; try done.
  - by destruct (obj_find k o).
  - by destruct (_ !! i).
Qed.

Lemma find_alter_key k f o : obj_find k (alter_key k f o) = f <$> obj_find k o.
Proof.
  unfold obj_find. induction o as [|[k' x] o IH]; simpl; [done|].
  destruct (str_eqb k k') eqn:E; simpl; by rewrite E.
Qed.

Lemma alter_key_twice k f g o : alter_key k f (alter_key k g o) = alter_key k (λ x, f (g x)) o.
Proof.
  induction o as [|[k' x] o IH]; simpl; [done|]. destruct (str_eqb k k') eqn:E; simpl; rewrite E; [done|].
  by rewrite IH.
Qed.

Lemma alter_key_ext k f g o : (∀ x, obj_find k o = Some x → f x = g x) → alter_key k f o = alter_key k g o.
Proof.
  unfold obj_find. induction o as [|[k' x] o IH]; simpl; [done|].
  destruct (str_eqb k k'); intros H; f_equal; [f_equal; auto|auto].
Qed.

Lemma alter_key_last k f o x : obj_find k o = None → alter_key k f (o ++ [(k, x)]) = o ++ [(k, f x)].
Proof.
  unfold obj_find. induction o as [|[k' y] o IH]; simpl; [by rewrite str_eqb_refl|].
  destruct (str_eqb k k'); [done|]. intros H. by rewrite IH.
Qed.

Lemma alter_twice {A} (f g : A → A) i (l : list A) : alter f i (alter g i l) = alter (λ x, f (g x)) i l.
Proof. revert i. induction l as [|x l IH]; intros [|i]; simpl; try done. f_equal. apply IH. Qed.

Lemma alter_ext_at {A} (f g : A → A) i (l : list A) :
  (∀ x, l !! i = Some x → f x = g x) → alter f i l = alter g i l.
Proof.
  revert i. induction l as [|x l IH]; intros [|i] H; simpl; try done.
  - f_equal. by apply H.
  - f_equal. by apply IH.
Qed.

Lemma alter_last {A} (f : A → A) (l : list A) x : alter f (length l) (l ++ [x]) = l ++ [f x].
Proof. induction l as [|y l IH]; [done|]. simpl. f_equal. apply IH. Qed.

Lemma get_put a q j p : get a j = Some p → get a (put a q j) = Some q.
Proof.
  revert j. induction a as [|[k|i] a IH]; intros j; [done|..]; simpl; destruct j; try done.
  - rewrite find_alter_key. destruct (obj_find k o); [|done]. apply IH.
  - rewrite list_lookup_alter_eq. destruct (_ !! i); [|done]. apply IH.
Qed.

Lemma put_put a q1 q2 j : put a q2 (put a q1 j) = put a q2 j.
Proof.
  revert j. induction a as [|[k|i] a IH]; intros j; [done|..]; simpl; destruct j; try done; f_equal.
  - rewrite alter_key_twice. apply alter_key_ext. intros. apply IH.
  - rewrite alter_twice. apply alter_ext_at. intros. apply IH.
Qed.

Lemma put_extend a b q j p : get a j = Some p → put (a ++ b) q j = put a (put b q p) j.
Proof.
  revert j. induction a as [|[k|i] a IH]; intros j; simpl; [by intros [= ->]|..]; destruct j; try done.
  - destruct (obj_find k o) as [x|] eqn:E; [|done]. intros Hg. f_equal.
    apply alter_key_ext. intros y Hy. simplify_eq. by apply IH.
  - destruct (_ !! i) as [x|] eqn:E; [|done]. intros Hg. f_equal.
    apply alter_ext_at. intros y Hy. simplify_eq. by apply IH.
Qed.

Lemma put_get a j p : get a j = Some p → put a p j = j.
Proof.
  revert j. induction a as [|[k|i] a IH]; intros j; simpl; [by intros [= ->]|..]; destruct j; try done.
  - destruct (obj_find k o) as [x|] eqn:E; [|done]. intros Hg. f_equal.
    unfold obj_find in E. revert E. induction o as [|[k' y] o IHo]; simpl; [done|].
    destruct (str_eqb k k') eqn:Ek; [intros [= ->]; by rewrite IH|]. intros E. by rewrite IHo.
  - destruct (_ !! i) as [x|] eqn:E; [|done]. intros Hg. f_equal. apply list_eq. intros n.
    destruct (decide (i = n)) as [<- |].
    + rewrite list_lookup_alter_eq, E. simpl. by rewrite IH.
    + by rewrite list_lookup_alter_ne.
Qed.

(** ** Lemmas: the walk *)

(** The parent takes a new value: an object without that key, or an array. *)
Definition accepts (path : list string) (p : json) : Prop :=
  match p with
  | JObject o => ∃ k, last path = Some k ∧ obj_find k o = None
  | JArray _ => True
  | _ => False
  end.

Definition placed (path : list string) (j p : json) : json :=
  match p with
  | JObject o => match last path with Some k => JObject (o ++ [(k, j)]) | None => p end
  | JArray l => JArray (l ++ [j])
  | _ => p
  end.

Lemma place_accepts path p :
  accepts path p →
  ∃ s, ∀ j, place path j p = Some (placed path j p, s) ∧ get [s] (placed path j p) = Some j ∧
            ∀ j', put [s] j' (placed path j p) = placed path j' p.
Proof.
  destruct p as [| | | | | |l|o]; try done.
  - intros _. exists (PIndex (length l)). intros j. simpl. split_and!; [done| |].
    + rewrite lookup_app_r, Nat.sub_diag by done. done.
    + intros j'. f_equal. apply alter_last.
  - intros (k & Hk & Hf). exists (PKey k). intros j. unfold place, placed. rewrite Hk.
    unfold obj_emplace. rewrite Hf. split_and!; [done| |].
    + simpl. unfold obj_find in *. by rewrite find_app, Hf; simpl; rewrite str_eqb_refl.
    + intros j'. simpl. by rewrite alter_key_last.
Qed.

Section Walk.
Context (f : ContextFilter) (attributes : Attributes) (redactAll : bool).

Abbreviation redacts := (λ path, Redact f path attributes redactAll).
Abbreviation go := (walk f attributes redactAll).

Definition visited (v : Value) : Prop :=
  ∀ path parent stack doc reds p,
    get parent doc = Some p → accepts path p → (path = [] ∨ redacts path = None) →
    ∃ m, (m ≤ value_size v)%nat ∧ ∀ n,
      go (m + n) (mkItem v path parent :: stack) doc reds =
      go n stack (put parent (placed path (render redacts path v).1 p) doc)
        (reds ++ (render redacts path v).2).

Lemma visit_kept v path parent stack doc reds :
  path = [] ∨ redacts path = None →
  visit f attributes redactAll (mkItem v path parent) stack doc reds =
  match v with
  | VObject o =>
      match Emplace (mkItem v path parent) (JObject []) doc with
      | Some (filtered, nested) => Some (rev (object_items path nested o) ++ stack, filtered, reds)
      | None => None
      end
  | VArray a =>
      match Emplace (mkItem v path parent) (JArray []) doc with
      | Some (filtered, nested) => Some (array_items nested a ++ stack, filtered, reds)
      | None => None
      end
  | _ =>
      match AppendSimpleType (mkItem v path parent) doc with
      | Some filtered => Some (stack, filtered, reds)
      | None => None
      end
  end.
Proof.
  intros H. unfold visit. cbn [item_path item_value]. case_bool_decide as Hp; [done|].
  destruct H as [H|H]; [done|]. by rewrite H.
Qed.

Lemma members_walk l c path stack doc reds acc :
  Forall (λ kv, visited kv.2) l → NoDup l.*1 → (∀ k, k ∈ l.*1 → obj_find k acc = None) →
  get c doc = Some (JObject acc) →
  ∃ m, (m ≤ sum_list_with (λ kv, value_size kv.2) l)%nat ∧ ∀ n,
    go (m + n) (object_items path c l ++ stack) doc reds =
    go n stack (put c (JObject (acc ++ (render_members redacts path l).1)) doc)
      (reds ++ (render_members redacts path l).2).
Proof.
  revert doc reds acc. induction l as [|[k x] l IH]; intros doc reds acc Hv Hnd Hacc Hget.
  { exists 0%nat. split; [done|]. intros n. simpl. rewrite !app_nil_r. by rewrite put_get. }
  apply Forall_cons_1 in Hv as [Hx Hv]. rewrite fmap_cons in Hnd. apply NoDup_cons in Hnd as [Hk Hnd].
  simpl in Hx, Hk. assert (path ++ [k] ≠ []) as Hpath by (by destruct path).
  cbn [render_members]. destruct (redacts (path ++ [k])) as [name|] eqn:Hred.
  - destruct (IH doc (reds ++ [name]) acc Hv Hnd) as (m & Hm & Hgo); [set_solver|done|].
    exists (S m). split; [destruct x; simpl in *; lia|]. intros n. cbn [object_items fmap list_fmap app Nat.add walk].
    unfold visit. cbn [item_path fst snd]. rewrite bool_decide_eq_false_2 by done. rewrite Hred.
    fold (object_items path c l). rewrite Hgo.
    destruct (render_members redacts path l) as [ms ns]. simpl. by rewrite <- app_assoc.
  - destruct (Hx (path ++ [k]) c (object_items path c l ++ stack) doc reds (JObject acc))
      as (m1 & Hm1 & Hgo1); [done| |by right|].
    { exists k. split; [apply last_snoc|]. apply Hacc. set_solver. }
    set (j := (render redacts (path ++ [k]) x).1) in *.
    assert (placed (path ++ [k]) j (JObject acc) = JObject (acc ++ [(k, j)])) as Hpl.
    { simpl. by rewrite last_snoc. }
    rewrite Hpl in Hgo1.
    destruct (IH (put c (JObject (acc ++ [(k, j)])) doc) (reds ++ (render redacts (path ++ [k]) x).2)
      (acc ++ [(k, j)])) as (m2 & Hm2 & Hgo2); [done|done| |by eapply get_put|].
    { intros i Hi. unfold obj_find. rewrite find_app. fold (obj_find i acc). rewrite Hacc by set_solver.
      simpl. destruct (str_eqb i k) eqn:E; [|done]. apply str_eqb_eq in E as ->. done. }
    exists (m1 + m2)%nat. split; [simpl in *; lia|]. intros n. rewrite <- Nat.add_assoc.
    cbn [object_items fmap list_fmap app]. fold (object_items path c l). cbn [fst snd].
    rewrite Hgo1, Hgo2, put_put. subst j.
    destruct (render_members redacts path l) as [ms ns], (render redacts (path ++ [k]) x) as [j inner].
    simpl. by rewrite <- !app_assoc.
Qed.

Lemma elements_walk a c stack doc reds acc :
  Forall visited a → get c doc = Some (JArray acc) →
  ∃ m, (m ≤ sum_list_with value_size a)%nat ∧ ∀ n,
    go (m + n) (array_items c a ++ stack) doc reds =
    go n stack (put c (JArray (acc ++ (render_elements redacts a).1)) doc)
      (reds ++ (render_elements redacts a).2).
Proof.
  revert doc reds acc. induction a as [|x a IH]; intros doc reds acc Hv Hget.
  { exists 0%nat. split; [done|]. intros n. simpl. rewrite !app_nil_r. by rewrite put_get. }
  apply Forall_cons_1 in Hv as [Hx Hv].
  destruct (Hx [] c (array_items c a ++ stack) doc reds (JArray acc)) as (m1 & Hm1 & Hgo1); [done..|by left|].
  cbn [placed] in Hgo1. set (j := (render redacts [] x).1) in *.
  destruct (IH (put c (JArray (acc ++ [j])) doc) (reds ++ (render redacts [] x).2) (acc ++ [j]))
    as (m2 & Hm2 & Hgo2); [done|by eapply get_put|].
  exists (m1 + m2)%nat. split; [simpl in *; lia|]. intros n. rewrite <- Nat.add_assoc.
  cbn [array_items fmap list_fmap app]. fold (array_items c a).
  rewrite Hgo1, Hgo2, put_put. cbn [render_elements fst snd]. fold j. by rewrite <- !app_assoc.
Qed.

(** Adding an empty container, walking its contents and nothing else. *)
Lemma container_walk path parent doc p s j j' :
  get parent doc = Some p → get [s] (placed path j p) = Some j →
  (∀ j', put [s] j' (placed path j p) = placed path j' p) →
  get (parent ++ [s]) (put parent (placed path j p) doc) = Some j ∧
  put (parent ++ [s]) j' (put parent (placed path j p) doc) = put parent (placed path j' p) doc.
Proof.
  intros Hget Hs Hput. pose proof (get_put parent (placed path j p) doc p Hget) as Hg. split.
  - by rewrite get_app, Hg.
  - by rewrite (put_extend _ _ _ _ _ Hg), Hput, put_put.
Qed.

Definition is_simple (v : Value) : bool := match v with VArray _ | VObject _ => false | _ => true end.

Lemma simple_visited v : is_simple v = true → visited v.
Proof.
  intros Hs path parent stack doc reds p Hget Hacc Hpath.
  destruct (place_accepts path p Hacc) as (st & Hst). destruct (Hst (simple_json v)) as [Hpl _].
  exists 1%nat. split; [by destruct v|]. intros n. cbn [Nat.add walk]. rewrite visit_kept by done.
  replace (render redacts path v) with (simple_json v, @nil string) by (by destruct v).
  transitivity (match AppendSimpleType (mkItem v path parent) doc with
                | Some filtered => go n stack filtered reds | None => None end).
  { by destruct v; destruct (AppendSimpleType _ _). }
  unfold AppendSimpleType, Emplace. cbn [item_parent item_path item_value]. rewrite Hget, Hpl.
  simpl. by rewrite app_nil_r.
Qed.

Lemma sum_rev {A} (g : A → nat) l : sum_list_with g (rev l) = sum_list_with g l.
Proof. induction l as [|x l IHl]; [done|]. simpl. rewrite sum_list_with_app. simpl. lia. Qed.

Lemma array_visited a : Forall visited a → visited (VArray a).
Proof.
  intros Ha path parent stack doc reds p Hget Hacc Hpath.
  destruct (place_accepts path p Hacc) as (st & Hst). destruct (Hst (JArray [])) as (Hpl & Hg & Hp).
  destruct (container_walk path parent doc p st (JArray [])
    (JArray (render_elements redacts a).1) Hget Hg Hp) as [Hg' Hp'].
  destruct (elements_walk a (parent ++ [st]) stack (put parent (placed path (JArray []) p) doc) reds [] Ha Hg')
    as (m & Hm & Hgo).
  exists (S m). split; [simpl; lia|]. intros n. cbn [Nat.add walk]. rewrite visit_kept by done.
  unfold Emplace. cbn [item_parent item_path]. rewrite Hget, Hpl, Hgo, render_array.
  cbn [app fst snd]. by rewrite Hp'.
Qed.

Lemma object_visited o : Forall (λ kv, visited kv.2) o → NoDup o.*1 → visited (VObject o).
Proof.
  intros Ho Hnd path parent stack doc reds p Hget Hacc Hpath.
  destruct (place_accepts path p Hacc) as (st & Hst). destruct (Hst (JObject [])) as (Hpl & Hg & Hp).
  destruct (container_walk path parent doc p st (JObject [])
    (JObject (render_members redacts path (rev o)).1) Hget Hg Hp) as [Hg' Hp'].
  destruct (members_walk (rev o) (parent ++ [st]) path stack
    (put parent (placed path (JObject []) p) doc) reds []) as (m & Hm & Hgo); [by apply Forall_rev| |done|done|].
  { rewrite fmap_rev. by rewrite <- Permutation_rev. }
  rewrite sum_rev in Hm. exists (S m). split; [simpl; lia|].
  intros n. cbn [Nat.add walk]. rewrite visit_kept by done.
  unfold Emplace. cbn [item_parent item_path]. rewrite Hget, Hpl. unfold object_items at 1.
  rewrite <- fmap_rev. fold (object_items path (parent ++ [st]) (rev o)). rewrite Hgo, render_object.
  cbn [app fst snd]. by rewrite Hp'.
Qed.

Lemma all_visited v : WfValue v → visited v.
Proof.
  induction v as [|b|d|s|a IH|o IH] using Value_nested_ind; intros Hwf; try by apply simple_visited.
  - apply WfValue_array in Hwf. apply array_visited.
    rewrite Forall_forall in IH, Hwf |- *. auto.
  - apply WfValue_object in Hwf as [Ho Hwf]. apply object_visited; [|by apply ordered_nodup].
    rewrite Forall_forall in IH, Hwf |- *. auto.
Qed.
End Walk.

(** ** Specification: the filtered context *)

Definition is_reserved (k : string) : bool := existsb (str_eqb k) ["key"; "kind"; "_meta"; "anonymous"; "name"].

(** What [AttributesBuilder::Set] maintains of the custom attributes: an ordered map without
    the built-in names. *)
Definition CustomOk (o : list (string * Value)) : Prop :=
  WfValue (VObject o) ∧ Forall (λ kv, is_reserved kv.1 = false) o.

Section Spec.
Context (f : ContextFilter) (a : Attributes) (redactAll : bool).
Abbreviation redacts := (λ path, Redact f path a redactAll).

(** The name, unless it is empty or redacted, and its redaction. *)
Definition spec_name : list (string * json) * list string :=
  if is_empty (Attributes_Name a) then ([], [])
  else match redacts ["name"] with
       | Some name => ([], [name])
       | None => ([("name", JString (Attributes_Name a))], [])
       end.

Definition spec_base (kind : string) (include_kind : bool) : list (string * json) :=
  [("key", JString (Attributes_Key a))] ++
  (if include_kind then [("kind", JString kind)] else []) ++
  (if Attributes_Anonymous a then [("anonymous", JBool true)] else []) ++
  spec_name.1.

Definition spec_custom : list (string * json) * list string :=
  render_members redacts [] (rev (AsObject (custom_attributes_ a))).

Definition spec_redactions : list string := spec_name.2 ++ spec_custom.2.

Definition spec_meta : list (string * json) :=
  match spec_redactions with
  | [] => []
  | names => [("_meta", JObject [("redactedAttributes", JArray (JString <$> names))])]
  end.

Definition filtered_attributes (kind : string) (include_kind : bool) : json :=
  JObject (spec_base kind include_kind ++ spec_custom.1 ++ spec_meta).
End Spec.

Definition redact_all (f : ContextFilter) (a : Attributes) (redactAnonymous : bool) : bool :=
  all_attributes_private_ f || (redactAnonymous && Attributes_Anonymous a).

(** The JSON of a whole context. *)
Definition filtered_context (f : ContextFilter) (l : list (string * Attributes)) (redactAnonymous : bool) : json :=
  match l with
  | [(kind, a)] => filtered_attributes f a (redact_all f a redactAnonymous) kind true
  | _ =>
      JObject (("kind", JString "multi") ::
        ((λ ka, (ka.1, filtered_attributes f ka.2 (redact_all f ka.2 redactAnonymous) ka.1 false)) <$> l))
  end.

(** ** Lemmas: the filter meets its specification *)

Lemma base_object_spec f kind include_kind a redactAll :
  base_object f kind include_kind a redactAll =
  (spec_base f a redactAll kind include_kind, (spec_name f a redactAll).2).
Proof.
  unfold base_object, spec_base, spec_name.
  destruct include_kind, (Attributes_Anonymous a), (is_empty (Attributes_Name a)); simpl; try done;
    by destruct (Redact f ["name"] a redactAll).
Qed.

Lemma spec_base_reserved f kind include_kind a redactAll k :
  is_reserved k = false → obj_find k (spec_base f a redactAll kind include_kind) = None.
Proof.
  unfold is_reserved. cbn [existsb]. rewrite !orb_false_iff. intros (E1 & E2 & E3 & E4 & E5 & _).
  unfold spec_base, spec_name, obj_find. destruct include_kind, (Attributes_Anonymous a), (is_empty (Attributes_Name a));
    try destruct (Redact f ["name"] a redactAll); simpl; by rewrite ?E1, ?E2, ?E4, ?E5.
Qed.

Lemma spec_base_no_meta f kind include_kind a redactAll :
  obj_find "_meta" (spec_base f a redactAll kind include_kind) = None.
Proof.
  unfold spec_base, spec_name, obj_find. destruct include_kind, (Attributes_Anonymous a), (is_empty (Attributes_Name a));
    try destruct (Redact f ["name"] a redactAll); done.
Qed.

(** Every rendered member has the key of a custom attribute. *)
Lemma render_members_keys redacts path l k : k ∈ (render_members redacts path l).1.*1 → k ∈ l.*1.
Proof.
  induction l as [|[k' x] l IH]; simpl; [done|].
  destruct (render_members redacts path l) as [ms ns]. simpl in IH.
  destruct (redacts (path ++ [k'])); [simpl; set_solver|].
  destruct (render redacts (path ++ [k']) x). simpl. set_solver.
Qed.

Lemma obj_emplace_new k x o : obj_find k o = None → obj_emplace k x o = o ++ [(k, x)].
Proof. intros H. unfold obj_emplace. by rewrite H. Qed.

Lemma AsObject_custom o a : CustomOk (AsObject (custom_attributes_ a)) → AsObject (custom_attributes_ a) = o →
  Forall (λ kv, WfValue kv.2) (rev o) ∧ NoDup (rev o).*1 ∧ ∀ k, k ∈ (rev o).*1 → is_reserved k = false.
Proof.
  intros [Hwf Hr] <-. apply WfValue_object in Hwf as [Ho Hwf]. split_and!.
  - by apply Forall_rev.
  - rewrite fmap_rev, <- Permutation_rev. by apply ordered_nodup.
  - intros k. rewrite fmap_rev, <- Permutation_rev. intros (kv & -> & Hin)%list_elem_of_fmap.
    rewrite Forall_forall in Hr. by apply Hr.
Qed.

Lemma filter_single_spec f kind include_kind a redactAnonymous :
  CustomOk (AsObject (custom_attributes_ a)) →
  FilterSingleContext f kind include_kind a redactAnonymous =
  Some (filtered_attributes f a (redact_all f a redactAnonymous) kind include_kind).
Proof.
  intros Hok. destruct (AsObject_custom _ a Hok eq_refl) as (Hwf & Hnd & Hr).
  unfold FilterSingleContext. fold (redact_all f a redactAnonymous). cbv zeta.
  set (r := redact_all f a redactAnonymous). rewrite base_object_spec.
  set (o := AsObject (custom_attributes_ a)) in *.
  destruct (members_walk f a r (rev o) [] [] [] (JObject (spec_base f a r kind include_kind))
    (spec_name f a r).2 (spec_base f a r kind include_kind)) as (m & Hm & Hgo); [|done| |done|].
  { eapply Forall_impl; [exact Hwf|]. intros kv. apply all_visited. }
  { intros k Hk. by apply spec_base_reserved, Hr. }
  specialize (Hgo (sum_list_with (λ kv, value_size kv.2) o - m)%nat). rewrite sum_rev in Hm.
  rewrite Nat.add_comm, Nat.sub_add, app_nil_r in Hgo by done.
  unfold object_items in *. rewrite <- fmap_rev, Hgo. cbn [put].
  unfold filtered_attributes, spec_meta, spec_redactions.
  change (render_members _ [] (rev o)) with (spec_custom f a r).
  transitivity (Some (JObject ((spec_base f a r kind include_kind ++ (spec_custom f a r).1) ++ spec_meta f a r)));
    [|by rewrite <- app_assoc].
  unfold spec_meta, spec_redactions. destruct (_ ++ (spec_custom f a r).2) as [|name names] eqn:En.
  { by destruct (_ - _)%nat; simpl; rewrite app_nil_r. }
  assert (obj_find "_meta" (spec_base f a r kind include_kind ++ (spec_custom f a r).1) = None) as Hmeta.
  { unfold obj_find. rewrite find_app. fold (obj_find "_meta" (spec_base f a r kind include_kind)).
    rewrite spec_base_no_meta. apply find_None_keys. intros Hin%render_members_keys%Hr. done. }
  destruct (_ - _)%nat; cbn [walk]; by rewrite (obj_emplace_new "_meta") by exact Hmeta.
Qed.

Lemma filter_kinds_spec f c redactAnonymous kinds acc l :
  (∀ ka, ka ∈ l → CustomOk (AsObject (custom_attributes_ ka.2)) ∧ Context_Attributes c ka.1 = Some ka.2) →
  kinds = l.*1 → NoDup l.*1 → (∀ k, k ∈ l.*1 → obj_find k acc = None) →
  filter_kinds f c redactAnonymous kinds acc =
  Some (JObject (acc ++
    ((λ ka, (ka.1, filtered_attributes f ka.2 (redact_all f ka.2 redactAnonymous) ka.1 false)) <$> l))).
Proof.
  revert kinds acc. induction l as [|[k a] l IH]; intros kinds acc Hl -> Hnd Hacc; [by rewrite app_nil_r|].
  destruct (Hl (k, a)) as [Hok Hat]; [by left|]. simpl in Hok, Hat. cbn [fmap list_fmap fst filter_kinds].
  rewrite Hat, filter_single_spec by done. apply NoDup_cons in Hnd as [Hk Hnd].
  rewrite obj_emplace_new by (apply Hacc; by left).
  rewrite IH; [by rewrite <- app_assoc|intros; apply Hl; by right|done|done|].
  intros i Hi. unfold obj_find. rewrite find_app. fold (obj_find i acc). rewrite Hacc by (by right).
  simpl. destruct (str_eqb i k) eqn:E; [|done]. apply str_eqb_eq in E as ->. done.
Qed.

(** ** Lemmas: what the builder guarantees *)

Definition BuilderOk (ab : AttributesBuilder) : Prop := CustomOk (ab_values_ ab).

Lemma new_builder_ok key : BuilderOk (new_attributes_builder key).
Proof. repeat constructor. Qed.

Lemma AB_Set_ok name v private_attribute ab :
  BuilderOk ab → WfValue v → BuilderOk (AB_Set name v private_attribute ab).
Proof.
  intros Hok Hv. unfold AB_Set. destruct (existsb (str_eqb name) ProtectedAttributes) eqn:Hp; [done|].
  unfold TypedAttributes. destruct (str_eqb name "anonymous") eqn:Ha; [by repeat case_match|].
  destruct (str_eqb name "name") eqn:Hn; [by repeat case_match|].
  assert (BuilderOk (AB_set_value name v ab)) as Hs; [|by destruct private_attribute].
  destruct Hok as [Hwf Hr]. apply WfValue_object in Hwf as [Ho Hwf].
  assert (is_reserved name = false) as Hname.
  { unfold is_reserved. simpl in *. rewrite !orb_false_iff in *. tauto. }
  unfold BuilderOk, CustomOk. rewrite WfValue_object. cbn [ab_values_ AB_set_value].
  split; [split; [by apply assign_ordered|]|]; by apply assign_Forall.
Qed.

(** ** Redaction by address *)

(** What an address refers to in a value. *)
Fixpoint value_at (a : Address) (v : Value) : option Value :=
  match a with
  | [] => Some v
  | PKey k :: a' =>
      match v with
      | VObject o => match find k o with Some x => value_at a' x | None => None end
      | _ => None
      end
  | PIndex i :: a' =>
      match v with
      | VArray l => match l !! i with Some x => value_at a' x | None => None end
      | _ => None
      end
  end.

(** The path by which the filter knows the item at an address, given that of its start: the
    member names since the last array. *)
Fixpoint named (path : list string) (a : Address) : list string :=
  match a with
  | [] => path
  | PKey k :: a' => named (path ++ [k]) a'
  | PIndex _ :: a' => named [] a'
  end.

(** The item, or an object or array it is in, is an object's member that is private:
    everything is, or some valid reference is the path of that member. *)
Definition Hidden (f : ContextFilter) (a : Attributes) (redactAll : bool) (p : Address) : Prop :=
  ∃ q k, q ++ [PKey k] `prefix_of` p ∧
    (redactAll = true ∨
     ∃ ref, ref ∈ global_private_attributes_ f ++ private_attributes_ a ∧ Valid ref = true ∧
            components_ ref = named [] (q ++ [PKey k])).

(** The JSON of a value, its members and elements apart: an array keeps its length, a scalar
    is what [AppendSimpleType] writes. *)
Definition same_node (v : Value) (j : json) : Prop :=
  match v with
  | VObject _ => match j with JObject _ => True | _ => False end
  | VArray l => match j with JArray l' => length l' = length l | _ => False end
  | _ => j = simple_json v
  end.

Lemma find_matches l path :
  List.find (λ ref, Valid ref && ref_matches_path ref path) l = None ↔
  ¬ ∃ ref, ref ∈ l ∧ Valid ref = true ∧ components_ ref = path.
Proof.
  split.
  - intros Hn (ref & Hin & Hv & Hp). apply list_elem_of_In in Hin.
    pose proof (List.find_none _ _ Hn ref Hin) as H. simpl in H. unfold ref_matches_path in H.
    by rewrite Hv, bool_decide_eq_true_2 in H.
  - intros Hn. destruct (List.find _ l) as [ref|] eqn:E; [|done]. exfalso. apply Hn.
    apply List.find_some in E as [Hin [Hv Hp]%andb_true_iff]. exists ref.
    rewrite list_elem_of_In. split_and!; [done..|]. by apply bool_decide_eq_true in Hp.
Qed.

Lemma Redact_None f a redactAll path :
  Redact f path a redactAll = None ↔
  redactAll = false ∧
  ¬ ∃ ref, ref ∈ global_private_attributes_ f ++ private_attributes_ a ∧ Valid ref = true ∧ components_ ref = path.
Proof.
  unfold Redact. destruct redactAll; [naive_solver|].
  setoid_rewrite elem_of_app.
  destruct (List.find _ (global_private_attributes_ f)) as [ref|] eqn:E.
  - split; [done|]. intros [_ Hn]. exfalso. apply List.find_some in E as [Hin [Hv Hp]%andb_true_iff].
    apply Hn. exists ref. rewrite list_elem_of_In. apply bool_decide_eq_true in Hp. tauto.
  - apply find_matches in E. rewrite fmap_None, find_matches. naive_solver.
Qed.

Lemma find_render_members redacts path l k :
  NoDup l.*1 →
  find k (render_members redacts path l).1 =
  match redacts (path ++ [k]) with
  | Some _ => None
  | None => (λ x, (render redacts (path ++ [k]) x).1) <$> find k l
  end.
Proof.
  induction l as [|[k' x] l IH]; intros Hnd; cbn [render_members]; [by destruct (redacts _)|].
  rewrite fmap_cons in Hnd. apply NoDup_cons in Hnd as [Hk Hnd]. specialize (IH Hnd).
  destruct (render_members redacts path l) as [ms ns] eqn:E. simpl in IH, Hk.
  destruct (redacts (path ++ [k'])) as [name|] eqn:Hr'; simpl.
  - rewrite IH. destruct (str_eqb k k') eqn:Ek; [|done]. apply str_eqb_eq in Ek as ->. by rewrite Hr'.
  - destruct (render redacts (path ++ [k']) x) as [j inner] eqn:Ex. simpl.
    destruct (str_eqb k k') eqn:Ek; [|done]. apply str_eqb_eq in Ek as ->. rewrite Hr'. simpl. by rewrite Ex.
Qed.

Lemma find_rev {A} (l : list (string * A)) k : NoDup l.*1 → find k (rev l) = find k l.
Proof.
  induction l as [|[k' x] l IH]; intros Hnd; [done|]. rewrite fmap_cons in Hnd.
  apply NoDup_cons in Hnd as [Hk Hnd]. cbn [rev]. rewrite find_app, IH by done. simpl.
  destruct (str_eqb k k') eqn:E; [|by destruct (find k l)].
  apply str_eqb_eq in E as ->. apply find_None_keys in Hk. simpl in Hk. by rewrite Hk.
Qed.

(** Some member on the way is redacted, from an item whose path is [path]. *)
Definition cut (redacts : list string → option string) (path : list string) (p : Address) : Prop :=
  ∃ q k, q ++ [PKey k] `prefix_of` p ∧ redacts (named path (q ++ [PKey k])) ≠ None.

Lemma cut_nil redacts path : ¬ cut redacts path [].
Proof. intros (q & k & Hp & _). apply prefix_nil_inv in Hp. by destruct q. Qed.

Lemma cut_key redacts path k p :
  cut redacts path (PKey k :: p) ↔ redacts (path ++ [k]) ≠ None ∨ cut redacts (path ++ [k]) p.
Proof.
  split.
  - intros ([|s q] & k' & Hp & Hr).
    + apply prefix_cons_inv_1 in Hp as [= ->]. by left.
    + apply prefix_cons_inv_1 in Hp as Hs. subst s. apply prefix_cons_inv_2 in Hp. right. by exists q, k'.
  - intros [Hr|(q & k' & Hp & Hr)]; [exists [], k|exists (PKey k :: q), k']; (split; [|done]).
    + by exists p.
    + by apply prefix_cons.
Qed.

Lemma cut_index redacts path i p : cut redacts path (PIndex i :: p) ↔ cut redacts [] p.
Proof.
  split.
  - intros ([|s q] & k' & Hp & Hr); apply prefix_cons_inv_1 in Hp as Hs; [done|]. subst s.
    apply prefix_cons_inv_2 in Hp. by exists q, k'.
  - intros (q & k' & Hp & Hr). exists (PIndex i :: q), k'. split; [by apply prefix_cons|done].
Qed.

Lemma render_same_node redacts path v : same_node v (render redacts path v).1.
Proof.
  destruct v as [|b|d|s|l|o]; try done; [|by rewrite render_object].
  rewrite render_array. simpl. induction l as [|x l IH]; [done|]. simpl. by rewrite IH.
Qed.

Lemma render_elements_lookup redacts l i :
  (render_elements redacts l).1 !! i = (λ x, (render redacts [] x).1) <$> l !! i.
Proof. revert i. induction l as [|x l IH]; intros [|i]; try done. apply IH. Qed.

Lemma render_get redacts p path v :
  WfValue v →
  (cut redacts path p → get p (render redacts path v).1 = None) ∧
  (¬ cut redacts path p → option_Forall2 same_node (value_at p v) (get p (render redacts path v).1)).
Proof.
  revert path v. induction p as [|[k|i] p IH]; intros path v Hwf.
  { split; [by intros ?%cut_nil|]. intros _. constructor. apply render_same_node. }
  - rewrite cut_key. destruct v as [|b|d|s|a|o]; try (split; [done|by constructor]).
    { rewrite render_array. split; [done|by constructor]. }
    apply WfValue_object in Hwf as [Ho Hwf]. apply ordered_nodup in Ho. unfold keys in Ho.
    rewrite render_object. cbn [get value_at fst]. unfold obj_find.
    rewrite find_render_members by (by rewrite fmap_rev, <- Permutation_rev). rewrite find_rev by done.
    destruct (redacts (path ++ [k])) as [name|] eqn:Hr; [naive_solver|].
    destruct (find k o) as [x|] eqn:Hf; cbn [fmap option_fmap option_map]; [|split; [done|by constructor]].
    assert (WfValue x) as Hx.
    { rewrite Forall_forall in Hwf. apply (Hwf (k, x)). by apply find_Some_elem. }
    destruct (IH (path ++ [k]) x Hx). naive_solver.
  - rewrite cut_index. destruct v as [|b|d|s|a|o]; try (split; [done|by constructor]).
    2: { rewrite render_object. split; [done|by constructor]. }
    apply WfValue_array in Hwf. rewrite render_array. cbn [get value_at fst]. rewrite render_elements_lookup.
    destruct (a !! i) as [x|] eqn:Hi; cbn [fmap option_fmap option_map]; [|split; [done|by constructor]].
    apply IH. by apply (Forall_lookup_1 _ _ _ _ Hwf Hi).
Qed.

Lemma cut_hidden f a redactAll p : cut (λ path, Redact f path a redactAll) [] p ↔ Hidden f a redactAll p.
Proof.
  unfold cut, Hidden. apply exist_proper; intros q. apply exist_proper; intros k. apply and_iff_compat_l. rewrite Redact_None.
  destruct redactAll; [split; [by left|by intros _ [? _]]|].
  split; [|intros [|Hr] [_ Hn]; [done|by apply Hn]]. intros Hs. right.
  destruct (List.find (λ ref, Valid ref && ref_matches_path ref (named [] (q ++ [PKey k])))
    (global_private_attributes_ f ++ private_attributes_ a)) as [ref|] eqn:E.
  - apply List.find_some in E as [Hin [Hv Hc]%andb_true_iff]. apply bool_decide_eq_true in Hc.
    exists ref. by rewrite list_elem_of_In.
  - apply find_matches in E. naive_solver.
Qed.

(** ** Properties *)

(** C26: filtering a built context never fails (no reference into the document under
    construction is followed to something else than a container, and the walk ends), and
    gives exactly the specification by recursion: for each kind its key, its kind where
    there is only one, [anonymous] when set, the name and the custom attributes that are not
    private, and in [_meta] the names of all that was left out. *)
Theorem filter_context_spec (f : ContextFilter) (b : ContextBuilder) (redactAnonymous : bool)
    (Ho : Ordered b) (Hb : Buildable b) (Hok : Forall (λ kb, BuilderOk kb.2) b) :
  FilterContext f (CB_Build b) redactAnonymous =
  Some (filtered_context f ((λ kb, (kb.1, BuildAttributes kb.2)) <$> b) redactAnonymous).
Proof.
  destruct (CB_Build_cases b Ho) as [[_ ->]|[? _]]; [|done].
  set (l := _ <$> b). assert (Ordered l) as Hl by (unfold Ordered, l; by rewrite keys_fmap).
  assert (∀ ka, ka ∈ l → CustomOk (AsObject (custom_attributes_ ka.2)) ∧ ValidKind ka.1 = true ∧
    Context_Attributes (make_context l) ka.1 = Some ka.2) as Hall.
  { intros ka (kb & -> & Hin)%list_elem_of_fmap. rewrite Forall_forall in Hok.
    destruct Hb as [_ Hb]. rewrite Forall_forall in Hb. split_and!; [by apply Hok|by apply Hb|].
    apply find_ordered_elem; [done|]. apply list_elem_of_fmap. eauto. }
  unfold FilterContext. change (Context_Kinds (make_context l)) with l.*1.
  assert (FilterMultiContext f (make_context l) redactAnonymous =
    Some (JObject ([("kind", JString "multi")] ++
      ((λ ka, (ka.1, filtered_attributes f ka.2 (redact_all f ka.2 redactAnonymous) ka.1 false)) <$> l))))
    as Hmulti.
  { apply filter_kinds_spec; [intros ka Hka; by destruct (Hall ka Hka) as (? & _ & ?)|done|by apply ordered_nodup|].
    intros k (ka & -> & Hka)%list_elem_of_fmap. destruct (Hall ka Hka) as (_ & Hv & _).
    unfold obj_find. simpl. destruct (str_eqb ka.1 "kind") eqn:E; [|done].
    apply str_eqb_eq in E. by rewrite E in Hv. }
  destruct l as [|[k a] [|ka l']]; [done| |done].
  destruct (Hall (k, a)) as (H1 & _ & H2); [by left|]. cbn [fmap list_fmap fst]. simpl in H1, H2.
  rewrite H2. by apply filter_single_spec.
Qed.

Lemma filter_context_spec_witness :
  let ab := AB_Set "address" (VObject [("city", VString "x"); ("zip", VArray [VBool true])]) false
              (AB_Set "email" (VString "e") true (new_attributes_builder "bob")) in
  FilterContext (mkContextFilter false [FromReferenceStr "/address/city"]) (CB_Build [("user", ab)]) false =
  Some (JObject [("key", JString "bob"); ("kind", JString "user");
    ("address", JObject [("zip", JArray [JBool true])]);
    ("_meta", JObject [("redactedAttributes", JArray [JString "email"; JString "/address/city"])])]).
Proof.
  cbv zeta. rewrite filter_context_spec; [reflexivity| | |].
  - unfold Ordered; vm_compute; repeat constructor.
  - by_decide.
  - repeat constructor.
Defined.

(** C27: what a private reference hides of a custom attribute, exactly, for attributes such as
    the builder makes (ordered members, none with a built-in name).  An address goes from
    the attribute through members of objects and elements of arrays.  The filtered JSON has
    nothing at the address when everything is private, or when some member on the way, the
    last step included, is private: the names since the last array step are the components of
    a valid private reference, of the configuration or of the context (so that inside an array
    a reference counts from the array: "email" also hides the members email of objects that
    are elements of arrays).  At every other address the JSON has a value exactly when the
    context has one: an object for an object, an array of the same length for an array, and
    the scalar itself for a scalar, except that a string is cut at its first NUL character. *)
Theorem redaction_exact (f : ContextFilter) (kind : string) (include_kind : bool) (a : Attributes)
    (redactAnonymous : bool) (k : string) (p : Address)
    (Hok : CustomOk (AsObject (custom_attributes_ a))) (Hk : is_reserved k = false) :
  let r := redact_all f a redactAnonymous in
  ∃ out, FilterSingleContext f kind include_kind a redactAnonymous = Some out ∧
    (Hidden f a r (PKey k :: p) → get (PKey k :: p) out = None) ∧
    (¬ Hidden f a r (PKey k :: p) →
      option_Forall2 same_node (value_at (PKey k :: p) (VObject (AsObject (custom_attributes_ a)))) (get (PKey k :: p) out)).
Proof.
  intros r. rewrite filter_single_spec by done. fold r. eexists. split; [done|].
  assert (get (PKey k :: p) (filtered_attributes f a r kind include_kind) =
          get (PKey k :: p) (render (λ path, Redact f path a r) [] (VObject (AsObject (custom_attributes_ a)))).1) as ->.
  { rewrite render_object. cbn [get fst filtered_attributes]. unfold obj_find.
    pose proof (spec_base_reserved f kind include_kind a r k Hk) as Hbase. unfold obj_find in Hbase.
    rewrite !find_app, Hbase.
    fold (spec_custom f a r). destruct (find k (spec_custom f a r).1); [done|].
    unfold spec_meta. destruct (spec_redactions f a r); [done|]. simpl.
    unfold is_reserved in Hk. simpl in Hk. rewrite !orb_false_iff in Hk. by destruct Hk as (_ & _ & -> & _). }
  rewrite <- cut_hidden. apply (render_get _ (PKey k :: p) []), Hok.
Qed.

(** A city hidden by a reference, and an e-mail address hidden inside an array. *)
Lemma redaction_exact_witness :
  let f := mkContextFilter false [FromReferenceStr "/address/city"; FromReferenceStr "email"] in
  let custom := [("address", VObject [("city", VString "x"); ("zip", VString "z")]);
                 ("list", VArray [VObject [("email", VString "e")]])] in
  let a := mkAttributes (VString "bob") VNull (VBool false) [] (VObject custom) in
  ∃ out, FilterSingleContext f "user" true a false = Some out ∧
    get [PKey "address"; PKey "city"] out = None ∧ get [PKey "list"; PIndex 0; PKey "email"] out = None.
Proof.
  intros f custom a. assert (CustomOk (AsObject (custom_attributes_ a))) as Hok.
  { split; [repeat constructor|repeat constructor]. }
  destruct (redaction_exact f "user" true a false "address" [PKey "city"] Hok eq_refl) as (out & Hout & Hh & _).
  destruct (redaction_exact f "user" true a false "list" [PIndex 0; PKey "email"] Hok eq_refl) as (out' & Hout' & Hh' & _).
  rewrite Hout in Hout'. injection Hout' as <-. exists out. split; [exact Hout|]. split; [apply Hh|apply Hh'].
  - exists [PKey "address"], "city". split; [by exists []|]. right. exists (FromReferenceStr "/address/city").
    split_and!; [by left|reflexivity|reflexivity].
  - exists [PKey "list"; PIndex 0], "email". split; [by exists []|]. right. exists (FromReferenceStr "email").
    split_and!; [by right; left|reflexivity|reflexivity].
Defined.

(** Inside an array the path starts over, so a member of an object in an array is taken for
    the top-level attribute of the same name, which may be private. *)
Lemma array_member_redacted :
  let a := BuildAttributes (AB_Set "list" (VArray [VObject [("email", VString "x")]]) false
             (AB_AddPrivateAttribute (FromReferenceStr "email") (new_attributes_builder "bob"))) in
  FilterSingleContext (mkContextFilter false []) "user" true a false =
  Some (JObject [("key", JString "bob"); ("kind", JString "user"); ("list", JArray [JObject []]);
    ("_meta", JObject [("redactedAttributes", JArray [JString "email"])])]).
Proof. reflexivity. Qed.
