(* ===== verification/Persistence.v ===== *)
(** * Flag data in a persistent store

    libs/server-sdk/src/data_components/serialization_adapters: json_destination.cpp
    writes descriptors as serialized items, json_deserializer.hpp/.cpp reads them;
    the store between them (Redis, DynamoDB, ...) is outside.  Printing and parsing
    JSON text is Boost's: [serialize] and [parse] are parameters. *)

From S2P Require Import Prelude OrderedMap Doubles Values AttributeReferences DataModel Json.
From S2P Require Import JsonModel.
From stdpp Require Import sorting.

Record SerializedItemDescriptor := mkSerialized {
  sid_version : Z;
  sid_deleted : bool;
  serializedItem : string;
}.

(** [SerializedItemDescriptor::Present] and [::Tombstone] *)
Definition Present (version : Z) (data : string) : SerializedItemDescriptor := mkSerialized version false data.
Definition Tombstone (version : Z) (tombstone_rep : string) : SerializedItemDescriptor :=
  mkSerialized version true tombstone_rep.

(** [boost::json::serialize], and [boost::json::parse] ([None] is its exception). *)
Class JsonText := {
  serialize : json → string;
  parse : string → option json;
}.

Definition ErrorToString (err : JsonError.t) : string :=
  match err with
  | JsonError.kSchemaFailure => "unexpected JSON schema"
  | JsonError.kContextMissingKindField => "context is missing 'kind' field"
  | JsonError.kContextInvalidKindField => "context 'kind' field is invalid"
  | JsonError.kContextMustBeObject => "context must be object"
  | JsonError.kContextMissingKeyField => "context is missing 'key' field"
  | JsonError.kContextInvalidKeyField => "context 'key' field is invalid"
  | JsonError.kContextInvalidNameField => "context 'name' field is invalid"
  | JsonError.kContextInvalidAnonymousField => "context 'anonymous' field is invalid"
  | JsonError.kContextInvalidMetaField => "context '_meta' field is invalid"
  | JsonError.kContextInvalidSecondaryField => "context 'secondary' field is invalid"
  | JsonError.kContextInvalidAttributeReference =>
      "context 'privateAttributes' field: invalid attribute reference"
  | JsonError.kContextInvalidPrivateAttributesField => "context 'privateAttributes' field is invalid"
  | JsonError.kTombstoneInvalidDeletedField => "unknown error"
  end.

(** An item type with its serializer, deserializer and version. *)
Class Item (T : Type) := {
  to_item : json → parsed T;
  from_item : T → json;
  item_version : T → Z;
}.

#[export] Instance flag_item `{BoostJson} : Item Flag :=
  {| to_item := to_Flag; from_item := from_Flag; item_version := flag_version |}.
#[export] Instance segment_item `{BoostJson} : Item Segment :=
  {| to_item := to_Segment; from_item := from_Segment; item_version := segment_version |}.

(** ** JsonDestination *)

Section Destination.
Context `{JsonText} {T : Type} `{Item T}.

Definition TombstoneJson (key : string) (desc : ItemDescriptor T) : json :=
  let tombstone := obj_emplace "key" (JString key) [] in
  let tombstone := obj_emplace "version" (JUint64 (version desc)) tombstone in
  let tombstone := obj_emplace "deleted" (JBool true) tombstone in
  JObject tombstone.

Definition Serialize (key : string) (desc : ItemDescriptor T) : SerializedItemDescriptor :=
  match item desc with
  | Some i => Present (version desc) (serialize (from_item i))
  | None => Tombstone (version desc) (serialize (TombstoneJson key desc))
  end.

(** One namespace of [JsonDestination::Init]: serialized, then sorted by key. *)
Definition InitNamespace (items : gmap string (ItemDescriptor T)) : list (string * SerializedItemDescriptor) :=
  merge_sort (λ lhs rhs, String.le lhs.1 rhs.1)
    ((λ kd, (kd.1, Serialize kd.1 kd.2)) <$> map_to_list items).
End Destination.

(** [JsonDestination::Init]: what is passed to [dest_.Init]: flags, then segments. *)
Definition Init `{BoostJson, JsonText} (data_set : SDKDataSet)
    : list (string * SerializedItemDescriptor) * list (string * SerializedItemDescriptor) :=
  (InitNamespace (ds_flags data_set), InitNamespace (ds_segments data_set)).

(** ** JsonDeserializer *)

Definition to_Tombstone `{BoostJson} (json_value : json) : parsed Z :=
  require_object json_value (λ obj,
    let? deleted := parse_required_field to_bool obj "deleted" in
    if negb deleted then Unexpected JsonError.kTombstoneInvalidDeletedField
    else let? version := parse_required_field to_uint64 obj "version" in Val (Some version)).

Section Deserializer.
Context `{BoostJson, JsonText} {T : Type} `{Item T}.

(** The descriptor or an error message; [None] when [parse] throws. *)
Definition DeserializeJsonDescriptor (descriptor : SerializedItemDescriptor)
    : option (expected (ItemDescriptor T) string) :=
  if sid_deleted descriptor then Some (Val (tombstone (sid_version descriptor)))
  else
    match parse (serializedItem descriptor) with
    | None => None
    | Some json_val => Some
        match to_item json_val with
        | Val None => Unexpected "item invalid: value is null"
        | Val (Some i) => Val (mkDescriptor (item_version i) (Some i))
        | Unexpected _ =>
            match to_Tombstone json_val with
            | Unexpected err => Unexpected (ErrorToString err)
            | Val None => Unexpected "tombstone invalid: value is null"
            | Val (Some v) => Val (tombstone v)
            end
        end
    end.

(** [DeserializeSingle], given the answer of [source_->Get]. *)
Definition DeserializeSingle (result : expected (option SerializedItemDescriptor) string)
    : option (expected (option (ItemDescriptor T)) string) :=
  match result with
  | Unexpected message => Some (Unexpected message)
  | Val None => Some (Val None)
  | Val (Some serialized_item) =>
      match DeserializeJsonDescriptor serialized_item with
      | None => None
      | Some (Val d) => Some (Val (Some d))
      | Some (Unexpected e) => Some (Unexpected e)
      end
  end.

(** The loop of [DeserializeCollection]: an unreadable item is logged and skipped. *)
Fixpoint deserialize_items (entries : list (string * SerializedItemDescriptor))
    (items : gmap string (ItemDescriptor T)) : option (gmap string (ItemDescriptor T)) :=
  match entries with
  | [] => Some items
  | (key, descriptor) :: rest =>
      match DeserializeJsonDescriptor descriptor with
      | None => None
      | Some (Unexpected _) => deserialize_items rest items
      | Some (Val d) =>
          deserialize_items rest (match items !! key with Some _ => items | None => <[key := d]> items end)
      end
  end.

(** [DeserializeCollection], given the answer of [source_->All]. *)
Definition DeserializeCollection (result : expected (list (string * SerializedItemDescriptor)) string)
    : option (expected (gmap string (ItemDescriptor T)) string) :=
  match result with
  | Unexpected message => Some (Unexpected message)
  | Val entries => Val <$> deserialize_items entries ∅
  end.
End Deserializer.

(** ** Specification *)

(** Text carries whatever the deserializers can see of a value that can be printed (its
    numbers are finite, its strings UTF-8): what [serialize] prints parses to a value they
    read the same way. *)
Class JsonTextSpec `{BoostJson} (J : JsonText) (printable : json → Prop) : Prop := {
  text_faithful : ∀ j, printable j → ∃ j', parse (serialize j) = Some j' ∧
    to_Flag j' = to_Flag j ∧ to_Segment j' = to_Segment j ∧ to_Tombstone j' = to_Tombstone j;
}.

Definition stored_descriptor {T} (stored : T → T) (d : ItemDescriptor T) : ItemDescriptor T :=
  mkDescriptor (version d) (stored <$> item d).

(** The descriptors the SDK makes: the item's own version. *)
Definition descriptor_ok {T} `{Item T} (ok : T → Prop) (d : ItemDescriptor T) : Prop :=
  match item d with Some i => version d = item_version i ∧ ok i | None => True end.

Section Namespace.
Context `{BoostJson, JsonText} {T : Type} `{Item T} (stored : T → T) (ok : T → Prop).
Hypothesis Hread : ∀ i, ok i → ∃ j', parse (serialize (from_item i)) = Some j' ∧
  to_item j' = Val (Some (stored i)) ∧ item_version (stored i) = item_version i.

Lemma descriptor_roundtrip key d :
  descriptor_ok ok d → DeserializeJsonDescriptor (Serialize key d) = Some (Val (stored_descriptor stored d)).
Proof using Hread.
  destruct d as [v [i|]]; unfold descriptor_ok, DeserializeJsonDescriptor, Serialize; simpl; [|done].
  intros [-> Hi]. destruct (Hread i Hi) as (j' & -> & -> & Hv). unfold stored_descriptor. simpl.
  by rewrite Hv.
Qed.

Lemma deserialize_items_stored (l : list (string * ItemDescriptor T)) acc :
  NoDup l.*1 → (∀ k, k ∈ l.*1 → acc !! k = None) → Forall (λ kd, descriptor_ok ok kd.2) l →
  deserialize_items ((λ kd, (kd.1, Serialize kd.1 kd.2)) <$> l) acc =
  Some (list_to_map ((λ kd, (kd.1, stored_descriptor stored kd.2)) <$> l) ∪ acc).
Proof using Hread.
  revert acc. induction l as [|[k d] l IH]; intros acc Hnd Hacc Hok.
  { simpl. by rewrite (left_id_L ∅ (∪)). }
  rewrite fmap_cons in Hnd. apply NoDup_cons in Hnd as [Hk Hnd]. apply Forall_cons_1 in Hok as [Hd Hok].
  rewrite !fmap_cons. cbn [deserialize_items fst snd]. simpl in Hd.
  rewrite descriptor_roundtrip by done. rewrite Hacc by (simpl; set_solver).
  rewrite IH; [|done| |done].
  - f_equal. rewrite list_to_map_cons. cbn [fst snd].
    rewrite <- insert_union_r; [by rewrite insert_union_l|].
    apply not_elem_of_list_to_map_1. rewrite <- list_fmap_compose. simpl. exact Hk.
  - intros j Hj. rewrite lookup_insert_ne; [apply Hacc; simpl; set_solver|].
    intros <-. done.
Qed.
End Namespace.

Section InitNamespace.
Context `{BoostJson, JsonText} {T : Type} `{Item T} (stored : T → T) (ok : T → Prop).
Hypothesis Hread : ∀ i, ok i → ∃ j', parse (serialize (from_item i)) = Some j' ∧
  to_item j' = Val (Some (stored i)) ∧ item_version (stored i) = item_version i.

Lemma namespace_roundtrip (items : gmap string (ItemDescriptor T)) :
  map_Forall (λ _ d, descriptor_ok ok d) items →
  DeserializeCollection (Val (InitNamespace items)) = Some (Val (stored_descriptor stored <$> items)).
Proof using Hread.
  intros Hok. unfold DeserializeCollection, InitNamespace.
  set (f := λ kd : string * ItemDescriptor T, (kd.1, Serialize kd.1 kd.2)).
  pose proof (merge_sort_Permutation (λ lhs rhs : string * SerializedItemDescriptor, String.le lhs.1 rhs.1)
    (f <$> map_to_list items)) as Hs.
  apply Permutation_map_inv in Hs as (l & Hl & Hp).
  change (map f l) with (f <$> l) in Hl. rewrite Hl. unfold f.
  rewrite (deserialize_items_stored stored ok Hread).
  - simpl. do 2 f_equal. rewrite (right_id_L ∅ (∪)). symmetry. apply list_to_map_flip.
    rewrite map_to_list_fmap, Hp. apply reflexive_eq, list_fmap_ext. by intros ? [].
  - rewrite <- Hp. apply NoDup_fst_map_to_list.
  - intros. apply lookup_empty.
  - rewrite <- Hp. apply Forall_forall. intros [k d] Hin. apply elem_of_map_to_list in Hin. eauto.
Qed.

(** The keys of a namespace are written in strictly increasing order. *)
Lemma namespace_ordered (items : gmap string (ItemDescriptor T)) : Ordered (InitNamespace items).
Proof using.
  unfold Ordered, keys, InitNamespace.
  set (l := (λ kd : string * ItemDescriptor T, (kd.1, Serialize kd.1 kd.2)) <$> map_to_list items).
  assert (NoDup (merge_sort (λ lhs rhs, String.le lhs.1 rhs.1) l).*1) as Hnd.
  { rewrite merge_sort_Permutation. subst l. rewrite <- list_fmap_compose. simpl.
    apply NoDup_fst_map_to_list. }
  assert (StronglySorted (λ lhs rhs : string * SerializedItemDescriptor, String.le lhs.1 rhs.1)
    (merge_sort (λ lhs rhs, String.le lhs.1 rhs.1) l)) as Hs.
  { apply StronglySorted_merge_sort; [intros ???; apply transitivity|intros ??; apply total, _]. }
  revert Hnd. induction Hs as [|x l' Hs IH Hx]; [constructor|]. simpl.
  intros [Hx' Hnd]%NoDup_cons. constructor; [by apply IH|].
  apply Forall_fmap, Forall_forall. intros y Hy. apply str_lt_alt.
  rewrite Forall_forall in Hx. split; [by apply Hx|]. intros E. apply Hx'. rewrite E.
  by apply list_elem_of_fmap_2.
Qed.
End InitNamespace.

(** ** A text layer that satisfies its specification *)

Section JsonInd.
Variable P : json → Prop.
Hypothesis HLeaf : ∀ j, match j with JArray _ | JObject _ => False | _ => True end → P j.
Hypothesis HArray : ∀ a, Forall P a → P (JArray a).
Hypothesis HObject : ∀ o, Forall (λ kv, P (snd kv)) o → P (JObject o).

Fixpoint json_nested_ind (j : json) : P j :=
  match j with
  | JArray a => HArray a ((fix go (l : list json) : Forall P l :=
      match l with
      | [] => Forall_nil_2 P
      | x :: l' => Forall_cons_2 P x l' (json_nested_ind x) (go l')
      end) a)
  | JObject o => HObject o ((fix go (l : list (string * json)) : Forall (λ kv, P (snd kv)) l :=
      match l with
      | [] => Forall_nil_2 _
      | kv :: l' => Forall_cons_2 (λ kv, P (snd kv)) kv l' (json_nested_ind (snd kv)) (go l')
      end) o)
  | j => HLeaf j I
  end.
End JsonInd.

Abbreviation double_code := (bool + bool + unit + bool * positive * Z)%type.

Definition double_encode (d : double) : double_code :=
  match d with
  | SpecFloat.S754_zero s => inl (inl (inl s))
  | SpecFloat.S754_infinity s => inl (inl (inr s))
  | SpecFloat.S754_nan => inl (inr tt)
  | SpecFloat.S754_finite s m e => inr (s, m, e)
  end.

Definition double_decode (c : double_code) : double :=
  match c with
  | inl (inl (inl s)) => SpecFloat.S754_zero s
  | inl (inl (inr s)) => SpecFloat.S754_infinity s
  | inl (inr tt) => SpecFloat.S754_nan
  | inr (s, m, e) => SpecFloat.S754_finite s m e
  end.

Abbreviation leaf := (unit + bool + Z + Z + double_code + string)%type.

(** Values as trees with labelled leaves. *)
Fixpoint json_tree (j : json) : gen_tree leaf :=
  match j with
  | JNull => GenLeaf (inl (inl (inl (inl (inl tt)))))
  | JBool b => GenLeaf (inl (inl (inl (inl (inr b)))))
  | JInt64 z => GenLeaf (inl (inl (inl (inr z))))
  | JUint64 z => GenLeaf (inl (inl (inr z)))
  | JDouble d => GenLeaf (inl (inr (double_encode d)))
  | JString s => GenLeaf (inr s)
  | JArray a => GenNode 0 (map json_tree a)
  | JObject o => GenNode 1 (map (λ kv, GenNode 2 [GenLeaf (inr (fst kv)); json_tree (snd kv)]) o)
  end.

Fixpoint tree_json (t : gen_tree leaf) : json :=
  match t with
  | GenLeaf (inl (inl (inl (inl (inl tt))))) => JNull
  | GenLeaf (inl (inl (inl (inl (inr b))))) => JBool b
  | GenLeaf (inl (inl (inl (inr z)))) => JInt64 z
  | GenLeaf (inl (inl (inr z))) => JUint64 z
  | GenLeaf (inl (inr c)) => JDouble (double_decode c)
  | GenLeaf (inr s) => JString s
  | GenNode 0 ts => JArray (map tree_json ts)
  | GenNode _ ts =>
      JObject (map (λ t, match t with
                         | GenNode _ [GenLeaf (inr k); t'] => (k, tree_json t')
                         | _ => (EmptyString, JNull)
                         end) ts)
  end.

Lemma tree_json_tree j : tree_json (json_tree j) = j.
Proof.
  induction j as [j Hj|a IH|o IH] using json_nested_ind.
  - destruct j as [| | | |[]| | |]; done.
  - simpl. f_equal. rewrite map_map. induction IH as [|x l Hx Hl IHl]; [done|]. simpl. by rewrite Hx, IHl.
  - simpl. f_equal. rewrite map_map. induction IH as [|[k x] l Hx Hl IHl]; [done|]. simpl in *. by rewrite Hx, IHl.
Qed.

Fixpoint bits_string (p : positive) : string :=
  match p with
  | xH => EmptyString
  | xO p => String "0" (bits_string p)
  | xI p => String "1" (bits_string p)
  end.

Fixpoint string_bits (s : string) : positive :=
  match s with
  | EmptyString => xH
  | String c s => if (c =? "0")%char then xO (string_bits s) else xI (string_bits s)
  end.

Lemma string_bits_string p : string_bits (bits_string p) = p.
Proof. induction p; simpl; congruence. Qed.

Definition reference_text : JsonText := {|
  serialize j := bits_string (encode (json_tree j));
  parse s := tree_json <$> decode (string_bits s);
|}.

Lemma reference_text_spec `{BoostJson} : JsonTextSpec reference_text (λ _, True).
Proof.
  split. intros j _. exists j. split; [|done]. unfold parse, serialize, reference_text.
  rewrite string_bits_string, decode_encode. simpl. by rewrite tree_json_tree.
Qed.

(** What a store keeps of a flag or a segment reads back in its stored form. *)
Lemma flag_text_read `{BoostJsonSpec} (J : JsonText) printable `{!JsonTextSpec J printable} (f : Flag) :
  flag_ok f ∧ printable (from_Flag f) → ∃ j', parse (serialize (from_item f)) = Some j' ∧ to_item j' = Val (Some (stored_flag f)) ∧
    item_version (stored_flag f) = item_version f.
Proof.
  intros [Hok Hpr]. destruct (text_faithful (from_Flag f) Hpr) as (j' & Hp & Hj & _). exists j'. split_and!; [done| |done].
  change (to_Flag j' = Val (Some (stored_flag f))). by rewrite Hj, flag_stored.
Qed.

Lemma segment_text_read `{BoostJsonSpec} (J : JsonText) printable `{!JsonTextSpec J printable} (s : Segment) :
  segment_ok s ∧ printable (from_Segment s) → ∃ j', parse (serialize (from_item s)) = Some j' ∧ to_item j' = Val (Some (stored_segment s)) ∧
    item_version (stored_segment s) = item_version s.
Proof.
  intros [Hok Hpr]. destruct (text_faithful (from_Segment s) Hpr) as (j' & Hp & _ & Hj & _). exists j'. split_and!; [done| |done].
  change (to_Segment j' = Val (Some (stored_segment s))). by rewrite Hj, segment_stored.
Qed.

(** ** Properties *)

(** C12: reading a store back gives what was written: when a store returns the
    serialized descriptors that [JsonDestination::Init] handed to it, in key order,
    the deserializer yields every flag and segment that can be printed, in its stored form with its
    version, and a tombstone with its version for every deleted item. *)
Theorem persisted_data_roundtrip `{BoostJsonSpec} (J : JsonText) printable `{!JsonTextSpec J printable} (ds : SDKDataSet) :
  map_Forall (λ _ d, descriptor_ok (λ f, flag_ok f ∧ printable (from_Flag f)) d) (ds_flags ds) →
  map_Forall (λ _ d, descriptor_ok (λ g, segment_ok g ∧ printable (from_Segment g)) d) (ds_segments ds) →
  DeserializeCollection (Val (Init ds).1) = Some (Val (stored_descriptor stored_flag <$> ds_flags ds)) ∧
  DeserializeCollection (Val (Init ds).2) = Some (Val (stored_descriptor stored_segment <$> ds_segments ds)) ∧
  Ordered (Init ds).1 ∧ Ordered (Init ds).2.
Proof.
  intros Hf Hs. split_and!; [..|apply namespace_ordered|apply namespace_ordered].
  - eapply (namespace_roundtrip stored_flag); [|exact Hf]. by apply flag_text_read.
  - eapply (namespace_roundtrip stored_segment); [|exact Hs]. by apply segment_text_read.
Qed.

(** A deleted flag and a segment without rules. *)
Definition sample_data_set : SDKDataSet :=
  mkDataSet {[ "gone" := tombstone 4 ]}
    {[ "seg" := segment_descriptor (mkSegment "seg" 7 ["u"] [] [] [] [] None false None None) ]}.

Lemma persisted_data_roundtrip_witness :
  @DeserializeCollection reference_boost_json reference_text Flag (@flag_item reference_boost_json)
    (Val (@Init reference_boost_json reference_text sample_data_set).1) =
  Some (Val (stored_descriptor stored_flag <$> ds_flags sample_data_set)).
Proof.
  apply (@persisted_data_roundtrip reference_boost_json reference_boost_json_spec reference_text
    (λ _, True) reference_text_spec sample_data_set).
  - unfold sample_data_set, ds_flags. rewrite map_Forall_singleton. exact I.
  - unfold sample_data_set, ds_segments. rewrite map_Forall_singleton. split; [reflexivity|]. split; [|exact I].
    split_and!; [unfold uint64_ok; by_decide|by intros ? [=]|by intros ? [=]|constructor..].
Defined.

(** A tombstone read from a store that does not keep the [deleted] flag is not
    recognized: its JSON is a valid flag, and a valid segment. *)
Lemma tombstone_reads_as_flag `{BoostJsonSpec} (key : string) (v : Z) :
  uint64_ok v →
  ∃ f, to_Flag (TombstoneJson key (@tombstone Flag v)) = Val (Some f) ∧ flag_key f = key ∧ flag_version f = v.
Proof.
  intros Hv.
  exists (mkFlag key v false (VVariation None) [] [] [] [] [] None false false false None false false None).
  split; [|split; reflexivity]. unfold to_Flag, TombstoneJson. cbv zeta.
  cbn [require_object]. unfold parse_required_field, parse_conditional_field, parse_field_default,
    parse_conditional_field. lookup_written. cbn. by rewrite uint64_of_uint64.
Qed.
