(* ===== verification/Fdv2.v ===== *)
(** * The FDv2 protocol

    libs/internal/src/fdv2_protocol_handler.cpp with the events of
    src/serialization/json_fdv2_events.cpp, and
    libs/server-sdk/src/data_systems/fdv2/fdv2_changeset_translation.cpp: the state
    machine that turns a stream of events into change sets, and the translation of
    a change set to flag and segment descriptors. *)

From S2P Require Import Prelude OrderedMap Values DataModel Json JsonModel.

(** ** Events *)

Module IntentCode.
Inductive t := kNone | kTransferFull | kTransferChanges | kUnknown.
End IntentCode.

Record ServerIntentPayload := mkIntentPayload {
  payload_id : string;
  payload_target : Z;
  intent_code : IntentCode.t;
  payload_reason : option string;
}.

(** [ServerIntent]: its payloads. *)
Abbreviation ServerIntent := (list ServerIntentPayload).

Record PutObject := mkPut { put_version : Z; put_kind : string; put_key : string; put_object : json }.
Record DeleteObject := mkDelete { del_version : Z; del_kind : string; del_key : string }.
Record PayloadTransferred := mkTransferred { transferred_state : string; transferred_version : Z }.
Record Goodbye := mkGoodbye { goodbye_reason : option string; protocol_fallback_ttl : option Z }.
Record FDv2Error := mkFDv2Error { fdv2_error_id : option string; fdv2_error_reason : string }.

Section Events.
Context `{BoostJson}.

Definition to_IntentCode (json_value : json) : parsed IntentCode.t :=
  require_string json_value (λ str,
    Val (Some (if str_eqb str "none" then IntentCode.kNone
               else if str_eqb str "xfer-full" then IntentCode.kTransferFull
               else if str_eqb str "xfer-changes" then IntentCode.kTransferChanges
               else IntentCode.kUnknown))).

Definition to_ServerIntentPayload (json_value : json) : parsed ServerIntentPayload :=
  require_object json_value (λ obj,
    let? id := parse_required_field to_str obj "id" in
    let? target := parse_required_field to_int64 obj "target" in
    let? code := parse_required_field to_IntentCode obj "intentCode" in
    let? reason := parse_conditional_field to_str obj "reason" in
    Val (Some (mkIntentPayload id target code reason))).

Definition to_ServerIntent (json_value : json) : parsed ServerIntent :=
  require_object json_value (λ obj,
    let? payloads := parse_required_field (to_vector to_ServerIntentPayload) obj "payloads" in
    Val (Some payloads)).

Definition to_PutObject (json_value : json) : parsed PutObject :=
  require_object json_value (λ obj,
    let? version := parse_required_field to_int64 obj "version" in
    let? kind := parse_required_field to_str obj "kind" in
    let? key := parse_required_field to_str obj "key" in
    match obj_find "object" obj with
    | None => schema_failure
    | Some object => Val (Some (mkPut version kind key object))
    end).

Definition to_DeleteObject (json_value : json) : parsed DeleteObject :=
  require_object json_value (λ obj,
    let? version := parse_required_field to_int64 obj "version" in
    let? kind := parse_required_field to_str obj "kind" in
    let? key := parse_required_field to_str obj "key" in
    Val (Some (mkDelete version kind key))).

Definition to_PayloadTransferred (json_value : json) : parsed PayloadTransferred :=
  require_object json_value (λ obj,
    let? state := parse_required_field to_str obj "state" in
    let? version := parse_required_field to_int64 obj "version" in
    Val (Some (mkTransferred state version))).

Definition to_Goodbye (json_value : json) : parsed Goodbye :=
  require_object json_value (λ obj,
    let? reason := parse_conditional_field to_str obj "reason" in
    let? ttl := parse_conditional_field to_int64 obj "protocolFallbackTTL" in
    Val (Some (mkGoodbye reason ttl))).

Definition to_FDv2Error (json_value : json) : parsed FDv2Error :=
  require_object json_value (λ obj,
    let? reason := parse_required_field to_str obj "reason" in
    let? id := parse_conditional_field to_str obj "id" in
    Val (Some (mkFDv2Error id reason))).
End Events.

(** ** Change sets of the protocol *)

Module ChangeType.
Inductive t := kPut | kDelete.
#[global] Instance eq_dec : EqDecision t.
Proof. solve_decision. Defined.
End ChangeType.

Record FDv2Change := mkChange {
  change_type : ChangeType.t;
  change_kind : string;
  change_key : string;
  change_version : Z;
  change_object : json;
}.

Record FDv2ChangeSet := mkFDv2ChangeSet {
  fcs_type : ChangeSetType.t;
  fcs_changes : list FDv2Change;
  fcs_selector : Selector;
}.

(** ** FDv2ProtocolHandler *)

Module ErrorKind.
Inductive t := kJsonError | kProtocolError | kServerError.
End ErrorKind.

Record Error := mkError {
  error_kind : ErrorKind.t;
  error_message : string;
  json_error : option JsonError.t;
  server_error : option FDv2Error;
}.

Definition JsonParseError (err : option JsonError.t) (msg : string) : Error :=
  mkError ErrorKind.kJsonError msg err None.
Definition ProtocolError (msg : string) : Error := mkError ErrorKind.kProtocolError msg None None.
Definition ServerError (err : FDv2Error) : Error :=
  mkError ErrorKind.kServerError (fdv2_error_reason err) None (Some err).

(** [std::variant<std::monostate, FDv2ChangeSet, Error, Goodbye>] *)
Inductive Result :=
| RNothing
| RChangeSet (cs : FDv2ChangeSet)
| RError (e : Error)
| RGoodbye (g : Goodbye).

Module State.
Inductive t := kInactive | kFull | kPartial.
#[global] Instance eq_dec : EqDecision t.
Proof. solve_decision. Defined.
End State.

Record FDv2ProtocolHandler := mkHandler { state_ : State.t; changes_ : list FDv2Change }.

Definition new_handler : FDv2ProtocolHandler := mkHandler State.kInactive [].

(** [Reset] *)
Definition Reset (h : FDv2ProtocolHandler) : FDv2ProtocolHandler := mkHandler State.kInactive [].

Definition IsKnownEvent (event_type : string) : bool :=
  str_eqb event_type "server-intent" || str_eqb event_type "put-object" ||
  str_eqb event_type "delete-object" || str_eqb event_type "payload-transferred" ||
  str_eqb event_type "error" || str_eqb event_type "goodbye".

Section Handler.
Context `{BoostJson}.
Implicit Types (data : json) (h : FDv2ProtocolHandler).

Definition HandleServerIntent data h : FDv2ProtocolHandler * Result :=
  match to_ServerIntent data with
  | Unexpected err => (Reset h, RError (JsonParseError (Some err) "could not deserialize server-intent"))
  | Val None => (Reset h, RError (JsonParseError None "server-intent data was null"))
  | Val (Some []) => (Reset h, RNothing)
  | Val (Some (payload :: _)) =>
      let h := mkHandler (state_ h) [] in
      match intent_code payload with
      | IntentCode.kTransferFull => (mkHandler State.kFull (changes_ h), RNothing)
      | IntentCode.kTransferChanges => (mkHandler State.kPartial (changes_ h), RNothing)
      | IntentCode.kNone =>
          (mkHandler State.kPartial (changes_ h), RChangeSet (mkFDv2ChangeSet ChangeSetType.kNone [] None))
      | IntentCode.kUnknown =>
          (Reset h, RError (ProtocolError "server-intent had an unrecognized intent code"))
      end
  end.

Definition HandlePutObject data h : FDv2ProtocolHandler * Result :=
  match to_PutObject data with
  | Unexpected err => (Reset h, RError (JsonParseError (Some err) "could not deserialize put-object"))
  | Val None => (Reset h, RError (JsonParseError None "put-object data was null"))
  | Val (Some put) =>
      (mkHandler (state_ h)
         (changes_ h ++ [mkChange ChangeType.kPut (put_kind put) (put_key put) (u64 (put_version put))
                           (put_object put)]),
       RNothing)
  end.

Definition HandleDeleteObject data h : FDv2ProtocolHandler * Result :=
  match to_DeleteObject data with
  | Unexpected err => (Reset h, RError (JsonParseError (Some err) "could not deserialize delete-object"))
  | Val None => (Reset h, RError (JsonParseError None "delete-object data was null"))
  | Val (Some del) =>
      (mkHandler (state_ h)
         (changes_ h ++ [mkChange ChangeType.kDelete (del_kind del) (del_key del) (u64 (del_version del)) JNull]),
       RNothing)
  end.

Definition HandlePayloadTransferred data h : FDv2ProtocolHandler * Result :=
  if bool_decide (state_ h = State.kInactive) then
    (Reset h, RError (ProtocolError "payload-transferred received without an active server-intent"))
  else
    match to_PayloadTransferred data with
    | Unexpected err =>
        (Reset h, RError (JsonParseError (Some err) "could not deserialize payload-transferred"))
    | Val None => (Reset h, RError (JsonParseError None "payload-transferred data was null"))
    | Val (Some transferred) =>
        let type := if bool_decide (state_ h = State.kPartial) then ChangeSetType.kPartial
                    else ChangeSetType.kFull in
        let changeset := mkFDv2ChangeSet type (changes_ h)
          (Some (mkSelectorState (transferred_version transferred) (transferred_state transferred))) in
        (mkHandler State.kPartial [], RChangeSet changeset)
    end.

Definition HandleError data h : FDv2ProtocolHandler * Result :=
  let h := mkHandler (state_ h) [] in
  match to_FDv2Error data with
  | Unexpected err => (h, RError (JsonParseError (Some err) "could not deserialize error event"))
  | Val None => (h, RError (JsonParseError None "error event data was null"))
  | Val (Some e) => (h, RError (ServerError e))
  end.

Definition HandleGoodbye data h : FDv2ProtocolHandler * Result :=
  let h := Reset h in
  match to_Goodbye data with
  | Unexpected _ | Val None => (h, RGoodbye (mkGoodbye None None))
  | Val (Some g) => (h, RGoodbye g)
  end.

Definition HandleEvent (event_type : string) data h : FDv2ProtocolHandler * Result :=
  if str_eqb event_type "server-intent" then HandleServerIntent data h
  else if str_eqb event_type "put-object" then HandlePutObject data h
  else if str_eqb event_type "delete-object" then HandleDeleteObject data h
  else if str_eqb event_type "payload-transferred" then HandlePayloadTransferred data h
  else if str_eqb event_type "error" then HandleError data h
  else if str_eqb event_type "goodbye" then HandleGoodbye data h
  else (h, RNothing).

(** A sequence of events, with the results in order. *)
Fixpoint HandleEvents (events : list (string * json)) h : FDv2ProtocolHandler * list Result :=
  match events with
  | [] => (h, [])
  | (event_type, data) :: events =>
      let '(h, r) := HandleEvent event_type data h in
      let '(h, rs) := HandleEvents events h in
      (h, r :: rs)
  end.
End Handler.

(** ** Translation of change sets *)

Section Translate.
Context `{BoostJson}.

Definition TranslateDelete (change : FDv2Change) : option ItemChange :=
  if str_eqb (change_kind change) "flag" then
    Some (FlagChange (change_key change) (tombstone (change_version change)))
  else if str_eqb (change_kind change) "segment" then
    Some (SegmentChange (change_key change) (tombstone (change_version change)))
  else None.

(** [TranslatePut<T>]: the return value, with the vector behind [changes]. *)
Definition TranslatePut {T} (to : json → parsed T) (make : string → T → ItemChange) (change : FDv2Change)
    (changes : ChangeSetData) : bool * ChangeSetData :=
  match to (change_object change) with
  | Unexpected _ => (false, changes)
  | Val None => (true, changes)
  | Val (Some item) => (true, changes ++ [make (change_key change) item])
  end.

Definition flag_put (key : string) (f : Flag) : ItemChange := FlagChange key (flag_descriptor f).
Definition segment_put (key : string) (s : Segment) : ItemChange := SegmentChange key (segment_descriptor s).

(** The loop of [TranslateChangeSet]. *)
Fixpoint translate_changes (l : list FDv2Change) (changes : ChangeSetData) : option ChangeSetData :=
  match l with
  | [] => Some changes
  | change :: l =>
      match change_type change with
      | ChangeType.kDelete =>
          translate_changes l (match TranslateDelete change with
                               | Some item => changes ++ [item]
                               | None => changes
                               end)
      | ChangeType.kPut =>
          if str_eqb (change_kind change) "flag" then
            let '(ok, changes) := TranslatePut to_Flag flag_put change changes in
            if negb ok then None else translate_changes l changes
          else if str_eqb (change_kind change) "segment" then
            let '(ok, changes) := TranslatePut to_Segment segment_put change changes in
            if negb ok then None else translate_changes l changes
          else translate_changes l changes
      end
  end.

Definition TranslateChangeSet (change_set : FDv2ChangeSet) : option (ChangeSet ChangeSetData) :=
  if bool_decide (fcs_type change_set = ChangeSetType.kNone) then
    Some (mkChangeSet (fcs_type change_set) [] (fcs_selector change_set))
  else
    match translate_changes (fcs_changes change_set) [] with
    | None => None
    | Some changes => Some (mkChangeSet (fcs_type change_set) changes (fcs_selector change_set))
    end.
End Translate.

(** ** Specification: what a history of events means *)

(** What an event asks for, whatever the handler's state. *)
Inductive Action :=
| AOpen (full : bool)                (** an intent to transfer *)
| ANoTransfer                        (** an intent that says the client is up to date *)
| AChange (c : FDv2Change)           (** a put or a delete *)
| ACommit (s : SelectorState)        (** a readable payload-transferred *)
| ADiscard                           (** an error event *)
| AReset                             (** a goodbye, or an event that cannot be used *)
| AIgnore.                           (** an event outside the protocol *)

Definition action `{BoostJson} (event : string * json) : Action :=
  let '(event_type, data) := event in
  if str_eqb event_type "server-intent" then
    match to_ServerIntent data with
    | Val (Some (payload :: _)) =>
        match intent_code payload with
        | IntentCode.kTransferFull => AOpen true
        | IntentCode.kTransferChanges => AOpen false
        | IntentCode.kNone => ANoTransfer
        | IntentCode.kUnknown => AReset
        end
    | _ => AReset
    end
  else if str_eqb event_type "put-object" then
    match to_PutObject data with
    | Val (Some put) =>
        AChange (mkChange ChangeType.kPut (put_kind put) (put_key put) (u64 (put_version put)) (put_object put))
    | _ => AReset
    end
  else if str_eqb event_type "delete-object" then
    match to_DeleteObject data with
    | Val (Some del) =>
        AChange (mkChange ChangeType.kDelete (del_kind del) (del_key del) (u64 (del_version del)) JNull)
    | _ => AReset
    end
  else if str_eqb event_type "payload-transferred" then
    match to_PayloadTransferred data with
    | Val (Some t) => ACommit (mkSelectorState (transferred_version t) (transferred_state t))
    | _ => AReset
    end
  else if str_eqb event_type "error" then ADiscard
  else if str_eqb event_type "goodbye" then AReset
  else AIgnore.

(** A history is read backwards: the most recent action first. *)

(** The state: the last intent decides, a completed transfer makes it partial. *)
Fixpoint mode (past : list Action) : State.t :=
  match past with
  | [] | AReset :: _ => State.kInactive
  | AOpen true :: _ => State.kFull
  | AOpen false :: _ | ANoTransfer :: _ => State.kPartial
  | ACommit _ :: past =>
      match mode past with State.kInactive => State.kInactive | _ => State.kPartial end
  | (AChange _ | ADiscard | AIgnore) :: past => mode past
  end.

(** The changes of the transfer in progress: those since the last event that
    opened, closed or discarded one, oldest first. *)
Fixpoint pending (past : list Action) : list FDv2Change :=
  match past with
  | AChange c :: past => pending past ++ [c]
  | AIgnore :: past => pending past
  | _ => []
  end.

(** The change set an action delivers. *)
Definition delivered (past : list Action) (a : Action) : option FDv2ChangeSet :=
  match a with
  | ANoTransfer => Some (mkFDv2ChangeSet ChangeSetType.kNone [] None)
  | ACommit s =>
      match mode past with
      | State.kInactive => None
      | State.kFull => Some (mkFDv2ChangeSet ChangeSetType.kFull (pending past) (Some s))
      | State.kPartial => Some (mkFDv2ChangeSet ChangeSetType.kPartial (pending past) (Some s))
      end
  | _ => None
  end.

Fixpoint deliveries (past : list Action) (future : list Action) : list FDv2ChangeSet :=
  match future with
  | [] => []
  | a :: future => option_list (delivered past a) ++ deliveries (a :: past) future
  end.

Definition change_set_of (r : Result) : option FDv2ChangeSet :=
  match r with RChangeSet cs => Some cs | _ => None end.

(** ** Lemmas *)

(** One event: the handler's state is what the history says. *)
Lemma HandleEvent_refines `{BoostJson} (event : string * json) (past : list Action) :
  let '(h', r) := HandleEvent event.1 event.2 (mkHandler (mode past) (pending past)) in
  h' = mkHandler (mode (action event :: past)) (pending (action event :: past)) ∧
  change_set_of r = delivered past (action event).
Proof.
  destruct event as [t data]. unfold HandleEvent, action. cbn [fst snd].
  repeat (destruct (str_eqb t _)).
  - unfold HandleServerIntent. destruct (to_ServerIntent data) as [[[|p l]|]|]; try done.
    by destruct (intent_code p).
  - unfold HandlePutObject. by destruct (to_PutObject data) as [[]|].
  - unfold HandleDeleteObject. by destruct (to_DeleteObject data) as [[]|].
  - unfold HandlePayloadTransferred. cbn [state_ changes_]. case_bool_decide as Hs.
    + destruct (to_PayloadTransferred data) as [[t'|]|]; simpl; by rewrite ?Hs.
    + destruct (to_PayloadTransferred data) as [[t'|]|]; [|done..]. simpl. by destruct (mode past).
  - unfold HandleError. by destruct (to_FDv2Error data) as [[]|].
  - unfold HandleGoodbye. by destruct (to_Goodbye data) as [[]|].
  - done.
Qed.

Lemma HandleEvents_refines `{BoostJson} (events : list (string * json)) (past : list Action) :
  let '(h', rs) := HandleEvents events (mkHandler (mode past) (pending past)) in
  h' = mkHandler (mode (rev (action <$> events) ++ past)) (pending (rev (action <$> events) ++ past)) ∧
  omap change_set_of rs = deliveries past (action <$> events).
Proof.
  revert past. induction events as [|[t data] events IH]; intros past; [done|].
  cbn [HandleEvents]. pose proof (HandleEvent_refines (t, data) past) as Hstep. cbn [fst snd] in Hstep.
  destruct (HandleEvent t data _) as [h r]. destruct Hstep as [-> Hr].
  specialize (IH (action (t, data) :: past)).
  destruct (HandleEvents events _) as [h' rs]. destruct IH as [-> Hrs].
  rewrite fmap_cons. cbn [rev]. rewrite <- app_assoc. split; [done|].
  cbn [omap list_omap deliveries]. rewrite <- Hrs, <- Hr. by destruct (change_set_of r).
Qed.

(** What one change becomes: [None] aborts the change set, [Some None] skips it. *)
Definition translated `{BoostJson} (c : FDv2Change) : option (option ItemChange) :=
  match change_type c with
  | ChangeType.kDelete => Some (TranslateDelete c)
  | ChangeType.kPut =>
      if str_eqb (change_kind c) "flag" then
        match to_Flag (change_object c) with
        | Unexpected _ => None
        | Val o => Some (flag_put (change_key c) <$> o)
        end
      else if str_eqb (change_kind c) "segment" then
        match to_Segment (change_object c) with
        | Unexpected _ => None
        | Val o => Some (segment_put (change_key c) <$> o)
        end
      else Some None
  end.

Lemma translate_changes_spec `{BoostJson} l acc :
  translate_changes l acc = (λ items, acc ++ omap id items) <$> mapM translated l.
Proof.
  revert acc. induction l as [|c l IH]; intros acc; [simpl; by rewrite app_nil_r|].
  change (mapM translated (c :: l)) with (y ← translated c; k ← mapM translated l; mret (y :: k)).
  cbn [translate_changes]. unfold TranslatePut.
  assert (∀ o acc', acc' = acc ++ option_list o →
    translate_changes l acc' =
    (λ items, acc ++ omap id items) <$> (k ← mapM translated l; mret (o :: k))) as Hnext.
  { intros o acc' ->. rewrite IH. destruct (mapM translated l); simpl; [|done].
    f_equal. rewrite <- app_assoc. by destruct o. }
  clear IH. revert Hnext. generalize (mapM translated l) as rest. intros rest Hnext.
  unfold translated. destruct (change_type c).
  - destruct (str_eqb (change_kind c) "flag"); [|destruct (str_eqb (change_kind c) "segment")].
    + destruct (to_Flag (change_object c)) as [[f|]|]; [apply (Hnext (Some _))|apply (Hnext None)|];
        simpl; by rewrite ?app_nil_r.
    + destruct (to_Segment (change_object c)) as [[f|]|]; [apply (Hnext (Some _))|apply (Hnext None)|];
        simpl; by rewrite ?app_nil_r.
    + apply (Hnext None). simpl. by rewrite app_nil_r.
  - apply Hnext. destruct (TranslateDelete c); simpl; by rewrite ?app_nil_r.
Qed.

(** ** Properties *)

(** C9: the protocol handler delivers exactly what the history of events asks for.  Over any
    sequence of events: (1) its state is inactive at first and after a goodbye, an intent,
    put, delete or payload-transferred event that cannot be read, or an intent of no payload
    or of an unknown code; an intent to transfer everything makes it full, one to transfer
    changes or nothing makes it partial, and a completed transfer turns full into partial; an
    error event keeps it as it is.  (2) Its buffer holds precisely the puts and deletes
    since the last event that opened, closed or discarded a transfer, an error event being
    one that discards.  (3) The change sets it returns are, in order, an empty one of type
    kNone for each intent to transfer nothing, and one for each payload-transferred event
    that is read while the handler is not inactive, with all of the buffer in order and the
    selector of the event, full in the full state and partial in the partial one: the first
    transfer completed after a full intent is full, even when an error event came between,
    and later ones are partial. *)
Theorem fdv2_handler_refines `{BoostJson} (events : list (string * json)) :
  let '(h, results) := HandleEvents events new_handler in
  state_ h = mode (rev (action <$> events)) ∧
  changes_ h = pending (rev (action <$> events)) ∧
  omap change_set_of results = deliveries [] (action <$> events).
Proof.
  pose proof (HandleEvents_refines events []) as H'. rewrite app_nil_r in H'.
  change (mkHandler (mode []) (pending [])) with new_handler in H'.
  destruct (HandleEvents events new_handler) as [h rs]. by destruct H' as [-> ?].
Qed.

(** An error event empties the buffer and ends nothing: the handler stays in its state, so that
    the transfer completed next is delivered without a new intent, as a full one when the
    intent before the error was full. *)
Lemma error_keeps_state `{BoostJson} (data transferred : json) (t : PayloadTransferred) (h : FDv2ProtocolHandler) :
  let h' := (HandleEvent "error" data h).1 in
  h' = mkHandler (state_ h) [] ∧
  (state_ h = State.kFull → to_PayloadTransferred transferred = Val (Some t) →
   (HandleEvent "payload-transferred" transferred h').2 =
     RChangeSet (mkFDv2ChangeSet ChangeSetType.kFull [] (Some (mkSelectorState (transferred_version t) (transferred_state t))))).
Proof.
  assert ((HandleEvent "error" data h).1 = mkHandler (state_ h) []) as E.
  { change (HandleEvent "error" data h) with (HandleError data h). unfold HandleError. by destruct (to_FDv2Error data) as [[]|]. }
  split; [exact E|]. intros Hs Ht. rewrite E.
  change (HandleEvent "payload-transferred" transferred ?x) with (HandlePayloadTransferred transferred x).
  unfold HandlePayloadTransferred. cbn [state_]. by rewrite Hs, Ht.
Qed.

(** A change set is translated as a whole or not at all: it is refused exactly
    when it transfers data and some flag or segment in it cannot be read; otherwise
    its type and selector are kept and its items are the readable changes, in order,
    with deletions as tombstones and with unknown kinds and null objects left out. *)
Theorem translate_change_set_spec `{BoostJson} (cs : FDv2ChangeSet) :
  (TranslateChangeSet cs = None ↔
     fcs_type cs ≠ ChangeSetType.kNone ∧ ∃ c, c ∈ fcs_changes cs ∧ translated c = None) ∧
  (∀ out, TranslateChangeSet cs = Some out →
     cs_type out = fcs_type cs ∧ cs_selector out = fcs_selector cs ∧
     (fcs_type cs ≠ ChangeSetType.kNone →
        cs_data out = omap (λ c, default None (translated c)) (fcs_changes cs))).
Proof.
  unfold TranslateChangeSet. case_bool_decide as Ht.
  { split; [split; [done|by intros []]|]. intros out [= <-]. done. }
  rewrite translate_changes_spec. destruct (mapM translated (fcs_changes cs)) as [items|] eqn:E; simpl.
  - apply mapM_Some in E. split.
    + split; [done|]. intros (_ & c & Hc & Hn).
      apply list_elem_of_lookup_1 in Hc as [i Hi]. eapply Forall2_lookup_l in E as (y & _ & Hy); [|done].
      congruence.
    + intros out [= <-]. split_and!; [done..|]. intros _. cbn [cs_data app].
      clear Ht. induction E as [|c o l k Hc Hl IH]; [done|].
      cbn [omap list_omap] in *. rewrite Hc. cbn [default id]. destruct o; simpl; by rewrite IH.
  - split; [|done]. split; [intros _|done]. split; [done|].
    apply mapM_None in E. by apply Exists_exists in E.
Qed.
