(* ===== verification/StatusManager.v ===== *)
(** * Data source status

    libs/internal/include/launchdarkly/data_sources/data_source_status_manager_base.hpp,
    with the statuses of libs/common/include/launchdarkly/data_sources and the states of
    the server and of the client.

    The manager is a template over the state type; the class [SourceState] holds what it
    uses of it.  Every broadcast of the signal is recorded in [broadcasts_]. *)

From S2P Require Import Prelude.

Module StatusErrorKind.
Inductive t := kUnknown | kNetworkError | kErrorResponse | kInvalidData | kStoreError.
#[global] Instance eq_dec : EqDecision t.
Proof. solve_decision. Defined.
End StatusErrorKind.

Record ErrorInfo := mkErrorInfo {
  error_kind_ : StatusErrorKind.t;
  error_status_code_ : Z;
  error_message_ : string;
  error_time_ : Z;
}.

(** The two states the manager's own logic names. *)
Class SourceState (S : Type) := {
  source_state_eq_dec :: EqDecision S;
  initializing : S;
  interrupted : S;
  initializing_interrupted : initializing ≠ interrupted;
}.

Module ServerState.
Inductive t := kInitializing | kValid | kInterrupted | kOff.
#[global] Instance eq_dec : EqDecision t.
Proof. solve_decision. Defined.
End ServerState.

#[global] Instance server_states : SourceState ServerState.t.
Proof. refine {| initializing := ServerState.kInitializing; interrupted := ServerState.kInterrupted |}. done. Defined.

Module ClientState.
Inductive t := kInitializing | kValid | kInterrupted | kSetOffline | kShutdown.
#[global] Instance eq_dec : EqDecision t.
Proof. solve_decision. Defined.
End ClientState.

#[global] Instance client_states : SourceState ClientState.t.
Proof. refine {| initializing := ClientState.kInitializing; interrupted := ClientState.kInterrupted |}. done. Defined.

Record DataSourceStatus (S : Type) := mkStatus {
  status_state : S;
  status_since : Z;
  status_last_error : option ErrorInfo;
}.
Arguments mkStatus {S} _ _ _.
Arguments status_state {S} _.
Arguments status_since {S} _.
Arguments status_last_error {S} _.

Record StatusManager (S : Type) := mkStatusManager {
  sm_state_ : S;
  state_since_ : Z;
  last_error_ : option ErrorInfo;
  broadcasts_ : list (DataSourceStatus S);
}.
Arguments mkStatusManager {S} _ _ _ _.
Arguments sm_state_ {S} _.
Arguments state_since_ {S} _.
Arguments last_error_ {S} _.
Arguments broadcasts_ {S} _.

Section Manager.
Context {S : Type} `{!SourceState S}.
Implicit Types (m : StatusManager S) (state : S) (now code : Z) (message : string).

Definition new_status_manager now : StatusManager S := mkStatusManager initializing now None [].

Definition Status m : DataSourceStatus S := mkStatus (sm_state_ m) (state_since_ m) (last_error_ m).

(** [data_source_status_signal_(Status())] *)
Definition broadcast m : StatusManager S :=
  mkStatusManager (sm_state_ m) (state_since_ m) (last_error_ m) (broadcasts_ m ++ [Status m]).

Definition UpdateState (requested_state : S) now m : StatusManager S * bool :=
  let new_state := if bool_decide (requested_state = interrupted) && bool_decide (sm_state_ m = initializing)
                   then initializing else requested_state in
  let changed := negb (bool_decide (sm_state_ m = new_state)) in
  (if changed then mkStatusManager new_state now (last_error_ m) (broadcasts_ m) else m, changed).

Definition set_last_error (e : ErrorInfo) m : StatusManager S :=
  mkStatusManager (sm_state_ m) (state_since_ m) (Some e) (broadcasts_ m).

(** [SetState(state)] *)
Definition SetState state now m : StatusManager S :=
  let '(m, changed) := UpdateState state now m in if changed then broadcast m else m.

(** [SetState(state, code, message)] *)
Definition SetStateCode state code message now m : StatusManager S :=
  let m := (UpdateState state now m).1 in
  broadcast (set_last_error (mkErrorInfo StatusErrorKind.kErrorResponse code message now) m).

(** [SetState(state, kind, message)] *)
Definition SetStateKind state (kind : StatusErrorKind.t) message now m : StatusManager S :=
  let m := (UpdateState state now m).1 in
  broadcast (set_last_error (mkErrorInfo kind 0 message now) m).

(** [SetError(kind, message)] *)
Definition SetErrorKind (kind : StatusErrorKind.t) message now m : StatusManager S :=
  broadcast (mkStatusManager (sm_state_ m) now (Some (mkErrorInfo kind 0 message now)) (broadcasts_ m)).

(** [SetError(code, message)] *)
Definition SetErrorCode code message now m : StatusManager S :=
  broadcast (mkStatusManager (sm_state_ m) now
    (Some (mkErrorInfo StatusErrorKind.kErrorResponse code message now)) (broadcasts_ m)).

(** ** Specification *)

(** The public operations. *)
Inductive StatusOp :=
| OpState (state : S)
| OpStateCode (state : S) (code : Z) (message : string)
| OpStateKind (state : S) (kind : StatusErrorKind.t) (message : string)
| OpErrorKind (kind : StatusErrorKind.t) (message : string)
| OpErrorCode (code : Z) (message : string).

Definition status_step (op : StatusOp) now m : StatusManager S :=
  match op with
  | OpState state => SetState state now m
  | OpStateCode state code message => SetStateCode state code message now m
  | OpStateKind state kind message => SetStateKind state kind message now m
  | OpErrorKind kind message => SetErrorKind kind message now m
  | OpErrorCode code message => SetErrorCode code message now m
  end.

Definition run_status (ops : list (StatusOp * Z)) m : StatusManager S :=
  foldl (λ m op, status_step op.1 op.2 m) m ops.

Definition requested (op : StatusOp) : option S :=
  match op with
  | OpState s | OpStateCode s _ _ | OpStateKind s _ _ => Some s
  | _ => None
  end.

(** What the state should be: the last one requested, where an interruption before anything
    else was requested counts as still initializing. *)
Definition effective (current requested : S) : S :=
  if bool_decide (requested = interrupted ∧ current = initializing) then initializing else requested.

Definition spec_state (ops : list StatusOp) : S := foldl effective initializing (omap requested ops).

(** ** Lemmas *)

Lemma UpdateState_state state now m : sm_state_ (UpdateState state now m).1 = effective (sm_state_ m) state.
Proof.
  unfold UpdateState, effective. rewrite <- bool_decide_and.
  destruct (bool_decide (state = interrupted ∧ _)); case_bool_decide; by subst.
Qed.

Lemma status_step_state op now m :
  sm_state_ (status_step op now m) =
  match requested op with Some s => effective (sm_state_ m) s | None => sm_state_ m end.
Proof.
  destruct op as [state|state code message|state kind message| |]; simpl; try done.
  - unfold SetState. rewrite <- (UpdateState_state state now m). by destruct (UpdateState state now m) as [? []].
  - apply UpdateState_state.
  - apply UpdateState_state.
Qed.

Lemma run_status_state ops m :
  sm_state_ (run_status ops m) = foldl effective (sm_state_ m) (omap requested ops.*1).
Proof.
  revert m. induction ops as [|[op now] ops IH]; intros m; [done|]. cbn [run_status foldl fst snd fmap list_fmap].
  fold (run_status ops (status_step op now m)). rewrite IH, status_step_state. cbn [omap list_omap].
  by destruct (requested op).
Qed.

(** The listeners' view is the manager's status. *)
Definition up_to_date (start : DataSourceStatus S) m : Prop := last (start :: broadcasts_ m) = Some (Status m).

Lemma broadcast_up_to_date start m : up_to_date start (broadcast m).
Proof. unfold up_to_date. cbn [broadcasts_ broadcast]. by rewrite app_comm_cons, last_snoc. Qed.

Lemma step_up_to_date start op now m : up_to_date start m → up_to_date start (status_step op now m).
Proof.
  intros H. destruct op; simpl; try apply broadcast_up_to_date.
  unfold SetState. destruct (UpdateState state now m) as [m' changed] eqn:E.
  destruct changed; [apply broadcast_up_to_date|]. unfold UpdateState in E.
  by destruct (negb _); simplify_eq.
Qed.

Lemma run_up_to_date start ops m : up_to_date start m → up_to_date start (run_status ops m).
Proof.
  revert m. induction ops as [|op ops IH]; intros m H; [done|]. apply (IH (status_step op.1 op.2 m)).
  by apply step_up_to_date.
Qed.

(** Before a state other than the two is requested, the state stays initializing. *)
Lemma effective_initializing l :
  Forall (λ s, s = initializing ∨ s = interrupted) l → foldl effective initializing l = initializing.
Proof.
  induction 1 as [|s l [-> | ->] _ IH]; [done|..]; simpl; unfold effective at 2; case_bool_decide; tauto.
Qed.

(** The manager refines its specification under any sequence of calls: the state is the
    last one requested, except that interruptions before the first other request leave it
    initializing, so an interruption is reported only after a request for some other
    state; and the last status broadcast (or the initial one) is always the current one, so
    listeners are never behind. *)
Theorem status_manager_refines (ops : list (StatusOp * Z)) (start : Z) :
  let m := run_status ops (new_status_manager start) in
  sm_state_ m = spec_state ops.*1 ∧
  (sm_state_ m = interrupted → Exists (λ s, s ≠ initializing ∧ s ≠ interrupted) (omap requested ops.*1)) ∧
  last (Status (new_status_manager start) :: broadcasts_ m) = Some (Status m).
Proof.
  intros m. assert (sm_state_ m = spec_state ops.*1) as Hs by apply run_status_state.
  split_and!; [done| |by apply run_up_to_date].
  intros Hi. destruct (decide (Forall (λ s, s = initializing ∨ s = interrupted) (omap requested ops.*1))) as [HF|HF].
  - exfalso. apply initializing_interrupted. rewrite <- Hi, Hs. symmetry. by apply effective_initializing.
  - apply not_Forall_Exists in HF; [|intros s; apply _]. eapply Exists_impl; [exact HF|]. simpl. tauto.
Qed.
End Manager.
Arguments StatusOp _ : clear implicits.

(** An error alone changes the time of the last state change, not the state. *)
Lemma set_error_touches_since :
  let m := SetState ServerState.kValid 5 (new_status_manager 1) in
  state_since_ m = 5 ∧
  sm_state_ (SetErrorKind StatusErrorKind.kNetworkError "x" 9 m) = sm_state_ m ∧
  state_since_ (SetErrorKind StatusErrorKind.kNetworkError "x" 9 m) = 9.
Proof. done. Qed.
