(* ===== verification/SourceManagers.v ===== *)
(** * The source manager of the FDv2 data system

    libs/server-sdk/src/data_systems/fdv2/source_manager.hpp and source_manager.cpp: which
    synchronizer factory is used next.

    A factory is its position in the list given to the constructor; building a
    synchronizer returns that position.  Indices are [int]s with -1 for none, as in the
    code; [WfManager] bounds them. *)

From S2P Require Import Prelude.

Module SourceAvailability.
Inductive t := kAvailable | kBlocked.
#[global] Instance eq_dec : EqDecision t.
Proof. solve_decision. Defined.
End SourceAvailability.

Record SynchronizerFactoryWithState := mkFactory {
  fs_state : SourceAvailability.t;
  is_fdv1_fallback : bool;
}.

Record SourceManager := mkSourceManager {
  synchronizers_ : list SynchronizerFactoryWithState;
  synchronizer_index_ : Z;
  current_factory_index_ : Z;
}.

(** The constructor, from [IsFDv1Fallback()] of each factory. *)
Definition new_source_manager (factories : list bool) : SourceManager :=
  mkSourceManager
    ((λ fdv1 : bool, mkFactory (if fdv1 then SourceAvailability.kBlocked else SourceAvailability.kAvailable) fdv1)
       <$> factories) (-1) (-1).

Definition is_available (f : SynchronizerFactoryWithState) : bool :=
  bool_decide (fs_state f = SourceAvailability.kAvailable).

Definition factory_at (m : SourceManager) (i : Z) : option SynchronizerFactoryWithState :=
  if i <? 0 then None else synchronizers_ m !! Z.to_nat i.

(** The loop of [NextSynchronizer]; [todo] is [synchronizers_.size() - visited]. *)
Fixpoint next_loop (todo : nat) (m : SourceManager) : SourceManager * option Z :=
  match todo with
  | O => (mkSourceManager (synchronizers_ m) (synchronizer_index_ m) (-1), None)
  | S todo =>
      let index := Z.rem (synchronizer_index_ m + 1) (Z.of_nat (length (synchronizers_ m))) in
      let m := mkSourceManager (synchronizers_ m) index (current_factory_index_ m) in
      if (match factory_at m index with Some f => is_available f | None => false end)
      then (mkSourceManager (synchronizers_ m) index index, Some index)
      else next_loop todo m
  end.

Definition NextSynchronizer (m : SourceManager) : SourceManager * option Z :=
  match synchronizers_ m with
  | [] => (mkSourceManager [] (synchronizer_index_ m) (-1), None)
  | _ => next_loop (length (synchronizers_ m)) m
  end.

Definition BlockCurrentSynchronizer (m : SourceManager) : SourceManager :=
  if 0 <=? current_factory_index_ m then
    mkSourceManager
      (alter (λ f, mkFactory SourceAvailability.kBlocked (is_fdv1_fallback f))
         (Z.to_nat (current_factory_index_ m)) (synchronizers_ m))
      (synchronizer_index_ m) (current_factory_index_ m)
  else m.

Definition ResetSourceIndex (m : SourceManager) : SourceManager :=
  mkSourceManager (synchronizers_ m) (-1) (current_factory_index_ m).

Definition SwitchToFDv1Fallback (m : SourceManager) : SourceManager :=
  mkSourceManager
    ((λ f, mkFactory (if is_fdv1_fallback f then SourceAvailability.kAvailable else SourceAvailability.kBlocked)
             (is_fdv1_fallback f)) <$> synchronizers_ m)
    (-1) (current_factory_index_ m).

Definition SwitchBackToFDv2 (m : SourceManager) : SourceManager :=
  mkSourceManager
    ((λ f, mkFactory (if is_fdv1_fallback f then SourceAvailability.kBlocked else SourceAvailability.kAvailable)
             (is_fdv1_fallback f)) <$> synchronizers_ m)
    (-1) (current_factory_index_ m).

(** The loop of [IsPrimeSynchronizer], from position [i]. *)
Fixpoint prime_loop (l : list SynchronizerFactoryWithState) (i index : Z) : bool :=
  match l with
  | [] => false
  | f :: l => if is_available f then index =? i else prime_loop l (i + 1) index
  end.

Definition IsPrimeSynchronizer (m : SourceManager) : bool :=
  prime_loop (synchronizers_ m) 0 (synchronizer_index_ m).

Definition AvailableSynchronizerCount (m : SourceManager) : nat :=
  length (filter (λ f, is_available f = true) (synchronizers_ m)).

Definition SynchronizerCount (m : SourceManager) : nat := length (synchronizers_ m).

Definition IsCurrentSynchronizerFDv1Fallback (m : SourceManager) : bool :=
  (0 <=? current_factory_index_ m) &&
  (match factory_at m (current_factory_index_ m) with Some f => is_fdv1_fallback f | None => false end).

(** ** Specification *)

Definition WfManager (m : SourceManager) : Prop :=
  -1 ≤ synchronizer_index_ m < Z.of_nat (length (synchronizers_ m)) ∧
  -1 ≤ current_factory_index_ m < Z.of_nat (length (synchronizers_ m)).

(** The positions in the order the cursor meets them: from the one after it, around. *)
Definition cyclic_order (m : SourceManager) : list Z :=
  let start := Z.to_nat (synchronizer_index_ m + 1) in
  let n := length (synchronizers_ m) in
  Z.of_nat <$> (seq start (n - start) ++ seq 0 start).

Definition available_at (m : SourceManager) (i : Z) : bool :=
  match factory_at m i with Some f => is_available f | None => false end.

(** The next source is the first available one in cyclic order. *)
Definition spec_next (m : SourceManager) : option Z := List.find (available_at m) (cyclic_order m).

(** ** Lemmas *)

Lemma factory_at_of_nat m i : factory_at m (Z.of_nat i) = synchronizers_ m !! i.
Proof. unfold factory_at. destruct (Z.ltb_spec (Z.of_nat i) 0); [lia|]. by rewrite Nat2Z.id. Qed.

(** The cursor positions the loop goes through. *)
Fixpoint cursor_run (n : Z) (todo : nat) (index : Z) : list Z :=
  match todo with
  | O => []
  | S todo => let index := Z.rem (index + 1) n in index :: cursor_run n todo index
  end.

Lemma next_loop_find todo m :
  (next_loop todo m).2 = List.find (available_at m) (cursor_run (Z.of_nat (length (synchronizers_ m))) todo (synchronizer_index_ m)) ∧
  synchronizers_ (next_loop todo m).1 = synchronizers_ m ∧
  current_factory_index_ (next_loop todo m).1 = default (-1) (next_loop todo m).2 ∧
  (∀ i, (next_loop todo m).2 = Some i → synchronizer_index_ (next_loop todo m).1 = i).
Proof.
  revert m. induction todo as [|todo IH]; intros m; simpl; [done|].
  set (index := Z.rem _ _). unfold available_at at 1.
  change (factory_at (mkSourceManager (synchronizers_ m) index (current_factory_index_ m)) index)
    with (factory_at m index).
  destruct (match factory_at m index with Some f => is_available f | None => false end); simpl; [naive_solver|].
  destruct (IH (mkSourceManager (synchronizers_ m) index (current_factory_index_ m))) as (H1 & H2 & H3 & H4).
  split_and!; [by rewrite H1|done|done|done].
Qed.

Lemma cursor_run_upto (n k start : nat) :
  (start + k ≤ n)%nat →
  cursor_run (Z.of_nat n) k (Z.of_nat start - 1) = Z.of_nat <$> seq start k.
Proof.
  revert start. induction k as [|k IH]; intros start H; [done|]. cbn [cursor_run seq fmap list_fmap].
  assert (Z.rem (Z.of_nat start - 1 + 1) (Z.of_nat n) = Z.of_nat start) as ->.
  { rewrite Z.rem_small by lia. lia. }
  f_equal. rewrite <- IH by lia. f_equal. lia.
Qed.

Lemma cursor_run_app (n : Z) k1 k2 index :
  cursor_run n (k1 + k2) index =
  cursor_run n k1 index ++ cursor_run n k2 (default index (last (cursor_run n k1 index))).
Proof.
  revert index. induction k1 as [|k1 IH]; intros index; [done|]. cbn [Nat.add cursor_run app]. f_equal.
  rewrite IH. f_equal. rewrite last_cons. by destruct (last _).
Qed.

(** A whole round from a valid cursor is the cyclic order. *)
Lemma cursor_run_cyclic m :
  WfManager m → synchronizers_ m ≠ [] →
  cursor_run (Z.of_nat (length (synchronizers_ m))) (length (synchronizers_ m)) (synchronizer_index_ m) = cyclic_order m.
Proof.
  intros [Hi _] Hne. unfold cyclic_order. set (n := length (synchronizers_ m)) in *.
  set (start := Z.to_nat (synchronizer_index_ m + 1)). assert (start ≤ n)%nat as Hs by lia.
  assert (synchronizer_index_ m = Z.of_nat start - 1) as -> by lia.
  replace n with ((n - start) + start)%nat at 2 by lia. rewrite cursor_run_app, fmap_app.
  rewrite cursor_run_upto by lia. f_equal.
  destruct start as [|start']; [done|].
  assert (default (Z.of_nat (S start') - 1) (last (Z.of_nat <$> seq (S start') (n - S start'))) = Z.of_nat n - 1) as ->.
  { rewrite fmap_last. destruct (n - S start')%nat as [|k] eqn:E; [simpl; lia|]. rewrite seq_S, last_snoc. simpl. lia. }
  cbn [cursor_run seq fmap list_fmap]. replace (Z.of_nat n - 1 + 1) with (Z.of_nat n) by lia.
  assert (Z.rem (Z.of_nat n) (Z.of_nat n) = 0) as ->.
  { apply Z.rem_same. destruct (synchronizers_ m); [done|]. simpl in *. lia. }
  f_equal. apply (cursor_run_upto n start' 1). lia.
Qed.

Lemma cyclic_order_elem m i :
  WfManager m → i ∈ cyclic_order m ↔ 0 ≤ i < Z.of_nat (length (synchronizers_ m)).
Proof.
  intros [Hi _]. unfold cyclic_order. rewrite list_elem_of_fmap. split.
  - intros (j & -> & Hj). rewrite elem_of_app, !elem_of_seq in Hj. lia.
  - intros H. exists (Z.to_nat i). split; [lia|]. rewrite elem_of_app, !elem_of_seq. lia.
Qed.

Lemma available_in_range m i : available_at m i = true → 0 ≤ i < Z.of_nat (length (synchronizers_ m)).
Proof.
  unfold available_at, factory_at. destruct (Z.ltb_spec i 0); [done|].
  destruct (synchronizers_ m !! Z.to_nat i) eqn:E; [|done]. apply lookup_lt_Some in E. lia.
Qed.

Lemma spec_next_None m : WfManager m → spec_next m = None ↔ ∀ i, available_at m i = false.
Proof.
  intros Hwf. split.
  - intros Hn i. destruct (available_at m i) eqn:E; [|done]. pose proof (available_in_range _ _ E) as Hr.
    apply cyclic_order_elem, list_elem_of_In in Hr; [|done].
    pose proof (List.find_none _ _ Hn i Hr) as H. congruence.
  - intros H. destruct (spec_next m) eqn:E; [|done]. apply List.find_some in E as [_ E]. by rewrite H in E.
Qed.

Lemma next_loop_wf todo m :
  WfManager m → synchronizers_ m ≠ [] → WfManager (next_loop todo m).1.
Proof.
  intros Hwf Hne. revert m Hwf Hne. induction todo as [|todo IH]; intros m [Hi Hc] Hne; simpl.
  { split; simpl; lia. }
  assert (0 < Z.of_nat (length (synchronizers_ m))) as Hn by (destruct (synchronizers_ m); simpl in *; [done|lia]).
  pose proof (Z.rem_bound_pos (synchronizer_index_ m + 1) (Z.of_nat (length (synchronizers_ m)))) as Hr.
  match goal with |- context [if ?b then _ else _] => destruct b end; simpl.
  - split; simpl; lia.
  - apply IH; [split; simpl; lia|done].
Qed.

Lemma available_count m : AvailableSynchronizerCount m = 0%nat ↔ ∀ i, available_at m i = false.
Proof.
  unfold AvailableSynchronizerCount. rewrite length_zero_iff_nil. split.
  - intros H i. unfold available_at, factory_at. destruct (i <? 0); [done|].
    destruct (synchronizers_ m !! Z.to_nat i) as [f|] eqn:E; [|done]. apply list_elem_of_lookup_2 in E.
    destruct (is_available f) eqn:Ef; [|done]. exfalso.
    assert (f ∈ filter (λ f, is_available f = true) (synchronizers_ m)) as Hin by (by apply list_elem_of_filter).
    rewrite H in Hin. by apply not_elem_of_nil in Hin.
  - intros H. destruct (filter _ _) as [|f l] eqn:E; [done|]. exfalso.
    assert (f ∈ filter (λ f, is_available f = true) (synchronizers_ m)) as Hin by (rewrite E; by left).
    apply list_elem_of_filter in Hin as [Hf Hin]. apply list_elem_of_lookup in Hin as [i Hi].
    specialize (H (Z.of_nat i)). unfold available_at in H. rewrite factory_at_of_nat, Hi in H. congruence.
Qed.

Lemma prime_loop_spec l i index :
  prime_loop l i index = true ↔
  ∃ k : nat, index = i + Z.of_nat k ∧ is_available <$> l !! k = Some true ∧
    ∀ j, (j < k)%nat → is_available <$> l !! j = Some false.
Proof.
  revert i. induction l as [|f l IH]; intros i; simpl; [split; [done|by intros (k & _ & H & _)]|].
  destruct (is_available f) eqn:Ef.
  - rewrite Z.eqb_eq. split.
    + intros ->. exists 0%nat. simpl. rewrite Ef. split_and!; [lia|done|lia].
    + intros ([|k] & -> & _ & Hlt); [lia|]. specialize (Hlt 0%nat). simpl in Hlt. rewrite Ef in Hlt.
      by discriminate Hlt; lia.
  - rewrite IH. split.
    + intros (k & -> & Hk & Hlt). exists (S k). simpl. split_and!; [lia|done|].
      intros [|j] Hj; simpl; [by rewrite Ef|]. apply Hlt. lia.
    + intros ([|k] & -> & Hk & Hlt); simpl in Hk; [by rewrite Ef in Hk|].
      exists k. split_and!; [lia|done|]. intros j Hj. apply (Hlt (S j)). lia.
Qed.

(** The operations that only change states keep the manager well formed. *)
Lemma manager_ops_wf m :
  WfManager m →
  WfManager (BlockCurrentSynchronizer m) ∧ WfManager (ResetSourceIndex m) ∧
  WfManager (SwitchToFDv1Fallback m) ∧ WfManager (SwitchBackToFDv2 m).
Proof.
  intros [Hi Hc]. unfold WfManager, BlockCurrentSynchronizer, ResetSourceIndex, SwitchToFDv1Fallback, SwitchBackToFDv2.
  destruct (0 <=? current_factory_index_ m); simpl; rewrite ?length_fmap, ?length_alter; lia.
Qed.

Lemma next_synchronizer_wf m : WfManager m → WfManager (NextSynchronizer m).1.
Proof.
  intros Hwf. unfold NextSynchronizer. destruct (synchronizers_ m) as [|f l] eqn:E.
  - destruct Hwf as [Hi Hc]. rewrite E in *. split; simpl in *; lia.
  - rewrite <- E. apply next_loop_wf; [done|by rewrite E].
Qed.

Lemma next_synchronizer_find m :
  WfManager m →
  (NextSynchronizer m).2 = spec_next m ∧
  synchronizers_ (NextSynchronizer m).1 = synchronizers_ m ∧
  current_factory_index_ (NextSynchronizer m).1 = default (-1) (spec_next m) ∧
  (∀ i, spec_next m = Some i → synchronizer_index_ (NextSynchronizer m).1 = i).
Proof.
  intros Hwf. unfold NextSynchronizer. destruct (synchronizers_ m) as [|f l] eqn:E.
  - assert (spec_next m = None) as ->; [|done].
    apply spec_next_None; [done|]. intros i. unfold available_at, factory_at. rewrite E.
    by destruct (i <? 0).
  - rewrite <- E. destruct (next_loop_find (length (synchronizers_ m)) m) as (H1 & H2 & H3 & H4).
    rewrite cursor_run_cyclic in H1 by (done || by rewrite E). fold (spec_next m) in H1.
    rewrite H1 in H3, H4. by rewrite H1.
Qed.

(** ** Properties *)

(** [NextSynchronizer] chooses the first available factory in cyclic order after the
    cursor, keeps every factory's state, records its choice, and finds none exactly when
    all are blocked; the prime factory is the first available one. *)
Theorem next_synchronizer_spec (m : SourceManager) (Hwf : WfManager m) :
  let m' := (NextSynchronizer m).1 in
  (NextSynchronizer m).2 = spec_next m ∧
  WfManager m' ∧ synchronizers_ m' = synchronizers_ m ∧
  ((NextSynchronizer m).2 = None ↔ AvailableSynchronizerCount m = 0%nat) ∧
  (∀ i, (NextSynchronizer m).2 = Some i →
     available_at m' i = true ∧ current_factory_index_ m' = i ∧
     (IsPrimeSynchronizer m' = true ↔ ∀ j, 0 ≤ j < i → available_at m j = false)).
Proof.
  intros m'. destruct (next_synchronizer_find m Hwf) as (H1 & H2 & H3 & H4). fold m' in H2, H3, H4.
  rewrite H1. split_and!; [done|by apply next_synchronizer_wf|done|by rewrite spec_next_None, available_count|].
  intros i Hi. rewrite Hi in H3. simpl in H3. specialize (H4 i Hi).
  assert (∀ j, available_at m' j = available_at m j) as Hav.
  { intros j. unfold available_at, factory_at. by rewrite H2. }
  pose proof Hi as Hf. apply List.find_some in Hf as [Hin Hf].
  split_and!; [by rewrite Hav|done|]. apply available_in_range in Hf as Hr.
  unfold IsPrimeSynchronizer. rewrite prime_loop_spec, H2, H4. split.
  - intros (k & Hk & Hak & Hlt) j Hj. specialize (Hlt (Z.to_nat j)).
    unfold available_at, factory_at. destruct (Z.ltb_spec j 0); [lia|].
    destruct (synchronizers_ m !! Z.to_nat j); [|done]. simpl in Hlt. injection Hlt; [done|lia].
  - intros Hlt. exists (Z.to_nat i). split_and!; [lia| |].
    + unfold available_at, factory_at in Hf. destruct (Z.ltb_spec i 0); [lia|].
      destruct (synchronizers_ m !! Z.to_nat i); [|done]. simpl. by rewrite Hf.
    + intros j Hj. specialize (Hlt (Z.of_nat j)). unfold available_at in Hlt.
      rewrite factory_at_of_nat in Hlt. destruct (lookup_lt_is_Some_2 (synchronizers_ m) j) as [f Hjf]; [lia|].
      rewrite Hjf in Hlt |- *. simpl. rewrite Hlt; [done|lia].
Qed.

Lemma next_synchronizer_spec_witness :
  let m := BlockCurrentSynchronizer (NextSynchronizer (new_source_manager [false; false; true])).1 in
  (NextSynchronizer m).2 = Some 1 ∧ (NextSynchronizer m).2 = spec_next m.
Proof.
  split; [reflexivity|].
  apply (next_synchronizer_spec (BlockCurrentSynchronizer (NextSynchronizer (new_source_manager [false; false; true])).1)).
  split; vm_compute; split; congruence.
Defined.
