(* ===== verification/SourceResults.v ===== *)
(** * Results of FDv2 sources

    libs/server-sdk/src/data_interfaces/source/fdv2_source_result.hpp: what an initializer
    or a synchronizer returns, and the directive to fall back to FDv1. *)

From S2P Require Import Prelude DataModel StatusManager.

(** [FDv1FallbackDirective]: how long to stay on FDv1, in seconds. *)
Definition kDefaultTtl : Z := 3600.
Record FDv1FallbackDirective := mkDirective { ttl : Z }.

(** [std::from_chars] of an unsigned 64-bit integer in base 10 on the whole range: at
    least one digit, nothing but digits, and no overflow. *)
Definition digit_of (c : ascii) : option Z :=
  let n := Z.of_N (N_of_ascii c) in if (48 <=? n) && (n <=? 57) then Some (n - 48) else None.

Fixpoint digits_value (acc : Z) (l : list ascii) : option Z :=
  match l with
  | [] => Some acc
  | c :: l => match digit_of c with Some d => digits_value (10 * acc + d) l | None => None end
  end.

(** [ParseTtl]; [std::chrono::seconds] holds a signed 64-bit count. *)
Definition ParseTtl (value : string) : option Z :=
  match chars value with
  | [] => None
  | l => match digits_value 0 l with
         | Some seconds => if seconds <? 2 ^ 64 then Some (s64 seconds) else None
         | None => None
         end
  end.

(** [FDv2SourceResult::Value] *)
Inductive SourceValue :=
| ResChangeSet (change_set : ChangeSet ChangeSetData)
| ResInterrupted (error : ErrorInfo)
| ResTerminalError (error : ErrorInfo)
| ResShutdown
| ResGoodbye (reason : option string).

Record FDv2SourceResult := mkSourceResult {
  sr_value : SourceValue;
  fdv1_fallback : option FDv1FallbackDirective;
}.

(** A result that carries no directive. *)
Definition plain_result (v : SourceValue) : FDv2SourceResult := mkSourceResult v None.

(** ** Parsing a TTL *)

(** The decimal digits of a number. *)
Fixpoint print_digits (fuel : nat) (n : Z) (acc : list ascii) : list ascii :=
  match fuel with
  | O => acc
  | S fuel =>
      let acc := ascii_of_N (Z.to_N (48 + n mod 10)) :: acc in
      if n <? 10 then acc else print_digits fuel (n / 10) acc
  end.

Definition print_decimal (n : Z) : string := of_chars (print_digits 20 n []).

Lemma digit_of_print d : 0 ≤ d < 10 → digit_of (ascii_of_N (Z.to_N (48 + d))) = Some d.
Proof.
  intros H. unfold digit_of. rewrite N_ascii_embedding by lia.
  rewrite Z2N.id by lia. destruct (Z.leb_spec 48 (48 + d)), (Z.leb_spec (48 + d) 57); simpl; try lia.
  f_equal. lia.
Qed.

Lemma digits_value_app acc l1 l2 :
  digits_value acc (l1 ++ l2) = match digits_value acc l1 with Some a => digits_value a l2 | None => None end.
Proof. revert acc. induction l1 as [|c l1 IH]; intros acc; simpl; [done|]. by destruct (digit_of c). Qed.

Lemma print_digits_acc fuel n acc : print_digits fuel n acc = print_digits fuel n [] ++ acc.
Proof.
  revert n acc. induction fuel as [|fuel IH]; intros n acc; simpl; [done|].
  destruct (n <? 10); [done|]. rewrite IH, (IH _ [_]), <- app_assoc. done.
Qed.

Lemma digits_value_print fuel n :
  0 ≤ n < 10 ^ Z.of_nat fuel → digits_value 0 (print_digits fuel n []) = Some n.
Proof.
  revert n. induction fuel as [|fuel IH]; intros n Hn.
  { rewrite Z.pow_0_r in Hn. simpl. f_equal. lia. }
  rewrite Nat2Z.inj_succ, Z.pow_succ_r in Hn by lia.
  pose proof (Z.mod_pos_bound n 10) as Hm. cbn [print_digits].
  destruct (Z.ltb_spec n 10).
  - simpl. rewrite digit_of_print by lia. rewrite Z.mod_small by lia. done.
  - rewrite print_digits_acc, digits_value_app, IH; [|split; [apply Z.div_pos; lia|apply Z.div_lt_upper_bound; lia]].
    simpl. rewrite digit_of_print by lia. f_equal. pose proof (Z.div_mod n 10). lia.
Qed.

Lemma print_digits_nonempty fuel n acc : print_digits (S fuel) n acc ≠ [].
Proof.
  revert n acc. induction fuel as [|fuel IH]; intros n acc; simpl; [by destruct (n <? 10)|].
  destruct (n <? 10); [done|]. apply IH.
Qed.

(** Every TTL that fits a 64-bit count of seconds is read back as it was printed. *)
Lemma parse_ttl_print n : 0 ≤ n < 2 ^ 63 → ParseTtl (print_decimal n) = Some n.
Proof.
  intros H. unfold ParseTtl, print_decimal. rewrite chars_of_chars.
  pose proof (print_digits_nonempty 19 n []) as Hne.
  pose proof (digits_value_print 20 n) as Hv. destruct (print_digits 20 n []) as [|c l]; [done|].
  rewrite Hv by (change (10 ^ Z.of_nat 20) with 100000000000000000000; lia).
  destruct (Z.ltb_spec n (2 ^ 64)); [|lia]. by rewrite s64_small by lia.
Qed.
