(* ===== verification/Conditions.v ===== *)
(** * Conditions of the FDv2 data system

    libs/server-sdk/src/data_systems/fdv2/conditions.hpp and conditions.cpp: the timed
    conditions that make the orchestrator fall back to another synchronizer or recover the
    preferred one, and [Conditions], which joins them into one future.

    A promise is the value it was resolved with, if any.  A timer started by
    [async::Delay] is an identifier in [outstanding]: its wait completes by expiring, or by
    being aborted after its source was cancelled.  Cancelling only posts the request, so a
    cancelled timer may still expire first. *)

From S2P Require Import Prelude DataModel StatusManager SourceResults.

Module ConditionType.
Inductive t := kFallback | kRecovery | kCancelled.
#[global] Instance eq_dec : EqDecision t.
Proof. solve_decision. Defined.
End ConditionType.

(** ** [TimedCondition] *)

Record TimedCondition := mkCondition {
  GetType : ConditionType.t;
  tc_closed : bool;
  tc_promise : option ConditionType.t;
  timer_cancel : option nat;
  outstanding : list nat;
  next_timer : nat;
}.

(** [Promise::Resolve]: only the first call has an effect. *)
Definition resolve (t : ConditionType.t) (c : TimedCondition) : TimedCondition :=
  mkCondition (GetType c) (tc_closed c) (Some (default t (tc_promise c)))
    (timer_cancel c) (outstanding c) (next_timer c).

Definition tc_Close (c : TimedCondition) : TimedCondition :=
  if tc_closed c then c
  else resolve ConditionType.kCancelled
         (mkCondition (GetType c) true (tc_promise c) None (outstanding c) (next_timer c)).

Definition ArmTimer (c : TimedCondition) : TimedCondition :=
  if tc_closed c || bool_decide (is_Some (timer_cancel c)) then c
  else mkCondition (GetType c) (tc_closed c) (tc_promise c) (Some (next_timer c))
         (next_timer c :: outstanding c) (S (next_timer c)).

Definition CancelTimer (c : TimedCondition) : TimedCondition :=
  mkCondition (GetType c) (tc_closed c) (tc_promise c) None (outstanding c) (next_timer c).

(** The wait of a timer completes: [fired_normally]. *)
Definition timer_expired (id : nat) (c : TimedCondition) : TimedCondition :=
  resolve (GetType c)
    (mkCondition (GetType c) (tc_closed c) (tc_promise c) (timer_cancel c)
       (filter (λ i, i ≠ id) (outstanding c)) (next_timer c)).

(** The wait of a timer completes with [operation_aborted]. *)
Definition timer_aborted (id : nat) (c : TimedCondition) : TimedCondition :=
  mkCondition (GetType c) (tc_closed c) (tc_promise c) (timer_cancel c)
    (filter (λ i, i ≠ id) (outstanding c)) (next_timer c).

Definition new_condition (type : ConditionType.t) : TimedCondition :=
  mkCondition type false None None [] 0.

(** [FallbackConditionFactory::Build] and [RecoveryConditionFactory::Build]; the recovery
    timer starts at construction. *)
Definition FallbackCondition : TimedCondition := new_condition ConditionType.kFallback.
Definition RecoveryCondition : TimedCondition := ArmTimer (new_condition ConditionType.kRecovery).

(** [Inform], which only the fallback condition implements. *)
Definition Inform (result : FDv2SourceResult) (c : TimedCondition) : TimedCondition :=
  match GetType c with
  | ConditionType.kFallback =>
      match sr_value result with
      | ResChangeSet _ => CancelTimer c
      | ResInterrupted _ => ArmTimer c
      | _ => c
      end
  | _ => c
  end.

(** ** [Conditions] *)

(** [cs_pending] are the promises handed out by [GetFuture] that wait for the aggregate;
    [when_any] says whether the future of [MakeAggregateFuture] has resolved. *)
Record Conditions := mkConditions {
  conditions_ : list TimedCondition;
  when_any : bool;
  next_id : nat;
  cs_pending : list nat;
  aggregate_result : option ConditionType.t;
}.

(** The per-call promises an operation resolves. *)
Abbreviation Resolved := (list (nat * ConditionType.t)).

(** The continuation attached to the aggregate future. *)
Definition on_aggregate (type : ConditionType.t) (c : Conditions) : Conditions * Resolved :=
  (mkConditions (conditions_ c) true (next_id c) [] (Some type), (λ id, (id, type)) <$> cs_pending c).

(** [WhenAny] over the conditions' futures: the first one that has a result, once. *)
Definition poll_aggregate (c : Conditions) : Conditions * Resolved :=
  if when_any c then (c, [])
  else match omap tc_promise (conditions_ c) with
       | [] => (c, [])
       | type :: _ => on_aggregate type c
       end.

Definition new_conditions (conditions : list TimedCondition) : Conditions :=
  (poll_aggregate (mkConditions conditions false 0 [] None)).1.

(** [GetFuture]: a resolved future, or the promise that will resolve it. *)
Definition GetFuture (c : Conditions) : Conditions * (ConditionType.t + nat) :=
  match aggregate_result c with
  | Some type => (c, inl type)
  | None =>
      (mkConditions (conditions_ c) (when_any c) (S (next_id c)) (cs_pending c ++ [next_id c]) None,
       inr (next_id c))
  end.

(** The cancellation callback of a future: its promise is dropped. *)
Definition cancel_future (id : nat) (c : Conditions) : Conditions :=
  mkConditions (conditions_ c) (when_any c) (next_id c)
    (filter (λ i, i ≠ id) (cs_pending c)) (aggregate_result c).

Definition update_conditions (f : TimedCondition → TimedCondition) (c : Conditions) : Conditions :=
  mkConditions (f <$> conditions_ c) (when_any c) (next_id c) (cs_pending c) (aggregate_result c).

(** [Conditions::Inform] resolves nothing. *)
Definition cs_Inform (result : FDv2SourceResult) (c : Conditions) : Conditions :=
  update_conditions (Inform result) c.

(** Timer [id] of the condition at [i] completes. *)
Definition cs_timer (f : nat → TimedCondition → TimedCondition) (i id : nat) (c : Conditions)
    : Conditions * Resolved :=
  poll_aggregate (mkConditions (alter (f id) i (conditions_ c)) (when_any c) (next_id c) (cs_pending c)
                    (aggregate_result c)).

(** One condition after the other is closed; the first of them resolves the aggregate. *)
Fixpoint close_all (closed rest : list TimedCondition) (c : Conditions) : Conditions * Resolved :=
  match rest with
  | [] => (c, [])
  | x :: rest =>
      let closed := closed ++ [tc_Close x] in
      let '(c, r) := poll_aggregate (mkConditions (closed ++ rest) (when_any c) (next_id c) (cs_pending c)
                                       (aggregate_result c)) in
      let '(c, r') := close_all closed rest c in
      (c, r ++ r')
  end.

(** [Conditions::Close]: then what is still pending is cancelled. *)
Definition cs_Close (c : Conditions) : Conditions * Resolved :=
  let '(c, resolved) := close_all [] (conditions_ c) c in
  (mkConditions (conditions_ c) (when_any c) (next_id c) []
     (Some (default ConditionType.kCancelled (aggregate_result c))),
   resolved ++ ((λ id, (id, ConditionType.kCancelled)) <$> cs_pending c)).

(** ** Steps *)

Inductive ConditionsEvent :=
| EvGetFuture
| EvCancelFuture (id : nat)
| EvInform (result : FDv2SourceResult)
| EvTimerExpired (i id : nat)
| EvTimerAborted (i id : nat)
| EvClose.

Definition conditions_step (e : ConditionsEvent) (c : Conditions) : Conditions * Resolved :=
  match e with
  | EvGetFuture => ((GetFuture c).1, [])
  | EvCancelFuture id => (cancel_future id c, [])
  | EvInform result => (cs_Inform result c, [])
  | EvTimerExpired i id => cs_timer timer_expired i id c
  | EvTimerAborted i id => cs_timer timer_aborted i id c
  | EvClose => cs_Close c
  end.

Fixpoint run_conditions (events : list ConditionsEvent) (c : Conditions) : Conditions * Resolved :=
  match events with
  | [] => (c, [])
  | e :: events =>
      let '(c, r) := conditions_step e c in
      let '(c, r') := run_conditions events c in
      (c, r ++ r')
  end.

(** ** Lemmas: the fallback timer *)

(** The last result that matters to a fallback condition was an interruption. *)
Definition interrupted_last (results : list FDv2SourceResult) : bool :=
  match last (filter (λ r, match sr_value r with ResChangeSet _ | ResInterrupted _ => true | _ => false end = true) results) with
  | Some r => match sr_value r with ResInterrupted _ => true | _ => false end
  | None => false
  end.

Lemma interrupted_last_snoc results r :
  interrupted_last (results ++ [r]) =
  match sr_value r with ResChangeSet _ => false | ResInterrupted _ => true | _ => interrupted_last results end.
Proof.
  unfold interrupted_last. rewrite filter_app.
  destruct (sr_value r) eqn:E; [rewrite (filter_cons_True _ r) by (by rewrite E)..| | |];
    try (rewrite filter_nil, last_snoc; by rewrite E).
  all: rewrite filter_cons_False by (by rewrite E); by rewrite filter_nil, app_nil_r.
Qed.

(** ** Lemmas: the aggregate *)

(** A closed condition has a result. *)
Definition CondOk (x : TimedCondition) : Prop := tc_closed x = true → is_Some (tc_promise x).

Lemma cond_ops_ok x id result :
  CondOk x →
  CondOk (tc_Close x) ∧ CondOk (Inform result x) ∧ CondOk (timer_expired id x) ∧ CondOk (timer_aborted id x).
Proof.
  unfold CondOk, tc_Close, Inform, ArmTimer, CancelTimer, timer_expired, timer_aborted, resolve. intros H.
  split_and!; simpl; try done.
  - destruct (tc_closed x) eqn:E; simpl; [by intros _; apply H|done].
  - destruct (GetType x); [|done|done]. destruct (sr_value result); simpl; try done.
    destruct (tc_closed x || _); [done|]. done.
Qed.

Lemma closed_resolved x : CondOk x → is_Some (tc_promise (tc_Close x)).
Proof. intros H. unfold tc_Close. destruct (tc_closed x) eqn:E; [by apply H|done]. Qed.

(** What holds of the state and of all promises resolved so far. *)
Record WfConditions (c : Conditions) (r : Resolved) : Prop := {
  wf_pending : NoDup (cs_pending c);
  wf_ids : ∀ id, id ∈ cs_pending c → (id < next_id c)%nat;
  wf_drained : is_Some (aggregate_result c) → cs_pending c = [];
  wf_when_any : is_Some (aggregate_result c) → when_any c = true ∨ conditions_ c = [];
  wf_fired : when_any c = true → is_Some (aggregate_result c);
  wf_conds : Forall CondOk (conditions_ c);
  wf_once : NoDup r.*1;
  wf_resolved : ∀ id t, (id, t) ∈ r → (id < next_id c)%nat ∧ aggregate_result c = Some t;
}.

Ltac split_wf := split; simpl; try done; try (by constructor); try (by intros ? ?%not_elem_of_nil); try (by intros ? ? ?%not_elem_of_nil).

Lemma wf_unresolved c r : WfConditions c r → aggregate_result c = None → r = [].
Proof.
  intros H Ha. destruct r as [|[id t] r]; [done|].
  destruct (wf_resolved _ _ H id t) as [_ Ht]; [by left|]. congruence.
Qed.

(** Changing the conditions alone. *)
Lemma wf_with_conditions c r l :
  WfConditions c r → length l = length (conditions_ c) → Forall CondOk l →
  WfConditions (mkConditions l (when_any c) (next_id c) (cs_pending c) (aggregate_result c)) r.
Proof.
  intros [] Hl Hok. split; try done. simpl. intros Ha. destruct (wf_when_any0 Ha) as [?|E]; [by left|right].
  rewrite E in Hl. by apply length_zero_iff_nil.
Qed.

Lemma resolve_pending c (t : ConditionType.t) :
  WfConditions c [] →
  NoDup ((λ id : nat, (id, t)) <$> cs_pending c).*1 ∧
  ∀ id t', (id, t') ∈ (λ id : nat, (id, t)) <$> cs_pending c → (id < next_id c)%nat ∧ t' = t.
Proof.
  intros []. split.
  - rewrite <- list_fmap_compose. apply NoDup_fmap_2; [by intros ? ? [=]|done].
  - intros id t' (x & [= -> ->] & Hx)%list_elem_of_fmap. auto.
Qed.

Lemma poll_wf c r : WfConditions c r → WfConditions (poll_aggregate c).1 (r ++ (poll_aggregate c).2).
Proof.
  intros H. unfold poll_aggregate. destruct (when_any c) eqn:Hw; [by rewrite app_nil_r|].
  destruct (omap tc_promise (conditions_ c)) as [|t l] eqn:El; [by rewrite app_nil_r|]. simpl.
  destruct (aggregate_result c) as [t'|] eqn:Ha.
  { destruct (wf_when_any _ _ H) as [?|E]; [by rewrite Ha|congruence|]. by rewrite E in El. }
  pose proof (wf_unresolved _ _ H Ha) as ->. destruct (resolve_pending c t H) as [Hnd Hin]. destruct H.
  split_wf. intros id t' Hid. apply Hin in Hid as [? ->]. done.
Qed.

Lemma poll_conditions c : conditions_ (poll_aggregate c).1 = conditions_ c.
Proof. unfold poll_aggregate. destruct (when_any c); [done|]. by destruct (omap _ _). Qed.

Lemma poll_fires c : Exists (λ x, is_Some (tc_promise x)) (conditions_ c) → when_any (poll_aggregate c).1 = true.
Proof.
  intros (x & Hx & t & Ht)%Exists_exists. unfold poll_aggregate. destruct (when_any c) eqn:E; [done|].
  assert (t ∈ omap tc_promise (conditions_ c)) as Hin by (apply list_elem_of_omap; eauto).
  destruct (omap _ _); [by apply not_elem_of_nil in Hin|done].
Qed.

(** Closing all conditions keeps the invariant, and resolves the aggregate if there is one. *)
Lemma close_all_wf closed rest c r :
  WfConditions c r → conditions_ c = closed ++ rest →
  Exists (λ x, is_Some (tc_promise x)) closed ∧ when_any c = true ∨ closed = [] →
  WfConditions (close_all closed rest c).1 (r ++ (close_all closed rest c).2) ∧
  (closed ++ rest = [] ∨ when_any (close_all closed rest c).1 = true).
Proof.
  revert closed c r. induction rest as [|x rest IH]; intros closed c r H Hl Hw; cbn [close_all].
  { rewrite !app_nil_r. split; [done|]. destruct Hw as [[_ ?]| ->]; [by right|by left]. }
  set (c1 := mkConditions _ _ _ _ _). pose proof (wf_conds _ _ H) as Hok. rewrite Hl in Hok.
  apply Forall_app in Hok as [Hok1 [Hx Hok2]%Forall_cons_1].
  assert (WfConditions c1 r) as H1.
  { apply wf_with_conditions; [done| |].
    - rewrite Hl, !length_app. simpl. lia.
    - rewrite !Forall_app. split_and!; [done|by constructor; [apply (cond_ops_ok x 0 (plain_result ResShutdown))|]|done]. }
  assert (Exists (λ x, is_Some (tc_promise x)) (closed ++ [tc_Close x])) as Hex.
  { apply Exists_app. right. constructor. by apply closed_resolved. }
  pose proof (poll_wf _ _ H1) as H2. pose proof (poll_conditions c1) as Hl2.
  pose proof (poll_fires c1) as Hf. destruct (poll_aggregate c1) as [c2 r2]. simpl in H2, Hl2, Hf.
  destruct (IH (closed ++ [tc_Close x]) c2 (r ++ r2)) as [H3 Hl3]; [done|done| |].
  { left. split; [done|]. apply Hf. apply Exists_app. by left. }
  destruct (close_all _ rest c2) as [c3 r3]. simpl in *. rewrite <- app_assoc in H3. split; [done|].
  right. destruct Hl3 as [E|?]; [|done]. by destruct closed.
Qed.

Lemma cs_Close_wf c r : WfConditions c r → WfConditions (cs_Close c).1 (r ++ (cs_Close c).2).
Proof.
  intros H. unfold cs_Close. destruct (close_all_wf [] (conditions_ c) c r H eq_refl) as [H1 Hw]; [by right|].
  assert (conditions_ c = [] → conditions_ (close_all [] (conditions_ c) c).1 = []) as Hnil.
  { intros E. by rewrite E. }
  destruct (close_all [] (conditions_ c) c) as [c1 r1]. simpl in *.
  destruct (aggregate_result c1) as [t|] eqn:Ha; simpl.
  - rewrite (wf_drained _ _ H1) by (by rewrite Ha). simpl. rewrite app_nil_r.
    destruct H1. rewrite Ha in *. split_wf.
  - destruct Hw as [E|Hw]; [|apply (wf_fired _ _ H1) in Hw; rewrite Ha in Hw; by destruct Hw].
    destruct (app_eq_nil r r1) as [-> ->]; [by apply (wf_unresolved c1)|].
    destruct (resolve_pending c1 ConditionType.kCancelled H1) as [Hnd Hin]. destruct H1.
    split_wf; [by right; apply Hnil|].
    intros id t Hid. apply Hin in Hid as [? ->]. done.
Qed.

Lemma conditions_step_wf e c r :
  WfConditions c r → WfConditions (conditions_step e c).1 (r ++ (conditions_step e c).2).
Proof.
  intros H. destruct e as [|id|result|i id|i id|]; simpl; rewrite ?app_nil_r.
  - unfold GetFuture. destruct (aggregate_result c) eqn:Ha; [done|]. simpl.
    pose proof (wf_unresolved _ _ H Ha) as ->. destruct H. rewrite Ha in *. split; simpl; try done.
    + apply NoDup_app. split_and!; [done| |apply NoDup_singleton].
      intros id Hid ->%list_elem_of_singleton. apply wf_ids0 in Hid. lia.
    + intros id [Hid| ->%list_elem_of_singleton]%elem_of_app; [apply wf_ids0 in Hid; lia|lia].
    + by intros ? ? ?%not_elem_of_nil.
  - destruct H. split; simpl; try done; [by apply NoDup_filter| |by intros Ha; rewrite wf_drained0].
    intros i [_ Hi]%list_elem_of_filter. auto.
  - apply wf_with_conditions; [done|by rewrite length_fmap|]. apply Forall_fmap.
    eapply Forall_impl; [apply (wf_conds _ _ H)|]. intros x Hx. by apply (cond_ops_ok x 0 result).
  - apply poll_wf, wf_with_conditions; [done|by rewrite length_alter|].
    apply Forall_alter; [apply (wf_conds _ _ H)|]. intros x _ Hx. by apply (cond_ops_ok x id (plain_result ResShutdown)).
  - apply poll_wf, wf_with_conditions; [done|by rewrite length_alter|].
    apply Forall_alter; [apply (wf_conds _ _ H)|]. intros x _ Hx. by apply (cond_ops_ok x id (plain_result ResShutdown)).
  - by apply cs_Close_wf.
Qed.

Lemma run_conditions_wf events c r :
  WfConditions c r → WfConditions (run_conditions events c).1 (r ++ (run_conditions events c).2).
Proof.
  revert c r. induction events as [|e events IH]; intros c r H; simpl; [by rewrite app_nil_r|].
  apply (conditions_step_wf e) in H. destruct (conditions_step e c) as [c1 r1]. apply IH in H. simpl in H.
  destruct (run_conditions events c1) as [c2 r2]. simpl in *. by rewrite app_assoc.
Qed.

Lemma new_conditions_wf l : Forall CondOk l → WfConditions (new_conditions l) [].
Proof.
  intros Hl. assert (WfConditions (mkConditions l false 0 [] None) []) as H.
  { split_wf. }
  pose proof (poll_wf _ _ H) as Hp. unfold new_conditions.
  assert ((poll_aggregate (mkConditions l false 0 [] None)).2 = []) as E; [|by rewrite E in Hp].
  unfold poll_aggregate. simpl. by destruct (omap tc_promise l).
Qed.

(** ** Properties *)

(** The futures handed out by [GetFuture] agree: whatever the order of calls, timer
    completions, cancellations and [Close], each promise is resolved at most once, all
    resolved promises carry the same type (the aggregate result), once there is an
    aggregate result nothing is left pending, and [Close] leaves an aggregate result. *)
Theorem conditions_futures (l : list TimedCondition) (events : list ConditionsEvent) (Hl : Forall CondOk l) :
  let '(c, r) := run_conditions events (new_conditions l) in
  NoDup r.*1 ∧
  (∀ id t, (id, t) ∈ r → aggregate_result c = Some t) ∧
  (is_Some (aggregate_result c) → cs_pending c = []) ∧
  is_Some (aggregate_result (cs_Close c).1).
Proof.
  pose proof (run_conditions_wf events _ _ (new_conditions_wf l Hl)) as H.
  destruct (run_conditions events (new_conditions l)) as [c r]. simpl in H.
  split_and!; [apply (wf_once _ _ H)|by intros id t Hid; apply (wf_resolved _ _ H) in Hid as []|apply (wf_drained _ _ H)|].
  unfold cs_Close. by destruct (close_all _ _ _).
Qed.

Lemma conditions_futures_witness :
  let '(c, r) := run_conditions
    [EvGetFuture; EvInform (plain_result (ResInterrupted (mkErrorInfo StatusErrorKind.kNetworkError 0 EmptyString 0)));
     EvGetFuture; EvCancelFuture 0; EvTimerExpired 0 0; EvClose]
    (new_conditions [FallbackCondition; RecoveryCondition]) in
  r = [(1%nat, ConditionType.kFallback)] ∧ NoDup r.*1.
Proof.
  split; [reflexivity|].
  apply (conditions_futures [FallbackCondition; RecoveryCondition]
    [EvGetFuture; EvInform (plain_result (ResInterrupted (mkErrorInfo StatusErrorKind.kNetworkError 0 EmptyString 0)));
     EvGetFuture; EvCancelFuture 0; EvTimerExpired 0 0; EvClose]).
  repeat constructor; by intros ?.
Defined.

(** The fallback timer runs exactly while the synchronizer is interrupted: after any
    results a fallback condition that is not closed has its timer armed if and only if the
    last change set or interruption was an interruption. *)
Theorem fallback_timer_spec (results : list FDv2SourceResult) :
  let c := foldl (λ c r, Inform r c) FallbackCondition results in
  GetType c = ConditionType.kFallback ∧ tc_closed c = false ∧ tc_promise c = None ∧
  (is_Some (timer_cancel c) ↔ interrupted_last results = true).
Proof.
  induction results as [|r results IH] using rev_ind; intros c.
  { split_and!; try done. split; [by intros []|done]. }
  subst c. rewrite foldl_snoc, interrupted_last_snoc.
  set (c := foldl _ FallbackCondition results) in *. destruct IH as (Ht & Hc & Hp & Hi).
  unfold Inform. rewrite Ht. destruct (sr_value r); try by split_and!.
  - simpl. by split_and!.
  - unfold ArmTimer. rewrite Hc. simpl. case_bool_decide as E; simpl; [tauto|]. split_and!; try done.
Qed.
