(* ===== verification/Fdv2System.v ===== *)
(** * The FDv2 data system

    libs/server-sdk/src/data_systems/fdv2/fdv2_data_system.hpp and fdv2_data_system.cpp: the
    orchestration that runs the initializers in order, then keeps a synchronizer running,
    falling back, recovering and switching to FDv1 and back.

    The executor's queue, the futures that are waited for and the timers are part of the
    state; each handler is a function on it, and [step] lets the environment choose what
    happens next: which queued handler runs, what a source returns, which timer completes.
    Handlers are atomic with respect to one another: the client runs the executor on one
    thread.  [Close], which another thread may call, is a step between handlers: that it
    can also come between two critical sections of one handler is not modelled.

    A source is the number of the instance built.  Closing or destroying one resolves the
    future it is waited for with a shutdown at once, as each synchronizer and initializer of
    the SDK does. *)

From S2P Require Import Prelude DataModel Stores Dependencies Notifier StatusManager SourceManagers SourceResults Conditions.

(** ** State *)

(** [WhenAny(cond_future, next_future)] and its continuation. *)
Record Wait := mkWait { w_synchronizer : nat; w_conditions : nat; w_future : nat }.

(** What is posted on the executor. *)
Inductive Task :=
| TRunNextInitializer
| TInitializerResult (result : FDv2SourceResult)
| TConditionFired (conditions : nat) (future : option nat) (type : ConditionType.t)
| TSynchronizerResult (conditions : nat) (future : option nat) (result : FDv2SourceResult)
| TRetryTimer.

(** The members, then the environment: the initializer run and the synchronizer results
    waited for, the queue, the retry timers whose wait has not completed, the source that
    can cancel the last of them, and the number of the next instance. *)
Record System := mkSystem {
  closed_ : bool;
  selector_ : Selector;
  initializer_index_ : nat;
  source_manager_ : SourceManager;
  active_initializer_ : option nat;
  active_synchronizer_ : option nat;
  active_conditions_ : option (nat * Conditions);
  last_logged_interrupted_ : bool;
  notifier_ : ChangeNotifier MemoryStore;
  status_ : StatusManager ServerState.t;
  init_wait : option nat;
  waits : list Wait;
  tasks : list Task;
  retry_timers : list nat;
  retry_source : option nat;
  next_instance : nat;
}.

Definition set_closed (x : bool) (s : System) : System :=
  mkSystem x (selector_ s) (initializer_index_ s) (source_manager_ s) (active_initializer_ s) (active_synchronizer_ s) (active_conditions_ s) (last_logged_interrupted_ s) (notifier_ s) (status_ s) (init_wait s) (waits s) (tasks s) (retry_timers s) (retry_source s) (next_instance s).
Definition set_selector (x : Selector) (s : System) : System :=
  mkSystem (closed_ s) x (initializer_index_ s) (source_manager_ s) (active_initializer_ s) (active_synchronizer_ s) (active_conditions_ s) (last_logged_interrupted_ s) (notifier_ s) (status_ s) (init_wait s) (waits s) (tasks s) (retry_timers s) (retry_source s) (next_instance s).
Definition set_initializer_index (x : nat) (s : System) : System :=
  mkSystem (closed_ s) (selector_ s) x (source_manager_ s) (active_initializer_ s) (active_synchronizer_ s) (active_conditions_ s) (last_logged_interrupted_ s) (notifier_ s) (status_ s) (init_wait s) (waits s) (tasks s) (retry_timers s) (retry_source s) (next_instance s).
Definition set_source_manager (x : SourceManager) (s : System) : System :=
  mkSystem (closed_ s) (selector_ s) (initializer_index_ s) x (active_initializer_ s) (active_synchronizer_ s) (active_conditions_ s) (last_logged_interrupted_ s) (notifier_ s) (status_ s) (init_wait s) (waits s) (tasks s) (retry_timers s) (retry_source s) (next_instance s).
Definition set_active_initializer (x : option nat) (s : System) : System :=
  mkSystem (closed_ s) (selector_ s) (initializer_index_ s) (source_manager_ s) x (active_synchronizer_ s) (active_conditions_ s) (last_logged_interrupted_ s) (notifier_ s) (status_ s) (init_wait s) (waits s) (tasks s) (retry_timers s) (retry_source s) (next_instance s).
Definition set_active_synchronizer (x : option nat) (s : System) : System :=
  mkSystem (closed_ s) (selector_ s) (initializer_index_ s) (source_manager_ s) (active_initializer_ s) x (active_conditions_ s) (last_logged_interrupted_ s) (notifier_ s) (status_ s) (init_wait s) (waits s) (tasks s) (retry_timers s) (retry_source s) (next_instance s).
Definition set_active_conditions (x : option (nat * Conditions)) (s : System) : System :=
  mkSystem (closed_ s) (selector_ s) (initializer_index_ s) (source_manager_ s) (active_initializer_ s) (active_synchronizer_ s) x (last_logged_interrupted_ s) (notifier_ s) (status_ s) (init_wait s) (waits s) (tasks s) (retry_timers s) (retry_source s) (next_instance s).
Definition set_last_logged_interrupted (x : bool) (s : System) : System :=
  mkSystem (closed_ s) (selector_ s) (initializer_index_ s) (source_manager_ s) (active_initializer_ s) (active_synchronizer_ s) (active_conditions_ s) x (notifier_ s) (status_ s) (init_wait s) (waits s) (tasks s) (retry_timers s) (retry_source s) (next_instance s).
Definition set_notifier (x : ChangeNotifier MemoryStore) (s : System) : System :=
  mkSystem (closed_ s) (selector_ s) (initializer_index_ s) (source_manager_ s) (active_initializer_ s) (active_synchronizer_ s) (active_conditions_ s) (last_logged_interrupted_ s) x (status_ s) (init_wait s) (waits s) (tasks s) (retry_timers s) (retry_source s) (next_instance s).
Definition set_status (x : StatusManager ServerState.t) (s : System) : System :=
  mkSystem (closed_ s) (selector_ s) (initializer_index_ s) (source_manager_ s) (active_initializer_ s) (active_synchronizer_ s) (active_conditions_ s) (last_logged_interrupted_ s) (notifier_ s) x (init_wait s) (waits s) (tasks s) (retry_timers s) (retry_source s) (next_instance s).
Definition set_init_wait (x : option nat) (s : System) : System :=
  mkSystem (closed_ s) (selector_ s) (initializer_index_ s) (source_manager_ s) (active_initializer_ s) (active_synchronizer_ s) (active_conditions_ s) (last_logged_interrupted_ s) (notifier_ s) (status_ s) x (waits s) (tasks s) (retry_timers s) (retry_source s) (next_instance s).
Definition set_waits (x : list Wait) (s : System) : System :=
  mkSystem (closed_ s) (selector_ s) (initializer_index_ s) (source_manager_ s) (active_initializer_ s) (active_synchronizer_ s) (active_conditions_ s) (last_logged_interrupted_ s) (notifier_ s) (status_ s) (init_wait s) x (tasks s) (retry_timers s) (retry_source s) (next_instance s).
Definition set_tasks (x : list Task) (s : System) : System :=
  mkSystem (closed_ s) (selector_ s) (initializer_index_ s) (source_manager_ s) (active_initializer_ s) (active_synchronizer_ s) (active_conditions_ s) (last_logged_interrupted_ s) (notifier_ s) (status_ s) (init_wait s) (waits s) x (retry_timers s) (retry_source s) (next_instance s).
Definition set_retry_timers (x : list nat) (s : System) : System :=
  mkSystem (closed_ s) (selector_ s) (initializer_index_ s) (source_manager_ s) (active_initializer_ s) (active_synchronizer_ s) (active_conditions_ s) (last_logged_interrupted_ s) (notifier_ s) (status_ s) (init_wait s) (waits s) (tasks s) x (retry_source s) (next_instance s).
Definition set_retry_source (x : option nat) (s : System) : System :=
  mkSystem (closed_ s) (selector_ s) (initializer_index_ s) (source_manager_ s) (active_initializer_ s) (active_synchronizer_ s) (active_conditions_ s) (last_logged_interrupted_ s) (notifier_ s) (status_ s) (init_wait s) (waits s) (tasks s) (retry_timers s) x (next_instance s).
Definition set_next_instance (x : nat) (s : System) : System :=
  mkSystem (closed_ s) (selector_ s) (initializer_index_ s) (source_manager_ s) (active_initializer_ s) (active_synchronizer_ s) (active_conditions_ s) (last_logged_interrupted_ s) (notifier_ s) (status_ s) (init_wait s) (waits s) (tasks s) (retry_timers s) (retry_source s) x.

Definition kExhaustedMessage : string := "all data source acquisition methods have been exhausted".
Definition kNoSynchronizersMessage : string := "all initializers exhausted and no synchronizers configured".
Definition kNoFallbackMessage : string := "FDv1 fallback directive received; no FDv1 fallback configured".

(** What the constructor is given: how many initializers there are, which synchronizer
    factories are FDv1 fallbacks, and which condition factories are not null. *)
Record SystemConfig := mkSystemConfig {
  initializer_count : nat;
  synchronizer_factories : list bool;
  fallback_condition_factory : bool;
  recovery_condition_factory : bool;
}.

Section DataSystem.
Context {HO : HashOrder} (cfg : SystemConfig).

Definition new_system (now : Z) : System :=
  mkSystem false None 0 (new_source_manager (synchronizer_factories cfg)) None None None false
    (mkNotifier empty_memory_store empty_tracker 0 []) (new_status_manager now)
    None [] [] [] None 0.

Definition post (t : Task) (s : System) : System := set_tasks (tasks s ++ [t]) s.

Definition set_state (state : ServerState.t) (now : Z) (s : System) : System :=
  set_status (SetState state now (status_ s)) s.
Definition set_state_error (state : ServerState.t) (kind : StatusErrorKind.t) (message : string) (now : Z)
    (s : System) : System :=
  set_status (SetStateKind state kind message now (status_ s)) s.

(** Synchronizer [id] closes: what it is waited for resolves with a shutdown. *)
Definition shut_down (id : nat) (s : System) : System :=
  set_tasks (tasks s ++ ((λ w, TSynchronizerResult (w_conditions w) (Some (w_future w)) (plain_result ResShutdown)) <$>
                           filter (λ w, w_synchronizer w = id) (waits s)))
    (set_waits (filter (λ w, w_synchronizer w ≠ id) (waits s)) s).

(** Promises of the conditions [id] resolve. *)
Definition resolved_with (id : nat) (resolved : Resolved) (w : Wait) : option ConditionType.t :=
  if bool_decide (w_conditions w = id)
  then snd <$> List.find (λ r, bool_decide (r.1 = w_future w)) resolved
  else None.

Definition resolve_futures (id : nat) (resolved : Resolved) (s : System) : System :=
  set_tasks (tasks s ++ omap (λ w, TConditionFired id None <$> resolved_with id resolved w) (waits s))
    (set_waits (filter (λ w, resolved_with id resolved w = None) (waits s)) s).

(** [active_synchronizer_->Close()] *)
Definition close_synchronizer (s : System) : System :=
  match active_synchronizer_ s with
  | Some id => shut_down id s
  | None => s
  end.

(** [active_synchronizer_.reset()]; the destructor closes. *)
Definition reset_synchronizer (s : System) : System := set_active_synchronizer None (close_synchronizer s).

(** [active_conditions_->Close()] *)
Definition close_conditions (s : System) : System :=
  match active_conditions_ s with
  | Some (id, c) =>
      let '(c, resolved) := cs_Close c in
      resolve_futures id resolved (set_active_conditions (Some (id, c)) s)
  | None => s
  end.

(** [active_conditions_.reset()] *)
Definition reset_conditions (s : System) : System := set_active_conditions None (close_conditions s).

(** [cond_cancel->Cancel()] for a promise of the conditions [id], if they still exist. *)
Definition cancel_condition (id : nat) (future : option nat) (s : System) : System :=
  match active_conditions_ s, future with
  | Some (id', c), Some future =>
      if bool_decide (id' = id) then set_active_conditions (Some (id', cancel_future future c)) s else s
  | _, _ => s
  end.

(** [BuildActiveConditions] *)
Definition BuildActiveConditions (m : SourceManager) : Conditions :=
  if (AvailableSynchronizerCount m =? 1)%nat then new_conditions []
  else new_conditions
         ((if fallback_condition_factory cfg then [FallbackCondition] else []) ++
          (if negb (IsPrimeSynchronizer m) && recovery_condition_factory cfg then [RecoveryCondition] else [])).

(** [ApplyChangeSet] *)
Definition ApplyChangeSet (change_set : ChangeSet ChangeSetData) (now : Z) (s : System) : System :=
  let s := match cs_selector change_set with
           | Some _ => set_selector (cs_selector change_set) s
           | None => s
           end in
  let s := set_notifier (Notifier.Apply change_set (notifier_ s)) s in
  set_state ServerState.kValid now s.

(** [ScheduleFDv2RetryLocked] *)
Definition ScheduleFDv2RetryLocked (ttl : Z) (s : System) : System :=
  if ttl =? 0 then s
  else
    let id := next_instance s in
    set_next_instance (S id) (set_retry_source (Some id) (set_retry_timers (retry_timers s ++ [id]) s)).

(** [RunSynchronizerNext]; the conditions' future is attached first. *)
Definition RunSynchronizerNext (s : System) : System :=
  if closed_ s then s
  else
    match active_synchronizer_ s, active_conditions_ s with
    | Some id, Some (cid, c) =>
        match GetFuture c with
        | (_, inl type) => post (TConditionFired cid None type) s
        | (c, inr future) => set_waits (waits s ++ [mkWait id cid future]) (set_active_conditions (Some (cid, c)) s)
        end
    | _, _ => s
    end.

(** [StartSynchronizers] *)
Definition StartSynchronizers (now : Z) (s : System) : System :=
  if closed_ s then s
  else
    let s := reset_synchronizer s in
    match NextSynchronizer (source_manager_ s) with
    | (m, Some _) =>
        let id := next_instance s in
        let s := set_last_logged_interrupted false (set_active_synchronizer (Some id) (set_source_manager m s)) in
        let s := reset_conditions s in
        RunSynchronizerNext
          (set_next_instance (S (S id)) (set_active_conditions (Some (S id, BuildActiveConditions m)) s))
    | (m, None) =>
        let s := set_source_manager m s in
        let any_synchronizers_configured := negb (SynchronizerCount m =? 0)%nat in
        if any_synchronizers_configured || negb (Memory.Initialized (nt_store (notifier_ s))) then
          set_state_error ServerState.kOff StatusErrorKind.kUnknown
            (if any_synchronizers_configured then kExhaustedMessage else kNoSynchronizersMessage) now s
        else s
    end.

(** [RunNextInitializer] *)
Definition RunNextInitializer (now : Z) (s : System) : System :=
  if closed_ s then s
  else if (initializer_count cfg <=? initializer_index_ s)%nat then StartSynchronizers now s
  else
    let id := next_instance s in
    set_next_instance (S id) (set_init_wait (Some id) (set_active_initializer (Some id)
      (set_initializer_index (S (initializer_index_ s)) s))).

(** [Initialize] *)
Definition Initialize (now : Z) (s : System) : System :=
  if (initializer_count cfg =? 0)%nat && (SynchronizerCount (source_manager_ s) =? 0)%nat
  then set_state ServerState.kValid now s
  else post TRunNextInitializer s.

(** The FDv1 directive of a result: whether a fallback is available. *)
Definition engage_fallback (d : FDv1FallbackDirective) (s : System) : System * bool :=
  let s := set_source_manager (SwitchToFDv1Fallback (source_manager_ s)) s in
  (ScheduleFDv2RetryLocked (ttl d) s, negb (AvailableSynchronizerCount (source_manager_ s) =? 0)%nat).

Definition report_disconnected (now : Z) (s : System) : System :=
  set_state_error ServerState.kInterrupted StatusErrorKind.kUnknown kNoFallbackMessage now s.

Definition is_shutdown (result : FDv2SourceResult) : bool :=
  match sr_value result with ResShutdown => true | _ => false end.

(** [OnInitializerResult] *)
Definition OnInitializerResult (result : FDv2SourceResult) (now : Z) (s : System) : System :=
  let '(s, got_basis) :=
    match sr_value result with
    | ResChangeSet cs => (ApplyChangeSet cs now s, bool_decide (is_Some (cs_selector cs)))
    | ResInterrupted e | ResTerminalError e =>
        (set_state_error ServerState.kInterrupted (error_kind_ e) (error_message_ e) now s, false)
    | ResShutdown | ResGoodbye _ => (s, false)
    end in
  let s := set_active_initializer None s in
  if closed_ s || is_shutdown result then s
  else
    match fdv1_fallback result with
    | Some d =>
        let '(s, available) := engage_fallback d s in
        if available then StartSynchronizers now s else report_disconnected now s
    | None => if got_basis then StartSynchronizers now s else RunNextInitializer now s
    end.

(** [OnConditionFired] *)
Definition OnConditionFired (type : ConditionType.t) (now : Z) (s : System) : System :=
  if bool_decide (type = ConditionType.kCancelled) then s
  else if closed_ s then s
  else
    let s := reset_conditions (reset_synchronizer s) in
    let s := if bool_decide (type = ConditionType.kRecovery)
             then set_source_manager (ResetSourceIndex (source_manager_ s)) s else s in
    StartSynchronizers now s.

Definition inform_conditions (result : FDv2SourceResult) (s : System) : System :=
  match active_conditions_ s with
  | Some (id, c) => set_active_conditions (Some (id, cs_Inform result c)) s
  | None => s
  end.

(** [OnSynchronizerResult] *)
Definition OnSynchronizerResult (result : FDv2SourceResult) (now : Z) (s : System) : System :=
  if closed_ s then s
  else
    let s := inform_conditions result s in
    let '(s, advance) :=
      match sr_value result with
      | ResChangeSet cs => (ApplyChangeSet cs now (set_last_logged_interrupted false s), false)
      | ResInterrupted e =>
          (set_state_error ServerState.kInterrupted (error_kind_ e) (error_message_ e) now
             (set_last_logged_interrupted true s), false)
      | ResTerminalError e =>
          (set_state_error ServerState.kInterrupted (error_kind_ e) (error_message_ e) now s, true)
      | ResShutdown | ResGoodbye _ => (s, false)
      end in
    if is_shutdown result then reset_conditions (reset_synchronizer s)
    else
      match fdv1_fallback result with
      | Some d =>
          if IsCurrentSynchronizerFDv1Fallback (source_manager_ s) then
            if advance then
              StartSynchronizers now
                (reset_conditions (reset_synchronizer
                   (set_source_manager (BlockCurrentSynchronizer (source_manager_ s)) s)))
            else RunSynchronizerNext s
          else
            let '(s, available) := engage_fallback d s in
            let s := reset_conditions (reset_synchronizer s) in
            if available then StartSynchronizers now s else report_disconnected now s
      | None =>
          if advance then
            StartSynchronizers now
              (reset_conditions (reset_synchronizer
                 (set_source_manager (BlockCurrentSynchronizer (source_manager_ s)) s)))
          else RunSynchronizerNext s
      end.

(** [OnFDv1RetryTimer] *)
Definition OnFDv1RetryTimer (now : Z) (s : System) : System :=
  if closed_ s then s
  else
    let s := set_source_manager (SwitchBackToFDv2 (source_manager_ s)) s in
    StartSynchronizers now (reset_conditions (reset_synchronizer s)).

(** [Close] *)
Definition Close (s : System) : System :=
  let s := set_retry_source None (set_closed true s) in
  let s := match active_initializer_ s, init_wait s with
           | Some _, Some _ => post (TInitializerResult (plain_result ResShutdown)) (set_init_wait None s)
           | _, _ => s
           end in
  close_conditions (close_synchronizer s).

(** ** Steps *)

Definition run_task (t : Task) (now : Z) (s : System) : System :=
  match t with
  | TRunNextInitializer => RunNextInitializer now s
  | TInitializerResult result => OnInitializerResult result now s
  | TConditionFired cid future type => OnConditionFired type now (cancel_condition cid future s)
  | TSynchronizerResult cid future result => OnSynchronizerResult result now (cancel_condition cid future s)
  | TRetryTimer => OnFDv1RetryTimer now s
  end.

Inductive Event :=
| ERun (k : nat)
| EInitializerResult (result : FDv2SourceResult)
| ESynchronizerResult (k : nat) (result : FDv2SourceResult)
| EConditionTimer (i id : nat)
| EConditionAborted (i id : nat)
| ERetryTimer (id : nat)
| ERetryAborted (id : nat)
| EClose.

(** The timers of the active conditions. *)
Definition condition_at (i : nat) (s : System) : option TimedCondition :=
  match active_conditions_ s with Some (_, c) => conditions_ c !! i | None => None end.

Definition condition_timer (f : nat → TimedCondition → TimedCondition) (i id : nat) (s : System) : System :=
  match active_conditions_ s with
  | Some (cid, c) =>
      let '(c, resolved) := cs_timer f i id c in
      resolve_futures cid resolved (set_active_conditions (Some (cid, c)) s)
  | None => s
  end.

(** One step; [None] when the event cannot happen. *)
Definition step (e : Event) (now : Z) (s : System) : option System :=
  match e with
  | ERun k =>
      match tasks s !! k with
      | Some t => Some (run_task t now (set_tasks (delete k (tasks s)) s))
      | None => None
      end
  | EInitializerResult result =>
      match init_wait s with
      | Some _ => Some (post (TInitializerResult result) (set_init_wait None s))
      | None => None
      end
  | ESynchronizerResult k result =>
      match waits s !! k with
      | Some w => Some (post (TSynchronizerResult (w_conditions w) (Some (w_future w)) result)
                          (set_waits (delete k (waits s)) s))
      | None => None
      end
  | EConditionTimer i id =>
      match condition_at i s with
      | Some c => if bool_decide (id ∈ outstanding c) then Some (condition_timer timer_expired i id s) else None
      | None => None
      end
  | EConditionAborted i id =>
      match condition_at i s with
      | Some c =>
          if bool_decide (id ∈ outstanding c ∧ timer_cancel c ≠ Some id)
          then Some (condition_timer timer_aborted i id s) else None
      | None => None
      end
  | ERetryTimer id =>
      if bool_decide (id ∈ retry_timers s)
      then Some (post TRetryTimer (set_retry_timers (filter (λ i, i ≠ id) (retry_timers s)) s)) else None
  | ERetryAborted id =>
      if bool_decide (id ∈ retry_timers s ∧ retry_source s ≠ Some id)
      then Some (set_retry_timers (filter (λ i, i ≠ id) (retry_timers s)) s) else None
  | EClose => Some (Close s)
  end.

Fixpoint run (events : list (Event * Z)) (s : System) : option System :=
  match events with
  | [] => Some s
  | (e, now) :: events => match step e now s with Some s => run events s | None => None end
  end.

Definition started (now : Z) : System := Initialize now (new_system now).
End DataSystem.

(** ** The retry timer and a result in flight *)

Definition retry_config : SystemConfig := mkSystemConfig 0 [false; true] false false.
Definition net_error : ErrorInfo := mkErrorInfo StatusErrorKind.kNetworkError 0 "x" 0.
Definition directive_result : FDv2SourceResult := mkSourceResult (ResInterrupted net_error) (Some (mkDirective 60)).
Definition empty_full : FDv2SourceResult := plain_result (ResChangeSet (mkChangeSet ChangeSetType.kFull [] None)).

(** ** Specification *)

(** The contents and the selector that a sequence of change sets leaves. *)
Definition contents (l : list (ChangeSet ChangeSetData)) : MemoryStore :=
  foldl (λ st cs, Memory.Apply cs st) empty_memory_store l.

Definition last_selector (l : list (ChangeSet ChangeSetData)) : Selector :=
  foldl (λ sel cs, match cs_selector cs with Some x => Some x | None => sel end) None l.

(** The change set of a result, and those in the results that are queued for a handler. *)
Definition change_sets (r : FDv2SourceResult) : list (ChangeSet ChangeSetData) :=
  match sr_value r with ResChangeSet cs => [cs] | _ => [] end.

Definition task_change_sets (t : Task) : list (ChangeSet ChangeSetData) :=
  match t with TInitializerResult r | TSynchronizerResult _ _ r => change_sets r | _ => [] end.

Definition queued (s : System) : list (ChangeSet ChangeSetData) := tasks s ≫= task_change_sets.

(** What a source returns in a step. *)
Definition returned (e : Event) : list (ChangeSet ChangeSetData) :=
  match e with EInitializerResult r | ESynchronizerResult _ r => change_sets r | _ => [] end.

Definition is_close (e : Event) : bool := match e with EClose => true | _ => false end.

(** Whether the change set of a result is to be taken: that of an initializer always, that of
    a synchronizer until the system is closed. *)
Definition taken_task (closed : bool) (t : Task) : bool :=
  match t with TSynchronizerResult _ _ _ => negb closed | _ => true end.

(** The change sets whose handler a step runs, and whether they are to be taken. *)
Definition handling (e : Event) (s : System) : list (ChangeSet ChangeSetData * bool) :=
  match e with
  | ERun k =>
      match tasks s !! k with
      | Some t => (λ cs, (cs, taken_task (closed_ s) t)) <$> task_change_sets t
      | None => []
      end
  | _ => []
  end.

Fixpoint handled `{HashOrder} (cfg : SystemConfig) (events : list (Event * Z)) (s : System) : list (ChangeSet ChangeSetData * bool) :=
  match events with
  | [] => []
  | (e, now) :: events =>
      handling e s ++ match step cfg e now s with Some s => handled cfg events s | None => [] end
  end.

(** Those that are taken. *)
Definition taken (h : list (ChangeSet ChangeSetData * bool)) : list (ChangeSet ChangeSetData) :=
  (filter (λ x, x.2 = true) h).*1.

(** A queued handler that continues the work of the synchronizer. *)
Definition live_task (t : Task) : bool :=
  match t with
  | TSynchronizerResult _ _ _ => true
  | TConditionFired _ _ type => negb (bool_decide (type = ConditionType.kCancelled))
  | _ => false
  end.

Definition initializer_task (t : Task) : bool := match t with TInitializerResult _ => true | _ => false end.

(** Whatever source is active, something will continue with it. *)
Definition Attended (s : System) : Prop :=
  closed_ s = true ∨
  (active_synchronizer_ s = None ∨ waits s ≠ [] ∨ Exists (λ t, live_task t = true) (tasks s)) ∧
  (active_initializer_ s = None ∨ init_wait s ≠ None ∨ Exists (λ t, initializer_task t = true) (tasks s)).

(** The continuations of the orchestration: what is waited for and what is queued. *)
Definition pending_count (s : System) : nat :=
  length (waits s) + (if init_wait s then 1 else 0) + length (tasks s).

(** ** Lemmas: data *)

(** The system is closed or not, its store and its selector are those of the change sets [l],
    and the change sets [q] are queued. *)
Definition DataOk (c : bool) (l q : list (ChangeSet ChangeSetData)) (s : System) : Prop :=
  closed_ s = c ∧ nt_store (notifier_ s) = contents l ∧ selector_ s = last_selector l ∧ queued s = q.

Definition data (s : System) := (closed_ s, selector_ s, notifier_ s, queued s).

Lemma data_ok_eq c l q s s' : data s' = data s → DataOk c l q s → DataOk c l q s'.
Proof. unfold data, DataOk. intros [= -> -> -> ->]. done. Qed.

(** What does not touch the data. *)
Lemma data_set_initializer_index x s : data (set_initializer_index x s) = data s.
Proof. done. Qed.
Lemma data_set_source_manager x s : data (set_source_manager x s) = data s.
Proof. done. Qed.
Lemma data_set_active_initializer x s : data (set_active_initializer x s) = data s.
Proof. done. Qed.
Lemma data_set_active_synchronizer x s : data (set_active_synchronizer x s) = data s.
Proof. done. Qed.
Lemma data_set_active_conditions x s : data (set_active_conditions x s) = data s.
Proof. done. Qed.
Lemma data_set_last_logged_interrupted x s : data (set_last_logged_interrupted x s) = data s.
Proof. done. Qed.
Lemma data_set_status x s : data (set_status x s) = data s.
Proof. done. Qed.
Lemma data_set_init_wait x s : data (set_init_wait x s) = data s.
Proof. done. Qed.
Lemma data_set_waits x s : data (set_waits x s) = data s.
Proof. done. Qed.
Lemma data_set_retry_timers x s : data (set_retry_timers x s) = data s.
Proof. done. Qed.
Lemma data_set_retry_source x s : data (set_retry_source x s) = data s.
Proof. done. Qed.
Lemma data_set_next_instance x s : data (set_next_instance x s) = data s.
Proof. done. Qed.
#[global] Hint Rewrite data_set_initializer_index data_set_source_manager data_set_active_initializer data_set_active_synchronizer data_set_active_conditions data_set_last_logged_interrupted data_set_status data_set_init_wait data_set_waits data_set_retry_timers data_set_retry_source data_set_next_instance : sysdata.

Lemma bind_none {A B} (f : A → list B) (l : list A) : Forall (λ x, f x = []) l → l ≫= f = [].
Proof. induction 1 as [|x l Hx _ IH]; [done|]. rewrite bind_cons, Hx. done. Qed.

(** Queueing what carries no change set. *)
Lemma data_more_tasks l s : Forall (λ t, task_change_sets t = []) l → data (set_tasks (tasks s ++ l) s) = data s.
Proof. intros Hl. unfold data, queued. simpl. by rewrite bind_app, (bind_none _ l), app_nil_r. Qed.

Lemma data_post t s : task_change_sets t = [] → data (post t s) = data s.
Proof. intros Ht. apply data_more_tasks. by repeat constructor. Qed.

Lemma data_shut_down id s : data (shut_down id s) = data s.
Proof. apply (data_more_tasks _ (set_waits _ s)). apply Forall_fmap, Forall_forall. by intros w _. Qed.

Lemma data_resolve_futures id resolved s : data (resolve_futures id resolved s) = data s.
Proof.
  apply (data_more_tasks _ (set_waits _ s)). apply Forall_forall. intros t (w & _ & Ht)%list_elem_of_omap.
  by destruct (resolved_with id resolved w); simplify_eq/=.
Qed.

Lemma notifier_apply_store `{!HashOrder} cs (n : ChangeNotifier MemoryStore) :
  nt_store (Notifier.Apply cs n) = Memory.Apply cs (nt_store n).
Proof.
  unfold Notifier.Apply, Memory.Apply. destruct (cs_type cs) eqn:E; simpl; [..|];
    try done; by destruct (HasListeners n); simpl; unfold NotifyChanges; try case_bool_decide;
    simpl; unfold Memory.Apply; rewrite ?E.
Qed.

Lemma apply_data `{!HashOrder} cs now c l q s : DataOk c l q s → DataOk c (l ++ [cs]) q (ApplyChangeSet cs now s).
Proof.
  intros (H1 & H2 & H3 & H4). unfold DataOk, ApplyChangeSet, contents, last_selector.
  destruct (cs_selector cs) eqn:E; simpl; rewrite !foldl_snoc, notifier_apply_store; simpl; rewrite E, H2; done.
Qed.

Section Data.
Context {HO : HashOrder} (cfg : SystemConfig).

Lemma close_synchronizer_data s : data (close_synchronizer s) = data s.
Proof. unfold close_synchronizer. destruct (active_synchronizer_ s); [apply data_shut_down|done]. Qed.

Lemma close_conditions_data s : data (close_conditions s) = data s.
Proof.
  unfold close_conditions. destruct (active_conditions_ s) as [[id c]|]; [|done]. destruct (cs_Close c).
  by rewrite data_resolve_futures.
Qed.

Lemma reset_synchronizer_data s : data (reset_synchronizer s) = data s.
Proof. apply close_synchronizer_data. Qed.

Lemma reset_conditions_data s : data (reset_conditions s) = data s.
Proof. apply close_conditions_data. Qed.
#[local] Hint Rewrite reset_synchronizer_data reset_conditions_data : sysdata.

Lemma reset_data s : data (reset_conditions (reset_synchronizer s)) = data s.
Proof. by autorewrite with sysdata. Qed.

Lemma RunSynchronizerNext_data s : data (RunSynchronizerNext s) = data s.
Proof.
  unfold RunSynchronizerNext. destruct (closed_ s); [done|].
  destruct (active_synchronizer_ s), (active_conditions_ s) as [[cid c]|]; try done. destruct (GetFuture c) as [? []]; [|done].
  by apply data_post.
Qed.

Lemma StartSynchronizers_data now s : data (StartSynchronizers cfg now s) = data s.
Proof.
  unfold StartSynchronizers. destruct (closed_ s); [done|].
  destruct (NextSynchronizer _) as [m [i|]].
  - rewrite RunSynchronizerNext_data. by autorewrite with sysdata.
  - destruct (_ || _); unfold set_state_error; by autorewrite with sysdata.
Qed.

Lemma RunNextInitializer_data now s : data (RunNextInitializer cfg now s) = data s.
Proof.
  unfold RunNextInitializer. destruct (closed_ s); [done|].
  destruct (_ <=? _)%nat; [apply StartSynchronizers_data|done].
Qed.

Lemma engage_fallback_data d s : data (engage_fallback d s).1 = data s.
Proof. unfold engage_fallback, ScheduleFDv2RetryLocked. simpl. by destruct (_ =? 0). Qed.

Lemma OnInitializerResult_data result now c l q s :
  DataOk c l q s → DataOk c (l ++ change_sets result) q (OnInitializerResult cfg result now s).
Proof.
  intros H. unfold OnInitializerResult.
  match goal with |- context [let '(_, _) := ?p in _] =>
    assert (DataOk c (l ++ change_sets result) q p.1) as H1; [|destruct p as [s1 got]] end.
  { unfold change_sets. destruct (sr_value result); rewrite ?app_nil_r; try done. by apply apply_data. }
  simpl in H1. cbv zeta. destruct (_ || _); [done|]. eapply data_ok_eq; [|exact H1]. destruct (fdv1_fallback result) as [d|].
  - pose proof (engage_fallback_data d (set_active_initializer None s1)) as E.
    destruct (engage_fallback d _) as [s2 []]; [by rewrite StartSynchronizers_data|done].
  - destruct got; [by rewrite StartSynchronizers_data|by rewrite RunNextInitializer_data].
Qed.

(** Going on after a result that was not a shutdown. *)
Lemma advanced_data (adv : bool) now s :
  data (if adv then StartSynchronizers cfg now
          (reset_conditions (reset_synchronizer (set_source_manager (BlockCurrentSynchronizer (source_manager_ s)) s)))
        else RunSynchronizerNext s) = data s.
Proof. destruct adv; [by rewrite StartSynchronizers_data, reset_data|apply RunSynchronizerNext_data]. Qed.

Lemma OnSynchronizerResult_data result now c l q s :
  DataOk c l q s → DataOk c (l ++ if c then [] else change_sets result) q (OnSynchronizerResult cfg result now s).
Proof.
  intros H. unfold OnSynchronizerResult. destruct H as [<- H]. destruct (closed_ s) eqn:Hc; [by rewrite app_nil_r|]. cbv zeta.
  assert (DataOk false l q (inform_conditions result s)) as Hi.
  { eapply data_ok_eq; [|exact (conj Hc H)]. unfold inform_conditions. by destruct (active_conditions_ s) as [[]|]. }
  revert Hi. generalize (inform_conditions result s). clear s H Hc. intros s H.
  match goal with |- context [let '(_, _) := ?p in _] =>
    assert (DataOk false (l ++ change_sets result) q p.1) as H1; [|destruct p as [s1 adv]] end.
  { unfold change_sets. destruct (sr_value result); rewrite ?app_nil_r; try done. by apply apply_data. }
  simpl in H1. eapply data_ok_eq; [|exact H1]. destruct (is_shutdown result); [apply reset_data|].
  destruct (fdv1_fallback result) as [d|]; [|apply advanced_data].
  destruct (IsCurrentSynchronizerFDv1Fallback _); [apply advanced_data|].
  pose proof (engage_fallback_data d s1) as E. destruct (engage_fallback d s1) as [s2 []]; simpl in E.
  - by rewrite StartSynchronizers_data, reset_data.
  - change (data (reset_conditions (reset_synchronizer s2)) = data s1). by rewrite reset_data.
Qed.

Lemma OnConditionFired_data type now s : data (OnConditionFired cfg type now s) = data s.
Proof.
  unfold OnConditionFired. case_bool_decide; [done|]. destruct (closed_ s); [done|]. cbv zeta.
  rewrite StartSynchronizers_data. destruct (bool_decide (type = _)); [|apply reset_data].
  change (data (reset_conditions (reset_synchronizer s)) = data s). apply reset_data.
Qed.

Lemma cancel_condition_data cid f s : data (cancel_condition cid f s) = data s.
Proof. unfold cancel_condition. destruct (active_conditions_ s) as [[]|], f; try done. by case_bool_decide. Qed.

Lemma run_task_data t now c l q s :
  DataOk c l q s → DataOk c (l ++ if taken_task c t then task_change_sets t else []) q (run_task cfg t now s).
Proof.
  intros H. destruct t as [|result|cid f type|cid f result|]; cbn [run_task taken_task task_change_sets]; rewrite ?app_nil_r.
  - eapply data_ok_eq; [apply RunNextInitializer_data|done].
  - by apply OnInitializerResult_data.
  - eapply data_ok_eq; [|exact H]. by rewrite OnConditionFired_data, cancel_condition_data.
  - replace (if negb c then change_sets result else []) with (if c then [] else change_sets result) by (by destruct c).
    apply OnSynchronizerResult_data. by eapply data_ok_eq; [apply cancel_condition_data|].
  - eapply data_ok_eq; [|exact H]. unfold OnFDv1RetryTimer. destruct (closed_ s); [done|]. cbv zeta.
    by rewrite StartSynchronizers_data, reset_data.
Qed.

Lemma taken_marked (b : bool) (l : list (ChangeSet ChangeSetData)) : taken ((λ cs, (cs, b)) <$> l) = if b then l else [].
Proof.
  induction l as [|cs l IH]; [by destruct b|]. unfold taken in *. rewrite fmap_cons.
  destruct b; [rewrite filter_cons_True by done|by rewrite filter_cons_False by done]. rewrite fmap_cons, IH. done.
Qed.

(** The change sets before and after a step: those queued and those returned are those handled and those queued. *)
Lemma step_data e now s s' c l :
  step cfg e now s = Some s' → DataOk c l (queued s) s →
  DataOk (c || is_close e) (l ++ taken (handling e s)) (queued s') s' ∧
  queued s ++ returned e ≡ₚ (handling e s).*1 ++ queued s'.
Proof.
  intros Hstep H. assert (data s' = data s → handling e s = [] → returned e = [] → is_close e = false →
    DataOk (c || is_close e) (l ++ taken (handling e s)) (queued s') s' ∧
    queued s ++ returned e ≡ₚ (handling e s).*1 ++ queued s') as Hsame.
  { intros Hd Hh Hr Hcl. rewrite Hh, Hr, Hcl, orb_false_r. simpl. rewrite !app_nil_r.
    pose proof (data_ok_eq _ _ _ _ _ Hd H) as H'. pose proof H' as (_ & _ & _ & Hq). rewrite Hq. done. }
  assert (∀ t s0, data s0 = data s → s' = post t s0 → task_change_sets t = returned e → handling e s = [] →
    is_close e = false → DataOk (c || is_close e) (l ++ taken (handling e s)) (queued s') s' ∧
    queued s ++ returned e ≡ₚ (handling e s).*1 ++ queued s') as Hpost.
  { intros t s0 Hd -> Ht Hh Hcl. rewrite Hh, Hcl, orb_false_r. simpl. rewrite app_nil_r.
    pose proof (data_ok_eq _ _ _ _ _ Hd H) as (H1 & H2 & H3 & H4). split; [done|].
    rewrite <- H4, <- Ht. unfold queued. simpl. rewrite bind_app. simpl. by rewrite app_nil_r. }
  destruct e as [k|result|k result|i id|i id|id|id|]; simpl in Hstep.
  - destruct (tasks s !! k) as [t|] eqn:Hk; [|done]. injection Hstep as <-.
    assert (DataOk c l (queued (set_tasks (delete k (tasks s)) s)) (set_tasks (delete k (tasks s)) s)) as H0.
    { destruct H as (? & ? & ? & _). done. }
    apply (run_task_data t now) in H0. cbn [is_close returned handling]. rewrite Hk, orb_false_r, app_nil_r.
    pose proof H0 as (_ & _ & _ & Hq). split.
    + rewrite Hq. replace (taken _) with (if taken_task c t then task_change_sets t else []); [exact H0|].
      destruct H as (-> & _). by rewrite taken_marked.
    + rewrite Hq, <- list_fmap_compose. unfold compose. simpl. rewrite list_fmap_id.
      apply (bind_Permutation task_change_sets _ (t :: delete k (tasks s))). by apply delete_Permutation.
  - destruct (init_wait s); [|done]. injection Hstep as <-. by eapply (Hpost _ (set_init_wait None s)).
  - destruct (waits s !! k) as [w|]; [|done]. injection Hstep as <-. by eapply (Hpost _ (set_waits _ s)).
  - destruct (condition_at i s); [|done]. case_bool_decide; [|done]. injection Hstep as <-. apply Hsame; try done.
    unfold condition_timer. destruct (active_conditions_ s) as [[]|]; [|done]. destruct (cs_timer _ _ _ _). by rewrite data_resolve_futures.
  - destruct (condition_at i s); [|done]. case_bool_decide; [|done]. injection Hstep as <-. apply Hsame; try done.
    unfold condition_timer. destruct (active_conditions_ s) as [[]|]; [|done]. destruct (cs_timer _ _ _ _). by rewrite data_resolve_futures.
  - case_bool_decide; [|done]. injection Hstep as <-. by eapply (Hpost _ (set_retry_timers _ s)).
  - case_bool_decide; [|done]. injection Hstep as <-. by apply Hsame.
  - injection Hstep as <-. cbn [is_close returned handling]. rewrite orb_true_r, !app_nil_r. simpl. unfold Close.
    set (s1 := match active_initializer_ _ with Some _ => _ | None => _ end).
    assert (data s1 = data (set_closed true s)) as Hd.
    { subst s1. simpl. destruct (active_initializer_ s), (init_wait s); try done. by rewrite data_post. }
    assert (DataOk true l (queued s) (close_conditions (close_synchronizer s1))) as H1.
    { apply (data_ok_eq _ _ _ (set_closed true s)); [by rewrite close_conditions_data, close_synchronizer_data|].
      destruct H as (_ & ? & ? & ?). done. }
    pose proof H1 as (_ & _ & _ & ->). done.
Qed.

Lemma handling_open e s : closed_ s = false → Forall (λ x, x.2 = true) (handling e s).
Proof.
  intros Hc. unfold handling. destruct e as [k| | | | | | |]; try constructor. destruct (tasks s !! k) as [t|]; [|constructor].
  apply Forall_fmap, Forall_forall. intros cs _. rewrite Hc. by destruct t.
Qed.

Lemma taken_app h1 h2 : taken (h1 ++ h2) = taken h1 ++ taken h2.
Proof. unfold taken. by rewrite filter_app, fmap_app. Qed.

Lemma run_data events s s' c l :
  run cfg events s = Some s' → DataOk c l (queued s) s →
  let h := handled cfg events s in
  DataOk (c || existsb (λ e, is_close e.1) events) (l ++ taken h) (queued s') s' ∧
  queued s ++ (events ≫= λ e, returned e.1) ≡ₚ h.*1 ++ queued s' ∧
  (closed_ s' = false → Forall (λ x, x.2 = true) h).
Proof.
  revert s c l. induction events as [|[e now] events IH]; intros s c l Hrun H; simpl in Hrun.
  { injection Hrun as <-. simpl. rewrite orb_false_r, !app_nil_r. split_and!; [done|done|by constructor]. }
  cbn [handled existsb fst]. destruct (step cfg e now s) as [s1|] eqn:Hs; [|done].
  destruct (step_data e now s s1 c l Hs H) as [H1 P1]. destruct (IH s1 _ _ Hrun H1) as (H2 & P2 & F2). clear IH.
  cbv zeta. rewrite taken_app, app_assoc, orb_assoc. split_and!; [done| |].
  - rewrite bind_cons, fmap_app, (assoc_L (++)), P1, <- (assoc_L (++)), P2. cbn [fst]. by rewrite (assoc_L (++)).
  - intros Hc'. apply Forall_app. split; [|by apply F2]. apply handling_open.
    destruct H2 as (Hcl & _). rewrite Hc' in Hcl. destruct H as (-> & _). by destruct c.
Qed.

Lemma started_data now : DataOk false [] (queued (started cfg now)) (started cfg now) ∧ queued (started cfg now) = [].
Proof. unfold started, Initialize. by destruct (_ && _). Qed.
End Data.

(** ** Lemmas: control *)

Lemma filter_none {A} (P : A → Prop) `{!∀ x, Decision (P x)} (l : list A) : (∀ x, x ∈ l → ¬ P x) → filter P l = [].
Proof.
  intros Hl. induction l as [|x l IH]; [done|]. rewrite filter_cons_False by (apply Hl; by left).
  apply IH. intros y Hy. apply Hl. by right.
Qed.

(** Conditions that nobody closed: no result is a cancellation. *)
Definition Unfired (x : TimedCondition) : Prop :=
  tc_closed x = false ∧ GetType x ≠ ConditionType.kCancelled ∧
  (tc_promise x = None ∨ tc_promise x = Some (GetType x)).

Definition Open (c : Conditions) : Prop :=
  Forall Unfired (conditions_ c) ∧ aggregate_result c ≠ Some ConditionType.kCancelled.

Lemma Inform_keeps result x :
  tc_closed (Inform result x) = tc_closed x ∧ GetType (Inform result x) = GetType x ∧
  tc_promise (Inform result x) = tc_promise x.
Proof. unfold Inform, ArmTimer, CancelTimer. by repeat case_match. Qed.

Lemma unfired_ops x id result :
  Unfired x → Unfired (Inform result x) ∧ Unfired (timer_expired id x) ∧ Unfired (timer_aborted id x).
Proof.
  intros H. split_and!; [|destruct H as (Hc & Ht & Hp)..]; [|split_and!; simpl; try done|done].
  - unfold Unfired. by destruct (Inform_keeps result x) as (-> & -> & ->).
  - right. by destruct Hp as [-> | ->].
Qed.

Lemma poll_open c : Open c → Open (poll_aggregate c).1.
Proof.
  intros [HF Ha]. unfold poll_aggregate. destruct (when_any c); [done|].
  destruct (omap tc_promise (conditions_ c)) as [|t l] eqn:E; [done|]. split; [done|]. simpl.
  assert (t ∈ omap tc_promise (conditions_ c)) as (x & Hx & Ht)%list_elem_of_omap by (rewrite E; by left).
  rewrite Forall_forall in HF. destruct (HF x Hx) as (_ & Hty & [Hp|Hp]); rewrite Hp in Ht; [done|].
  injection Ht as <-. by intros [= ?].
Qed.

Lemma open_ops c result i id :
  Open c →
  Open (cs_Inform result c) ∧ Open (GetFuture c).1 ∧ Open (cancel_future id c) ∧
  Open (cs_timer timer_expired i id c).1 ∧ Open (cs_timer timer_aborted i id c).1.
Proof.
  intros [HF Ha].
  assert (∀ f, (∀ x, Unfired x → Unfired (f id x)) → Open (cs_timer f i id c).1) as Htimer.
  { intros f Hf. unfold cs_timer. apply poll_open. split; [|done]. simpl. apply Forall_alter; [done|]. auto. }
  split_and!.
  - split; [|done]. simpl. apply Forall_fmap. eapply Forall_impl; [exact HF|]. intros x Hx. by apply (unfired_ops x 0 result).
  - unfold GetFuture. destruct (aggregate_result c) eqn:E; [|done]. split; simpl; [done|congruence].
  - done.
  - apply Htimer. intros x Hx. by apply (unfired_ops x id (plain_result ResShutdown)).
  - apply Htimer. intros x Hx. by apply (unfired_ops x id (plain_result ResShutdown)).
Qed.

Section Control.
Context {HO : HashOrder} (cfg : SystemConfig).

Record ControlOk (s : System) : Prop := {
  co_manager : WfManager (source_manager_ s);
  co_index : (initializer_index_ s ≤ initializer_count cfg)%nat;
  co_pair : is_Some (active_synchronizer_ s) → is_Some (active_conditions_ s);
  co_waits : ∀ w, w ∈ waits s → active_synchronizer_ s = Some (w_synchronizer w);
  co_open : closed_ s = false → ∀ id c, active_conditions_ s = Some (id, c) → Open c;
}.

Definition control (s : System) :=
  (closed_ s, initializer_index_ s, source_manager_ s, (active_synchronizer_ s, active_conditions_ s, waits s)).

Lemma control_ok_eq s s' : control s' = control s → ControlOk s → ControlOk s'.
Proof. unfold control. intros [= E1 E2 E3 E4 E5 E6] []. by split; rewrite ?E1, ?E2, ?E3, ?E4, ?E5, ?E6. Qed.

Definition quiet_result (r : FDv2SourceResult) : bool :=
  match fdv1_fallback r with Some d => ttl d =? 0 | None => true end.

(** A task that starts no retry timer and comes from none. *)
Definition quiet_task (t : Task) : bool :=
  match t with
  | TInitializerResult r | TSynchronizerResult _ _ r => quiet_result r
  | TRetryTimer => false
  | _ => true
  end.

(** What the synchronizer phase leaves alone; it only adds quiet tasks, and when [quiet] no timer. *)
Definition Extends (quiet : bool) (s s' : System) : Prop :=
  closed_ s' = closed_ s ∧ active_initializer_ s' = active_initializer_ s ∧ init_wait s' = init_wait s ∧
  initializer_index_ s' = initializer_index_ s ∧ (quiet = true → retry_timers s' = retry_timers s) ∧
  ∃ l, tasks s' = tasks s ++ l ∧ Forall (λ t, quiet_task t = true) l.

Lemma extends_same quiet s s' :
  closed_ s' = closed_ s → active_initializer_ s' = active_initializer_ s → init_wait s' = init_wait s →
  initializer_index_ s' = initializer_index_ s → retry_timers s' = retry_timers s → tasks s' = tasks s →
  Extends quiet s s'.
Proof. intros. unfold Extends. split_and!; try done. exists []. rewrite app_nil_r. by split. Qed.

Lemma handled_extends_refl quiet s : Extends quiet s s.
Proof. by apply extends_same. Qed.

Lemma extends_trans quiet s1 s2 s3 : Extends quiet s1 s2 → Extends quiet s2 s3 → Extends quiet s1 s3.
Proof.
  intros (? & ? & ? & ? & R1 & l1 & Hl1 & Q1) (? & ? & ? & ? & R2 & l2 & Hl2 & Q2).
  unfold Extends. split_and!; try congruence; [intros Hq; rewrite R2, R1 by done; done|].
  exists (l1 ++ l2). rewrite Hl2, Hl1, app_assoc. split; [done|by apply Forall_app].
Qed.

Lemma no_waits s : ControlOk s → active_synchronizer_ s = None → waits s = [].
Proof.
  intros H Ha. destruct (waits s) as [|w l] eqn:E; [done|].
  pose proof (co_waits _ H w) as Hw. rewrite E in Hw. rewrite Hw in Ha; [done|by left].
Qed.

Lemma reset_synchronizer_ok quiet s :
  ControlOk s →
  ControlOk (reset_synchronizer s) ∧ active_synchronizer_ (reset_synchronizer s) = None ∧
  waits (reset_synchronizer s) = [] ∧ Extends quiet s (reset_synchronizer s) ∧
  source_manager_ (reset_synchronizer s) = source_manager_ s ∧ next_instance (reset_synchronizer s) = next_instance s ∧
  (waits s = [] → tasks (reset_synchronizer s) = tasks s).
Proof.
  intros H. pose proof (no_waits s H) as Hn. unfold reset_synchronizer, close_synchronizer.
  destruct (active_synchronizer_ s) as [id|] eqn:Ha; [unfold shut_down|].
  - assert (filter (λ w, w_synchronizer w ≠ id) (waits s) = []) as Hf.
    { apply filter_none. intros w Hw. apply (co_waits _ H) in Hw. rewrite Ha in Hw. injection Hw as ->. tauto. }
    split_and!; simpl; try done.
    + destruct H. split; simpl; try done. rewrite Hf. by intros w ?%not_elem_of_nil.
    + unfold Extends. simpl. split_and!; try done. eexists. split; [done|]. apply Forall_fmap, Forall_forall. by intros w _.
    + intros ->. by rewrite filter_nil, app_nil_r.
  - split_and!; simpl; auto.
    + destruct H. split; simpl; try done. rewrite Hn by done. by intros w ?%not_elem_of_nil.
    + by apply extends_same.
Qed.

Lemma reset_conditions_ok quiet s :
  ControlOk s → active_synchronizer_ s = None →
  ControlOk (reset_conditions s) ∧ active_synchronizer_ (reset_conditions s) = None ∧
  waits (reset_conditions s) = [] ∧ Extends quiet s (reset_conditions s) ∧
  source_manager_ (reset_conditions s) = source_manager_ s ∧ tasks (reset_conditions s) = tasks s ∧
  next_instance (reset_conditions s) = next_instance s.
Proof.
  intros H Ha. pose proof (no_waits s H Ha) as Hn. unfold reset_conditions, close_conditions.
  destruct (active_conditions_ s) as [[id c]|] eqn:Hc; [destruct (cs_Close c) as [c' r]; unfold resolve_futures|].
  - simpl. rewrite Hn. simpl. rewrite filter_nil, app_nil_r.
    split_and!; simpl; try done.
    + destruct H. split; simpl; try done; [by rewrite Ha; intros []|by intros w ?%not_elem_of_nil].
    + by apply extends_same.
  - split_and!; simpl; try done.
    + destruct H. split; simpl; try done. by rewrite Ha; intros [].
    + by apply extends_same.
Qed.

(** The synchronizer, if there is one, is attended to. *)
Definition SyncAttended (s : System) : Prop :=
  closed_ s = true ∨ active_synchronizer_ s = None ∨ waits s ≠ [] ∨ Exists (λ t, live_task t = true) (tasks s).

Lemma RunSynchronizerNext_ok quiet s :
  ControlOk s →
  ControlOk (RunSynchronizerNext s) ∧ SyncAttended (RunSynchronizerNext s) ∧ Extends quiet s (RunSynchronizerNext s) ∧
  (length (waits (RunSynchronizerNext s)) + length (tasks (RunSynchronizerNext s)) ≤
    length (waits s) + S (length (tasks s)))%nat.
Proof.
  intros H. unfold RunSynchronizerNext, SyncAttended.
  destruct (closed_ s) eqn:Hcl; [split_and!; [done|by left|apply handled_extends_refl|lia]|].
  destruct (active_synchronizer_ s) as [id|] eqn:Ha;
    [|split_and!; [done|by right; left|apply handled_extends_refl|lia]].
  destruct (co_pair _ H) as [[cid c] Hc]; [by rewrite Ha|]. rewrite Hc.
  pose proof (co_open _ H Hcl cid c Hc) as Ho.
  destruct (open_ops c (plain_result ResShutdown) 0 0 Ho) as (_ & HoG & _).
  unfold GetFuture in *. destruct (aggregate_result c) as [t|] eqn:Hagg.
  - split_and!; simpl.
    + by eapply control_ok_eq; [|exact H].
    + right; right; right. apply Exists_app. right. constructor. simpl.
      rewrite bool_decide_eq_false_2; [done|]. intros ->. destruct Ho as [_ Ho]. congruence.
    + unfold Extends. simpl. split_and!; try done. eexists. split; [done|by repeat constructor].
    + rewrite length_app. simpl. lia.
  - split_and!; simpl.
    + destruct H. split; simpl; try done.
      * intros w [Hw| ->%list_elem_of_singleton]%elem_of_app; [by apply co_waits0|done].
      * intros _ id' c' [= <- <-]. done.
    + right; right; left. by destruct (waits s).
    + by apply extends_same.
    + rewrite length_app. simpl. lia.
Qed.

Lemma build_open m : Open (BuildActiveConditions cfg m).
Proof.
  unfold BuildActiveConditions. destruct (_ =? 1)%nat; [by split|].
  assert (Unfired FallbackCondition ∧ Unfired RecoveryCondition) as [H1 H2].
  { split; (split_and!; [done|done|by left]). }
  unfold new_conditions. apply poll_open. split; [|done]. simpl. apply Forall_app.
  destruct (fallback_condition_factory cfg), (_ && _); split; auto.
Qed.

Lemma reset_conditions_sync x s :
  reset_conditions (set_active_synchronizer x s) = set_active_synchronizer x (reset_conditions s).
Proof.
  unfold reset_conditions, close_conditions. simpl. destruct (active_conditions_ s) as [[id c]|]; [|done].
  by destruct (cs_Close c).
Qed.

Lemma StartSynchronizers_ok quiet now s :
  ControlOk s →
  ControlOk (StartSynchronizers cfg now s) ∧ SyncAttended (StartSynchronizers cfg now s) ∧
  Extends quiet s (StartSynchronizers cfg now s) ∧
  (waits s = [] → length (waits (StartSynchronizers cfg now s)) + length (tasks (StartSynchronizers cfg now s)) ≤
    S (length (tasks s)))%nat.
Proof.
  intros H. unfold StartSynchronizers.
  destruct (closed_ s) eqn:Hcl.
  { split_and!; [done|by left|apply handled_extends_refl|]. intros ->. simpl. lia. }
  destruct (reset_synchronizer_ok quiet s H) as (H1 & Ha1 & Hw1 & He1 & Hm1 & _ & Ht1).
  set (s1 := reset_synchronizer s) in *. clearbody s1. cbv zeta.
  pose proof (next_synchronizer_wf _ (co_manager _ H1)) as Hm.
  destruct (NextSynchronizer (source_manager_ s1)) as [m [i|]]; simpl in Hm.
  - set (s2 := set_last_logged_interrupted _ _).
    assert (ControlOk (set_active_synchronizer None (set_last_logged_interrupted false (set_source_manager m s1)))) as H2.
    { destruct H1. split; simpl; try done. rewrite Hw1. by intros w ?%not_elem_of_nil. }
    set (s2' := set_active_synchronizer None _) in *.
    destruct (reset_conditions_ok quiet s2' H2 eq_refl) as (H3 & Ha3 & Hw3 & He3 & Hm3 & Ht3 & _).
    assert (reset_conditions s2 = set_active_synchronizer (Some (next_instance s1)) (reset_conditions s2')) as ->.
    { change s2 with (set_active_synchronizer (Some (next_instance s1)) s2'). apply reset_conditions_sync. }
    set (s3 := reset_conditions s2') in *. clearbody s3. set (s4 := set_next_instance _ _).
    assert (ControlOk s4) as H4.
    { destruct H3. split; simpl; try done.
      - rewrite Hw3. by intros w ?%not_elem_of_nil.
      - intros _ id c [= <- <-]. apply build_open. }
    destruct (RunSynchronizerNext_ok quiet s4 H4) as (H5 & Hat & He5 & Hl5).
    assert (Extends quiet s s4) as He4.
    { eapply extends_trans; [exact He1|]. exact He3. }
    split_and!; [done|done|by eapply extends_trans|]. intros Hw.
    change (waits s4) with (waits s3) in Hl5. change (tasks s4) with (tasks s3) in Hl5.
    rewrite Hw3, Ht3 in Hl5. change (tasks s2') with (tasks s1) in Hl5. rewrite Ht1 in Hl5 by done. simpl in *. lia.
  - set (s2 := set_source_manager m s1).
    assert (ControlOk s2) as H2 by (by destruct H1; split).
    assert (Extends quiet s s2) as He2 by exact He1.
    assert (∀ s3, control s3 = control s2 → Extends quiet s2 s3 → tasks s3 = tasks s2 →
      ControlOk s3 ∧ SyncAttended s3 ∧ Extends quiet s s3 ∧
      (waits s = [] → length (waits s3) + length (tasks s3) ≤ S (length (tasks s)))%nat) as Hgo.
    { intros s3 Hc He Ht. assert (H3 := control_ok_eq _ _ Hc H2). unfold control in Hc. injection Hc as _ _ _ Hc4 Hc5 Hc6.
      split_and!; [done|right; left; by rewrite Hc4|by eapply extends_trans|].
      intros Hw. rewrite Hc6, Ht. simpl. rewrite Hw1, Ht1 by done. simpl. lia. }
    destruct (_ || _); apply Hgo; try done; [|apply handled_extends_refl].
    by apply extends_same.
Qed.

Lemma resets_ok quiet s :
  ControlOk s →
  ControlOk (reset_conditions (reset_synchronizer s)) ∧
  active_synchronizer_ (reset_conditions (reset_synchronizer s)) = None ∧
  waits (reset_conditions (reset_synchronizer s)) = [] ∧
  Extends quiet s (reset_conditions (reset_synchronizer s)) ∧
  (waits s = [] → tasks (reset_conditions (reset_synchronizer s)) = tasks s).
Proof.
  intros H. destruct (reset_synchronizer_ok quiet s H) as (H1 & Ha1 & Hw1 & He1 & _ & _ & Ht1).
  destruct (reset_conditions_ok quiet _ H1 Ha1) as (H2 & Ha2 & Hw2 & He2 & _ & Ht2 & _).
  split_and!; [done|done|done|by eapply extends_trans|]. intros Hw. rewrite Ht2. auto.
Qed.

(** What a handler of the synchronizer phase achieves from a state. *)
Definition Handled (quiet : bool) (s s' : System) : Prop :=
  ControlOk s' ∧ SyncAttended s' ∧ Extends quiet s s' ∧
  (waits s = [] → length (waits s') + length (tasks s') ≤ S (length (tasks s)))%nat.

Lemma handled_after quiet s s1 s' :
  Extends quiet s s1 → waits s1 = waits s → tasks s1 = tasks s → Handled quiet s1 s' → Handled quiet s s'.
Proof.
  intros He Hw Ht (H1 & H2 & H3 & H4). unfold Handled. rewrite <- Hw, <- Ht.
  split_and!; [done|done|by eapply extends_trans|done].
Qed.

(** Resetting the sources, then changing the manager, and starting over. *)
Lemma restart_ok quiet now s m :
  ControlOk s → WfManager m →
  Handled quiet s (StartSynchronizers cfg now (set_source_manager m (reset_conditions (reset_synchronizer s)))).
Proof.
  intros H Hm. destruct (resets_ok quiet s H) as (H1 & Ha1 & Hw1 & He1 & Ht1).
  set (s1 := reset_conditions (reset_synchronizer s)) in *. clearbody s1.
  assert (ControlOk (set_source_manager m s1)) as H2 by (by destruct H1; split).
  destruct (StartSynchronizers_ok quiet now _ H2) as (H3 & Hat & He & Hl).
  split_and!; [done|done|by eapply extends_trans; [exact He1|exact He]|].
  intros Hw. specialize (Hl Hw1). simpl in Hl. rewrite (Ht1 Hw) in Hl. done.
Qed.

Lemma restart_same_ok quiet now s :
  ControlOk s → Handled quiet s (StartSynchronizers cfg now (reset_conditions (reset_synchronizer s))).
Proof.
  intros H. destruct (resets_ok quiet s H) as (H1 & Ha1 & Hw1 & He1 & Ht1).
  set (s1 := reset_conditions (reset_synchronizer s)) in *. clearbody s1.
  destruct (StartSynchronizers_ok quiet now _ H1) as (H3 & Hat & He & Hl).
  split_and!; [done|done|by eapply extends_trans|]. intros Hw. specialize (Hl Hw1). rewrite (Ht1 Hw) in Hl. done.
Qed.

Lemma stopped_ok quiet s : ControlOk s → Handled quiet s (reset_conditions (reset_synchronizer s)).
Proof.
  intros H. destruct (resets_ok quiet s H) as (H1 & Ha1 & Hw1 & He1 & Ht1).
  split_and!; [done|by right; left|done|]. intros Hw. rewrite Hw1, Ht1 by done. simpl. lia.
Qed.

Lemma next_ok quiet s : ControlOk s → Handled quiet s (RunSynchronizerNext s).
Proof.
  intros H. destruct (RunSynchronizerNext_ok quiet s H) as (H1 & H2 & H3 & H4).
  split_and!; try done. intros Hw. rewrite Hw in H4. simpl in H4. lia.
Qed.

Lemma engage_fallback_ok result d s :
  fdv1_fallback result = Some d → ControlOk s →
  let s' := (engage_fallback d s).1 in
  ControlOk s' ∧ Extends (quiet_result result) s s' ∧ waits s' = waits s ∧ tasks s' = tasks s ∧
  active_synchronizer_ s' = active_synchronizer_ s.
Proof.
  intros Hd H s'. subst s'. unfold engage_fallback, ScheduleFDv2RetryLocked, quiet_result. rewrite Hd. simpl.
  pose proof (manager_ops_wf _ (co_manager _ H)) as (_ & _ & Hm & _).
  destruct (ttl d =? 0); (split_and!; [by destruct H; split|split_and!; try done; exists []; by rewrite app_nil_r|done..]).
Qed.

Lemma OnConditionFired_ok quiet type now s :
  ControlOk s → type ≠ ConditionType.kCancelled ∨ SyncAttended s → Handled quiet s (OnConditionFired cfg type now s).
Proof.
  intros H Hat. unfold OnConditionFired.
  assert (SyncAttended s → Handled quiet s s) as Hsame.
  { intros Ha. split_and!; [done|done|apply handled_extends_refl|]. intros ->. simpl. lia. }
  case_bool_decide as Ht; [destruct Hat; [done|by apply Hsame]|].
  destruct (closed_ s) eqn:Hc; [apply Hsame; by left|]. cbv zeta.
  case_bool_decide; [|by apply restart_same_ok]. apply restart_ok; [done|].
  destruct (resets_ok quiet s H) as (H1 & _). by apply (manager_ops_wf _ (co_manager _ H1)).
Qed.

Lemma OnFDv1RetryTimer_ok quiet now s : ControlOk s → Handled quiet s (OnFDv1RetryTimer cfg now s).
Proof.
  intros H. unfold OnFDv1RetryTimer. destruct (closed_ s) eqn:Hc.
  { split_and!; [done|by left|apply handled_extends_refl|]. intros ->. simpl. lia. }
  set (s1 := set_source_manager _ s). assert (ControlOk s1) as H1.
  { destruct (manager_ops_wf _ (co_manager _ H)) as (_ & _ & _ & ?). by destruct H; split. }
  eapply (handled_after _ s s1); [by apply extends_same|done..|]. by apply restart_same_ok.
Qed.

Lemma inform_ok result s :
  ControlOk s → ControlOk (inform_conditions result s).
Proof.
  intros H. unfold inform_conditions. destruct (active_conditions_ s) as [[id c]|] eqn:E; [|done].
  destruct H. split; simpl; try done. intros Hc id' c' [= <- <-].
  by apply (open_ops c result 0 0), (co_open0 Hc id).
Qed.

(** The state of a result's visitor differs from [s] in its data and its status alone. *)
Definition Visited (s s' : System) : Prop :=
  control s' = control s ∧ tasks s' = tasks s ∧ waits s' = waits s ∧ ∀ quiet, Extends quiet s s'.

Lemma apply_visited cs now s : Visited s (ApplyChangeSet cs now s).
Proof.
  unfold Visited, ApplyChangeSet. destruct (cs_selector cs); split_and!; try done; intros; by apply extends_same.
Qed.

Lemma OnSynchronizerResult_ok result now s :
  ControlOk s → Handled (quiet_result result) s (OnSynchronizerResult cfg result now s).
Proof.
  intros H. unfold OnSynchronizerResult. destruct (closed_ s) eqn:Hc.
  { split_and!; [done|by left|apply handled_extends_refl|]. intros ->. simpl. lia. }
  cbv zeta. apply (inform_ok result) in H as H1.
  eapply (handled_after _ s (inform_conditions result s)).
  { unfold inform_conditions. destruct (active_conditions_ s) as [[]|]; by apply extends_same. }
  1-2: unfold inform_conditions; by destruct (active_conditions_ s) as [[]|].
  revert H1. generalize (inform_conditions result s). clear s H Hc. intros s H.
  match goal with |- context [let '(_, _) := ?p in _] => assert (Visited s p.1) as Hv; [|destruct p as [s1 adv]] end.
  { destruct (sr_value result); try (by split_and!; try done; intros; apply extends_same).
    exact (apply_visited change_set now (set_last_logged_interrupted false s)). }
  destruct Hv as (Hc & Ht & Hw & He). apply (handled_after _ s s1); [apply He|done|done|].
  apply (control_ok_eq _ _ Hc) in H. clear s Hc Ht Hw He. cbn [fst] in *.
  destruct (is_shutdown result); [by apply stopped_ok|].
  assert (Handled (quiet_result result) s1 (if adv then StartSynchronizers cfg now
     (reset_conditions (reset_synchronizer (set_source_manager (BlockCurrentSynchronizer (source_manager_ s1)) s1)))
     else RunSynchronizerNext s1)) as Hadv.
  { destruct adv; [|by apply next_ok]. set (s2 := set_source_manager _ s1). assert (ControlOk s2) as H2.
    { destruct (manager_ops_wf _ (co_manager _ H)) as (? & _). by destruct H; split. }
    eapply (handled_after _ s1 s2); [by apply extends_same|done..|]. by apply restart_same_ok. }
  destruct (fdv1_fallback result) as [d|] eqn:Hd; [|done].
  destruct (IsCurrentSynchronizerFDv1Fallback _); [done|].
  destruct (engage_fallback_ok result d s1 Hd H) as (H2 & He2 & Hw2 & Ht2 & _).
  destruct (engage_fallback d s1) as [s2 av]. simpl in *.
  apply (handled_after _ s1 s2); [done..|]. destruct av; [by apply restart_same_ok|].
  destruct (stopped_ok (quiet_result result) s2 H2) as (H3 & _ & He3 & Hl3).
  destruct (resets_ok (quiet_result result) s2 H2) as (_ & Ha & _).
  split_and!; [by eapply control_ok_eq; [|exact H3]|by right; left|by eapply extends_trans; [exact He3|apply extends_same]|done].
Qed.

(** The initializer, if there is one, is attended to. *)
Definition InitAttended (s : System) : Prop :=
  closed_ s = true ∨ active_initializer_ s = None ∨ init_wait s ≠ None ∨
  Exists (λ t, initializer_task t = true) (tasks s).

Lemma init_attended_extends quiet s s' : Extends quiet s s' → InitAttended s → InitAttended s'.
Proof.
  intros (Hc & Hi & Hw & _ & _ & l & Hl & _). unfold InitAttended. rewrite Hc, Hi, Hw, Hl, Exists_app. tauto.
Qed.

Lemma init_attended_none s : active_initializer_ s = None → InitAttended s.
Proof. intros. by right; left. Qed.

(** What a task achieves from the state without it. *)
Definition TaskDone (quiet : bool) (s s' : System) : Prop :=
  ControlOk s' ∧ SyncAttended s' ∧ InitAttended s' ∧
  (quiet = true → retry_timers s = [] → waits s = [] → tasks s = [] → init_wait s = None →
    retry_timers s' = [] ∧ Forall (λ t, quiet_task t = true) (tasks s') ∧ (pending_count s' ≤ 1)%nat).

Lemma handled_done quiet s s' : Handled quiet s s' → InitAttended s → TaskDone quiet s s'.
Proof.
  intros (H1 & H2 & He & Hl) Hi. pose proof (init_attended_extends _ _ _ He Hi) as Hi'.
  destruct He as (_ & _ & Hw & _ & Hr & l & Ht & Hq). split_and!; try done.
  intros Hquiet R W T I. rewrite Hr, Ht, T by done. simpl. split_and!; [done|done|].
  unfold pending_count. rewrite Hw, I. rewrite W, T in Hl. specialize (Hl eq_refl). simpl in Hl. lia.
Qed.

Lemma RunNextInitializer_ok quiet now s :
  ControlOk s → SyncAttended s → InitAttended s → TaskDone quiet s (RunNextInitializer cfg now s).
Proof.
  intros H Hs Hi. unfold RunNextInitializer. destruct (closed_ s) eqn:Hc.
  { split_and!; [done|by left|by left|]. intros _ R W T I. unfold pending_count. rewrite R, W, T, I. simpl. by split_and!; [|constructor|lia]. }
  destruct (Nat.leb_spec (initializer_count cfg) (initializer_index_ s)).
  - apply handled_done; [|done]. destruct (StartSynchronizers_ok quiet now s H) as (? & ? & ? & ?). by split_and!.
  - split_and!.
    + destruct H. split; simpl; try done; lia.
    + destruct Hs as [?|[?|[?|?]]]; [by left|by right; left|by right; right; left|by right; right; right].
    + by right; right; left.
    + intros _ R W T I. unfold pending_count. simpl. rewrite R, W, T. simpl. by split_and!; [|constructor|lia].
Qed.

Lemma sync_attended_eq s s' :
  closed_ s' = closed_ s → active_synchronizer_ s' = active_synchronizer_ s → waits s' = waits s → tasks s' = tasks s →
  SyncAttended s → SyncAttended s'.
Proof. unfold SyncAttended. by intros -> -> -> ->. Qed.

Lemma OnInitializerResult_ok result now s :
  ControlOk s → SyncAttended s → TaskDone (quiet_result result) s (OnInitializerResult cfg result now s).
Proof.
  intros H Hs. unfold OnInitializerResult.
  match goal with |- context [let '(_, _) := ?p in _] => assert (Visited s p.1) as Hv; [|destruct p as [s1 got]] end.
  { destruct (sr_value result); try (by split_and!; try done; intros; apply extends_same). apply apply_visited. }
  cbv zeta. simpl in Hv. destruct Hv as (Hc & Ht & Hw & He).
  set (s2 := set_active_initializer None s1).
  assert (TaskDone (quiet_result result) s2 (if closed_ s2 || is_shutdown result then s2 else
    match fdv1_fallback result with
    | Some d => let '(s, available) := engage_fallback d s2 in
                if available then StartSynchronizers cfg now s else report_disconnected now s
    | None => if got then StartSynchronizers cfg now s2 else RunNextInitializer cfg now s2
    end)) as Hdone.
  2: { destruct Hdone as (D1 & D2 & D3 & D4). split_and!; [done..|]. intros Hq R W T I.
       destruct (He true) as (_ & _ & Hi & _ & Hr & _). apply D4; simpl; [done|by rewrite Hr|by rewrite Hw|by rewrite Ht|by rewrite Hi]. }
  assert (ControlOk s2) as H2 by (by eapply control_ok_eq; [|exact H]).
  assert (SyncAttended s2) as Hs2.
  { unfold control in Hc. injection Hc as Hc1 _ _ Hc4 _ _. by apply (sync_attended_eq s). }
  assert (InitAttended s2) as Hi2 by (by apply init_attended_none).
  assert (active_initializer_ s2 = None) as Ha2 by done. clearbody s2.
  assert (∀ s3, Handled (quiet_result result) s2 s3 → TaskDone (quiet_result result) s2 s3) as Hh.
  { intros s3 H3. by apply handled_done. }
  assert (∀ s3, ControlOk s3 → Handled (quiet_result result) s3 (StartSynchronizers cfg now s3)) as Hstart.
  { intros s3 H3. destruct (StartSynchronizers_ok (quiet_result result) now s3 H3) as (? & ? & ? & ?). by split_and!. }
  destruct (closed_ s2 || is_shutdown result).
  { apply Hh. split_and!; [done|done|apply handled_extends_refl|]. intros ->. simpl. lia. }
  destruct (fdv1_fallback result) as [d|] eqn:Hd.
  - destruct (engage_fallback_ok result d s2 Hd H2) as (H3 & He3 & Hw3 & Ht3 & Ha3).
    destruct (engage_fallback d s2) as [s3 av]. simpl in *. apply Hh, (handled_after _ s2 s3); [done..|].
    destruct av; [by apply Hstart|]. split_and!.
    + by eapply control_ok_eq; [|exact H3].
    + destruct He3 as (Hc3 & _). by apply (sync_attended_eq s2).
    + by apply extends_same.
    + intros W. unfold report_disconnected, set_state_error. simpl. rewrite W. simpl. lia.
  - destruct got; [by apply Hh, Hstart|]. by apply RunNextInitializer_ok.
Qed.

Lemma cancel_condition_same cid f s :
  ControlOk s →
  ControlOk (cancel_condition cid f s) ∧ (∀ quiet, Extends quiet s (cancel_condition cid f s)) ∧
  waits (cancel_condition cid f s) = waits s ∧ tasks (cancel_condition cid f s) = tasks s ∧
  active_synchronizer_ (cancel_condition cid f s) = active_synchronizer_ s.
Proof.
  intros H. unfold cancel_condition. destruct (active_conditions_ s) as [[id c]|] eqn:Hc, f as [f|];
    try (split_and!; try done; intros; by apply handled_extends_refl).
  case_bool_decide; [|split_and!; try done; intros; by apply handled_extends_refl].
  split_and!; try done; [|intros; by apply extends_same].
  destruct H. split; simpl; try done. intros Hcl id' c' [= <- <-].
  by apply (open_ops c (plain_result ResShutdown) 0 f), (co_open0 Hcl id).
Qed.

Lemma run_task_ok t now s :
  ControlOk s → SyncAttended s ∨ live_task t = true → InitAttended s ∨ initializer_task t = true →
  TaskDone (quiet_task t) s (run_task cfg t now s).
Proof.
  intros H Hs Hi. destruct t as [|result|cid f type|cid f result|]; cbn [run_task quiet_task live_task initializer_task] in *.
  - apply RunNextInitializer_ok; [done|by destruct Hs|by destruct Hi].
  - apply OnInitializerResult_ok; [done|by destruct Hs].
  - destruct Hi as [Hi|]; [|done]. apply handled_done; [|done].
    destruct (cancel_condition_same cid f s H) as (H1 & He & Hw & Ht & Ha).
    apply (handled_after _ s (cancel_condition cid f s)); [apply He|done|done|].
    apply OnConditionFired_ok; [done|]. destruct Hs as [Hs|Hs].
    + right. destruct (He true) as (Hc & _). by apply (sync_attended_eq s).
    + left. intros ->. done.
  - destruct Hi as [Hi|]; [|done]. apply handled_done; [|done].
    destruct (cancel_condition_same cid f s H) as (H1 & He & Hw & Ht & Ha).
    apply (handled_after _ s (cancel_condition cid f s)); [apply He|done|done|]. by apply OnSynchronizerResult_ok.
  - destruct Hi as [Hi|]; [|done]. apply handled_done; [|done]. by apply OnFDv1RetryTimer_ok.
Qed.
End Control.

(** ** Lemmas: steps *)

Lemma exists_delete {A} (P : A → Prop) (l : list A) k x :
  l !! k = Some x → Exists P l → P x ∨ Exists P (delete k l).
Proof.
  intros Hk Hex. rewrite (delete_take_drop l k). rewrite <- (take_drop_middle l k x Hk) in Hex.
  rewrite Exists_app, Exists_cons in Hex. rewrite Exists_app. tauto.
Qed.

Lemma length_delete_S {A} (l : list A) k x : l !! k = Some x → length l = S (length (delete k l)).
Proof. intros H. rewrite length_delete by (by eexists). apply lookup_lt_Some in H. lia. Qed.

Lemma filter_split {A} (P : A → Prop) `{!∀ x, Decision (P x)} (l : list A) :
  (length (filter P l) + length (filter (λ x, ¬ P x) l) = length l)%nat.
Proof.
  induction l as [|x l IH]; [done|]. rewrite !filter_cons. destruct (decide (P x)) as [HP|HP].
  - rewrite decide_False by tauto. simpl. lia.
  - rewrite decide_True by tauto. simpl. lia.
Qed.

Section Steps.
Context {HO : HashOrder} (cfg : SystemConfig).

Record SystemOk (s : System) : Prop := {
  so_control : ControlOk cfg s;
  so_sync : SyncAttended s;
  so_init : InitAttended s;
}.

(** No retry timer is or will be running, and at most one continuation is pending. *)
Record QuietOk (s : System) : Prop := {
  qo_timers : retry_timers s = [];
  qo_tasks : Forall (λ t, quiet_task t = true) (tasks s);
  qo_pending : (pending_count s ≤ 1)%nat;
}.

Definition quiet_event (e : Event) : bool :=
  match e with
  | EInitializerResult r | ESynchronizerResult _ r => quiet_result r
  | _ => true
  end.

Lemma resolved_split cid r (l : list Wait) :
  (length (filter (λ w, resolved_with cid r w = None) l) +
   length (omap (λ w, TConditionFired cid None <$> resolved_with cid r w) l) = length l)%nat.
Proof.
  induction l as [|w l IH]; [done|]. rewrite filter_cons. cbn [omap list_omap].
  destruct (resolved_with cid r w); simpl in *; lia.
Qed.

Lemma condition_timer_ok f i id s :
  (∀ c, Open c → Open (cs_timer f i id c).1) →
  SystemOk s → SystemOk (condition_timer f i id s) ∧ (QuietOk s → QuietOk (condition_timer f i id s)).
Proof.
  intros Hf [H Hs Hi]. unfold condition_timer. destruct (active_conditions_ s) as [[cid c]|] eqn:Hc; [|done].
  pose proof (Hf c) as Hopen. assert (Open c → Forall (λ x, x.2 ≠ ConditionType.kCancelled) (cs_timer f i id c).2) as Htypes.
  { intros Ho. specialize (Hopen Ho). unfold cs_timer, poll_aggregate in *. simpl in *. destruct (when_any c); [constructor|].
    destruct (omap tc_promise _) as [|t l]; [constructor|]. simpl in *. apply Forall_fmap, Forall_forall.
    intros x _. simpl. destruct Hopen as [_ Hn]. simpl in Hn. congruence. }
  destruct (cs_timer f i id c) as [c' r]. simpl in *. unfold resolve_futures. simpl. split; [split|].
  - destruct H. split; simpl; try done.
    + intros w [_ Hw]%list_elem_of_filter. auto.
    + intros Hcl id' c'' [= <- <-]. apply Hopen. by apply (co_open0 Hcl cid).
  - destruct Hs as [?|[?|[Hw|Hex]]]; [by left|by right; left| |right; right; right; simpl; apply Exists_app; by left].
    destruct (closed_ s) eqn:Hcl; [by left|].
    destruct (waits s) as [|w l] eqn:Ew; [done|]. simpl.
    destruct (resolved_with cid r w) as [t|] eqn:Er; [|right; right; left; simpl; by rewrite filter_cons_True].
    right; right; right. simpl. apply Exists_app. right. constructor. simpl.
    rewrite bool_decide_eq_false_2; [done|]. intros ->. unfold resolved_with in Er.
    destruct (bool_decide _); [|done]. destruct (List.find _ r) as [[i' t']|] eqn:Ef; [|done]. simplify_eq/=.
    apply List.find_some in Ef as [Hin%list_elem_of_In _].
    pose proof (Htypes (co_open _ _ H Hcl cid c Hc)) as HF. rewrite Forall_forall in HF. by apply (HF _ Hin).
  - destruct Hi as [?|[?|[?|?]]]; [by left|by right; left|by right; right; left|right; right; right].
    simpl. apply Exists_app. by left.
  - intros [Q1 Q2 Q3]. split; simpl; [done| |].
    + apply Forall_app. split; [done|]. apply Forall_forall. intros t (w & _ & Ht)%list_elem_of_omap.
      destruct (resolved_with cid r w); by simplify_eq/=.
    + unfold pending_count in *. simpl. rewrite length_app. pose proof (resolved_split cid r (waits s)). lia.
Qed.

Lemma close_ok s : SystemOk s → SystemOk (Close s) ∧ (QuietOk s → QuietOk (Close s)).
Proof.
  intros [H Hs Hi]. unfold Close. set (s1 := set_retry_source None (set_closed true s)).
  set (s2 := match active_initializer_ s1 with Some _ => _ | None => _ end).
  assert (control s2 = control s1 ∧ retry_timers s2 = retry_timers s ∧ waits s2 = waits s ∧
    (∃ l, tasks s2 = tasks s ++ l ∧ Forall (λ t, quiet_task t = true) l) ∧
    pending_count s2 = pending_count s) as (C2 & R2 & W2 & (l & L2 & Q2) & P2).
  { subst s2. simpl. destruct (active_initializer_ s), (init_wait s) eqn:E; split_and!; try done;
      try (exists []; by rewrite app_nil_r); try (by unfold pending_count; simpl; rewrite E).
    - eexists. split; [done|by repeat constructor].
    - unfold pending_count. simpl. rewrite E, length_app. simpl. lia. }
  assert (ControlOk cfg s2) as H2.
  { assert (ControlOk cfg s1) as H1 by (by destruct H; split). by apply (control_ok_eq _ s1). }
  assert (closed_ s2 = true) as Hc2 by (unfold control in C2; by injection C2).
  clearbody s2.
  (* closing the synchronizer *)
  assert (∃ s3, close_synchronizer s2 = s3 ∧ ControlOk cfg s3 ∧ closed_ s3 = true ∧
    retry_timers s3 = retry_timers s2 ∧ (QuietOk s2 → QuietOk s3)) as (s3 & -> & H3 & Hc3 & R3 & Q3).
  { eexists. split; [done|]. unfold close_synchronizer. destruct (active_synchronizer_ s2) as [id|] eqn:Ha; [|done].
    unfold shut_down. split_and!; try done.
    - destruct H2. split; simpl; try done. intros w [_ Hw]%list_elem_of_filter. auto.
    - intros [q1 q2 q3]. split; simpl; [done| |].
      + apply Forall_app. split; [done|]. apply Forall_fmap, Forall_forall. by intros.
      + unfold pending_count in *. simpl. rewrite length_app, length_fmap.
        pose proof (filter_split (λ w, w_synchronizer w = id) (waits s2)). lia. }
  assert (SystemOk (close_conditions s3) ∧ (QuietOk s3 → QuietOk (close_conditions s3))) as [H4 Q4].
  { unfold close_conditions. destruct (active_conditions_ s3) as [[cid c]|] eqn:Hc.
    2: { split; [|done]. split; [done|by left|by left]. }
    destruct (cs_Close c) as [c' r]. unfold resolve_futures. simpl. split.
    - split; [|by left|by left]. destruct H3. split; simpl; try done; [|congruence].
      intros w [_ Hw]%list_elem_of_filter. auto.
    - intros [q1 q2 q3]. split; simpl; [done| |].
      + apply Forall_app. split; [done|]. apply Forall_forall. intros t (w & _ & Ht)%list_elem_of_omap.
        destruct (resolved_with cid r w); by simplify_eq/=.
      + unfold pending_count in *. simpl. rewrite length_app. pose proof (resolved_split cid r (waits s3)). lia. }
  split; [done|]. intros [q1 q2 q3]. apply Q4, Q3. split; [congruence|rewrite L2; by apply Forall_app|lia].
Qed.

Lemma sync_attended_more s s' l :
  closed_ s' = closed_ s → active_synchronizer_ s' = active_synchronizer_ s → waits s' = waits s →
  tasks s' = tasks s ++ l → SyncAttended s → SyncAttended s'.
Proof. unfold SyncAttended. intros -> -> -> ->. rewrite Exists_app. tauto. Qed.

Lemma init_attended_more s s' l :
  closed_ s' = closed_ s → active_initializer_ s' = active_initializer_ s → init_wait s' = init_wait s →
  tasks s' = tasks s ++ l → InitAttended s → InitAttended s'.
Proof. unfold InitAttended. intros -> -> -> ->. rewrite Exists_app. tauto. Qed.

Lemma step_ok e now s s' :
  step cfg e now s = Some s' → SystemOk s →
  SystemOk s' ∧ (quiet_event e = true → QuietOk s → QuietOk s').
Proof.
  intros Hstep Hok. pose proof Hok as [H Hs Hi].
  destruct e as [k|result|k result|i id|i id|id|id|]; simpl in Hstep.
  - destruct (tasks s !! k) as [t|] eqn:Hk; [|done]. simplify_eq.
    set (s1 := set_tasks (delete k (tasks s)) s).
    assert (SyncAttended s1 ∨ live_task t = true) as Hs1.
    { destruct Hs as [?|[?|[?|Hex]]]; [by left; left|by left; right; left|by left; right; right; left|].
      destruct (exists_delete _ _ _ _ Hk Hex); [by right|left; by right; right; right]. }
    assert (InitAttended s1 ∨ initializer_task t = true) as Hi1.
    { destruct Hi as [?|[?|[?|Hex]]]; [by left; left|by left; right; left|by left; right; right; left|].
      destruct (exists_delete _ _ _ _ Hk Hex); [by right|left; by right; right; right]. }
    assert (ControlOk cfg s1) as H1 by (by eapply control_ok_eq; [|exact H]).
    destruct (run_task_ok cfg t now s1 H1 Hs1 Hi1) as (R1 & R2 & R3 & R4).
    split; [by split|]. intros _ [q1 q2 q3].
    unfold pending_count in q3. rewrite (length_delete_S _ _ _ Hk) in q3.
    destruct R4 as (? & ? & ?); simpl; [|done| | | |by split].
    + rewrite Forall_lookup in q2. eauto.
    + destruct (waits s); [done|]. simpl in q3. lia.
    + destruct (delete k (tasks s)); [done|]. simpl in q3. lia.
    + destruct (init_wait s); [lia|done].
  - destruct (init_wait s) as [id|] eqn:E; [|done]. simplify_eq. split; [split|].
    + by eapply control_ok_eq; [|exact H].
    + by eapply sync_attended_more; [..|exact Hs].
    + right; right; right. simpl. apply Exists_app. right. by constructor.
    + intros Hq [q1 q2 q3]. split; simpl; [done|apply Forall_app; split; [done|by constructor]|].
      unfold pending_count in *. simpl. rewrite E in q3. rewrite length_app. simpl. lia.
  - destruct (waits s !! k) as [w|] eqn:Hk; [|done]. simplify_eq. split; [split|].
    + destruct H. split; simpl; try done. intros w' Hw'. apply co_waits0.
      apply list_elem_of_lookup in Hw' as [n Hn]. destruct (decide (n < k)%nat).
      * rewrite list_lookup_delete_lt in Hn by done. by eapply list_elem_of_lookup_2.
      * rewrite list_lookup_delete_ge in Hn by lia. by eapply list_elem_of_lookup_2.
    + right; right; right. simpl. apply Exists_app. right. by constructor.
    + by eapply init_attended_more; [..|exact Hi].
    + intros Hq [q1 q2 q3]. split; simpl; [done|apply Forall_app; split; [done|by constructor]|].
      unfold pending_count in *. simpl. rewrite length_app. rewrite (length_delete_S _ _ _ Hk) in q3. simpl. lia.
  - destruct (condition_at i s) as [c|]; [|done]. case_bool_decide; [|done]. simplify_eq.
    destruct (condition_timer_ok timer_expired i id s) as [? ?]; [|done|done].
    intros c' Hc'. by apply (open_ops c' (plain_result ResShutdown) i id).
  - destruct (condition_at i s) as [c|]; [|done]. case_bool_decide; [|done]. simplify_eq.
    destruct (condition_timer_ok timer_aborted i id s) as [? ?]; [|done|done].
    intros c' Hc'. by apply (open_ops c' (plain_result ResShutdown) i id).
  - case_bool_decide as Hin; [|done]. simplify_eq. split; [split|].
    + by eapply control_ok_eq; [|exact H].
    + by eapply sync_attended_more; [..|exact Hs].
    + by eapply init_attended_more; [..|exact Hi].
    + intros _ [q1 _ _]. rewrite q1 in Hin. by apply not_elem_of_nil in Hin.
  - case_bool_decide as Hin; [|done]. simplify_eq. split; [by split; [eapply control_ok_eq; [|exact H]|..]|].
    intros _ [q1 _ _]. rewrite q1 in Hin. by destruct Hin as [?%not_elem_of_nil _].
  - simplify_eq. destruct (close_ok s Hok). done.
Qed.

Lemma started_ok now : SystemOk (started cfg now) ∧ QuietOk (started cfg now).
Proof.
  assert (WfManager (new_source_manager (synchronizer_factories cfg))) as Hm by (split; simpl; lia).
  unfold started, Initialize. destruct (_ && _).
  - split; [split|split]; try done; [|by right; left|by right; left|unfold pending_count; simpl; lia].
    split; simpl; try done; [lia|by intros w ?%not_elem_of_nil].
  - split; [split|split]; try done; [|by right; left|by right; left|by repeat constructor].
    split; simpl; try done; [lia|by intros w ?%not_elem_of_nil].
Qed.

Lemma run_ok events s s' :
  run cfg events s = Some s' → SystemOk s →
  SystemOk s' ∧ (Forall (λ e, quiet_event e.1 = true) events → QuietOk s → QuietOk s').
Proof.
  revert s. induction events as [|[e now] events IH]; intros s Hrun Hok; simpl in Hrun.
  { by simplify_eq. }
  destruct (step cfg e now s) as [s1|] eqn:Hs; [|done].
  destruct (step_ok e now s s1 Hs Hok) as [H1 Q1]. destruct (IH s1 Hrun H1) as [H2 Q2].
  split; [done|]. intros [He HF]%Forall_cons_1 Hq. auto.
Qed.

(** ** Properties *)

(** C24: the store has what the sources returned.  Run the system through any events: results
    of the initializer and the synchronizers that are waited for, handlers taken from the
    queue in any order, timers, and calls of Close.  Then (1) every change set in a result
    that a source returned was handled exactly once or is still queued, and nothing else was
    handled; (2) a change set is taken when its handler runs, unless it is one of a
    synchronizer and the system is closed by then, so that until Close every one is taken;
    (3) the store that the evaluator reads is the result of applying those taken, in the
    order of their handlers, to an empty store; (4) the selector sent with the next request is
    the last one that any of them carried; and (5) the system is closed exactly when Close
    was called. *)
Theorem fdv2_store_refines (events : list (Event * Z)) (start : Z) (s : System)
    (Hrun : run cfg events (started cfg start) = Some s) :
  let h := handled cfg events (started cfg start) in
  (events ≫= λ e, returned e.1) ≡ₚ h.*1 ++ queued s ∧
  (closed_ s = false → Forall (λ x, x.2 = true) h) ∧
  nt_store (notifier_ s) = contents (taken h) ∧
  selector_ s = last_selector (taken h) ∧
  closed_ s = existsb (λ e, is_close e.1) events.
Proof.
  destruct (started_data cfg start) as [H0 Hq]. destruct (run_data cfg events _ _ _ _ Hrun H0) as ((Hc & Hst & Hsel & _) & P & F).
  rewrite Hq in P. done.
Qed.

(** C25: an active source is never forgotten: until the system is closed, when a
    synchronizer is active its next result is waited for or a handler that continues with
    it is queued, and likewise for an initializer; so the orchestration rests only when no
    source is active. *)
Theorem active_source_attended (events : list (Event * Z)) (start : Z) (s : System)
    (Hrun : run cfg events (started cfg start) = Some s) :
  Attended s.
Proof.
  destruct (run_ok _ _ _ Hrun (proj1 (started_ok start))) as [[_ Hs Hi] _].
  unfold Attended. destruct Hs as [?|Hs]; [by left|]. destruct Hi as [?|Hi]; [by left|]. by right.
Qed.

(** The orchestration state stays consistent: the source manager's cursors are in range,
    at most the configured number of initializers was started, an active synchronizer has
    its conditions, and only results of the active synchronizer are waited for. *)
Theorem orchestration_invariant (events : list (Event * Z)) (start : Z) (s : System)
    (Hrun : run cfg events (started cfg start) = Some s) :
  WfManager (source_manager_ s) ∧ (initializer_index_ s ≤ initializer_count cfg)%nat ∧
  (is_Some (active_synchronizer_ s) → is_Some (active_conditions_ s)) ∧
  (∀ w, w ∈ waits s → active_synchronizer_ s = Some (w_synchronizer w)).
Proof. by destruct (run_ok _ _ _ Hrun (proj1 (started_ok start))) as [[[] _ _] _]. Qed.

(** As long as no result carries a directive with a time to live, at most one
    continuation is pending at any time: one result waited for or one handler queued, and
    never both. *)
Theorem single_continuation (events : list (Event * Z)) (start : Z) (s : System)
    (Hquiet : Forall (λ e, quiet_event e.1 = true) events)
    (Hrun : run cfg events (started cfg start) = Some s) :
  (pending_count s ≤ 1)%nat.
Proof.
  destruct (started_ok start) as [H Q]. destruct (run_ok _ _ _ Hrun H) as [_ HQ]. by destruct (HQ Hquiet Q).
Qed.
End Steps.

(** ** Examples *)

Definition cs_full (sel : Selector) : FDv2SourceResult :=
  plain_result (ResChangeSet (mkChangeSet ChangeSetType.kFull [] sel)).

(** An initializer without a basis, a synchronizer that fails for good, another that works. *)
Definition example_config : SystemConfig := mkSystemConfig 1 [false; false] true true.
Definition example_events : list (Event * Z) :=
  [(ERun 0, 1); (EInitializerResult (cs_full None), 2); (ERun 0, 3);
   (ESynchronizerResult 0 (plain_result (ResTerminalError net_error)), 4); (ERun 0, 5);
   (ESynchronizerResult 0 (cs_full (Some (mkSelectorState 7 "s"))), 6); (ERun 0, 7)].

(** Both change sets of the example are handled and taken. *)
Lemma fdv2_store_refines_witness :
  ∃ s, run example_config example_events (started example_config 0) = Some s ∧
    let h := handled example_config example_events (started example_config 0) in
    selector_ s = Some (mkSelectorState 7 "s") ∧ length h = 2%nat ∧
    (example_events ≫= λ e, returned e.1) ≡ₚ h.*1 ++ queued s ∧ nt_store (notifier_ s) = contents (taken h).
Proof.
  destruct (run example_config example_events (started example_config 0)) as [s|] eqn:Hrun; [|vm_compute in Hrun; discriminate].
  exists s. split; [done|]. cbv zeta.
  destruct (fdv2_store_refines example_config example_events 0 s Hrun) as (P & _ & Hst & Hsel & _).
  split; [rewrite Hsel; vm_compute; reflexivity|]. split; [vm_compute; reflexivity|]. split; [exact P|exact Hst].
Defined.

Lemma active_source_attended_witness :
  ∃ s, run example_config example_events (started example_config 0) = Some s ∧
    active_synchronizer_ s = Some 3%nat ∧ Attended s.
Proof.
  eexists. split; [vm_compute; reflexivity|]. split; [reflexivity|].
  eapply (active_source_attended example_config example_events 0). vm_compute. reflexivity.
Defined.

Lemma orchestration_invariant_witness :
  ∃ s, run example_config example_events (started example_config 0) = Some s ∧
    (initializer_index_ s ≤ initializer_count example_config)%nat.
Proof.
  eexists. split; [vm_compute; reflexivity|].
  eapply (orchestration_invariant example_config example_events 0). vm_compute. reflexivity.
Defined.

Lemma single_continuation_witness :
  ∃ s, run example_config example_events (started example_config 0) = Some s ∧ (pending_count s ≤ 1)%nat.
Proof.
  eexists. split; [vm_compute; reflexivity|].
  eapply (single_continuation example_config example_events 0); [by repeat constructor|vm_compute; reflexivity].
Defined.

(** When the retry timer fires while the FDv1 synchronizer is waited for, closing that
    synchronizer queues its shutdown, and the handler of that shutdown destroys the new
    synchronizer: nothing runs any more, although the system is not closed, reports that it
    is valid, and has an available synchronizer. *)
Lemma retry_timer_stops_orchestration :
  ∃ s, run retry_config
         [(ERun 0, 1); (ESynchronizerResult 0 directive_result, 2); (ERun 0, 3);
          (ESynchronizerResult 0 empty_full, 4); (ERun 0, 5);
          (ERetryTimer 2, 6); (ERun 0, 7); (ERun 0, 8); (ERun 0, 9)] (started retry_config 0) = Some s ∧
    closed_ s = false ∧ active_synchronizer_ s = None ∧ waits s = [] ∧ tasks s = [] ∧ retry_timers s = [] ∧
    sm_state_ (status_ s) = ServerState.kValid ∧ AvailableSynchronizerCount (source_manager_ s) = 1%nat.
Proof. eexists. split; [vm_compute; reflexivity|]. split_and!; reflexivity. Qed.


(** A result of the old synchronizer that is already queued when the timer fires makes the
    orchestration wait twice for the new one. *)
Lemma retry_timer_two_continuations :
  ∃ s, run retry_config
         [(ERun 0, 1); (ESynchronizerResult 0 directive_result, 2); (ERun 0, 3);
          (ERetryTimer 2, 4); (ESynchronizerResult 0 empty_full, 5); (ERun 0, 6); (ERun 0, 7)]
         (started retry_config 0) = Some s ∧
    length (waits s) = 2%nat.
Proof. eexists. split; [vm_compute; reflexivity|]. reflexivity. Qed.
