(* ===== verification/Fdv2Sources.v ===== *)
(** * Sources of the FDv2 data system

    libs/server-sdk/src/data_systems/fdv2: fdv2_polling_impl.cpp (interpreting a poll),
    polling_synchronizer.cpp (when to poll), streaming_synchronizer.cpp (the server-sent
    event stream), fdv1_adapter_synchronizer.cpp (an FDv1 source as a synchronizer), with
    libs/internal/src/network/http_requester.cpp (recoverable statuses),
    http_error_messages.cpp and libs/server-sent-events/src/error.cpp.

    HTTP, URL parsing and the stream client are outside: their answers are arguments.
    A future handed out by [Next] is a number; resolving it is recorded. *)

From S2P Require Import Prelude OrderedMap DataModel Stores Notifier Externals Json JsonModel Persistence Fdv2 StatusManager SourceResults.

(** ** HTTP results *)

Record HttpResponse := mkHttpResponse {
  res_IsError : bool;
  res_ErrorMessage : option string;
  res_Status : Z;
  res_Body : option string;
  res_Headers : list (string * string);
}.

Definition ascii_lower (c : ascii) : ascii :=
  let n := N_of_ascii c in
  if ((65 <=? n) && (n <=? 90))%N then ascii_of_N (n + 32) else c.

(** [boost::iequals], and the comparison of the header map. *)
Definition iequals (a b : string) : bool := bool_decide (ascii_lower <$> chars a = ascii_lower <$> chars b).

Fixpoint find_header (name : string) (headers : list (string * string)) : option string :=
  match headers with
  | [] => None
  | (k, v) :: headers => if iequals k name then Some v else find_header name headers
  end.

Definition IsRecoverableStatus (status : Z) : bool :=
  (status <? 400) || (499 <? status) || (status =? 400) || (status =? 408) || (status =? 429).

Definition IsInvalidSdkKeyStatus (code : Z) : bool := (code =? 401) || (code =? 403).

Definition ErrorForStatusCode (code : Z) (context : string) (retry_message : option string) : string :=
  "HTTP error " +:+ to_string code +:+ (if IsInvalidSdkKeyStatus code then "(invalid SDK key) " else " ") +:+
  "for: " +:+ context +:+ " - " +:+ default "giving up permanently" retry_message.

(** ** Directives of a response *)

(** [ReadFDv1FallbackDirective], and the same logic in [OnResponse]. *)
Definition ReadFDv1FallbackDirective (headers : list (string * string)) : option FDv1FallbackDirective :=
  match find_header "X-LD-FD-Fallback" headers with
  | None => None
  | Some value =>
      if negb (iequals value "true") then None
      else
        Some (mkDirective
          (match find_header "X-LD-FD-Fallback-TTL" headers with
           | Some value => default kDefaultTtl (ParseTtl value)
           | None => kDefaultTtl
           end))
  end.

Definition kErrorParsingBody : string := "Could not parse FDv2 polling response".
Definition kErrorMissingEvents : string := "FDv2 polling response missing 'events' array".
Definition kErrorIncompletePayload : string := "FDv2 polling response did not contain a complete payload".
Definition kErrorTranslation : string := "FDv2 polling response could not be translated".

(** The message for an error event of the server. *)
Definition server_error_message (e : Error) : string :=
  "An issue was encountered receiving updates for payload '" +:+
  default EmptyString (match server_error e with Some s => fdv2_error_id s | None => None end) +:+
  "' with reason: '" +:+ error_message e +:+ "'. Automatic retry will occur.".

Definition goodbye_result (g : Goodbye) : FDv2SourceResult :=
  mkSourceResult (ResGoodbye (goodbye_reason g)) (mkDirective <$> protocol_fallback_ttl g).

(** ** Polling *)

Section Polling.
Context {B : BoostJson} {J : JsonText} (now : Z).

Definition MakeError (kind : StatusErrorKind.t) (status : Z) (message : string) : ErrorInfo :=
  mkErrorInfo kind status message now.

Definition interrupted_result (kind : StatusErrorKind.t) (status : Z) (message : string) : FDv2SourceResult :=
  plain_result (ResInterrupted (MakeError kind status message)).

(** What a result of the protocol handler ends a poll with. *)
Definition poll_outcome (r : Result) : option FDv2SourceResult :=
  match r with
  | RNothing => None
  | RChangeSet cs =>
      Some (match TranslateChangeSet cs with
            | Some typed => plain_result (ResChangeSet typed)
            | None => interrupted_result StatusErrorKind.kInvalidData 0 kErrorTranslation
            end)
  | RGoodbye g => Some (goodbye_result g)
  | RError e =>
      Some (match error_kind e with
            | ErrorKind.kServerError => interrupted_result StatusErrorKind.kErrorResponse 0 (server_error_message e)
            | _ => interrupted_result StatusErrorKind.kInvalidData 0 (error_message e)
            end)
  end.

(** An element of the events array; those without a type and data are skipped. *)
Definition poll_event (event_val : json) : option (string * json) :=
  match event_val with
  | JObject event_obj =>
      match obj_find "event" event_obj, obj_find "data" event_obj with
      | Some (JString event_type), Some event_data => Some (event_type, event_data)
      | _, _ => None
      end
  | _ => None
  end.

Fixpoint ParseFDv2PollEvents (events : list json) (h : FDv2ProtocolHandler) : FDv2SourceResult :=
  match events with
  | [] => interrupted_result StatusErrorKind.kInvalidData 0 kErrorIncompletePayload
  | event_val :: events =>
      match poll_event event_val with
      | None => ParseFDv2PollEvents events h
      | Some (event_type, data) =>
          let '(h, r) := HandleEvent event_type data h in
          match poll_outcome r with
          | Some result => result
          | None => ParseFDv2PollEvents events h
          end
      end
  end.

Definition ParseFDv2PollResponse (body : string) (h : FDv2ProtocolHandler) : FDv2SourceResult :=
  match parse body with
  | None => interrupted_result StatusErrorKind.kInvalidData 0 kErrorParsingBody
  | Some parsed =>
      match parsed with
      | JObject obj =>
          match obj_find "events" obj with
          | Some (JArray events) => ParseFDv2PollEvents events h
          | _ => interrupted_result StatusErrorKind.kInvalidData 0 kErrorMissingEvents
          end
      | _ => interrupted_result StatusErrorKind.kInvalidData 0 kErrorParsingBody
      end
  end.

Definition HandleFDv2PollResponse (res : HttpResponse) (h : FDv2ProtocolHandler) : FDv2SourceResult :=
  if res_IsError res then
    interrupted_result StatusErrorKind.kNetworkError 0 (default "unknown error" (res_ErrorMessage res))
  else
    let fdv1_fallback := ReadFDv1FallbackDirective (res_Headers res) in
    if res_Status res =? 304 then
      mkSourceResult (ResChangeSet (mkChangeSet ChangeSetType.kNone [] None)) fdv1_fallback
    else if res_Status res =? 200 then
      match res_Body res with
      | None =>
          mkSourceResult (ResInterrupted (MakeError StatusErrorKind.kInvalidData 0 "polling response contained no body"))
            fdv1_fallback
      | Some body =>
          let result := ParseFDv2PollResponse body h in
          match SourceResults.fdv1_fallback result with
          | Some _ => result
          | None => mkSourceResult (sr_value result) fdv1_fallback
          end
      end
    else if IsRecoverableStatus (res_Status res) then
      mkSourceResult (ResInterrupted (MakeError StatusErrorKind.kErrorResponse (res_Status res)
        (ErrorForStatusCode (res_Status res) "FDv2 polling request" (Some "will retry")))) fdv1_fallback
    else
      mkSourceResult (ResTerminalError (MakeError StatusErrorKind.kErrorResponse (res_Status res)
        (ErrorForStatusCode (res_Status res) "FDv2 polling request" None))) fdv1_fallback.
End Polling.

(** *** When to poll: times in nanoseconds *)

Definition kMinPollInterval : Z := 30 * 10 ^ 9.
Definition poll_interval_ (poll_interval : Z) : Z := Z.max poll_interval kMinPollInterval.

(** [CreatePollDelayFuture]: [None] is a future that is resolved already. *)
Definition CreatePollDelay (poll_interval : Z) (last_poll_start : option Z) (now : Z) : option Z :=
  match last_poll_start with
  | None => None
  | Some last =>
      let elapsed := now - last in
      if poll_interval_ poll_interval <=? elapsed then None else Some (poll_interval_ poll_interval - elapsed)
  end.

(** ** Results in order: [pending_promise_] and [result_queue_] *)

Record ResultQueue := mkQueue {
  pending_promise_ : option nat;
  result_queue_ : list FDv2SourceResult;
  next_promise : nat;
  delivered_results : list (nat * FDv2SourceResult);
}.

Definition empty_queue : ResultQueue := mkQueue None [] 0 [].

(** [Notify] after the directive was filled in: resolve the promise or queue. *)
Definition queue_notify (result : FDv2SourceResult) (q : ResultQueue) : ResultQueue :=
  match pending_promise_ q with
  | Some p => mkQueue None (result_queue_ q) (next_promise q) (delivered_results q ++ [(p, result)])
  | None => mkQueue None (result_queue_ q ++ [result]) (next_promise q) (delivered_results q)
  end.

(** [Next] and [GetNext]: a future; [MakeFuture] resolves it at once. *)
Definition queue_next (q : ResultQueue) : ResultQueue * nat :=
  let p := next_promise q in
  match result_queue_ q with
  | result :: rest => (mkQueue (pending_promise_ q) rest (S p) (delivered_results q ++ [(p, result)]), p)
  | [] => (mkQueue (Some p) [] (S p) (delivered_results q), p)
  end.

Definition queue_clear (q : ResultQueue) : ResultQueue :=
  mkQueue None (result_queue_ q) (next_promise q) (delivered_results q).

(** ** Streaming *)

Inductive SseError :=
| InvalidRedirectLocation (location : string)
| NotRedirectable
| ReadTimeout (timeout : option Z)
| UnrecoverableClientError (status : Z).

Definition IsRecoverable (e : SseError) : bool := match e with ReadTimeout _ => true | _ => false end.

(** [ErrorToString]; dereferencing an absent timeout is undefined. *)
Definition sse_error_string (undefined : string) (e : SseError) : string :=
  match e with
  | InvalidRedirectLocation location =>
      "received invalid redirect from server, cannot follow (" +:+ location +:+ ") - giving up permanently"
  | NotRedirectable => "received malformed redirect from server, cannot follow - giving up permanently"
  | ReadTimeout timeout =>
      "timed out reading response body (exceeded " +:+
      match timeout with Some t => to_string t | None => undefined end +:+ "ms) - will retry"
  | UnrecoverableClientError status =>
      "received HTTP error " +:+ to_string status +:+
      (if (status =? 401) || (status =? 403) then " (invalid auth key)" else EmptyString) +:+
      " for streaming connection - giving up permanently"
  end.

(** [FDv2StreamingSynchronizer::State] with the requests made of the stream client. *)
Record StreamState := mkStream {
  protocol_handler_ : FDv2ProtocolHandler;
  started_ : bool;
  st_closed_ : bool;
  latest_fdv1_fallback_ : option FDv1FallbackDirective;
  latest_selector_ : Selector;
  sse_client_ : bool;
  st_queue : ResultQueue;
  st_restarts : list string;
  st_notified : list FDv2SourceResult;
}.

Definition new_stream : StreamState := mkStream new_handler false false None None false empty_queue [] [].

Section Streaming.
Context {B : BoostJson} {J : JsonText} (undefined : string) (now : Z).
Implicit Types (s : StreamState).

Definition with_handler (h : FDv2ProtocolHandler) s : StreamState :=
  mkStream h (started_ s) (st_closed_ s) (latest_fdv1_fallback_ s) (latest_selector_ s) (sse_client_ s)
    (st_queue s) (st_restarts s) (st_notified s).

(** [Notify] *)
Definition Notify (result : FDv2SourceResult) s : StreamState :=
  let result := match fdv1_fallback result with
                | Some _ => result
                | None => mkSourceResult (sr_value result) (latest_fdv1_fallback_ s)
                end in
  mkStream (protocol_handler_ s) (started_ s) (st_closed_ s) (latest_fdv1_fallback_ s) (latest_selector_ s)
    (sse_client_ s) (queue_notify result (st_queue s)) (st_restarts s) (st_notified s ++ [result]).

(** [if (sse_client_) sse_client_->async_restart(reason)] *)
Definition restart (reason : string) s : StreamState :=
  if sse_client_ s then
    mkStream (protocol_handler_ s) (started_ s) (st_closed_ s) (latest_fdv1_fallback_ s) (latest_selector_ s)
      (sse_client_ s) (st_queue s) (st_restarts s ++ [reason]) (st_notified s)
  else s.

(** [EnsureStarted]: [url_ok] and [client_ok] say whether the URL parses and the client
    could be built. *)
Definition EnsureStarted (selector : Selector) (url_ok client_ok : bool) s : StreamState :=
  let s := mkStream (protocol_handler_ s) (started_ s) (st_closed_ s) (latest_fdv1_fallback_ s) selector
             (sse_client_ s) (st_queue s) (st_restarts s) (st_notified s) in
  if st_closed_ s || started_ s then s
  else
    let s := mkStream (protocol_handler_ s) true (st_closed_ s) (latest_fdv1_fallback_ s) (latest_selector_ s)
               (sse_client_ s) (st_queue s) (st_restarts s) (st_notified s) in
    if negb url_ok then
      Notify (plain_result (ResTerminalError (MakeError now StatusErrorKind.kNetworkError 0
        "could not parse streaming endpoint URL"))) s
    else if negb client_ok then
      Notify (plain_result (ResTerminalError (MakeError now StatusErrorKind.kNetworkError 0
        "could not build SSE client"))) s
    else
      mkStream (protocol_handler_ s) (started_ s) (st_closed_ s) (latest_fdv1_fallback_ s) (latest_selector_ s)
        true (st_queue s) (st_restarts s) (st_notified s).

(** [OnResponse] *)
Definition OnResponse (headers : list (string * string)) s : StreamState :=
  mkStream (protocol_handler_ s) (started_ s) (st_closed_ s) (ReadFDv1FallbackDirective headers) (latest_selector_ s)
    (sse_client_ s) (st_queue s) (st_restarts s) (st_notified s).

(** What a result of the protocol handler is reported as. *)
Definition stream_outcome (r : Result) : option FDv2SourceResult :=
  match r with
  | RNothing => None
  | RChangeSet cs =>
      Some (match TranslateChangeSet cs with
            | Some typed => plain_result (ResChangeSet typed)
            | None => interrupted_result now StatusErrorKind.kInvalidData 0
                        "FDv2 streaming changeset could not be translated"
            end)
  | RGoodbye g => Some (goodbye_result g)
  | RError e =>
      Some (match error_kind e with
            | ErrorKind.kServerError => interrupted_result now StatusErrorKind.kErrorResponse 0 (server_error_message e)
            | _ => interrupted_result now StatusErrorKind.kInvalidData 0 (error_message e)
            end)
  end.

(** [OnEvent] *)
Definition OnEvent (event : string * string) s : StreamState :=
  if negb (IsKnownEvent event.1) then s
  else
    match parse event.2 with
    | None =>
        restart "FDv2 parse error"
          (Notify (interrupted_result now StatusErrorKind.kInvalidData 0 "could not parse FDv2 streaming event payload")
             (with_handler (Reset (protocol_handler_ s)) s))
    | Some data =>
        let '(h, r) := HandleEvent event.1 data (protocol_handler_ s) in
        let s := with_handler h s in
        let s := match stream_outcome r with Some result => Notify result s | None => s end in
        match r with
        | RGoodbye _ => restart "FDv2 goodbye received" (with_handler (Reset (protocol_handler_ s)) s)
        | RError e =>
            match error_kind e with ErrorKind.kServerError => s | _ => restart "FDv2 protocol error" s end
        | _ => s
        end
    end.

(** [OnError] *)
Definition OnError (error : SseError) s : StreamState :=
  let s := with_handler (Reset (protocol_handler_ s)) s in
  let msg := sse_error_string undefined error in
  if IsRecoverable error then Notify (interrupted_result now StatusErrorKind.kNetworkError 0 msg) s
  else
    Notify (plain_result (ResTerminalError
      (match error with
       | UnrecoverableClientError status => MakeError now StatusErrorKind.kErrorResponse status msg
       | _ => MakeError now StatusErrorKind.kNetworkError 0 msg
       end))) s.

(** [Next], with [State::Next]; once closed it returns a shutdown at once ([None]). *)
Definition StreamNext (selector : Selector) (url_ok client_ok : bool) s : StreamState * option nat :=
  if st_closed_ s then (s, None)
  else
    let s := EnsureStarted selector url_ok client_ok s in
    let '(q, p) := queue_next (st_queue s) in
    (mkStream (protocol_handler_ s) (started_ s) (st_closed_ s) (latest_fdv1_fallback_ s) (latest_selector_ s)
       (sse_client_ s) q (st_restarts s) (st_notified s), Some p).

(** [Close]: [Shutdown], and the waiting [Next] clears its promise. *)
Definition StreamClose s : StreamState :=
  mkStream (protocol_handler_ s) (started_ s) true (latest_fdv1_fallback_ s) (latest_selector_ s)
    false (queue_clear (st_queue s)) (st_restarts s) (st_notified s).
End Streaming.

(** ** The FDv1 adapter *)

(** [ConvertingDestination::Init] and [Upsert]: an FDv1 update as a change set. *)
Definition adapter_Init `{!HashOrder} (data_set : SDKDataSet) : ChangeSet ChangeSetData :=
  mkChangeSet ChangeSetType.kFull
    (((λ kd, FlagChange kd.1 kd.2) <$> iterate (ds_flags data_set)) ++
     ((λ kd, SegmentChange kd.1 kd.2) <$> iterate (ds_segments data_set))) None.

Definition adapter_UpsertFlag (key : string) (flag : FlagDescriptor) : ChangeSet ChangeSetData :=
  mkChangeSet ChangeSetType.kPartial [FlagChange key flag] None.
Definition adapter_UpsertSegment (key : string) (segment : SegmentDescriptor) : ChangeSet ChangeSetData :=
  mkChangeSet ChangeSetType.kPartial [SegmentChange key segment] None.

(** The subscription to the FDv1 source's status. *)
Definition adapter_status (status : DataSourceStatus ServerState.t) : option FDv2SourceResult :=
  match status_last_error status with
  | None => None
  | Some error =>
      match status_state status with
      | ServerState.kInterrupted | ServerState.kInitializing => Some (plain_result (ResInterrupted error))
      | ServerState.kOff => Some (plain_result (ResTerminalError error))
      | ServerState.kValid => None
      end
  end.

(** [FDv1AdapterSynchronizer]: whether [close_promise_] is resolved, whether the source was
    started and shut down, and the queue. *)
Record Adapter := mkAdapter {
  ad_closed : bool;
  ad_started : bool;
  ad_source_running : bool;
  ad_queue : ResultQueue;
}.

Definition new_adapter : Adapter := mkAdapter false false false empty_queue.

Definition adapter_Notify (result : FDv2SourceResult) (a : Adapter) : Adapter :=
  if ad_closed a then a
  else mkAdapter (ad_closed a) (ad_started a) (ad_source_running a) (queue_notify result (ad_queue a)).

(** [Next]; once closed it returns a shutdown without a promise of the queue. *)
Definition adapter_Next (a : Adapter) : Adapter * option nat :=
  if ad_closed a then (a, None)
  else
    let running := if ad_started a then ad_source_running a else true in
    let '(q, p) := queue_next (ad_queue a) in
    (mkAdapter (ad_closed a) true running q, Some p).

(** [Close]; the promise waited for resolves as a shutdown. *)
Definition adapter_Close (a : Adapter) : Adapter :=
  if ad_closed a then a
  else
    let q := ad_queue a in
    let q := match pending_promise_ q with
             | Some p => mkQueue None (result_queue_ q) (next_promise q)
                           (delivered_results q ++ [(p, plain_result ResShutdown)])
             | None => q
             end in
    mkAdapter true true (if ad_started a then false else ad_source_running a) q.

(** ** Lemmas: the queue *)

(** Everything notified was delivered or is queued, in order, to distinct promises; nobody
    waits while something is queued. *)
Record QueueOk (notified : list FDv2SourceResult) (q : ResultQueue) : Prop := {
  q_order : (delivered_results q).*2 ++ result_queue_ q = notified;
  q_idle : is_Some (pending_promise_ q) → result_queue_ q = [];
  q_once : NoDup (delivered_results q).*1;
  q_old : ∀ p, p ∈ (delivered_results q).*1 → (p < next_promise q)%nat;
  q_pending : ∀ p, pending_promise_ q = Some p → (p < next_promise q)%nat ∧ p ∉ (delivered_results q).*1;
}.

Lemma queue_notify_ok l q r : QueueOk l q → QueueOk (l ++ [r]) (queue_notify r q).
Proof.
  intros []. unfold queue_notify. destruct (pending_promise_ q) as [p|] eqn:E; split; simpl; try done.
  - rewrite fmap_app, <- q_order0, q_idle0 by done. by rewrite !app_nil_r.
  - rewrite fmap_app. apply NoDup_app. destruct (q_pending0 p eq_refl). split_and!; [done| |apply NoDup_singleton].
    intros x Hx ->%list_elem_of_singleton. done.
  - intros x. rewrite fmap_app. intros [Hx| ->%list_elem_of_singleton]%elem_of_app; [auto|]. by apply q_pending0.
  - by rewrite <- q_order0, app_assoc.
Qed.

Lemma queue_next_ok l q : QueueOk l q → QueueOk l (queue_next q).1.
Proof.
  intros []. unfold queue_next. destruct (result_queue_ q) as [|r rest] eqn:E; split; simpl; try done.
  - intros p Hp. apply q_old0 in Hp. lia.
  - intros p [= <-]. split; [lia|]. intros Hp%q_old0. lia.
  - rewrite fmap_app, <- q_order0. simpl. by rewrite <- app_assoc.
  - intros Hp. by apply q_idle0 in Hp.
  - rewrite fmap_app. apply NoDup_app. split_and!; [done| |apply NoDup_singleton].
    intros x Hx ->%list_elem_of_singleton. apply q_old0 in Hx. simpl in Hx. lia.
  - intros x. rewrite fmap_app. intros [Hx| ->%list_elem_of_singleton]%elem_of_app; [apply q_old0 in Hx; lia|simpl; lia].
  - intros p Hp. assert (is_Some (pending_promise_ q)) as Hs by (by eexists). by apply q_idle0 in Hs.
Qed.

Lemma queue_clear_ok l q : QueueOk l q → QueueOk l (queue_clear q).
Proof. intros []. split; simpl; try done. Qed.

(** ** Lemmas: the stream *)

Section StreamLemmas.
Context {B : BoostJson} {J : JsonText} (undefined : string).

(** The operations on a stream, by its user and by its client. *)
Inductive StreamOp :=
| SNext (selector : Selector) (url_ok client_ok : bool)
| SResponse (headers : list (string * string))
| SEvent (event : string * string)
| SError (error : SseError)
| SClose.

Definition stream_step (op : StreamOp) (now : Z) (s : StreamState) : StreamState :=
  match op with
  | SNext selector url_ok client_ok => (StreamNext now selector url_ok client_ok s).1
  | SResponse headers => OnResponse headers s
  | SEvent event => OnEvent now event s
  | SError error => OnError undefined now error s
  | SClose => StreamClose s
  end.

Definition run_stream (ops : list (StreamOp * Z)) (s : StreamState) : StreamState :=
  foldl (λ s op, stream_step op.1 op.2 s) s ops.

Definition StreamOk (s : StreamState) : Prop := QueueOk (st_notified s) (st_queue s).

Lemma Notify_ok r s : StreamOk s → StreamOk (Notify r s).
Proof. apply queue_notify_ok. Qed.

Lemma restart_stream_ok reason s : StreamOk s → StreamOk (restart reason s).
Proof. unfold restart. by destruct (sse_client_ s). Qed.

Lemma stream_step_ok op now s : StreamOk s → StreamOk (stream_step op now s).
Proof.
  intros H. destruct op as [selector url_ok client_ok|headers|event|error|]; cbn [stream_step].
  - unfold StreamNext. destruct (st_closed_ s); [done|].
    assert (StreamOk (EnsureStarted now selector url_ok client_ok s)) as H1.
    { unfold EnsureStarted. cbv zeta. destruct (_ || _); [done|]. destruct url_ok; [|by apply Notify_ok].
      by destruct client_ok; [|apply Notify_ok]. }
    apply queue_next_ok in H1. by destruct (queue_next _).
  - done.
  - unfold OnEvent. destruct (negb _); [done|]. destruct (parse event.2) as [data|].
    + destruct (HandleEvent event.1 data _) as [h r]. cbv zeta.
      assert (StreamOk (match stream_outcome now r with Some result => Notify result (with_handler h s)
        | None => with_handler h s end)) as H1.
      { destruct (stream_outcome now r); [by apply Notify_ok|done]. }
      destruct r as [| |e|g]; try done; [|by apply restart_stream_ok].
      by destruct (error_kind e); try apply restart_stream_ok.
    + by apply restart_stream_ok, Notify_ok.
  - unfold OnError. cbv zeta. by destruct (IsRecoverable error); apply Notify_ok.
  - by apply queue_clear_ok.
Qed.

Lemma run_stream_ok ops s : StreamOk s → StreamOk (run_stream ops s).
Proof. revert s. induction ops as [|op ops IH]; intros s H; [done|]. by apply IH, stream_step_ok. Qed.

(** The directive a notification is completed with. *)
Definition completed (latest : option FDv1FallbackDirective) (r : FDv2SourceResult) : FDv2SourceResult :=
  match fdv1_fallback r with Some _ => r | None => mkSourceResult (sr_value r) latest end.

Lemma restart_same reason s :
  protocol_handler_ (restart reason s) = protocol_handler_ s ∧ st_notified (restart reason s) = st_notified s ∧
  latest_fdv1_fallback_ (restart reason s) = latest_fdv1_fallback_ s.
Proof. unfold restart. by destruct (sse_client_ s). Qed.

Lemma goodbye_resets event_type data h h' g :
  HandleEvent event_type data h = (h', RGoodbye g) → h' = Reset h'.
Proof.
  unfold HandleEvent. repeat (destruct (str_eqb event_type _)); try done;
    unfold HandleServerIntent, HandlePutObject, HandleDeleteObject, HandlePayloadTransferred, HandleError, HandleGoodbye;
    repeat case_match; intros; by simplify_eq.
Qed.

Lemma unknown_ignored event_type data h : IsKnownEvent event_type = false → HandleEvent event_type data h = (h, RNothing).
Proof.
  unfold IsKnownEvent, HandleEvent. rewrite !orb_false_iff. intros (((((-> & ->) & ->) & ->) & ->) & ->). done.
Qed.

(** An event whose data parses does to the stream what it does to the protocol handler. *)
Lemma OnEvent_spec now event data s :
  parse event.2 = Some data →
  let '(h, r) := HandleEvent event.1 data (protocol_handler_ s) in
  protocol_handler_ (OnEvent now event s) = h ∧
  latest_fdv1_fallback_ (OnEvent now event s) = latest_fdv1_fallback_ s ∧
  st_notified (OnEvent now event s) =
    st_notified s ++ option_list (completed (latest_fdv1_fallback_ s) <$> stream_outcome now r).
Proof.
  intros Hp. unfold OnEvent. rewrite Hp. destruct (IsKnownEvent event.1) eqn:Hk; simpl.
  2: { rewrite unknown_ignored by done. simpl. by rewrite app_nil_r. }
  destruct (HandleEvent event.1 data (protocol_handler_ s)) as [h r] eqn:E. cbv zeta.
  destruct r as [|cs|e|g]; cbn [stream_outcome fmap option_fmap option_map option_list].
  - simpl. by rewrite app_nil_r.
  - done.
  - destruct (error_kind e); destruct (restart_same "FDv2 protocol error"
      (Notify (interrupted_result now StatusErrorKind.kInvalidData 0 (error_message e)) (with_handler h s))) as (H1 & H2 & H3); try done;
      by rewrite H1, H2, H3.
  - match goal with |- context [restart ?m ?x] => destruct (restart_same m x) as (H1 & H2 & H3) end.
    rewrite H1, H2, H3. split_and!; [|done|done]. simpl. symmetry. by eapply goodbye_resets.
Qed.

Lemma events_spec now (events : list (string * string)) data s :
  Forall2 (λ e d, parse e.2 = Some d) events data →
  let '(h, rs) := HandleEvents (zip events.*1 data) (protocol_handler_ s) in
  let s' := foldl (λ s e, OnEvent now e s) s events in
  protocol_handler_ s' = h ∧
  st_notified s' = st_notified s ++ (completed (latest_fdv1_fallback_ s) <$> omap (stream_outcome now) rs).
Proof.
  intros HF. revert s. induction HF as [|e d events data He HF IH]; intros s; simpl; [by rewrite app_nil_r|].
  pose proof (OnEvent_spec now e d s He) as H1.
  destruct (HandleEvent e.1 d (protocol_handler_ s)) as [h r]. destruct H1 as (H1 & H2 & H3).
  specialize (IH (OnEvent now e s)). rewrite H1 in IH.
  change (list_fmap (string * string)%type string fst events) with (events.*1).
  destruct (HandleEvents (zip events.*1 data) h) as [h' rs]. destruct IH as [IH1 IH2]. split; [done|].
  rewrite IH2, H3, H2. cbn [omap list_omap]. destruct (stream_outcome now r); simpl; [by rewrite <- app_assoc|by rewrite app_nil_r].
Qed.
End StreamLemmas.

(** ** Lemmas: polling *)

Lemma head_elem {A} (l : list A) x : head l = Some x → x ∈ l.
Proof. destruct l; intros; simplify_eq/=. by left. Qed.

(** A poll is the first outcome of the events in order. *)
Lemma poll_events_first {B : BoostJson} now events h :
  ParseFDv2PollEvents now events h =
  default (interrupted_result now StatusErrorKind.kInvalidData 0 kErrorIncompletePayload)
    (head (omap (poll_outcome now) (HandleEvents (omap poll_event events) h).2)).
Proof.
  revert h. induction events as [|j events IH]; intros h; [done|]. cbn [ParseFDv2PollEvents omap list_omap].
  destruct (poll_event j) as [[event_type data]|]; [|apply IH]. cbn [HandleEvents].
  destruct (HandleEvent event_type data h) as [h1 r]. specialize (IH h1).
  change (list_omap json (string * json)%type poll_event events) with (omap poll_event events).
  destruct (HandleEvents (omap poll_event events) h1) as [h2 rs]. cbn [snd omap list_omap].
  by destruct (poll_outcome now r).
Qed.

(** ** Lemmas: the adapter *)

Lemma foldl_flag_changes (l : list (string * FlagDescriptor)) st :
  NoDup l.*1 →
  foldl Memory.apply_change st ((λ kd, FlagChange kd.1 kd.2) <$> l) =
  mkMemoryStore (list_to_map l ∪ flags_ st) (segments_ st) (initialized_ st).
Proof.
  revert st. induction l as [|[k d] l IH]; intros st Hnd; simpl.
  { rewrite (left_id_L ∅ (∪)). by destruct st. }
  rewrite fmap_cons in Hnd. apply NoDup_cons in Hnd as [Hk Hnd]. rewrite IH by done. simpl. f_equal.
  rewrite <- insert_union_r by (by apply not_elem_of_list_to_map_1). by rewrite insert_union_l.
Qed.

Lemma foldl_segment_changes (l : list (string * SegmentDescriptor)) st :
  NoDup l.*1 →
  foldl Memory.apply_change st ((λ kd, SegmentChange kd.1 kd.2) <$> l) =
  mkMemoryStore (flags_ st) (list_to_map l ∪ segments_ st) (initialized_ st).
Proof.
  revert st. induction l as [|[k d] l IH]; intros st Hnd; simpl.
  { rewrite (left_id_L ∅ (∪)). by destruct st. }
  rewrite fmap_cons in Hnd. apply NoDup_cons in Hnd as [Hk Hnd]. rewrite IH by done. simpl. f_equal.
  rewrite <- insert_union_r by (by apply not_elem_of_list_to_map_1). by rewrite insert_union_l.
Qed.

Lemma iterate_map `{!HashOrder} {A} (m : gmap string A) :
  NoDup (iterate m).*1 ∧ list_to_map (iterate m) = m.
Proof.
  assert (NoDup (iterate m).*1) as Hnd.
  { rewrite (iterate_perm m). apply NoDup_fst_map_to_list. }
  split; [done|]. rewrite <- (list_to_map_to_list m) at 2. apply list_to_map_proper; [done|]. apply iterate_perm.
Qed.

(** ** Properties *)

(** The stream loses and reorders nothing: whatever the interleaving of the user's calls
    and the client's callbacks, the results delivered to [Next] followed by those queued
    are the results notified, in order, each delivered to a promise of its own, and no
    caller waits while a result is queued. *)
Theorem stream_results_in_order {B : BoostJson} {J : JsonText} (undefined : string) (ops : list (StreamOp * Z)) :
  let s := run_stream undefined ops new_stream in
  (delivered_results (st_queue s)).*2 ++ result_queue_ (st_queue s) = st_notified s ∧
  NoDup (delivered_results (st_queue s)).*1 ∧
  (is_Some (pending_promise_ (st_queue s)) → result_queue_ (st_queue s) = []).
Proof.
  intros s. destruct (run_stream_ok undefined ops new_stream) as []; [|done].
  split; simpl; try done; [constructor|by intros p ?%not_elem_of_nil].
Qed.

(** The stream refines the protocol handler: for events whose data is JSON the handler
    ends in the state that [HandleEvents] gives, and what is notified are the outcomes of
    its results, in order, each completed with the directive of the last response. *)
Theorem stream_refines_handler {B : BoostJson} {J : JsonText} (now : Z) (events : list (string * string))
    (data : list json) (s : StreamState) (Hparse : Forall2 (λ e d, parse e.2 = Some d) events data) :
  let s' := foldl (λ s e, OnEvent now e s) s events in
  let '(h, rs) := HandleEvents (zip events.*1 data) (protocol_handler_ s) in
  protocol_handler_ s' = h ∧
  st_notified s' = st_notified s ++ (completed (latest_fdv1_fallback_ s) <$> omap (stream_outcome now) rs).
Proof. exact (events_spec now events data s Hparse). Qed.

Lemma stream_refines_handler_witness :
  let event := ("goodbye", @serialize reference_text (JObject [("reason", JString "bye")])) in
  let s' := @OnEvent reference_boost_json reference_text 5 event new_stream in
  st_notified s' = [plain_result (ResGoodbye (Some "bye"))].
Proof.
  cbv zeta.
  destruct (@stream_refines_handler reference_boost_json reference_text 5
    [("goodbye", @serialize reference_text (JObject [("reason", JString "bye")]))]
    [JObject [("reason", JString "bye")]] new_stream) as [_ H].
  { constructor; [vm_compute; reflexivity|constructor]. }
  exact H.
Defined.

(** How a poll is interpreted: only a response with a client-error status other than 400,
    408 and 429 is terminal; a transport failure never carries a directive; a 304 is an
    empty change set; a 200 with an events array is the first outcome of the protocol
    handler over the events; and a directive in the body takes precedence over the header's. *)
Theorem poll_response_spec {B : BoostJson} {J : JsonText} (now : Z) (res : HttpResponse) (h : FDv2ProtocolHandler) :
  let result := HandleFDv2PollResponse now res h in
  ((∃ e, sr_value result = ResTerminalError e) ↔
    res_IsError res = false ∧ 400 ≤ res_Status res ≤ 499 ∧
    res_Status res ≠ 400 ∧ res_Status res ≠ 408 ∧ res_Status res ≠ 429) ∧
  (res_IsError res = true → fdv1_fallback result = None) ∧
  (res_IsError res = false → res_Status res = 304 →
    sr_value result = ResChangeSet (mkChangeSet ChangeSetType.kNone [] None)) ∧
  (∀ body obj events, res_IsError res = false → res_Status res = 200 → res_Body res = Some body →
    parse body = Some (JObject obj) → obj_find "events" obj = Some (JArray events) →
    let first := default (interrupted_result now StatusErrorKind.kInvalidData 0 kErrorIncompletePayload)
      (head (omap (poll_outcome now) (HandleEvents (omap poll_event events) h).2)) in
    sr_value result = sr_value first ∧
    fdv1_fallback result =
      match fdv1_fallback first with Some d => Some d | None => ReadFDv1FallbackDirective (res_Headers res) end).
Proof.
  intros result. subst result. unfold HandleFDv2PollResponse.
  destruct (res_IsError res).
  { split_and!; try done. split; [by intros [? ?]|by intros []]. }
  assert (∀ body, ∃ v d, ParseFDv2PollResponse now body h = mkSourceResult v d ∧ ∀ e, v ≠ ResTerminalError e) as Hbody.
  { intros body. unfold ParseFDv2PollResponse. repeat case_match; try (by eexists _, _).
    rewrite poll_events_first. destruct (head _) as [r|] eqn:Hh; [|by eexists _, _].
    apply head_elem, list_elem_of_omap in Hh as (x & _ & Hx). destruct r as [v d]. exists v, d. split; [done|].
    intros e ->. unfold poll_outcome, goodbye_result, interrupted_result, plain_result in Hx. by repeat case_match; simplify_eq/=. }
  destruct (Z.eqb_spec (res_Status res) 304) as [E304|N304].
  { split_and!; try done; [split; [by intros [? ?]|lia]|lia]. }
  destruct (Z.eqb_spec (res_Status res) 200) as [E200|N200].
  { split_and!; try done.
    - split; [|lia]. intros [e He]. exfalso. destruct (res_Body res) as [body|]; [|done].
      destruct (Hbody body) as (v & d & Hv & Hne). rewrite Hv in He. simpl in He. destruct d; by apply (Hne e).
    - intros body obj events _ _ -> Hp Ho. cbv zeta. unfold ParseFDv2PollResponse. rewrite Hp, Ho, poll_events_first.
      by destruct (default _ _) as [v [d|]]. }
  unfold IsRecoverableStatus.
  destruct (Z.ltb_spec (res_Status res) 400), (Z.ltb_spec 499 (res_Status res)), (Z.eqb_spec (res_Status res) 400),
    (Z.eqb_spec (res_Status res) 408), (Z.eqb_spec (res_Status res) 429); simpl; split_and!; try done; try lia;
    (split; [by intros [? ?]|lia]) || (split; [lia|by eexists]).
Qed.

(** An FDv1 source behind the adapter means the same as without it: applying the change
    set converted from a data set is initializing the store with it, applying a converted
    upsert is the upsert, and no converted change set carries a selector. *)
Theorem fdv1_adapter_equiv `{!HashOrder} (data_set : SDKDataSet) (key : string) (flag : FlagDescriptor)
    (segment : SegmentDescriptor) (st : MemoryStore) :
  Memory.Apply (adapter_Init data_set) st = Memory.Init data_set st ∧
  Memory.Apply (adapter_UpsertFlag key flag) st = Memory.UpsertFlag key flag st ∧
  Memory.Apply (adapter_UpsertSegment key segment) st = Memory.UpsertSegment key segment st ∧
  cs_selector (adapter_Init data_set) = None.
Proof.
  split_and!; try done. unfold Memory.Apply, adapter_Init, Memory.Init. cbn [cs_type cs_data].
  rewrite foldl_app, !map_fold_emplace.
  destruct (iterate_map (ds_flags data_set)) as [N1 M1], (iterate_map (ds_segments data_set)) as [N2 M2].
  rewrite foldl_flag_changes, foldl_segment_changes by done. simpl.
  by rewrite M1, M2, !(right_id_L ∅ (∪)).
Qed.

(** Consecutive polls of a synchronizer start at least the interval, and never less than
    thirty seconds, apart. *)
Lemma polls_spaced interval last now start :
  last ≤ now → now + default 0 (CreatePollDelay interval (Some last) now) ≤ start →
  poll_interval_ interval ≤ start - last ∧ kMinPollInterval ≤ start - last.
Proof.
  unfold CreatePollDelay, poll_interval_. intros H1 H2.
  destruct (Z.leb_spec (Z.max interval kMinPollInterval) (now - last)); simpl in H2; lia.
Qed.
