(* ===== verification/Expirations.v ===== *)
(** * Expiration tracking

    libs/server-sdk/src/data_components/expiration_tracker: which keys of a cache are still
    fresh.  Keys are unscoped, or scoped by the kind of item.  Time points of the steady
    clock are integers. *)

From S2P Require Import Prelude DataModel Stores Dependencies Notifier.

Module TrackState.
Inductive t := kFresh | kStale | kNotTracked.
#[global] Instance eq_dec : EqDecision t.
Proof. solve_decision. Defined.
End TrackState.

(** [ScopedTtls]: an array with one map per kind. *)
Record ScopedTtls := mkScoped { flag_ttls : gmap string Z; segment_ttls : gmap string Z }.

Record ExpirationTracker := mkExpirations { unscoped_ : gmap string Z; scoped_ : ScopedTtls }.

Definition empty_expirations : ExpirationTracker := mkExpirations ∅ (mkScoped ∅ ∅).

Module Scoped.
Definition Data (kind : DataKind.t) (s : ScopedTtls) : gmap string Z :=
  match kind with DataKind.kFlag => flag_ttls s | DataKind.kSegment => segment_ttls s end.

Definition update (kind : DataKind.t) (f : gmap string Z → gmap string Z) (s : ScopedTtls) : ScopedTtls :=
  match kind with
  | DataKind.kFlag => mkScoped (f (flag_ttls s)) (segment_ttls s)
  | DataKind.kSegment => mkScoped (flag_ttls s) (f (segment_ttls s))
  end.

Definition Set_ (kind : DataKind.t) (key : string) (expiration : Z) : ScopedTtls → ScopedTtls :=
  update kind (insert key expiration).
Definition Remove (kind : DataKind.t) (key : string) : ScopedTtls → ScopedTtls := update kind (delete key).
Definition Get (kind : DataKind.t) (key : string) (s : ScopedTtls) : option Z := Data kind s !! key.
Definition Clear (s : ScopedTtls) : ScopedTtls := mkScoped ∅ ∅.
End Scoped.

Module Expiration.
(** [State(expiration, current_time)] *)
Definition state_at (expiration current_time : Z) : TrackState.t :=
  if current_time <? expiration then TrackState.kFresh else TrackState.kStale.

Definition state_of (expiration : option Z) (current_time : Z) : TrackState.t :=
  match expiration with Some e => state_at e current_time | None => TrackState.kNotTracked end.

Definition Add (key : string) (expiration : Z) (t : ExpirationTracker) : ExpirationTracker :=
  mkExpirations (<[key := expiration]> (unscoped_ t)) (scoped_ t).
Definition Remove (key : string) (t : ExpirationTracker) : ExpirationTracker :=
  mkExpirations (delete key (unscoped_ t)) (scoped_ t).
Definition State (key : string) (current_time : Z) (t : ExpirationTracker) : TrackState.t :=
  state_of (unscoped_ t !! key) current_time.

Definition AddScoped (kind : DataKind.t) (key : string) (expiration : Z) (t : ExpirationTracker) : ExpirationTracker :=
  mkExpirations (unscoped_ t) (Scoped.Set_ kind key expiration (scoped_ t)).
Definition RemoveScoped (kind : DataKind.t) (key : string) (t : ExpirationTracker) : ExpirationTracker :=
  mkExpirations (unscoped_ t) (Scoped.Remove kind key (scoped_ t)).
Definition StateScoped (kind : DataKind.t) (key : string) (current_time : Z) (t : ExpirationTracker) : TrackState.t :=
  state_of (Scoped.Get kind key (scoped_ t)) current_time.

Definition Clear (t : ExpirationTracker) : ExpirationTracker := mkExpirations ∅ (Scoped.Clear (scoped_ t)).

Section Prune.
Context `{HashOrder}.

Definition stale_keys (current_time : Z) (m : gmap string Z) : list string :=
  fst <$> filter (λ kv, state_at kv.2 current_time = TrackState.kStale) (iterate m).

Definition remove_pruned (t : ExpirationTracker) (item : option DataKind.t * string) : ExpirationTracker :=
  match item.1 with Some kind => RemoveScoped kind item.2 t | None => Remove item.2 t end.

Definition Prune (current_time : Z) (t : ExpirationTracker)
    : ExpirationTracker * list (option DataKind.t * string) :=
  let pruned :=
    ((λ k, (None, k)) <$> stale_keys current_time (unscoped_ t)) ++
    ((λ k, (Some DataKind.kFlag, k)) <$> stale_keys current_time (flag_ttls (scoped_ t))) ++
    ((λ k, (Some DataKind.kSegment, k)) <$> stale_keys current_time (segment_ttls (scoped_ t))) in
  (foldl remove_pruned t pruned, pruned).
End Prune.
End Expiration.

(** ** Specification and lemmas *)

(** The expiration of a key under a scope ([None]: unscoped). *)
Definition expiration_of (scope : option DataKind.t) (key : string) (t : ExpirationTracker) : option Z :=
  match scope with None => unscoped_ t !! key | Some kind => Scoped.Get kind key (scoped_ t) end.

Lemma state_fresh e now : Expiration.state_of e now = TrackState.kFresh ↔ ∃ x, e = Some x ∧ now < x.
Proof.
  unfold Expiration.state_of, Expiration.state_at. destruct e as [x|].
  - destruct (Z.ltb_spec now x); [naive_solver|]. split; [done|]. intros (? & [= <-] & ?). lia.
  - naive_solver.
Qed.

Lemma scoped_get_update kind kind' f key s :
  Scoped.Get kind key (Scoped.update kind' f s) =
  if decide (kind = kind') then f (Scoped.Data kind s) !! key else Scoped.Get kind key s.
Proof. by destruct kind, kind'. Qed.

Lemma expiration_remove item scope key t :
  expiration_of scope key (Expiration.remove_pruned t item) =
  if decide (item = (scope, key)) then None else expiration_of scope key t.
Proof.
  destruct (decide (item = (scope, key))) as [->|Hne].
  - destruct scope as [kind|]; unfold Expiration.remove_pruned; simpl; [|by apply lookup_delete_eq].
    unfold Scoped.Remove. rewrite scoped_get_update, decide_True by done. by apply lookup_delete_eq.
  - destruct item as [[kind|] k], scope as [kind'|]; unfold Expiration.remove_pruned; simpl; [|done..|].
    + unfold Scoped.Remove. rewrite scoped_get_update. destruct (decide (kind' = kind)) as [->|]; [|done].
      rewrite lookup_delete_ne; [done|congruence].
    + rewrite lookup_delete_ne; [done|congruence].
Qed.

Lemma expiration_remove_all l scope key t :
  expiration_of scope key (foldl Expiration.remove_pruned t l) =
  if decide ((scope, key) ∈ l) then None else expiration_of scope key t.
Proof.
  revert t. induction l as [|item l IH]; intros t; [done|].
  cbn [foldl]. rewrite IH, expiration_remove. repeat case_decide; subst; try done.
  - exfalso. eauto using list_elem_of_further.
  - exfalso. eauto using list_elem_of_here.
  - exfalso. rewrite elem_of_cons in *. naive_solver.
Qed.

Lemma stale_keys_spec `{HashOrder} now (m : gmap string Z) key :
  key ∈ Expiration.stale_keys now m ↔ Expiration.state_of (m !! key) now = TrackState.kStale.
Proof.
  unfold Expiration.stale_keys. rewrite list_elem_of_fmap. split.
  - intros ([k e] & -> & Hin). apply list_elem_of_filter in Hin as [Hs Hin].
    rewrite iterate_perm, elem_of_map_to_list in Hin. simpl in *. by rewrite Hin.
  - intros Hs. destruct (m !! key) as [e|] eqn:E; [|done]. exists (key, e). split; [done|].
    apply list_elem_of_filter. split; [done|]. by rewrite iterate_perm, elem_of_map_to_list.
Qed.

(** Pruning reports and forgets exactly the stale keys of every scope. *)
Lemma prune_spec `{HashOrder} (now : Z) (t : ExpirationTracker) :
  ∀ scope key,
    ((scope, key) ∈ (Expiration.Prune now t).2 ↔
      Expiration.state_of (expiration_of scope key t) now = TrackState.kStale) ∧
    expiration_of scope key (Expiration.Prune now t).1 =
      (if decide (Expiration.state_of (expiration_of scope key t) now = TrackState.kStale) then None
       else expiration_of scope key t).
Proof.
  intros scope key. set (pruned := (Expiration.Prune now t).2).
  assert ((scope, key) ∈ pruned ↔ Expiration.state_of (expiration_of scope key t) now = TrackState.kStale) as Hin.
  { unfold pruned, Expiration.Prune. simpl. rewrite !elem_of_app, !list_elem_of_fmap.
    destruct scope as [[]|]; unfold expiration_of, Scoped.Get, Scoped.Data; rewrite <- stale_keys_spec; naive_solver. }
  split; [exact Hin|].
  change (Expiration.Prune now t).1 with (foldl Expiration.remove_pruned t pruned).
  rewrite expiration_remove_all. repeat case_decide; naive_solver.
Qed.
