(* ===== verification/LazyLoads.v ===== *)
(** * The lazy-load data system

    libs/server-sdk/src/data_systems/lazy_load/lazy_load_system.hpp/.cpp: items are read from
    a source when they are asked for, and kept for a time to live.  The source is outside:
    each call is given what the source would answer at that moment, and the readings of the
    clocks the call makes.  A reader may throw (a malformed stored item does), which ends the
    call. *)

From S2P Require Import Prelude DataModel Stores Dependencies Notifier StatusManager Expirations.
From S2P Require Import Json JsonModel Persistence.
From stdpp Require Import sorting.
#[local] Open Scope Z_scope.

(** ** [IDataReader] *)

(** An answer; [None] is an exception. *)
Definition Answer (A : Type) : Type := option (expected A string).

Record DataReader := mkReader {
  rd_GetFlag : string → Answer (option FlagDescriptor);
  rd_GetSegment : string → Answer (option SegmentDescriptor);
  rd_AllFlags : Answer (gmap string FlagDescriptor);
  rd_AllSegments : Answer (gmap string SegmentDescriptor);
  rd_Initialized : bool;
}.

(** [ISerializedDataReader]: a database source, and [JsonDeserializer] over it. *)
Record SerializedReader := mkSerializedReader {
  ser_Get : DataKind.t → string → expected (option SerializedItemDescriptor) string;
  ser_All : DataKind.t → expected (list (string * SerializedItemDescriptor)) string;
  ser_Initialized : bool;
}.

Definition JsonDeserializer `{BoostJson, JsonText} (source_ : SerializedReader) : DataReader :=
  mkReader (λ key, DeserializeSingle (ser_Get source_ DataKind.kFlag key))
    (λ key, DeserializeSingle (ser_Get source_ DataKind.kSegment key))
    (DeserializeCollection (ser_All source_ DataKind.kFlag))
    (DeserializeCollection (ser_All source_ DataKind.kSegment))
    (ser_Initialized source_).

(** What the reader was asked, when (the time the expiry was computed from), and what it
    answered. *)
Inductive Asked (T : Type) :=
| AskedItem (key : string) (at_ : Z) (answer : Answer (option T))
| AskedAll (at_ : Z) (answer : Answer (gmap string T)).
Arguments AskedItem {T} _ _ _.
Arguments AskedAll {T} _ _.

(** ** State *)

(** The members, then the history of the questions put to the reader, which nothing reads. *)
Record LazyLoad := mkLazy {
  cache_ : MemoryStore;
  tracker_ : ExpirationTracker;
  lz_initialized_ : option bool;
  lz_status : StatusManager ServerState.t;
  flag_log : list (Asked FlagDescriptor);
  segment_log : list (Asked SegmentDescriptor);
  init_log : list (Z * bool);
}.

Definition kAllFlags : string := "allFlags".
Definition kAllSegments : string := "allSegments".
Definition kInitialized : string := "initialized".

Definition new_lazy_load (now : Z) : LazyLoad :=
  mkLazy empty_memory_store empty_expirations None (new_status_manager now) [] [] [].

(** The clocks during a call: the steady clock when the state of the key is looked up and
    when the expiry is computed, and the system clock. *)
Record Reading := mkReading { checked : Z; added : Z; wall : Z }.

Definition set_cache (c : MemoryStore) (s : LazyLoad) : LazyLoad :=
  mkLazy c (tracker_ s) (lz_initialized_ s) (lz_status s) (flag_log s) (segment_log s) (init_log s).
Definition set_tracker (t : ExpirationTracker) (s : LazyLoad) : LazyLoad :=
  mkLazy (cache_ s) t (lz_initialized_ s) (lz_status s) (flag_log s) (segment_log s) (init_log s).
Definition set_lazy_status (m : StatusManager ServerState.t) (s : LazyLoad) : LazyLoad :=
  mkLazy (cache_ s) (tracker_ s) (lz_initialized_ s) m (flag_log s) (segment_log s) (init_log s).
Definition log_flag (e : Asked FlagDescriptor) (s : LazyLoad) : LazyLoad :=
  mkLazy (cache_ s) (tracker_ s) (lz_initialized_ s) (lz_status s) (flag_log s ++ [e]) (segment_log s) (init_log s).
Definition log_segment (e : Asked SegmentDescriptor) (s : LazyLoad) : LazyLoad :=
  mkLazy (cache_ s) (tracker_ s) (lz_initialized_ s) (lz_status s) (flag_log s) (segment_log s ++ [e]) (init_log s).

Section System.
Context {HO : HashOrder} (fresh_duration_ : Z).
Implicit Types (s : LazyLoad) (r : Reading) (reader : DataReader).

Definition ExpiryTime r : Z := added r + fresh_duration_.

(** [Get]; an exception of [refresh] leaves the call without a result. *)
Definition Get {R} (state : TrackState.t) (refresh : LazyLoad → LazyLoad * bool) (get : LazyLoad → R) s
    : LazyLoad * option R :=
  match state with
  | TrackState.kStale | TrackState.kNotTracked =>
      let '(s, completed) := refresh s in (s, if completed then Some (get s) else None)
  | TrackState.kFresh => (s, Some (get s))
  end.

(** What a refresh does with the outcome: report it and, if it has data, use them. *)
Definition with_answer {A} (answer : Answer A) (use : A → LazyLoad → LazyLoad) r s : LazyLoad * bool :=
  match answer with
  | None => (s, false)
  | Some (Val a) => (use a (set_lazy_status (SetState ServerState.kValid (wall r) (lz_status s)) s), true)
  | Some (Unexpected error) =>
      (set_lazy_status (SetStateKind ServerState.kInterrupted StatusErrorKind.kUnknown error (wall r) (lz_status s)) s,
       true)
  end.

Definition RefreshItem {T} (kind : DataKind.t) (key : string) (answer : Answer (option T))
    (upsert : string → T → MemoryStore → MemoryStore) (evictor : string → MemoryStore → MemoryStore * bool) r s
    : LazyLoad * bool :=
  let s := set_tracker (Expiration.AddScoped kind key (ExpiryTime r) (tracker_ s)) s in
  with_answer answer
    (λ optional_item s,
       match optional_item with
       | Some item => set_cache (upsert key item (cache_ s)) s
       | None => set_cache (evictor key (cache_ s)).1 s
       end) r s.

(** The loop of [RefreshAll]. *)
Definition refresh_each {T} (kind : DataKind.t) (upsert : string → T → MemoryStore → MemoryStore)
    (updated_expiry : Z) s (item : string * T) : LazyLoad :=
  set_tracker (Expiration.AddScoped kind item.1 updated_expiry (tracker_ s))
    (set_cache (upsert item.1 item.2 (cache_ s)) s).

Definition RefreshAll {T} (all_item_key : string) (item_kind : DataKind.t) (answer : Answer (gmap string T))
    (upsert : string → T → MemoryStore → MemoryStore) r s : LazyLoad * bool :=
  let updated_expiry := ExpiryTime r in
  let s := set_tracker (Expiration.Add all_item_key updated_expiry (tracker_ s)) s in
  with_answer answer (λ all_items s, foldl (refresh_each item_kind upsert updated_expiry) s (iterate all_items)) r s.

Definition RefreshFlag reader (key : string) r s : LazyLoad * bool :=
  RefreshItem DataKind.kFlag key (rd_GetFlag reader key) Memory.UpsertFlag Memory.RemoveFlag r
    (log_flag (AskedItem key (added r) (rd_GetFlag reader key)) s).

Definition RefreshSegment reader (key : string) r s : LazyLoad * bool :=
  RefreshItem DataKind.kSegment key (rd_GetSegment reader key) Memory.UpsertSegment Memory.RemoveSegment r
    (log_segment (AskedItem key (added r) (rd_GetSegment reader key)) s).

Definition RefreshAllFlags reader r s : LazyLoad * bool :=
  RefreshAll kAllFlags DataKind.kFlag (rd_AllFlags reader) Memory.UpsertFlag r
    (log_flag (AskedAll (added r) (rd_AllFlags reader)) s).

Definition RefreshAllSegments reader r s : LazyLoad * bool :=
  RefreshAll kAllSegments DataKind.kSegment (rd_AllSegments reader) Memory.UpsertSegment r
    (log_segment (AskedAll (added r) (rd_AllSegments reader)) s).

Definition RefreshInitState reader r s : LazyLoad :=
  mkLazy (cache_ s) (Expiration.Add kInitialized (ExpiryTime r) (tracker_ s)) (Some (rd_Initialized reader))
    (lz_status s) (flag_log s) (segment_log s) (init_log s ++ [(added r, rd_Initialized reader)]).

Definition GetFlag reader (key : string) r s : LazyLoad * option (option FlagDescriptor) :=
  Get (Expiration.StateScoped DataKind.kFlag key (checked r) (tracker_ s))
    (RefreshFlag reader key r) (λ s, Memory.GetFlag (cache_ s) key) s.

Definition GetSegment reader (key : string) r s : LazyLoad * option (option SegmentDescriptor) :=
  Get (Expiration.StateScoped DataKind.kSegment key (checked r) (tracker_ s))
    (RefreshSegment reader key r) (λ s, Memory.GetSegment (cache_ s) key) s.

Definition AllFlags reader r s : LazyLoad * option (gmap string FlagDescriptor) :=
  Get (Expiration.State kAllFlags (checked r) (tracker_ s))
    (RefreshAllFlags reader r) (λ s, Memory.AllFlags (cache_ s)) s.

Definition AllSegments reader r s : LazyLoad * option (gmap string SegmentDescriptor) :=
  Get (Expiration.State kAllSegments (checked r) (tracker_ s))
    (RefreshAllSegments reader r) (λ s, Memory.AllSegments (cache_ s)) s.

Definition Initialized reader r s : LazyLoad * bool :=
  let state := Expiration.State kInitialized (checked r) (tracker_ s) in
  let refreshed := let s := RefreshInitState reader r s in (s, default false (lz_initialized_ s)) in
  match lz_initialized_ s with
  | Some true => (s, true)
  | Some false => if bool_decide (TrackState.kFresh = state) then (s, false) else refreshed
  | None => refreshed
  end.

(** [Initialize]; [start] is the system clock at its first statement. *)
Definition Initialize reader (start : Z) r s : LazyLoad * bool :=
  let s := set_lazy_status (SetState ServerState.kInitializing start (lz_status s)) s in
  let '(s, initialized) := Initialized reader r s in
  (if initialized then set_lazy_status (SetState ServerState.kValid (wall r) (lz_status s)) s else s, initialized).

(** ** Calls *)

Inductive Call :=
| CGetFlag (key : string)
| CGetSegment (key : string)
| CAllFlags
| CAllSegments
| CInitialized
| CInitialize (start : Z).

Inductive Returned :=
| RFlag (result : option (option FlagDescriptor))
| RSegment (result : option (option SegmentDescriptor))
| RFlags (result : option (gmap string FlagDescriptor))
| RSegments (result : option (gmap string SegmentDescriptor))
| RInitialized (result : bool)
| RVoid.

Definition lazy_call (c : Call) r reader s : LazyLoad * Returned :=
  match c with
  | CGetFlag key => let '(s, x) := GetFlag reader key r s in (s, RFlag x)
  | CGetSegment key => let '(s, x) := GetSegment reader key r s in (s, RSegment x)
  | CAllFlags => let '(s, x) := AllFlags reader r s in (s, RFlags x)
  | CAllSegments => let '(s, x) := AllSegments reader r s in (s, RSegments x)
  | CInitialized => let '(s, x) := Initialized reader r s in (s, RInitialized x)
  | CInitialize start => ((Initialize reader start r s).1, RVoid)
  end.

Fixpoint run_lazy (calls : list (Call * Reading * DataReader)) s : LazyLoad * list (Returned * ServerState.t) :=
  match calls with
  | [] => (s, [])
  | (c, r, reader) :: calls =>
      let '(s, x) := lazy_call c r reader s in
      let '(s', l) := run_lazy calls s in
      (s', (x, sm_state_ (lz_status s)) :: l)
  end.
End System.

(** ** Specification: the history of questions is all there is to know *)

Section History.
Context {T : Type} (ttl : Z).
Implicit Types (log : list (Asked T)) (e : Asked T).

(** What an answer teaches: the item, its absence, or all the items of the source. *)
Definition learn (items : gmap string T) e : gmap string T :=
  match e with
  | AskedItem key _ (Some (Val (Some item))) => <[key := item]> items
  | AskedItem key _ (Some (Val None)) => delete key items
  | AskedAll _ (Some (Val all_items)) => all_items ∪ items
  | _ => items
  end.

Definition known log : gmap string T := foldl learn ∅ log.

(** When the question covered [key]: a question about it, answered or not, or an answer
    about all items that has it. *)
Definition covers (key : string) e : option Z :=
  match e with
  | AskedItem k at_ _ => if str_eqb k key then Some at_ else None
  | AskedAll at_ (Some (Val all_items)) => if decide (is_Some (all_items !! key)) then Some at_ else None
  | _ => None
  end.

Definition covers_all e : option Z := match e with AskedAll at_ _ => Some at_ | _ => None end.

Definition due (t : option Z) (now : Z) : bool := match t with Some t => t + ttl <=? now | None => true end.

(** Whether the reader answered with data; [None] if it threw. *)
Definition answered e : option bool :=
  match e with
  | AskedItem _ _ (Some (Val _)) | AskedAll _ (Some (Val _)) => Some true
  | AskedItem _ _ (Some (Unexpected _)) | AskedAll _ (Some (Unexpected _)) => Some false
  | AskedItem _ _ None | AskedAll _ None => None
  end.

Definition outcome_status (st : ServerState.t) e : ServerState.t :=
  match answered e with
  | Some true => effective st ServerState.kValid
  | Some false => effective st ServerState.kInterrupted
  | None => st
  end.

(** A read: ask if it is due, then answer from the history. *)
Definition spec_read {R} (last_time : option Z) (now : Z) e (value : gmap string T → R) log (st : ServerState.t)
    : list (Asked T) * ServerState.t * option R :=
  if due last_time now then
    (log ++ [e], outcome_status st e,
     match answered e with Some _ => Some (value (known (log ++ [e]))) | None => None end)
  else (log, st, Some (value (known log))).
End History.

Record SpecState := mkSpec {
  sp_flags : list (Asked FlagDescriptor);
  sp_segments : list (Asked SegmentDescriptor);
  sp_init : list (Z * bool);
  sp_status : ServerState.t;
}.

Section Spec.
Context (ttl : Z).
Implicit Types (l : SpecState) (r : Reading) (reader : DataReader).

(** The source is asked whether it is initialized until it once said so. *)
Definition spec_initialized reader r l : SpecState * bool :=
  let init := if existsb snd (sp_init l) || negb (due ttl (fst <$> last (sp_init l)) (checked r)) then sp_init l
              else sp_init l ++ [(added r, rd_Initialized reader)] in
  (mkSpec (sp_flags l) (sp_segments l) init (sp_status l), existsb snd init).

Definition spec_call (c : Call) r reader l : SpecState * Returned :=
  match c with
  | CGetFlag key =>
      let '(log, st, x) := spec_read ttl (last (omap (covers key) (sp_flags l))) (checked r)
        (AskedItem key (added r) (rd_GetFlag reader key)) (lookup key) (sp_flags l) (sp_status l) in
      (mkSpec log (sp_segments l) (sp_init l) st, RFlag x)
  | CGetSegment key =>
      let '(log, st, x) := spec_read ttl (last (omap (covers key) (sp_segments l))) (checked r)
        (AskedItem key (added r) (rd_GetSegment reader key)) (lookup key) (sp_segments l) (sp_status l) in
      (mkSpec (sp_flags l) log (sp_init l) st, RSegment x)
  | CAllFlags =>
      let '(log, st, x) := spec_read ttl (last (omap covers_all (sp_flags l))) (checked r)
        (AskedAll (added r) (rd_AllFlags reader)) id (sp_flags l) (sp_status l) in
      (mkSpec log (sp_segments l) (sp_init l) st, RFlags x)
  | CAllSegments =>
      let '(log, st, x) := spec_read ttl (last (omap covers_all (sp_segments l))) (checked r)
        (AskedAll (added r) (rd_AllSegments reader)) id (sp_segments l) (sp_status l) in
      (mkSpec (sp_flags l) log (sp_init l) st, RSegments x)
  | CInitialized => let '(l, b) := spec_initialized reader r l in (l, RInitialized b)
  | CInitialize _ =>
      let '(l, b) := spec_initialized reader r
        (mkSpec (sp_flags l) (sp_segments l) (sp_init l) ServerState.kInitializing) in
      (mkSpec (sp_flags l) (sp_segments l) (sp_init l) (if b then ServerState.kValid else sp_status l), RVoid)
  end.

Fixpoint run_spec (calls : list (Call * Reading * DataReader)) l : SpecState * list (Returned * ServerState.t) :=
  match calls with
  | [] => (l, [])
  | (c, r, reader) :: calls =>
      let '(l, x) := spec_call c r reader l in
      let '(l', rs) := run_spec calls l in
      (l', (x, sp_status l) :: rs)
  end.
End Spec.

(** ** Refinement *)

Lemma known_snoc {T} (log : list (Asked T)) e : known (log ++ [e]) = learn (known log) e.
Proof. apply foldl_snoc. Qed.

Lemma last_omap_snoc {A B} (f : A → option B) l x :
  last (omap f (l ++ [x])) = match f x with Some y => Some y | None => last (omap f l) end.
Proof. rewrite omap_app. simpl. destruct (f x); [apply last_snoc|by rewrite app_nil_r]. Qed.

Section Kind.
Context {T : Type} (ttl : Z).
Implicit Types (log : list (Asked T)) (items : gmap string T) (ttls : gmap string Z).

(** The cache of one kind, its expirations, and the expiration of the key for all. *)
Record KindOk items ttls (all : option Z) log : Prop := {
  kind_items : items = known log;
  kind_ttls : ∀ key, ttls !! key = (λ t, t + ttl) <$> last (omap (covers key) log);
  kind_all : all = (λ t, t + ttl) <$> last (omap covers_all log);
}.

Lemma kind_item_asked items ttls all log key at_ answer :
  KindOk items ttls all log →
  KindOk (learn items (AskedItem key at_ answer)) (<[key := at_ + ttl]> ttls) all (log ++ [AskedItem key at_ answer]).
Proof.
  intros [-> Ht ->]. split.
  - by rewrite known_snoc.
  - intros k. rewrite last_omap_snoc. simpl. destruct (str_eqb key k) eqn:E.
    + apply str_eqb_eq in E as ->. by rewrite lookup_insert_eq.
    + apply str_eqb_neq in E. by rewrite lookup_insert_ne.
  - by rewrite last_omap_snoc.
Qed.

Lemma kind_all_asked items ttls all log at_ answer :
  KindOk items ttls all log →
  KindOk (learn items (AskedAll at_ answer))
    (match answer with Some (Val m) => ((λ _, at_ + ttl) <$> m) ∪ ttls | _ => ttls end)
    (Some (at_ + ttl)) (log ++ [AskedAll at_ answer]).
Proof.
  intros [-> Ht ->]. split.
  - by rewrite known_snoc.
  - intros k. rewrite last_omap_snoc. simpl. destruct answer as [[m|]|]; try apply Ht.
    destruct (m !! k) as [x|] eqn:E; simpl.
    + rewrite lookup_union, lookup_fmap, E. simpl. by destruct (ttls !! k).
    + rewrite <- Ht, lookup_union, lookup_fmap, E. simpl. by destruct (ttls !! k).
  - by rewrite last_omap_snoc.
Qed.

Lemma kind_state_due (e : option Z) (t : option Z) now :
  e = (λ t, t + ttl) <$> t →
  Expiration.state_of e now = TrackState.kFresh ∧ due ttl t now = false ∨
  Expiration.state_of e now ≠ TrackState.kFresh ∧ due ttl t now = true.
Proof.
  intros ->. destruct t as [t|]; simpl; unfold Expiration.state_at; [|by right].
  destruct (Z.ltb_spec now (t + ttl)), (Z.leb_spec (t + ttl) now); try lia; [by left|by right].
Qed.
End Kind.

Lemma foldl_insert_union {A B} `{HashOrder} (f : A → B) (m : gmap string A) (m0 : gmap string B) :
  foldl (λ acc kv, <[kv.1 := f kv.2]> acc) m0 (iterate m) = (f <$> m) ∪ m0.
Proof.
  assert (∀ l : list (string * A), NoDup l.*1 →
    foldl (λ acc kv, <[kv.1 := f kv.2]> acc) m0 l = (f <$> list_to_map l) ∪ m0) as Hl.
  { clear m. intros l. revert m0. induction l as [|[k x] l IH]; intros m0 Hnd; simpl.
    { by rewrite fmap_empty, (left_id_L ∅ _). }
    rewrite fmap_cons in Hnd. apply NoDup_cons in Hnd as [Hk Hnd]. rewrite IH by done.
    rewrite fmap_insert, <- insert_union_r, insert_union_l; [done|].
    rewrite lookup_fmap. by rewrite (proj1 (not_elem_of_list_to_map _ _)). }
  pose proof (iterate_perm m) as Hp.
  assert (NoDup (iterate m).*1) as Hnd by (rewrite Hp; apply NoDup_fst_map_to_list).
  rewrite Hl by done. rewrite (list_to_map_proper _ (map_to_list m)) by done. by rewrite list_to_map_to_list.
Qed.

(** How the loop of [RefreshAll] changes each kind. *)
Lemma refresh_flags `{HashOrder} e m s :
  foldl (refresh_each DataKind.kFlag Memory.UpsertFlag e) s (iterate m) =
  set_cache (mkMemoryStore (m ∪ flags_ (cache_ s)) (segments_ (cache_ s)) (initialized_ (cache_ s)))
    (set_tracker (mkExpirations (unscoped_ (tracker_ s))
       (mkScoped (((λ _, e) <$> m) ∪ flag_ttls (scoped_ (tracker_ s))) (segment_ttls (scoped_ (tracker_ s))))) s).
Proof.
  rewrite <- (map_fmap_id m) at 2. rewrite <- !foldl_insert_union. generalize (iterate m) as l. intros l. revert s.
  induction l as [|x l IH]; intros s; simpl; [by destruct s as [[] [? []] ?]|]. by rewrite IH.
Qed.

Lemma refresh_segments `{HashOrder} e m s :
  foldl (refresh_each DataKind.kSegment Memory.UpsertSegment e) s (iterate m) =
  set_cache (mkMemoryStore (flags_ (cache_ s)) (m ∪ segments_ (cache_ s)) (initialized_ (cache_ s)))
    (set_tracker (mkExpirations (unscoped_ (tracker_ s))
       (mkScoped (flag_ttls (scoped_ (tracker_ s))) (((λ _, e) <$> m) ∪ segment_ttls (scoped_ (tracker_ s))))) s).
Proof.
  rewrite <- (map_fmap_id m) at 2. rewrite <- !foldl_insert_union. generalize (iterate m) as l. intros l. revert s.
  induction l as [|x l IH]; intros s; simpl; [by destruct s as [[] [? []] ?]|]. by rewrite IH.
Qed.

Section Refine.
Context {HO : HashOrder} (ttl : Z).

(** The implementation state that a history stands for. *)
Record Refines (s : LazyLoad) (l : SpecState) : Prop := {
  ref_flag_log : flag_log s = sp_flags l;
  ref_segment_log : segment_log s = sp_segments l;
  ref_init_log : init_log s = sp_init l;
  ref_flags : KindOk ttl (flags_ (cache_ s)) (flag_ttls (scoped_ (tracker_ s))) (unscoped_ (tracker_ s) !! kAllFlags) (sp_flags l);
  ref_segments : KindOk ttl (segments_ (cache_ s)) (segment_ttls (scoped_ (tracker_ s)))
    (unscoped_ (tracker_ s) !! kAllSegments) (sp_segments l);
  ref_init_ttl : unscoped_ (tracker_ s) !! kInitialized = (λ t, t + ttl) <$> (fst <$> last (sp_init l));
  ref_initialized : lz_initialized_ s = snd <$> last (sp_init l);
  ref_init_once : existsb snd (sp_init l) = default false (lz_initialized_ s);
  ref_status : sm_state_ (lz_status s) = sp_status l;
}.

Lemma SetState_state (state : ServerState.t) now m : sm_state_ (SetState state now m) = effective (sm_state_ m) state.
Proof. unfold SetState. rewrite <- (UpdateState_state state now). by destruct (UpdateState _ _ _) as [? []]. Qed.

Lemma SetStateKind_state (state : ServerState.t) kind message now m :
  sm_state_ (SetStateKind state kind message now m) = effective (sm_state_ m) state.
Proof. apply (UpdateState_state state now m). Qed.

#[local] Opaque SetState SetStateKind.

Lemma get_fresh {R} state refresh (get : LazyLoad → R) s :
  state = TrackState.kFresh → Get state refresh get s = (s, Some (get s)).
Proof. by intros ->. Qed.

Lemma get_refreshed {R} state refresh (get : LazyLoad → R) s :
  state ≠ TrackState.kFresh →
  Get state refresh get s = ((refresh s).1, if (refresh s).2 then Some (get (refresh s).1) else None).
Proof. destruct state; [done|..]; intros _; simpl; by destruct (refresh s). Qed.

Definition call_refines (c : Call) r reader (s : LazyLoad) (l : SpecState) : Prop :=
  (lazy_call ttl c r reader s).2 = (spec_call ttl c r reader l).2 ∧
  Refines (lazy_call ttl c r reader s).1 (spec_call ttl c r reader l).1.

(** Closes the cases of an answer once the kind asked about is taken care of by [HK]. *)
Ltac refine_answer HK :=
  rewrite <- ?(kind_items _ _ _ _ _ HK); (split; [done|]); split; simpl;
  rewrite ?SetState_state, ?SetStateKind_state, ?lookup_insert_eq, ?lookup_insert_ne by done;
  congruence || done.

Lemma get_flag_refines key r reader s l : Refines s l → call_refines (CGetFlag key) r reader s l.
Proof.
  intros H. unfold call_refines. simpl. unfold GetFlag, spec_read.
  destruct (kind_state_due ttl _ _ (checked r) (kind_ttls _ _ _ _ _ (ref_flags _ _ H) key)) as [[Hs ->]|[Hs ->]].
  - rewrite get_fresh by done. split; [|by destruct l].
    simpl. unfold Memory.GetFlag. by rewrite (kind_items _ _ _ _ _ (ref_flags _ _ H)).
  - rewrite get_refreshed by done.
    pose proof (kind_item_asked ttl _ _ _ _ key (added r) (rd_GetFlag reader key) (ref_flags _ _ H)) as HK.
    destruct H. unfold RefreshFlag, RefreshItem, with_answer, outcome_status, Memory.GetFlag in *.
    destruct (rd_GetFlag reader key) as [[[d|]|err]|]; simpl in *; refine_answer HK.
Qed.

Lemma get_segment_refines key r reader s l : Refines s l → call_refines (CGetSegment key) r reader s l.
Proof.
  intros H. unfold call_refines. simpl. unfold GetSegment, spec_read.
  destruct (kind_state_due ttl _ _ (checked r) (kind_ttls _ _ _ _ _ (ref_segments _ _ H) key)) as [[Hs ->]|[Hs ->]].
  - rewrite get_fresh by done. split; [|by destruct l].
    simpl. unfold Memory.GetSegment. by rewrite (kind_items _ _ _ _ _ (ref_segments _ _ H)).
  - rewrite get_refreshed by done.
    pose proof (kind_item_asked ttl _ _ _ _ key (added r) (rd_GetSegment reader key) (ref_segments _ _ H)) as HK.
    destruct H. unfold RefreshSegment, RefreshItem, with_answer, outcome_status, Memory.GetSegment in *.
    destruct (rd_GetSegment reader key) as [[[d|]|err]|]; simpl in *; refine_answer HK.
Qed.

Lemma all_flags_refines r reader s l : Refines s l → call_refines CAllFlags r reader s l.
Proof.
  intros H. unfold call_refines. simpl. unfold AllFlags, spec_read.
  destruct (kind_state_due ttl _ _ (checked r) (kind_all _ _ _ _ _ (ref_flags _ _ H))) as [[Hs ->]|[Hs ->]].
  - rewrite get_fresh by done. split; [|by destruct l].
    simpl. unfold Memory.AllFlags. by rewrite (kind_items _ _ _ _ _ (ref_flags _ _ H)).
  - rewrite get_refreshed by done.
    pose proof (kind_all_asked ttl _ _ _ _ (added r) (rd_AllFlags reader) (ref_flags _ _ H)) as HK.
    destruct H. unfold RefreshAllFlags, RefreshAll, with_answer, outcome_status, Memory.AllFlags in *.
    destruct (rd_AllFlags reader) as [[m|err]|]; simpl in *; rewrite ?refresh_flags; simpl; refine_answer HK.
Qed.

Lemma all_segments_refines r reader s l : Refines s l → call_refines CAllSegments r reader s l.
Proof.
  intros H. unfold call_refines. simpl. unfold AllSegments, spec_read.
  destruct (kind_state_due ttl _ _ (checked r) (kind_all _ _ _ _ _ (ref_segments _ _ H))) as [[Hs ->]|[Hs ->]].
  - rewrite get_fresh by done. split; [|by destruct l].
    simpl. unfold Memory.AllSegments. by rewrite (kind_items _ _ _ _ _ (ref_segments _ _ H)).
  - rewrite get_refreshed by done.
    pose proof (kind_all_asked ttl _ _ _ _ (added r) (rd_AllSegments reader) (ref_segments _ _ H)) as HK.
    destruct H. unfold RefreshAllSegments, RefreshAll, with_answer, outcome_status, Memory.AllSegments in *.
    destruct (rd_AllSegments reader) as [[m|err]|]; simpl in *; rewrite ?refresh_segments; simpl; refine_answer HK.
Qed.

Lemma initialized_refines r reader s l :
  Refines s l →
  (Initialized ttl reader r s).2 = (spec_initialized ttl reader r l).2 ∧
  Refines (Initialized ttl reader r s).1 (spec_initialized ttl reader r l).1 ∧
  lz_status (Initialized ttl reader r s).1 = lz_status s.
Proof.
  intros H. pose proof (ref_init_once _ _ H) as Ho. pose proof (ref_init_ttl _ _ H) as Ht.
  assert (existsb snd (sp_init l) = false →
    rd_Initialized reader = existsb snd (sp_init l ++ [(added r, rd_Initialized reader)]) ∧
    Refines (RefreshInitState ttl reader r s)
      (mkSpec (sp_flags l) (sp_segments l) (sp_init l ++ [(added r, rd_Initialized reader)]) (sp_status l))) as Hask.
  { intros Hno. rewrite existsb_app, Hno. simpl. rewrite orb_false_r. split; [done|].
    destruct H. split; simpl; rewrite ?last_snoc, ?lookup_insert_eq, ?lookup_insert_ne, ?existsb_app, ?Hno by done;
      simpl; rewrite ?orb_false_r; congruence || done. }
  unfold Initialized, spec_initialized. rewrite Ho in *. destruct (lz_initialized_ s) as [[]|] eqn:Ei; simpl in *.
  - split; [by rewrite Ho|]. by destruct l.
  - destruct (kind_state_due ttl _ _ (checked r) Ht) as [[Hs ->]|[Hs ->]]; unfold Expiration.State.
    + rewrite bool_decide_true by done. simpl. rewrite Ho. split; [done|]. by destruct l.
    + rewrite bool_decide_false by congruence. simpl. destruct (Hask eq_refl). done.
  - pose proof (ref_initialized _ _ H) as Hi. rewrite Ei in Hi. destruct (last (sp_init l)) eqn:El; [done|].
    simpl. destruct (Hask eq_refl). done.
Qed.

Lemma lazy_call_refines c r reader s l : Refines s l → call_refines c r reader s l.
Proof.
  intros H. destruct c; eauto using get_flag_refines, get_segment_refines, all_flags_refines, all_segments_refines.
  - destruct (initialized_refines r reader s l H) as (He & HR & _). unfold call_refines. cbn [lazy_call spec_call].
    destruct (Initialized ttl reader r s), (spec_initialized ttl reader r l). simpl in *. by subst.
  - set (s0 := set_lazy_status (SetState ServerState.kInitializing start (lz_status s)) s).
    set (l0 := mkSpec (sp_flags l) (sp_segments l) (sp_init l) ServerState.kInitializing).
    assert (Refines s0 l0) as H0.
    { destruct H. split; simpl; try done. by rewrite SetState_state. }
    destruct (initialized_refines r reader s0 l0 H0) as (He & HR & Hst). unfold call_refines. cbn [lazy_call spec_call].
    unfold Initialize. fold s0 l0.
    destruct (Initialized ttl reader r s0) as [s1 b], (spec_initialized ttl reader r l0) as [l1 b']. simpl in *. subst b'.
    split; [done|]. destruct b; [|by destruct l1]. destruct HR. split; simpl; try done. by rewrite SetState_state.
Qed.

Lemma run_lazy_refines calls s l :
  Refines s l →
  (run_lazy ttl calls s).2 = (run_spec ttl calls l).2 ∧
  Refines (run_lazy ttl calls s).1 (run_spec ttl calls l).1.
Proof.
  revert s l. induction calls as [|[[c r] reader] calls IH]; intros s l H; simpl; [done|].
  destruct (lazy_call_refines c r reader s l H) as [He HR].
  destruct (lazy_call ttl c r reader s) as [s1 x], (spec_call ttl c r reader l) as [l1 y]. simpl in *. subst y.
  destruct (IH s1 l1 HR) as [He' HR']. pose proof (ref_status _ _ HR) as Hst.
  destruct (run_lazy ttl calls s1), (run_spec ttl calls l1). simpl in *. subst. by rewrite Hst.
Qed.

Lemma new_lazy_refines now :
  Refines (new_lazy_load now) (mkSpec [] [] [] ServerState.kInitializing).
Proof. split; simpl; try done; split; try done; intros; apply lookup_empty. Qed.
End Refine.

(** ** How often the source is asked *)

Definition asked_at {T} (e : Asked T) : Z := match e with AskedItem _ t _ | AskedAll t _ => t end.

(** Questions about one item. *)
Definition asks {T} (key : string) (e : Asked T) : option Z :=
  match e with AskedItem k t _ => if str_eqb k key then Some t else None | _ => None end.

Definition spaced (ttl : Z) : list Z → Prop := StronglySorted (λ a b, a + ttl ≤ b).

(** The steady clock does not go back. *)
Fixpoint clock_ok (now : Z) (calls : list (Call * Reading * DataReader)) : Prop :=
  match calls with
  | [] => True
  | (_, r, _) :: calls => now ≤ checked r ∧ checked r ≤ added r ∧ clock_ok (added r) calls
  end.

Lemma sorted_snoc {A} (R : A → A → Prop) l x :
  StronglySorted R l → (∀ y, y ∈ l → R y x) → StronglySorted R (l ++ [x]).
Proof.
  intros Hs Hx. apply StronglySorted_app_2; [|done|repeat constructor].
  intros y z Hy ->%list_elem_of_singleton. by apply Hx.
Qed.

Section Rate.
Context {T : Type} (ttl : Z).
Implicit Types (log : list (Asked T)).

Record LogOk (now : Z) log : Prop := {
  log_before : ∀ e, e ∈ log → asked_at e ≤ now;
  log_sorted : ∀ (f : Asked T → option Z), (∀ e t, f e = Some t → t = asked_at e) →
    ∀ a, a ∈ omap f log → ∃ t, last (omap f log) = Some t ∧ a ≤ t;
  log_items : ∀ key, spaced ttl (omap (asks key) log);
  log_alls : spaced ttl (omap covers_all log);
}.

Lemma log_ok_later now now' log : now ≤ now' → LogOk now log → LogOk now' log.
Proof. intros Hn []. split; try done. intros e He. specialize (log_before0 e He). lia. Qed.

Lemma asks_covers key (e : Asked T) t : asks key e = Some t → covers key e = Some t.
Proof. by destruct e. Qed.

Lemma covers_at key (e : Asked T) t : covers key e = Some t → t = asked_at e.
Proof. destruct e as [k at_ a|at_ [[m|]|]]; simpl; repeat case_match; congruence. Qed.

Lemma log_ok_snoc now log e :
  LogOk now log → now ≤ asked_at e →
  (∀ key t, asks key e = Some t → spaced ttl (omap (asks key) (log ++ [e]))) →
  (∀ t, covers_all e = Some t → spaced ttl (omap covers_all (log ++ [e]))) →
  LogOk (asked_at e) (log ++ [e]).
Proof.
  intros [Hb Hs Hi Ha] Hn Hki Hka. split.
  - intros x [Hx|Hx%list_elem_of_singleton]%elem_of_app; [|by subst]. specialize (Hb x Hx). lia.
  - intros f Hf a. rewrite last_omap_snoc, omap_app, elem_of_app. simpl. destruct (f e) as [t|] eqn:E.
    + apply Hf in E as ->. intros [Hin|Hin%list_elem_of_singleton].
      * apply list_elem_of_omap in Hin as (x & Hx & Hfx). apply Hf in Hfx as ->. specialize (Hb x Hx).
        eexists. split; [done|]. lia.
      * subst. eexists. split; [done|]. lia.
    + intros [Hin|Hin]; [by apply Hs|by apply not_elem_of_nil in Hin].
  - intros key. destruct (asks key e) as [t|] eqn:E; [by eapply Hki|]. rewrite omap_app. simpl. rewrite E.
    by rewrite app_nil_r.
  - destruct (covers_all e) as [t|] eqn:E; [by eapply Hka|]. rewrite omap_app. simpl. rewrite E.
    by rewrite app_nil_r.
Qed.

Lemma due_all_earlier f log now :
  (∀ e t, f e = Some t → t = asked_at e) → LogOk now log →
  ∀ checked a, due ttl (last (omap f log)) checked = true → a ∈ omap f log → a + ttl ≤ checked.
Proof.
  intros Hf H c a Hd Hin. destruct (log_sorted _ _ H f Hf a Hin) as (t & Hl & Ha).
  rewrite Hl in Hd. simpl in Hd. lia.
Qed.

Lemma log_ok_item now log key r answer :
  LogOk now log → now ≤ checked r → checked r ≤ added r →
  due ttl (last (omap (covers key) log)) (checked r) = true →
  LogOk (added r) (log ++ [AskedItem key (added r) answer]).
Proof.
  intros H Hn Hc Hd. apply (log_ok_snoc now _ (AskedItem key (added r) answer)); simpl; [done|lia| |done].
  intros k t Hk. destruct (str_eqb key k) eqn:E; [|done]. apply str_eqb_eq in E as ->.
  rewrite omap_app. simpl. rewrite str_eqb_refl. apply sorted_snoc; [apply H|].
  intros y (e & He & Ha)%list_elem_of_omap. apply asks_covers in Ha.
  pose proof (due_all_earlier (covers k) log now (covers_at k) H (checked r) y Hd) as Hy.
  specialize (Hy ltac:(apply list_elem_of_omap; eauto)). lia.
Qed.

Lemma log_ok_all now log r answer :
  LogOk now log → now ≤ checked r → checked r ≤ added r →
  due ttl (last (omap covers_all log)) (checked r) = true →
  LogOk (added r) (log ++ [AskedAll (added r) answer]).
Proof.
  intros H Hn Hc Hd. apply (log_ok_snoc now _ (AskedAll (added r) answer)); simpl; [done|lia|done|].
  intros t _. rewrite omap_app. apply sorted_snoc; [apply H|]. intros y Hy.
  eapply due_all_earlier in Hy; [|by intros [] ? [=]|done..]. lia.
Qed.
End Rate.

Section RateRun.
Context {HO : HashOrder} (ttl : Z).
Implicit Types (l : SpecState).

Record RateOk (now : Z) l : Prop := {
  rate_flags : LogOk ttl now (sp_flags l);
  rate_segments : LogOk ttl now (sp_segments l);
  rate_init : spaced ttl (sp_init l).*1;
  rate_init_last : ∀ a, a ∈ (sp_init l).*1 → ∃ x, last (sp_init l) = Some x ∧ a ≤ x.1 ∧ x.1 ≤ now;
}.

Lemma rate_later now now' l : now ≤ now' → RateOk now l → RateOk now' l.
Proof.
  intros Hn []. split; eauto using log_ok_later. intros a Ha.
  destruct (rate_init_last0 a Ha) as (x & Hx & ? & ?). exists x. split_and!; [done|done|lia].
Qed.

Lemma spec_initialized_rate reader r now l :
  RateOk now l → now ≤ checked r → checked r ≤ added r → RateOk (added r) (spec_initialized ttl reader r l).1.
Proof.
  intros H Hn Hc. apply (rate_later _ (checked r)) in H as [Hf Hs Hi Hl]; [|done]. unfold spec_initialized.
  destruct (existsb snd (sp_init l) || negb (due ttl (fst <$> last (sp_init l)) (checked r))) eqn:E; simpl.
  { eapply rate_later; [exact Hc|]. by split. }
  apply orb_false_iff in E as [_ E]. apply negb_false_iff in E.
  split; simpl; eauto using log_ok_later; rewrite fmap_app; simpl.
  - apply sorted_snoc; [done|]. intros a Ha. destruct (Hl a Ha) as (x & Hx & ? & ?). rewrite Hx in E. simpl in E. lia.
  - intros a Ha. exists (added r, rd_Initialized reader). rewrite last_snoc. split_and!; [done| |simpl; lia].
    apply elem_of_app in Ha as [Ha|Ha%list_elem_of_singleton]; [|simpl; lia].
    destruct (Hl a Ha) as (x & _ & ? & ?). simpl. lia.
Qed.

Lemma spec_call_rate c reader r now l :
  RateOk now l → now ≤ checked r → checked r ≤ added r → RateOk (added r) (spec_call ttl c r reader l).1.
Proof.
  intros H Hn Hc. pose proof H as [Hf Hs Hi Hl]. pose proof (rate_later now (added r) l ltac:(lia) H) as [Hf' Hs' _ Hl'].
  destruct c as [key|key| | | |start]; cbn [spec_call]; unfold spec_read.
  1-4: destruct (due _ _ _) eqn:E; simpl; split; simpl; eauto using log_ok_item, log_ok_all.
  - pose proof (spec_initialized_rate reader r now l H Hn Hc). by destruct (spec_initialized ttl reader r l).
  - pose proof (spec_initialized_rate reader r now (mkSpec (sp_flags l) (sp_segments l) (sp_init l) ServerState.kInitializing))
      as HI. destruct (spec_initialized _ _ _ _) as [l' b]. simpl in *.
    destruct HI as []; [by split|done..|]. by split.
Qed.

Lemma run_spec_rate calls now l : clock_ok now calls → RateOk now l → ∃ now', RateOk now' (run_spec ttl calls l).1.
Proof.
  revert now l. induction calls as [|[[c r] reader] calls IH]; intros now l Hc H; simpl; [by exists now|].
  destruct Hc as (Hn & Hr & Hc). pose proof (spec_call_rate c reader r now l H Hn Hr) as H'.
  destruct (spec_call ttl c r reader l) as [l' x]. simpl in *. destruct (IH _ _ Hc H') as [now' ?]. exists now'.
  by destruct (run_spec ttl calls l').
Qed.

Lemma empty_rate now : RateOk now (mkSpec [] [] [] ServerState.kInitializing).
Proof.
  split; simpl; [split..| |]; simpl; try (by constructor); intros; try (by constructor);
    exfalso; by eapply not_elem_of_nil.
Qed.
End RateRun.

(** ** Theorems *)

(** C28: the lazy-load system refines a history of questions: whatever is called, the results
    and the status are those of a specification that keeps only what the source was asked
    and what it answered.  A read asks the source exactly when nothing covered the key within
    the time to live, and returns what the answers so far teach: an error, or a source that
    throws, leaves the last known item in place, and a missing item is forgotten. *)
Theorem lazy_load_refines {HO : HashOrder} (ttl start : Z) (calls : list (Call * Reading * DataReader)) :
  let impl := run_lazy ttl calls (new_lazy_load start) in
  let spec := run_spec ttl calls (mkSpec [] [] [] ServerState.kInitializing) in
  impl.2 = spec.2 ∧ flag_log impl.1 = sp_flags spec.1 ∧ segment_log impl.1 = sp_segments spec.1 ∧
  flags_ (cache_ impl.1) = known (sp_flags spec.1) ∧ segments_ (cache_ impl.1) = known (sp_segments spec.1).
Proof.
  destruct (run_lazy_refines ttl calls _ _ (new_lazy_refines ttl start)) as [He HR]. simpl. split_and!; [done|apply HR..| |].
  - apply (ref_flags _ _ _ HR).
  - apply (ref_segments _ _ _ HR).
Qed.

(** The source is not asked more than once per time to live: as long as the steady clock
    does not go back, two questions about one flag or segment are at least that far apart,
    and so are two questions for all flags, for all segments, and for whether the source is
    initialized; and a read returns only what the source was asked about within the time to
    live. *)
Theorem lazy_load_rate_limit {HO : HashOrder} (ttl start now : Z) (calls : list (Call * Reading * DataReader))
    (Hclock : clock_ok now calls) :
  let s := (run_lazy ttl calls (new_lazy_load start)).1 in
  (∀ key, spaced ttl (omap (asks key) (flag_log s)) ∧ spaced ttl (omap (asks key) (segment_log s))) ∧
  spaced ttl (omap covers_all (flag_log s)) ∧ spaced ttl (omap covers_all (segment_log s)) ∧
  spaced ttl (fst <$> init_log s) ∧
  ∀ reader key r, checked r ≤ added r → 0 < ttl →
    ∃ t, last (omap (covers key) (flag_log (GetFlag ttl reader key r s).1)) = Some t ∧ checked r < t + ttl.
Proof.
  destruct (run_lazy_refines ttl calls _ _ (new_lazy_refines ttl start)) as [_ HR].
  destruct (run_spec_rate ttl calls now _ Hclock (empty_rate ttl now)) as [now' []].
  intros s. fold s in HR. rewrite (ref_flag_log _ _ _ HR), (ref_segment_log _ _ _ HR), (ref_init_log _ _ _ HR).
  split_and!; [|apply rate_flags0|apply rate_segments0|done|].
  { intros key. split; [apply rate_flags0|apply rate_segments0]. }
  intros reader key r Hr Ht. destruct (lazy_call_refines ttl (CGetFlag key) r reader _ _ HR) as [_ HR'].
  simpl in HR'. destruct (GetFlag ttl reader key r s) as [s' x]. simpl in *.
  rewrite (ref_flag_log _ _ _ HR'). unfold spec_read. destruct (due _ _ _) eqn:E; simpl.
  - rewrite last_omap_snoc. simpl. rewrite str_eqb_refl. eexists. split; [done|]. lia.
  - unfold due in E. destruct (last (omap (covers key) _)) as [t|]; [|done]. exists t. split; [done|]. lia.
Qed.

(** ** Over a database *)

(** A system that starts on a store which another SDK filled by [JsonDestination::Init]
    serves every flag of the data set in its stored form. *)
Lemma lazy_load_serves_persisted `{BoostJsonSpec} (J : JsonText) printable `{!JsonTextSpec J printable} {HO : HashOrder}
    (ds : SDKDataSet) (source_ : SerializedReader) (ttl start : Z) (r : Reading) :
  map_Forall (λ _ d, descriptor_ok (λ f, flag_ok f ∧ printable (from_Flag f)) d) (ds_flags ds) →
  ser_All source_ DataKind.kFlag = Val (Init ds).1 →
  (AllFlags ttl (JsonDeserializer source_) r (new_lazy_load start)).2 =
    Some (stored_descriptor stored_flag <$> ds_flags ds).
Proof.
  intros Hf Hs.
  assert (rd_AllFlags (JsonDeserializer source_) = Some (Val (stored_descriptor stored_flag <$> ds_flags ds))) as Hr.
  { simpl. rewrite Hs. eapply (namespace_roundtrip stored_flag); [|exact Hf]. by apply flag_text_read. }
  destruct (all_flags_refines ttl r (JsonDeserializer source_) _ _ (new_lazy_refines ttl start)) as [He _].
  cbn [lazy_call spec_call] in He. rewrite Hr in He. simpl in He.
  destruct (AllFlags ttl (JsonDeserializer source_) r (new_lazy_load start)) as [s x]. simpl in *.
  injection He as ->. unfold known. simpl. by rewrite (right_id_L ∅ (∪)).
Qed.

(** A stored item that is not JSON text throws out of the read, and, since the key was marked
    fresh before the source was asked, the same read just after returns no item and no error. *)
Lemma malformed_item_throws `{BoostJson} (J : JsonText) {HO : HashOrder} (key text : string)
    (source_ : SerializedReader) (start v : Z) :
  parse text = None → ser_Get source_ DataKind.kFlag key = Val (Some (mkSerialized v false text)) →
  let reader := JsonDeserializer source_ in
  let '(s, first) := GetFlag 100 reader key (mkReading 0 0 0) (new_lazy_load start) in
  first = None ∧ (GetFlag 100 reader key (mkReading 1 1 1) s).2 = Some None ∧
  sm_state_ (lz_status s) = ServerState.kInitializing.
Proof.
  intros Hp Hs.
  assert (rd_GetFlag (JsonDeserializer source_) key = None) as Hr.
  { simpl. rewrite Hs. unfold DeserializeSingle, DeserializeJsonDescriptor. simpl. by rewrite Hp. }
  set (reader := JsonDeserializer source_) in *. clearbody reader.
  unfold GetFlag at 1, RefreshFlag, RefreshItem, with_answer, Get, Expiration.StateScoped, Scoped.Get. rewrite Hr.
  cbn. rewrite lookup_empty. cbn. split_and!; [done| |done].
  unfold GetFlag, Get, Expiration.StateScoped, Scoped.Get. cbn. rewrite lookup_insert_eq. cbn.
  unfold Memory.GetFlag. cbn. by rewrite lookup_empty.
Qed.

(** Two flags, one of them asked for twice within the time to live, then once it is over. *)
Definition example_reader : DataReader :=
  mkReader (λ key, Some (Val (if str_eqb key "a" then Some (tombstone 3) else None)))
    (λ _, Some (Unexpected "no segments")) (Some (Val {[ "a" := tombstone 3 ]})) None true.

Definition example_calls : list (Call * Reading * DataReader) :=
  [(CGetFlag "a", mkReading 0 1 0, example_reader); (CGetFlag "a", mkReading 5 5 0, example_reader);
   (CGetFlag "b", mkReading 6 6 0, example_reader); (CGetFlag "a", mkReading 12 13 0, example_reader)].

Lemma lazy_load_rate_limit_witness :
  let s := (run_lazy 10 example_calls (new_lazy_load 0)).1 in
  omap (asks "a") (flag_log s) = [1; 13] ∧ spaced 10 (omap (asks "a") (flag_log s)).
Proof.
  split; [vm_compute; reflexivity|].
  apply (lazy_load_rate_limit 10 0 0 example_calls). unfold example_calls. simpl. lia.
Defined.
