(* ===== verification/MembershipCaches.v ===== *)
(** * The membership cache of Big Segments

    libs/server-sdk/src/data_components/big_segments/membership_cache.hpp/.cpp: a bounded
    cache with least-recently-used eviction whose entries expire.  The iterator that an entry
    keeps into the recency list points at the node of its own key, so the key stands for it. *)

From S2P Require Import Prelude EvalStack.

(** [Entry] without its iterator. *)
Record CacheEntry := mkEntry { ce_membership : Membership; expires_at : Z }.

Record MembershipCache := mkCache {
  capacity_ : nat;
  ttl_ : Z;
  recency_ : list string;
  entries_ : gmap string CacheEntry;
}.

Definition new_cache (capacity : nat) (ttl : Z) : MembershipCache := mkCache capacity ttl [] ∅.

Module Cache.
(** [recency_.erase(position)] *)
Definition unlink (key : string) (l : list string) : list string := filter (λ k, k ≠ key) l.

Definition Get (key : string) (now : Z) (c : MembershipCache) : MembershipCache * option Membership :=
  match entries_ c !! key with
  | None => (c, None)
  | Some e =>
      if expires_at e <=? now then
        (mkCache (capacity_ c) (ttl_ c) (unlink key (recency_ c)) (delete key (entries_ c)), None)
      else (mkCache (capacity_ c) (ttl_ c) (key :: unlink key (recency_ c)) (entries_ c), Some (ce_membership e))
  end.

Definition Set_ (key : string) (membership : Membership) (now : Z) (c : MembershipCache) : MembershipCache :=
  let entry := mkEntry membership (now + ttl_ c) in
  match entries_ c !! key with
  | Some _ => mkCache (capacity_ c) (ttl_ c) (key :: unlink key (recency_ c)) (<[key := entry]> (entries_ c))
  | None =>
      let recency := key :: recency_ c in
      let entries := <[key := entry]> (entries_ c) in
      if (capacity_ c <? size entries)%nat then
        match last recency with
        | Some lru_key => mkCache (capacity_ c) (ttl_ c) (removelast recency) (delete lru_key entries)
        | None => mkCache (capacity_ c) (ttl_ c) recency entries
        end
      else mkCache (capacity_ c) (ttl_ c) recency entries
  end.

Definition Clear (c : MembershipCache) : MembershipCache := mkCache (capacity_ c) (ttl_ c) [] ∅.
Definition Size (c : MembershipCache) : nat := size (entries_ c).
End Cache.

(** ** Specification: one list, most recently used first *)

Abbreviation Slot := (string * CacheEntry)%type.

Definition slot_of (key : string) (l : list Slot) : option CacheEntry :=
  snd <$> List.find (λ s, str_eqb (fst s) key) l.
Definition without (key : string) (l : list Slot) : list Slot := filter (λ s, s.1 ≠ key) l.

Definition spec_cache_get (key : string) (now : Z) (l : list Slot) : list Slot * option Membership :=
  match slot_of key l with
  | None => (l, None)
  | Some e => if expires_at e <=? now then (without key l, None)
              else ((key, e) :: without key l, Some (ce_membership e))
  end.

Definition spec_cache_set (capacity : nat) (ttl : Z) (key : string) (m : Membership) (now : Z) (l : list Slot)
    : list Slot :=
  take capacity ((key, mkEntry m (now + ttl)) :: without key l).

Inductive CacheOp := OpGet (key : string) | OpSet (key : string) (m : Membership) | OpClear.

Definition cache_op (op : CacheOp) (now : Z) (c : MembershipCache) : MembershipCache * option Membership :=
  match op with
  | OpGet key => Cache.Get key now c
  | OpSet key m => (Cache.Set_ key m now c, None)
  | OpClear => (Cache.Clear c, None)
  end.

Definition spec_cache_op (capacity : nat) (ttl : Z) (op : CacheOp) (now : Z) (l : list Slot)
    : list Slot * option Membership :=
  match op with
  | OpGet key => spec_cache_get key now l
  | OpSet key m => (spec_cache_set capacity ttl key m now l, None)
  | OpClear => ([], None)
  end.

Fixpoint run_cache (ops : list (CacheOp * Z)) (c : MembershipCache) : MembershipCache * list (option Membership) :=
  match ops with
  | [] => (c, [])
  | (op, now) :: ops =>
      let '(c, x) := cache_op op now c in let '(c, xs) := run_cache ops c in (c, x :: xs)
  end.

Fixpoint run_spec_cache (capacity : nat) (ttl : Z) (ops : list (CacheOp * Z)) (l : list Slot)
    : list Slot * list (option Membership) :=
  match ops with
  | [] => (l, [])
  | (op, now) :: ops =>
      let '(l, x) := spec_cache_op capacity ttl op now l in
      let '(l, xs) := run_spec_cache capacity ttl ops l in (l, x :: xs)
  end.

(** ** Refinement *)

Lemma slot_of_map key (l : list Slot) : slot_of key l = (list_to_map l : gmap string CacheEntry) !! key.
Proof.
  unfold slot_of. induction l as [|[k e] l IH]; simpl; [by rewrite lookup_empty|].
  destruct (str_eqb k key) eqn:E; [apply str_eqb_eq in E as ->; by rewrite lookup_insert_eq|].
  apply str_eqb_neq in E. by rewrite lookup_insert_ne.
Qed.

Lemma without_keys key (l : list Slot) : (without key l).*1 = Cache.unlink key l.*1.
Proof.
  unfold without, Cache.unlink. induction l as [|[k e] l IH]; [done|].
  rewrite fmap_cons, !filter_cons. cbn [fst]. destruct (decide (k ≠ key)); [|done]. by rewrite fmap_cons, IH.
Qed.

Lemma without_map key (l : list Slot) :
  (list_to_map (without key l) : gmap string CacheEntry) = delete key (list_to_map l).
Proof.
  unfold without. induction l as [|[k e] l IH]; simpl; [by rewrite delete_empty|].
  rewrite filter_cons. cbn [fst]. destruct (decide (k ≠ key)) as [Hne|Heq].
  - rewrite list_to_map_cons. cbn [fst snd]. by rewrite IH, delete_insert_ne.
  - apply dec_stable in Heq as ->. by rewrite IH, delete_insert_eq.
Qed.

Lemma without_absent key (l : list Slot) : key ∉ l.*1 → without key l = l.
Proof.
  unfold without. induction l as [|[k e] l IH]; intros Hk; [done|]. rewrite fmap_cons in Hk.
  apply not_elem_of_cons in Hk as [Hne Hk]. rewrite filter_cons, decide_True by (simpl in *; congruence). by rewrite IH.
Qed.

Lemma without_incl key (l : list Slot) : (length (without key l) ≤ length l)%nat.
Proof. apply length_filter. Qed.

Lemma without_length key (l : list Slot) : key ∈ l.*1 → (length (without key l) < length l)%nat.
Proof.
  intros (x & -> & Hx)%list_elem_of_fmap. apply length_filter_lt with x; [done|]. by intros H.
Qed.

Lemma NoDup_without key (l : list Slot) : NoDup l.*1 → NoDup (without key l).*1.
Proof. rewrite without_keys. apply NoDup_filter. Qed.

Lemma without_not_in key (l : list Slot) : key ∉ (without key l).*1.
Proof. rewrite without_keys. unfold Cache.unlink. rewrite list_elem_of_filter. by intros [? _]. Qed.

Record CacheRel (capacity : nat) (ttl : Z) (c : MembershipCache) (l : list Slot) : Prop := {
  rel_capacity : capacity_ c = capacity;
  rel_ttl : ttl_ c = ttl;
  rel_recency : recency_ c = l.*1;
  rel_entries : entries_ c = list_to_map l;
  rel_nodup : NoDup l.*1;
  rel_bound : (length l ≤ capacity)%nat;
}.

Lemma cache_get_refines capacity ttl key now c l :
  CacheRel capacity ttl c l →
  (Cache.Get key now c).2 = (spec_cache_get key now l).2 ∧
  CacheRel capacity ttl (Cache.Get key now c).1 (spec_cache_get key now l).1.
Proof.
  intros H. pose proof H as [Hc Ht Hr He Hn Hb]. unfold Cache.Get, spec_cache_get. rewrite slot_of_map, He.
  destruct (list_to_map l !! key) as [e|] eqn:E; [|done].
  pose proof (elem_of_list_to_map_2 _ _ _ E) as Hin.
  assert (key ∈ l.*1) as Hk by (apply list_elem_of_fmap; by exists (key, e)).
  destruct (expires_at e <=? now); simpl; (split; [done|]); split; simpl; try done.
  - by rewrite Hr, without_keys.
  - by rewrite without_map.
  - by apply NoDup_without.
  - pose proof (without_incl key l). lia.
  - by rewrite Hr, without_keys.
  - by rewrite without_map, insert_delete_id.
  - constructor; [apply without_not_in|by apply NoDup_without].
  - pose proof (without_length key l Hk). lia.
Qed.

(** Dropping the last of a full list is keeping its first entries. *)
Lemma take_removelast (l : list Slot) n :
  length l = S n → ∃ k e, l = take n l ++ [(k, e)] ∧ last l.*1 = Some k ∧ removelast l.*1 = (take n l).*1.
Proof.
  destruct l as [|[k e] l _] using rev_ind; [done|]. rewrite length_app. simpl. intros Hn.
  exists k, e. rewrite !fmap_app. change (([(k, e)] : list Slot).*1) with [k]. rewrite last_snoc, removelast_last.
  rewrite take_app_length' by lia. done.
Qed.

Lemma cache_set_refines capacity ttl key m now c l :
  CacheRel capacity ttl c l → CacheRel capacity ttl (Cache.Set_ key m now c) (spec_cache_set capacity ttl key m now l).
Proof.
  intros [Hc Ht Hr He Hn Hb]. unfold Cache.Set_, spec_cache_set. rewrite He, Hc, Ht, Hr.
  set (x := mkEntry m (now + ttl)). destruct (list_to_map l !! key) as [e|] eqn:E.
  - pose proof (elem_of_list_to_map_2 _ _ _ E) as Hin.
    assert (key ∈ l.*1) as Hk by (apply list_elem_of_fmap; by exists (key, e)).
    pose proof (without_length key l Hk). rewrite take_ge by (simpl; lia). split; simpl; try done.
    + by rewrite without_keys.
    + by rewrite without_map, insert_delete_eq.
    + constructor; [apply without_not_in|by apply NoDup_without].
    + lia.
  - assert (key ∉ l.*1) as Hk by (by apply not_elem_of_list_to_map_2). rewrite without_absent by done.
    assert (NoDup ((key, x) :: l).*1) as Hn' by (by constructor).
    change (<[key := x]> (list_to_map l)) with (list_to_map ((key, x) :: l) : gmap string CacheEntry).
    change (key :: l.*1) with (((key, x) :: l).*1).
    assert (size (list_to_map ((key, x) :: l) : gmap string CacheEntry) = S (length l)) as Hs.
    { rewrite <- length_map_to_list, map_to_list_to_map by done. done. }
    rewrite Hs. remember ((key, x) :: l) as l' eqn:El'. assert (length l' = S (length l)) as Hl' by (by subst).
    destruct (Nat.ltb_spec capacity (S (length l))) as [Hlt|Hge].
    + assert (length l = capacity) as Hl by lia. rewrite Hl in Hl'.
      destruct (take_removelast l' capacity Hl') as (k & e & Hsplit & -> & ->).
      rewrite Hsplit, fmap_app in Hn'. apply NoDup_app in Hn' as (Hn1 & Hd & _).
      assert (k ∉ (take capacity l').*1) as Hnot by (intros Hin; apply (Hd k Hin); by left).
      split; simpl; try done.
      * rewrite Hsplit at 1. rewrite list_to_map_app.
        rewrite delete_union. simpl. rewrite insert_empty, delete_singleton_eq, (right_id_L ∅ (∪)).
        apply delete_id. by apply not_elem_of_list_to_map_1.
      * rewrite length_take. lia.
    + rewrite take_ge by lia. split; simpl; try done. lia.
Qed.

Lemma run_cache_refines capacity ttl ops c l :
  CacheRel capacity ttl c l →
  (run_cache ops c).2 = (run_spec_cache capacity ttl ops l).2 ∧
  CacheRel capacity ttl (run_cache ops c).1 (run_spec_cache capacity ttl ops l).1.
Proof.
  revert c l. induction ops as [|[op now] ops IH]; intros c l H; simpl; [done|].
  assert ((cache_op op now c).2 = (spec_cache_op capacity ttl op now l).2 ∧
          CacheRel capacity ttl (cache_op op now c).1 (spec_cache_op capacity ttl op now l).1) as [He HR].
  { destruct op; simpl; [by apply cache_get_refines|split; [done|by apply cache_set_refines]|].
    split; [done|]. destruct H. split; simpl; try done; [constructor|lia]. }
  destruct (cache_op op now c) as [c1 x], (spec_cache_op capacity ttl op now l) as [l1 y]. simpl in *. subst y.
  destruct (IH c1 l1 HR) as [He' HR']. destruct (run_cache ops c1), (run_spec_cache capacity ttl ops l1).
  simpl in *. by subst.
Qed.

(** ** What a hit means *)

(** The membership last stored for a key, and when. *)
Definition note_set (key : string) (acc : option (Membership * Z)) (op : CacheOp * Z) : option (Membership * Z) :=
  match op.1 with
  | OpSet k m => if str_eqb k key then Some (m, op.2) else acc
  | OpClear => None
  | OpGet _ => acc
  end.

Definition last_set (key : string) (ops : list (CacheOp * Z)) : option (Membership * Z) :=
  foldl (note_set key) None ops.

Definition Sound (ttl : Z) (history : list (CacheOp * Z)) (l : list Slot) : Prop :=
  ∀ k e, (k, e) ∈ l → last_set k history = Some (ce_membership e, expires_at e - ttl).

Lemma elem_of_without key k e (l : list Slot) : (k, e) ∈ without key l ↔ k ≠ key ∧ (k, e) ∈ l.
Proof. unfold without. by rewrite list_elem_of_filter. Qed.

Lemma slot_of_elem key e (l : list Slot) : slot_of key l = Some e → (key, e) ∈ l.
Proof. rewrite slot_of_map. apply elem_of_list_to_map_2. Qed.

Lemma spec_cache_op_sound capacity ttl history op now l :
  Sound ttl history l → Sound ttl (history ++ [(op, now)]) (spec_cache_op capacity ttl op now l).1.
Proof.
  unfold Sound, last_set. intros H k e. rewrite foldl_app. cbn [foldl]. destruct op as [key|key m|]; simpl.
  - unfold spec_cache_get. destruct (slot_of key l) as [e'|] eqn:E; [|by apply H].
    destruct (expires_at e' <=? now); simpl; [intros [_ ?]%elem_of_without; by apply H|].
    rewrite elem_of_cons, elem_of_without. intros [[= -> ->]|[_ ?]]; apply H; [by apply slot_of_elem|done].
  - intros Hin. apply elem_of_take in Hin as (i & Hin & _). apply list_elem_of_lookup_2 in Hin.
    unfold note_set. simpl. apply elem_of_cons in Hin as [[= -> ->]|[Hne Hin]%elem_of_without].
    + rewrite str_eqb_refl. simpl. do 2 f_equal. lia.
    + rewrite (proj2 (str_eqb_neq key k)) by congruence. by apply H.
  - by intros ?%not_elem_of_nil.
Qed.

Lemma run_spec_cache_sound capacity ttl ops history l :
  Sound ttl history l → Sound ttl (history ++ ops) (run_spec_cache capacity ttl ops l).1.
Proof.
  revert history l. induction ops as [|[op now] ops IH]; intros history l H; simpl; [by rewrite app_nil_r|].
  pose proof (spec_cache_op_sound capacity ttl history op now l H) as H'.
  destruct (spec_cache_op capacity ttl op now l) as [l1 x]. simpl in *. specialize (IH _ _ H').
  rewrite <- app_assoc in IH. by destruct (run_spec_cache capacity ttl ops l1).
Qed.

Lemma new_cache_rel capacity ttl : CacheRel capacity ttl (new_cache capacity ttl) [].
Proof. split; simpl; try done; [constructor|lia]. Qed.

(** ** Theorem *)

(** The membership cache is a bounded LRU cache whose entries expire: under any sequence
    of calls it answers like one list ordered by use, cut at the capacity, that drops an
    expired entry when it is asked for; it never holds more than its capacity; and a hit is
    the membership last stored for the key, less than the time to live ago. *)
Theorem membership_cache_refines (capacity : nat) (ttl : Z) (ops : list (CacheOp * Z)) :
  let c := (run_cache ops (new_cache capacity ttl)).1 in
  (run_cache ops (new_cache capacity ttl)).2 = (run_spec_cache capacity ttl ops []).2 ∧
  (Cache.Size c ≤ capacity)%nat ∧
  ∀ key now m, (Cache.Get key now c).2 = Some m → ∃ t, last_set key ops = Some (m, t) ∧ now < t + ttl.
Proof.
  destruct (run_cache_refines capacity ttl ops _ _ (new_cache_rel capacity ttl)) as [He HR].
  assert (Sound ttl [] []) as H0 by (by intros ?? ?%not_elem_of_nil).
  pose proof (run_spec_cache_sound capacity ttl ops [] [] H0) as Hs. simpl. split_and!; [done| |].
  - unfold Cache.Size. rewrite (rel_entries _ _ _ _ HR), <- length_map_to_list, map_to_list_to_map by apply HR.
    apply HR.
  - intros key now m. destruct (cache_get_refines _ _ key now _ _ HR) as [-> _]. unfold spec_cache_get.
    destruct (slot_of key _) as [e|] eqn:E; [|done]. destruct (Z.leb_spec (expires_at e) now); [done|].
    intros [= <-]. apply slot_of_elem, Hs in E. eexists. split; [exact E|]. lia.
Qed.
