(* ===== verification/BigSegments.v ===== *)
(** * The Big Segment store wrapper

    libs/server-sdk/src/data_components/big_segments: big_segment_store_wrapper.hpp/.cpp,
    big_segments_status.hpp and big_segment_store_status_provider.cpp.  Evaluation threads
    call [GetMembership] concurrently with each other and with the background poll.  A thread
    is a position in that call; a step runs from one position to the next: a section under one
    of the mutexes, or a query of the store, which is made with no lock held and whose answer
    comes from outside.  A broadcast that follows a locked section belongs to its step.  The
    notification of a condition variable is not a step: a thread that waits may go on as soon
    as what it waits for holds, which its spurious or notified wake-up checks. *)

From S2P Require Import Prelude EvalStack MembershipCaches.

(** [BigSegmentStoreStatus] *)
Record StoreHealth := mkHealth { available : bool; stale : bool }.

#[global] Instance StoreHealth_eq_dec : EqDecision StoreHealth.
Proof. solve_decision. Defined.

(** [IBigSegmentStore::GetMembershipResult] and [::GetMetadataResult]. *)
Abbreviation StoreAnswer := (expected Membership string).
Abbreviation MetadataAnswer := (expected (option Z) string).

(** ** Threads *)

Inductive Position :=
| AtCache                                          (* before [cache_.Get] *)
| AtLoad                                           (* a miss: before [LoadMembership] *)
| Leading (query : nat)                            (* the store has been asked *)
| Answered (query : nat) (result : StoreAnswer)    (* before [cache_.Set] *)
| Publishing (query : nat) (result : StoreAnswer)  (* before [query->result = result] *)
| Cleaning (query : nat) (result : option StoreAnswer) (* in [~QueryCleanup]; [None]: it unwinds *)
| Unwinding (query : nat)                          (* in [~QueryCleanup], not completed, entry erased *)
| Waiting (query : nat)                            (* on [query->cv] *)
| Failed                                           (* before [MarkStoreUnavailable] *)
| AtStatus (m : Membership)                        (* before [GetStatus] *)
| AtOnce (m : Membership)                          (* before [call_once] *)
| FirstPoll (m : Membership)                       (* in [call_once]: metadata asked for *)
| AtRead (m : Membership)                          (* before [return *last_status_] *)
| Returned (result : GetMembershipResult)
| Threw.

#[global] Instance GetMembershipResult_eq_dec : EqDecision GetMembershipResult.
Proof. solve_decision. Defined.
#[global] Instance Position_eq_dec : EqDecision Position.
Proof. solve_decision. Defined.

Record Thread := mkThread { th_key : string; th_at : Position }.

Module Once.
Inductive t := kFree | kRunning | kDone.
#[global] Instance eq_dec : EqDecision t.
Proof. solve_decision. Defined.
End Once.

(** The members; the queries, which threads share by pointer, each with the key it is for
    (which nothing reads) and its result; then the threads, the broadcasts of
    [status_signal_], and the history of the answers of the store. *)
Record Wrapper := mkWrapper {
  wr_cache : MembershipCache;
  in_flight_ : gmap string nat;
  queries : gmap nat (string * option StoreAnswer);
  first_poll_once_ : Once.t;
  last_status_ : option StoreHealth;
  threads : gmap nat Thread;
  signals : list StoreHealth;
  answers : list (string * StoreAnswer);
}.

Definition new_wrapper (capacity : nat) (ttl : Z) : Wrapper :=
  mkWrapper (new_cache capacity ttl) ∅ ∅ Once.kFree None ∅ [] [].

Definition with_cache (c : MembershipCache) (w : Wrapper) : Wrapper :=
  mkWrapper c (in_flight_ w) (queries w) (first_poll_once_ w) (last_status_ w) (threads w) (signals w) (answers w).
Definition with_in_flight (m : gmap string nat) (w : Wrapper) : Wrapper :=
  mkWrapper (wr_cache w) m (queries w) (first_poll_once_ w) (last_status_ w) (threads w) (signals w) (answers w).
Definition with_query (q : nat) (key : string) (x : option StoreAnswer) (w : Wrapper) : Wrapper :=
  mkWrapper (wr_cache w) (in_flight_ w) (<[q := (key, x)]> (queries w)) (first_poll_once_ w) (last_status_ w) (threads w)
    (signals w) (answers w).
Definition with_once (o : Once.t) (w : Wrapper) : Wrapper :=
  mkWrapper (wr_cache w) (in_flight_ w) (queries w) o (last_status_ w) (threads w) (signals w) (answers w).
Definition with_thread (t : nat) (key : string) (p : Position) (w : Wrapper) : Wrapper :=
  mkWrapper (wr_cache w) (in_flight_ w) (queries w) (first_poll_once_ w) (last_status_ w)
    (<[t := mkThread key p]> (threads w)) (signals w) (answers w).
Definition with_answer (key : string) (x : StoreAnswer) (w : Wrapper) : Wrapper :=
  mkWrapper (wr_cache w) (in_flight_ w) (queries w) (first_poll_once_ w) (last_status_ w) (threads w) (signals w)
    (answers w ++ [(key, x)]).

(** ** Status *)

Section Wrapper.
Context (stale_after_ : Z).
Implicit Types (w : Wrapper) (t q : nat) (key : string) (now : Z).

Definition last_stale w : bool := match last_status_ w with Some s => stale s | None => false end.

(** The locked section shared by [MarkStoreUnavailable] and the poll, and the broadcast. *)
Definition update_status (new_status : StoreHealth) w : Wrapper :=
  let changed := negb (bool_decide (last_status_ w = Some new_status)) in
  mkWrapper (wr_cache w) (in_flight_ w) (queries w) (first_poll_once_ w) (Some new_status) (threads w)
    (if changed then signals w ++ [new_status] else signals w) (answers w).

Definition MarkStoreUnavailable w : Wrapper := update_status (mkHealth false (last_stale w)) w.

Definition IsStale (last_up_to_date now : Z) : bool := stale_after_ <=? now - last_up_to_date.

(** [PollStoreAndUpdateStatus], given the answer of [GetMetadata]. *)
Definition PollStoreAndUpdateStatus (metadata : MetadataAnswer) now w : Wrapper :=
  update_status
    match metadata with
    | Val (Some last_up_to_date) => mkHealth true (IsStale last_up_to_date now)
    | Val None => mkHealth true true
    | Unexpected _ => mkHealth false (last_stale w)
    end w.

(** ** [LoadMembership] *)

(** The section under [load_mutex_]: join the query in flight or lead a new one. *)
Definition enter_load t key w : Wrapper :=
  match in_flight_ w !! key with
  | Some q => with_thread t key (Waiting q) w
  | None =>
      let q := fresh (dom (queries w)) in
      with_thread t key (Leading q) (with_in_flight (<[key := q]> (in_flight_ w)) (with_query q key None w))
  end.

(** [~QueryCleanup]: the entry is dropped, then, if the leader did not complete, the waiters
    are given an error. *)
Definition kLeaderExited : string := "Big Segment lookup leader exited without setting a result".

Definition erase_in_flight key w : Wrapper := with_in_flight (delete key (in_flight_ w)) w.

Definition resign key q w : Wrapper :=
  match queries w !! q with
  | Some (_, None) => with_query q key (Some (Unexpected kLeaderExited)) w
  | _ => w
  end.

(** What [GetMembership] does with the result of [LoadMembership]. *)
Definition loaded t key (result : StoreAnswer) w : Wrapper :=
  match result with
  | Val m => with_thread t key (AtStatus m) w
  | Unexpected _ => with_thread t key Failed w
  end.

Definition result_of (m : Membership) (s : StoreHealth) : GetMembershipResult :=
  mkMembershipResult m (if stale s then StoreStatus.kStale else StoreStatus.kHealthy).

(** ** Steps *)

Inductive Step :=
| SCall (t : nat) (key : string)             (* a thread calls [GetMembership] *)
| SRun (t : nat) (now : Z)                   (* a thread runs to its next position *)
| SAnswer (t : nat) (result : StoreAnswer)   (* the store answers a leader *)
| SThrow (t : nat)                           (* a leader throws while it asks the store *)
| SMetadata (t : nat) (metadata : MetadataAnswer) (now : Z) (* the metadata of the first poll *)
| SPoll (metadata : MetadataAnswer) (now : Z). (* the background poll *)

Definition run_thread t key (p : Position) now w : option Wrapper :=
  match p with
  | AtCache =>
      let '(c, found) := Cache.Get key now (wr_cache w) in
      Some (with_thread t key (match found with Some m => AtStatus m | None => AtLoad end) (with_cache c w))
  | AtLoad => Some (enter_load t key w)
  | Answered q result =>
      let w := match result with
               | Val m => with_cache (Cache.Set_ key m now (wr_cache w)) w
               | Unexpected _ => w
               end in
      Some (with_thread t key (Publishing q result) w)
  | Publishing q result => Some (with_thread t key (Cleaning q (Some result)) (with_query q key (Some result) w))
  | Cleaning q (Some result) => Some (loaded t key result (erase_in_flight key w))
  | Cleaning q None => Some (with_thread t key (Unwinding q) (erase_in_flight key w))
  | Unwinding q => Some (with_thread t key Threw (resign key q w))
  | Waiting q => match queries w !! q with Some (_, Some result) => Some (loaded t key result w) | _ => None end
  | Failed =>
      Some (with_thread t key (Returned (mkMembershipResult (FromSegmentRefs [] []) StoreStatus.kStoreError))
              (MarkStoreUnavailable w))
  | AtStatus m =>
      match last_status_ w with
      | Some s => Some (with_thread t key (Returned (result_of m s)) w)
      | None => Some (with_thread t key (AtOnce m) w)
      end
  | AtOnce m =>
      match first_poll_once_ w with
      | Once.kFree => Some (with_thread t key (FirstPoll m) (with_once Once.kRunning w))
      | Once.kRunning => None
      | Once.kDone => Some (with_thread t key (AtRead m) w)
      end
  | AtRead m =>
      match last_status_ w with
      | Some s => Some (with_thread t key (Returned (result_of m s)) w)
      | None => None (* undefined: see [status_defined] *)
      end
  | Leading _ | FirstPoll _ | Returned _ | Threw => None
  end.

Definition step (e : Step) w : option Wrapper :=
  match e with
  | SCall t key => match threads w !! t with None => Some (with_thread t key AtCache w) | Some _ => None end
  | SRun t now => match threads w !! t with Some (mkThread key p) => run_thread t key p now w | None => None end
  | SAnswer t result =>
      match threads w !! t with
      | Some (mkThread key (Leading q)) =>
          Some (with_thread t key (Answered q result) (with_answer key result w))
      | _ => None
      end
  | SThrow t =>
      match threads w !! t with
      | Some (mkThread key (Leading q)) => Some (with_thread t key (Cleaning q None) w)
      | _ => None
      end
  | SMetadata t metadata now =>
      match threads w !! t with
      | Some (mkThread key (FirstPoll m)) =>
          Some (with_thread t key (AtRead m) (with_once Once.kDone (PollStoreAndUpdateStatus metadata now w)))
      | _ => None
      end
  | SPoll metadata now => Some (PollStoreAndUpdateStatus metadata now w)
  end.

Fixpoint run (steps : list Step) w : option Wrapper :=
  match steps with
  | [] => Some w
  | e :: steps => match step e w with Some w => run steps w | None => None end
  end.
End Wrapper.

(** [BigSegmentStoreStatusProvider::Status]; a null wrapper is [None]. *)
Definition Status (wrapper_ : option StoreHealth) : StoreHealth :=
  match wrapper_ with None => mkHealth false false | Some status => mkHealth (available status) (stale status) end.

(** ** Invariant *)

(** The query a thread leads, until its result is out of its hands. *)
Definition leads (p : Position) : option nat :=
  match p with
  | Leading q | Answered q _ | Publishing q _ | Cleaning q _ | Unwinding q => Some q
  | _ => None
  end.

Definition finished (p : Position) : bool := match p with Returned _ | Threw => true | _ => false end.

(** What a result may be: an empty membership and an error, or an answer of the store. *)
Definition ResultOk (answers : list (string * StoreAnswer)) (key : string) (r : GetMembershipResult) : Prop :=
  match result_status r with
  | StoreStatus.kStoreError => result_membership r = ∅
  | StoreStatus.kHealthy | StoreStatus.kStale => (key, Val (result_membership r)) ∈ answers
  | StoreStatus.kNotConfigured => False
  end.

Definition PositionOk (w : Wrapper) (key : string) (p : Position) : Prop :=
  match p with
  | AtCache | AtLoad | Failed | Threw => True
  | Leading q | Cleaning q None => in_flight_ w !! key = Some q ∧ queries w !! q = Some (key, None)
  | Answered q r | Publishing q r =>
      in_flight_ w !! key = Some q ∧ queries w !! q = Some (key, None) ∧ (key, r) ∈ answers w
  | Cleaning q (Some r) =>
      in_flight_ w !! key = Some q ∧ queries w !! q = Some (key, Some r) ∧ (key, r) ∈ answers w
  | Unwinding q => in_flight_ w !! key ≠ Some q ∧ queries w !! q = Some (key, None)
  | Waiting q => ∃ r, queries w !! q = Some (key, r)
  | AtStatus m | AtOnce m => (key, Val m) ∈ answers w
  | FirstPoll m => first_poll_once_ w = Once.kRunning ∧ (key, Val m) ∈ answers w
  | AtRead m => is_Some (last_status_ w) ∧ (key, Val m) ∈ answers w
  | Returned r => ResultOk (answers w) key r
  end.

Definition CacheAnswered (answers : list (string * StoreAnswer)) (c : MembershipCache) : Prop :=
  ∀ key e, entries_ c !! key = Some e → (key, Val (ce_membership e)) ∈ answers.

Record WrapperOk (w : Wrapper) : Prop := {
  ok_threads : ∀ t key p, threads w !! t = Some (mkThread key p) → PositionOk w key p;
  ok_leaders : ∀ t1 t2 key1 key2 p1 p2 q, threads w !! t1 = Some (mkThread key1 p1) →
    threads w !! t2 = Some (mkThread key2 p2) → leads p1 = Some q → leads p2 = Some q → t1 = t2;
  ok_in_flight : ∀ key q, in_flight_ w !! key = Some q → ∃ x, queries w !! q = Some (key, x);
  ok_open : ∀ key q, queries w !! q = Some (key, None) →
    ∃ t p, threads w !! t = Some (mkThread key p) ∧ leads p = Some q;
  ok_results : ∀ key q r, queries w !! q = Some (key, Some r) →
    (key, r) ∈ answers w ∨ r = Unexpected kLeaderExited;
  ok_done : first_poll_once_ w = Once.kDone → is_Some (last_status_ w);
  ok_running : first_poll_once_ w = Once.kRunning → ∃ t key m, threads w !! t = Some (mkThread key (FirstPoll m));
  ok_first : ∀ t1 t2 key1 key2 m1 m2, threads w !! t1 = Some (mkThread key1 (FirstPoll m1)) →
    threads w !! t2 = Some (mkThread key2 (FirstPoll m2)) → t1 = t2;
  ok_cache : CacheAnswered (answers w) (wr_cache w);
}.

Definition first_polls (p : Position) : bool := match p with FirstPoll _ => true | _ => false end.

(** Threads that did not move keep their facts when more is answered or known. *)
Lemma position_ok_mono w w' key p :
  in_flight_ w' !! key = in_flight_ w !! key →
  (∀ q, leads p = Some q ∨ p = Waiting q → queries w' !! q = queries w !! q) →
  (first_polls p = true → first_poll_once_ w' = first_poll_once_ w) →
  (is_Some (last_status_ w) → is_Some (last_status_ w')) → (∀ x, x ∈ answers w → x ∈ answers w') →
  PositionOk w key p → PositionOk w' key p.
Proof.
  intros Hf Hq Ho Hl Ha. destruct p as [| |q|q r|q r|q [r|]|q|q| |m|m|m|m|r|]; simpl; rewrite ?Hf; try done;
    rewrite ?(Hq q) by (simpl; auto); try tauto.
  - naive_solver.
  - naive_solver.
  - naive_solver.
  - apply Ha.
  - apply Ha.
  - rewrite Ho by done. naive_solver.
  - naive_solver.
  - unfold ResultOk. destruct (result_status r); auto.
Qed.

(** A thread moves, or starts, and what it leads does not change. *)
Lemma ok_move w w' t key p' (old : option Position) :
  WrapperOk w → threads w !! t = mkThread key <$> old → threads w' = <[t := mkThread key p']> (threads w) →
  in_flight_ w' = in_flight_ w → queries w' = queries w → first_poll_once_ w' = first_poll_once_ w →
  (is_Some (last_status_ w) → is_Some (last_status_ w')) → (∀ x, x ∈ answers w → x ∈ answers w') →
  leads p' = old ≫= leads → first_polls p' = false → (∀ p, old = Some p → first_polls p = false) →
  PositionOk w' key p' → CacheAnswered (answers w') (wr_cache w') → WrapperOk w'.
Proof.
  intros [Ht Hl Hf Ho Hr Hd Hrun H1 Hc] Hold Hw Ef Eq Eo Es Ea Elead Efp Eold Hp Hcache.
  assert (∀ t' k p q, threads w' !! t' = Some (mkThread k p) → leads p = Some q →
    ∃ p0, threads w !! t' = Some (mkThread k p0) ∧ leads p0 = Some q) as Hback.
  { intros t' k p q. rewrite Hw, lookup_insert_Some. intros [[<- [= <- <-]]|[Hne Hk]] Hq; [|eauto].
    rewrite Elead in Hq. destruct old as [p0|]; [|done]. exists p0. by rewrite Hold. }
  split.
  - intros t' k p. rewrite Hw, lookup_insert_Some. intros [[<- [= <- <-]]|[Hne Hk]]; [done|].
    eapply position_ok_mono; [by rewrite Ef|by rewrite Eq|done|done|done|eauto].
  - intros t1 t2 k1 k2 p1 p2 q Ht1 Ht2 Hq1 Hq2.
    destruct (Hback _ _ _ _ Ht1 Hq1) as (p1' & ? & ?), (Hback _ _ _ _ Ht2 Hq2) as (p2' & ? & ?). eauto.
  - rewrite Ef, Eq. done.
  - rewrite Eq. intros k q Hq. destruct (Ho k q Hq) as (t0 & p0 & Ht0 & Hq0). rewrite Hw.
    destruct (decide (t0 = t)) as [->|Hne].
    + rewrite Ht0 in Hold. destruct old as [p1|]; [|done]. injection Hold as <- <-. exists t, p'.
      rewrite lookup_insert_eq. split; [done|]. by rewrite Elead.
    + exists t0, p0. by rewrite lookup_insert_ne.
  - rewrite Eq. intros k q r Hq. destruct (Hr k q r Hq); auto.
  - rewrite Eo. auto.
  - rewrite Eo. intros (t0 & k & m & Ht0)%Hrun. exists t0, k, m. rewrite Hw, lookup_insert_ne; [done|].
    intros <-. rewrite Ht0 in Hold. destruct old as [p1|]; [|done]. injection Hold as <- <-. by specialize (Eold _ eq_refl).
  - intros t1 t2 k1 k2 m1 m2. rewrite Hw, !lookup_insert_Some.
    intros [[<- [= <- ->]]|[_ Ht1]] [[<- [= ? ?]]|[_ Ht2]]; simpl in *; try congruence; try (subst; done); eauto.
  - done.
Qed.

(** The background poll moves no thread. *)
Lemma ok_update_status s w : WrapperOk w → WrapperOk (update_status s w).
Proof.
  intros [Ht Hl Hf Ho Hr Hd Hrun H1 Hc]. split; simpl; eauto.
  intros t k p Hk. eapply position_ok_mono; [..|by eapply Ht]; simpl; eauto.
Qed.

Lemma ok_enter_load w t key : WrapperOk w → threads w !! t = Some (mkThread key AtLoad) → WrapperOk (enter_load t key w).
Proof.
  intros H Ht. unfold enter_load. destruct (in_flight_ w !! key) as [q|] eqn:E.
  { eapply (ok_move w _ t key (Waiting q) (Some AtLoad)); try done; try naive_solver; [|apply H].
    apply (ok_in_flight _ H _ _ E). }
  set (q := fresh (dom (queries w))). assert (queries w !! q = None) as Hq by (apply not_elem_of_dom, is_fresh).
  clearbody q. destruct H as [Hth Hl Hf Ho Hr Hd Hrun H1 Hc].
  assert (∀ t' k p, threads w !! t' = Some (mkThread k p) → ∀ q', leads p = Some q' ∨ p = Waiting q' → q' ≠ q) as Hfresh.
  { intros t' k p Hk q' Hp ->. specialize (Hth _ _ _ Hk). destruct p as [| |?|? ?|? ?|? [?|]|?|?| | | | | | |];
      destruct Hp as [Hp|Hp]; simplify_eq/=; deex; congruence. }
  split; simpl.
  - intros t' k p. rewrite lookup_insert_Some. intros [[<- [= <- <-]]|[Hne Hk]].
    + simpl. by rewrite !lookup_insert_eq.
    + specialize (Hth _ _ _ Hk). destruct (decide (k = key)) as [->|Hkey].
      * destruct p as [| |?|? ?|? ?|? [?|]|q'|q'| | | | | | |]; simpl in *; rewrite ?E in Hth; deex; try done.
        -- rewrite lookup_insert_eq, lookup_insert_ne by (intros <-; by eapply (Hfresh _ _ _ Hk q); [left|]).
           split; [|done]. intros [= ->]. eapply (Hfresh _ _ _ Hk q'); [by left|done].
        -- rewrite lookup_insert_ne by (intros <-; by eapply (Hfresh _ _ _ Hk q); [right|]). eauto.
      * eapply position_ok_mono; [..|exact Hth]; simpl; try done.
        -- by rewrite lookup_insert_ne.
        -- intros q' Hq'. rewrite lookup_insert_ne; [done|]. intros <-. by eapply (Hfresh _ _ _ Hk).
  - intros t1 t2 k1 k2 p1 p2 q'. rewrite !lookup_insert_Some.
    intros [[<- [= <- <-]]|[_ Ht1]] [[<- [= <- <-]]|[_ Ht2]]; simpl; intros Hq1 Hq2; simplify_eq; [done| | |eauto].
    + exfalso. by eapply (Hfresh _ _ _ Ht2); [left|].
    + exfalso. by eapply (Hfresh _ _ _ Ht1); [left|].
  - intros k q'. rewrite lookup_insert_Some. intros [[<- <-]|[_ Hk]]; [rewrite lookup_insert_eq; eauto|].
    destruct (Hf _ _ Hk) as [x Hx]. exists x. rewrite lookup_insert_ne; [done|congruence].
  - intros k q'. rewrite lookup_insert_Some. intros [[<- [= <-]]|[Hne Hk]].
    + exists t, (Leading q). by rewrite lookup_insert_eq.
    + destruct (Ho _ _ Hk) as (t0 & p0 & Ht0 & Hp0). exists t0, p0. rewrite lookup_insert_ne; [done|].
      intros <-. rewrite Ht in Ht0. by simplify_eq.
  - intros k q' r. rewrite lookup_insert_Some. intros [[_ [=]]|[_ Hk]]. eauto.
  - done.
  - intros (t0 & k & m & Ht0)%Hrun. exists t0, k, m. rewrite lookup_insert_ne; [done|]. intros <-. congruence.
  - intros t1 t2 k1 k2 m1 m2. rewrite !lookup_insert_Some. naive_solver.
  - done.
Qed.

(** The leader of a query settles it: publishes its result, or gives up. *)
Lemma ok_settle w t key p p' q r :
  WrapperOk w → threads w !! t = Some (mkThread key p) → leads p = Some q → queries w !! q = Some (key, None) →
  ((key, r) ∈ answers w ∨ r = Unexpected kLeaderExited) → (leads p' = Some q ∨ leads p' = None) →
  first_polls p' = false → PositionOk (with_query q key (Some r) w) key p' →
  WrapperOk (with_thread t key p' (with_query q key (Some r) w)).
Proof.
  intros [Hth Hl Hf Ho Hr Hd Hrun H1 Hc] Ht Hq Hopen Hans Hlead Hfp Hp.
  split; simpl.
  - intros t' k0 p0. rewrite lookup_insert_Some. intros [[<- [= <- <-]]|[Hne Hk]]; [done|].
    specialize (Hth _ _ _ Hk). destruct (decide (p0 = Waiting q)) as [->|Hnw].
    { simpl in *. destruct Hth as [x Hx]. rewrite Hopen in Hx. injection Hx as <- _. rewrite lookup_insert_eq. eauto. }
    eapply position_ok_mono; [..|exact Hth]; simpl; try done.
    intros q' Hq'. rewrite lookup_insert_ne; [done|]. intros <-. destruct Hq' as [Hq'|]; [|done]. eauto.
  - intros t1 t2 k1 k2 p1 p2 q'. rewrite !lookup_insert_Some.
    intros [[<- [= <- <-]]|[_ Ht1]] [[<- [= <- <-]]|[_ Ht2]] Hq1 Hq2; [done| | |eauto].
    + destruct Hlead as [Hlead|Hlead]; rewrite Hlead in Hq1; [injection Hq1 as <-; eauto|done].
    + destruct Hlead as [Hlead|Hlead]; rewrite Hlead in Hq2; [injection Hq2 as <-; eauto|done].
  - intros k0 q' Hk. destruct (Hf _ _ Hk) as [x Hx]. destruct (decide (q' = q)) as [->|Hne].
    + rewrite lookup_insert_eq. rewrite Hopen in Hx. injection Hx as <- _. eauto.
    + rewrite lookup_insert_ne by done. eauto.
  - intros k0 q'. rewrite lookup_insert_Some. intros [[_ [=]]|[Hne Hk]].
    destruct (Ho _ _ Hk) as (t0 & p0 & Ht0 & Hp0). exists t0, p0. rewrite lookup_insert_ne; [done|].
    intros <-. rewrite Ht in Ht0. simplify_eq.
  - intros k0 q' r'. rewrite lookup_insert_Some. intros [[<- [= <- <-]]|[_ Hk]]; eauto.
  - done.
  - intros (t0 & k0 & m & Ht0)%Hrun. exists t0, k0, m. rewrite lookup_insert_ne; [done|]. intros <-.
    rewrite Ht in Ht0. injection Ht0 as -> ->. done.
  - intros t1 t2 k1 k2 m1 m2. rewrite !lookup_insert_Some. naive_solver.
  - done.
Qed.

(** The leader drops the in-flight entry. *)
Lemma ok_erase w t key p p' q :
  WrapperOk w → threads w !! t = Some (mkThread key p) → leads p = Some q → in_flight_ w !! key = Some q →
  (leads p' = Some q ∨ leads p' = None ∧ queries w !! q ≠ Some (key, None)) →
  first_polls p' = false → PositionOk (erase_in_flight key w) key p' →
  WrapperOk (with_thread t key p' (erase_in_flight key w)).
Proof.
  intros [Hth Hl Hf Ho Hr Hd Hrun H1 Hc] Ht Hq Hfl Hlead Hfp Hp. split; simpl.
  - intros t' k0 p0. rewrite lookup_insert_Some. intros [[<- [= <- <-]]|[Hne Hk]]; [done|].
    specialize (Hth _ _ _ Hk). destruct (decide (k0 = key)) as [->|Hkey].
    + assert (leads p0 ≠ Some q) as Hnq by (intros Hp0; eauto).
      destruct p0 as [| |?|? ?|? ?|? [?|]|?|?| | | | | | |]; simpl in *; rewrite ?Hfl in Hth; deex; try done; try congruence; [|eauto].
      rewrite lookup_delete_eq. done.
    + eapply position_ok_mono; [..|exact Hth]; simpl; try done. by rewrite lookup_delete_ne.
  - intros t1 t2 k1 k2 p1 p2 q'. rewrite !lookup_insert_Some.
    intros [[<- [= <- <-]]|[_ Ht1]] [[<- [= <- <-]]|[_ Ht2]] Hq1 Hq2; [done| | |eauto].
    + destruct Hlead as [Hlead|[Hlead _]]; rewrite Hlead in Hq1; [injection Hq1 as <-; eauto|done].
    + destruct Hlead as [Hlead|[Hlead _]]; rewrite Hlead in Hq2; [injection Hq2 as <-; eauto|done].
  - intros k0 q'. rewrite lookup_delete_Some. intros [_ Hk]. eauto.
  - intros k0 q' Hk. destruct (Ho _ _ Hk) as (t0 & p0 & Ht0 & Hp0). destruct (decide (t0 = t)) as [->|Hne].
    + rewrite Ht in Ht0. simplify_eq. destruct Hlead as [Hlead|[_ Hlead]]; [|congruence].
      exists t, p'. rewrite lookup_insert_eq. done.
    + exists t0, p0. by rewrite lookup_insert_ne.
  - eauto.
  - done.
  - intros (t0 & k0 & m & Ht0)%Hrun. exists t0, k0, m. rewrite lookup_insert_ne; [done|]. intros <-.
    rewrite Ht in Ht0. injection Ht0 as -> ->. done.
  - intros t1 t2 k1 k2 m1 m2. rewrite !lookup_insert_Some. naive_solver.
  - done.
Qed.

(** The once flag is taken, and released with a status. *)
Lemma ok_once_start w t key m :
  WrapperOk w → threads w !! t = Some (mkThread key (AtOnce m)) → first_poll_once_ w = Once.kFree →
  WrapperOk (with_thread t key (FirstPoll m) (with_once Once.kRunning w)).
Proof.
  intros H Ht Hfree. pose proof H as [Hth Hl Hf Ho Hr Hd Hrun H1 Hc].
  assert (∀ t' k p, threads w !! t' = Some (mkThread k p) → first_polls p = false) as Hno.
  { intros t' k p Hk. specialize (Hth _ _ _ Hk). destruct p; try done. simpl in Hth. destruct Hth. congruence. }
  split; simpl.
  - intros t' k0 p0. rewrite lookup_insert_Some. intros [[<- [= <- <-]]|[Hne Hk]].
    + split; [done|]. apply (Hth _ _ _ Ht).
    + eapply position_ok_mono; [..|by eapply Hth]; simpl; try done. rewrite (Hno _ _ _ Hk). done.
  - intros t1 t2 k1 k2 p1 p2 q. rewrite !lookup_insert_Some.
    intros [[<- [= <- <-]]|[_ Ht1]] [[<- [= <- <-]]|[_ Ht2]] Hq1 Hq2; try done. eauto.
  - done.
  - intros k0 q' Hk. destruct (Ho _ _ Hk) as (t0 & p0 & Ht0 & Hp0). exists t0, p0. rewrite lookup_insert_ne; [done|].
    intros <-. rewrite Ht in Ht0. by simplify_eq.
  - done.
  - done.
  - intros _. exists t, key, m. apply lookup_insert_eq.
  - intros t1 t2 k1 k2 m1 m2. rewrite !lookup_insert_Some.
    intros [[<- _]|[_ Ht1]] [[<- _]|[_ Ht2]]; [done|by specialize (Hno _ _ _ Ht2)|by specialize (Hno _ _ _ Ht1)|eauto].
  - done.
Qed.

Lemma ok_once_done w t key m s :
  WrapperOk w → threads w !! t = Some (mkThread key (FirstPoll m)) →
  WrapperOk (with_thread t key (AtRead m) (with_once Once.kDone (update_status s w))).
Proof.
  intros H Ht. pose proof H as [Hth Hl Hf Ho Hr Hd Hrun H1 Hc].
  assert (∀ t' k p, t' ≠ t → threads w !! t' = Some (mkThread k p) → first_polls p = false) as Hno.
  { intros t' k p Hne Hk. destruct p; try done. exfalso. eauto. }
  split; simpl.
  - intros t' k0 p0. rewrite lookup_insert_Some. intros [[<- [= <- <-]]|[Hne Hk]].
    + simpl. split; [done|]. apply (Hth _ _ _ Ht).
    + eapply position_ok_mono; [..|by eapply Hth]; simpl; try done. by rewrite (Hno _ _ _ (not_eq_sym Hne) Hk).
  - intros t1 t2 k1 k2 p1 p2 q. rewrite !lookup_insert_Some.
    intros [[<- [= <- <-]]|[_ Ht1]] [[<- [= <- <-]]|[_ Ht2]] Hq1 Hq2; try done. eauto.
  - done.
  - intros k0 q' Hk. destruct (Ho _ _ Hk) as (t0 & p0 & Ht0 & Hp0). exists t0, p0. rewrite lookup_insert_ne; [done|].
    intros <-. rewrite Ht in Ht0. by simplify_eq.
  - done.
  - done.
  - done.
  - intros t1 t2 k1 k2 m1 m2. rewrite !lookup_insert_Some. naive_solver.
  - done.
Qed.

Lemma cache_get_answered l key now c : CacheAnswered l c → CacheAnswered l (Cache.Get key now c).1.
Proof.
  intros H. unfold Cache.Get. destruct (entries_ c !! key) as [e|]; [|done]. case_match; [|done].
  intros k e'. simpl. rewrite lookup_delete_Some. intros [_ Hk]. eauto.
Qed.

Lemma cache_get_found l key now c m : CacheAnswered l c → (Cache.Get key now c).2 = Some m → (key, Val m) ∈ l.
Proof.
  intros H. unfold Cache.Get. destruct (entries_ c !! key) as [e|] eqn:E; [|done]. case_match; [done|].
  intros [= <-]. eauto.
Qed.

Lemma cache_set_answered l key m now c :
  CacheAnswered l c → (key, Val m) ∈ l → CacheAnswered l (Cache.Set_ key m now c).
Proof.
  intros H Hm. unfold Cache.Set_.
  assert (∀ k e, <[key := mkEntry m (now + ttl_ c)]> (entries_ c) !! k = Some e → (k, Val (ce_membership e)) ∈ l) as Hi.
  { intros k e. rewrite lookup_insert_Some. intros [[<- <-]|[_ Hk]]; [done|eauto]. }
  destruct (entries_ c !! key); [done|]. case_match; [|done]. case_match; [|done].
  intros k e. simpl. rewrite lookup_delete_Some. intros [_ Hk]. eauto.
Qed.

Lemma result_of_ok l key m s : (key, Val m) ∈ l → ResultOk l key (result_of m s).
Proof. unfold ResultOk, result_of. simpl. by destruct (stale s). Qed.

(** Applies [ok_move] where everything but the position is unchanged. *)
Ltac move_thread Ht :=
  match type of Ht with
  | _ = Some (mkThread ?key ?p) =>
      match goal with
      | H : WrapperOk ?w |- WrapperOk (with_thread ?t key ?p' _) =>
          eapply (ok_move w _ t key p' (Some p)); try done; try (intros ? [= <-]; done); try apply (ok_cache _ H)
      end
  end.

Lemma loaded_ok w t key p r :
  WrapperOk w → threads w !! t = Some (mkThread key p) → leads p = None → first_polls p = false →
  ((key, r) ∈ answers w ∨ r = Unexpected kLeaderExited) → WrapperOk (loaded t key r w).
Proof.
  intros H Ht Hl Hp Hr. unfold loaded. destruct r as [m|e]; move_thread Ht; try (intros ? [= <-]; done).
  simpl. by destruct Hr.
Qed.

Lemma run_thread_ok w w' t key p now :
  WrapperOk w → threads w !! t = Some (mkThread key p) → run_thread t key p now w = Some w' → WrapperOk w'.
Proof.
  intros H Ht. pose proof (ok_threads _ H _ _ _ Ht) as Hp. unfold run_thread.
  destruct p as [| |q|q r|q r|q [r|]|q|q| |m|m|m|m|r|]; try done.
  - destruct (Cache.Get key now (wr_cache w)) as [c found] eqn:E. intros [= <-].
    pose proof (cache_get_answered _ key now _ (ok_cache _ H)) as Hc. rewrite E in Hc.
    destruct found as [m|]; move_thread Ht.
    apply (cache_get_found _ key now _ m (ok_cache _ H)). by rewrite E.
  - intros [= <-]. by apply ok_enter_load.
  - intros [= <-]. destruct r as [m|e]; move_thread Ht. apply cache_set_answered; [apply (ok_cache _ H)|apply Hp].
  - intros [= <-]. simpl in Hp. destruct Hp as (Hf & Hq & Ha).
    eapply (ok_settle _ _ _ (Publishing q r)); eauto. simpl. by rewrite lookup_insert_eq.
  - intros [= <-]. simpl in Hp. destruct Hp as (Hf & Hq & Ha). unfold loaded. destruct r as [m|e].
    + eapply (ok_erase _ _ _ (Cleaning q (Some (Val m)))); eauto. right. split; [done|congruence].
    + eapply (ok_erase _ _ _ (Cleaning q (Some (Unexpected e)))); eauto; [|done]. right. split; [done|congruence].
  - intros [= <-]. simpl in Hp. destruct Hp as (Hf & Hq). eapply (ok_erase _ _ _ (Cleaning q None)); eauto.
    simpl. by rewrite lookup_delete_eq.
  - intros [= <-]. simpl in Hp. destruct Hp as (Hf & Hq). unfold resign. rewrite Hq.
    eapply (ok_settle _ _ _ (Unwinding q)); eauto. done.
  - destruct (queries w !! q) as [[k [r|]]|] eqn:E; try done. intros [= <-].
    simpl in Hp. destruct Hp as [x Hx]. rewrite E in Hx. injection Hx as <- <-.
    eapply loaded_ok; eauto using ok_results.
  - intros [= <-]. unfold MarkStoreUnavailable. move_thread Ht.
  - destruct (last_status_ w) as [s|] eqn:E; intros [= <-]; move_thread Ht. by apply result_of_ok.
  - destruct (first_poll_once_ w) eqn:E; [|done|]; intros [= <-]; [by apply ok_once_start|].
    move_thread Ht. split; [|done]. by apply (ok_done _ H).
  - simpl in Hp. destruct Hp as [_ Hp]. destruct (last_status_ w) as [s|] eqn:E; [|done]. intros [= <-]. move_thread Ht.
    by apply result_of_ok.
Qed.

Lemma wrapper_step_ok stale_after w w' e : WrapperOk w → step stale_after e w = Some w' → WrapperOk w'.
Proof.
  intros H. destruct e as [t key|t now|t r|t|t md now|md now]; simpl.
  - destruct (threads w !! t) eqn:E; [done|]. intros [= <-].
    eapply (ok_move w _ t key AtCache None); try done; apply (ok_cache _ H).
  - destruct (threads w !! t) as [[key p]|] eqn:E; [|done]. by apply run_thread_ok.
  - destruct (threads w !! t) as [[key []]|] eqn:E; try done. intros [= <-].
    pose proof (ok_threads _ H _ _ _ E) as [Hf Hq]. move_thread E.
    + intros x Hx. apply elem_of_app. by left.
    + simpl. split_and!; [done|done|]. apply elem_of_app. right. by left.
    + intros k e Hk. apply elem_of_app. left. by apply (ok_cache _ H).
  - destruct (threads w !! t) as [[key []]|] eqn:E; try done. intros [= <-].
    pose proof (ok_threads _ H _ _ _ E). by move_thread E.
  - destruct (threads w !! t) as [[key []]|] eqn:E; try done. intros [= <-]. by apply ok_once_done.
  - intros [= <-]. by apply ok_update_status.
Qed.

Lemma new_wrapper_ok capacity ttl : WrapperOk (new_wrapper capacity ttl).
Proof. split; simpl; intros *; rewrite ?lookup_empty; try done. Qed.

Lemma run_wrapper_ok stale_after steps w w' : WrapperOk w → run stale_after steps w = Some w' → WrapperOk w'.
Proof.
  revert w. induction steps as [|e steps IH]; intros w H; simpl; [by intros [= <-]|].
  destruct (step stale_after e w) as [w1|] eqn:E; [|done]. eauto using wrapper_step_ok.
Qed.

(** ** Progress *)

(** How many steps a thread can still make. *)
Definition rank (p : Position) : nat :=
  match p with
  | AtCache => 11 | AtLoad => 10 | Leading _ => 9 | Waiting _ | Answered _ _ => 8 | Publishing _ _ => 7
  | Cleaning _ _ => 6 | Unwinding _ => 5 | AtStatus _ => 4 | AtOnce _ => 3 | FirstPoll _ => 2
  | AtRead _ | Failed => 1 | Returned _ | Threw => 0
  end.

Definition work (w : Wrapper) : nat := map_fold (λ _ th n, rank (th_at th) + n)%nat 0%nat (threads w).

(** The steps that belong to a thread. *)
Definition thread_step (e : Step) : option nat :=
  match e with SRun t _ | SAnswer t _ | SThrow t | SMetadata t _ _ => Some t | SCall _ _ | SPoll _ _ => None end.

Lemma work_insert (m : gmap nat Thread) t th th' :
  m !! t = Some th →
  (map_fold (λ _ th n, rank (th_at th) + n)%nat 0%nat (<[t := th']> m) + rank (th_at th) =
   map_fold (λ _ th n, rank (th_at th) + n)%nat 0%nat m + rank (th_at th'))%nat.
Proof.
  intros Ht. set (f := λ (_ : nat) th n, (rank (th_at th) + n)%nat).
  assert (∀ x, map_fold f 0%nat (<[t := x]> (delete t m)) = (rank (th_at x) + map_fold f 0%nat (delete t m))%nat) as Hf.
  { intros x. rewrite map_fold_insert_L; [done| |apply lookup_delete_eq]. unfold f. intros. lia. }
  pose proof (Hf th) as Hold. rewrite insert_delete_id in Hold by done.
  pose proof (Hf th') as Hnew. rewrite insert_delete_eq in Hnew. lia.
Qed.

Lemma thread_step_rank stale_after e w w' t :
  WrapperOk w → thread_step e = Some t → step stale_after e w = Some w' →
  ∃ key p p', threads w !! t = Some (mkThread key p) ∧ threads w' = <[t := mkThread key p']> (threads w) ∧
    (rank p' < rank p)%nat.
Proof.
  intros H He. destruct e as [t' key|t' now|t' r|t'|t' md now|md now]; simpl in *; try done; injection He as ->;
    destruct (threads w !! t) as [[key p]|] eqn:E; try done.
  - unfold run_thread, enter_load, loaded, resign. destruct p as [| |q|q r|q r|q [r|]|q|q| |m|m|m|m|r|]; try done;
      repeat case_match; intros [= <-]; (eexists _, _, _; split; [done|]; split; [reflexivity|]; simpl; lia).
  - destruct p; try done. intros [= <-]. eexists _, _, _. split; [done|]. split; [reflexivity|]. simpl. lia.
  - destruct p; try done. intros [= <-]. eexists _, _, _. split; [done|]. split; [reflexivity|]. simpl. lia.
  - destruct p; try done. intros [= <-]. eexists _, _, _. split; [done|]. split; [reflexivity|]. simpl. lia.
Qed.

(** A thread goes on by itself, or as soon as the store answers it, whatever the answer. *)
Definition Runs (stale_after : Z) (w : Wrapper) (t : nat) : Prop :=
  ∀ now r md, is_Some (step stale_after (SRun t now) w) ∨ is_Some (step stale_after (SAnswer t r) w) ∨
    is_Some (step stale_after (SMetadata t md now) w).

Lemma leader_runs stale_after w t key p :
  threads w !! t = Some (mkThread key p) → is_Some (leads p) ∨ first_polls p = true → Runs stale_after w t.
Proof.
  intros Ht Hl now r md. simpl. rewrite Ht.
  destruct p as [| |q|q x|q x|q [x|]|q|q| |m|m|m|m|x|]; destruct Hl as [[? ?]|?]; simplify_eq/=; eauto.
Qed.

Lemma some_thread_runs stale_after w t key p :
  WrapperOk w → threads w !! t = Some (mkThread key p) → finished p = false → ∃ t', Runs stale_after w t'.
Proof.
  intros H Ht Hp. pose proof (ok_threads _ H _ _ _ Ht) as Hok.
  assert ((∀ now, is_Some (run_thread t key p now w)) → Runs stale_after w t) as Hrun.
  { intros Hr now r md. left. simpl. by rewrite Ht. }
  destruct p as [| |q|q x|q x|q x|q|q| |m|m|m|m|x|]; try done; eauto using leader_runs; simpl in *.
  - exists t. apply Hrun. intros now. destruct (Cache.Get _ _ _). eauto.
  - destruct Hok as [[r|] Hq]; [exists t; apply Hrun; rewrite Hq; eauto|].
    destruct (ok_open _ H _ _ Hq) as (t' & p' & Ht' & Hl). exists t'. eapply leader_runs; eauto.
  - exists t. apply Hrun. destruct (last_status_ w); eauto.
  - destruct (first_poll_once_ w) eqn:E; [exists t; apply Hrun; eauto| |exists t; apply Hrun; eauto].
    destruct (ok_running _ H E) as (t' & k & m' & Ht'). exists t'. eapply leader_runs; eauto.
  - destruct Hok as [[s Hs] _]. exists t. apply Hrun. rewrite Hs. eauto.
Qed.

(** ** Theorems *)

(** C29: concurrent misses of one key are coalesced and nobody is left waiting: whatever the
    interleaving, at most one thread at a time is asking the store about a key, and a thread
    that waits for a query without a result has a living leader, which is at work on that
    query for that key. *)
Theorem coalesced_queries (stale_after ttl : Z) (capacity : nat) (steps : list Step) (w : Wrapper)
    (Hrun : run stale_after steps (new_wrapper capacity ttl) = Some w) :
  (∀ t1 t2 key q1 q2, threads w !! t1 = Some (mkThread key (Leading q1)) →
     threads w !! t2 = Some (mkThread key (Leading q2)) → t1 = t2) ∧
  (∀ t key q, threads w !! t = Some (mkThread key (Waiting q)) →
     (∃ r, queries w !! q = Some (key, Some r)) ∨
     (∃ t' p, t' ≠ t ∧ threads w !! t' = Some (mkThread key p) ∧ leads p = Some q)).
Proof.
  pose proof (run_wrapper_ok _ _ _ _ (new_wrapper_ok capacity ttl) Hrun) as H. split.
  - intros t1 t2 key q1 q2 H1 H2. destruct (ok_threads _ H _ _ _ H1) as [E1 _], (ok_threads _ H _ _ _ H2) as [E2 _].
    eapply (ok_leaders _ H t1 t2 _ _ _ _ q1); eauto. simpl. congruence.
  - intros t key q Ht. destruct (ok_threads _ H _ _ _ Ht) as [[r|] Hq]; [eauto|]. right.
    destruct (ok_open _ H _ _ Hq) as (t' & p & Ht' & Hl). exists t', p. split; [|done].
    intros ->. rewrite Ht in Ht'. by simplify_eq.
Qed.

(** A membership comes from the store: what [GetMembership] returns as healthy or stale is
    an answer of the store about that very key, and with a store error the membership is
    empty; and no thread reads the status before there is one. *)
Theorem membership_results (stale_after ttl : Z) (capacity : nat) (steps : list Step) (w : Wrapper)
    (Hrun : run stale_after steps (new_wrapper capacity ttl) = Some w) :
  (∀ t key r, threads w !! t = Some (mkThread key (Returned r)) → ResultOk (answers w) key r) ∧
  (∀ t key m, threads w !! t = Some (mkThread key (AtRead m)) → is_Some (last_status_ w)).
Proof.
  pose proof (run_wrapper_ok _ _ _ _ (new_wrapper_ok capacity ttl) Hrun) as H. split.
  - intros t key r Ht. apply (ok_threads _ H _ _ _ Ht).
  - intros t key m Ht. apply (ok_threads _ H _ _ _ Ht).
Qed.

(** Every call returns: as long as a thread is not done, some thread can go on, and each
    step of a thread takes it strictly closer to the end, so that the calls of any finite set
    of threads end after finitely many steps, however the store answers. *)
Theorem membership_progress (stale_after ttl : Z) (capacity : nat) (steps : list Step) (w : Wrapper)
    (Hrun : run stale_after steps (new_wrapper capacity ttl) = Some w) :
  (∀ t key p, threads w !! t = Some (mkThread key p) → finished p = false → ∃ t', Runs stale_after w t') ∧
  (∀ e w', is_Some (thread_step e) → step stale_after e w = Some w' → (work w' < work w)%nat).
Proof.
  pose proof (run_wrapper_ok _ _ _ _ (new_wrapper_ok capacity ttl) Hrun) as H. split; [eauto using some_thread_runs|].
  intros e w' [t He] Hs. destruct (thread_step_rank _ _ _ _ _ H He Hs) as (key & p & p' & Ht & Hw & Hr).
  unfold work. rewrite Hw. pose proof (work_insert (threads w) t _ (mkThread key p') Ht) as Hi. simpl in Hi. lia.
Qed.

(** ** The interface the evaluator is verified against *)

(** What the store and the clocks would say during a call. *)
Record Environment := mkEnvironment {
  env_membership : string → StoreAnswer;
  env_metadata : MetadataAnswer;
  env_steady : Z;
  env_wall : Z;
}.

Definition next_step (env : Environment) (t : nat) (key : string) (p : Position) : Step :=
  match p with
  | Leading _ => SAnswer t (env_membership env key)
  | FirstPoll _ => SMetadata t (env_metadata env) (env_wall env)
  | _ => SRun t (env_steady env)
  end.

(** Thread [t] runs alone. *)
Fixpoint drive (stale_after : Z) (env : Environment) (fuel t : nat) (w : Wrapper) : Wrapper :=
  match fuel, threads w !! t with
  | S fuel, Some (mkThread key p) =>
      match step stale_after (next_step env t key p) w with
      | Some w => drive stale_after env fuel t w
      | None => w
      end
  | _, _ => w
  end.

Definition call_alone (stale_after : Z) (env : Environment) (key : string) (w : Wrapper) : Wrapper * option GetMembershipResult :=
  let t := fresh (dom (threads w)) in
  let w := drive stale_after env 11 t (with_thread t key AtCache w) in
  (w, match threads w !! t with Some (mkThread _ (Returned r)) => Some r | _ => None end).

#[global] Instance wrapper_big_segments : BigSegmentStore (Wrapper * Environment * Z) :=
  λ x key, let '(w, env, stale_after) := x in
    let '(w, r) := call_alone stale_after env key w in
    ((w, env, stale_after), default (mkMembershipResult ∅ StoreStatus.kStoreError) r).

(** No other thread is in a call. *)
Definition alone (t : nat) (w : Wrapper) : Prop :=
  ∀ t' key p, t' ≠ t → threads w !! t' = Some (mkThread key p) → finished p = true.

Definition throws (p : Position) : bool := match p with Cleaning _ None | Unwinding _ | Threw => true | _ => false end.

Lemma finished_not_runs stale_after w t key p :
  threads w !! t = Some (mkThread key p) → finished p = true → ¬ Runs stale_after w t.
Proof.
  intros Ht Hp Hr. specialize (Hr 0 (Val ∅) (Val None)). simpl in Hr. rewrite Ht in Hr.
  destruct p; try done; simpl in Hr; destruct Hr as [[? ?]|[[? ?]|[? ?]]]; done.
Qed.

Lemma alone_next stale_after env w t key p :
  WrapperOk w → alone t w → threads w !! t = Some (mkThread key p) → finished p = false →
  is_Some (step stale_after (next_step env t key p) w).
Proof.
  intros H Hal Ht Hp. destruct (some_thread_runs stale_after w t key p H Ht Hp) as [t' Hr].
  assert (t' = t) as ->.
  { destruct (decide (t' = t)) as [|Hne]; [done|]. exfalso. destruct (threads w !! t') as [[k p']|] eqn:E.
    - eapply finished_not_runs; eauto.
    - specialize (Hr 0 (Val ∅) (Val None)). simpl in Hr. rewrite E in Hr. destruct Hr as [[? ?]|[[? ?]|[? ?]]]; done. }
  specialize (Hr (env_steady env) (env_membership env key) (env_metadata env)). simpl in Hr. rewrite Ht in Hr.
  destruct p; simpl in *; rewrite Ht; try done; eauto;
    destruct Hr as [Hr|[[? ?]|[? ?]]]; done.
Qed.

Lemma next_step_thread env t key p : thread_step (next_step env t key p) = Some t.
Proof. by destruct p. Qed.

Lemma next_step_no_throw stale_after env w w' t key p p' :
  threads w !! t = Some (mkThread key p) → throws p = false →
  step stale_after (next_step env t key p) w = Some w' → threads w' !! t = Some (mkThread key p') → throws p' = false.
Proof.
  intros Ht Hp. destruct p as [| |q|q x|q x|q [x|]|q|q| |m|m|m|m|x|]; try done; simpl; rewrite Ht; simpl;
    unfold enter_load, loaded; repeat case_match; intros [= <-]; simpl; rewrite ?lookup_insert_eq; intros [= <-];
    by repeat case_match.
Qed.

Lemma drive_returns stale_after env fuel t key p w :
  WrapperOk w → alone t w → threads w !! t = Some (mkThread key p) → throws p = false → (rank p ≤ fuel)%nat →
  ∃ r, threads (drive stale_after env fuel t w) !! t = Some (mkThread key (Returned r)) ∧
    WrapperOk (drive stale_after env fuel t w) ∧ alone t (drive stale_after env fuel t w).
Proof.
  revert w p. induction fuel as [|fuel IH]; intros w p H Hal Ht Hp Hr.
  { destruct p; simpl in Hr; try lia; [|done]. simpl. eauto. }
  simpl. rewrite Ht. destruct (finished p) eqn:Hf.
  { destruct p; try done. simpl. rewrite Ht. simpl. eauto. }
  destruct (alone_next stale_after env w t key p H Hal Ht Hf) as [w' Hs]. rewrite Hs.
  destruct (thread_step_rank _ _ _ _ _ H (next_step_thread env t key p) Hs) as (k & p0 & p' & Ht0 & Hw & Hlt).
  rewrite Ht in Ht0. injection Ht0 as <- <-.
  assert (threads w' !! t = Some (mkThread key p')) as Ht' by (rewrite Hw; apply lookup_insert_eq).
  eapply IH; eauto using wrapper_step_ok, next_step_no_throw; [|lia].
  intros t' k' q Hne. rewrite Hw, lookup_insert_ne by done. eauto.
Qed.

(** A call made while no other is going on returns a result. *)
Lemma call_alone_returns stale_after env key w :
  WrapperOk w → (∀ t k p, threads w !! t = Some (mkThread k p) → finished p = true) →
  ∃ r, (call_alone stale_after env key w).2 = Some r ∧ WrapperOk (call_alone stale_after env key w).1.
Proof.
  intros H Hfin. unfold call_alone. set (t := fresh (dom (threads w))).
  assert (threads w !! t = None) as Ht by (apply not_elem_of_dom, is_fresh). clearbody t.
  destruct (drive_returns stale_after env 11 t key AtCache (with_thread t key AtCache w)) as (r & Hr & Hok & _); simpl.
  - eapply (wrapper_step_ok stale_after w _ (SCall t key) H). simpl. by rewrite Ht.
  - intros t' k p Hne. simpl. rewrite lookup_insert_ne by done. eauto.
  - apply lookup_insert_eq.
  - done.
  - lia.
  - simpl in *. rewrite Hr. eauto.
Qed.

(** ** Witnesses *)

(** Two threads ask about one key; the second waits for the first. *)
Definition two_calls : list Step :=
  [SCall 0 "k"; SCall 1 "k"; SRun 0 0; SRun 1 0; SRun 0 0; SRun 1 0].

Definition two_calls_state : Wrapper := default (new_wrapper 5 10) (run 100 two_calls (new_wrapper 5 10)).

Lemma two_calls_run : run 100 two_calls (new_wrapper 5 10) = Some two_calls_state.
Proof. vm_compute. reflexivity. Qed.

Lemma coalesced_queries_witness :
  threads two_calls_state !! 1%nat = Some (mkThread "k" (Waiting 0)) ∧
  ((∃ r, queries two_calls_state !! 0%nat = Some ("k", Some r)) ∨
   (∃ t' p, t' ≠ 1%nat ∧ threads two_calls_state !! t' = Some (mkThread "k" p) ∧ leads p = Some 0%nat)).
Proof.
  split; [vm_compute; reflexivity|].
  apply (proj2 (coalesced_queries 100 10 5 two_calls two_calls_state two_calls_run) 1%nat "k" 0%nat).
  vm_compute. reflexivity.
Defined.

Definition one_call : list Step :=
  [SCall 0 "k"; SRun 0 0; SRun 0 0; SAnswer 0 (Val {[ "s.g1" := true ]}); SRun 0 0; SRun 0 0; SRun 0 0;
   SRun 0 0; SRun 0 0; SMetadata 0 (Val (Some 0)) 500; SRun 0 0].

Definition one_call_state : Wrapper := default (new_wrapper 5 10) (run 100 one_call (new_wrapper 5 10)).

Lemma one_call_run : run 100 one_call (new_wrapper 5 10) = Some one_call_state.
Proof. vm_compute. reflexivity. Qed.

Lemma membership_results_witness :
  let r := mkMembershipResult {[ "s.g1" := true ]} StoreStatus.kStale in
  threads one_call_state !! 0%nat = Some (mkThread "k" (Returned r)) ∧ ResultOk (answers one_call_state) "k" r.
Proof.
  split; [vm_compute; reflexivity|].
  apply (proj1 (membership_results 100 10 5 one_call one_call_state one_call_run) 0%nat "k").
  vm_compute. reflexivity.
Defined.

Lemma membership_progress_witness : ∃ t', Runs 100 two_calls_state t'.
Proof.
  apply (proj1 (membership_progress 100 10 5 two_calls two_calls_state two_calls_run) 1%nat "k" (Waiting 0)).
  - vm_compute. reflexivity.
  - reflexivity.
Defined.

(** A failed lookup before any poll leaves a status that says "not stale", and [GetStatus] then
    answers from it: the next lookup is reported healthy although the metadata were never asked
    for, and the store stays unavailable although the lookup succeeded. *)
Definition error_then_success : list Step :=
  [SCall 0 "a"; SRun 0 0; SRun 0 0; SAnswer 0 (Unexpected "down"); SRun 0 0; SRun 0 0; SRun 0 0; SRun 0 0;
   SCall 1 "b"; SRun 1 0; SRun 1 0; SAnswer 1 (Val ∅); SRun 1 0; SRun 1 0; SRun 1 0; SRun 1 0].

Lemma error_hides_staleness :
  match run 100 error_then_success (new_wrapper 5 10) with
  | Some w => threads w !! 1%nat = Some (mkThread "b" (Returned (mkMembershipResult ∅ StoreStatus.kHealthy))) ∧
      last_status_ w = Some (mkHealth false false) ∧ first_poll_once_ w = Once.kFree
  | None => False
  end.
Proof. vm_compute. split_and!; reflexivity. Qed.
