(* ===== verification/Hooks.v ===== *)
(** * Hooks

    libs/server-sdk/src/hooks: hook.cpp (the data a hook keeps along an evaluation) and
    hook_executor.hpp/.cpp (when hooks run).  A hook is user code: here a record of
    functions, which may throw ([None]).  The calls made are recorded, which nothing reads. *)

From S2P Require Import Prelude OrderedMap Doubles Values Contexts Reasons.

(** ** Data: [std::map]s; a [shared_ptr<any>] is a value of a type [Shared] *)

Section Data.
Context {Shared : Type}.

Record DataEntry := mkDataEntry { de_value : option Value; de_shared : option Shared }.

Definition EvaluationSeriesData : Type := list (string * DataEntry).

Definition HookContext : Type := list (string * Shared).

Definition HookContext_Set (key : string) (value : Shared) (c : HookContext) : HookContext := assign key value c.
Definition HookContext_Get (key : string) (c : HookContext) : option Shared := find key c.
Definition HookContext_Has (key : string) (c : HookContext) : bool := bool_decide (is_Some (find key c)).

Definition SeriesData_Get (key : string) (d : EvaluationSeriesData) : option Value :=
  match find key d with Some e => de_value e | None => None end.
Definition SeriesData_GetShared (key : string) (d : EvaluationSeriesData) : option Shared :=
  match find key d with Some e => de_shared e | None => None end.
Definition SeriesData_Has (key : string) (d : EvaluationSeriesData) : bool := bool_decide (is_Some (find key d)).
Definition SeriesData_Keys (d : EvaluationSeriesData) : list string := fst <$> d.

(** [EvaluationSeriesDataBuilder] *)
Definition Builder_Set (key : string) (value : Value) (d : EvaluationSeriesData) : EvaluationSeriesData :=
  assign key (mkDataEntry (Some value) None) d.
Definition Builder_SetShared (key : string) (value : Shared) (d : EvaluationSeriesData) : EvaluationSeriesData :=
  assign key (mkDataEntry None (Some value)) d.
End Data.
Arguments DataEntry : clear implicits.
Arguments EvaluationSeriesData : clear implicits.
Arguments HookContext : clear implicits.

Record EvaluationSeriesContext (Shared : Type) := mkSeriesContext {
  es_flag_key : string;
  es_context : Context;
  es_default_value : Value;
  es_method : string;
  es_hook_context : HookContext Shared;
  es_environment_id : option string;
}.
Arguments mkSeriesContext {Shared} _ _ _ _ _ _.
Arguments es_flag_key {Shared} _.

Record TrackSeriesContext (Shared : Type) := mkTrackContext {
  ts_context : Context;
  ts_key : string;
  ts_metric_value : option double;
  ts_data : option Value;
  ts_hook_context : HookContext Shared;
  ts_environment_id : option string;
}.
Arguments mkTrackContext {Shared} _ _ _ _ _ _.
Arguments ts_key {Shared} _.

(** ** Hooks: [None] and [false] are exceptions *)

Record Hook (Shared : Type) := mkHook {
  hook_name : string;
  hook_BeforeEvaluation : EvaluationSeriesContext Shared → EvaluationSeriesData Shared →
    option (EvaluationSeriesData Shared);
  hook_AfterEvaluation : EvaluationSeriesContext Shared → EvaluationSeriesData Shared → EvaluationDetail Value →
    option (EvaluationSeriesData Shared);
  hook_AfterTrack : TrackSeriesContext Shared → bool;
}.
Arguments mkHook {Shared} _ _ _ _.
Arguments hook_name {Shared} _.
Arguments hook_BeforeEvaluation {Shared} _ _ _.
Arguments hook_AfterEvaluation {Shared} _ _ _ _.
Arguments hook_AfterTrack {Shared} _ _.

(** [Hook]'s own methods, which a hook inherits unless it overrides them. *)
Definition base_hook {Shared} (name : string) : Hook Shared :=
  mkHook name (λ _ data, Some data) (λ _ data _, Some data) (λ _, true).

(** What was called, by the position of the hook, with the data it was given. *)
Inductive HookCall (Shared : Type) :=
| Before (hook : nat) (data : EvaluationSeriesData Shared)
| After (hook : nat) (data : EvaluationSeriesData Shared) (detail : EvaluationDetail Value)
| AfterTrack (hook : nat).
Arguments Before {Shared} _ _.
Arguments After {Shared} _ _ _.
Arguments AfterTrack {Shared} _.

(** ** [EvaluationSeriesExecutor] *)

Section Executor.
Context {Shared : Type}.
Implicit Types (hooks : list (Hook Shared)) (context : EvaluationSeriesContext Shared).

Record Executor := mkExecutor {
  series_data_ : list (EvaluationSeriesData Shared);
  hook_errors : list (string * string);
  hook_calls : list (HookCall Shared);
}.

Definition new_executor hooks : Executor := mkExecutor (replicate (length hooks) []) [] [].

(** One turn of either loop: on an exception the data of the last good stage stay. *)
Definition run_stage (stage name : string) (i : nat) (call : HookCall Shared)
    (result : option (EvaluationSeriesData Shared)) (e : Executor) : Executor :=
  match result with
  | Some data => mkExecutor (<[i := data]> (series_data_ e)) (hook_errors e) (hook_calls e ++ [call])
  | None => mkExecutor (series_data_ e) (hook_errors e ++ [(stage, name)]) (hook_calls e ++ [call])
  end.

(** [series_data_[i]] *)
Definition data_of (e : Executor) (i : nat) : EvaluationSeriesData Shared :=
  match series_data_ e !! i with Some d => d | None => [] end.

Definition before_stage context (e : Executor) (ih : nat * Hook Shared) : Executor :=
  let data := data_of e ih.1 in
  run_stage "BeforeEvaluation" (hook_name ih.2) ih.1 (Before ih.1 data)
    (hook_BeforeEvaluation ih.2 context data) e.

Definition after_stage context (detail : EvaluationDetail Value) (e : Executor) (ih : nat * Hook Shared) : Executor :=
  let data := data_of e ih.1 in
  run_stage "AfterEvaluation" (hook_name ih.2) ih.1 (After ih.1 data detail)
    (hook_AfterEvaluation ih.2 context data detail) e.

Definition BeforeEvaluation hooks context (e : Executor) : Executor :=
  foldl (before_stage context) e (imap pair hooks).

Definition AfterEvaluation hooks context (detail : EvaluationDetail Value) (e : Executor) : Executor :=
  foldl (after_stage context detail) e (rev (imap pair hooks)).

Definition ExecuteAfterTrack hooks (context : TrackSeriesContext Shared) (e : Executor) : Executor :=
  foldl (λ e ih, mkExecutor (series_data_ e)
           (if hook_AfterTrack ih.2 context then hook_errors e else hook_errors e ++ [("AfterTrack", hook_name ih.2)])
           (hook_calls e ++ [AfterTrack ih.1])) e (imap pair hooks).
End Executor.

(** ** Specification *)

Section Spec.
Context {Shared : Type}.
Implicit Types (hooks : list (Hook Shared)) (context : EvaluationSeriesContext Shared).

(** What a hook has after its first stage. *)
Definition data_before context (h : Hook Shared) : EvaluationSeriesData Shared :=
  default [] (hook_BeforeEvaluation h context []).

Definition data_after context (detail : EvaluationDetail Value) (h : Hook Shared) : EvaluationSeriesData Shared :=
  default (data_before context h) (hook_AfterEvaluation h context (data_before context h) detail).

(** An evaluation calls each hook once before, in order, with no data, and once after, in
    reverse order, with the data its own first stage returned. *)
Definition spec_calls hooks context (detail : EvaluationDetail Value) : list (HookCall Shared) :=
  imap (λ i _, Before i []) hooks ++
  rev (imap (λ i h, After i (data_before context h) detail) hooks).

(** A pass over some of the hooks, each at its own position. *)
Lemma stages_run (f : Executor → nat * Hook Shared → Executor)
    (stage : Hook Shared → EvaluationSeriesData Shared → option (EvaluationSeriesData Shared))
    (call : nat → EvaluationSeriesData Shared → HookCall Shared) (name : string) (l : list (nat * Hook Shared)) e :
  (∀ e i h, f e (i, h) = run_stage name (hook_name h) i (call i (data_of e i))
                           (stage h (data_of e i)) e) →
  NoDup l.*1 → (∀ i, i ∈ l.*1 → (i < length (series_data_ e))%nat) →
  let e' := foldl f e l in
  length (series_data_ e') = length (series_data_ e) ∧
  (∀ i h d, (i, h) ∈ l → series_data_ e !! i = Some d → series_data_ e' !! i = Some (default d (stage h d))) ∧
  (∀ i, i ∉ l.*1 → series_data_ e' !! i = series_data_ e !! i) ∧
  hook_calls e' = hook_calls e ++ ((λ ih, call ih.1 (data_of e ih.1)) <$> l).
Proof.
  intros Hf. revert e. induction l as [|[i h] l IH]; intros e Hnd Hlt; simpl.
  { split_and!; [done|by intros ??? ?%not_elem_of_nil|done|by rewrite app_nil_r]. }
  rewrite fmap_cons in Hnd, Hlt. apply NoDup_cons in Hnd as [Hi Hnd]. simpl in Hi.
  destruct (lookup_lt_is_Some_2 (series_data_ e) i) as [d Hd]; [apply Hlt; by left|].
  assert (data_of e i = d) as Hdi by (unfold data_of; by rewrite Hd).
  set (e1 := f e (i, h)).
  assert (series_data_ e1 = <[i := default d (stage h d)]> (series_data_ e) ∧
          hook_calls e1 = hook_calls e ++ [call i d]) as [H1 H2].
  { unfold e1. rewrite Hf, Hdi. unfold run_stage. destruct (stage h d); simpl; [done|].
    by rewrite list_insert_id. }
  destruct (IH e1 Hnd) as (IHl & IHin & IHout & IHc).
  { intros j Hj. rewrite H1, length_insert. apply Hlt. by right. }
  rewrite H1, length_insert in IHl. split_and!; [done| | |].
  - intros j h' d' [[= -> ->]|Hin]%elem_of_cons Hd'.
    + rewrite IHout by done. rewrite H1, list_lookup_insert_eq by (by eapply lookup_lt_Some). congruence.
    + apply IHin; [done|]. rewrite H1, list_lookup_insert_ne; [done|]. intros <-. apply Hi.
      apply list_elem_of_fmap. by exists (i, h').
  - intros j Hj. apply not_elem_of_cons in Hj as [Hne Hj]. simpl in Hne.
    rewrite IHout by done. by rewrite H1, list_lookup_insert_ne by congruence.
  - rewrite IHc, H2, <- app_assoc. cbn [fst app]. rewrite Hdi.
    do 2 f_equal. apply list_fmap_ext.
    intros k [j h'] Hk. unfold data_of. simpl. rewrite H1, list_lookup_insert_ne; [done|]. intros <-. apply Hi.
    apply list_elem_of_fmap. exists (i, h'). split; [done|]. by eapply list_elem_of_lookup_2.
Qed.

Lemma elem_of_imap_pair {A} (l : list A) i x : (i, x) ∈ imap pair l ↔ l !! i = Some x.
Proof.
  rewrite list_elem_of_lookup. setoid_rewrite list_lookup_imap_Some. split.
  - by intros (k & y & Hy & [= -> ->]).
  - intros H. by exists i, x.
Qed.

Lemma imap_pair_fst {A} (l : list A) : (imap pair l).*1 = seq 0 (length l).
Proof. rewrite fmap_imap. unfold compose. simpl. by rewrite imap_seq_0, list_fmap_id. Qed.

(** One stage of each hook over fresh or kept data: the two passes differ in order only. *)
Lemma stage_pass f stage call name hooks (l : list (nat * Hook Shared)) e (held : Hook Shared → EvaluationSeriesData Shared) :
  (∀ e i h, f e (i, h) = run_stage name (hook_name h) i (call i (data_of e i)) (stage h (data_of e i)) e) →
  l ≡ₚ imap pair hooks → series_data_ e = held <$> hooks →
  series_data_ (foldl f e l) = (λ h, default (held h) (stage h (held h))) <$> hooks ∧
  hook_calls (foldl f e l) = hook_calls e ++ ((λ ih, call ih.1 (held ih.2)) <$> l).
Proof.
  intros Hf Hp He.
  destruct (stages_run f stage call name l e Hf) as (Hlen & Hin & _ & Hc).
  { rewrite Hp, imap_pair_fst. apply NoDup_seq. }
  { intros i. rewrite Hp, imap_pair_fst, elem_of_seq, He, length_fmap. lia. }
  assert (∀ i h, (i, h) ∈ l → series_data_ e !! i = Some (held h)) as Hheld.
  { intros i h. rewrite Hp, elem_of_imap_pair, He, list_lookup_fmap. by intros ->. }
  split.
  - apply list_eq_same_length with (length hooks); [by rewrite length_fmap|by rewrite Hlen, He, length_fmap|].
    intros i x y Hi Hx Hy. rewrite list_lookup_fmap in Hy. destruct (hooks !! i) as [h|] eqn:Hh; [|done].
    assert ((i, h) ∈ l) as Hl by (by rewrite Hp, elem_of_imap_pair).
    simpl in Hy. rewrite (Hin i h _ Hl (Hheld i h Hl)) in Hx. congruence.
  - rewrite Hc. f_equal. apply list_fmap_ext. intros k [i h] Hk. simpl. f_equal. unfold data_of.
    by rewrite (Hheld i h) by (by eapply list_elem_of_lookup_2).
Qed.

(** Around an evaluation every hook is called exactly twice, whichever hooks throw: first
    all the before stages, in the order of registration, each with no data; then all the
    after stages, in the reverse order, each with the result of the evaluation and the data
    its own before stage returned (none, if that threw).  The data a hook ends with are
    those of its last stage that did not throw, so one hook never sees another's. *)
Lemma hooks_order hooks context (detail : EvaluationDetail Value) :
  let e := AfterEvaluation hooks context detail (BeforeEvaluation hooks context (new_executor hooks)) in
  hook_calls e = spec_calls hooks context detail ∧ series_data_ e = data_after context detail <$> hooks.
Proof.
  destruct (stage_pass (before_stage context) (λ h, hook_BeforeEvaluation h context) Before "BeforeEvaluation"
              hooks (imap pair hooks) (new_executor hooks) (λ _, [])) as [H1 C1]; [done|done| |].
  { simpl. induction hooks; simpl; by f_equal. }
  destruct (stage_pass (after_stage context detail) (λ h d, hook_AfterEvaluation h context d detail)
              (λ i d, After i d detail) "AfterEvaluation" hooks (rev (imap pair hooks))
              (BeforeEvaluation hooks context (new_executor hooks)) (data_before context)) as [H2 C2];
    [done|by rewrite <- Permutation_rev|done|].
  simpl. split; [|done]. unfold AfterEvaluation. rewrite C2.
  unfold BeforeEvaluation. rewrite C1. unfold spec_calls. simpl. rewrite fmap_imap. f_equal.
  rewrite fmap_rev, fmap_imap. done.
Qed.
End Spec.
