(* ===== verification/EvaluationEvents.v ===== *)
(** * The events of an evaluation

    libs/server-sdk/src/prereq_event_recorder, which watches the events an evaluation
    sends; what those events are; and that they do not bear on the result. *)

From S2P Require Import Prelude Values Contexts Reasons DataModel Externals.
From S2P Require Import Bucketing EvalStack Stores Rules EventData Evaluator.
#[local] Open Scope Z_scope.
#[local] Open Scope eval_scope.

(** ** [PrereqEventRecorder] *)

(** [SendAsync], of the recorder for [flag_key]. *)
Definition recorder_SendAsync (flag_key : string) (prereqs : list string) (event : InputEvent) : list string :=
  match event with
  | Feature feat =>
      match fe_prereq_of feat with
      | Some prereq_of => if str_eqb prereq_of flag_key then prereqs ++ [fe_key feat] else prereqs
      | None => prereqs
      end
  | _ => prereqs
  end.

(** [TakePrerequisites], of a recorder that was sent [events]. *)
Definition TakePrerequisites (flag_key : string) (events : list InputEvent) : list string :=
  foldl (recorder_SendAsync flag_key) [] events.

(** The event of a prerequisite of [k]. *)
Definition prerequisite_of (k : string) (event : InputEvent) : Prop :=
  match event with Feature e => fe_prereq_of e = Some k | _ => False end.

Lemma TakePrerequisites_from k evs l :
  foldl (recorder_SendAsync k) l evs = l ++ TakePrerequisites k evs.
Proof.
  unfold TakePrerequisites. revert l. induction evs as [|ev evs IH]; intros l; simpl; [by rewrite app_nil_r|].
  rewrite IH, (IH (recorder_SendAsync k [] ev)), app_assoc. f_equal.
  unfold recorder_SendAsync. destruct ev as [e|e|e]; [|by rewrite app_nil_r..].
  destruct (fe_prereq_of e); [|by rewrite app_nil_r]. destruct (str_eqb _ _); [done|by rewrite app_nil_r].
Qed.

Lemma TakePrerequisites_app k l1 l2 :
  TakePrerequisites k (l1 ++ l2) = TakePrerequisites k l1 ++ TakePrerequisites k l2.
Proof. unfold TakePrerequisites at 1. by rewrite foldl_app, TakePrerequisites_from. Qed.

Lemma TakePrerequisites_none k evs :
  Forall (λ ev, ∃ k', prerequisite_of k' ev ∧ k' ≠ k) evs → TakePrerequisites k evs = [].
Proof.
  induction 1 as [|ev evs (k' & Hev & Hne) _ IH]; [done|].
  change (ev :: evs) with ([ev] ++ evs). rewrite TakePrerequisites_app, IH, app_nil_r.
  unfold TakePrerequisites. simpl. destruct ev as [e|e|e]; [|done..]. simpl in *.
  rewrite Hev. by rewrite (proj2 (str_eqb_neq _ _)).
Qed.

(** ** The events sent, and what they record *)

Section Events.
Context `{X : Externals} {W : Type} `{!BigSegmentStore W} {St : Type} `{!IStore St} `{!IStoreLaws St}.
Context (source_ : St) (context : Context) (scope : EventScope).
Implicit Types (st : EState W) (d : EvaluationDetail Value).

(** [evs] were sent between the two states. *)
Definition sent st st' (evs : list InputEvent) : Prop := es_events st' = es_events st ++ evs.

Lemma sent_refl st st' : es_events st' = es_events st → sent st st' [].
Proof. intros H. unfold sent. by rewrite H, app_nil_r. Qed.

Lemma sent_trans st1 st2 st3 e1 e2 : sent st1 st2 e1 → sent st2 st3 e2 → sent st1 st3 (e1 ++ e2).
Proof. unfold sent. intros H1 H2. by rewrite H2, H1, app_assoc. Qed.

Lemma FlagVariation_silent flag vi reason st st' d :
  FlagVariation flag vi reason st = Some (st', d) →
  es_events st' = es_events st ∧ es_stack st' = es_stack st ∧ (reason_ d = Some reason ∨ d = malformed).
Proof. unfold FlagVariation. destruct (_ || _); intros [= <- <-]; auto. Qed.

Lemma OffValue_silent flag reason st st' d :
  OffValue flag reason st = Some (st', d) →
  es_events st' = es_events st ∧ es_stack st' = es_stack st ∧ (reason_ d = Some reason ∨ d = malformed).
Proof.
  unfold OffValue. destruct (flag_offVariation flag); [apply FlagVariation_silent|]. intros [= <- <-]. auto.
Qed.

(** The reason of a result that got past the prerequisites. *)
Definition past_prerequisites d : Prop :=
  ∃ r, reason_ d = Some r ∧ kind_ r ≠ Kind.kOff ∧ kind_ r ≠ Kind.kPrerequisiteFailed.

Lemma FlagVariation_past flag vi reason st st' d :
  FlagVariation flag vi reason st = Some (st', d) → kind_ reason ≠ Kind.kOff → kind_ reason ≠ Kind.kPrerequisiteFailed →
  es_events st' = es_events st ∧ past_prerequisites d.
Proof. intros (He & _ & [Hr| ->])%FlagVariation_silent H1 H2; (split; [done|]); by eexists. Qed.

Lemma evaluate_matches_silent contains flag st st' d :
  evaluate_matches source_ context contains flag st = Some (st', d) → es_events st' = es_events st ∧ past_prerequisites d.
Proof.
  unfold evaluate_matches. destruct (AnyTargetMatchVariation _ _); [by intros H; eapply FlagVariation_past in H|].
  generalize 0%nat. revert st. induction (flag_rules flag) as [|rule rules IH]; intros st i; simpl.
  - destruct (Variation _ _ _ _); [by intros H; eapply FlagVariation_past in H|]. intros [= <- <-]. split; [done|by eexists].
  - unfold bind, on_stack. destruct (Match_flag_rule _ _ _ _ _) as [[stk r]|]; [|done].
    destruct r as [[]|e]; [|by intros [-> ?]%IH|intros [= <- <-]; split; [done|by eexists]].
    destruct (Variation _ _ _ _); [by intros H; eapply FlagVariation_past in H|]. intros [= <- <-]. split; [done|by eexists].
Qed.

(** Where the list of prerequisites was left: [evaluated] are those evaluated, [rest] the
    others.  A flag that is off has none evaluated; the prerequisite that failed is the last
    one evaluated, or the first one not evaluated when there is no such flag; an error leaves
    it open; every other result comes after all of them. *)
Definition stopped d (evaluated rest : list string) : Prop :=
  match reason_ d with
  | Some r =>
      match kind_ r with
      | Kind.kOff => evaluated = []
      | Kind.kPrerequisiteFailed =>
          match GetFlag source_ (default EmptyString (prerequisite_key_ r)) ≫= item with
          | Some _ => last evaluated = prerequisite_key_ r
          | None => head rest = prerequisite_key_ r
          end
      | Kind.kError => True
      | _ => rest = []
      end
  | None => rest = []
  end.

(** A result of the loop over the prerequisites. *)
Definition in_loop d : Prop :=
  ∃ r, reason_ d = Some r ∧ ((kind_ r = Kind.kPrerequisiteFailed ∧ is_Some (prerequisite_key_ r)) ∨ kind_ r = Kind.kError).

Lemma past_stopped d evaluated : past_prerequisites d → stopped d evaluated [].
Proof. intros (r & Hr & H1 & H2). unfold stopped. rewrite Hr. by destruct (kind_ r). Qed.

Lemma in_loop_cons d k evaluated rest : in_loop d → stopped d evaluated rest → stopped d (k :: evaluated) rest.
Proof.
  intros (r & Hr & Hk). unfold stopped. rewrite Hr. destruct Hk as [[-> [k' ->]]| ->]; [|done].
  destruct (_ ≫= _); [|done]. intros Hl. by destruct evaluated.
Qed.

(** An early return with the off value. *)
Lemma off_stopped flag reason st st' d evaluated rest :
  OffValue flag reason st = Some (st', d) → stopped (reason_detail VNull reason) evaluated rest → stopped d evaluated rest.
Proof.
  intros (_ & _ & [Hr| ->])%OffValue_silent; [|done]. unfold stopped. by rewrite Hr.
Qed.

(** Events of prerequisites of flags not in [seen], if there is a processor. *)
Definition foreign (seen : gset string) (evs : list InputEvent) : Prop :=
  Forall (λ ev, ∃ k', prerequisite_of k' ev ∧ k' ∉ seen) evs ∧ (scope_processor scope = false → evs = []).

Lemma foreign_weaken S S' evs : S' ⊆ S → foreign S evs → foreign S' evs.
Proof.
  intros HS [H1 H2]. split; [|done]. eapply Forall_impl; [exact H1|]. intros x (k' & Hx & Hk'). exists k'. set_solver.
Qed.

Lemma foreign_app S evs evs' : foreign S evs → foreign S evs' → foreign S (evs ++ evs').
Proof.
  intros [H1 H2] [H3 H4]. split; [by apply Forall_app|]. intros H. by rewrite H2, H4.
Qed.

Lemma foreign_none S k evs : foreign S evs → k ∈ S → TakePrerequisites k evs = [].
Proof.
  intros [H _] Hk. apply TakePrerequisites_none. eapply Forall_impl; [exact H|].
  intros x (k' & Hx & Hk'). exists k'. set_solver.
Qed.

(** What an evaluation of [flag] sends: events of prerequisites of flags that are not being
    evaluated already; those of [flag] itself are a prefix of its prerequisites, which ends
    where [stop] says. *)
Definition events_of (seen : gset string) (k : string) (keys : list string) (stop : list string → list string → Prop)
    (evs : list InputEvent) : Prop :=
  foreign seen evs ∧
  (scope_processor scope = true → ∃ rest, keys = TakePrerequisites k evs ++ rest ∧ stop (TakePrerequisites k evs) rest).

Lemma events_of_nil seen k keys (stop : list string → list string → Prop) : stop [] keys → events_of seen k keys stop [].
Proof. intros H. split; [by split|]. intros _. by exists keys. Qed.

Lemma events_of_impl seen k keys (P Q : list string → list string → Prop) evs :
  (∀ evaluated rest, P evaluated rest → Q evaluated rest) → events_of seen k keys P evs → events_of seen k keys Q evs.
Proof. intros HQ [H1 H2]. split; [done|]. intros Hs. destruct (H2 Hs) as (rest & ? & ?). exists rest. auto. Qed.

(** One turn of the loop: the events of the prerequisite's own evaluation, its event, the rest. *)
Lemma events_of_cons seen k p ps (stop stop' : list string → list string → Prop) evs ev evs' :
  (∀ evaluated rest, stop evaluated rest → stop' (prereq_key p :: evaluated) rest) → k ∉ seen → foreign ({[k]} ∪ seen) evs →
  (scope_processor scope = true → ∃ e, ev = [Feature e] ∧ fe_key e = prereq_key p ∧ fe_prereq_of e = Some k) →
  (scope_processor scope = false → ev = []) →
  events_of seen k (prereq_key <$> ps) stop evs' →
  events_of seen k (prereq_key <$> p :: ps) stop' (evs ++ ev ++ evs').
Proof.
  intros Hstop Hk Hevs Hon Hoff [H1 H2]. split.
  - apply foreign_app; [|apply foreign_app; [|done]].
    + eapply foreign_weaken; [|exact Hevs]. set_solver.
    + split; [|done]. destruct (scope_processor scope); [|by rewrite Hoff].
      destruct Hon as (e & -> & _ & He); [done|]. constructor; [|done]. by exists k.
  - intros Hs. destruct (H2 Hs) as (rest & Hr & Hw). destruct (Hon Hs) as (e & -> & Hke & He).
    assert (TakePrerequisites k (evs ++ [Feature e] ++ evs') = prereq_key p :: TakePrerequisites k evs') as ->.
    { rewrite !TakePrerequisites_app, (foreign_none _ _ _ Hevs) by set_solver. unfold TakePrerequisites at 1. simpl.
      by rewrite He, str_eqb_refl, Hke. }
    exists rest. rewrite fmap_cons, Hr. auto.
Qed.

Abbreviation seen st := (prerequisites_seen_ (es_stack st)).

(** Where an activation stops, given what it returned before the targets and the rules. *)
Definition stop_at (r : option (EvaluationDetail Value)) (evaluated rest : list string) : Prop :=
  match r with None => rest = [] | Some d => stopped d evaluated rest end.

Lemma off_return flag reason st st' r :
  (d <- OffValue flag reason;; mret (Some d)) st = Some (st', r) →
  seen st' = seen st ∧ es_events st' = es_events st ∧
  (∀ evaluated rest, stopped (reason_detail VNull reason) evaluated rest → stop_at r evaluated rest) ∧
  ∃ d, r = Some d ∧ (reason_ d = Some reason ∨ d = malformed).
Proof.
  unfold bind. destruct (OffValue _ _ _) as [[st2 d]|] eqn:E; [|done]. intros [= <- <-].
  destruct (OffValue_silent _ _ _ _ _ E) as (H1 & H2 & H3). split_and!; [by rewrite H2|done| |by eexists].
  intros evaluated rest. by eapply off_stopped.
Qed.

(** The return for a prerequisite that failed. *)
Lemma failed_return flag k st st' r :
  (d <- OffValue flag (PrerequisiteFailed k);; mret (Some d)) st = Some (st', r) →
  seen st' = seen st ∧ es_events st' = es_events st ∧ (∀ d, r = Some d → in_loop d) ∧
  (∀ evaluated rest,
    match GetFlag source_ k ≫= item with Some _ => last evaluated = Some k | None => head rest = Some k end →
    stop_at r evaluated rest).
Proof.
  intros (H1 & H2 & H3 & d & -> & Hd)%off_return. split_and!; [done..| |].
  - intros ? [= <-]. destruct Hd as [Hr| ->]; [|by eexists; split; [done|right]].
    eexists. split; [done|]. left. split; [done|by eexists].
  - intros evaluated rest H. by apply H3.
Qed.

(** The state after the event of a prerequisite. *)
Definition after_send p f d flag st : EState W :=
  mkEState (es_stack st) (es_log st) (Send scope (λ policy now,
    Eval policy now (prereq_key p) context (Some f) d VNull (Some (flag_key flag))) (es_events st)).

Lemma send_events p f d flag st :
  ∃ ev, sent st (after_send p f d flag st) ev ∧
    (scope_processor scope = true → ∃ e, ev = [Feature e] ∧ fe_key e = prereq_key p ∧ fe_prereq_of e = Some (flag_key flag)) ∧
    (scope_processor scope = false → ev = []).
Proof.
  unfold sent, after_send, Send. simpl. destruct (scope_processor scope); eexists.
  - split_and!; [done| |done]. intros _. by eexists.
  - split_and!; [by rewrite app_nil_r|done|done].
Qed.

(** What an activation of [Evaluate] guarantees, as the recursion uses it. *)
Definition nested (P : EState W → Prop) (evaluate : Flag → M (EState W) (EvaluationDetail Value)) : Prop :=
  ∀ key v f st st' d, GetFlag source_ key = Some (mkDescriptor v (Some f)) → P st → evaluate f st = Some (st', d) →
    P st' ∧ seen st' = seen st ∧ (IsError d = true → d = malformed) ∧
    ∃ evs, sent st st' evs ∧ foreign (seen st) evs.

Lemma check_prerequisites_events (P : EState W → Prop) evaluate flag S ps st st' r :
  nested P evaluate → (∀ st p f d, P st → P (after_send p f d flag st)) →
  flag_key flag ∉ S → seen st = {[flag_key flag]} ∪ S → P st →
  check_prerequisites source_ context scope evaluate flag ps st = Some (st', r) →
  seen st' = seen st ∧ (∀ d, r = Some d → in_loop d) ∧
  ∃ evs, sent st st' evs ∧ events_of S (flag_key flag) (prereq_key <$> ps) (stop_at r) evs.
Proof.
  intros Hev Hsend HS. revert st. induction ps as [|p ps IH]; intros st Hseen HP; simpl.
  { intros [= <- <-]. split_and!; [done|done|]. exists []. split; [by apply sent_refl|]. by apply events_of_nil. }
  destruct (GetFlag source_ (prereq_key p)) as [[v [f|]]|] eqn:Hg.
  2,3: (intros (H1 & H2 & H3 & H4)%failed_return; split_and!; [done|done|]; exists [];
        split; [by apply sent_refl|]; apply events_of_nil, H4; by rewrite Hg).
  unfold bind at 1. destruct (evaluate f st) as [[st1 d]|] eqn:E; [|done].
  destruct (Hev _ _ _ _ _ _ Hg HP E) as (HP1 & Hs1 & He & evs & Hsent & Hevs).
  rewrite Hseen in Hevs. destruct (IsError d).
  { intros [= <- <-]. rewrite He by done. split_and!; [done| |].
    { intros ? [= <-]. by eexists; split; [done|right]. }
    exists evs. split; [done|]. split.
    - eapply foreign_weaken; [|exact Hevs]. set_solver.
    - intros _. exists (prereq_key <$> p :: ps). split; [|done]. by rewrite (foreign_none _ _ _ Hevs) by set_solver. }
  specialize (Hsend st1 p f d HP1). unfold bind at 1. cbn [send_prerequisite_event modify].
  fold (after_send p f d flag st1). set (st2 := after_send p f d flag st1) in *.
  destruct (send_events p f d flag st1) as (ev & Hev2 & Hon & Hno).
  assert (∀ evs' (stop : list string → list string → Prop), sent st2 st' evs' →
    (∀ evaluated rest, stop evaluated rest → stop_at r (prereq_key p :: evaluated) rest) →
    events_of S (flag_key flag) (prereq_key <$> ps) stop evs' →
    ∃ evs, sent st st' evs ∧ events_of S (flag_key flag) (prereq_key <$> p :: ps) (stop_at r) evs) as Hlift.
  { intros evs' stop H1 Hstop H2. exists (evs ++ ev ++ evs'). split; [|by eapply events_of_cons].
    eapply sent_trans; [done|]. by eapply sent_trans. }
  destruct (_ || _).
  - intros (H1 & H2 & H3 & H4)%failed_return. split_and!; [by rewrite H1|done|].
    apply (Hlift [] (λ evaluated _, evaluated = [])); [by apply sent_refl| |by apply events_of_nil].
    intros evaluated rest ->. apply H4. by rewrite Hg.
  - intros H. apply IH in H as (H1 & H2 & evs' & H3 & H4); [|by rewrite <- Hseen | done].
    split_and!; [by rewrite H1|done|]. apply (Hlift evs' (stop_at r)); [done| |done].
    intros evaluated rest. destruct r as [d'|]; [|done]. by apply in_loop_cons, H2.
Qed.

(** The fuel suffices, and the recursion keeps it so. *)
Definition ready (K : gset string) (seg_fuel n : nat) st : Prop :=
  seg_ready source_ seg_fuel st ∧ (unseen_flags K st < n)%nat.

Lemma ready_stable K seg_fuel n st st' :
  ready K seg_fuel n st → seen st' = seen st → segments_seen_ (es_stack st') = segments_seen_ (es_stack st) →
  ready K seg_fuel n st'.
Proof.
  intros [H1 H2] Hp Hs. split; [by eapply seg_ready_stable|]. unfold unseen_flags in *. by rewrite Hp.
Qed.

Lemma ready_enter K seg_fuel n k st stk :
  ready K seg_fuel (S n) st → k ∈ K → k ∉ seen st → prerequisites_seen_ stk = {[k]} ∪ seen st →
  segments_seen_ stk = segments_seen_ (es_stack st) → ready K seg_fuel n (set_stack stk st).
Proof.
  intros [H1 H2] Hk Hin Hp Hs. split; [by eapply seg_ready_stable|]. unfold unseen_flags in *. simpl. rewrite Hp.
  eapply Nat.lt_le_trans; [|apply Nat.lt_succ_r, H2]. apply subset_size. set_solver.
Qed.

Lemma nested_flags K seg_fuel n parent :
  stored_flag_keys source_ ⊆ K →
  (∀ flag st st' d, flag_key flag ∈ K → ready K seg_fuel n st →
     evaluate_flag source_ context scope seg_fuel n parent flag st = Some (st', d) →
     ∃ evs, sent st st' evs ∧ foreign (seen st) evs) →
  nested (ready K seg_fuel n) (evaluate_flag source_ context scope seg_fuel n parent).
Proof.
  intros HK IH key v f st st' d Hg HP E.
  assert (flag_key f ∈ K) as Hf by (apply HK; by eapply stored_flag_key).
  assert (PreOrder (λ _ _ : option W * BigSegmentsStatus.t * gmap string Membership * gset string, True)) as HQ by done.
  destruct (evaluate_flag_post source_ context scope (λ _ _, True) (λ _ _, I) K seg_fuel n parent f HK Hf st HP)
    as (st1 & d1 & E1 & (Hp & Hs & _) & Hd & _).
  rewrite E in E1. injection E1 as <- <-. split_and!; [by eapply ready_stable|done| |by eapply IH].
  by apply (detail_ok_error _ _ Hd).
Qed.

(** What runs under the guard. *)
Lemma guarded_events P evaluate flag S st st' r :
  nested P evaluate → (∀ st p f d, P st → P (after_send p f d flag st)) →
  flag_key flag ∉ S → seen st = {[flag_key flag]} ∪ S → P st →
  guarded source_ context scope evaluate flag st = Some (st', r) →
  ∃ evs, sent st st' evs ∧ events_of S (flag_key flag) (prereq_key <$> flag_prerequisites flag) (stop_at r) evs.
Proof.
  intros Hev Hsend HS Hseen HP. unfold guarded. destruct (flag_on flag); simpl.
  - intros H. eapply check_prerequisites_events in H as (_ & _ & ?); done.
  - intros (H1 & H2 & H3 & _)%off_return. exists []. split; [by apply sent_refl|]. by apply events_of_nil, H3.
Qed.

Lemma evaluate_flag_events K seg_fuel n parent flag st st' d :
  stored_flag_keys source_ ⊆ K → flag_key flag ∈ K →
  ready K seg_fuel n st →
  evaluate_flag source_ context scope seg_fuel n parent flag st = Some (st', d) →
  ∃ evs, sent st st' evs ∧ foreign (seen st) evs ∧
    (flag_key flag ∉ seen st →
       events_of (seen st) (flag_key flag) (prereq_key <$> flag_prerequisites flag) (stopped d) evs).
Proof.
  intros HK. revert parent flag st st' d. induction n as [|n IH]; intros parent flag st st' d Hk HP; [by destruct HP; lia|].
  cbn [evaluate_flag]. unfold evaluate_step, NoticePrerequisite. case_bool_decide as Hin.
  { intros [= <- <-]. exists []. split_and!; [by apply sent_refl|by split|done]. }
  set (st1 := set_stack _ st).
  destruct (guarded _ _ _ _ flag st1) as [[st2 r]|] eqn:E; [|done]. intros Hrest.
  eapply (guarded_events (ready K seg_fuel n)) with (S := seen st) in E as (evs & Hs & Hevs); [|..|done|done|].
  2: { apply nested_flags; [done|]. intros f s s' d' Hf HP' (evs & H1 & H2 & _)%IH; eauto. }
  2: { intros s p f d' H. by eapply ready_stable. }
  2: { by eapply ready_enter. }
  assert (es_events st' = es_events st2 ∧ ∀ evaluated rest, stop_at r evaluated rest → stopped d evaluated rest) as [Hst' Hd].
  { destruct r as [d'|]; [by injection Hrest as <- <-|]. apply evaluate_matches_silent in Hrest as [-> Hp].
    split; [done|]. intros evaluated rest ->. by apply past_stopped. }
  exists evs. split_and!; [unfold sent; by rewrite Hst'|apply Hevs|].
  intros _. by eapply events_of_impl.
Qed.
End Events.

(** ** The result does not depend on where the events go *)

Section Scopes.
Context `{X : Externals} {W : Type} `{!BigSegmentStore W} {St : Type} `{!IStore St}.
Context (source_ : St) (context : Context) (scope scope' : EventScope).

(** States that differ in their events only, and computations that keep them so. *)
Definition alike (st st' : EState W) : Prop := es_stack st = es_stack st' ∧ es_log st = es_log st'.

Definition agree {A} (m m' : M (EState W) A) : Prop :=
  ∀ st st', alike st st' →
    match m st, m' st' with
    | Some (s, a), Some (s', a') => alike s s' ∧ a = a'
    | None, None => True
    | _, _ => False
    end.

Lemma agree_ret {A} (a : A) : agree (mret a) (mret a).
Proof. by intros st st' H. Qed.

Lemma agree_bind {A B} (m m' : M (EState W) A) (k k' : A → M (EState W) B) :
  agree m m' → (∀ a, agree (k a) (k' a)) → agree (bind m k) (bind m' k').
Proof.
  intros Hm Hk st st' H. unfold bind. specialize (Hm st st' H).
  destruct (m st) as [[s a]|], (m' st') as [[s' a']|]; try done. destruct Hm as [Hs ->]. by apply Hk.
Qed.

Lemma agree_fail key e : agree (fail key e) (fail key e).
Proof. intros st st' [H1 H2]. simpl. split; [|done]. by split; simpl; [|f_equal]. Qed.

Lemma agree_FlagVariation flag vi reason : agree (FlagVariation flag vi reason) (FlagVariation flag vi reason).
Proof. unfold FlagVariation. destruct (_ || _); [apply agree_fail|apply agree_ret]. Qed.

Lemma agree_OffValue flag reason : agree (OffValue flag reason) (OffValue flag reason).
Proof. unfold OffValue. destruct (flag_offVariation flag); [apply agree_FlagVariation|apply agree_ret]. Qed.

Lemma agree_on_stack {A} (m : M (EvaluationStack W) A) : agree (on_stack m) (on_stack m).
Proof. intros st st' [H1 H2]. unfold on_stack. rewrite H1. by destruct (m _) as [[stk a]|]. Qed.

Lemma agree_send p f d flag :
  agree (send_prerequisite_event context scope p f d flag) (send_prerequisite_event context scope' p f d flag).
Proof. by intros st st' [H1 H2]. Qed.

Create HintDb agree.
#[local] Hint Resolve agree_ret agree_bind agree_fail agree_FlagVariation agree_OffValue agree_on_stack agree_send : agree.

Lemma agree_matches contains flag :
  agree (evaluate_matches source_ context contains flag) (evaluate_matches source_ context contains flag).
Proof.
  unfold evaluate_matches. destruct (AnyTargetMatchVariation _ _); auto with agree.
  generalize 0%nat. induction (flag_rules flag) as [|rule rules IH]; intros i; simpl.
  - destruct (Variation _ _ _ _); auto with agree.
  - apply agree_bind; auto with agree. intros [[]|e]; auto with agree. destruct (Variation _ _ _ _); auto with agree.
Qed.

Lemma agree_guarded evaluate evaluate' flag :
  (∀ f, agree (evaluate f) (evaluate' f)) →
  agree (guarded source_ context scope evaluate flag) (guarded source_ context scope' evaluate' flag).
Proof.
  intros He. unfold guarded. destruct (negb (flag_on flag)); auto with agree.
  induction (flag_prerequisites flag) as [|p ps IH]; simpl; auto with agree.
  destruct (GetFlag source_ (prereq_key p)) as [[v [f|]]|]; auto with agree.
  apply agree_bind; auto with agree. intros d. destruct (IsError d); auto with agree.
  apply agree_bind; auto with agree. intros _. destruct (_ || _); auto with agree.
Qed.

Lemma agree_flag seg_fuel n parent flag :
  agree (evaluate_flag source_ context scope seg_fuel n parent flag)
        (evaluate_flag source_ context scope' seg_fuel n parent flag).
Proof.
  revert parent flag. induction n as [|n IH]; intros parent flag; [by intros st st' H|].
  cbn [evaluate_flag]. intros st st' Hst. unfold evaluate_step. rewrite (proj1 Hst).
  destruct (NoticePrerequisite _ _) as [stk|]; [|by apply agree_fail].
  pose proof (agree_guarded _ _ flag (λ f, IH (Some (flag_key flag)) f) (set_stack stk st) (set_stack stk st')
    (conj eq_refl (proj2 Hst))) as Hg.
  destruct (guarded _ _ scope _ _ _) as [[s r]|], (guarded _ _ scope' _ _ _) as [[s' r']|];
    try done.
  destruct Hg as [[H1 H2] ->]. destruct r' as [d|].
  - split; [|done]. split; simpl; [by rewrite H1|done].
  - apply agree_matches. split; simpl; [by rewrite H1|done].
Qed.

(** Two evaluations that differ in their scope return the same detail, log the same and
    leave the same Big Segment store. *)
Lemma Evaluate_scope (store : option W) flag :
  match Evaluate source_ context scope store flag, Evaluate source_ context scope' store flag with
  | Some (s, d), Some (s', d') => alike s s' ∧ d = d'
  | None, None => True
  | _, _ => False
  end.
Proof.
  unfold Evaluate. set (st := mkEState _ _ _).
  pose proof (agree_flag (segment_fuel source_) (flag_fuel source_ flag) None flag st st (conj eq_refl eq_refl)) as H.
  destruct (evaluate_flag _ _ scope _ _ _ _ _) as [[s d]|], (evaluate_flag _ _ scope' _ _ _ _ _) as [[s' d']|]; try done.
  destruct H as [[H1 H2] ->]. rewrite H1. split; [by split|done].
Qed.
End Scopes.

(** ** What [Evaluate] reports to a recorder *)

Section Recorded.
Context `{X : Externals} {W : Type} `{!BigSegmentStore W} {St : Type} `{!IStore St} `{!IStoreLaws St}.

Lemma Evaluate_result (source_ : St) context scope (store : option W) flag :
  ∃ st d, Evaluate source_ context scope store flag = Some (st, d) ∧ result_ok flag d.
Proof.
  destruct (Evaluate_post source_ context scope core_grows store flag
    (λ seg st, MatchBigSegment_grows seg context st)) as (st & d & E & _ & HD & _).
  unfold Evaluate. rewrite E. destruct (detail_ok_result flag d (stack_status_ (es_stack st)) HD).
  case_bool_decide; eauto.
Qed.

Lemma stopped_status (source_ : St) d status evaluated rest :
  stopped source_ d evaluated rest → stopped source_ (WithBigSegmentsStatus d status) evaluated rest.
Proof. unfold stopped, WithBigSegmentsStatus. by destruct (reason_ d) as [r|] eqn:E; [|rewrite E]. Qed.

(** The events of an evaluation, whichever the Big Segments status. *)
Lemma Evaluate_events (source_ : St) context scope (store : option W) flag st d :
  Evaluate source_ context scope store flag = Some (st, d) →
  Forall (λ ev, ∃ k, prerequisite_of k ev) (es_events st) ∧
  (scope_processor scope = false → es_events st = []) ∧
  (scope_processor scope = true →
     ∃ rest, prereq_key <$> flag_prerequisites flag = TakePrerequisites (flag_key flag) (es_events st) ++ rest ∧
       stopped source_ d (TakePrerequisites (flag_key flag) (es_events st)) rest).
Proof.
  unfold Evaluate. destruct (evaluate_flag _ _ _ _ _ _ _ _) as [[st1 d1]|] eqn:E; [|done]. intros H.
  apply (evaluate_flag_events source_ context scope ({[flag_key flag]} ∪ stored_flag_keys source_)) in E
    as (evs & Hs & Hall & Hevs); [|set_solver|set_solver|].
  2: { split; [unfold seg_ready, unseen, segment_fuel|unfold unseen_flags, flag_fuel]; simpl;
       rewrite difference_empty_L; lia. }
  injection H as <- <-. unfold sent in Hs. simpl in Hs. subst evs. destruct Hall as [Hall Hoff]. split_and!; [|done|].
  - eapply Forall_impl; [exact Hall|]. intros ev (k & ? & _). eauto.
  - intros Hp. destruct (proj2 (Hevs (not_elem_of_empty _)) Hp) as (rest & H1 & H2). exists rest. split; [done|].
    case_bool_decide; [done|]. by apply stopped_status.
Qed.
End Recorded.
