(* ===== verification/ServerClient.v ===== *)
(** * The server-side client

    libs/server-sdk/src/client_impl.cpp (variations, tracking, [AllFlagsState]),
    client_impl.hpp ([VariationDetail]), all_flags_state and the
    option operators of client.cpp: the evaluator, the event factory and the hooks as the
    client composes them.

    Each call returns what it computes and what it did: the events handed to the event
    processor, the hook calls, the lines logged and the Big Segment store afterwards.
    [None] is an evaluation out of fuel, which the theorems exclude. *)

From S2P Require Import Prelude OrderedMap Doubles Values Contexts Reasons DataModel Externals ReferenceExternals.
From S2P Require Import Bucketing EvalStack Stores Rules EventData Evaluator EvaluationEvents Hooks.
#[local] Open Scope Z_scope.

(** ** [AllFlagsState] *)

(** [AllFlagsState::Options], bits of a [uint8_t] *)
Module Options.
Definition Default : Z := 0.
Definition IncludeReasons : Z := Z.shiftl 1 0.
Definition DetailsOnlyForTrackedFlags : Z := Z.shiftl 1 1.
Definition ClientSideOnly : Z := Z.shiftl 1 2.
End Options.

Definition options_or (lhs rhs : Z) : Z := Z.lor lhs rhs.
Definition options_and (lhs rhs : Z) : Z := Z.land lhs rhs.

Definition IsSet (options flag : Z) : bool := options_and options flag =? flag.
Definition NotSet (options flag : Z) : bool := negb (IsSet options flag).

(** [AllFlagsState::State] *)
Record State := mkState {
  version_ : Z;
  state_variation_ : option Z;
  state_reason_ : option EvaluationReason;
  track_events_ : bool;
  track_reason_ : bool;
  debug_events_until_date_ : option Z;
  omit_details_ : bool;
  prerequisites_ : list string;
}.

Definition new_state (version : Z) (variation : option Z) (reason : option EvaluationReason)
    (track_events track_reason : bool) (debug_events_until_date : option Z) (prerequisites : list string) : State :=
  mkState version variation reason track_events track_reason debug_events_until_date false prerequisites.

Record FlagsState := mkFlagsState {
  fs_valid_ : bool;
  evaluations_ : gmap string Value;
  flags_state_ : gmap string State;
}.

(** [AllFlagsState()] *)
Definition invalid_state : FlagsState := mkFlagsState false ∅ ∅.

(** [AllFlagsStateBuilder] *)
Record StateBuilder := mkStateBuilder {
  builder_states : gmap string State;
  builder_evaluations : gmap string Value;
}.

Definition new_builder : StateBuilder := mkStateBuilder ∅ ∅.

Definition IsDebuggingEnabled (now_unix_millis : Z) (debug_events_until : option Z) : bool :=
  match debug_events_until with Some d => now_unix_millis <? d | None => false end.

(** [std::unordered_map::emplace] keeps an entry that is there. *)
Definition map_emplace {A} (key : string) (x : A) (m : gmap string A) : gmap string A :=
  match m !! key with Some _ => m | None => <[key := x]> m end.

(** What [AddFlag] makes of the state it is given. *)
Definition adjusted (options now_unix_millis : Z) (flag : State) : State :=
  let omit := IsSet options Options.DetailsOnlyForTrackedFlags &&
    (negb (track_events_ flag) && negb (track_reason_ flag) &&
     negb (IsDebuggingEnabled now_unix_millis (debug_events_until_date_ flag))) in
  let drop := NotSet options Options.IncludeReasons && negb (track_reason_ flag) in
  mkState (version_ flag) (state_variation_ flag) (if drop then None else state_reason_ flag)
    (track_events_ flag) (track_reason_ flag) (debug_events_until_date_ flag)
    (if omit then true else omit_details_ flag) (prerequisites_ flag).

Definition AddFlag (options now_unix_millis : Z) (key : string) (value : Value) (flag : State)
    (b : StateBuilder) : StateBuilder :=
  mkStateBuilder (map_emplace key (adjusted options now_unix_millis flag) (builder_states b))
    (map_emplace key value (builder_evaluations b)).

Definition builder_Build (b : StateBuilder) : FlagsState :=
  mkFlagsState true (builder_evaluations b) (builder_states b).

(** ** [ClientImpl] *)

(** What a call returned and did. *)
Record Outcome (Shared W A : Type) := mkOutcome {
  out_value : A;
  out_events : list InputEvent;
  out_hooks : option (@Executor Shared);
  out_log : list string;
  out_store : option W;
}.
Arguments mkOutcome {Shared W A} _ _ _ _ _.
Arguments out_value {Shared W A} _.
Arguments out_events {Shared W A} _.
Arguments out_hooks {Shared W A} _.
Arguments out_log {Shared W A} _.
Arguments out_store {Shared W A} _.

Definition map_outcome {Shared W A B} (f : A → B) (o : Outcome Shared W A) : Outcome Shared W B :=
  mkOutcome (f (out_value o)) (out_events o) (out_hooks o) (out_log o) (out_store o).

(** The data system (its store, and whether it is initialized), whether there is an event
    processor, the readings of the clock, the Big Segment store and the hooks of the
    configuration. *)
Record ClientImpl (Shared W St : Type) := mkClient {
  data_system_ : St;
  data_system_Initialized : bool;
  event_processor_ : bool;
  client_clock : nat → Date;
  client_store_ : option W;
  config_Hooks : list (Hook Shared);
}.
Arguments mkClient {Shared W St} _ _ _ _ _ _.
Arguments data_system_ {Shared W St} _.
Arguments data_system_Initialized {Shared W St} _.
Arguments event_processor_ {Shared W St} _.
Arguments client_clock {Shared W St} _ _.
Arguments client_store_ {Shared W St} _.
Arguments config_Hooks {Shared W St} _.

(** The same client, its Big Segment store in another state. *)
Definition with_store {Shared W St} (w : option W) (c : ClientImpl Shared W St) : ClientImpl Shared W St :=
  mkClient (data_system_ c) (data_system_Initialized c) (event_processor_ c) (client_clock c) w (config_Hooks c).

Definition IsFlagPresent (flag_desc : option FlagDescriptor) : bool :=
  match flag_desc with Some d => match item d with Some _ => true | None => false end | None => false end.

Section Client.
Context `{X : Externals} {Shared W : Type} `{!BigSegmentStore W} {St : Type} `{!IStore St}.
Variable c : ClientImpl Shared W St.
Implicit Types (ctx : Context) (key : string) (hook_context : HookContext Shared).
Abbreviation Out := (Outcome Shared W).

Definition client_Initialized : bool := data_system_Initialized c.

Definition events_default_ : EventScope := mkScope (event_processor_ c) ReasonPolicy.Default (client_clock c).
Definition events_with_reasons_ : EventScope := mkScope (event_processor_ c) ReasonPolicy.Require (client_clock c).

Definition LogVariationCall key (flag_present : bool) : list string :=
  if client_Initialized then
    if negb flag_present then ["Unknown feature flag " +:+ key +:+ "; returning default value"] else []
  else if flag_present
  then ["LaunchDarkly client has not yet been initialized; using last known flag rules from data store"]
  else ["LaunchDarkly client has not yet been initialized; returning default value"].

Definition PreEvaluationChecks ctx : option ErrorKind.t :=
  if negb client_Initialized then Some ErrorKind.kClientNotReady
  else if negb (Context_Valid ctx) then Some ErrorKind.kUserNotSpecified
  else None.

(** The result and the events sent, after [sent]. *)
Definition PostEvaluation key ctx (default_value : Value) (error_or_detail : ErrorKind.t + EvaluationDetail Value)
    (event_scope : EventScope) (flag : option Flag) (sent : list InputEvent) :
    EvaluationDetail Value * list InputEvent :=
  match error_or_detail with
  | inl error =>
      let detail := error_detail error default_value in
      (detail, Send event_scope (λ policy now, UnknownFlag policy now key ctx detail default_value) sent)
  | inr arg =>
      let detail := mkDetail
        (match variation_index_ arg with None => default_value | Some _ => value_ arg end)
        (variation_index_ arg) (reason_ arg) in
      (detail, Send event_scope (λ policy now, Eval policy now key ctx flag detail default_value None) sent)
  end.

(** [executor], and what [executor->AfterEvaluation] makes of it, around a result and its events. *)
Definition hooked (series_context : EvaluationSeriesContext Shared) (log : list string) (store : option W)
    (r : EvaluationDetail Value * list InputEvent) : Out (EvaluationDetail Value) :=
  let hooks := config_Hooks c in
  let executor := match hooks with [] => None | _ => Some (BeforeEvaluation hooks series_context (new_executor hooks)) end in
  mkOutcome r.1 r.2 (AfterEvaluation hooks series_context r.1 <$> executor) log store.

Definition VariationInternal ctx key (default_value : Value) (event_scope : EventScope) hook_context
    (method_name : string) : option (Out (EvaluationDetail Value)) :=
  let finish := hooked (mkSeriesContext key ctx default_value method_name hook_context None) in
  match PreEvaluationChecks ctx with
  | Some error =>
      Some (finish [] (client_store_ c) (PostEvaluation key ctx default_value (inl error) event_scope None []))
  | None =>
      let flag_rule := GetFlag (data_system_ c) key in
      let log := LogVariationCall key (IsFlagPresent flag_rule) in
      match flag_rule with
      | Some (mkDescriptor _ (Some flag)) =>
          match Evaluate (data_system_ c) ctx event_scope (client_store_ c) flag with
          | Some (st, result) =>
              Some (finish log (big_segment_store_ (es_stack st))
                     (PostEvaluation key ctx default_value (inr result) event_scope (Some flag) (es_events st)))
          | None => None
          end
      | _ =>
          Some (finish log (client_store_ c)
                 (PostEvaluation key ctx default_value (inl ErrorKind.kFlagNotFound) event_scope None []))
      end
  end.

(** [VariationDetail<T>]: a [Value] converts to a [T] by its accessor. *)
Definition VariationDetail {T} (as_T : Value → T) ctx (value_type : ValueType.t) key (default_value : Value)
    hook_context (method_name : string) : option (Out (EvaluationDetail T)) :=
  map_outcome (λ result,
    if bool_decide (Type_of (value_ result) = value_type)
    then mkDetail (as_T (value_ result)) (variation_index_ result) (reason_ result)
    else error_detail ErrorKind.kWrongType (as_T default_value)) <$>
  VariationInternal ctx key default_value events_with_reasons_ hook_context method_name.

Definition Variation ctx (value_type : ValueType.t) key (default_value : Value) hook_context
    (method_name : string) : option (Out Value) :=
  map_outcome (λ detail,
    if bool_decide (Type_of (value_ detail) = value_type) then value_ detail else default_value) <$>
  VariationInternal ctx key default_value events_default_ hook_context method_name.

Definition BoolVariationDetail ctx key (default_value : bool) hook_context :=
  VariationDetail AsBool ctx ValueType.kBool key (VBool default_value) hook_context "BoolVariationDetail".

Definition BoolVariation ctx key (default_value : bool) hook_context : option (Out bool) :=
  map_outcome AsBool <$> Variation ctx ValueType.kBool key (VBool default_value) hook_context "BoolVariation".

Definition StringVariationDetail ctx key (default_value : string) hook_context :=
  VariationDetail AsString ctx ValueType.kString key (VString default_value) hook_context "StringVariationDetail".

Definition StringVariation ctx key (default_value : string) hook_context : option (Out string) :=
  map_outcome AsString <$> Variation ctx ValueType.kString key (VString default_value) hook_context "StringVariation".

Definition DoubleVariationDetail ctx key (default_value : double) hook_context :=
  VariationDetail AsDouble ctx ValueType.kNumber key (VNumber default_value) hook_context "DoubleVariationDetail".

Definition DoubleVariation ctx key (default_value : double) hook_context : option (Out double) :=
  map_outcome AsDouble <$> Variation ctx ValueType.kNumber key (VNumber default_value) hook_context "DoubleVariation".

(** An [int] is [None] where its conversion from [double] is undefined. *)
Definition IntVariationDetail ctx key (default_value : Z) hook_context :=
  VariationDetail AsInt ctx ValueType.kNumber key (of_int default_value) hook_context "IntVariationDetail".

Definition IntVariation ctx key (default_value : Z) hook_context : option (Out (option Z)) :=
  map_outcome AsInt <$> Variation ctx ValueType.kNumber key (of_int default_value) hook_context "IntVariation".

Definition JsonVariationDetail ctx key (default_value : Value) hook_context :=
  VariationInternal ctx key default_value events_with_reasons_ hook_context "JsonVariationDetail".

Definition JsonVariation ctx key (default_value : Value) hook_context : option (Out Value) :=
  map_outcome value_ <$> VariationInternal ctx key default_value events_default_ hook_context "JsonVariation".

(** *** Other events *)

Definition client_Identify ctx : list InputEvent :=
  Send events_default_ (λ _ now, IdentifyEvent now ctx) [].

Definition TrackInternal ctx (event_name : string) (data : option Value) (metric_value : option double)
    hook_context : Out unit :=
  if negb (Context_Valid ctx)
  then mkOutcome () [] None ["Track method called with an invalid context"] (client_store_ c)
  else
    let hooks := config_Hooks c in
    let executor :=
      match hooks with
      | [] => None
      | _ => Some (ExecuteAfterTrack hooks (mkTrackContext ctx event_name metric_value data hook_context None)
                     (new_executor hooks))
      end in
    mkOutcome () (Send events_default_ (λ _ now, Custom now ctx event_name data metric_value) []) executor []
      (client_store_ c).

Definition Track_metric ctx (event_name : string) (data : Value) (metric_value : double) hook_context : Out unit :=
  TrackInternal ctx event_name (Some data) (Some metric_value) hook_context.
Definition Track_data ctx (event_name : string) (data : Value) hook_context : Out unit :=
  TrackInternal ctx event_name (Some data) None hook_context.
Definition Track_name ctx (event_name : string) hook_context : Out unit :=
  TrackInternal ctx event_name None None hook_context.

(** *** [AllFlagsState] *)

(** The scope of a recorder. *)
Definition recorder_scope : EventScope := mkScope true ReasonPolicy.Default (client_clock c).

(** The [AllFlagsState::State] of an evaluated flag. *)
Definition state_of key (flag : Flag) (detail : EvaluationDetail Value) (recorded : list InputEvent) : State :=
  let in_experiment := IsExperimentationEnabled flag (reason_ detail) in
  new_state (flag_version flag) (s64 <$> variation_index_ detail) (reason_ detail)
    (flag_trackEvents flag || in_experiment) in_experiment (flag_debugEventsUntilDate flag)
    (TakePrerequisites key recorded).

(** The turn of the loop for one entry of the store; the Big Segment store goes along. *)
Definition add_state ctx (options : Z) (now_unix_millis : string → Z) (entry : string * FlagDescriptor)
    (acc : option W * StateBuilder) : option (option W * StateBuilder) :=
  let '(key, v) := entry in
  match item v with
  | None => Some acc
  | Some flag =>
      if IsSet options Options.ClientSideOnly && negb (flag_usingEnvironmentId flag) then Some acc
      else
        match Evaluate (data_system_ c) ctx recorder_scope acc.1 flag with
        | None => None
        | Some (st, detail) =>
            Some (big_segment_store_ (es_stack st),
                  AddFlag options (now_unix_millis key) key (value_ detail)
                    (state_of key flag detail (es_events st)) acc.2)
        end
  end.

Fixpoint add_states ctx (options : Z) (now_unix_millis : string → Z) (entries : list (string * FlagDescriptor))
    (acc : option W * StateBuilder) : option (option W * StateBuilder) :=
  match entries with
  | [] => Some acc
  | entry :: rest =>
      match add_state ctx options now_unix_millis entry acc with
      | Some acc' => add_states ctx options now_unix_millis rest acc'
      | None => None
      end
  end.

(** [all_flags]: the entries of the store, in the order an [unordered_map] yields them. *)
Definition AllFlagsState ctx (options : Z) (now_unix_millis : string → Z) (all_flags : list (string * FlagDescriptor)) :
    option (Out FlagsState) :=
  if negb client_Initialized
  then Some (mkOutcome invalid_state [] None
    ["AllFlagsState() called before client has finished initializing. Data source not available. Returning empty state"]
    (client_store_ c))
  else
    match add_states ctx options now_unix_millis all_flags (client_store_ c, new_builder) with
    | Some (store, b) => Some (mkOutcome (builder_Build b) [] None [] store)
    | None => None
    end.
End Client.

(** ** Specification *)

Section ClientSpec.
Context `{X : Externals} {Shared W : Type} `{!BigSegmentStore W} {St : Type} `{!IStore St} `{!IStoreLaws St}.
Implicit Types (c : ClientImpl Shared W St) (ctx : Context) (d : EvaluationDetail Value).

(** The flag that a call for [key] evaluates, or why there is none. *)
Definition flag_for c ctx (key : string) : ErrorKind.t + Flag :=
  if data_system_Initialized c then
    if Context_Valid ctx then
      match GetFlag (data_system_ c) key with
      | Some (mkDescriptor _ (Some flag)) => inr flag
      | _ => inl ErrorKind.kFlagNotFound
      end
    else inl ErrorKind.kUserNotSpecified
  else inl ErrorKind.kClientNotReady.

(** What a variation call may return: the default with the error; or a variation of the
    flag; or the default, because the flag is malformed or has no off variation. *)
Definition served c ctx (key : string) (default_value : Value) d : Prop :=
  match flag_for c ctx key with
  | inl error => d = error_detail error default_value
  | inr flag => ∃ r, reason_ d = Some r ∧
      ((error_kind_ r = None ∧
        ∃ i, variation_index_ d = Some (Z.of_nat i) ∧ flag_variations flag !! i = Some (value_ d)) ∨
       (variation_index_ d = None ∧ value_ d = default_value ∧
        (error_kind_ r = Some ErrorKind.kMalformedFlag ∨
         error_kind_ r = None ∧ (kind_ r = Kind.kOff ∨ kind_ r = Kind.kPrerequisiteFailed) ∧
           flag_offVariation flag = None)))
  end.

(** The event that reports [d]. *)
Definition reports c ctx (key : string) (default_value : Value) (scope : EventScope) d (e : FeatureEventParams) : Prop :=
  fe_key e = key ∧ fe_context e = ctx ∧ fe_value e = value_ d ∧ fe_default e = default_value ∧
  fe_variation e = variation_index_ d ∧ fe_prereq_of e = None ∧
  fe_version e = (match flag_for c ctx key with inr flag => Some (flag_version flag) | inl _ => None end) ∧
  (scope_policy scope = ReasonPolicy.Require → fe_reason e = reason_ d).

(** The call has sent the events of the prerequisites evaluated, and then its own. *)
Definition sends_one c ctx key default_value scope d (events : list InputEvent) : Prop :=
  if scope_processor scope
  then ∃ before e, events = before ++ [Feature e] ∧ Forall (λ ev, ∃ k, prerequisite_of k ev) before ∧
         reports c ctx key default_value scope d e
  else events = [].

Lemma post_sends c ctx key default_value scope error_or_detail flag evs :
  (match flag_for c ctx key with inr f => Some (flag_version f) | inl _ => None end) = flag_version <$> flag →
  (∀ e, error_or_detail = inl e → flag = None) →
  Forall (λ ev, ∃ k, prerequisite_of k ev) evs → (scope_processor scope = false → evs = []) →
  let r := PostEvaluation key ctx default_value error_or_detail scope flag evs in
  sends_one c ctx key default_value scope r.1 r.2.
Proof.
  intros Hf Hnone Hevs Hoff. unfold sends_one.
  destruct error_or_detail as [err|arg]; simpl; unfold Send; destruct (scope_processor scope); auto.
  - eexists evs, _. split_and!; [done|done|]. unfold reports. simpl. rewrite Hf, (Hnone err) by done.
    split_and!; try done. by intros ->.
  - eexists evs, _. split_and!; [done|done|]. unfold reports. simpl. rewrite Hf.
    split_and!; try done. by intros ->.
Qed.

Lemma served_result c ctx key default_value flag st r scope :
  flag_for c ctx key = inr flag → result_ok flag r →
  served c ctx key default_value (PostEvaluation key ctx default_value (inr r) scope (Some flag) st).1.
Proof.
  intros Hf (reason & Hr & H). unfold served. rewrite Hf. exists reason. simpl. split; [done|].
  destruct H as [(Hk & He & Hv & Hi)|[(He & i & Hi & Hv)|(He & Hk & Ho & Hv & Hi)]]; rewrite Hi; [right|left|right]; eauto 6.
Qed.

(** The hooks ran around a call that returned [d]. *)
Definition hooks_ran c (series : EvaluationSeriesContext Shared) d (ran : option (@Executor Shared)) : Prop :=
  match config_Hooks c with
  | [] => ran = None
  | hooks => ∃ e, ran = Some e ∧ hook_calls e = spec_calls hooks series d ∧
                  series_data_ e = data_after series d <$> hooks
  end.

Lemma hooked_ran c series log store r :
  hooks_ran c series (out_value (hooked c series log store r)) (out_hooks (hooked c series log store r)).
Proof.
  unfold hooks_ran, hooked. destruct (config_Hooks c) as [|h hooks]; [done|].
  destruct (hooks_order (h :: hooks) series r.1) as [H1 H2]. eexists. by split.
Qed.

(** What a variation call promises. *)
Definition call_ok c ctx key default_value scope hook_context method (o : Outcome Shared W (EvaluationDetail Value)) : Prop :=
  served c ctx key default_value (out_value o) ∧
  sends_one c ctx key default_value scope (out_value o) (out_events o) ∧
  hooks_ran c (mkSeriesContext key ctx default_value method hook_context None) (out_value o) (out_hooks o).

Lemma error_call c ctx key default_value scope hook_context method error log store :
  flag_for c ctx key = inl error →
  call_ok c ctx key default_value scope hook_context method
    (hooked c (mkSeriesContext key ctx default_value method hook_context None) log store
       (PostEvaluation key ctx default_value (inl error) scope None [])).
Proof.
  intros Hf. split_and!; [unfold served; by rewrite Hf| |apply hooked_ran].
  apply (post_sends c ctx key default_value scope (inl error) None []); try done. by rewrite Hf.
Qed.

Ltac no_flag :=
  eexists; split; [done|]; apply error_call; unfold flag_for;
  repeat match goal with H : _ = _ |- _ => rewrite H; clear H end; done.

Lemma variation_internal c ctx key default_value scope hook_context method :
  ∃ o, VariationInternal c ctx key default_value scope hook_context method = Some o ∧
    call_ok c ctx key default_value scope hook_context method o.
Proof.
  unfold VariationInternal, PreEvaluationChecks, client_Initialized.
  destruct (data_system_Initialized c) eqn:Hi; simpl; [|no_flag].
  destruct (Context_Valid ctx) eqn:Hv; simpl; [|no_flag].
  destruct (GetFlag (data_system_ c) key) as [[v [f|]]|] eqn:Hg; [|no_flag..].
  assert (flag_for c ctx key = inr f) as Hf by (unfold flag_for; by rewrite Hi, Hv, Hg).
  destruct (Evaluate_result (data_system_ c) ctx scope (client_store_ c) f) as (st & r & E & Hr). rewrite E.
  destruct (Evaluate_events _ _ _ _ _ _ _ E) as (Hevs & Hoff & _).
  eexists. split; [done|]. split_and!; [by apply served_result| |apply hooked_ran].
  apply (post_sends c ctx key default_value scope (inr r) (Some f) (es_events st)); try done. by rewrite Hf.
Qed.

(** The scope a call sends its events to does not change what it returns. *)
Lemma variation_scope c ctx key default_value scope scope' hook_context method method' o o' :
  VariationInternal c ctx key default_value scope hook_context method = Some o →
  VariationInternal c ctx key default_value scope' hook_context method' = Some o' →
  out_value o = out_value o' ∧ out_store o = out_store o'.
Proof.
  unfold VariationInternal. destruct (PreEvaluationChecks c ctx); [by intros [= <-] [= <-]|].
  destruct (GetFlag (data_system_ c) key) as [[v [flag|]]|]; [|by intros [= <-] [= <-]..].
  pose proof (Evaluate_scope (data_system_ c) ctx scope scope' (client_store_ c) flag) as H.
  destruct (Evaluate _ _ scope _ _) as [[st d]|], (Evaluate _ _ scope' _ _) as [[st' d']|]; try done.
  destruct H as [[H1 H2] ->]. intros [= <-] [= <-]. simpl. by rewrite H1.
Qed.

(** A detail tells whose value it has: the variation at its index, served as [R] says, or
    the default when it has none. *)
Definition typed_detail {T} c ctx key (R : Value → T → Prop) (default_value : T) (d : EvaluationDetail T) : Prop :=
  match variation_index_ d with
  | Some index => ∃ flag i v, flag_for c ctx key = inr flag ∧ index = Z.of_nat i ∧
                    flag_variations flag !! i = Some v ∧ R v (value_ d)
  | None => value_ d = default_value
  end.

(** The two methods of a type: the detailed one, and the plain one, which returns the same value. *)
Definition typed_ok {T} c ctx key (R : Value → T → Prop) (default_value : T)
    (detailed : option (Outcome Shared W (EvaluationDetail T))) (plain : option (Outcome Shared W T)) : Prop :=
  ∃ o o', detailed = Some o ∧ plain = Some o' ∧
    typed_detail c ctx key R default_value (out_value o) ∧ out_value o' = value_ (out_value o).

Lemma typed_variation {T} c ctx key (R : Value → T → Prop) (as_T : Value → T) vt default_value hook_context m m' :
  (∀ v, Type_of v = vt → R v (as_T v)) →
  typed_ok c ctx key R (as_T default_value)
    (VariationDetail c as_T ctx vt key default_value hook_context m)
    (map_outcome as_T <$> Variation c ctx vt key default_value hook_context m').
Proof.
  intros HR. unfold VariationDetail, Variation.
  destruct (variation_internal c ctx key default_value (events_with_reasons_ c) hook_context m) as (o & E & Hs & _).
  destruct (variation_internal c ctx key default_value (events_default_ c) hook_context m') as (o' & E' & _).
  destruct (variation_scope _ _ _ _ _ _ _ _ _ _ _ E E') as [Hv _]. rewrite E, E'.
  eexists _, _. split_and!; [done|done| |]; simpl; rewrite <- ?Hv; case_bool_decide as Ht; try done.
  unfold typed_detail. simpl. unfold served in Hs. destruct (flag_for c ctx key) as [err|flag]; [by rewrite Hs|].
  destruct Hs as (r & Hr & [(_ & i & Hi & Hl)|(Hi & Hd & _)]); rewrite Hi; [|by rewrite Hd].
  exists flag, i, (value_ (out_value o)). auto.
Qed.
End ClientSpec.

(** *** [AllFlagsState] *)

Section FlagsStateSpec.
Context `{X : Externals} {Shared W : Type} `{!BigSegmentStore W} {St : Type} `{!IStore St} `{!IStoreLaws St}.
Context (c : ClientImpl Shared W St) (ctx : Context) (options : Z) (now_unix_millis : string → Z).
Implicit Types (b : StateBuilder) (entries : list (string * FlagDescriptor)).

(** The flag of an entry, if the options select it. *)
Definition selected (v : FlagDescriptor) : option Flag :=
  match item v with
  | Some flag => if IsSet options Options.ClientSideOnly && negb (flag_usingEnvironmentId flag) then None else Some flag
  | None => None
  end.

Definition absent key b : Prop := builder_evaluations b !! key = None ∧ builder_states b !! key = None.

(** An entry's flag was evaluated, with some state of the Big Segment store. *)
Definition entry_ok b key (v : FlagDescriptor) : Prop :=
  match selected v with
  | None => absent key b
  | Some flag => ∃ w st d, Evaluate (data_system_ c) ctx (recorder_scope c) w flag = Some (st, d) ∧
      builder_evaluations b !! key = Some (value_ d) ∧
      builder_states b !! key = Some (adjusted options (now_unix_millis key) (state_of key flag d (es_events st)))
  end.

Definition same_at key b b' : Prop :=
  builder_evaluations b !! key = builder_evaluations b' !! key ∧ builder_states b !! key = builder_states b' !! key.

Lemma same_entry b b' key v : same_at key b b' → entry_ok b key v → entry_ok b' key v.
Proof. intros [H1 H2]. unfold entry_ok, absent. by rewrite H1, H2. Qed.

Lemma add_state_spec key v acc :
  absent key acc.2 →
  ∃ acc', add_state c ctx options now_unix_millis (key, v) acc = Some acc' ∧ entry_ok acc'.2 key v ∧
    (∀ k, k ≠ key → same_at k acc'.2 acc.2).
Proof.
  intros [Ha1 Ha2]. unfold add_state, entry_ok, selected. destruct (item v) as [flag|]; [|by exists acc].
  destruct (_ && _); [by exists acc|].
  destruct (Evaluate_result (data_system_ c) ctx (recorder_scope c) acc.1 flag) as (st & d & E & _). rewrite E.
  eexists. split; [done|]. unfold same_at, AddFlag, map_emplace. simpl. rewrite Ha1, Ha2. split.
  - exists acc.1, st, d. by rewrite !lookup_insert_eq.
  - intros k Hk. by rewrite !lookup_insert_ne.
Qed.

Lemma add_states_spec entries acc :
  NoDup entries.*1 → (∀ k, k ∈ entries.*1 → absent k acc.2) →
  ∃ acc', add_states c ctx options now_unix_millis entries acc = Some acc' ∧
    (∀ k v, (k, v) ∈ entries → entry_ok acc'.2 k v) ∧ (∀ k, k ∉ entries.*1 → same_at k acc'.2 acc.2).
Proof.
  revert acc. induction entries as [|[key v] entries IH]; intros acc Hnd Habs.
  { exists acc. split_and!; [done|by intros ?? ?%not_elem_of_nil|done]. }
  apply NoDup_cons in Hnd as [Hk Hnd]. cbn [add_states].
  destruct (add_state_spec key v acc) as (acc1 & -> & Hok & Hsame); [apply Habs; by left|].
  destruct (IH acc1 Hnd) as (acc' & -> & Hin & Hout).
  { intros k Hk'. assert (k ≠ key) as Hne by (intros ->; done). destruct (Hsame k Hne) as [H1 H2].
    unfold absent. rewrite H1, H2. apply Habs. by right. }
  exists acc'. split_and!; [done| |].
  - intros k v' [[= -> ->]|H]%elem_of_cons; [|by apply Hin].
    destruct (Hout key Hk) as [H1 H2]. by eapply same_entry.
  - intros k [Hne Hk']%not_elem_of_cons. destruct (Hout k Hk') as [H1 H2], (Hsame k Hne) as [H3 H4].
    split; congruence.
Qed.

(** With a null default a variation call returns what the evaluation returned. *)
Lemma variation_of_evaluation w key v flag st d hook_context :
  data_system_Initialized c = true → Context_Valid ctx = true →
  GetFlag (data_system_ c) key = Some (mkDescriptor v (Some flag)) →
  Evaluate (data_system_ c) ctx (recorder_scope c) w flag = Some (st, d) →
  ∃ o, JsonVariationDetail (with_store w c) ctx key VNull hook_context = Some o ∧ out_value o = d.
Proof.
  intros Hi Hv Hg E. unfold JsonVariationDetail, VariationInternal, PreEvaluationChecks, client_Initialized. simpl.
  rewrite Hi, Hv, Hg. simpl.
  pose proof (Evaluate_scope (data_system_ c) ctx (recorder_scope c) (events_with_reasons_ (with_store w c)) w flag) as H.
  destruct (Evaluate_result (data_system_ c) ctx (events_with_reasons_ (with_store w c)) w flag) as (st' & d' & E' & Hr).
  rewrite E, E' in H. destruct H as [_ ->]. rewrite E'. eexists. split; [done|]. simpl.
  destruct Hr as (r & _ & [(_ & _ & Hv' & Hi')|[(_ & i & Hi' & _)|(_ & _ & _ & Hv' & Hi')]]);
    destruct d'; simpl in *; by subst.
Qed.
End FlagsStateSpec.

(** ** Theorems *)

(** C3: A variation call always returns.  Before the data system is initialized, for an
    invalid context or for a flag that is missing or deleted the result is the caller's
    default with that error, in this order of precedence; otherwise it is the flag's
    variation at the reported index, or the default, with no index, when the flag is
    malformed or is off or fails a prerequisite with no off variation.  The call hands the
    processor, if there is one, the events of the prerequisites it evaluated and then
    exactly one event of its own, which carries what was returned; and the hooks run
    around it, with what was returned.  The plain method returns the same value. *)
Theorem variation_spec `{X : Externals} {Shared W} `{!BigSegmentStore W} {St} `{!IStore St} `{!IStoreLaws St}
  (c : ClientImpl Shared W St) (ctx : Context) (key : string) (default_value : Value) (hook_context : HookContext Shared) :
  ∃ o o', JsonVariationDetail c ctx key default_value hook_context = Some o ∧
    JsonVariation c ctx key default_value hook_context = Some o' ∧ out_value o' = value_ (out_value o) ∧
    served c ctx key default_value (out_value o) ∧
    sends_one c ctx key default_value (events_with_reasons_ c) (out_value o) (out_events o) ∧
    hooks_ran c (mkSeriesContext key ctx default_value "JsonVariationDetail" hook_context None) (out_value o) (out_hooks o).
Proof.
  unfold JsonVariationDetail, JsonVariation.
  destruct (variation_internal c ctx key default_value (events_with_reasons_ c) hook_context "JsonVariationDetail")
    as (o & E & Hok).
  destruct (variation_internal c ctx key default_value (events_default_ c) hook_context "JsonVariation")
    as (o' & E' & _).
  destruct (variation_scope _ _ _ _ _ _ _ _ _ _ _ E E') as [Hv _]. rewrite E, E'.
  exists o, (map_outcome value_ o'). split_and!; [done|done|by simpl; rewrite Hv|apply Hok..].
Qed.

(** C4: The typed variation methods are type safe: a value served by a flag has the type
    asked for and is the flag's variation at the reported index; in every other case,
    the flag's value being of another type included, the caller's own default comes back,
    with no index.  An [int] is the truncation of the flag's number (undefined, when it
    does not fit), and a 32-bit default comes back unchanged although it travels as a
    [double].  Each plain method returns the value of its detailed one. *)
Theorem typed_variations `{X : Externals} {Shared W} `{!BigSegmentStore W} {St} `{!IStore St} `{!IStoreLaws St}
  (c : ClientImpl Shared W St) (ctx : Context) (key : string) (hook_context : HookContext Shared)
  (b : bool) (s : string) (x : double) (n : Z) :
  - 2 ^ 31 <= n < 2 ^ 31 →
  typed_ok c ctx key (λ v t, v = VBool t) b
    (BoolVariationDetail c ctx key b hook_context) (BoolVariation c ctx key b hook_context) ∧
  typed_ok c ctx key (λ v t, v = VString t) s
    (StringVariationDetail c ctx key s hook_context) (StringVariation c ctx key s hook_context) ∧
  typed_ok c ctx key (λ v t, v = VNumber t) x
    (DoubleVariationDetail c ctx key x hook_context) (DoubleVariation c ctx key x hook_context) ∧
  typed_ok c ctx key (λ v t, ∃ y, v = VNumber y ∧ t = d_to_signed 32 y) (Some n)
    (IntVariationDetail c ctx key n hook_context) (IntVariation c ctx key n hook_context).
Proof.
  intros Hn. split_and!.
  - apply (typed_variation c ctx key _ AsBool); intros []; try done.
  - apply (typed_variation c ctx key _ AsString); intros []; try done.
  - apply (typed_variation c ctx key _ AsDouble); intros []; try done.
  - rewrite <- (d_to_signed_of_Z 32 n) by (simpl; lia).
    apply (typed_variation c ctx key _ AsInt); intros []; try done; eauto.
Qed.

(** C5: [AllFlagsState] of an initialized client returns, valid and without sending any
    event, an entry for exactly the flags the options select, whatever the order in which
    the store lists its flags.  The value, the variation and the reason of an entry are
    those of an evaluation of that flag for the context (the Big Segment store being in
    the state it was in then); the reason is left out unless asked for or needed for an
    experiment.  For a valid context these are what the detailed variation call would
    return with a null default; an invalid context is evaluated all the same, although
    such a call would refuse it.  For a flag stored under its own key the prerequisites
    listed are the flag's own, in order and without those of its prerequisites: none when
    the flag is off; those up to the failed one, included if there is such a flag, when a
    prerequisite failed; an initial part of them when the result is an error; and all of
    them otherwise. *)
Theorem all_flags_state_spec `{X : Externals} {Shared W} `{!BigSegmentStore W} {St} `{!IStore St} `{!IStoreLaws St}
  (c : ClientImpl Shared W St) (ctx : Context) (options : Z) (now_unix_millis : string → Z)
  (all_flags : list (string * FlagDescriptor)) :
  data_system_Initialized c = true → all_flags ≡ₚ map_to_list (AllFlags (data_system_ c)) →
  ∃ o, AllFlagsState c ctx options now_unix_millis all_flags = Some o ∧ out_events o = [] ∧
  fs_valid_ (out_value o) = true ∧ ∀ key,
    match GetFlag (data_system_ c) key ≫= selected options with
    | None => evaluations_ (out_value o) !! key = None ∧ flags_state_ (out_value o) !! key = None
    | Some flag => ∃ w st d s,
        Evaluate (data_system_ c) ctx (recorder_scope c) w flag = Some (st, d) ∧
        (Context_Valid ctx = true → ∀ hook_context, ∃ call,
           JsonVariationDetail (with_store w c) ctx key VNull hook_context = Some call ∧ out_value call = d) ∧
        evaluations_ (out_value o) !! key = Some (value_ d) ∧ flags_state_ (out_value o) !! key = Some s ∧
        version_ s = flag_version flag ∧ state_variation_ s = s64 <$> variation_index_ d ∧
        state_reason_ s = (if IsSet options Options.IncludeReasons || IsExperimentationEnabled flag (reason_ d)
                           then reason_ d else None) ∧
        (flag_key flag = key → ∃ rest, prereq_key <$> flag_prerequisites flag = prerequisites_ s ++ rest ∧
                                 stopped (data_system_ c) d (prerequisites_ s) rest)
    end.
Proof.
  intros Hi Hp. unfold AllFlagsState, client_Initialized. rewrite Hi. cbn [negb].
  destruct (add_states_spec c ctx options now_unix_millis all_flags (client_store_ c, new_builder))
    as ([w b] & -> & Hin & Hout).
  { rewrite Hp. apply NoDup_fst_map_to_list. }
  { by intros k _. }
  eexists. split_and!; [done|done|done|]. intros key. cbn [out_value builder_Build evaluations_ flags_state_].
  destruct (GetFlag (data_system_ c) key) as [v|] eqn:Hg; cbn [mbind option_bind].
  - assert ((key, v) ∈ all_flags) as Hkv by (by rewrite Hp, elem_of_map_to_list, <- GetFlag_all).
    specialize (Hin key v Hkv). unfold entry_ok in Hin. destruct (selected options v) as [flag|] eqn:Hsel; [|done].
    destruct Hin as (w' & st & d & E & He & Hs). exists w', st, d. eexists.
    split_and!; [exact E| |exact He|exact Hs|done|done| |].
    + unfold selected in Hsel. destruct v as [ver [f|]]; simpl in *; [|done]. destruct (_ && _); [done|].
      injection Hsel as ->. intros Hv hc. by eapply variation_of_evaluation.
    + simpl. unfold NotSet. by destruct (IsSet options _), (IsExperimentationEnabled _ _).
    + intros <-. by apply (Evaluate_events _ _ _ _ _ _ _ E).
  - destruct (Hout key) as [H1 H2]; [|done]. rewrite Hp, list_elem_of_fmap. intros ([k v] & -> & H%elem_of_map_to_list).
    rewrite GetFlag_all in Hg. simpl in Hg. congruence.
Qed.

(** ** An example client *)

(** Its second hook throws before an evaluation, and the first one leaves a mark. *)
Definition example_hooks : list (Hook unit) :=
  [mkHook "marks" (λ _ data, Some (Builder_Set "mark" (VBool true) data)) (λ _ data _, Some data) (λ _, true);
   mkHook "throws" (λ _ _, None) (λ _ data _, Some data) (λ _, false)].

(** A flag whose prerequisite has a prerequisite of its own. *)
Definition example_client : ClientImpl unit (gmap string GetMembershipResult) MemoryStore :=
  mkClient (mkMemoryStore
    (list_to_map [("f", flag_descriptor (example_flag "f" [mkPrerequisite "g" 1]));
                  ("g", flag_descriptor (example_flag "g" [mkPrerequisite "h" 1]));
                  ("h", flag_descriptor (example_flag "h" []))])
    (segments_ example_store) true) true true (λ n, Z.of_nat n) None example_hooks.

Example example_calls :
  ((λ o, (out_value o, length (out_events o), length <$> (hook_calls <$> out_hooks o))) <$>
     BoolVariation example_client (example_context "x") "f" true []) = Some (false, 3%nat, Some 4%nat) ∧
  ((λ o, out_value o) <$> StringVariation example_client (example_context "x") "f" "none" []) = Some "none" ∧
  ((λ o, prerequisites_ <$> flags_state_ (out_value o) !! "f") <$>
     AllFlagsState example_client (example_context "x") Options.Default (λ _, 0)
       (map_to_list (flags_ (data_system_ example_client)))) = Some (Some ["g"]).
Proof. vm_compute. auto. Qed.

Lemma variation_spec_witness :
  ∃ o o', JsonVariationDetail example_client (example_context "x") "f" VNull [] = Some o ∧
    JsonVariation example_client (example_context "x") "f" VNull [] = Some o' ∧ out_value o' = value_ (out_value o) ∧
    served example_client (example_context "x") "f" VNull (out_value o) ∧
    sends_one example_client (example_context "x") "f" VNull (events_with_reasons_ example_client) (out_value o) (out_events o) ∧
    hooks_ran example_client (mkSeriesContext "f" (example_context "x") VNull "JsonVariationDetail" [] None)
      (out_value o) (out_hooks o).
Proof. exact (variation_spec example_client (example_context "x") "f" VNull []). Defined.

Lemma typed_variations_witness :
  typed_ok example_client (example_context "x") "f" (λ v t, ∃ y, v = VNumber y ∧ t = d_to_signed 32 y) (Some (-7))
    (IntVariationDetail example_client (example_context "x") "f" (-7) [])
    (IntVariation example_client (example_context "x") "f" (-7) []).
Proof.
  apply (typed_variations example_client (example_context "x") "f" [] true "" (d_of_Z 0) (-7)).
  split; vm_compute; done.
Defined.

Lemma all_flags_state_spec_witness :
  ∃ o, AllFlagsState example_client (example_context "x") Options.ClientSideOnly (λ _, 0)
      (map_to_list (AllFlags (data_system_ example_client))) = Some o ∧ fs_valid_ (out_value o) = true.
Proof.
  destruct (all_flags_state_spec example_client (example_context "x") Options.ClientSideOnly (λ _, 0)
    (map_to_list (AllFlags (data_system_ example_client)))) as (o & E & _ & Hv & _);
    [reflexivity|reflexivity|].
  exists o. split; [exact E|exact Hv].
Defined.
