(* ===== verification/Encodings.v ===== *)
(** * Base64

    libs/internal/src/encoding/base_64.cpp: [Base64UrlEncode], which names the entries of
    the client-side flag cache. *)

From S2P Require Import Prelude.
#[local] Open Scope nat_scope.

Definition kBase64Table : string := "ABCDEFGHIJKLMNOPQRSTUVWXYZabcdefghijklmnopqrstuvwxyz0123456789-_".

(** Bit 0 is the highest bit of the first byte. *)
Definition bit_at (input : list ascii) (bit_index : nat) : bool :=
  match input !! (bit_index / 8) with
  | Some character => N.testbit (N_of_ascii character) (N.of_nat (7 - bit_index mod 8))
  | None => false
  end.

(** [GetBits], as the number [to_ulong] makes of it: the bits read go to the highest places. *)
Fixpoint GetBits (start_bit count out_index : nat) (input : list ascii) : N :=
  match count with
  | O => 0%N
  | S count' =>
      N.lor (if bit_at input start_bit then N.shiftl 1 (N.of_nat (5 - out_index)) else 0%N)
            (GetBits (S start_bit) count' (S out_index) input)
  end.

Definition table_at (n : N) : ascii := default zero (chars kBase64Table !! N.to_nat n).

(** The loop, from [bit_index]. *)
Fixpoint encode_bits (fuel bit_index : nat) (input : list ascii) : list ascii :=
  let bit_count := length input * 8 in
  match fuel with
  | O => []
  | S fuel' =>
      if bit_index <? bit_count
      then table_at (GetBits bit_index (Nat.min 6 (bit_count - bit_index)) 0 input) ::
           encode_bits fuel' (bit_index + 6) input
      else []
  end.

Definition Base64UrlEncode (input : list ascii) : list ascii :=
  let out := encode_bits (length input * 8) 0 input in
  if length out mod 4 =? 0 then out else out ++ replicate (4 - length out mod 4) "="%char.

Example encode_examples :
  of_chars (Base64UrlEncode (chars "Man")) = "TWFu" ∧ of_chars (Base64UrlEncode (chars "Ma")) = "TWE=" ∧
  of_chars (Base64UrlEncode (chars "M")) = "TQ==" ∧ Base64UrlEncode [] = [].
Proof. by vm_compute. Qed.

(** ** The table *)

Lemma table_nodup : NoDup (chars kBase64Table).
Proof. apply (bool_decide_unpack _). by vm_compute. Qed.

Lemma table_lookup n : (n < 64)%N → chars kBase64Table !! N.to_nat n = Some (table_at n).
Proof.
  intros Hn. unfold table_at. destruct (chars kBase64Table !! N.to_nat n) eqn:E; [done|].
  apply lookup_ge_None in E. change (length (chars kBase64Table)) with 64 in E. lia.
Qed.

Lemma table_at_inj n m : (n < 64)%N → (m < 64)%N → table_at n = table_at m → n = m.
Proof.
  intros Hn Hm H. apply N2Nat.inj. eapply NoDup_lookup; [exact table_nodup|by apply table_lookup|].
  rewrite H. by apply table_lookup.
Qed.

Lemma table_no_pad n : (n < 64)%N → table_at n ≠ "="%char.
Proof.
  intros Hn H. pose proof (table_lookup n Hn) as Hl. rewrite H in Hl. apply list_elem_of_lookup_2 in Hl.
  revert Hl. apply (bool_decide_eq_false_1 ("="%char ∈ chars kBase64Table)). by vm_compute.
Qed.

(** ** Bits *)

Lemma GetBits_testbit start count o input j :
  o + count ≤ 6 → j < 6 →
  N.testbit (GetBits start count o input) (N.of_nat (5 - j)) = bool_decide (o ≤ j < o + count) && bit_at input (start + (j - o)).
Proof.
  revert start o. induction count as [|count IH]; intros start o Ho Hj; cbn [GetBits].
  { rewrite N.bits_0, bool_decide_eq_false_2 by lia. done. }
  rewrite N.lor_spec, IH by lia. destruct (decide (j = o)) as [->|Hne].
  - rewrite (bool_decide_eq_false_2 (S o ≤ o < _)), (bool_decide_eq_true_2 (o ≤ o < _)) by lia.
    rewrite Nat.sub_diag, Nat.add_0_r, orb_false_r. destruct (bit_at input start); [|by rewrite N.bits_0].
    rewrite N.shiftl_spec_high' by lia. by rewrite N.sub_diag.
  - assert (N.testbit (if bit_at input start then N.shiftl 1 (N.of_nat (5 - o)) else 0%N) (N.of_nat (5 - j)) = false) as ->.
    { destruct (bit_at input start); [|by rewrite N.bits_0]. rewrite <- N.pow2_bits_false with (n := N.of_nat (5 - o)) (m := N.of_nat (5 - j)) by lia.
      f_equal. by rewrite N.shiftl_1_l. }
    destruct (decide (S o ≤ j < S o + count)) as [Hin|Hout].
    + rewrite !bool_decide_eq_true_2 by lia. simpl. f_equal. lia.
    + rewrite !bool_decide_eq_false_2 by lia. done.
Qed.

Lemma below_64 a : (a < 64)%N ↔ N.shiftr a 6 = 0%N.
Proof. rewrite N.shiftr_div_pow2. change (2 ^ 6)%N with 64%N. split; [apply N.div_small|apply N.div_small_iff; lia]. Qed.

Lemma GetBits_range start count o input : (GetBits start count o input < 64)%N.
Proof.
  revert start o. induction count as [|count IH]; intros start o; simpl; [lia|].
  apply below_64. rewrite N.shiftr_lor, (proj1 (below_64 _) (IH _ _)), N.lor_0_r. apply below_64.
  destruct (bit_at input start); [|lia]. rewrite N.shiftl_1_l. change 64%N with (2 ^ 6)%N.
  apply N.pow_lt_mono_r; lia.
Qed.

(** ** The loop *)

Lemma encode_bits_lookup fuel start input i :
  length input * 8 ≤ start + fuel * 6 → start + i * 6 < length input * 8 →
  encode_bits fuel start input !! i =
  Some (table_at (GetBits (start + i * 6) (Nat.min 6 (length input * 8 - (start + i * 6))) 0 input)).
Proof.
  revert start i. induction fuel as [|fuel IH]; intros start i Hf Hi; [lia|]. cbn [encode_bits].
  rewrite (proj2 (Nat.ltb_lt _ _)) by lia. destruct i as [|i]; cbn [lookup list_lookup].
  - by rewrite Nat.add_0_r.
  - rewrite IH by lia. replace (start + 6 + i * 6) with (start + S i * 6) by lia. done.
Qed.

Lemma encode_bits_length fuel start input :
  length input * 8 ≤ start + fuel * 6 → length (encode_bits fuel start input) = (length input * 8 - start + 5) / 6.
Proof.
  revert start. induction fuel as [|fuel IH]; intros start Hf; cbn [encode_bits].
  { by rewrite Nat.div_small by lia. }
  destruct (Nat.ltb_spec start (length input * 8)) as [Hlt|Hge].
  - cbn [length]. rewrite IH by lia. replace (length input * 8 - start + 5) with (length input * 8 - (start + 6) + 5 + 1 * 6 - (6 - Nat.min 6 (length input * 8 - start))) by lia.
    destruct (Nat.le_gt_cases 6 (length input * 8 - start)) as [H|H].
    + rewrite Nat.min_l by lia. rewrite Nat.sub_diag, Nat.sub_0_r, Nat.div_add by lia. lia.
    + replace (length input * 8 - (start + 6)) with 0 by lia. rewrite Nat.min_r by lia.
      rewrite Nat.div_small by lia. apply (Nat.div_unique _ 6 1 (length input * 8 - start - 1)); lia.
  - by rewrite Nat.div_small by lia.
Qed.

Lemma encode_bits_no_pad fuel start input : "="%char ∉ encode_bits fuel start input.
Proof.
  revert start. induction fuel as [|fuel IH]; intros start; cbn [encode_bits]; [apply not_elem_of_nil|].
  destruct (_ <? _); [|apply not_elem_of_nil]. apply not_elem_of_cons. split; [|apply IH].
  intros H. symmetry in H. revert H. apply table_no_pad, GetBits_range.
Qed.

Definition unpadded (input : list ascii) : list ascii := encode_bits (length input * 8) 0 input.

Lemma encode_unpadded input : filter (λ c, c ≠ "="%char) (Base64UrlEncode input) = unpadded input.
Proof.
  assert (filter (λ c, c ≠ "="%char) (unpadded input) = unpadded input) as Hu.
  { pose proof (encode_bits_no_pad (length input * 8) 0 input) as Hn. fold (unpadded input) in Hn.
    induction (unpadded input) as [|c l IH]; [done|]. apply not_elem_of_cons in Hn as [Hc Hn].
    rewrite filter_cons_True by done. by rewrite IH. }
  unfold Base64UrlEncode. fold (unpadded input). destruct (_ =? _); [done|].
  rewrite filter_app, Hu. induction (4 - _) as [|n IH]; simpl; [by rewrite app_nil_r|done].
Qed.

Lemma unpadded_bits x y p :
  length x = length y → unpadded x = unpadded y → p < length x * 8 → bit_at x p = bit_at y p.
Proof.
  intros Hl H Hp. unfold unpadded in H.
  pose proof (Nat.div_mod_eq p 6) as Hdm. pose proof (Nat.mod_upper_bound p 6 ltac:(lia)).
  pose proof (encode_bits_lookup (length x * 8) 0 x (p / 6) ltac:(lia) ltac:(lia)) as Hx.
  pose proof (encode_bits_lookup (length y * 8) 0 y (p / 6) ltac:(lia) ltac:(lia)) as Hy.
  rewrite H, Hy, <- Hl in Hx. apply (inj Some) in Hx as Ht.
  apply table_at_inj in Ht; [|apply GetBits_range..].
  apply (f_equal (λ n, N.testbit n (N.of_nat (5 - p mod 6)))) in Ht.
  rewrite !GetBits_testbit, !bool_decide_eq_true_2, !andb_true_l in Ht by lia.
  by replace (0 + p / 6 * 6 + (p mod 6 - 0)) with p in Ht by lia.
Qed.

Lemma byte_high a n : (8 ≤ n)%N → N.testbit (N_of_ascii a) n = false.
Proof.
  intros Hn. pose proof (N_ascii_bounded a) as Hb. destruct (N.eq_dec (N_of_ascii a) 0%N) as [->|Hne]; [apply N.bits_0|].
  apply N.bits_above_log2. eapply N.lt_le_trans; [|exact Hn]. apply N.log2_lt_pow2; [lia|exact Hb].
Qed.

Lemma ascii_of_bits a b :
  (∀ k, k < 8 → N.testbit (N_of_ascii a) (N.of_nat k) = N.testbit (N_of_ascii b) (N.of_nat k)) → a = b.
Proof.
  intros H. rewrite <- (ascii_N_embedding a), <- (ascii_N_embedding b). f_equal. apply N.bits_inj. intros n.
  destruct (N.lt_ge_cases n 8) as [Hn|Hn].
  - specialize (H (N.to_nat n)). rewrite N2Nat.id in H. apply H. lia.
  - by rewrite !byte_high.
Qed.

(** Base64 encodes different inputs differently, whatever their lengths. *)
Lemma Base64UrlEncode_inj x y : Base64UrlEncode x = Base64UrlEncode y → x = y.
Proof.
  intros H. apply (f_equal (filter (λ c, c ≠ "="%char))) in H. rewrite !encode_unpadded in H.
  assert (length x = length y) as Hl.
  { pose proof (f_equal length H) as Hlen. unfold unpadded in Hlen. rewrite !encode_bits_length in Hlen by lia.
    pose proof (Nat.div_mod_eq (length x * 8 - 0 + 5) 6). pose proof (Nat.mod_upper_bound (length x * 8 - 0 + 5) 6).
    pose proof (Nat.div_mod_eq (length y * 8 - 0 + 5) 6). pose proof (Nat.mod_upper_bound (length y * 8 - 0 + 5) 6). lia. }
  apply list_eq_same_length with (length y); [done|done|]. intros i a b Hi Ha Hb. apply ascii_of_bits. intros k Hk.
  pose proof (unpadded_bits x y (i * 8 + (7 - k)) Hl H ltac:(lia)) as Hbit. unfold bit_at in Hbit.
  rewrite Nat.div_add_l, (Nat.div_small (7 - k)), Nat.add_0_r, Ha, Hb in Hbit by lia.
  rewrite Nat.add_comm, Nat.Div0.mod_add, Nat.mod_small in Hbit by lia. by replace (7 - (7 - k)) with k in Hbit by lia.
Qed.

(** The length is the whole number of quadruples that covers the input. *)
Lemma Base64UrlEncode_length input : length (Base64UrlEncode input) = 4 * ((length input + 2) / 3).
Proof.
  unfold Base64UrlEncode. fold (unpadded input).
  assert (length (unpadded input) = (length input * 8 + 5) / 6) as Hl.
  { unfold unpadded. rewrite encode_bits_length by lia. by rewrite Nat.sub_0_r. }
  pose proof (Nat.div_mod_eq (length input * 8 + 5) 6). pose proof (Nat.mod_upper_bound (length input * 8 + 5) 6).
  pose proof (Nat.div_mod_eq (length input + 2) 3). pose proof (Nat.mod_upper_bound (length input + 2) 3).
  pose proof (Nat.div_mod_eq (length (unpadded input)) 4). pose proof (Nat.mod_upper_bound (length (unpadded input)) 4).
  destruct (Nat.eqb_spec (length (unpadded input) mod 4) 0) as [E|E]; [lia|].
  rewrite length_app, length_replicate. lia.
Qed.
