(* ===== verification/EvaluationResults.v ===== *)
(** * Evaluation results as JSON

    libs/internal/src/serialization: json_evaluation_reason.cpp, json_evaluation_result.cpp
    and the [ValueAsOpt]/[ValueOrDefault] of value_mapping.cpp; json_item_descriptor.hpp;
    libs/common/include/launchdarkly/data/evaluation_result.hpp.  This is what client-side
    SDKs receive, and what they keep in their cache.

    [ValueAsOpt<uint64_t>] calls the [to_number] that throws: a reader returns [None] for
    an exception. *)

From S2P Require Import Prelude OrderedMap Doubles Values AttributeReferences Reasons DataModel Externals.
From S2P Require Import Operators EventData Json.
#[local] Open Scope Z_scope.

(** A deserializer without [std::optional], and one that may throw. *)
Abbreviation strict A := (expected A JsonError.t).

Definition tbind {A B} (o : option A) (k : A → option B) : option B :=
  match o with Some a => k a | None => None end.

Notation "'let!' x ':=' o 'in' k" := (tbind o (λ x, k)) (at level 10, x pattern, o at level 200, k at level 200).

(** ** [value_mapping.cpp] *)

Definition ValueAsOpt_uint64 `{BoostJson} (v : option json) : option (option Z) :=
  match v with
  | Some j => if is_number j then match to_number_uint64 j with Some z => Some (Some z) | None => None end else Some None
  | None => Some None
  end.

Definition ValueAsOpt_string (v : option json) : option string :=
  match v with Some (JString s) => Some s | _ => None end.

Fixpoint strings_of (arr : list json) : option (list string) :=
  match arr with
  | [] => Some []
  | JString s :: arr' => match strings_of arr' with Some l => Some (s :: l) | None => None end
  | _ :: _ => None
  end.

Definition ValueAsOpt_strings (v : option json) : option (list string) :=
  match v with Some (JArray arr) => strings_of arr | _ => None end.

Definition ValueOrDefault_bool (v : option json) (default_value : bool) : bool :=
  match v with Some (JBool b) => b | _ => default_value end.

(** ** Reasons *)

Definition to_Kind (json_value : json) : strict Kind.t :=
  match json_value with
  | JString str =>
      if str_eqb str "OFF" then Val Kind.kOff
      else if str_eqb str "FALLTHROUGH" then Val Kind.kFallthrough
      else if str_eqb str "TARGET_MATCH" then Val Kind.kTargetMatch
      else if str_eqb str "RULE_MATCH" then Val Kind.kRuleMatch
      else if str_eqb str "PREREQUISITE_FAILED" then Val Kind.kPrerequisiteFailed
      else if str_eqb str "ERROR" then Val Kind.kError
      else schema_failure
  | _ => schema_failure
  end.

Definition from_Kind (kind : Kind.t) : json :=
  JString match kind with
  | Kind.kOff => "OFF"
  | Kind.kFallthrough => "FALLTHROUGH"
  | Kind.kTargetMatch => "TARGET_MATCH"
  | Kind.kRuleMatch => "RULE_MATCH"
  | Kind.kPrerequisiteFailed => "PREREQUISITE_FAILED"
  | Kind.kError => "ERROR"
  end.

Definition to_ErrorKind (json_value : json) : strict ErrorKind.t :=
  match json_value with
  | JString str =>
      if str_eqb str "CLIENT_NOT_READY" then Val ErrorKind.kClientNotReady
      else if str_eqb str "USER_NOT_SPECIFIED" then Val ErrorKind.kUserNotSpecified
      else if str_eqb str "FLAG_NOT_FOUND" then Val ErrorKind.kFlagNotFound
      else if str_eqb str "WRONG_TYPE" then Val ErrorKind.kWrongType
      else if str_eqb str "MALFORMED_FLAG" then Val ErrorKind.kMalformedFlag
      else if str_eqb str "EXCEPTION" then Val ErrorKind.kException
      else schema_failure
  | _ => schema_failure
  end.

Definition from_ErrorKind (kind : ErrorKind.t) : json :=
  JString match kind with
  | ErrorKind.kClientNotReady => "CLIENT_NOT_READY"
  | ErrorKind.kUserNotSpecified => "USER_NOT_SPECIFIED"
  | ErrorKind.kFlagNotFound => "FLAG_NOT_FOUND"
  | ErrorKind.kWrongType => "WRONG_TYPE"
  | ErrorKind.kMalformedFlag => "MALFORMED_FLAG"
  | ErrorKind.kException => "EXCEPTION"
  end.

Definition to_BigSegmentsStatus (json_value : json) : strict BigSegmentsStatus.t :=
  match json_value with
  | JString str =>
      if str_eqb str "HEALTHY" then Val BigSegmentsStatus.kHealthy
      else if str_eqb str "STALE" then Val BigSegmentsStatus.kStale
      else if str_eqb str "NOT_CONFIGURED" then Val BigSegmentsStatus.kNotConfigured
      else if str_eqb str "STORE_ERROR" then Val BigSegmentsStatus.kStoreError
      else schema_failure
  | _ => schema_failure
  end.

Definition from_BigSegmentsStatus (status : BigSegmentsStatus.t) : json :=
  JString match status with
  | BigSegmentsStatus.kNone => ""
  | BigSegmentsStatus.kHealthy => "HEALTHY"
  | BigSegmentsStatus.kStale => "STALE"
  | BigSegmentsStatus.kNotConfigured => "NOT_CONFIGURED"
  | BigSegmentsStatus.kStoreError => "STORE_ERROR"
  end.

Definition to_Reason `{BoostJson} (json_value : json) : option (strict EvaluationReason) :=
  match json_value with
  | JObject obj =>
      match obj_find "kind" obj with
      | None => Some schema_failure
      | Some k =>
          match to_Kind k with
          | Unexpected e => Some (Unexpected e)
          | Val kind =>
              match match obj_find "errorKind" obj with
                    | Some e => let? e' := to_ErrorKind e in Val (Some e')
                    | None => Val None
                    end with
              | Unexpected e => Some (Unexpected e)
              | Val error_kind =>
                  let! rule_index := ValueAsOpt_uint64 (obj_find "ruleIndex" obj) in
                  let rule_id := ValueAsOpt_string (obj_find "ruleId" obj) in
                  let prerequisite_key := ValueAsOpt_string (obj_find "prerequisiteKey" obj) in
                  let in_experiment := ValueOrDefault_bool (obj_find "inExperiment" obj) false in
                  Some (let? big_segments_status :=
                          match obj_find "bigSegmentsStatus" obj with
                          | Some s => to_BigSegmentsStatus s
                          | None => Val BigSegmentsStatus.kNone
                          end in
                        Val (make_reason kind error_kind (Z.to_nat <$> rule_index) rule_id prerequisite_key
                               in_experiment big_segments_status))
              end
          end
      end
  | _ => Some schema_failure
  end.

Definition from_Reason (reason : EvaluationReason) : json :=
  let obj := obj_emplace "kind" (from_Kind (kind_ reason)) [] in
  let obj := write_opt from_ErrorKind "errorKind" (error_kind_ reason) obj in
  let obj := write_if "bigSegmentsStatus" (from_BigSegmentsStatus (big_segments_status_ reason))
               (negb (bool_decide (big_segments_status_ reason = BigSegmentsStatus.kNone))) obj in
  let obj := write_opt JString "ruleId" (rule_id_ reason) obj in
  let obj := write_opt (λ i, JUint64 (Z.of_nat i)) "ruleIndex" (rule_index_ reason) obj in
  let obj := write_bool "inExperiment" (in_experiment_ reason) obj in
  let obj := write_opt JString "prerequisiteKey" (prerequisite_key_ reason) obj in
  JObject obj.

(** ** [EvaluationResult] *)

(** The detail is an [EvaluationDetailInternal]: a value, an index, a reason. *)
Record EvaluationResult := mkResult {
  er_version : Z;
  er_flag_version : option Z;
  er_track_events : bool;
  er_track_reason : bool;
  er_debug_events_until_date : option Date;
  er_detail : EvaluationDetail Value;
  er_prerequisites : option (list string);
}.

Abbreviation ResultDescriptor := (ItemDescriptor EvaluationResult).

Section Results.
Context `{X : Externals} `{B : BoostJson}.

Definition value_field (v : option json) : strict Value :=
  match v with Some v => to_value_or to_Value VNull v | None => Val VNull end.

Definition reason_field (v : option json) : option (strict (option EvaluationReason)) :=
  match v with
  | Some JNull | None => Some (Val None)
  | Some r =>
      let! reason := to_Reason r in
      match reason with Val reason => Some (Val (Some reason)) | Unexpected _ => Some schema_failure end
  end.

(** With a reason, the constructor that is called has no argument for the prerequisites. *)
Definition to_EvaluationResult (json_value : json) : option (parsed EvaluationResult) :=
  match json_value with
  | JNull => Some (Val None)
  | JObject json_obj =>
      let! version_opt := ValueAsOpt_uint64 (obj_find "version" json_obj) in
      match version_opt with
      | None => Some schema_failure
      | Some version =>
          let! flag_version := ValueAsOpt_uint64 (obj_find "flagVersion" json_obj) in
          let track_events := ValueOrDefault_bool (obj_find "trackEvents" json_obj) false in
          let track_reason := ValueOrDefault_bool (obj_find "trackReason" json_obj) false in
          let! debug := ValueAsOpt_uint64 (obj_find "debugEventsUntilDate" json_obj) in
          let debug_events_until_date := date_of_ms <$> debug in
          let prerequisites := ValueAsOpt_strings (obj_find "prerequisites" json_obj) in
          match value_field (obj_find "value" json_obj) with
          | Unexpected e => Some (Unexpected e)
          | Val value =>
              let! variation := ValueAsOpt_uint64 (obj_find "variation" json_obj) in
              let! reason := reason_field (obj_find "reason" json_obj) in
              Some (let? reason := reason in
                    Val (Some (mkResult version flag_version track_events track_reason debug_events_until_date
                                 (mkDetail value variation reason)
                                 (match reason with Some _ => None | None => prerequisites end))))
          end
      end
  | _ => Some schema_failure
  end.

Definition from_EvaluationResult (r : EvaluationResult) : json :=
  let obj := obj_emplace "version" (JUint64 (er_version r)) [] in
  let obj := write_opt JUint64 "flagVersion" (er_flag_version r) obj in
  let obj := write_bool "trackEvents" (er_track_events r) obj in
  let obj := write_bool "trackReason" (er_track_reason r) obj in
  let obj := write_opt (λ d, JInt64 (Z.quot d 1000000)) "debugEventsUntilDate" (er_debug_events_until_date r) obj in
  let obj := match er_prerequisites r with Some l => write_vec JString "prerequisites" l obj | None => obj end in
  let obj := obj_emplace "value" (from_Value (value_ (er_detail r))) obj in
  let obj := write_opt JUint64 "variationIndex" (variation_index_ (er_detail r)) obj in
  let obj := write_opt from_Reason "reason" (reason_ (er_detail r)) obj in
  JObject obj.

(** ** Descriptors *)

Definition result_descriptor (r : EvaluationResult) : ResultDescriptor := mkDescriptor (er_version r) (Some r).

Definition to_ResultDescriptor (json_value : json) : option (parsed ResultDescriptor) :=
  let! maybe_item := to_EvaluationResult json_value in
  Some (let? item := maybe_item in Val (result_descriptor <$> item)).

(** The entries of the map that is read, or the first error. *)
Fixpoint to_result_entries (obj : list (string * json)) (descriptors : gmap string ResultDescriptor) :
    option (strict (gmap string ResultDescriptor)) :=
  match obj with
  | [] => Some (Val descriptors)
  | (key, v) :: obj' =>
      let! eval_result := to_ResultDescriptor v in
      match eval_result with
      | Unexpected e => Some (Unexpected e)
      | Val None => to_result_entries obj' descriptors
      | Val (Some d) =>
          to_result_entries obj' (match descriptors !! key with Some _ => descriptors | None => <[key := d]> descriptors end)
      end
  end.

Definition to_Results (json_value : json) : option (parsed (gmap string ResultDescriptor)) :=
  match json_value with
  | JNull => Some (Val None)
  | JObject obj => let! m := to_result_entries obj ∅ in Some (let? m := m in Val (Some m))
  | _ => Some schema_failure
  end.

(** [value_from] of all the flags, in the order the map yields them: deleted items are left out. *)
Definition from_Results (all_flags : list (string * ResultDescriptor)) : json :=
  JObject (foldl (λ obj kd, match item kd.2 with
                            | Some r => obj_emplace kd.1 (from_EvaluationResult r) obj
                            | None => obj
                            end) [] all_flags).
End Results.

(** ** What is read back *)

(** A date is kept to the millisecond. *)
Definition ms_date (d : Date) : Date := Z.quot d 1000000 * 1000000.

(** The variation index is written under a name the reader does not look for; the
    prerequisites are dropped when there is a reason. *)
Definition stored_result (r : EvaluationResult) : EvaluationResult :=
  mkResult (er_version r) (er_flag_version r) (er_track_events r) (er_track_reason r)
    (ms_date <$> er_debug_events_until_date r)
    (mkDetail (value_ (er_detail r)) None (reason_ (er_detail r)))
    (match reason_ (er_detail r), er_prerequisites r with
     | None, Some (_ :: _) => er_prerequisites r
     | _, _ => None
     end).

Definition u64_ok (z : Z) : Prop := 0 ≤ z < 2 ^ 64.

Definition reason_ok (r : EvaluationReason) : Prop :=
  match rule_index_ r with Some i => u64_ok (Z.of_nat i) | None => True end ∧ big_segment_status_ r = None.

(** Numbers in range, dates after the epoch, and values whose keys have no NUL. *)
Definition er_ok (r : EvaluationResult) : Prop :=
  u64_ok (er_version r) ∧ match er_flag_version r with Some v => u64_ok v | None => True end ∧
  match er_debug_events_until_date r with Some d => 0 ≤ d < 2 ^ 63 | None => True end ∧
  WfValue (value_ (er_detail r)) ∧ keys_nul_free (value_ (er_detail r)) = true ∧
  match reason_ (er_detail r) with Some reason => reason_ok reason | None => True end.

Section ReadBack.
Context `{X : Externals} `{S : BoostJsonSpec}.

Lemma uint64_read (o : option Z) :
  match o with Some z => u64_ok z | None => True end → ValueAsOpt_uint64 (JUint64 <$> o) = Some o.
Proof. destruct o as [z|]; simpl; [|done]. intros Hz. by rewrite uint64_of_uint64. Qed.

Lemma string_read (o : option string) : ValueAsOpt_string (JString <$> o) = o.
Proof. by destruct o. Qed.

Lemma strings_read l : strings_of (JString <$> l) = Some l.
Proof. induction l as [|s l IH]; [done|]. rewrite fmap_cons. cbn [strings_of]. by rewrite IH. Qed.

Lemma bool_read (b : bool) : ValueOrDefault_bool (if b then Some (JBool b) else None) false = b.
Proof. by destruct b. Qed.

Lemma kind_read k : to_Kind (from_Kind k) = Val k.
Proof. by destruct k. Qed.

Lemma error_kind_read (o : option ErrorKind.t) :
  match from_ErrorKind <$> o with
  | Some e => let? e' := to_ErrorKind e in Val (Some e')
  | None => Val None
  end = Val o.
Proof. by destruct o as [[]|]. Qed.

Lemma status_read s :
  match (if negb (bool_decide (s = BigSegmentsStatus.kNone)) then Some (from_BigSegmentsStatus s) else None) with
  | Some s => to_BigSegmentsStatus s
  | None => Val BigSegmentsStatus.kNone
  end = Val s.
Proof. by destruct s. Qed.

Lemma index_read (o : option nat) :
  match o with Some i => u64_ok (Z.of_nat i) | None => True end →
  ValueAsOpt_uint64 ((λ i, JUint64 (Z.of_nat i)) <$> o) = Some (Z.of_nat <$> o).
Proof. destruct o as [i|]; simpl; [|done]. intros Hi. by rewrite uint64_of_uint64. Qed.

Lemma reason_read r : reason_ok r → to_Reason (from_Reason r) = Some (Val r).
Proof.
  intros [Hi Hs]. unfold to_Reason, from_Reason. lookup_written.
  rewrite kind_read, error_kind_read, index_read, !string_read, bool_read, status_read by done. cbn [tbind ebind].
  assert ((Z.to_nat <$> (Z.of_nat <$> rule_index_ r)) = rule_index_ r) as ->
    by (destruct (rule_index_ r); simpl; [by rewrite Nat2Z.id|done]).
  destruct r; simpl in *. by subst.
Qed.

Lemma reason_field_read (o : option EvaluationReason) :
  match o with Some r => reason_ok r | None => True end → reason_field (from_Reason <$> o) = Some (Val o).
Proof.
  destruct o as [r|]; [|done]. intros Hr. cbn [fmap option_fmap option_map].
  assert (∃ obj, from_Reason r = JObject obj) as [obj E] by by eexists.
  rewrite E. unfold reason_field. by rewrite <- E, reason_read.
Qed.

Lemma date_read (o : option Date) :
  match o with Some d => 0 ≤ d < 2 ^ 63 | None => True end →
  ∃ ms, ValueAsOpt_uint64 ((λ d, JInt64 (Z.quot d 1000000)) <$> o) = Some ms ∧ date_of_ms <$> ms = ms_date <$> o.
Proof.
  destruct o as [d|]; simpl; [|by exists None]. intros Hd.
  assert (0 ≤ Z.quot d 1000000 ∧ Z.quot d 1000000 * 1000000 ≤ d) as [H1 H2].
  { split; [apply Z.quot_pos; lia|]. rewrite Z.mul_comm. apply Z.mul_quot_le; lia. }
  exists (Some (Z.quot d 1000000)). rewrite uint64_of_int64 by lia. split; [done|]. simpl. f_equal.
  unfold date_of_ms, checked_ns, fits_s64, ms_date. rewrite s64_small by lia.
  by rewrite (proj2 (Z.leb_le _ _)), (proj2 (Z.ltb_lt _ _)) by lia.
Qed.

Lemma prerequisites_found k obj (o : option (list string)) :
  obj_find k (match o with Some l => write_vec JString "prerequisites" l obj | None => obj end) =
  or_written (obj_find k obj) k "prerequisites" (match o with Some (x :: l) => Some (JArray (JString <$> x :: l)) | _ => None end).
Proof.
  destruct o as [[|x l]|]; [by rewrite find_write_vec|by rewrite find_write_vec|]. apply (find_write_if k "prerequisites" JNull false).
Qed.

Lemma prerequisites_read (o : option (list string)) :
  ValueAsOpt_strings (match o with Some (x :: l) => Some (JArray (JString <$> x :: l)) | _ => None end) =
  match o with Some (_ :: _) => o | _ => None end.
Proof. destruct o as [[|x l]|]; [done| |done]. apply (strings_read (x :: l)). Qed.

Lemma result_read r : er_ok r → to_EvaluationResult (from_EvaluationResult r) = Some (Val (Some (stored_result r))).
Proof.
  intros (Hv & Hf & Hd & Hw & Hk & Hr). unfold to_EvaluationResult, from_EvaluationResult.
  autorewrite with written. rewrite !prerequisites_found. lookup_written.
  change (Some (JUint64 (er_version r))) with (JUint64 <$> Some (er_version r)).
  rewrite !uint64_read by done. cbn [tbind]. destruct (date_read _ Hd) as (ms & -> & Hms). cbn [tbind].
  unfold value_field, to_value_or. rewrite (Value_inverts _ Hw Hk). cbn [ebind default from_option id].
  rewrite prerequisites_read, !bool_read, Hms. cbn [ValueAsOpt_uint64 tbind]. unfold stored_result.
  rewrite reason_field_read by done. cbn [tbind ebind]. by destruct (reason_ (er_detail r)).
Qed.

(** The flags that are kept, as they are read back. *)
Definition kept {A} (f : EvaluationResult → A) (kd : string * ResultDescriptor) : option (string * A) :=
  match item kd.2 with Some r => Some (kd.1, f r) | None => None end.

Lemma kept_cons {A} (f : EvaluationResult → A) k (d : ResultDescriptor) l :
  omap (kept f) ((k, d) :: l) = match item d with Some r => (k, f r) :: omap (kept f) l | None => omap (kept f) l end.
Proof. simpl. unfold kept at 1. simpl. by destruct (item d). Qed.

Lemma kept_keys {A} (f : EvaluationResult → A) (l : list (string * ResultDescriptor)) k :
  k ∈ (omap (kept f) l).*1 → k ∈ l.*1.
Proof.
  rewrite !list_elem_of_fmap. intros ([k' x] & -> & ([k'' d] & Hin & Hk)%list_elem_of_omap).
  exists (k'', d). split; [|done]. unfold kept in Hk. simpl in *. destruct (item d); [|done]. by injection Hk as <- <-.
Qed.

Lemma from_Results_spec l :
  NoDup l.*1 → from_Results l = JObject (omap (kept from_EvaluationResult) l).
Proof.
  intros Hnd. unfold from_Results. f_equal. cut (∀ obj : list (string * json), (∀ k, k ∈ l.*1 → obj_find k obj = None) →
    foldl (λ obj kd, match item kd.2 with Some r => obj_emplace kd.1 (from_EvaluationResult r) obj | None => obj end) obj l =
    obj ++ omap (kept from_EvaluationResult) l); [intros H; by apply H|].
  induction l as [|[k d] l IH]; intros obj Hobj; [by rewrite app_nil_r|].
  apply NoDup_cons in Hnd as [Hk Hnd]. rewrite kept_cons. cbn [foldl fst snd]. destruct (item d) as [r|].
  - unfold obj_emplace. rewrite Hobj by (by left). rewrite IH; [by rewrite <- app_assoc|done|]. intros j Hj.
    unfold obj_find. rewrite find_app. unfold obj_find in Hobj. rewrite Hobj by (by right). simpl.
    rewrite (proj2 (str_eqb_neq j k)); [done|]. intros ->. done.
  - apply IH; [done|]. intros j Hj. apply Hobj. by right.
Qed.

Definition results_ok (l : list (string * ResultDescriptor)) : Prop :=
  NoDup l.*1 ∧ Forall (λ kd, match item kd.2 with Some r => er_ok r | None => True end) l.

Lemma result_entries_read l acc :
  results_ok l → (∀ k, k ∈ l.*1 → acc !! k = None) →
  to_result_entries (omap (kept from_EvaluationResult) l) acc =
  Some (Val (list_to_map (omap (kept (λ r, result_descriptor (stored_result r))) l) ∪ acc)).
Proof.
  intros [Hnd Hok]. revert acc. induction l as [|[k d] l IH]; intros acc Hacc.
  { simpl. by rewrite (left_id_L ∅ (∪)). }
  apply NoDup_cons in Hnd as [Hk Hnd]. apply Forall_cons_1 in Hok as [Hd Hok]. rewrite !kept_cons.
  simpl in Hd. destruct (item d) as [r|].
  - cbn [to_result_entries]. unfold to_ResultDescriptor. rewrite (result_read r Hd). cbn [tbind ebind fmap option_fmap option_map].
    rewrite Hacc by (by left). rewrite IH; [|done|done|].
    + rewrite list_to_map_cons. cbn [fst snd]. rewrite <- insert_union_r; [by rewrite insert_union_l|].
      apply not_elem_of_list_to_map_1. intros Hin%kept_keys. done.
    + intros j Hj. rewrite lookup_insert_ne; [apply Hacc; by right|]. by intros <-.
  - apply IH; [done|done|]. intros j Hj. apply Hacc. by right.
Qed.

Lemma results_read l :
  results_ok l → to_Results (from_Results l) =
    Some (Val (Some (list_to_map (omap (kept (λ r, result_descriptor (stored_result r))) l)))).
Proof.
  intros Hl. rewrite from_Results_spec by apply Hl. unfold to_Results. rewrite result_entries_read; [|done|done].
  cbn. by rewrite (right_id_L ∅ (∪)).
Qed.
End ReadBack.
