(* ===== verification/JsonNumbers.v ===== *)
(** * JSON text and the kinds of its numbers

    Boost's parser reads a non-negative integer that fits [int64_t] as one, even if it was
    written from an [uint64_t]; apart from that, the text of a value reads back as the value.
    The readers of evaluation results do not tell the difference. *)

From S2P Require Import Prelude OrderedMap Doubles Values AttributeReferences Reasons DataModel Externals.
From S2P Require Import Operators EventData Json JsonModel Persistence EvaluationResults.
#[local] Open Scope Z_scope.

(** The value with its integers as the parser makes them. *)
Fixpoint norm (j : json) : json :=
  match j with
  | JUint64 z => if (0 <=? z) && (z <? 2 ^ 63) then JInt64 z else JUint64 z
  | JArray a => JArray (map norm a)
  | JObject o => JObject (map (λ kv, (fst kv, norm (snd kv))) o)
  | _ => j
  end.

(** The conversions look at the number, not at its kind. *)
Class NumberLaws (B : BoostJson) : Prop := {
  int64_kind : ∀ z, 0 ≤ z < 2 ^ 63 → to_number_int64 (JInt64 z) = to_number_int64 (JUint64 z);
  uint64_kind : ∀ z, 0 ≤ z < 2 ^ 63 → to_number_uint64 (JInt64 z) = to_number_uint64 (JUint64 z);
  double_kind : ∀ z, 0 ≤ z < 2 ^ 63 → to_number_double (JInt64 z) = to_number_double (JUint64 z);
}.

(** Values of which the text is faithful: finite numbers, strings that are UTF-8. *)
Class TextLaws (J : JsonText) (printable : json → Prop) : Prop := {
  parse_serialize : ∀ j, printable j → ∃ j', parse (serialize j) = Some j' ∧ norm j' = norm j;
}.

(** ** Lemmas *)

Definition norm_object (o : list (string * json)) : list (string * json) := map (λ kv, (fst kv, norm (snd kv))) o.

Lemma find_norm k o : obj_find k (norm_object o) = norm <$> obj_find k o.
Proof. unfold obj_find. induction o as [|[k' v] o IH]; [done|]. simpl. by destruct (str_eqb k k'). Qed.

Section Readers.
Context `{X : Externals} `{N : NumberLaws}.

(** A reader that does not see the kinds of numbers. *)
Definition kind_blind {A} (f : json → A) : Prop := ∀ j, f (norm j) = f j.

Lemma blind_find {A} (f : option json → A) k o :
  (∀ j, f (Some (norm j)) = f (Some j)) → f (obj_find k (norm_object o)) = f (obj_find k o).
Proof. intros Hf. rewrite find_norm. by destruct (obj_find k o); simpl. Qed.

Ltac cases_of_norm j := destruct j as [| | |z| | | |]; try done; cbn [norm];
  destruct ((0 <=? z) && (z <? 2 ^ 63)) eqn:Hz; [apply andb_true_iff in Hz as [?%Z.leb_le ?%Z.ltb_lt]; try done|done].

Lemma uint64_blind j : ValueAsOpt_uint64 (Some (norm j)) = ValueAsOpt_uint64 (Some j).
Proof. cases_of_norm j. simpl. by rewrite uint64_kind. Qed.

Lemma string_blind j : ValueAsOpt_string (Some (norm j)) = ValueAsOpt_string (Some j).
Proof. cases_of_norm j. Qed.

Lemma bool_blind d j : ValueOrDefault_bool (Some (norm j)) d = ValueOrDefault_bool (Some j) d.
Proof. cases_of_norm j. Qed.

Lemma strings_blind j : ValueAsOpt_strings (Some (norm j)) = ValueAsOpt_strings (Some j).
Proof.
  destruct j as [| | |z| | |a|]; try done; [by cbn [norm]; destruct (_ && _)|]. simpl.
  induction a as [|x a IH]; [done|]. simpl.
  destruct x as [| | |z| | | |]; try done; [by cbn [norm]; destruct (_ && _)|]. simpl. by rewrite IH.
Qed.

Lemma kind_kind_blind : kind_blind to_Kind.
Proof. intros j. cases_of_norm j. Qed.

Lemma error_kind_blind : kind_blind to_ErrorKind.
Proof. intros j. cases_of_norm j. Qed.

Lemma status_blind : kind_blind to_BigSegmentsStatus.
Proof. intros j. cases_of_norm j. Qed.

Lemma value_blind : kind_blind to_Value.
Proof.
  intros j. induction j as [j Hj|a IH|o IH] using json_nested_ind.
  - destruct j as [| | |z| | | |]; try done. cbn [norm].
    destruct ((0 <=? z) && (z <? 2 ^ 63)) eqn:Hz; [|done]. apply andb_true_iff in Hz as [?%Z.leb_le ?%Z.ltb_lt].
    cbn [to_Value]. by rewrite double_kind.
  - cbn [norm to_Value]. f_equal. induction IH as [|x a Hx Ha IHa]; [done|]. cbn [map]. by rewrite Hx, IHa.
  - cbn [norm to_Value]. f_equal. generalize (@nil (string * Value)).
    induction IH as [|[k x] o Hx Ho IHo]; intros acc; [done|]. cbn [map fst snd]. simpl in Hx. rewrite Hx.
    destruct (to_Value x); [|done]. cbn [ebind]. apply IHo.
Qed.

Lemma reason_blind : kind_blind to_Reason.
Proof.
  intros j. destruct j as [| | |z| | | |o]; try done; [by cbn [norm]; destruct (_ && _)|].
  cbn [norm]. fold (norm_object o). unfold to_Reason. rewrite !find_norm.
  destruct (obj_find "kind" o) as [k|]; [|done]. cbn [fmap option_fmap option_map]. rewrite kind_kind_blind.
  destruct (to_Kind k); [|done]. rewrite <- !find_norm.
  rewrite (blind_find ValueAsOpt_uint64), (blind_find ValueAsOpt_string "ruleId"), (blind_find ValueAsOpt_string "prerequisiteKey"),
    (blind_find (λ v, ValueOrDefault_bool v false)) by auto using uint64_blind, string_blind, bool_blind.
  rewrite !find_norm.
  destruct (obj_find "errorKind" o) as [e|]; cbn [fmap option_fmap option_map]; rewrite ?error_kind_blind;
    (destruct (obj_find "bigSegmentsStatus" o) as [b|]; cbn [fmap option_fmap option_map]; rewrite ?status_blind; done).
Qed.

Lemma value_field_blind j : value_field (Some (norm j)) = value_field (Some j).
Proof. unfold value_field, to_value_or. by rewrite value_blind. Qed.

Lemma reason_field_blind j : reason_field (Some (norm j)) = reason_field (Some j).
Proof.
  pose proof (reason_blind j) as H. unfold reason_field.
  destruct j as [| | |z| | | |]; try done; cbn [norm] in *; [by destruct (_ && _)|]. by rewrite H.
Qed.

Lemma result_blind : kind_blind to_EvaluationResult.
Proof.
  intros j. destruct j as [| | |z| | | |o]; try done; [by cbn [norm]; destruct (_ && _)|].
  cbn [norm]. fold (norm_object o). unfold to_EvaluationResult.
  rewrite !(blind_find ValueAsOpt_uint64), (blind_find ValueAsOpt_strings), !(blind_find (λ v, ValueOrDefault_bool v false))
    by auto using uint64_blind, strings_blind, bool_blind.
  rewrite (blind_find value_field), (blind_find reason_field) by auto using value_field_blind, reason_field_blind. done.
Qed.

Lemma result_entries_blind o acc : to_result_entries (norm_object o) acc = to_result_entries o acc.
Proof.
  revert acc. induction o as [|[k v] o IH]; intros acc; [done|]. cbn [norm_object map fst snd to_result_entries].
  unfold to_ResultDescriptor. rewrite result_blind. destruct (to_EvaluationResult v) as [[[r|]|e]|]; try done; apply IH.
Qed.

Lemma results_blind : kind_blind to_Results.
Proof.
  intros j. destruct j as [| | |z| | | |o]; try done; [by cbn [norm]; destruct (_ && _)|].
  cbn [norm]. fold (norm_object o). unfold to_Results. by rewrite result_entries_blind.
Qed.

(** What such a reader makes of the text of a value is what it makes of the value. *)
Lemma text_read {A} (f : json → A) (J : JsonText) printable `{!TextLaws J printable} j :
  kind_blind f → printable j → ∃ j', parse (serialize j) = Some j' ∧ f j' = f j.
Proof. intros Hf Hj. destruct (parse_serialize j Hj) as (j' & Hp & Hn). exists j'. split; [done|]. by rewrite <- Hf, Hn, Hf. Qed.
End Readers.

(** ** Reference instances *)

Lemma reference_numbers : NumberLaws reference_boost_json.
Proof. split; intros z Hz; done. Qed.

Lemma reference_text_laws : TextLaws reference_text (λ _, True).
Proof.
  split. intros j _. exists j. split; [|done]. unfold parse, serialize, reference_text.
  rewrite string_bits_string, decode_encode. simpl. by rewrite tree_json_tree.
Qed.
