(* ===== verification/ClientFlags.v ===== *)
(** * Flags of a client-side SDK

    libs/client-sdk/src/flag_manager: flag_store.cpp, flag_updater.cpp and
    flag_change_event.cpp.  A client-side SDK holds, for one context, the results of
    evaluations made by the service.  Listeners are connected by flag key; a
    [boost::signals2::signal] is the list of its connected handlers, and what the handlers
    were called with is recorded. *)

From S2P Require Import Prelude OrderedMap Doubles Values Contexts Reasons DataModel Stores Dependencies Notifier.
From S2P Require Import Operators EventData Json EvaluationResults.
#[local] Open Scope Z_scope.

Abbreviation Results := (gmap string ResultDescriptor).

(** ** [FlagValueChangeEvent] *)

Record FlagValueChangeEvent := mkChange {
  flag_name_ : string;
  new_value_ : Value;
  old_value_ : Value;
  deleted_ : bool;
}.

(** The two constructors. *)
Definition value_changed (name : string) (new_value old_value : Value) : FlagValueChangeEvent :=
  mkChange name new_value old_value false.
Definition flag_deleted (name : string) (old_value : Value) : FlagValueChangeEvent :=
  mkChange name VNull old_value true.

Definition GetValue (descriptor : ResultDescriptor) : Value :=
  match item descriptor with Some r => value_ (er_detail r) | None => VNull end.

(** ** [FlagStore] and [FlagUpdater] *)

Record FlagUpdater := mkUpdater {
  flag_store_ : Results;
  signals_ : gmap string (list nat);
  notified : list (nat * FlagValueChangeEvent);
}.

Definition new_updater : FlagUpdater := mkUpdater ∅ ∅ [].

Definition store_Init (data : Results) (u : FlagUpdater) : FlagUpdater := mkUpdater data (signals_ u) (notified u).

Definition store_Upsert (key : string) (item : ResultDescriptor) (u : FlagUpdater) : FlagUpdater :=
  mkUpdater (<[key := item]> (flag_store_ u)) (signals_ u) (notified u).

Definition store_Get (flag_key : string) (u : FlagUpdater) : option ResultDescriptor := flag_store_ u !! flag_key.
Definition store_GetAll (u : FlagUpdater) : Results := flag_store_ u.

Definition HasListeners (u : FlagUpdater) : bool := negb (bool_decide (signals_ u = ∅)).

Definition DispatchEvent (u : FlagUpdater) (event : FlagValueChangeEvent) : FlagUpdater :=
  match signals_ u !! flag_name_ event with
  | None => u
  | Some [] => mkUpdater (flag_store_ u) (delete (flag_name_ event) (signals_ u)) (notified u)
  | Some handlers => mkUpdater (flag_store_ u) (signals_ u) (notified u ++ ((λ h, (h, event)) <$> handlers))
  end.

Definition OnFlagChange (key : string) (handler : nat) (u : FlagUpdater) : FlagUpdater :=
  mkUpdater (flag_store_ u) (<[key := default [] (signals_ u !! key) ++ [handler]]> (signals_ u)) (notified u).

(** [SignalConnection::Disconnect] *)
Definition Disconnect (key : string) (handler : nat) (u : FlagUpdater) : FlagUpdater :=
  mkUpdater (flag_store_ u) (alter (filter (λ h, h ≠ handler)) key (signals_ u)) (notified u).

Section Updater.
Context `{!HashOrder}.

(** The two loops of [Init]. *)
Definition new_entry (old_flags : Results) (new_pair : string * ResultDescriptor) : list FlagValueChangeEvent :=
  match old_flags !! new_pair.1 with
  | Some existing =>
      match item new_pair.2 with
      | Some _ =>
          if negb (Value_eqb (GetValue new_pair.2) (GetValue existing))
          then [value_changed new_pair.1 (GetValue new_pair.2) (GetValue existing)] else []
      | None => [flag_deleted new_pair.1 (GetValue existing)]
      end
  | None => [value_changed new_pair.1 (GetValue new_pair.2) VNull]
  end.

Definition old_entry (data : Results) (old_pair : string * ResultDescriptor) : list FlagValueChangeEvent :=
  match data !! old_pair.1 with Some _ => [] | None => [flag_deleted old_pair.1 (GetValue old_pair.2)] end.

Definition updater_Init (data : Results) (u : FlagUpdater) : FlagUpdater :=
  let old_flags := store_GetAll u in
  let change_events :=
    if negb (bool_decide (old_flags = ∅)) && HasListeners u
    then (iterate data ≫= new_entry old_flags) ++ (iterate old_flags ≫= old_entry data) else [] in
  foldl DispatchEvent (store_Init data u) change_events.

Definition updater_Upsert (key : string) (descriptor : ResultDescriptor) (u : FlagUpdater) : FlagUpdater :=
  let existing := store_Get key u in
  if match existing with Some e => version descriptor <=? version e | None => false end then u
  else
    let u := store_Upsert key descriptor u in
    if HasListeners u then
      match existing, item descriptor with
      | Some e, Some _ => DispatchEvent u (value_changed key (GetValue descriptor) (GetValue e))
      | None, Some r => DispatchEvent u (value_changed key (value_ (er_detail r)) VNull)
      | Some e, None =>
          match item e with Some _ => DispatchEvent u (flag_deleted key (GetValue e)) | None => u end
      | None, None => u
      end
    else u.
End Updater.

(** ** Specification *)

(** The change that listeners of [k] are told of when all the flags are replaced. *)
Definition init_change (old new : Results) (k : string) : option FlagValueChangeEvent :=
  match new !! k, old !! k with
  | Some d, Some e =>
      match item d with
      | Some _ => if Value_eqb (GetValue d) (GetValue e) then None else Some (value_changed k (GetValue d) (GetValue e))
      | None => Some (flag_deleted k (GetValue e))
      end
  | Some d, None => Some (value_changed k (GetValue d) VNull)
  | None, Some e => Some (flag_deleted k (GetValue e))
  | None, None => None
  end.

(** ... and when one flag is updated: also when its value stays the same. *)
Definition upsert_change (old : option ResultDescriptor) (k : string) (d : ResultDescriptor) : option FlagValueChangeEvent :=
  match item d with
  | Some _ => Some (value_changed k (GetValue d) (match old with Some e => GetValue e | None => VNull end))
  | None =>
      match old with
      | Some e => match item e with Some _ => Some (flag_deleted k (GetValue e)) | None => None end
      | None => None
      end
  end.

(** The handlers connected for a key. *)
Definition handlers (u : FlagUpdater) (k : string) : list nat := default [] (signals_ u !! k).

(** [u'] comes from [u] by telling each of [events] to the handlers of its flag. *)
Definition told (u u' : FlagUpdater) (events : list FlagValueChangeEvent) : Prop :=
  notified u' = notified u ++ (events ≫= λ ev, (λ h, (h, ev)) <$> handlers u (flag_name_ ev)) ∧
  ∀ k, handlers u' k = handlers u k.

Lemma told_refl u u' : notified u' = notified u → signals_ u' = signals_ u → told u u' [].
Proof. intros Hn Hs. unfold told, handlers. rewrite Hn, Hs. simpl. by rewrite app_nil_r. Qed.

Lemma dispatch_told ev u : told u (DispatchEvent u ev) [ev] ∧ flag_store_ (DispatchEvent u ev) = flag_store_ u.
Proof.
  unfold told, DispatchEvent, handlers. simpl. rewrite app_nil_r.
  destruct (signals_ u !! flag_name_ ev) as [[|h hs]|] eqn:E; rewrite ?app_nil_r; simpl; [|done|].
  - split; [|done]. split; [by rewrite ?app_nil_r|]. intros k. destruct (decide (flag_name_ ev = k)) as [<-|Hne].
    + by rewrite lookup_delete_eq, E.
    + by rewrite lookup_delete_ne.
  - by rewrite ?app_nil_r.
Qed.

Lemma dispatches_told events u :
  told u (foldl DispatchEvent u events) events ∧ flag_store_ (foldl DispatchEvent u events) = flag_store_ u.
Proof.
  revert u. induction events as [|ev events IH]; intros u; simpl; [split; [by apply told_refl|done]|].
  destruct (dispatch_told ev u) as [[Hn Hh] Hs]. destruct (IH (DispatchEvent u ev)) as [[Hn' Hh'] Hs'].
  split; [|congruence]. split; [|intros k; by rewrite Hh', Hh].
  rewrite Hn', Hn. simpl. rewrite app_nil_r, <- app_assoc. do 2 f_equal. apply list_bind_ext; [|done].
  intros ev'. by rewrite Hh.
Qed.

(** Without listeners nobody is told anything. *)
Lemma no_listeners u u' events :
  HasListeners u = false → notified u' = notified u → signals_ u' = signals_ u → told u u' events.
Proof.
  unfold HasListeners. rewrite negb_false_iff, bool_decide_eq_true. intros Hs Hn Hs'.
  unfold told, handlers. rewrite Hn, Hs', Hs. split; [|done].
  induction events as [|ev events IH]; simpl; [by rewrite app_nil_r|]. by rewrite lookup_empty.
Qed.

Section UpdaterSpec.
Context `{!HashOrder}.

Lemma elem_iterate {A} (m : gmap string A) k x : (k, x) ∈ iterate m ↔ m !! k = Some x.
Proof. rewrite iterate_perm. apply elem_of_map_to_list. Qed.

Lemma nodup_iterate {A} (m : gmap string A) : NoDup (iterate m).*1.
Proof. rewrite (iterate_perm m). apply NoDup_fst_map_to_list. Qed.

(** The events collected by [Init]. *)
Definition init_events (old data : Results) : list FlagValueChangeEvent :=
  (iterate data ≫= new_entry old) ++ (iterate old ≫= old_entry data).

Lemma new_entry_spec old kd ev :
  ev ∈ new_entry old kd → flag_name_ ev = kd.1 ∧ ∀ data, data !! kd.1 = Some kd.2 → init_change old data kd.1 = Some ev.
Proof.
  unfold new_entry, init_change. destruct kd as [k d]. simpl. destruct (old !! k) as [e|] eqn:Ho; [destruct (item d) eqn:Hi|].
  - destruct (Value_eqb _ _) eqn:Hv; simpl; [by intros ?%not_elem_of_nil|]. intros ->%list_elem_of_singleton.
    split; [done|]. intros data ->. by rewrite Hi, Hv.
  - intros ->%list_elem_of_singleton. split; [done|]. intros data ->. by rewrite Hi.
  - intros ->%list_elem_of_singleton. split; [done|]. by intros data ->.
Qed.

Lemma old_entry_spec data kd ev :
  ev ∈ old_entry data kd → flag_name_ ev = kd.1 ∧ ∀ old, old !! kd.1 = Some kd.2 → init_change old data kd.1 = Some ev.
Proof.
  unfold old_entry, init_change. destruct kd as [k e]. simpl. destruct (data !! k); [by intros ?%not_elem_of_nil|].
  intros ->%list_elem_of_singleton. split; [done|]. by intros old ->.
Qed.

Lemma init_events_in old data ev : ev ∈ init_events old data ↔ init_change old data (flag_name_ ev) = Some ev.
Proof.
  unfold init_events. rewrite elem_of_app, !list_elem_of_bind. split.
  - intros [([k d] & Hev & Hin%elem_iterate)|([k e] & Hev & Hin%elem_iterate)].
    + destruct (new_entry_spec old (k, d) ev Hev) as [-> Hc]. by apply Hc.
    + destruct (old_entry_spec data (k, e) ev Hev) as [-> Hc]. by apply Hc.
  - set (k := flag_name_ ev). unfold init_change. destruct (data !! k) as [d|] eqn:Hd.
    + intros Hc. left. exists (k, d). split; [|by apply elem_iterate]. unfold new_entry. simpl.
      destruct (old !! k) as [e|]; [|injection Hc as Hc; rewrite <- Hc; by left].
      destruct (item d); [|injection Hc as Hc; rewrite <- Hc; by left]. destruct (Value_eqb _ _); [done|]. injection Hc as Hc. rewrite <- Hc. by left.
    + destruct (old !! k) as [e|] eqn:He; [|done]. intros [= Hc]. right. exists (k, e).
      split; [|by apply elem_iterate]. unfold old_entry. simpl. rewrite Hd, <- Hc. by left.
Qed.

(** One loop tells of a flag at most once. *)
Lemma nodup_entries (f : string * ResultDescriptor → list FlagValueChangeEvent) l :
  (∀ kd ev, ev ∈ f kd → flag_name_ ev = kd.1) → (∀ kd, (length (f kd) ≤ 1)%nat) → NoDup l.*1 →
  NoDup (flag_name_ <$> (l ≫= f)).
Proof.
  intros Hname Hlen. induction l as [|kd l IH]; intros Hnd; [constructor|].
  apply NoDup_cons in Hnd as [Hk Hnd]. simpl. rewrite fmap_app. apply NoDup_app. split_and!; [| |by apply IH].
  - specialize (Hlen kd). destruct (f kd) as [|ev [|]]; simpl in *; [constructor|apply NoDup_singleton|lia].
  - intros k (ev & -> & Hev)%list_elem_of_fmap (ev' & Hn & Hev')%list_elem_of_fmap.
    apply list_elem_of_bind in Hev' as (kd' & Hev' & Hin). apply Hname in Hev, Hev'. apply Hk.
    rewrite <- Hev, Hn, Hev'. by apply list_elem_of_fmap_2.
Qed.

Lemma init_events_nodup old data : NoDup (flag_name_ <$> init_events old data).
Proof.
  unfold init_events. rewrite fmap_app. apply NoDup_app. split_and!.
  - apply nodup_entries; [intros kd ev Hev; by apply (new_entry_spec old)| |apply nodup_iterate].
    intros kd. unfold new_entry. destruct (old !! kd.1); [|simpl; lia]. destruct (item kd.2); [|simpl; lia].
    destruct (Value_eqb _ _); simpl; lia.
  - intros k (ev & -> & Hev)%list_elem_of_fmap (ev' & Hn & Hev')%list_elem_of_fmap.
    apply list_elem_of_bind in Hev as ([k d] & Hev & Hin%elem_iterate), Hev' as ([k' e] & Hev' & Hin'%elem_iterate).
    destruct (new_entry_spec old (k, d) ev Hev) as [Hk _]. simpl in *.
    destruct (old_entry_spec data (k', e) ev' Hev') as [Hk' _]. simpl in *.
    assert (k = k') as -> by congruence. unfold old_entry in Hev'. simpl in Hev'. rewrite Hin in Hev'.
    by apply not_elem_of_nil in Hev'.
  - apply nodup_entries; [intros kd ev Hev; by apply (old_entry_spec data)| |apply nodup_iterate].
    intros kd. unfold old_entry. destruct (data !! kd.1); simpl; lia.
Qed.
End UpdaterSpec.

(** ** Theorems *)

(** Replacing all the flags stores them and tells, for each key once, the handlers
    connected to it of the change from the old value to the new one, exactly when the value
    changed or the flag came or went; nobody is told anything by the first data.  Updating
    one flag stores it unless a version as recent is there, and tells the handlers of that
    key only: of the old and the new value, also when they are equal, or of its deletion.
    Handlers are told after the store has been changed, and none is lost or added. *)
Theorem client_notifications `{!HashOrder} (u : FlagUpdater) :
  (∀ data, let u' := updater_Init data u in
    flag_store_ u' = data ∧
    ∃ events, told u u' events ∧ NoDup (flag_name_ <$> events) ∧
      (flag_store_ u = ∅ → events = []) ∧
      (flag_store_ u ≠ ∅ → ∀ ev, ev ∈ events ↔ init_change (flag_store_ u) data (flag_name_ ev) = Some ev)) ∧
  (∀ key d, let u' := updater_Upsert key d u in
    flag_store_ u' = offer (flag_store_ u) (key, d) ∧
    told u u' (match flag_store_ u !! key with
               | Some e => if version d <=? version e then [] else option_list (upsert_change (Some e) key d)
               | None => option_list (upsert_change None key d)
               end)).
Proof.
  split.
  - intros data. unfold updater_Init, store_GetAll.
    destruct (dispatches_told (init_events (flag_store_ u) data) (store_Init data u)) as [[Ht1 Ht2] Hs].
    destruct (decide (flag_store_ u = ∅)) as [He|Hne].
    { rewrite bool_decide_eq_true_2 by done. split; [done|]. exists [].
      split_and!; [by apply told_refl|constructor|done|done]. }
    rewrite bool_decide_eq_false_2 by done. destruct (HasListeners u) eqn:HL; simpl.
    + split; [done|]. exists (init_events (flag_store_ u) data). split_and!; [done|apply init_events_nodup|done|].
      intros _. apply init_events_in.
    + split; [done|]. exists (init_events (flag_store_ u) data).
      split_and!; [by apply no_listeners|apply init_events_nodup|done|]. intros _. apply init_events_in.
  - intros key d. unfold updater_Upsert, store_Get, offer. simpl.
    destruct (flag_store_ u !! key) as [e|] eqn:He; [destruct (version d <=? version e); [by split; [|apply told_refl]|]|];
      (destruct (HasListeners (store_Upsert key d u)) eqn:HL; [|split; [done|by apply no_listeners]]);
      unfold upsert_change; (destruct (item d) as [r|] eqn:Hd; [|try destruct (item e) as [r|]]); simpl;
      try (split; [done|by apply told_refl]).
    + by destruct (dispatch_told (value_changed key (GetValue d) (GetValue e)) (store_Upsert key d u)) as [[] ->].
    + by destruct (dispatch_told (flag_deleted key (GetValue e)) (store_Upsert key d u)) as [[] ->].
    + unfold GetValue. rewrite Hd.
      by destruct (dispatch_told (value_changed key (value_ (er_detail r)) VNull) (store_Upsert key d u)) as [[] ->].
Qed.

(** Updates may arrive in any order: when a key and a version determine a result, sequences
    of updates that are permutations of each other leave the same flags. *)
Theorem client_updates_converge `{!HashOrder} (f : string → Z → ResultDescriptor) (u u' : FlagUpdater)
  (l l' : list (string * ResultDescriptor)) :
  l ≡ₚ l' → flag_store_ u = flag_store_ u' → coherent f (flag_store_ u) →
  Forall (λ kd, kd.2 = f kd.1 (version kd.2)) l →
  flag_store_ (foldl (λ u kd, updater_Upsert kd.1 kd.2 u) u l) =
  flag_store_ (foldl (λ u kd, updater_Upsert kd.1 kd.2 u) u' l').
Proof.
  assert (∀ l u, flag_store_ (foldl (λ u kd, updater_Upsert kd.1 kd.2 u) u l) = foldl offer (flag_store_ u) l) as Hfold.
  { clear. induction l as [|[k d] l IH]; intros u; simpl; [done|]. rewrite IH. f_equal. unfold updater_Upsert, offer. simpl.
    assert (∀ ev, flag_store_ (DispatchEvent (store_Upsert k d u) ev) = <[k := d]> (flag_store_ u)) as Hs
      by (intros ev; apply (dispatch_told ev (store_Upsert k d u))).
    unfold store_Get. destruct (flag_store_ u !! k) as [e|]; [destruct (version d <=? version e); [done|]|];
      (destruct (HasListeners _); [|done]); destruct (item d); try destruct (item e); done || apply Hs. }
  intros Hp Hu Hc Hl. rewrite !Hfold, <- Hu. by eapply offers_perm.
Qed.
