(* ===== verification/ClientCache.v ===== *)
(** * The flag cache of a client-side SDK

    libs/client-sdk/src/flag_manager: context_index.cpp, flag_persistence.cpp and
    flag_manager.cpp: flags are kept, by context, in a key-value store the application
    supplies, with an index by which the contexts used least recently are removed.

    The store is an interface ([IPersistence]) with the laws of a map; SHA-256, [std::sort]
    and the text of JSON are parameters.  A method returns [None] when it throws. *)

From S2P Require Import Prelude OrderedMap Doubles Values AttributeReferences Contexts Reasons DataModel Externals ReferenceExternals.
From S2P Require Import Stores Dependencies Notifier Operators EventData Json JsonModel Persistence Encodings.
From S2P Require Import EvaluationResults JsonNumbers ClientFlags.
From stdpp Require Import sorting.
#[local] Open Scope Z_scope.

(** ** Interfaces *)

Class IPersistence (P : Type) := {
  p_Set : string → string → string → P → P;
  p_Remove : string → string → P → P;
  p_Read : string → string → P → option string;
}.

Class PersistenceLaws (P : Type) `{!IPersistence P} : Prop := {
  read_set : ∀ ns k ns' k' v p, p_Read ns k (p_Set ns' k' v p) = if decide ((ns, k) = (ns', k')) then Some v else p_Read ns k p;
  read_remove : ∀ ns k ns' k' p, p_Read ns k (p_Remove ns' k' p) = if decide ((ns, k) = (ns', k')) then None else p_Read ns k p;
}.

(** OpenSSL's [SHA256]: 32 octets. *)
Class Sha256 := {
  SHA256 : string → list ascii;
  SHA256_length : ∀ s, length (SHA256 s) = 32%nat;
}.

(** [std::sort] by a comparison. *)
Class StdSort := {
  std_sort {A : Type} : (A → A → bool) → list A → list A;
  std_sort_perm {A : Type} (lt : A → A → bool) l : std_sort lt l ≡ₚ l;
  (** nothing comes before something that is less *)
  std_sort_sorted {A : Type} (lt : A → A → bool) l i j x y :
    (∀ x y, lt x y = true → lt y x = false) → (∀ x y z, lt x y = false → lt y z = false → lt x z = false) →
    std_sort lt l !! i = Some x → std_sort lt l !! j = Some y → (i < j)%nat → lt y x = false;
}.

(** ** [ContextIndex] *)

Record IndexEntry := mkEntry { ie_id : string; ie_timestamp : Date }.

(** [Notice] *)
Fixpoint Notice (id : string) (timestamp : Date) (index : list IndexEntry) : list IndexEntry :=
  match index with
  | [] => [mkEntry id timestamp]
  | entry :: rest =>
      if str_eqb (ie_id entry) id then mkEntry (ie_id entry) timestamp :: rest else entry :: Notice id timestamp rest
  end.

(** [Prune]: the index and the ids removed from it. *)
Definition Prune `{!StdSort} (maxContexts : nat) (index : list IndexEntry) : list IndexEntry * list string :=
  if (length index <=? maxContexts)%nat then (index, [])
  else
    let index := std_sort (λ a b, ie_timestamp b <? ie_timestamp a) index in
    (take maxContexts index, ie_id <$> drop maxContexts index).

Definition from_Entry (entry : IndexEntry) : json :=
  JObject [("id", JString (ie_id entry)); ("timestamp", JInt64 (Z.quot (ie_timestamp entry) 1000000))].

Definition from_Index (index : list IndexEntry) : json := JObject [("index", JArray (from_Entry <$> index))].

(** The entries of the array; items that are not entries are skipped. *)
Fixpoint to_entries_of `{Externals, BoostJson} (arr : list json) : option (list IndexEntry) :=
  match arr with
  | [] => Some []
  | JObject obj :: rest =>
      let id := ValueAsOpt_string (obj_find "id" obj) in
      let! timestamp := ValueAsOpt_uint64 (obj_find "timestamp" obj) in
      let! entries := to_entries_of rest in
      Some (match id, timestamp with
            | Some id, Some ms => mkEntry id (date_of_ms ms) :: entries
            | _, _ => entries
            end)
  | _ :: rest => to_entries_of rest
  end.

Definition to_Index `{Externals, BoostJson} (json_value : json) : option (list IndexEntry) :=
  match json_value with
  | JObject obj => match obj_find "index" obj with Some (JArray arr) => to_entries_of arr | _ => Some [] end
  | _ => Some []
  end.

(** ** [FlagPersistence] *)

Definition PersistenceEncodeKey `{!Sha256} (input : string) : string := of_chars (Base64UrlEncode (SHA256 input)).

Definition MakeEnvironment `{!Sha256} (prefix sdk_key : string) : string := prefix +:+ "_" +:+ PersistenceEncodeKey sdk_key.

Definition global_namespace_ : string := "LaunchDarkly".
Definition index_key_ : string := "ContextIndex".

Record FlagPersistence (P : Type) := mkCache {
  cache_sink_ : FlagUpdater;
  persistence_ : option P;
  environment_namespace_ : string;
  max_cached_contexts_ : nat;
}.
Arguments mkCache {P} _ _ _ _.
Arguments cache_sink_ {P} _.
Arguments persistence_ {P} _.
Arguments environment_namespace_ {P} _.
Arguments max_cached_contexts_ {P} _.

Section Cache.
Context `{X : Externals} `{B : BoostJson} `{J : JsonText} `{!HashOrder} `{!Sha256} `{!StdSort}.
Context {P : Type} `{!IPersistence P}.
Implicit Types (f : FlagPersistence P).

Definition new_cache (sdk_key : string) (persistence : option P) (max_cached_contexts : nat) : FlagPersistence P :=
  mkCache new_updater persistence (MakeEnvironment global_namespace_ sdk_key) max_cached_contexts.

Definition with_sink (u : FlagUpdater) f : FlagPersistence P :=
  mkCache u (persistence_ f) (environment_namespace_ f) (max_cached_contexts_ f).
Definition with_persistence (p : P) f : FlagPersistence P :=
  mkCache (cache_sink_ f) (Some p) (environment_namespace_ f) (max_cached_contexts_ f).

(** [GetIndex], with a persistence. *)
Definition GetIndex (ns : string) (p : P) : option (list IndexEntry) :=
  match p_Read ns index_key_ p with
  | Some index_data => match parse index_data with Some parsed => to_Index parsed | None => Some [] end
  | None => Some []
  end.

(** What [StoreCache] writes, given the index it read. *)
Definition write_cache (ns context_id : string) (now : Date) (max : nat) (flags : Results) (index : list IndexEntry)
    (p : P) : P :=
  let '(index, pruned) := Prune max (Notice context_id now index) in
  let p := foldl (λ p id, p_Remove ns id p) p pruned in
  let p := p_Set ns index_key_ (serialize (from_Index index)) p in
  p_Set ns context_id (serialize (from_Results (iterate flags))) p.

Definition StoreCache (context_id : string) (now : Date) f : option (FlagPersistence P) :=
  match persistence_ f with
  | None => Some f
  | Some p =>
      let ns := environment_namespace_ f in
      let! index := GetIndex ns p in
      Some (with_persistence
        (write_cache ns context_id now (max_cached_contexts_ f) (store_GetAll (cache_sink_ f)) index p) f)
  end.

Definition cache_Init (context : Context) (data : Results) (now : Date) f : option (FlagPersistence P) :=
  StoreCache (PersistenceEncodeKey (CanonicalKey context)) now (with_sink (updater_Init data (cache_sink_ f)) f).

Definition cache_Upsert (context : Context) (key : string) (item : ResultDescriptor) (now : Date) f :
    option (FlagPersistence P) :=
  StoreCache (PersistenceEncodeKey (CanonicalKey context)) now (with_sink (updater_Upsert key item (cache_sink_ f)) f).

Definition LoadCached (context : Context) f : option (FlagPersistence P) :=
  match persistence_ f with
  | Some p =>
      if negb (Context_Valid context) then Some f
      else
        match p_Read (environment_namespace_ f) (PersistenceEncodeKey (CanonicalKey context)) p with
        | None => Some f
        | Some data =>
            match parse data with
            | None => Some f
            | Some parsed =>
                let! res := to_Results parsed in
                match res with
                | Unexpected _ => Some f
                | Val maybe_map => Some (with_sink (updater_Init (default ∅ maybe_map) (cache_sink_ f)) f)
                end
            end
        end
  | None => Some f
  end.
End Cache.

(** ** Lemmas: the index *)

Lemma encoded_key_length `{!Sha256} s : length (chars (PersistenceEncodeKey s)) = 44%nat.
Proof. unfold PersistenceEncodeKey. by rewrite chars_of_chars, Base64UrlEncode_length, SHA256_length. Qed.

(** The name of the index is not the name of a context. *)
Lemma encoded_not_index `{!Sha256} s : PersistenceEncodeKey s ≠ index_key_.
Proof. intros E. pose proof (encoded_key_length s) as Hl. by rewrite E in Hl. Qed.

Lemma Notice_in id now index e :
  NoDup (ie_id <$> index) → e ∈ Notice id now index ↔ e = mkEntry id now ∨ (e ∈ index ∧ ie_id e ≠ id).
Proof.
  induction index as [|x index IH]; simpl.
  { intros _. rewrite list_elem_of_singleton. split; [by left|]. intros [?|[?%not_elem_of_nil _]]; done. }
  intros [Hx Hnd]%NoDup_cons. destruct (str_eqb (ie_id x) id) eqn:E.
  - apply str_eqb_eq in E as <-. rewrite !elem_of_cons. split.
    + intros [->|He]; [by left|]. right. split; [by right|]. intros Heq. apply Hx. rewrite <- Heq. by apply list_elem_of_fmap_2.
    + intros [->|[[->|He] Hne]]; [by left|done|by right].
  - apply str_eqb_neq in E. rewrite !elem_of_cons, IH by done. split.
    + intros [->|[->|[He Hne]]]; [by right; split; [left|]|by left|]. right. split; [by right|done].
    + intros [->|[[->|He] Hne]]; [by right; left|by left|by right; right].
Qed.

Lemma Notice_ids id now index :
  NoDup (ie_id <$> index) → NoDup (ie_id <$> Notice id now index).
Proof.
  induction index as [|x index IH]; simpl; [intros _; apply NoDup_singleton|].
  intros [Hx Hnd]%NoDup_cons. destruct (str_eqb (ie_id x) id) eqn:E.
  - simpl. by apply NoDup_cons.
  - simpl. apply NoDup_cons. split; [|by apply IH].
    intros (e & He & Hin)%list_elem_of_fmap. apply Notice_in in Hin as [->|[Hin Hne]]; [|..|done].
    + simpl in He. apply str_eqb_neq in E. done.
    + apply Hx. rewrite He. by apply list_elem_of_fmap_2.
Qed.

Section Prune.
Context `{!StdSort}.
Implicit Types (index : list IndexEntry).

Lemma Prune_spec max index :
  let '(kept, removed) := Prune max index in
  (length kept ≤ max)%nat ∧ ∃ rest, kept ++ rest ≡ₚ index ∧ removed = ie_id <$> rest.
Proof.
  unfold Prune. destruct (Nat.leb_spec (length index) max).
  - split; [done|]. exists []. by rewrite app_nil_r.
  - split; [rewrite length_take; lia|]. eexists. split; [|done]. rewrite take_drop. apply std_sort_perm.
Qed.

(** The entry with the latest time is kept. *)
Lemma Prune_keeps max index e :
  (1 ≤ max)%nat → e ∈ index → NoDup (ie_id <$> index) →
  (∀ x, x ∈ index → x = e ∨ ie_timestamp x < ie_timestamp e) → e ∈ (Prune max index).1.
Proof.
  intros Hmax He Hnd Hlate. unfold Prune. destruct (_ <=? _)%nat; [done|]. simpl.
  set (lt := λ a b : IndexEntry, ie_timestamp b <? ie_timestamp a). set (l := std_sort lt index).
  assert (e ∈ l) as Hl by (by unfold l; rewrite std_sort_perm).
  apply list_elem_of_lookup in Hl as [j Hj]. destruct j as [|j].
  { destruct l as [|y l]; [done|]. injection Hj as ->. destruct max; [lia|]. simpl. by left. }
  exfalso. destruct (l !! 0%nat) as [x|] eqn:Hx.
  - assert (lt e x = false) as Hlt.
    { eapply (std_sort_sorted lt index 0 (S j)); [..|exact Hx|exact Hj|lia]; unfold lt.
      - intros a b. rewrite Z.ltb_lt, Z.ltb_ge. lia.
      - intros a b c. rewrite !Z.ltb_ge. lia. }
    assert (x ∈ index) as Hin by (rewrite <- (std_sort_perm lt index); by eapply list_elem_of_lookup_2).
    destruct (Hlate x Hin) as [->|Hts]; [|unfold lt in Hlt; apply Z.ltb_ge in Hlt; lia].
    assert (NoDup l) as Hndl.
    { apply (NoDup_fmap_1 ie_id). unfold l. by rewrite std_sort_perm. }
    by pose proof (NoDup_lookup l _ _ e Hndl Hx Hj).
  - apply lookup_ge_None in Hx. apply lookup_lt_Some in Hj. lia.
Qed.
End Prune.

(** ** Lemmas: the text of the index *)

Definition ms_entry (e : IndexEntry) : IndexEntry := mkEntry (ie_id e) (ms_date (ie_timestamp e)).

Definition entry_ok (e : IndexEntry) : Prop := 0 ≤ ie_timestamp e < 2 ^ 63.

Section IndexText.
Context `{X : Externals} `{S : BoostJsonSpec} `{N : !NumberLaws B}.

Lemma entries_read (index : list IndexEntry) :
  Forall entry_ok index → to_entries_of (from_Entry <$> index) = Some (ms_entry <$> index).
Proof using S.
  induction 1 as [|e index He _ IH]; [done|]. rewrite !fmap_cons. unfold from_Entry at 1. cbn [to_entries_of].
  rewrite IH. destruct (date_read (Some (ie_timestamp e)) He) as (ms & Hms & Hd).
  change (obj_find "timestamp" _) with ((λ d, JInt64 (Z.quot d 1000000)) <$> Some (ie_timestamp e)).
  rewrite Hms. cbn [tbind]. destruct ms as [ms|]; [|done]. injection Hd as Hd.
  change (ValueAsOpt_string _) with (Some (ie_id e)). cbn. unfold ms_entry at 2. by rewrite <- Hd.
Qed.

Lemma index_read_back (index : list IndexEntry) :
  Forall entry_ok index → to_Index (from_Index index) = Some (ms_entry <$> index).
Proof using S. intros Hi. unfold to_Index, from_Index. by apply entries_read. Qed.

Lemma cached_entries_blind arr : to_entries_of (map norm arr) = to_entries_of arr.
Proof using N.
  induction arr as [|j arr IH]; [done|]. cbn [map to_entries_of].
  destruct j as [| | |z| | | |o]; cbn [norm]; try (by rewrite IH); [by destruct (_ && _); rewrite IH|].
  fold (norm_object o). rewrite (blind_find ValueAsOpt_string), (blind_find ValueAsOpt_uint64), IH
    by auto using uint64_blind, string_blind. done.
Qed.

Lemma index_blind : kind_blind to_Index.
Proof using N.
  intros j. destruct j as [| | |z| | | |o]; try done; [by cbn [norm]; destruct (_ && _)|].
  cbn [norm]. fold (norm_object o). unfold to_Index. rewrite find_norm.
  destruct (obj_find "index" o) as [[| | |z| | |a|]|]; try done; cbn [fmap option_fmap option_map norm];
    [by destruct (_ && _)|apply cached_entries_blind].
Qed.
End IndexText.

(** ** Specification *)

Section CacheSpec.
Context `{X : Externals} `{S : BoostJsonSpec} `{N : !NumberLaws B} `{J : JsonText} (printable : json → Prop) `{T : !TextLaws J printable}.
Context `{!HashOrder} `{!Sha256} `{!StdSort} {P : Type} `{!IPersistence P} `{L : !PersistenceLaws P}.
Implicit Types (f : FlagPersistence P) (index : list IndexEntry).

(** What the cache gives back: the results as they are stored, without the tombstones. *)
Definition cached (flags : Results) : Results :=
  omap (λ d : ResultDescriptor, (λ r, result_descriptor (stored_result r)) <$> item d) flags.

Definition flags_ok (flags : Results) : Prop :=
  map_Forall (λ _ d, match item d with Some r => er_ok r | None => True end) flags ∧
  printable (from_Results (iterate flags)).

(** Entries of contexts, with times the clock may read. *)
Definition index_ok index : Prop :=
  NoDup (ie_id <$> index) ∧ Forall (λ e, entry_ok e ∧ ∃ s, ie_id e = PersistenceEncodeKey s) index.

(** The store of an environment holds, besides the index, only contexts of the index. *)
Definition CacheOk (ns : string) (max : nat) (p : P) : Prop :=
  ∃ index, GetIndex ns p = Some index ∧ index_ok index ∧ (length index ≤ max)%nat ∧
    ∀ k, is_Some (p_Read ns k p) → k = index_key_ ∨ k ∈ ie_id <$> index.

Lemma removed_read ns k ids (p : P) :
  p_Read ns k (foldl (λ p id, p_Remove ns id p) p ids) = if decide (k ∈ ids) then None else p_Read ns k p.
Proof using L.
  revert p. induction ids as [|id ids IH]; intros p; simpl; [done|]. rewrite IH, read_remove.
  destruct (decide (k = id)) as [->|Hne].
  - rewrite (decide_True (P := (ns, id) = (ns, id))), (decide_True (P := id ∈ id :: ids)) by (done || by left).
    by destruct (decide (id ∈ ids)).
  - rewrite (decide_False (P := (ns, k) = (ns, id))) by congruence.
    destruct (decide (k ∈ ids)); [rewrite decide_True by (by right)|rewrite decide_False by (by intros [|]%elem_of_cons)]; done.
Qed.

Lemma cached_entries flags :
  list_to_map (omap (kept (λ r, result_descriptor (stored_result r))) (iterate flags)) = cached flags.
Proof.
  apply map_eq. intros k. unfold cached. rewrite lookup_omap.
  assert (NoDup (omap (kept (λ r, result_descriptor (stored_result r))) (iterate flags)).*1) as Hnd.
  { pose proof (nodup_iterate flags) as Hn. induction (iterate flags) as [|[k' d] l IH]; [constructor|].
    apply NoDup_cons in Hn as [Hk Hn]. rewrite kept_cons. destruct (item d); [|by apply IH]. simpl.
    apply NoDup_cons. split; [|by apply IH]. intros Hin%kept_keys. done. }
  destruct (flags !! k) as [d|] eqn:Hd; simpl.
  - destruct (item d) as [r|] eqn:Hi; simpl.
    + apply elem_of_list_to_map_1; [done|]. apply list_elem_of_omap. exists (k, d).
      split; [by apply elem_iterate|]. unfold kept. simpl. by rewrite Hi.
    + apply not_elem_of_list_to_map_1. intros ([k' x] & -> & ([k'' d'] & Hin%elem_iterate & Hk)%list_elem_of_omap)%list_elem_of_fmap.
      unfold kept in Hk. simpl in *. destruct (item d') eqn:Hi'; [|done]. injection Hk as <- <-. congruence.
  - apply not_elem_of_list_to_map_1. intros Hin%kept_keys.
    apply list_elem_of_fmap in Hin as ([k' d'] & -> & Hin%elem_iterate). simpl in Hd. congruence.
Qed.

Lemma flags_text flags :
  flags_ok flags → ∃ j, parse (serialize (from_Results (iterate flags))) = Some j ∧ to_Results j = Some (Val (Some (cached flags))).
Proof using S N T.
  intros [Hok Hp]. destruct (text_read to_Results J printable _ results_blind Hp) as (j & Hj & Hr).
  exists j. split; [done|]. rewrite Hr, results_read, cached_entries; [done|]. split; [apply nodup_iterate|].
  apply Forall_forall. intros [k d] Hin%elem_iterate. by apply (Hok k d).
Qed.

Hypothesis Hprint : ∀ index, Forall (λ e, ∃ s, ie_id e = PersistenceEncodeKey s) index → printable (from_Index index).

Lemma index_text index :
  index_ok index → ∃ j, parse (serialize (from_Index index)) = Some j ∧ to_Index j = Some (ms_entry <$> index).
Proof using S N T Hprint.
  intros [Hnd Hok]. destruct (text_read to_Index J printable (from_Index index) index_blind) as (j & Hj & Hr).
  { apply Hprint. eapply Forall_impl; [exact Hok|]. by intros e [_ He]. }
  exists j. split; [done|]. rewrite Hr. apply index_read_back. eapply Forall_impl; [exact Hok|]. by intros e [He _].
Qed.

(** The index after a context was noticed and the index pruned. *)
Definition pruned_index (max : nat) (id : string) (now : Date) index : list IndexEntry := (Prune max (Notice id now index)).1.

Lemma pruned_ok max s now index :
  index_ok index → 0 ≤ now < 2 ^ 63 → index_ok (pruned_index max (PersistenceEncodeKey s) now index).
Proof.
  intros [Hnd Hok] Hnow. unfold pruned_index. set (id := PersistenceEncodeKey s).
  pose proof (Prune_spec max (Notice id now index)) as Hp.
  destruct (Prune max (Notice id now index)) as [kept removed]. destruct Hp as (_ & rest & Hp & _). simpl. split.
  - pose proof (Notice_ids id now index Hnd) as Hn. rewrite <- Hp, fmap_app in Hn. by apply NoDup_app in Hn as [? _].
  - apply Forall_forall. intros e He.
    assert (e ∈ Notice id now index) as Hn by (rewrite <- Hp; apply elem_of_app; by left).
    apply Notice_in in Hn as [->|[Hin _]]; [| |done].
    + split; [exact Hnow|by exists s].
    + rewrite Forall_forall in Hok. by apply Hok.
Qed.

Lemma write_cache_spec ns s now max flags index (p : P) :
  index_ok index → 0 ≤ now < 2 ^ 63 →
  let id := PersistenceEncodeKey s in
  let p' := write_cache ns id now max flags index p in
  p_Read ns id p' = Some (serialize (from_Results (iterate flags))) ∧
  GetIndex ns p' = Some (ms_entry <$> pruned_index max id now index) ∧
  ∀ k, is_Some (p_Read ns k p') → k = index_key_ ∨ k = id ∨
    (k ∉ (Prune max (Notice id now index)).2 ∧ is_Some (p_Read ns k p)).
Proof using S N T L Hprint.
  intros Hi Hnow id p'. pose proof (pruned_ok max s now index Hi Hnow) as Hpr. fold id in Hpr.
  unfold p', write_cache, pruned_index in *. destruct (Prune max (Notice id now index)) as [kept removed]. simpl in *.
  assert (index_key_ ≠ id) as Hne by (symmetry; apply encoded_not_index). split_and!.
  - by rewrite read_set, decide_True.
  - unfold GetIndex. rewrite read_set, decide_False, read_set, decide_True by congruence.
    destruct (index_text kept Hpr) as (j & -> & Hj). done.
  - intros k. rewrite !read_set, removed_read. destruct (decide ((ns, k) = (ns, id))) as [[= ->]|]; [by auto|].
    destruct (decide ((ns, k) = (ns, index_key_))) as [[= ->]|]; [by auto|].
    destruct (decide (k ∈ removed)); [by intros []|]. auto.
Qed.

Lemma ms_index_ids index : ie_id <$> (ms_entry <$> index) = ie_id <$> index.
Proof. rewrite <- list_fmap_compose. done. Qed.

Lemma ms_index_ok index : index_ok index → index_ok (ms_entry <$> index).
Proof.
  intros [Hnd Hok]. split; [by rewrite ms_index_ids|]. apply Forall_fmap. eapply Forall_impl; [exact Hok|].
  intros e [[Hlo Hhi] Hs]. split; [|done]. unfold entry_ok. simpl. unfold ms_date.
  assert (1000000 * Z.quot (ie_timestamp e) 1000000 ≤ ie_timestamp e) by (apply Z.mul_quot_le; lia).
  assert (0 ≤ Z.quot (ie_timestamp e) 1000000) by (apply Z.quot_pos; lia). lia.
Qed.

(** Entries of contexts that were not removed stay in the index. *)
Lemma pruned_ids max id now index k :
  NoDup (ie_id <$> index) → k ∈ ie_id <$> index → k ∉ (Prune max (Notice id now index)).2 →
  k ∈ ie_id <$> pruned_index max id now index.
Proof.
  intros Hnd (e & -> & He)%list_elem_of_fmap Hk. unfold pruned_index.
  assert (ie_id e ∈ ie_id <$> Notice id now index) as Hin.
  { destruct (decide (ie_id e = id)) as [->|Hne].
    - apply list_elem_of_fmap. exists (mkEntry id now). split; [done|]. apply Notice_in; [done|]. by left.
    - apply list_elem_of_fmap_2, Notice_in; [done|]. by right. }
  pose proof (Prune_spec max (Notice id now index)) as Hp.
  destruct (Prune max (Notice id now index)) as [kept removed]. destruct Hp as (_ & rest & Hp & ->). simpl in *.
  rewrite <- Hp, fmap_app in Hin. by apply elem_of_app in Hin as [|].
Qed.

Lemma newest_kept max id now index :
  (1 ≤ max)%nat → NoDup (ie_id <$> index) → Forall (λ e, ie_timestamp e < now) index →
  id ∈ ie_id <$> pruned_index max id now index.
Proof.
  intros Hmax Hnd Hlate. apply list_elem_of_fmap. exists (mkEntry id now). split; [done|]. apply Prune_keeps; [done|..].
  - apply Notice_in; [done|]. by left.
  - by apply Notice_ids.
  - intros x Hx. apply Notice_in in Hx as [->|[Hx _]]; [by left| |done]. right.
    rewrite Forall_forall in Hlate. by apply Hlate.
Qed.

Lemma write_cache_ok ns s now max flags index (p : P) :
  index_ok index → (∀ k, is_Some (p_Read ns k p) → k = index_key_ ∨ k ∈ ie_id <$> index) →
  (1 ≤ max)%nat → 0 ≤ now < 2 ^ 63 → Forall (λ e, ie_timestamp e < now) index →
  let id := PersistenceEncodeKey s in
  let p' := write_cache ns id now max flags index p in
  CacheOk ns max p' ∧ ∀ index', GetIndex ns p' = Some index' → id ∈ ie_id <$> index'.
Proof using S N T L Hprint.
  intros Hi Hkeys Hmax Hnow Hlate id p'.
  destruct (write_cache_spec ns s now max flags index p Hi Hnow) as (_ & Hget & Hkeys').
  fold id in Hget, Hkeys'. fold p' in Hget, Hkeys'.
  pose proof (newest_kept max id now index Hmax (proj1 Hi) Hlate) as Hid. split.
  - eexists. split_and!; [exact Hget|by apply ms_index_ok, pruned_ok| |].
    + rewrite length_fmap. pose proof (Prune_spec max (Notice id now index)) as Hp. unfold pruned_index.
      destruct (Prune max (Notice id now index)). by destruct Hp.
    + intros k Hk. rewrite ms_index_ids. destruct (Hkeys' k Hk) as [->|[->|[Hn Hr]]]; [by left|by right|].
      destruct (Hkeys k Hr) as [->|Hin]; [by left|]. right. apply pruned_ids; [apply Hi|done|done].
  - intros index'. rewrite Hget. intros [= <-]. by rewrite ms_index_ids.
Qed.

Lemma cache_count ns max (p : P) ks :
  CacheOk ns max p → NoDup ks → Forall (λ k, k ≠ index_key_ ∧ is_Some (p_Read ns k p)) ks → (length ks ≤ max)%nat.
Proof.
  intros (index & _ & _ & Hlen & Hkeys) Hnd Hks. etransitivity; [|exact Hlen]. rewrite <- (length_fmap ie_id index).
  apply submseteq_length, NoDup_submseteq; [done|]. intros k Hk. rewrite Forall_forall in Hks.
  destruct (Hks k Hk) as [Hne Hr]. by destruct (Hkeys k Hr).
Qed.
End CacheSpec.

(** ** Theorems *)

(** C35: What is cached for a context is what a later run loads for it.  Storing succeeds
    from any well-formed cache, and then an SDK with the same environment that loads the
    cache for that context has the flags that were stored, under the same keys and with the
    same versions and values; tombstones are not kept, the variation indices are lost, and
    so are the prerequisites of results with a reason. *)
Theorem flag_cache_roundtrip `{X : Externals} `{S : BoostJsonSpec} `{N : !NumberLaws B} `{J : JsonText}
  (printable : json → Prop) `{T : !TextLaws J printable} `{!HashOrder} `{!Sha256} `{!StdSort}
  {P} `{!IPersistence P} `{L : !PersistenceLaws P}
  (f g : FlagPersistence P) (p : P) (context : Context) (now : Date) (index : list IndexEntry) :
  (∀ index, Forall (λ e, ∃ s, ie_id e = PersistenceEncodeKey s) index → printable (from_Index index)) →
  persistence_ f = Some p → GetIndex (environment_namespace_ f) p = Some index → index_ok index → 0 ≤ now < 2 ^ 63 →
  Context_Valid context = true → flags_ok printable (flag_store_ (cache_sink_ f)) →
  ∃ f', StoreCache (PersistenceEncodeKey (CanonicalKey context)) now f = Some f' ∧
    (persistence_ g = persistence_ f' → environment_namespace_ g = environment_namespace_ f →
     ∃ g', LoadCached context g = Some g' ∧ flag_store_ (cache_sink_ g') = cached (flag_store_ (cache_sink_ f))).
Proof.
  intros Hprint Hf Hidx Hi Hnow Hc Hflags. unfold StoreCache. rewrite Hf, Hidx. cbn [tbind]. eexists. split; [done|].
  intros Hg Hns. destruct (write_cache_spec printable Hprint (environment_namespace_ f) (CanonicalKey context) now
    (max_cached_contexts_ f) (flag_store_ (cache_sink_ f)) index p Hi Hnow) as (Hread & _).
  unfold LoadCached. rewrite Hg, Hns, Hc. cbn [persistence_ with_persistence negb]. unfold store_GetAll. rewrite Hread.
  destruct (flags_text printable _ Hflags) as (j & -> & ->). cbn [tbind]. eexists. split; [done|]. simpl.
  unfold updater_Init. match goal with |- context [foldl DispatchEvent ?u ?l] => destruct (dispatches_told l u) as [_ ->] end.
  done.
Qed.

(** C36: The cache is bounded and leaves nothing behind.  If the environment holds, besides
    the index, only contexts of the index, this remains so when a context is stored, as long
    as at least one context may be kept and the clock has advanced; the context stored is in
    the index; so at most [max_cached_contexts_] contexts are ever kept. *)
Theorem flag_cache_bounded `{X : Externals} `{S : BoostJsonSpec} `{N : !NumberLaws B} `{J : JsonText}
  (printable : json → Prop) `{T : !TextLaws J printable} `{!HashOrder} `{!Sha256} `{!StdSort}
  {P} `{!IPersistence P} `{L : !PersistenceLaws P}
  (f : FlagPersistence P) (p : P) (s : string) (now : Date) :
  (∀ index, Forall (λ e, ∃ s, ie_id e = PersistenceEncodeKey s) index → printable (from_Index index)) →
  persistence_ f = Some p → CacheOk (environment_namespace_ f) (max_cached_contexts_ f) p →
  (1 ≤ max_cached_contexts_ f)%nat → 0 ≤ now < 2 ^ 63 →
  (∀ index, GetIndex (environment_namespace_ f) p = Some index → Forall (λ e, ie_timestamp e < now) index) →
  ∃ f' p', StoreCache (PersistenceEncodeKey s) now f = Some f' ∧ persistence_ f' = Some p' ∧
    CacheOk (environment_namespace_ f) (max_cached_contexts_ f) p' ∧
    (∀ index, GetIndex (environment_namespace_ f) p' = Some index → PersistenceEncodeKey s ∈ ie_id <$> index) ∧
    ∀ ks, NoDup ks → Forall (λ k, k ≠ index_key_ ∧ is_Some (p_Read (environment_namespace_ f) k p')) ks →
      (length ks ≤ max_cached_contexts_ f)%nat.
Proof.
  intros Hprint Hf (index & Hidx & Hi & Hlen & Hkeys) Hmax Hnow Hlate. unfold StoreCache. rewrite Hf, Hidx. cbn [tbind].
  destruct (write_cache_ok printable Hprint (environment_namespace_ f) s now (max_cached_contexts_ f)
    (flag_store_ (cache_sink_ f)) index p Hi Hkeys Hmax Hnow (Hlate index Hidx)) as [Hok Hin].
  eexists _, _. split_and!; [done|done|exact Hok|exact Hin|]. intros ks. by apply cache_count.
Qed.

(** ** Instances, and examples *)

#[export] Instance map_persistence : IPersistence (gmap (string * string) string) := {|
  p_Set ns k v p := <[(ns, k) := v]> p;
  p_Remove ns k p := delete (ns, k) p;
  p_Read ns k p := p !! (ns, k);
|}.

#[export] Instance map_persistence_laws : PersistenceLaws (gmap (string * string) string).
Proof.
  split; intros; simpl; case_decide as E.
  - rewrite E. apply lookup_insert_eq.
  - apply lookup_insert_ne. congruence.
  - rewrite E. apply lookup_delete_eq.
  - apply lookup_delete_ne. congruence.
Qed.

(** 32 octets, though not a hash. *)
Definition first_octets (s : string) : list ascii := take 32 (chars s ++ replicate 32 zero).

Lemma first_octets_length s : length (first_octets s) = 32%nat.
Proof. unfold first_octets. rewrite length_take, length_app, length_replicate. lia. Qed.

Definition reference_sha256 : Sha256 := {| SHA256 := first_octets; SHA256_length := first_octets_length |}.

(** No element before a lesser one. *)
Definition before {A} (lt : A → A → bool) (x y : A) : Prop := lt y x = false.

#[export] Instance before_dec {A} (lt : A → A → bool) x y : Decision (before lt x y).
Proof. unfold before. apply _. Defined.

Lemma merge_sorted {A} (lt : A → A → bool) l i j x y :
  (∀ x y, lt x y = true → lt y x = false) → (∀ x y z, lt x y = false → lt y z = false → lt x z = false) →
  merge_sort (before lt) l !! i = Some x → merge_sort (before lt) l !! j = Some y → (i < j)%nat → lt y x = false.
Proof.
  intros Hasym Htrans.
  assert (Total (before lt)) by (intros a b; unfold before; destruct (lt b a) eqn:E; [right; by apply Hasym|by left]).
  assert (Transitive (before lt)) by (intros a b c H1 H2; unfold before in *; by eapply Htrans).
  pose proof (StronglySorted_merge_sort (before lt) l) as Hs. revert i j.
  induction Hs as [|a l' Hs IH Ha]; intros i j Hi Hj Hij; [done|]. destruct j as [|j]; [lia|]. destruct i as [|i].
  - injection Hi as ->. rewrite Forall_forall in Ha. apply Ha. by eapply list_elem_of_lookup_2.
  - apply (IH i j Hi Hj). lia.
Qed.

Definition reference_sort : StdSort := {|
  std_sort A lt l := merge_sort (before lt) l;
  std_sort_perm A lt l := merge_sort_Permutation (before lt) l;
  std_sort_sorted A lt l := merge_sorted lt l;
|}.

Section Example.
#[local] Existing Instance reference_boost_json.
#[local] Existing Instance reference_boost_json_spec.
#[local] Existing Instance reference_numbers.
#[local] Existing Instance reference_text.
#[local] Existing Instance reference_text_laws.
#[local] Existing Instance reference_sha256.
#[local] Existing Instance reference_sort.

Definition example_result (v : Z) (b : bool) : EvaluationResult :=
  mkResult v (Some v) true false (Some 1500000) (mkDetail (VBool b) (Some 1) (Some (Fallthrough false))) (Some ["p"]).

Definition example_flags : Results :=
  list_to_map [("a", result_descriptor (example_result 3 true)); ("b", tombstone 2)].

Definition example_cache (max : nat) : FlagPersistence (gmap (string * string) string) :=
  mkCache (mkUpdater example_flags ∅ []) (Some ∅) (MakeEnvironment global_namespace_ "sdk") max.

(** Stored and loaded again: the variation index and the prerequisites are gone. *)
Example example_cached :
  cached example_flags = {["a" := result_descriptor (mkResult 3 (Some 3) true false (Some 1000000)
                                    (mkDetail (VBool true) None (Some (Fallthrough false))) None)]}.
Proof. vm_compute. reflexivity. Qed.

Definition example_context : Context := CB_Build (CB_Kind "user" "a key" []).

Definition example_id : string := PersistenceEncodeKey (CanonicalKey example_context).

Lemma empty_cache_ok ns max : CacheOk ns max (∅ : gmap (string * string) string).
Proof.
  exists []. split_and!; [done| |simpl; lia|].
  - split; constructor.
  - intros k. simpl. rewrite lookup_empty. by intros [].
Qed.

Lemma example_flags_ok : flags_ok (λ _, True) example_flags.
Proof.
  split; [|done]. unfold example_flags. simpl.
  apply map_Forall_insert_2; [|apply map_Forall_insert_2; [done|apply map_Forall_empty]].
  simpl. repeat split; done.
Qed.

Lemma flag_cache_roundtrip_witness :
  ∃ f', StoreCache example_id 7 (example_cache 2) = Some f' ∧
    ∃ g', LoadCached example_context (mkCache new_updater (persistence_ f') (environment_namespace_ (example_cache 2)) 1) = Some g' ∧
      flag_store_ (cache_sink_ g') = cached example_flags.
Proof.
  set (f' := default (example_cache 2) (StoreCache example_id 7 (example_cache 2))).
  destruct (flag_cache_roundtrip (λ _, True) (example_cache 2)
    (mkCache new_updater (persistence_ f') (environment_namespace_ (example_cache 2)) 1) ∅ example_context 7 [])
    as (f & Hf & Hg); [done|done|done|split; constructor|lia|reflexivity|exact example_flags_ok|].
  exists f. split; [exact Hf|]. assert (f' = f) as E by (unfold f', example_id; rewrite Hf; done).
  rewrite <- E. apply Hg; [by rewrite E|done].
Defined.

Lemma flag_cache_bounded_witness :
  ∃ f' p', StoreCache (PersistenceEncodeKey "user") 7 (example_cache 2) = Some f' ∧ persistence_ f' = Some p' ∧
    CacheOk (environment_namespace_ (example_cache 2)) 2 p'.
Proof.
  destruct (flag_cache_bounded (λ _, True) (example_cache 2) ∅ "user" 7) as (f' & p' & Hs & Hp & Hok & _);
    [done|done|apply empty_cache_ok|simpl; lia|lia|intros index [= <-]; constructor|].
  exists f', p'. split_and!; [exact Hs|exact Hp|exact Hok].
Defined.

(** With no context to keep, what is written for a context is never removed: the index
    does not mention it. *)
Example unbounded_without_contexts :
  let ns := environment_namespace_ (example_cache 0) in
  match StoreCache example_id 7 (example_cache 0) with
  | Some f' =>
      match persistence_ f' with
      | Some p => GetIndex ns p = Some [] ∧ is_Some (p_Read ns example_id p)
      | None => False
      end
  | None => False
  end.
Proof. vm_compute. split; [reflexivity|by eexists]. Qed.
End Example.
