(* ===== verification/ClientSource.v ===== *)
(** * What a client-side SDK does with the messages of its data source

    libs/client-sdk/src/data_sources: data_source_event_handler.cpp (the messages of the
    service, as a stream sends them; a poll is one "put"), and the error handling and the
    shutdown of streaming_data_source.cpp and null_data_source.cpp.

    The sink is the cache of [ClientCache], over the flags of [ClientFlags]; the status
    manager is that of [StatusManager].  Reading a number throws when it does not fit: a
    handler returns [None] for an exception. *)

From S2P Require Import Prelude OrderedMap Doubles Values AttributeReferences Contexts Reasons DataModel Externals ReferenceExternals.
From S2P Require Import Stores Dependencies Notifier Operators EventData Json JsonModel Persistence Encodings.
From S2P Require Import EvaluationResults JsonNumbers ClientFlags ClientCache Fdv2 StatusManager SourceResults Fdv2Sources.
#[local] Open Scope Z_scope.

Module MessageStatus.
Inductive t := kMessageHandled | kInvalidMessage | kUnhandledVerb.
End MessageStatus.

Definition kErrorParsingPut : string := "Could not parse PUT message".
Definition kErrorPutInvalid : string := "PUT message contained invalid data".
Definition kErrorParsingPatch : string := "Could not parse PATCH message".
Definition kErrorPatchInvalid : string := "PATCH message contained invalid data".
Definition kErrorParsingDelete : string := "Could not parse DELETE message".
Definition kErrorDeleteInvalid : string := "DELETE message contained invalid data" +:+ dquote.

Record PatchData := mkPatchData { patch_key : string; patch_flag : EvaluationResult }.
Record DeleteData := mkDeleteData { delete_key : string; delete_version : Z }.

(** What a source updates: the flags with their cache, and the status. *)
Record ClientData (P : Type) := mkClientData {
  data_cache : FlagPersistence P;
  data_status : StatusManager ClientState.t;
}.
Arguments mkClientData {P} _ _.
Arguments data_cache {P} _.
Arguments data_status {P} _.

Section Handler.
Context `{X : Externals} `{B : BoostJson} `{J : JsonText} `{!HashOrder} `{!Sha256} `{!StdSort}.
Context {P : Type} `{!IPersistence P}.
Implicit Types (s : ClientData P) (now : Z).

Definition to_PatchData (json_value : json) : option (strict PatchData) :=
  match json_value with
  | JObject obj =>
      let key := ValueAsOpt_string (obj_find "key" obj) in
      let! result := to_EvaluationResult json_value in
      Some (match result, key with
            | Val (Some flag), Some key => Val (mkPatchData key flag)
            | _, _ => schema_failure
            end)
  | _ => Some schema_failure
  end.

Definition to_DeleteData (json_value : json) : option (strict DeleteData) :=
  match json_value with
  | JObject obj =>
      let key := ValueAsOpt_string (obj_find "key" obj) in
      let! version := ValueAsOpt_uint64 (obj_find "version" obj) in
      Some (match key, version with
            | Some key, Some version => Val (mkDeleteData key version)
            | _, _ => schema_failure
            end)
  | _ => Some schema_failure
  end.

Definition with_status (f : StatusManager ClientState.t → StatusManager ClientState.t) s : ClientData P :=
  mkClientData (data_cache s) (f (data_status s)).

(** [SetError(kInvalidData, message)] and [kInvalidMessage] *)
Definition invalid_message (message : string) now s : ClientData P * MessageStatus.t :=
  (with_status (SetErrorKind StatusErrorKind.kInvalidData message now) s, MessageStatus.kInvalidMessage).

Definition HandleMessage (context : Context) (type data : string) now s : option (ClientData P * MessageStatus.t) :=
  if str_eqb type "put" then
    match parse data with
    | None => Some (invalid_message kErrorParsingPut now s)
    | Some parsed =>
        let! res := to_Results parsed in
        match res with
        | Val maybe_map =>
            let! cache := cache_Init context (default ∅ maybe_map) now (data_cache s) in
            Some (mkClientData cache (SetState ClientState.kValid now (data_status s)), MessageStatus.kMessageHandled)
        | Unexpected _ => Some (invalid_message kErrorPutInvalid now s)
        end
    end
  else if str_eqb type "patch" then
    match parse data with
    | None => Some (invalid_message kErrorParsingPatch now s)
    | Some parsed =>
        let! res := to_PatchData parsed in
        match res with
        | Val patch =>
            let! cache := cache_Upsert context (patch_key patch) (result_descriptor (patch_flag patch)) now (data_cache s) in
            Some (mkClientData cache (data_status s), MessageStatus.kMessageHandled)
        | Unexpected _ => Some (invalid_message kErrorPatchInvalid now s)
        end
    end
  else if str_eqb type "delete" then
    match parse data with
    | None => Some (invalid_message kErrorParsingDelete now s)
    | Some parsed =>
        let! res := to_DeleteData parsed in
        match res with
        | Val del =>
            let! cache := cache_Upsert context (delete_key del) (tombstone (delete_version del)) now (data_cache s) in
            Some (mkClientData cache (data_status s), MessageStatus.kMessageHandled)
        | Unexpected _ => Some (invalid_message kErrorDeleteInvalid now s)
        end
    end
  else Some (s, MessageStatus.kUnhandledVerb).

(** ** The streaming source *)

(** What the stream's receiver does with an event: the status of the message is not used. *)
Definition stream_receiver (context : Context) (type data : string) now s : option (ClientData P) :=
  let! res := HandleMessage context type data now s in Some res.1.

Definition HandleErrorStateChange (error : SseError) (error_string : string) now s : ClientData P :=
  let state := if IsRecoverable error then ClientState.kInterrupted else ClientState.kShutdown in
  with_status
    (match error with
     | ReadTimeout _ | InvalidRedirectLocation _ | NotRedirectable =>
         SetStateKind state StatusErrorKind.kNetworkError error_string now
     | UnrecoverableClientError status => SetStateCode state status error_string now
     end) s.
End Handler.

(** ** Specification *)

(** What a message asks for. *)
Inductive Command :=
| Put (flags : Results)
| Update (key : string) (d : ResultDescriptor).

Section Spec.
Context `{X : Externals} `{B : BoostJson} `{J : JsonText}.

(** A reader's value, if it did not throw and is valid. *)
Definition read_as {A C} (f : A → C) (o : option (strict A)) : option C :=
  match o with Some (Val a) => Some (f a) | _ => None end.

Definition decode (message : string * string) : option Command :=
  match parse message.2 with
  | Some j =>
      if str_eqb message.1 "put" then read_as (λ m, Put (default ∅ m)) (to_Results j)
      else if str_eqb message.1 "patch" then read_as (λ d, Update (patch_key d) (result_descriptor (patch_flag d))) (to_PatchData j)
      else if str_eqb message.1 "delete" then read_as (λ d, Update (delete_key d) (tombstone (delete_version d))) (to_DeleteData j)
      else None
  | None => None
  end.

(** A reader that throws: a number does not fit its type. *)
Definition thrown {A} (o : option (strict A)) : bool := match o with None => true | Some _ => false end.

Definition reader_throws (message : string * string) : bool :=
  match parse message.2 with
  | Some j =>
      if str_eqb message.1 "put" then thrown (to_Results j)
      else if str_eqb message.1 "patch" then thrown (to_PatchData j)
      else if str_eqb message.1 "delete" then thrown (to_DeleteData j)
      else false
  | None => false
  end.

(** A new set replaces the flags; an update is taken unless a version as recent is there. *)
Definition apply (flags : Results) (c : Command) : Results :=
  match c with Put new => new | Update k d => offer flags (k, d) end.

Definition is_put (c : Command) : bool := match c with Put _ => true | Update _ _ => false end.

Definition known_verb (type : string) : bool := str_eqb type "put" || str_eqb type "patch" || str_eqb type "delete".
End Spec.

Section Refinement.
Context `{X : Externals} `{B : BoostJson} `{J : JsonText} `{!HashOrder} `{!Sha256} `{!StdSort}.
Context {P : Type} `{!IPersistence P}.
Implicit Types (s : ClientData P) (now : Z).

Abbreviation flags s := (flag_store_ (cache_sink_ (data_cache s))).
Abbreviation state s := (sm_state_ (data_status s)).

(** The cache does not touch the flags. *)
Lemma StoreCache_sink id now (f f' : FlagPersistence P) : StoreCache id now f = Some f' → cache_sink_ f' = cache_sink_ f.
Proof.
  unfold StoreCache. destruct (persistence_ f); [|by intros [= <-]]. destruct (GetIndex _ _); [|done]. by intros [= <-].
Qed.

Lemma cache_Init_flags context data now (f f' : FlagPersistence P) :
  cache_Init context data now f = Some f' → flag_store_ (cache_sink_ f') = data.
Proof.
  intros ->%StoreCache_sink. simpl. unfold updater_Init.
  match goal with |- context [foldl DispatchEvent ?u ?l] => by destruct (dispatches_told l u) as [_ ->] end.
Qed.

Lemma updater_Upsert_flags key d u : flag_store_ (updater_Upsert key d u) = offer (flag_store_ u) (key, d).
Proof.
  unfold updater_Upsert, offer, store_Get. simpl.
  assert (∀ ev, flag_store_ (DispatchEvent (store_Upsert key d u) ev) = <[key := d]> (flag_store_ u)) as Hs
    by (intros ev; apply (dispatch_told ev (store_Upsert key d u))).
  destruct (flag_store_ u !! key) as [e|]; [destruct (version d <=? version e); [done|]|];
    (destruct (HasListeners _); [|done]); destruct (item d); try destruct (item e); done || apply Hs.
Qed.

Lemma cache_Upsert_flags context key d now (f f' : FlagPersistence P) :
  cache_Upsert context key d now f = Some f' → flag_store_ (cache_sink_ f') = offer (flag_store_ (cache_sink_ f)) (key, d).
Proof. intros ->%StoreCache_sink. apply updater_Upsert_flags. Qed.

Lemma sink_SetState_state (m : StatusManager ClientState.t) st now :
  sm_state_ (SetState st now m) = effective (sm_state_ m) st.
Proof. exact (status_step_state (OpState st) now m). Qed.

(** Every outcome of a message. *)
Inductive outcome (context : Context) (message : string * string) now s : ClientData P → MessageStatus.t → Prop :=
| Handled c s' :
    decode message = Some c → flags s' = apply (flags s) c →
    data_status s' = (if is_put c then SetState ClientState.kValid now (data_status s) else data_status s) →
    outcome context message now s s' MessageStatus.kMessageHandled
| Invalid text :
    decode message = None → known_verb message.1 = true →
    outcome context message now s (with_status (SetErrorKind StatusErrorKind.kInvalidData text now) s) MessageStatus.kInvalidMessage
| Unknown : decode message = None → known_verb message.1 = false → outcome context message now s s MessageStatus.kUnhandledVerb.

Ltac decoded :=
  unfold decode, known_verb; cbn [fst snd];
  repeat match goal with
  | E : parse _ = _ |- _ => rewrite E
  | E : str_eqb _ _ = _ |- _ => rewrite E
  | E : to_Results _ = _ |- _ => rewrite E
  | E : to_PatchData _ = _ |- _ => rewrite E
  | E : to_DeleteData _ = _ |- _ => rewrite E
  end; cbn [read_as]; rewrite ?orb_true_r; done.

(** Each verb: its message is invalid, or its command is applied. *)
Lemma HandleMessage_outcome context type data now s s' st :
  HandleMessage context type data now s = Some (s', st) → outcome context (type, data) now s s' st.
Proof.
  unfold HandleMessage, invalid_message. intros Hm.
  destruct (str_eqb type "put") eqn:Ht; [|destruct (str_eqb type "patch") eqn:Ht2; [|destruct (str_eqb type "delete") eqn:Ht3]].
  4: { injection Hm as <- <-. apply Unknown; [|decoded]. unfold decode. cbn [fst snd]. destruct (parse data); [decoded|done]. }
  all: destruct (parse data) as [j|] eqn:Hp; [|injection Hm as <- <-; apply Invalid; decoded].
  - destruct (to_Results j) as [[m|e]|] eqn:Hr; simpl in Hm; [|injection Hm as <- <-; apply Invalid; decoded|done].
    destruct (cache_Init _ _ _ _) as [c|] eqn:Hc; [|done]. injection Hm as <- <-.
    apply (Handled _ _ _ _ (Put (default ∅ m))); [decoded|by apply cache_Init_flags in Hc|done].
  - destruct (to_PatchData j) as [[d|e]|] eqn:Hr; simpl in Hm; [|injection Hm as <- <-; apply Invalid; decoded|done].
    destruct (cache_Upsert _ _ _ _ _) as [c|] eqn:Hc; [|done]. injection Hm as <- <-.
    apply (Handled _ _ _ _ (Update (patch_key d) (result_descriptor (patch_flag d)))); [decoded|by apply cache_Upsert_flags in Hc|done].
  - destruct (to_DeleteData j) as [[d|e]|] eqn:Hr; simpl in Hm; [|injection Hm as <- <-; apply Invalid; decoded|done].
    destruct (cache_Upsert _ _ _ _ _) as [c|] eqn:Hc; [|done]. injection Hm as <- <-.
    apply (Handled _ _ _ _ (Update (delete_key d) (tombstone (delete_version d)))); [decoded|by apply cache_Upsert_flags in Hc|done].
Qed.

(** A stream of messages, with the times they come at. *)
Fixpoint run_messages (context : Context) (messages : list (string * string * Z)) s : option (ClientData P) :=
  match messages with
  | [] => Some s
  | (type, data, now) :: messages => let! s := stream_receiver context type data now s in run_messages context messages s
  end.

Definition commands (messages : list (string * string * Z)) : list Command := omap (λ m, decode m.1) messages.

Lemma commands_cons m messages : commands (m :: messages) = option_list (decode m.1) ++ commands messages.
Proof. unfold commands. simpl. by destruct (decode m.1). Qed.

Lemma receiver_spec context message now s s' :
  stream_receiver context message.1 message.2 now s = Some s' →
  flags s' = foldl apply (flags s) (option_list (decode message)) ∧
  state s' = (if existsb is_put (option_list (decode message)) then ClientState.kValid else state s).
Proof.
  unfold stream_receiver. destruct message as [type data]. simpl.
  destruct (HandleMessage context type data now s) as [[s1 st]|] eqn:Hm; [|done]. intros [= <-].
  apply HandleMessage_outcome in Hm as [c s' Hd Hf Hst|text Hd _|Hd _]; rewrite Hd; simpl; [|done|done].
  split; [done|]. rewrite Hst, orb_false_r. destruct (is_put c); [apply sink_SetState_state|done].
Qed.

(** The cache has an index whose reader throws. *)
Definition index_throws s : bool :=
  match persistence_ (data_cache s) with
  | Some p => match GetIndex (environment_namespace_ (data_cache s)) p with None => true | Some _ => false end
  | None => false
  end.

Lemma StoreCache_throws id now (f : FlagPersistence P) m : StoreCache id now f = None → index_throws (mkClientData f m) = true.
Proof. unfold StoreCache, index_throws. simpl. destruct (persistence_ f); [|done]. by destruct (GetIndex _ _). Qed.

Lemma receiver_throws context message now s :
  stream_receiver context message.1 message.2 now s = None →
  reader_throws message = true ∨ (decode message ≠ None ∧ index_throws s = true).
Proof.
  unfold stream_receiver, HandleMessage, reader_throws, decode. destruct (parse message.2) as [j|];
    [|by repeat destruct (str_eqb _ _)].
  destruct (str_eqb message.1 "put"); [|destruct (str_eqb message.1 "patch"); [|destruct (str_eqb message.1 "delete"); [|done]]].
  - destruct (to_Results j) as [[m|e]|]; [|done|by left]. simpl. destruct (cache_Init _ _ _ _) as [c|] eqn:Hc; [done|].
    intros _. right. split; [done|]. by apply (StoreCache_throws _ _ _ (data_status s)) in Hc.
  - destruct (to_PatchData j) as [[m|e]|]; [|done|by left]. simpl. destruct (cache_Upsert _ _ _ _ _) as [c|] eqn:Hc; [done|].
    intros _. right. split; [done|]. by apply (StoreCache_throws _ _ _ (data_status s)) in Hc.
  - destruct (to_DeleteData j) as [[m|e]|]; [|done|by left]. simpl. destruct (cache_Upsert _ _ _ _ _) as [c|] eqn:Hc; [done|].
    intros _. right. split; [done|]. by apply (StoreCache_throws _ _ _ (data_status s)) in Hc.
Qed.

Lemma receiver_reads context message now s s' :
  stream_receiver context message.1 message.2 now s = Some s' → reader_throws message = false.
Proof.
  unfold stream_receiver, HandleMessage, reader_throws. destruct (parse message.2) as [j|]; [|done].
  destruct (str_eqb message.1 "put"); [|destruct (str_eqb message.1 "patch"); [|destruct (str_eqb message.1 "delete"); [|done]]].
  - by destruct (to_Results j).
  - by destruct (to_PatchData j).
  - by destruct (to_DeleteData j).
Qed.
End Refinement.

(** ** Theorems *)

(** C34: a stream of messages is handled up to the first message that throws, and leaves the
    flags that the commands before it denote: a "put" replaces the flags, a "patch" or a
    "delete" changes one flag unless a version as recent is there, and messages whose data
    is no JSON or has the wrong shape, or whose verb is another, change nothing.  The source
    is valid if a "put" was among those handled, and its state is otherwise the one it had.
    No message handled has a number that its reader throws on (a version of -1, say); the first
    one that is not handled, if there is one, has such a number, or it is a command and there is
    a cache whose stored index makes its reader throw.  The exception leaves the handler. *)
Theorem client_stream_refines `{X : Externals} `{B : BoostJson} `{J : JsonText} `{!HashOrder} `{!Sha256} `{!StdSort}
  {P} `{!IPersistence P} (context : Context) (messages : list (string * string * Z)) (s : ClientData P) :
  ∃ handled rest s', messages = handled ++ rest ∧ run_messages context handled s = Some s' ∧
    flag_store_ (cache_sink_ (data_cache s')) = foldl apply (flag_store_ (cache_sink_ (data_cache s))) (commands handled) ∧
    sm_state_ (data_status s') =
      (if existsb is_put (commands handled) then ClientState.kValid else sm_state_ (data_status s)) ∧
    Forall (λ m, reader_throws m.1 = false) handled ∧
    match rest with
    | [] => True
    | m :: _ =>
        run_messages context messages s = None ∧
        (reader_throws m.1 = true ∨ (decode m.1 ≠ None ∧ index_throws s' = true))
    end.
Proof.
  revert s. induction messages as [|[[type data] now] messages IH]; intros s; [by exists [], [], s|].
  cbn [run_messages]. destruct (stream_receiver context type data now s) as [s1|] eqn:Hr; cbn [tbind].
  - destruct (IH s1) as (handled & rest & s' & -> & Hrun & Hf & Hst & Hall & Hrest).
    exists ((type, data, now) :: handled), rest, s'. cbn [run_messages]. rewrite Hr. cbn [tbind].
    pose proof (receiver_reads context (type, data) now s s1 Hr) as Hread.
    apply (receiver_spec context (type, data)) in Hr as [Hf1 Hst1].
    split_and!; [done|done| | |by constructor|by destruct rest]; rewrite commands_cons; cbn [fst].
    + by rewrite Hf, Hf1, foldl_app.
    + rewrite Hst, Hst1, existsb_app. by destruct (existsb is_put (commands handled)), (existsb is_put (option_list _)).
  - exists [], ((type, data, now) :: messages), s. split_and!; [done..|].
    by apply (receiver_throws context (type, data) now s).
Qed.

(** ** Examples *)

Section Example.
#[local] Existing Instance reference_boost_json.
#[local] Existing Instance reference_text.
#[local] Existing Instance reference_sha256.
#[local] Existing Instance reference_sort.

Definition example_data : ClientData (gmap (string * string) string) :=
  mkClientData (mkCache new_updater None EmptyString 5) (new_status_manager 0).

Definition example_messages : list (string * string * Z) :=
  [("put", serialize (JObject [("a", JObject [("version", JInt64 1); ("value", JBool true)])]), 5);
   ("patch", "not JSON", 6);
   ("delete", serialize (JObject [("key", JString "a"); ("version", JInt64 2)]), 7);
   ("delete", serialize (JObject [("key", JString "a")]), 8);
   ("heartbeat", EmptyString, 9)].

(** All of the messages are handled: the flag is deleted and the source is valid. *)
Lemma client_stream_refines_witness :
  ∃ s', run_messages (invalid_context EmptyString) example_messages example_data = Some s' ∧
    flag_store_ (cache_sink_ (data_cache s')) = {["a" := tombstone 2]} ∧
    sm_state_ (data_status s') = ClientState.kValid.
Proof.
  destruct (client_stream_refines (invalid_context EmptyString) example_messages example_data)
    as (handled & rest & s' & Hm & Hrun & Hf & Hst & _ & Hrest).
  destruct rest as [|m rest]; [|destruct Hrest as [Hn _]; vm_compute in Hn; discriminate].
  rewrite app_nil_r in Hm. subst handled. exists s'. split; [done|]. rewrite Hf, Hst. split; vm_compute; reflexivity.
Defined.

(** A number that does not fit its type is not an invalid message: the exception leaves
    the handler. *)
Example negative_version_throws :
  HandleMessage (invalid_context EmptyString) "delete"
    (serialize (JObject [("key", JString "a"); ("version", JInt64 (-1))])) 5 example_data = None.
Proof. vm_compute. reflexivity. Qed.
End Example.
