(* ===== verification/JsonTexts.v ===== *)
(** * The text of flags and segments

    The readers of the data model do not tell an [int64_t] from an [uint64_t] either, so
    that what a persistent store keeps, and what a stream sends, as text is read as the
    value it was written from.  This discharges the interface that [Persistence] assumes
    of the text. *)

From S2P Require Import Prelude OrderedMap Doubles Values AttributeReferences DataModel Externals.
From S2P Require Import Stores Dependencies Notifier Json JsonModel Persistence EvaluationResults JsonNumbers.
#[local] Open Scope Z_scope.

Create HintDb blind.
#[export] Hint Resolve value_blind : blind.

Section Macros.
Context {T A : Type} (to : json → parsed T) (Hto : kind_blind to).

Lemma blind_conditional o k : parse_conditional_field to (norm_object o) k = parse_conditional_field to o k.
Proof using Hto. unfold parse_conditional_field. rewrite find_norm. destruct (obj_find k o); [apply Hto|done]. Qed.

Lemma blind_default o k d : parse_field_default to (norm_object o) k d = parse_field_default to o k d.
Proof using Hto. unfold parse_field_default. by rewrite blind_conditional. Qed.

Lemma blind_required o k : parse_required_field to (norm_object o) k = parse_required_field to o k.
Proof using Hto. unfold parse_required_field. rewrite find_norm. destruct (obj_find k o); [|done]. cbn. by rewrite Hto. Qed.

Lemma items_blind a : to_items to (map norm a) = to_items to a.
Proof using Hto. induction a as [|x a IH]; [done|]. cbn [map to_items]. by rewrite Hto, IH. Qed.

Lemma vector_blind : kind_blind (to_vector to).
Proof using Hto.
  intros j. destruct j as [| | |z| | |a|]; try done; cbn [norm]; [by destruct (_ && _)|]. unfold to_vector. by rewrite items_blind.
Qed.

Lemma entries_blind o acc : to_entries to (norm_object o) acc = to_entries to o acc.
Proof using Hto.
  revert acc. induction o as [|[k v] o IH]; intros acc; [done|]. cbn [norm_object map fst snd to_entries].
  rewrite Hto. destruct (to v); [|done]. apply IH.
Qed.

Lemma map_blind : kind_blind (to_map to).
Proof using Hto.
  intros j. destruct j as [| | |z| | | |o]; try done; cbn [norm]; [by destruct (_ && _)|].
  fold (norm_object o). unfold to_map. by rewrite entries_blind.
Qed.

Lemma descriptor_blind descriptor : kind_blind (to_ItemDescriptor to descriptor).
Proof using Hto. intros j. unfold to_ItemDescriptor. by rewrite Hto. Qed.
End Macros.

Lemma object_blind {A} (k : list (string * json) → parsed A) :
  (∀ o, k (norm_object o) = k o) → kind_blind (λ j, require_object j k).
Proof. intros Hk j. destruct j as [| | |z| | | |o]; try done; cbn [norm]; [by destruct (_ && _)|apply Hk]. Qed.

Lemma required_string_blind {A} (k : string → parsed A) : kind_blind (λ j, require_string j k).
Proof. intros j. destruct j as [| | |z| | | |o]; try done; cbn [norm]. by destruct (_ && _). Qed.

#[export] Hint Resolve vector_blind map_blind descriptor_blind required_string_blind : blind.

(** Fields that are read by readers known to be blind. *)
Ltac blind_fields :=
  repeat first [ rewrite blind_default by auto with blind
               | rewrite blind_conditional by auto with blind
               | rewrite blind_required by auto with blind ].

Section Model.
Context `{N : NumberLaws}.

Lemma to_bool_blind : kind_blind to_bool.
Proof. intros j. destruct j as [| | |z| | | |o]; try done; cbn [norm]. by destruct (_ && _). Qed.

Lemma to_uint64_blind : kind_blind to_uint64.
Proof using N.
  intros j. destruct j as [| | |z| | | |o]; try done; cbn [norm]. destruct ((0 <=? z) && (z <? 2 ^ 63)) eqn:Hz; [|done].
  apply andb_true_iff in Hz as [?%Z.leb_le ?%Z.ltb_lt]. unfold to_uint64. cbn [is_number negb]. by rewrite uint64_kind.
Qed.

Lemma to_int64_blind : kind_blind to_int64.
Proof using N.
  intros j. destruct j as [| | |z| | | |o]; try done; cbn [norm]. destruct ((0 <=? z) && (z <? 2 ^ 63)) eqn:Hz; [|done].
  apply andb_true_iff in Hz as [?%Z.leb_le ?%Z.ltb_lt]. unfold to_int64. cbn [is_number negb]. by rewrite int64_kind.
Qed.

Lemma to_str_blind : kind_blind to_str.
Proof. exact (required_string_blind _). Qed.

Lemma to_ContextKind_blind : kind_blind to_ContextKind.
Proof. exact (required_string_blind _). Qed.

Lemma to_Op_blind : kind_blind to_Op.
Proof. exact (required_string_blind _). Qed.

Lemma to_RolloutKind_blind : kind_blind to_RolloutKind.
Proof. exact (required_string_blind _). Qed.

#[local] Hint Resolve to_bool_blind to_uint64_blind to_int64_blind to_str_blind to_ContextKind_blind to_Op_blind to_RolloutKind_blind : blind.

Lemma to_reference_blind ck rk o : to_ContextAwareReference ck rk (norm_object o) = to_ContextAwareReference ck rk o.
Proof. unfold to_ContextAwareReference. by blind_fields. Qed.

(** Readers of objects. *)
Ltac blind_object := apply object_blind; intros o; blind_fields; rewrite ?to_reference_blind; done.

Lemma to_Clause_blind : kind_blind to_Clause.
Proof using N. blind_object. Qed.

Lemma to_SegmentTarget_blind : kind_blind to_SegmentTarget.
Proof. blind_object. Qed.

#[local] Hint Resolve to_Clause_blind to_SegmentTarget_blind : blind.

Lemma to_SegmentRule_blind : kind_blind to_SegmentRule.
Proof using N. blind_object. Qed.

#[local] Hint Resolve to_SegmentRule_blind : blind.

Lemma to_Segment_blind : kind_blind to_Segment.
Proof using N.
  intros j. destruct j as [| | |z| | | |[|kv o]]; try done; cbn [norm]; [by destruct (_ && _)|].
  fold (norm_object (kv :: o)). unfold to_Segment. blind_fields. done.
Qed.

Lemma to_WeightedVariation_blind : kind_blind to_WeightedVariation.
Proof using N. blind_object. Qed.

#[local] Hint Resolve to_WeightedVariation_blind : blind.

Lemma to_Rollout_blind : kind_blind to_Rollout.
Proof using N. blind_object. Qed.

#[local] Hint Resolve to_Rollout_blind : blind.

Lemma to_VariationOrRollout_blind : kind_blind to_VariationOrRollout.
Proof using N. blind_object. Qed.

Lemma to_Prerequisite_blind : kind_blind to_Prerequisite.
Proof using N. blind_object. Qed.

Lemma to_Target_blind : kind_blind to_Target.
Proof using N. blind_object. Qed.

Lemma to_Availability_blind : kind_blind to_ClientSideAvailability.
Proof. blind_object. Qed.

(** A rule is read twice: its own fields, and its variation or rollout. *)
Lemma to_FlagRule_blind : kind_blind to_FlagRule.
Proof using N.
  intros j. unfold to_FlagRule. rewrite to_VariationOrRollout_blind. generalize (to_VariationOrRollout j) as v. intros v.
  revert j. apply object_blind. intros o. by blind_fields.
Qed.

#[local] Hint Resolve to_VariationOrRollout_blind to_Prerequisite_blind to_Target_blind to_Availability_blind to_FlagRule_blind : blind.

Lemma to_Flag_blind : kind_blind to_Flag.
Proof using N. blind_object. Qed.

#[local] Hint Resolve to_Flag_blind to_Segment_blind : blind.

Lemma to_SDKDataSet_blind : kind_blind to_SDKDataSet.
Proof using N. blind_object. Qed.

Lemma to_Tombstone_blind : kind_blind to_Tombstone.
Proof using N. blind_object. Qed.
End Model.

#[export] Hint Resolve to_bool_blind to_uint64_blind to_int64_blind to_str_blind to_Flag_blind to_Segment_blind : blind.
#[export] Hint Resolve to_SDKDataSet_blind to_Tombstone_blind : blind.

(** The text of what can be printed is faithful for the readers of a persistent store. *)
#[export] Instance text_laws_faithful `{N : NumberLaws} (J : JsonText) printable `{!TextLaws J printable} :
  JsonTextSpec J printable.
Proof.
  split. intros j Hj. destruct (parse_serialize j Hj) as (j' & Hp & Hn). exists j'. split; [done|].
  split_and!; [rewrite <- to_Flag_blind, <- (to_Flag_blind j)|rewrite <- to_Segment_blind, <- (to_Segment_blind j)|
    rewrite <- to_Tombstone_blind, <- (to_Tombstone_blind j)]; by rewrite Hn.
Qed.
