(* ===== verification/BackgroundSync.v ===== *)
(** * The background-sync data system of a server-side SDK

    libs/server-sdk/src/data_systems/background_sync: sources/streaming/event_handler.cpp
    and event_handler.hpp (the messages of a stream), the receiver, the error handling and
    the shutdown of streaming_data_source.cpp, and background_sync_system.cpp.

    The destination of the updates is the change notifier over the memory store; restarts
    asked of the stream client are recorded. *)

From S2P Require Import Prelude OrderedMap DataModel Externals Stores Dependencies Notifier Json JsonModel Persistence Fdv2 StatusManager SourceResults Fdv2Sources.
From S2P Require Import EvaluationResults JsonNumbers JsonTexts.
#[local] Open Scope Z_scope.

(** ** Paths *)

Definition flags_path : string := "/flags/".
Definition segments_path : string := "/segments/".

Definition starts_with (pat s : list ascii) : bool := bool_decide (take (length pat) s = pat).

(** [std::string::rfind]: the last occurrence. *)
Fixpoint rfind (pat s : list ascii) : option nat :=
  match s with
  | [] => if starts_with pat [] then Some 0%nat else None
  | _ :: s' =>
      match rfind pat s' with
      | Some i => Some (S i)
      | None => if starts_with pat s then Some 0%nat else None
      end
  end.

(** [StreamingDataKind<kind, TPath>], for the path of the kind. *)
Definition IsKind (kind_path patch_path : string) : bool :=
  bool_decide (rfind (chars kind_path) (chars patch_path) = Some 0%nat).
Definition KindKey (kind_path patch_path : string) : string :=
  of_chars (drop (length (chars kind_path)) (chars patch_path)).

(** [StreamingDataKinds] *)
Definition KindOf (path : string) : option DataKind.t :=
  if IsKind flags_path path then Some DataKind.kFlag
  else if IsKind segments_path path then Some DataKind.kSegment
  else None.

Definition KeyOf (path : string) : option string :=
  if IsKind flags_path path then Some (KindKey flags_path path)
  else if IsKind segments_path path then Some (KindKey segments_path path)
  else None.

(** ** Messages *)

Module EventStatus.
Inductive t := kMessageHandled | kInvalidMessage | kUnhandledVerb.
#[global] Instance eq_dec : EqDecision t.
Proof. solve_decision. Defined.
End EventStatus.

Definition kParsingPut : string := "Could not parse PUT message".
Definition kPutInvalid : string := "PUT message contained invalid data".
Definition kParsingPatch : string := "Could not parse PATCH message".
Definition kPatchInvalid : string := "PATCH message contained invalid data".
Definition kParsingDelete : string := "Could not parse DELETE message".
Definition kDeleteInvalid : string := "DELETE message contained invalid data" +:+ String "034"%char EmptyString.

Record Patch := mkPatch { sp_key : string; sp_data : FlagDescriptor + SegmentDescriptor }.
Record Delete := mkDelete { sd_key : string; sd_kind : DataKind.t; sd_version : Z }.

(** What the source updates: the destination and the status, and the restarts it asked for. *)
Record SyncState (D : Type) := mkSync {
  sy_handler : D;
  sy_status : StatusManager ServerState.t;
  sy_restarts : list string;
}.
Arguments mkSync {D} _ _ _.
Arguments sy_handler {D} _.
Arguments sy_status {D} _.
Arguments sy_restarts {D} _.

Definition empty_data_set : SDKDataSet := mkDataSet ∅ ∅.

Section EventHandler.
Context `{B : BoostJson} `{J : JsonText} {D : Type} `{!Destination D}.
Implicit Types (s : SyncState D) (now : Z).

(** [Patch<TStreamingDataKind, TData>] *)
Definition PatchOf {T} (to : json → parsed T) (variant : T → FlagDescriptor + SegmentDescriptor)
    (kind_path path : string) (obj : list (string * json)) : expected Patch JsonError.t :=
  match obj_find "data" obj with
  | None => schema_failure
  | Some data =>
      match to data with
      | Val (Some data) => Val (mkPatch (KindKey kind_path path) (variant data))
      | _ => schema_failure
      end
  end.

Definition to_Put (json_value : json) : parsed SDKDataSet :=
  match json_value with
  | JObject obj =>
      let? path := parse_field_default to_str obj "path" EmptyString in
      if negb (str_eqb path "/" || is_empty path) then Val None
      else let? data := parse_field_default to_SDKDataSet obj "data" empty_data_set in Val (Some data)
  | _ => schema_failure
  end.

Definition to_Patch (json_value : json) : parsed Patch :=
  match json_value with
  | JObject obj =>
      let? path := parse_field_default to_str obj "path" EmptyString in
      if IsKind flags_path path then
        let? patch := PatchOf to_Flag (λ f, inl (flag_descriptor f)) flags_path path obj in Val (Some patch)
      else if IsKind segments_path path then
        let? patch := PatchOf to_Segment (λ g, inr (segment_descriptor g)) segments_path path obj in Val (Some patch)
      else Val None
  | _ => schema_failure
  end.

Definition to_Delete (json_value : json) : expected Delete JsonError.t :=
  match json_value with
  | JObject obj =>
      let? version := parse_required_field to_uint64 obj "version" in
      let? path := parse_required_field to_str obj "path" in
      match KindOf path, KeyOf path with
      | Some kind, Some key => Val (mkDelete key kind version)
      | _, _ => schema_failure
      end
  | _ => schema_failure
  end.

Definition sync_status (f : StatusManager ServerState.t → StatusManager ServerState.t) s : SyncState D :=
  mkSync (sy_handler s) (f (sy_status s)) (sy_restarts s).
Definition sync_handler (f : D → D) s : SyncState D := mkSync (f (sy_handler s)) (sy_status s) (sy_restarts s).

(** [SetError(kInvalidData, message)] and [kInvalidMessage] *)
Definition invalid_event (message : string) now s : SyncState D * EventStatus.t :=
  (sync_status (SetErrorKind StatusErrorKind.kInvalidData message now) s, EventStatus.kInvalidMessage).

Definition HandleMessage (type data : string) now s : SyncState D * EventStatus.t :=
  if str_eqb type "put" then
    match parse data with
    | None => invalid_event kParsingPut now s
    | Some parsed =>
        match to_Put parsed with
        | Unexpected _ => invalid_event kPutInvalid now s
        | Val (Some put) =>
            (sync_status (SetState ServerState.kValid now) (sync_handler (dest_Init put) s), EventStatus.kMessageHandled)
        | Val None => (s, EventStatus.kMessageHandled)
        end
    end
  else if str_eqb type "patch" then
    match parse data with
    | None => invalid_event kParsingPatch now s
    | Some parsed =>
        match to_Patch parsed with
        | Unexpected _ => invalid_event kPatchInvalid now s
        | Val (Some patch) =>
            (sync_handler (match sp_data patch with
                           | inl flag => dest_UpsertFlag (sp_key patch) flag
                           | inr segment => dest_UpsertSegment (sp_key patch) segment
                           end) s, EventStatus.kMessageHandled)
        | Val None => (s, EventStatus.kMessageHandled)
        end
    end
  else if str_eqb type "delete" then
    match parse data with
    | None => invalid_event kParsingDelete now s
    | Some parsed =>
        match to_Delete parsed with
        | Val del =>
            (sync_handler (match sd_kind del with
                           | DataKind.kFlag => dest_UpsertFlag (sd_key del) (tombstone (sd_version del))
                           | DataKind.kSegment => dest_UpsertSegment (sd_key del) (tombstone (sd_version del))
                           end) s, EventStatus.kMessageHandled)
        | Unexpected _ => invalid_event kDeleteInvalid now s
        end
    end
  else (s, EventStatus.kUnhandledVerb).

(** ** The streaming source *)

(** The receiver: an invalid message restarts the connection. *)
Definition sync_receiver (type data : string) now s : SyncState D :=
  let '(s, status) := HandleMessage type data now s in
  if bool_decide (status = EventStatus.kInvalidMessage)
  then mkSync (sy_handler s) (sy_status s) (sy_restarts s ++ ["invalid data in stream"])
  else s.

Definition sync_error (error : SseError) (error_string : string) now s : SyncState D :=
  let state := if IsRecoverable error then ServerState.kInterrupted else ServerState.kOff in
  sync_status
    (match error with
     | ReadTimeout _ | InvalidRedirectLocation _ | NotRedirectable =>
         SetStateKind state StatusErrorKind.kNetworkError error_string now
     | UnrecoverableClientError status => SetStateCode state status error_string now
     end) s.
End EventHandler.

(** ** [BackgroundSync] *)

(** The change notifier is the destination of the synchronizer. *)
#[export] Instance notifier_destination `{!HashOrder} {D} `{!IStore D} `{!Destination D} : Destination (ChangeNotifier D) := {|
  dest_Init := Notifier.Init;
  dest_UpsertFlag := Notifier.UpsertFlag;
  dest_UpsertSegment := Notifier.UpsertSegment;
  dest_Apply := Notifier.Apply;
|}.

Section System.
Context `{!HashOrder}.
Abbreviation System := (SyncState (ChangeNotifier MemoryStore)).
Implicit Types (sys : System).

Definition new_system (now : Z) : System :=
  mkSync (mkNotifier empty_memory_store empty_tracker 0 []) (new_status_manager now) [].

Definition Initialized sys : bool := Memory.Initialized (nt_store (sy_handler sys)).
Definition GetFlag sys (key : string) : option FlagDescriptor := Memory.GetFlag (nt_store (sy_handler sys)) key.
Definition GetSegment sys (key : string) : option SegmentDescriptor := Memory.GetSegment (nt_store (sy_handler sys)) key.
Definition AllFlags sys : gmap string FlagDescriptor := Memory.AllFlags (nt_store (sy_handler sys)).
Definition AllSegments sys : gmap string SegmentDescriptor := Memory.AllSegments (nt_store (sy_handler sys)).
End System.

(** ** Specification *)

Inductive Command :=
| Put (data : SDKDataSet)
| UpdateFlag (key : string) (flag : FlagDescriptor)
| UpdateSegment (key : string) (segment : SegmentDescriptor).

Definition patch_command (p : Patch) : Command :=
  match sp_data p with inl flag => UpdateFlag (sp_key p) flag | inr segment => UpdateSegment (sp_key p) segment end.

Definition delete_command (d : Delete) : Command :=
  match sd_kind d with
  | DataKind.kFlag => UpdateFlag (sd_key d) (tombstone (sd_version d))
  | DataKind.kSegment => UpdateSegment (sd_key d) (tombstone (sd_version d))
  end.

Section Spec.
Context `{B : BoostJson} `{J : JsonText}.

(** What a message asks for, if anything; or that it cannot be read. *)
Definition decode_json (type : string) (j : json) : parsed Command :=
  if str_eqb type "put" then let? put := to_Put j in Val (Put <$> put)
  else if str_eqb type "patch" then let? patch := to_Patch j in Val (patch_command <$> patch)
  else if str_eqb type "delete" then let? del := to_Delete j in Val (Some (delete_command del))
  else Val None.

Definition known_verb (type : string) : bool := str_eqb type "put" || str_eqb type "patch" || str_eqb type "delete".

Definition decode (message : string * string) : parsed Command :=
  if known_verb message.1
  then match parse message.2 with Some j => decode_json message.1 j | None => schema_failure end
  else Val None.

Definition command_of (message : string * string) : option Command :=
  match decode message with Val c => c | Unexpected _ => None end.

Definition unreadable (message : string * string) : bool :=
  match decode message with Val _ => false | Unexpected _ => true end.

Definition run_command {D} `{!Destination D} (d : D) (c : Command) : D :=
  match c with
  | Put data => dest_Init data d
  | UpdateFlag key flag => dest_UpsertFlag key flag d
  | UpdateSegment key segment => dest_UpsertSegment key segment d
  end.

Definition is_put (c : Command) : bool := match c with Put _ => true | _ => false end.

Definition run_stream {D} `{!Destination D} (messages : list (string * string * Z)) (s : SyncState D) : SyncState D :=
  foldl (λ s m, sync_receiver m.1.1 m.1.2 m.2 s) s messages.

Definition commands (messages : list (string * string * Z)) : list Command := omap (λ m, command_of m.1) messages.
End Spec.

(** The flags and segments that commands leave. *)
Definition apply (st : gmap string FlagDescriptor * gmap string SegmentDescriptor) (c : Command) :
    gmap string FlagDescriptor * gmap string SegmentDescriptor :=
  match c with
  | Put data => (ds_flags data, ds_segments data)
  | UpdateFlag key flag => (offer st.1 (key, flag), st.2)
  | UpdateSegment key segment => (st.1, offer st.2 (key, segment))
  end.

(** ** Lemmas *)

Section Receiver.
Context `{B : BoostJson} `{J : JsonText} {D : Type} `{!Destination D}.
Implicit Types (s : SyncState D).

Lemma command_receiver_spec type data now s :
  let s' := sync_receiver type data now s in
  sy_handler s' = foldl run_command (sy_handler s) (option_list (command_of (type, data))) ∧
  sm_state_ (sy_status s') =
    (if existsb is_put (option_list (command_of (type, data))) then ServerState.kValid else sm_state_ (sy_status s)) ∧
  sy_restarts s' = sy_restarts s ++ (if unreadable (type, data) then ["invalid data in stream"] else []).
Proof.
  unfold sync_receiver, HandleMessage, command_of, unreadable, decode, decode_json, known_verb. cbn [fst snd].
  destruct (str_eqb type "put") eqn:Ht; [|destruct (str_eqb type "patch") eqn:Ht2; [|destruct (str_eqb type "delete") eqn:Ht3]];
    cbn [orb]; try (destruct (parse data) as [j|]; [|done]).
  - destruct (to_Put j) as [[put|]|e]; cbn [ebind fmap option_fmap option_map]; [|by rewrite app_nil_r|done].
    cbn. rewrite app_nil_r. split_and!; [done| |done]. exact (status_step_state (OpState ServerState.kValid) now (sy_status s)).
  - destruct (to_Patch j) as [[patch|]|e]; cbn [ebind fmap option_fmap option_map]; [|by rewrite app_nil_r|done].
    unfold patch_command. cbn. rewrite app_nil_r. by destruct (sp_data patch).
  - destruct (to_Delete j) as [del|e]; cbn [ebind fmap option_fmap option_map]; [|done].
    unfold delete_command. cbn. rewrite app_nil_r. by destruct (sd_kind del).
  - cbn. by rewrite app_nil_r.
Qed.
End Receiver.

Section Store.
Context `{!HashOrder}.
Implicit Types (st : ChangeNotifier MemoryStore).

Abbreviation contents st := (flags_ (nt_store st), segments_ (nt_store st)).

Lemma notify_store changes st : nt_store (NotifyChanges changes st) = nt_store st.
Proof. unfold NotifyChanges. by destruct (bool_decide _). Qed.

Lemma init_contents data st : contents (Notifier.Init data st) = (ds_flags data, ds_segments data) ∧
  initialized_ (nt_store (Notifier.Init data st)) = true.
Proof.
  unfold Notifier.Init. destruct (HasListeners st); rewrite ?notify_store; cbn [nt_store dest_Init memory_destination Memory.Init];
    unfold Memory.Init; cbn; by rewrite !map_fold_emplace.
Qed.

Lemma upsert_segments key d st :
  segments_ (nt_store (Notifier.UpsertSegment key d st)) = offer (segments_ (nt_store st)) (key, d).
Proof.
  unfold Notifier.UpsertSegment, UpsertCommon, offer. simpl. unfold Memory.GetSegment.
  destruct (segments_ (nt_store st) !! key) as [e|]; [destruct (version d <=? version e); [done|]|]; simpl;
    destruct (HasListeners _); by rewrite ?notify_store.
Qed.

Lemma upsert_other st :
  (∀ key d, segments_ (nt_store (Notifier.UpsertFlag key d st)) = segments_ (nt_store st) ∧
     initialized_ (nt_store (Notifier.UpsertFlag key d st)) = initialized_ (nt_store st)) ∧
  (∀ key d, flags_ (nt_store (Notifier.UpsertSegment key d st)) = flags_ (nt_store st) ∧
     initialized_ (nt_store (Notifier.UpsertSegment key d st)) = initialized_ (nt_store st)).
Proof.
  split; intros key d; unfold Notifier.UpsertFlag, Notifier.UpsertSegment, UpsertCommon; simpl;
    destruct (match _ with Some _ => _ | None => _ end); try done; destruct (HasListeners _); by rewrite ?notify_store.
Qed.

Lemma command_contents st c :
  contents (run_command st c) = apply (contents st) c ∧
  initialized_ (nt_store (run_command st c)) = is_put c || initialized_ (nt_store st).
Proof.
  destruct c as [data|key d|key d]; cbn [run_command apply is_put orb fst snd dest_Init dest_UpsertFlag dest_UpsertSegment notifier_destination].
  - apply init_contents.
  - destruct (upsert_other st) as [Ho _]. destruct (Ho key d) as [-> ->]. by rewrite UpsertFlag_flags.
  - destruct (upsert_other st) as [_ Ho]. destruct (Ho key d) as [-> ->]. by rewrite upsert_segments.
Qed.

Lemma commands_contents l st :
  contents (foldl run_command st l) = foldl apply (contents st) l ∧
  initialized_ (nt_store (foldl run_command st l)) = existsb is_put l || initialized_ (nt_store st).
Proof.
  revert st. induction l as [|c l IH]; intros st; [done|]. cbn [foldl existsb].
  destruct (IH (run_command st c)) as [-> ->]. destruct (command_contents st c) as [-> ->]. split; [done|].
  by destruct (is_put c), (existsb is_put l).
Qed.
End Store.

(** ** Paths of items *)

Abbreviation slashes l := (length (filter (λ c, c = "/"%char) l)).

Lemma slashes_app l k : slashes (l ++ k) = (slashes l + slashes k)%nat.
Proof. by rewrite filter_app, length_app. Qed.

Lemma slashes_none l : "/"%char ∉ l → slashes l = 0%nat.
Proof.
  induction l as [|c l IH]; [done|]. intros [Hc Hl]%not_elem_of_cons. rewrite filter_cons_False by congruence. by apply IH.
Qed.

(** A pattern does not occur where there are fewer slashes than in it. *)
Lemma rfind_slashes pat l : (slashes l < slashes pat)%nat → rfind pat l = None.
Proof.
  assert (∀ l, (slashes l < slashes pat)%nat → starts_with pat l = false) as Hno.
  { intros k Hk. unfold starts_with. apply bool_decide_eq_false_2. intros E.
    rewrite <- (take_drop (length pat) k), slashes_app, E in Hk. lia. }
  induction l as [|c l IH]; intros Hl; cbn [rfind]; [by rewrite Hno|].
  rewrite IH; [by rewrite Hno|]. rewrite filter_cons in Hl. case_decide; simpl in *; lia.
Qed.

Lemma rfind_head pat l : rfind pat l = Some 0%nat → starts_with pat l = true.
Proof. destruct l as [|c l]; cbn [rfind]; [|destruct (rfind pat l); [done|]]; by destruct (starts_with pat _). Qed.

(** The path of a key without slashes is of its kind, and the key is read from it. *)
Lemma kind_of_path (tail : string) key :
  slashes (chars tail) = 1%nat → "/"%char ∉ chars key → IsKind (String "/" tail) (String "/" tail +:+ key) = true.
Proof.
  intros Ht Hk. unfold IsKind. apply bool_decide_eq_true_2. rewrite chars_app. cbn [chars String.list_ascii_of_string app rfind].
  fold (chars tail). rewrite rfind_slashes.
  - unfold starts_with. rewrite bool_decide_eq_true_2; [done|].
    change ("/"%char :: chars tail ++ chars key) with (("/"%char :: chars tail) ++ chars key). apply take_app_length.
  - rewrite slashes_app, Ht, slashes_none by done. rewrite filter_cons_True by done. simpl. rewrite Ht. lia.
Qed.

Lemma key_of_path kind_path key : KindKey kind_path (kind_path +:+ key) = key.
Proof. unfold KindKey. by rewrite chars_app, drop_app_length, of_chars_chars. Qed.

(** ** The messages of the service *)

Definition item_json {T} (from : T → json) (d : ItemDescriptor T) : json :=
  match item d with Some i => from i | None => JNull end.

Definition items_json {T} (from : T → json) (m : gmap string (ItemDescriptor T)) : json :=
  JObject ((λ kd, (kd.1, item_json from kd.2)) <$> map_to_list m).

(** A "patch", or a "delete" for a tombstone. *)
Definition update_json {T} (from : T → json) (kind_path key : string) (d : ItemDescriptor T) : string * json :=
  match item d with
  | Some i => ("patch", JObject [("path", JString (kind_path +:+ key)); ("data", from i)])
  | None => ("delete", JObject [("path", JString (kind_path +:+ key)); ("version", JUint64 (version d))])
  end.

Definition command_json (c : Command) : string * json :=
  match c with
  | Put data =>
      ("put", JObject [("path", JString "/");
                       ("data", JObject [("flags", items_json from_Flag (ds_flags data));
                                         ("segments", items_json from_Segment (ds_segments data))])])
  | UpdateFlag key flag => update_json from_Flag flags_path key flag
  | UpdateSegment key segment => update_json from_Segment segments_path key segment
  end.

Definition message_of `{JsonText} (c : Command) : string * string := ((command_json c).1, serialize (command_json c).2).

Definition stored_command (c : Command) : Command :=
  match c with
  | Put data => Put (mkDataSet (stored_descriptor stored_flag <$> ds_flags data) (stored_descriptor stored_segment <$> ds_segments data))
  | UpdateFlag key flag => UpdateFlag key (stored_descriptor stored_flag flag)
  | UpdateSegment key segment => UpdateSegment key (stored_descriptor stored_segment segment)
  end.

(** What a service sends: items that can be stored, under keys without slashes; a full set
    without tombstones. *)
Definition live {T} `{Item T} (ok : T → Prop) (d : ItemDescriptor T) : Prop := is_Some (item d) ∧ descriptor_ok ok d.

Definition command_ok `{BoostJson} (c : Command) : Prop :=
  match c with
  | Put data => map_Forall (λ _ d, live flag_ok d) (ds_flags data) ∧ map_Forall (λ _ d, live segment_ok d) (ds_segments data)
  | UpdateFlag key flag => "/"%char ∉ chars key ∧ descriptor_ok flag_ok flag ∧ uint64_ok (version flag)
  | UpdateSegment key segment => "/"%char ∉ chars key ∧ descriptor_ok segment_ok segment ∧ uint64_ok (version segment)
  end.

Section Messages.
Context `{S : BoostJsonSpec} `{N : !NumberLaws B}.

Lemma entries_written {T V} (to : json → parsed V) (from : T → json) (g : T → V) l acc :
  NoDup l.*1 → (∀ k, k ∈ l.*1 → acc !! k = None) → Forall (λ kx, to (from kx.2) = Val (Some (g kx.2))) l →
  to_entries to ((λ kx, (kx.1, from kx.2)) <$> l) acc = Val (list_to_map ((λ kx, (kx.1, g kx.2)) <$> l) ∪ acc).
Proof.
  revert acc. induction l as [|[k x] l IH]; intros acc Hnd Hacc Hok.
  { simpl. by rewrite (left_id_L ∅ (∪)). }
  rewrite fmap_cons in Hnd. apply NoDup_cons in Hnd as [Hk Hnd]. apply Forall_cons_1 in Hok as [Hx Hok].
  rewrite !fmap_cons. cbn [to_entries fst snd] in *. rewrite Hx. cbn [ebind]. rewrite Hacc by (simpl; set_solver).
  rewrite IH; [|done| |done].
  - f_equal. rewrite list_to_map_cons. cbn [fst snd]. rewrite <- insert_union_r; [by rewrite insert_union_l|].
    apply not_elem_of_list_to_map_1. rewrite <- list_fmap_compose. exact Hk.
  - intros j Hj. rewrite lookup_insert_ne; [apply Hacc; simpl; set_solver|]. by intros <-.
Qed.

(** Items of a full set. *)
Lemma items_read {T} (to : json → parsed T) (descriptor : T → ItemDescriptor T) (from : T → json) (stored : T → T) m :
  map_Forall (λ _ d, to_ItemDescriptor to descriptor (item_json from d) = Val (Some (stored_descriptor stored d))) m →
  to_map (to_ItemDescriptor to descriptor) (items_json from m) = Val (Some (stored_descriptor stored <$> m)).
Proof.
  intros Hok. unfold to_map, items_json. rewrite (entries_written _ (item_json from) (stored_descriptor stored)).
  - cbn [ebind]. rewrite (right_id_L ∅ (∪)). do 2 f_equal. rewrite <- (list_to_map_to_list (stored_descriptor stored <$> m)).
    f_equal. rewrite map_to_list_fmap. apply list_fmap_ext. by intros ? [].
  - apply NoDup_fst_map_to_list.
  - intros. apply lookup_empty.
  - apply Forall_forall. intros [k d] Hin%elem_of_map_to_list. by apply (Hok k d).
Qed.

Lemma flag_item_read d : live flag_ok d → to_ItemDescriptor to_Flag flag_descriptor (item_json from_Flag d) = Val (Some (stored_descriptor stored_flag d)).
Proof using S.
  intros [[f Hf] Hok]. unfold descriptor_ok in Hok. unfold to_ItemDescriptor, item_json, stored_descriptor. rewrite Hf in *.
  destruct Hok as [Hv Hok]. rewrite flag_stored by done. cbn. by rewrite Hv.
Qed.

Lemma segment_item_read d : live segment_ok d → to_ItemDescriptor to_Segment segment_descriptor (item_json from_Segment d) = Val (Some (stored_descriptor stored_segment d)).
Proof using S.
  intros [[g Hg] Hok]. unfold descriptor_ok in Hok. unfold to_ItemDescriptor, item_json, stored_descriptor. rewrite Hg in *.
  destruct Hok as [Hv Hok]. rewrite segment_stored by done. cbn. by rewrite Hv.
Qed.
(** A reader of objects only. *)
Lemma plain_object_blind {A} (f : json → expected A JsonError.t) :
  (∀ j, match j with JObject _ => True | _ => f j = schema_failure end) → (∀ o, f (JObject (norm_object o)) = f (JObject o)) → kind_blind f.
Proof.
  intros Hf Ho j. destruct j as [| | |z| | |a|o]; try done; cbn [norm].
  - destruct (_ && _); [|done]. by rewrite (Hf (JInt64 z)), (Hf (JUint64 z)).
  - by rewrite (Hf (JArray a)), (Hf (JArray (map norm a))).
  - apply Ho.
Qed.

Lemma to_Put_blind : kind_blind to_Put.
Proof using N. apply plain_object_blind; [by intros []|]. intros o. cbn [to_Put]. by blind_fields. Qed.

Lemma PatchOf_blind {T} (to : json → parsed T) variant kp path o :
  kind_blind to → PatchOf to variant kp path (norm_object o) = PatchOf to variant kp path o.
Proof. intros Hto. unfold PatchOf. rewrite find_norm. destruct (obj_find "data" o); [|done]. cbn. by rewrite Hto. Qed.

Lemma to_Patch_blind : kind_blind to_Patch.
Proof using N.
  apply plain_object_blind; [by intros []|]. intros o. cbn [to_Patch]. blind_fields.
  destruct (parse_field_default to_str o "path" EmptyString); [|done]. cbn [ebind]. by rewrite !PatchOf_blind by auto with blind.
Qed.

Lemma to_Delete_blind : kind_blind to_Delete.
Proof using N. apply plain_object_blind; [by intros []|]. intros o. cbn [to_Delete]. by blind_fields. Qed.

Lemma decode_json_blind type : kind_blind (decode_json type).
Proof using N. intros j. unfold decode_json. by rewrite to_Put_blind, to_Patch_blind, to_Delete_blind. Qed.

Lemma flag_path_kind key : "/"%char ∉ chars key → IsKind flags_path (flags_path +:+ key) = true.
Proof. by apply (kind_of_path "flags/"). Qed.

Lemma segment_path_kind key :
  "/"%char ∉ chars key → IsKind segments_path (segments_path +:+ key) = true ∧ IsKind flags_path (segments_path +:+ key) = false.
Proof.
  intros Hk. split; [by apply (kind_of_path "segments/")|]. unfold IsKind. apply bool_decide_eq_false_2. by intros E%rfind_head.
Qed.

(** Fields of objects written out. *)
Ltac find_fields :=
  unfold parse_field_default, parse_required_field, parse_conditional_field;
  repeat match goal with
  | |- context [obj_find ?k ?o] => let r := eval vm_compute in (obj_find k o) in change (obj_find k o) with r
  end; cbv beta iota.

Lemma put_fields a b flags segments :
  to_map (to_ItemDescriptor to_Flag flag_descriptor) a = Val (Some flags) →
  to_map (to_ItemDescriptor to_Segment segment_descriptor) b = Val (Some segments) →
  to_Put (JObject [("path", JString "/"); ("data", JObject [("flags", a); ("segments", b)])]) = Val (Some (mkDataSet flags segments)).
Proof.
  intros Ha Hb. unfold to_Put. find_fields. unfold to_str. cbn [require_string].
  cbn [ebind default from_option id]. change (negb _) with false. cbv iota.
  unfold to_SDKDataSet. cbn [require_object]. find_fields. by rewrite Ha, Hb.
Qed.

Lemma patch_fields path data :
  to_Patch (JObject [("path", JString path); ("data", data)]) =
  (if IsKind flags_path path then
     match to_Flag data with Val (Some f) => Val (Some (mkPatch (KindKey flags_path path) (inl (flag_descriptor f)))) | _ => schema_failure end
   else if IsKind segments_path path then
     match to_Segment data with Val (Some g) => Val (Some (mkPatch (KindKey segments_path path) (inr (segment_descriptor g)))) | _ => schema_failure end
   else Val None).
Proof.
  unfold to_Patch. find_fields. unfold to_str. cbn [require_string ebind default from_option id]. unfold PatchOf. find_fields.
  destruct (IsKind flags_path path); [by destruct (to_Flag data) as [[]|]|].
  destruct (IsKind segments_path path); [by destruct (to_Segment data) as [[]|]|done].
Qed.

Lemma delete_fields path v :
  uint64_ok v → to_Delete (JObject [("path", JString path); ("version", JUint64 v)]) =
  match KindOf path, KeyOf path with Some kind, Some key => Val (mkDelete key kind v) | _, _ => schema_failure end.
Proof using S.
  intros Hv. unfold to_Delete. find_fields. unfold to_uint64. cbn [is_number negb]. rewrite uint64_of_uint64 by done.
  done.
Qed.

(** A command is read from the message that carries it. *)
Lemma command_read c : command_ok c → decode_json (command_json c).1 (command_json c).2 = Val (Some (stored_command c)).
Proof using S N.
  destruct c as [[flags segments]|key [v [f|]]|key [v [g|]]]; unfold command_ok, descriptor_ok; cbn [ds_flags ds_segments item version].
  - intros [Hf Hs]. change (decode_json _ _) with (let? put := to_Put (command_json (Put (mkDataSet flags segments))).2 in Val (Put <$> put)).
    unfold command_json. cbn [snd ds_flags ds_segments].
    erewrite put_fields; [done|apply items_read|apply items_read]; intros k d Hd;
      [by apply flag_item_read, (Hf k)|by apply segment_item_read, (Hs k)].
  - intros (Hk & [Hv Hok] & _). change (decode_json _ _) with
      (let? patch := to_Patch (JObject [("path", JString (flags_path +:+ key)); ("data", from_Flag f)]) in Val (patch_command <$> patch)).
    rewrite patch_fields, flag_path_kind, flag_stored, key_of_path by done. simpl in Hv. by rewrite Hv.
  - intros (Hk & _ & Hv). change (decode_json _ _) with
      (let? del := to_Delete (JObject [("path", JString (flags_path +:+ key)); ("version", JUint64 v)]) in Val (Some (delete_command del))).
    rewrite delete_fields by done. unfold KindOf, KeyOf. by rewrite flag_path_kind, key_of_path.
  - intros (Hk & [Hv Hok] & _). change (decode_json _ _) with
      (let? patch := to_Patch (JObject [("path", JString (segments_path +:+ key)); ("data", from_Segment g)]) in Val (patch_command <$> patch)).
    destruct (segment_path_kind key Hk) as [Hs Hf]. rewrite patch_fields, Hs, Hf, segment_stored, key_of_path by done.
    simpl in Hv. by rewrite Hv.
  - intros (Hk & _ & Hv). change (decode_json _ _) with
      (let? del := to_Delete (JObject [("path", JString (segments_path +:+ key)); ("version", JUint64 v)]) in Val (Some (delete_command del))).
    destruct (segment_path_kind key Hk) as [Hs Hf]. rewrite delete_fields by done. unfold KindOf, KeyOf.
    by rewrite Hs, Hf, key_of_path.
Qed.

Lemma message_read `{J : JsonText} printable `{T : !TextLaws J printable} c :
  command_ok c → printable (command_json c).2 → command_of (message_of c) = Some (stored_command c).
Proof using S N.
  intros Hok Hp. destruct (text_read _ J printable _ (decode_json_blind (command_json c).1) Hp) as (j & Hj & Hd).
  unfold command_of, decode, message_of. cbn [fst snd]. rewrite Hj, Hd, command_read by done.
  destruct c as [|key [v []]|key [v []]]; done.
Qed.
End Messages.

(** ** Theorems *)

(** C31: A data system fed by a stream holds what the messages denote.  After any messages,
    the flags and segments are those that the readable commands leave one after the other: a
    "put" replaces everything, a "patch" or a "delete" changes one item unless a version as
    recent is there; messages about other paths or with other verbs change nothing.  The
    system is initialized, and the source was made valid, when there was a "put"; and the
    connection is restarted once for every message that could not be read. *)
Theorem background_stream_refines `{B : BoostJson} `{J : JsonText} `{!HashOrder}
  (messages : list (string * string * Z)) (start : Z) :
  let s := run_stream messages (new_system start) in
  (AllFlags s, AllSegments s) = foldl apply (∅, ∅) (commands messages) ∧
  Initialized s = existsb is_put (commands messages) ∧
  sm_state_ (sy_status s) = (if existsb is_put (commands messages) then ServerState.kValid else ServerState.kInitializing) ∧
  length (sy_restarts s) = length (filter (λ m, unreadable m.1 = true) messages).
Proof.
  assert (∀ s : SyncState (ChangeNotifier MemoryStore),
    let s' := run_stream messages s in
    sy_handler s' = foldl run_command (sy_handler s) (commands messages) ∧
    sm_state_ (sy_status s') = (if existsb is_put (commands messages) then ServerState.kValid else sm_state_ (sy_status s)) ∧
    length (sy_restarts s') = (length (sy_restarts s) + length (filter (λ m, unreadable m.1 = true) messages))%nat) as Hrun.
  { induction messages as [|[[type data] now] messages IH]; intros s; [by rewrite Nat.add_0_r|].
    cbn [run_stream foldl fst snd]. fold (run_stream messages (sync_receiver type data now s)).
    destruct (IH (sync_receiver type data now s)) as (-> & -> & ->).
    destruct (command_receiver_spec type data now s) as (-> & -> & ->). unfold commands. cbn [omap list_omap fst].
    rewrite length_app, filter_cons. cbn [fst].
    split_and!; [by destruct (command_of (type, data))|..].
    - destruct (command_of (type, data)) as [c|]; simpl; [|done]. by destruct (is_put c), (existsb is_put _).
    - destruct (unreadable (type, data)); [rewrite decide_True by done|rewrite decide_False by done]; simpl; lia. }
  intros s. destruct (Hrun (new_system start)) as (Hh & Hs & Hr). fold s in Hh, Hs, Hr.
  unfold AllFlags, AllSegments, Initialized, Memory.AllFlags, Memory.AllSegments, Memory.Initialized.
  rewrite Hh, Hs, Hr. destruct (commands_contents (commands messages) (sy_handler (new_system start))) as [Hc ->].
  split_and!; [exact Hc|by rewrite orb_false_r|done|done].
Qed.

(** What a service sends is what the system comes to hold: for commands on items that
    can be stored and printed, under keys without slashes, the text of each command as a
    "put", "patch" or "delete" message is read as that command on the stored form of the
    items, so that after the stream the system holds what the commands leave, and no
    connection is restarted. *)
Theorem service_stream_delivers `{S : BoostJsonSpec} `{N : !NumberLaws B} `{J : JsonText} (printable : json → Prop)
  `{T : !TextLaws J printable} `{!HashOrder} (cs : list Command) (start : Z) :
  Forall (λ c, command_ok c ∧ printable (command_json c).2) cs →
  let s := run_stream ((λ c, (message_of c, start)) <$> cs) (new_system start) in
  (AllFlags s, AllSegments s) = foldl apply (∅, ∅) (stored_command <$> cs) ∧ sy_restarts s = [].
Proof.
  intros Hcs. assert (∀ s : SyncState (ChangeNotifier MemoryStore),
    let s' := run_stream ((λ c, (message_of c, start)) <$> cs) s in
    sy_handler s' = foldl run_command (sy_handler s) (stored_command <$> cs) ∧ sy_restarts s' = sy_restarts s) as Hrun.
  { induction Hcs as [|c cs [Hok Hp] Hcs IH]; intros s; [done|]. rewrite !fmap_cons. cbn [run_stream foldl fst snd].
    destruct (message_of c) as [type data] eqn:Hm. cbn [fst snd].
    fold (run_stream ((λ c, (message_of c, start)) <$> cs) (sync_receiver type data start s)).
    destruct (IH (sync_receiver type data start s)) as [-> ->]. destruct (command_receiver_spec type data start s) as (-> & _ & ->).
    pose proof (message_read printable c Hok Hp) as Hr. rewrite Hm in Hr. rewrite Hr. split; [done|].
    unfold command_of in Hr. unfold unreadable. destruct (decode (type, data)); [by rewrite app_nil_r|done]. }
  intros s. destruct (Hrun (new_system start)) as [Hh Hr]. fold s in Hh, Hr. split; [|exact Hr].
  unfold AllFlags, AllSegments, Memory.AllFlags, Memory.AllSegments. rewrite Hh.
  apply (commands_contents (stored_command <$> cs) (sy_handler (new_system start))).
Qed.

(** ** Examples *)

Section Example.
#[local] Existing Instance reference_boost_json.
#[local] Existing Instance reference_boost_json_spec.
#[local] Existing Instance reference_numbers.
#[local] Existing Instance reference_text.
#[local] Existing Instance reference_text_laws.

Definition example_segment : Segment := mkSegment "seg" 7 ["u"] [] [] [] [] None false None None.

Definition example_commands : list Command :=
  [Put (mkDataSet ∅ {[ "seg" := segment_descriptor example_segment ]}); UpdateFlag "gone" (tombstone 4);
   UpdateSegment "seg" (tombstone 6); UpdateSegment "seg" (tombstone 8)].

Lemma service_stream_delivers_witness :
  let s := run_stream ((λ c, (message_of c, 0)) <$> example_commands) (new_system 0) in
  (AllFlags s, AllSegments s) = ({[ "gone" := tombstone 4 ]}, {[ "seg" := tombstone 8 ]}) ∧ sy_restarts s = [].
Proof.
  destruct (service_stream_delivers (λ _, True) example_commands 0) as [Hc Hr].
  - repeat (apply Forall_cons_2; [split; [|exact I]|]); [..|apply Forall_nil_2].
    + split; [apply map_Forall_empty|]. cbn [ds_segments]. rewrite map_Forall_singleton.
      split; [by eexists|]. split; [reflexivity|].
      split_and!; [unfold uint64_ok; by_decide|by intros ? [=]|by intros ? [=]|constructor..].
    + split_and!; [by_decide|exact I|unfold uint64_ok; by_decide].
    + split_and!; [by_decide|exact I|unfold uint64_ok; by_decide].
    + split_and!; [by_decide|exact I|unfold uint64_ok; by_decide].
  - intros s. split; [|exact Hr]. etransitivity; [exact Hc|]. vm_compute. reflexivity.
Defined.

(** A slash in a key may hide an item: the path of the flag "a/flags/b" is taken for none. *)
Example hidden_key : KindOf (flags_path +:+ "a/flags/b") = None.
Proof. vm_compute. reflexivity. Qed.
End Example.
