(* ===== verification/Polling.v ===== *)
(** * Polling data sources

    libs/client-sdk/src/data_sources/polling_data_source.cpp and
    libs/server-sdk/src/data_systems/background_sync/sources/polling/polling_data_source.cpp.

    The two sources are the same but for what they do with a response.  Requests, their
    answers and the timer are outside: a step of a source is the answer of its request or
    the firing of its timer, both at a time of the clock (in nanoseconds; intervals are in
    seconds).  Building the request is not modelled, only whether it is valid. *)

From S2P Require Import Prelude OrderedMap Doubles Values AttributeReferences Contexts Reasons DataModel Externals ReferenceExternals.
From S2P Require Import Stores Dependencies Notifier Operators EventData Json JsonModel Persistence Encodings.
From S2P Require Import EvaluationResults JsonNumbers ClientFlags ClientCache Fdv2 StatusManager SourceResults Fdv2Sources.
From S2P Require Import ClientSource JsonTexts BackgroundSync.
#[local] Open Scope Z_scope.

(** ** What the sources share *)

Record Poller := mkPoller {
  po_interval : Z;
  po_valid : bool;
  po_etag_ : option string;
  po_if_none_match : option string;
  po_last_start : Z;
  po_requests : nat;
  po_timer : option Z;
}.

Definition new_poller (interval min_interval : Z) (valid : bool) : Poller :=
  mkPoller (if interval <? min_interval then min_interval else interval) valid None None 0 0 None.

Definition second : Z := 10 ^ 9.

Definition DoPoll (now : Z) (p : Poller) : Poller :=
  mkPoller (po_interval p) (po_valid p) (po_etag_ p) (po_if_none_match p) now (S (po_requests p)) (po_timer p).

(** The wait that was pending is cancelled. *)
Definition StartPollingTimer (now : Z) (p : Poller) : Poller :=
  let time_since_poll_seconds := Z.quot (now - po_last_start p) second in
  let delay := Z.max (po_interval p - time_since_poll_seconds) 0 in
  mkPoller (po_interval p) (po_valid p) (po_etag_ p) (po_if_none_match p) (po_last_start p) (po_requests p) (Some delay).

Definition cancel_timer (p : Poller) : Poller :=
  mkPoller (po_interval p) (po_valid p) (po_etag_ p) (po_if_none_match p) (po_last_start p) (po_requests p) None.

(** The answer of a request is one request less; the wait is over when the timer fires. *)
Definition answered (p : Poller) : Poller :=
  mkPoller (po_interval p) (po_valid p) (po_etag_ p) (po_if_none_match p) (po_last_start p) (pred (po_requests p)) (po_timer p).

Definition timer_fired (now : Z) (p : Poller) : Poller := DoPoll now (cancel_timer p).

(** Whether the response has the ETag of the last one. *)
Definition same_etag (res : HttpResponse) (p : Poller) : bool :=
  match po_etag_ p, find_header "etag" (res_Headers res) with
  | Some etag, Some header_etag => str_eqb etag header_etag
  | _, _ => false
  end.

(** A new ETag is kept, and sent with the next requests. *)
Definition note_etag (res : HttpResponse) (p : Poller) : Poller :=
  match find_header "etag" (res_Headers res) with
  | Some header_etag =>
      mkPoller (po_interval p) (po_valid p) (Some header_etag) (Some header_etag) (po_last_start p) (po_requests p) (po_timer p)
  | None => p
  end.

Definition kNoEndpoint : string := "Could not parse polling endpoint URL".

(** ** The client *)

Module Client.
Section Source.
Context `{X : Externals} `{B : BoostJson} `{J : JsonText} `{!HashOrder} `{!Sha256} `{!StdSort}.
Context {P : Type} `{!IPersistence P} (context : Context).
Implicit Types (s : ClientData P) (p : Poller) (now : Z).

(** [None]: an exception; a 200 without a body throws. *)
Definition HandlePollResult (res : HttpResponse) now (ps : Poller * ClientData P) : option (Poller * ClientData P) :=
  let '(p, s) := ps in
  if same_etag res p then Some (StartPollingTimer now p, s)
  else
    let p := note_etag res p in
    if res_IsError res then
      Some (StartPollingTimer now p,
            with_status (SetStateKind ClientState.kInterrupted StatusErrorKind.kNetworkError
              (default "unknown error" (res_ErrorMessage res)) now) s)
    else if res_Status res =? 200 then
      match res_Body res with
      | Some body =>
          let! r := ClientSource.HandleMessage context "put" body now s in Some (StartPollingTimer now p, r.1)
      | None => None
      end
    else if res_Status res =? 304 then Some (StartPollingTimer now p, s)
    else if IsRecoverableStatus (res_Status res) then
      Some (StartPollingTimer now p,
            with_status (SetStateCode ClientState.kInterrupted (res_Status res)
              (ErrorForStatusCode (res_Status res) "polling request" (Some "will retry")) now) s)
    else
      Some (p, with_status (SetStateCode ClientState.kShutdown (res_Status res)
        (ErrorForStatusCode (res_Status res) "polling request" None) now) s).

Definition Start now (ps : Poller * ClientData P) : Poller * ClientData P :=
  let '(p, s) := ps in
  let s := with_status (SetState ClientState.kInitializing now) s in
  if negb (po_valid p) then
    (p, with_status (SetStateKind ClientState.kShutdown StatusErrorKind.kNetworkError (kNoEndpoint +:+ ".") now) s)
  else (DoPoll now p, s).

Definition ShutdownAsync now (ps : Poller * ClientData P) : Poller * ClientData P :=
  let '(p, s) := ps in (cancel_timer p, with_status (SetState ClientState.kInitializing now) s).

(** What happens to a source between its start and its shutdown. *)
Inductive step : Poller * ClientData P → Poller * ClientData P → Prop :=
| step_result res now p s ps' :
    (po_requests p ≠ 0)%nat → HandlePollResult res now (answered p, s) = Some ps' → step (p, s) ps'
| step_timer delay now p s :
    po_timer p = Some delay → step (p, s) (timer_fired now p, s).
End Source.
End Client.

(** ** The server *)

Module Server.
Section Source.
Context `{B : BoostJson} `{J : JsonText} {D : Type} `{!Destination D}.
Implicit Types (s : SyncState D) (p : Poller) (now : Z).

Definition kErrorParsingPut : string := "Could not parse polling payload".
Definition kErrorPutInvalid : string := "Polling payload contained invalid data".

Definition HandlePollResult (res : HttpResponse) now (ps : Poller * SyncState D) : Poller * SyncState D :=
  let '(p, s) := ps in
  if same_etag res p then (StartPollingTimer now p, s)
  else
    let p := note_etag res p in
    if res_IsError res then
      (StartPollingTimer now p,
       sync_status (SetStateKind ServerState.kInterrupted StatusErrorKind.kNetworkError
         (default "unknown error" (res_ErrorMessage res)) now) s)
    else if res_Status res =? 200 then
      match res_Body res with
      | Some body =>
          match parse body with
          | None => (p, sync_status (SetErrorKind StatusErrorKind.kInvalidData kErrorParsingPut now) s)
          | Some parsed =>
              match to_value_or to_SDKDataSet empty_data_set parsed with
              | Val poll_result => (p, sync_status (SetState ServerState.kValid now) (sync_handler (dest_Init poll_result) s))
              | Unexpected _ => (p, sync_status (SetErrorKind StatusErrorKind.kInvalidData kErrorPutInvalid now) s)
              end
          end
      | None =>
          (StartPollingTimer now p,
           sync_status (SetStateKind ServerState.kInterrupted StatusErrorKind.kUnknown
             "polling response contained no body." now) s)
      end
    else if res_Status res =? 304 then (StartPollingTimer now p, s)
    else if IsRecoverableStatus (res_Status res) then
      (StartPollingTimer now p,
       sync_status (SetStateCode ServerState.kInterrupted (res_Status res)
         (ErrorForStatusCode (res_Status res) "polling request" (Some "will retry")) now) s)
    else
      (p, sync_status (SetStateCode ServerState.kOff (res_Status res)
        (ErrorForStatusCode (res_Status res) "polling request" None) now) s).

Definition StartAsync now (ps : Poller * SyncState D) : Poller * SyncState D :=
  let '(p, s) := ps in
  let s := sync_status (SetState ServerState.kInitializing now) s in
  if negb (po_valid p) then
    (p, sync_status (SetStateKind ServerState.kOff StatusErrorKind.kNetworkError kNoEndpoint now) s)
  else (DoPoll now p, s).

Definition ShutdownAsync now (ps : Poller * SyncState D) : Poller * SyncState D :=
  let '(p, s) := ps in (cancel_timer p, sync_status (SetState ServerState.kInitializing now) s).

Inductive step : Poller * SyncState D → Poller * SyncState D → Prop :=
| step_result res now p s :
    (po_requests p ≠ 0)%nat → step (p, s) (HandlePollResult res now (answered p, s))
| step_timer delay now p s :
    po_timer p = Some delay → step (p, s) (timer_fired now p, s).
End Source.
End Server.

(** ** Lemmas *)

(** Requests in flight and waits pending. *)
Definition pending (p : Poller) : nat := po_requests p + (if po_timer p then 1 else 0).

Lemma note_etag_pending res p : pending (note_etag res p) = pending p ∧ po_timer (note_etag res p) = po_timer p ∧
  po_requests (note_etag res p) = po_requests p.
Proof. unfold note_etag. by destruct (find_header _ _). Qed.

Lemma timer_pending now p : pending (StartPollingTimer now p) = S (po_requests p).
Proof. unfold pending. simpl. lia. Qed.

(** A timer that does not fire early keeps polls an interval apart. *)
Lemma timer_not_early now p t delay :
  po_timer (StartPollingTimer now p) = Some delay → po_last_start p ≤ now → now + delay * second ≤ t →
  po_interval p * second ≤ t - po_last_start p.
Proof.
  intros [= <-] Hnow Ht. assert (second * Z.quot (now - po_last_start p) second ≤ now - po_last_start p)
    by (apply Z.mul_quot_le; unfold second; lia).
  unfold second in *. nia.
Qed.

Section ClientFacts.
Context `{X : Externals} `{B : BoostJson} `{J : JsonText} `{!HashOrder} `{!Sha256} `{!StdSort}.
Context {P : Type} `{!IPersistence P} (context : Context).
Implicit Types (s : ClientData P) (p : Poller) (now : Z).

Definition attended (ps : Poller * ClientData P) : Prop :=
  pending ps.1 = 1%nat ∨ (pending ps.1 = 0%nat ∧ sm_state_ (data_status ps.2) = ClientState.kShutdown).

Lemma handled_attended res now p s ps' :
  pending p = 0%nat → Client.HandlePollResult context res now (p, s) = Some ps' → attended ps'.
Proof.
  intros Hp Hres. destruct (note_etag_pending res p) as (Hn & _ & Hr).
  assert (po_requests p = 0%nat) as Hp0 by (unfold pending in Hp; lia).
  assert (∀ p' s', po_requests p' = 0%nat → attended (StartPollingTimer now p', s')) as Ha.
  { intros p' s' Hp'. left. simpl. by rewrite timer_pending, Hp'. }
  unfold Client.HandlePollResult in Hres. destruct (same_etag res p); [injection Hres as <-; by apply Ha|].
  destruct (res_IsError res); [injection Hres as <-; apply Ha; congruence|].
  destruct (res_Status res =? 200); [|destruct (res_Status res =? 304); [|destruct (IsRecoverableStatus _)]].
  - destruct (res_Body res) as [body|]; [|done]. destruct (ClientSource.HandleMessage _ _ _ _ _) as [r|]; [|done].
    injection Hres as <-. apply Ha. congruence.
  - injection Hres as <-. apply Ha. congruence.
  - injection Hres as <-. apply Ha. congruence.
  - injection Hres as <-. right. simpl. split; [congruence|].
    exact (status_step_state (OpStateCode ClientState.kShutdown (res_Status res)
      (ErrorForStatusCode (res_Status res) "polling request" None)) now (data_status s)).
Qed.

Lemma step_attended ps ps' : attended ps → Client.step context ps ps' → attended ps'.
Proof.
  intros Ha Hs. inversion Hs as [res now p s ps0 Hr Hres|delay now p s Ht]; subst.
  - assert (pending (answered p) = 0%nat) as Hp.
    { destruct Ha as [Ha|[Ha _]]; unfold pending in *; simpl in *; lia. }
    by eapply handled_attended.
  - left. destruct Ha as [Ha|[Ha _]]; unfold pending in *; simpl in *; rewrite Ht in Ha; lia.
Qed.
End ClientFacts.

(** ** Theorems *)

(** A client that polls goes on polling.  From the start of a source with a valid
    request, whatever the answers are, as long as no exception leaves a handler exactly one
    request is in flight or one wait is pending, unless the service has answered with an
    error that cannot be recovered from: then there is none and the state is "shutdown".  A
    wait that ends in time keeps the starts of two polls at least the interval apart, which
    is not less than the smallest one allowed. *)
Theorem client_polling_attended `{X : Externals} `{B : BoostJson} `{J : JsonText} `{!HashOrder} `{!Sha256} `{!StdSort}
  {P} `{!IPersistence P} (context : Context) (interval min_interval start : Z) (s : ClientData P) ps :
  rtc (Client.step context) (Client.Start start (new_poller interval min_interval true, s)) ps →
  (pending ps.1 = 1%nat ∨ (pending ps.1 = 0%nat ∧ sm_state_ (data_status ps.2) = ClientState.kShutdown)) ∧
  min_interval ≤ po_interval ps.1 ∧
  (∀ now t delay, po_timer (StartPollingTimer now ps.1) = Some delay → po_last_start ps.1 ≤ now →
     now + delay * second ≤ t → po_interval ps.1 * second ≤ t - po_last_start ps.1).
Proof.
  intros Hr.
  assert (attended ps ∧ min_interval ≤ po_interval ps.1) as [Ha Hi].
  { revert Hr. apply (rtc_ind_r (λ ps, attended ps ∧ min_interval ≤ po_interval ps.1)).
    - split; [by left|]. simpl. destruct (Z.ltb_spec interval min_interval); lia.
    - intros y z _ Hs [Ha Hi]. split; [by eapply step_attended|]. inversion Hs as [res now p s' ps0 Hreq Hres|]; subst; [|done].
      simpl in Hi. unfold Client.HandlePollResult in Hres.
      assert (po_interval (note_etag res (answered p)) = po_interval p) as Hn by (unfold note_etag; by destruct (find_header _ _)).
      repeat match type of Hres with context [if ?b then _ else _] => destruct b end;
        try (destruct (res_Body res) as [body|]; [|done]; destruct (ClientSource.HandleMessage _ _ _ _ _) as [r|]; [|done]);
        injection Hres as <-; simpl; rewrite ?Hn; done. }
  split_and!; [exact Ha|exact Hi|]. intros now t delay. apply timer_not_early.
Qed.

(** C30: A server that polls stops at the first answer with data.  Once a response with a
    body (and another ETag than the one before) has been handled, no request is in flight and
    no wait is pending, so nothing ever happens to the source again: the flags are never
    polled a second time. *)
Theorem server_polling_stops `{B : BoostJson} `{J : JsonText} {D} `{!Destination D} (res : HttpResponse) (body : string)
  (now : Z) (p : Poller) (s : SyncState D) ps' :
  pending p = 1%nat → po_requests p = 1%nat → same_etag res (answered p) = false →
  res_IsError res = false → res_Status res = 200 → res_Body res = Some body →
  let ps := Server.HandlePollResult res now (answered p, s) in
  pending ps.1 = 0%nat ∧ (rtc Server.step ps ps' → ps' = ps).
Proof.
  intros Hp Hr He Herr Hst Hb ps. destruct (note_etag_pending res (answered p)) as (Hn & Ht & Hr').
  assert (pending ps.1 = 0%nat) as H0.
  { unfold ps, Server.HandlePollResult. rewrite He, Herr, Hst, Hb. cbn [Z.eqb Pos.eqb].
    assert (pending (note_etag res (answered p)) = 0%nat) as E by (rewrite Hn; unfold pending in *; simpl; lia).
    destruct (parse body); [|exact E]. by destruct (to_value_or _ _ _). }
  split; [done|]. intros Hrtc. clearbody ps. destruct Hrtc as [|x y z Hs _]; [done|]. exfalso.
  inversion Hs as [res' now' p' s' Hreq|delay now' p' s' Htimer]; subst; unfold pending in H0; simpl in H0; [lia|].
  rewrite Htimer in H0. lia.
Qed.

(** A service that serves the body [f e] under the ETag [e]: what it may answer to a request
    that carries the ETag [known], and the ETag of what it serves then. *)
Inductive answers (f : string → string) (known : option string) : HttpResponse → option string → Prop :=
| answer_body e res :
    res_IsError res = false → res_Status res = 200 → res_Body res = Some (f e) →
    find_header "etag" (res_Headers res) = Some e → answers f known res (Some e)
| answer_unchanged e res :
    known = Some e → res_IsError res = false → res_Status res = 304 →
    (find_header "etag" (res_Headers res) = Some e ∨ find_header "etag" (res_Headers res) = None) → answers f known res (Some e)
| answer_failure res :
    res_IsError res = true ∨ (res_Status res ≠ 200 ∧ res_Status res ≠ 304) →
    find_header "etag" (res_Headers res) = None → answers f known res None.

Section Tracking.
Context `{X : Externals} `{B : BoostJson} `{J : JsonText} `{!HashOrder} `{!Sha256} `{!StdSort}.
Context {P : Type} `{!IPersistence P} (context : Context) (f : string → string).

(** Polls of such a service, with what it served. *)
Inductive polled : Poller * ClientData P → list string → Poller * ClientData P → Prop :=
| polled_none ps : polled ps [] ps
| polled_more ps es p s res served now ps' :
    polled ps es (p, s) → answers f (po_if_none_match p) res served →
    Client.HandlePollResult context res now (p, s) = Some ps' → polled ps (es ++ option_list served) ps'.

(** The flags are those of the ETag that is remembered. *)
Definition tracks (content : string → Results) (start : Results) (es : list string) (ps : Poller * ClientData P) : Prop :=
  po_etag_ ps.1 = last es ∧ po_if_none_match ps.1 = last es ∧
  flag_store_ (cache_sink_ (data_cache ps.2)) = from_option content start (last es).

Lemma put_flags body m now (s s1 : ClientData P) st :
  ClientSource.decode ("put", body) = Some (ClientSource.Put m) →
  ClientSource.HandleMessage context "put" body now s = Some (s1, st) → flag_store_ (cache_sink_ (data_cache s1)) = m.
Proof.
  intros Hd Hm. apply HandleMessage_outcome in Hm as [c s' Hd' Hfl _|text Hd' _|Hd' _]; rewrite Hd in Hd'; [|done|done].
  by injection Hd' as <-.
Qed.

Lemma poll_tracks content start es p s res served now ps' :
  (∀ e, ClientSource.decode ("put", f e) = Some (ClientSource.Put (content e))) →
  tracks content start es (p, s) → answers f (po_if_none_match p) res served →
  Client.HandlePollResult context res now (p, s) = Some ps' → tracks content start (es ++ option_list served) ps'.
Proof.
  intros Hf (He & Hm & Hc) Ha Hres. simpl in He, Hm, Hc. unfold Client.HandlePollResult, same_etag, note_etag in Hres.
  destruct Ha as [e res Herr Hst Hb Hh|e res Hk Herr Hst Hh|res Herr Hh].
  - rewrite Hh, Herr, Hst, Hb in Hres. unfold tracks. change (option_list (Some e)) with [e]. rewrite last_snoc.
    destruct (po_etag_ p) as [e'|] eqn:Ee; [destruct (str_eqb e' e) eqn:Eq|].
    + apply str_eqb_eq in Eq as ->. injection Hres as <-. simpl. rewrite Ee. rewrite <- He in Hm, Hc. by split_and!.
    + cbn [Z.eqb Pos.eqb] in Hres. destruct (ClientSource.HandleMessage _ _ _ _ _) as [[s1 st]|] eqn:Hmsg; [|done].
      injection Hres as <-. split_and!; [done|done|]. exact (put_flags (f e) (content e) now s s1 st (Hf e) Hmsg).
    + cbn [Z.eqb Pos.eqb] in Hres. destruct (ClientSource.HandleMessage _ _ _ _ _) as [[s1 st]|] eqn:Hmsg; [|done].
      injection Hres as <-. split_and!; [done|done|]. exact (put_flags (f e) (content e) now s s1 st (Hf e) Hmsg).
  - assert (last es = Some e) as Hl by congruence. unfold tracks. change (option_list (Some e)) with [e]. rewrite last_snoc.
    rewrite Hl in He, Hm, Hc. rewrite He in Hres. destruct Hh as [Hh|Hh]; rewrite Hh in Hres.
    + rewrite str_eqb_refl in Hres. by injection Hres as <-.
    + rewrite Herr, Hst in Hres. by injection Hres as <-.
  - change (option_list None) with (@nil string). rewrite app_nil_r. rewrite Hh in Hres.
    assert (match po_etag_ p with Some _ | _ => false end = false) as E by (by destruct (po_etag_ p)). rewrite E in Hres.
    destruct (res_IsError res); [by injection Hres as <-|]. destruct Herr as [|[H2 H3]]; [done|].
    apply Z.eqb_neq in H2, H3. rewrite H2, H3 in Hres. destruct (IsRecoverableStatus _); by injection Hres as <-.
Qed.
End Tracking.

(** Remembering ETags is transparent.  When the service serves one body under each ETag,
    and these bodies can be read, the flags of a client that polls are after every answer
    those of the body that the service served last, whether it sent it again, said that it
    was unchanged or repeated an ETag. *)
Theorem client_polling_tracks `{X : Externals} `{B : BoostJson} `{J : JsonText} `{!HashOrder} `{!Sha256} `{!StdSort}
  {P} `{!IPersistence P} (context : Context) (f : string → string) (content : string → Results)
  (interval min_interval now : Z) (s : ClientData P) (es : list string) ps :
  (∀ e, ClientSource.decode ("put", f e) = Some (ClientSource.Put (content e))) →
  polled context f (Client.Start now (new_poller interval min_interval true, s)) es ps →
  flag_store_ (cache_sink_ (data_cache ps.2)) = from_option content (flag_store_ (cache_sink_ (data_cache s))) (last es).
Proof.
  intros Hf Hp. enough (tracks content (flag_store_ (cache_sink_ (data_cache s))) es ps) as (_ & _ & H') by done.
  remember (Client.Start now (new_poller interval min_interval true, s)) as ps0 eqn:E.
  induction Hp as [ps|ps es p s' res served t ps' _ IH Ha Hres]; [by subst|].
  eapply poll_tracks; [exact Hf|by apply IH|exact Ha|exact Hres].
Qed.

(** ** Examples *)

Section Example.
#[local] Existing Instance reference_boost_json.
#[local] Existing Instance reference_text.
#[local] Existing Instance reference_sha256.
#[local] Existing Instance reference_sort.

Definition no_context : Context := invalid_context EmptyString.

Definition flag_text (value : bool) : string :=
  serialize (JObject [("a", JObject [("version", JInt64 1); ("value", JBool value)])]).

Definition ok_response (etag body : string) : HttpResponse := mkHttpResponse false None 200 (Some body) [("ETag", etag)].
Definition unchanged_response (etag : string) : HttpResponse := mkHttpResponse false None 304 None [("ETag", etag)].
Definition lost_response : HttpResponse := mkHttpResponse true (Some "timeout") 0 None [].

Definition example_start : Poller * ClientData (gmap (string * string) string) :=
  Client.Start 0 (new_poller 1 30 true, example_data).

(** Polls, with the timer fired between them. *)
Fixpoint poll_all (responses : list HttpResponse) (ps : Poller * ClientData (gmap (string * string) string)) :
    option (Poller * ClientData (gmap (string * string) string)) :=
  match responses with
  | [] => Some ps
  | res :: responses =>
      let! ps := Client.HandlePollResult no_context res 5 (answered ps.1, ps.2) in
      poll_all responses (timer_fired 40 ps.1, ps.2)
  end.

(** A handler that returns, and the state it returns. *)
Lemma returns {A} (d : A) (o : option A) : (if o then true else false) = true → o = Some (default d o).
Proof. by destruct o. Qed.

Abbreviation result_of res now ps := (default example_start (Client.HandlePollResult no_context res now ps)).

Lemma client_polling_attended_witness :
  ∃ ps, rtc (Client.step no_context) example_start ps ∧ pending ps.1 = 1%nat ∧ 30 ≤ po_interval ps.1.
Proof.
  set (ps := result_of lost_response 5 (answered example_start.1, example_start.2)).
  assert (rtc (Client.step no_context) example_start ps) as Hr.
  { eapply rtc_l; [|apply rtc_refl]. eapply (Client.step_result _ lost_response 5); [discriminate|].
    apply (returns example_start). vm_compute. reflexivity. }
  exists ps. split; [exact Hr|].
  destruct (client_polling_attended no_context 1 30 0 example_data ps Hr) as (_ & Hi & _).
  split; [vm_compute; reflexivity|exact Hi].
Defined.

Definition server_start : Poller * SyncState MemoryStore :=
  Server.StartAsync 0 (new_poller 1 30 true, mkSync empty_memory_store (new_status_manager 0) []).

Lemma server_polling_stops_witness :
  let ps := Server.HandlePollResult (ok_response "e" (serialize (JObject []))) 5 (answered server_start.1, server_start.2) in
  pending ps.1 = 0%nat ∧ sm_state_ (sy_status ps.2) = ServerState.kValid.
Proof.
  intros ps. split; [|vm_compute; reflexivity].
  destruct (server_polling_stops (ok_response "e" (serialize (JObject []))) (serialize (JObject [])) 5
    server_start.1 server_start.2 ps) as [Hp _]; [reflexivity..|exact Hp].
Defined.

Definition body_of (etag : string) : string := flag_text (str_eqb etag "new").

Definition content_of (etag : string) : Results :=
  {["a" := result_descriptor (mkResult 1 None false false None (mkDetail (VBool (str_eqb etag "new")) None None) None)]}.

Definition first_poll := result_of (ok_response "old" (body_of "old")) 5 example_start.
Definition second_poll := result_of (unchanged_response "old") 6 first_poll.
Definition third_poll := result_of (ok_response "new" (body_of "new")) 7 second_poll.

Lemma example_polled : polled no_context body_of example_start ["old"; "old"; "new"] third_poll.
Proof.
  change ["old"; "old"; "new"] with ((([] ++ option_list (Some "old")) ++ option_list (Some "old")) ++ option_list (Some "new")).
  apply (polled_more _ _ _ _ second_poll.1 second_poll.2 (ok_response "new" (body_of "new")) (Some "new") 7);
    [apply (polled_more _ _ _ _ first_poll.1 first_poll.2 (unchanged_response "old") (Some "old") 6);
     [apply (polled_more _ _ _ _ example_start.1 example_start.2 (ok_response "old" (body_of "old")) (Some "old") 5);
      [apply polled_none|..]|..]|..].
  - apply answer_body; reflexivity.
  - apply (returns example_start). vm_compute. reflexivity.
  - apply (answer_unchanged _ _ "old"); [vm_compute; reflexivity|reflexivity..|left; reflexivity].
  - apply (returns example_start). vm_compute. reflexivity.
  - apply answer_body; reflexivity.
  - apply (returns example_start). vm_compute. reflexivity.
Qed.

Lemma client_polling_tracks_witness :
  flag_store_ (cache_sink_ (data_cache third_poll.2)) = content_of "new".
Proof.
  rewrite (client_polling_tracks no_context body_of content_of 1 30 0 example_data ["old"; "old"; "new"] third_poll);
    [reflexivity| |exact example_polled].
  intros e. unfold body_of, content_of. destruct (str_eqb e "new"); vm_compute; reflexivity.
Defined.

(** An answer that nothing changed does not end an interruption: the last request
    succeeded, and the state is still "interrupted". *)
Example unchanged_stays_interrupted :
  (λ ps, sm_state_ (data_status ps.2)) <$> poll_all [ok_response "e" (flag_text true); lost_response; unchanged_response "e"] example_start =
  Some ClientState.kInterrupted.
Proof. vm_compute. reflexivity. Qed.

(** The ETag of a body that could not be read is remembered, so that the same content is
    not read when it arrives intact. *)
Example unreadable_etag_remembered :
  (λ ps, flag_store_ (cache_sink_ (data_cache ps.2))) <$>
    poll_all [ok_response "e" "truncated"; ok_response "e" (flag_text true)] example_start = Some ∅.
Proof. vm_compute. reflexivity. Qed.
End Example.
