(* ===== verification/ClientSide.v ===== *)
(** * The client of a client-side SDK: variations

    libs/client-sdk/src/client_impl.cpp: what a call of the application returns and which
    events it hands to the event processor.  Flags are evaluated by the service; a variation
    looks the result up, and sends an event for it and, first, for its prerequisites.

    The recursion over the prerequisites is not bounded in the code; here it has fuel, and
    [None] is a call that has not returned within it.  A reading of the clock is numbered. *)

From S2P Require Import Prelude OrderedMap Doubles Values AttributeReferences Contexts Reasons DataModel Externals.
From S2P Require Import Stores Dependencies Notifier Operators EventData Json EvaluationResults ClientFlags StatusManager.
#[local] Open Scope Z_scope.

Definition IsInitializedSuccessfully (state : ClientState.t) : bool :=
  bool_decide (state = ClientState.kValid) || bool_decide (state = ClientState.kSetOffline) ||
  bool_decide (state = ClientState.kInterrupted).

(** What a variation reads of the client. *)
Record ClientView := mkView {
  view_flags : Results;
  view_context : Context;
  view_state : ClientState.t;
  eval_reasons_available_ : bool;
  view_clock : nat → Date;
}.

(** The events sent so far, and how often the clock was read. *)
Record Calls := mkCalls { sent_events : list InputEvent; clock_reads : nat }.

Definition SendAsync (e : InputEvent) (calls : Calls) : Calls := mkCalls (sent_events calls ++ [e]) (clock_reads calls).

Section Variations.
Context (c : ClientView).
Implicit Types (calls : Calls) (key : string).

Definition Initialized : bool := IsInitializedSuccessfully (view_state c).

(** The event of a call, before the flag is looked at. *)
Definition new_event key (default_value : Value) calls : FeatureEventParams :=
  mkFeatureParams (view_clock c (clock_reads calls)) key (view_context c) default_value default_value
    None None None false None None.

Definition with_reason (reason : option EvaluationReason) (e : FeatureEventParams) : FeatureEventParams :=
  mkFeatureParams (fe_creation_date e) (fe_key e) (fe_context e) (fe_value e) (fe_default e) (fe_version e)
    (fe_variation e) reason (fe_require_full_event e) (fe_debug_events_until_date e) (fe_prereq_of e).

(** The default value with an error; the event has it as its reason if reasons are available. *)
Definition failed (error : ErrorKind.t) (default_value : Value) (event : FeatureEventParams) calls :
    EvaluationDetail Value * Calls :=
  let error_reason := error_reason error in
  let event := if eval_reasons_available_ c then with_reason (Some error_reason) event else event in
  (mkDetail default_value None (Some error_reason), SendAsync (Feature event) calls).

(** The event of a flag that was found. *)
Definition flag_event (flag : EvaluationResult) (detailed : bool) (event : FeatureEventParams) : FeatureEventParams :=
  let detail := er_detail flag in
  mkFeatureParams (fe_creation_date event) (fe_key event) (fe_context event) (value_ detail) (fe_default event)
    (Some (default (er_version flag) (er_flag_version flag))) (variation_index_ detail)
    (if detailed || er_track_reason flag then reason_ detail else fe_reason event)
    (er_track_events flag) (er_debug_events_until_date flag) (fe_prereq_of event).

(** The loop over the prerequisites, each by a call of [JsonVariation]. *)
Fixpoint prerequisites (variation : string → Calls → option (EvaluationDetail Value * Calls)) (keys : list string) calls :
    option Calls :=
  match keys with
  | [] => Some calls
  | prereq :: keys => let! r := variation prereq calls in prerequisites variation keys r.2
  end.

Fixpoint VariationInternal (fuel : nat) key (default_value : Value) (check_type detailed : bool) calls :
    option (EvaluationDetail Value * Calls) :=
  match fuel with
  | O => None
  | S fuel =>
      let desc := view_flags c !! key in
      let event := new_event key default_value calls in
      let calls := mkCalls (sent_events calls) (S (clock_reads calls)) in
      match (match desc with Some d => item d | None => None end) with
      | None =>
          if negb Initialized then Some (failed ErrorKind.kClientNotReady default_value event calls)
          else Some (failed ErrorKind.kFlagNotFound default_value event calls)
      | Some flag =>
          let detail := er_detail flag in
          let! calls :=
            prerequisites (λ prereq calls, VariationInternal fuel prereq VNull false false calls)
              (default [] (er_prerequisites flag)) calls in
          if check_type && negb (bool_decide (Type_of default_value = ValueType.kNull)) &&
             negb (bool_decide (Type_of (value_ detail) = Type_of default_value))
          then Some (failed ErrorKind.kWrongType default_value event calls)
          else
            Some (mkDetail (value_ detail) (variation_index_ detail) (reason_ detail),
                  SendAsync (Feature (flag_event flag detailed event)) calls)
      end
  end.

(** A [Value] converts to the type of the method by its accessor. *)
Definition convert {T} (as_T : Value → T) (r : option (EvaluationDetail Value * Calls)) : option (EvaluationDetail T * Calls) :=
  (λ r, (mkDetail (as_T (value_ r.1)) (variation_index_ r.1) (reason_ r.1), r.2)) <$> r.
Definition plain {T} (as_T : Value → T) (r : option (EvaluationDetail Value * Calls)) : option (T * Calls) :=
  (λ r, (as_T (value_ r.1), r.2)) <$> r.

Definition BoolVariationDetail fuel key (default_value : bool) calls :=
  convert AsBool (VariationInternal fuel key (VBool default_value) true true calls).
Definition BoolVariation fuel key (default_value : bool) calls :=
  plain AsBool (VariationInternal fuel key (VBool default_value) true false calls).
Definition StringVariationDetail fuel key (default_value : string) calls :=
  convert AsString (VariationInternal fuel key (VString default_value) true true calls).
Definition StringVariation fuel key (default_value : string) calls :=
  plain AsString (VariationInternal fuel key (VString default_value) true false calls).
Definition DoubleVariationDetail fuel key (default_value : double) calls :=
  convert AsDouble (VariationInternal fuel key (VNumber default_value) true true calls).
Definition DoubleVariation fuel key (default_value : double) calls :=
  plain AsDouble (VariationInternal fuel key (VNumber default_value) true false calls).
Definition IntVariationDetail fuel key (default_value : Z) calls :=
  convert AsInt (VariationInternal fuel key (of_int default_value) true true calls).
Definition IntVariation fuel key (default_value : Z) calls :=
  plain AsInt (VariationInternal fuel key (of_int default_value) true false calls).
Definition JsonVariationDetail fuel key (default_value : Value) calls :=
  VariationInternal fuel key default_value false true calls.
Definition JsonVariation fuel key (default_value : Value) calls :=
  plain (λ v, v) (VariationInternal fuel key default_value false false calls).

(** ** Other calls *)

Definition AllFlags : gmap string Value := omap (λ d : ResultDescriptor, (λ r, value_ (er_detail r)) <$> item d) (view_flags c).

Definition TrackInternal (event_name : string) (data : option Value) (metric_value : option double) calls : Calls :=
  SendAsync (Track (mkTrackParams (view_clock c (clock_reads calls)) event_name (view_context c) data metric_value))
    (mkCalls (sent_events calls) (S (clock_reads calls))).

Definition Track_metric (event_name : string) (data : Value) (metric_value : double) calls : Calls :=
  TrackInternal event_name (Some data) (Some metric_value) calls.
Definition Track_data (event_name : string) (data : Value) calls : Calls := TrackInternal event_name (Some data) None calls.
Definition Track_name (event_name : string) calls : Calls := TrackInternal event_name None None calls.
End Variations.

(** ** Specification *)

Section Spec.
Context (c : ClientView).
Implicit Types (calls : Calls) (key : string).

(** The flag of a key, unless it is missing or deleted. *)
Definition stored key : option EvaluationResult := match view_flags c !! key with Some d => item d | None => None end.

Definition prereqs_of key : list string :=
  match stored key with Some flag => default [] (er_prerequisites flag) | None => [] end.

Definition requires (key prereq : string) : Prop := prereq ∈ prereqs_of key.

(** What a variation returns. *)
Definition served key (default_value : Value) (check_type : bool) : EvaluationDetail Value :=
  match stored key with
  | None => error_detail (if Initialized c then ErrorKind.kFlagNotFound else ErrorKind.kClientNotReady) default_value
  | Some flag =>
      if check_type && negb (bool_decide (Type_of default_value = ValueType.kNull)) &&
         negb (bool_decide (Type_of (value_ (er_detail flag)) = Type_of default_value))
      then error_detail ErrorKind.kWrongType default_value
      else er_detail flag
  end.

(** The keys that a variation sends events for: those of the prerequisites first. *)
Inductive visits : string → list string → Prop :=
| visits_key key ls : Forall2 visits (prereqs_of key) ls → visits key (concat ls ++ [key]).

Definition event_key (e : InputEvent) : option string := match e with Feature e => Some (fe_key e) | _ => None end.

(** The event of a call: it carries what was returned. *)
Definition reports key (default_value : Value) (d : EvaluationDetail Value) (e : FeatureEventParams) : Prop :=
  fe_key e = key ∧ fe_context e = view_context c ∧ fe_default e = default_value ∧
  fe_value e = value_ d ∧ fe_variation e = variation_index_ d.

(** What was sent for some keys: an event for each, in this order. *)
Definition sent_for (keys : list string) calls calls' : Prop :=
  ∃ es, sent_events calls' = sent_events calls ++ es ∧ omap event_key es = keys ∧ length es = length keys.

Lemma prerequisites_visits variation keys calls calls' :
  (∀ k calls d calls', variation k calls = Some (d, calls') → ∃ ks, visits k ks ∧ sent_for ks calls calls') →
  prerequisites variation keys calls = Some calls' → ∃ ls, Forall2 visits keys ls ∧ sent_for (concat ls) calls calls'.
Proof.
  intros Hvar. revert calls. induction keys as [|k keys IH]; intros calls Hp; simpl in Hp.
  - injection Hp as <-. exists []. split; [constructor|]. exists []. by rewrite app_nil_r.
  - destruct (variation k calls) as [[d calls1]|] eqn:H1; [|done]. simpl in Hp.
    destruct (Hvar k calls d calls1 H1) as (ks & Hks & es1 & Hs1 & Hk1 & Hl1).
    destruct (IH calls1 Hp) as (ls & Hls & es & Hs & Hk & Hl). exists (ks :: ls). split; [by constructor|].
    exists (es1 ++ es). rewrite Hs, Hs1, <- app_assoc, omap_app, Hk, Hk1, !length_app, Hl, Hl1. split_and!; [done|done|].
    simpl. by rewrite length_app.
Qed.

Lemma VariationInternal_result fuel key default_value check_type detailed calls d calls' :
  VariationInternal c fuel key default_value check_type detailed calls = Some (d, calls') →
  d = served key default_value check_type ∧
  ∃ before e, visits key (before ++ [key]) ∧ reports key default_value d e ∧
    ∃ es, sent_events calls' = sent_events calls ++ es ++ [Feature e] ∧ omap event_key es = before ∧ length es = length before.
Proof.
  revert key default_value check_type detailed calls d calls'.
  induction fuel as [|fuel IH]; intros key default_value check_type detailed calls d calls'; [done|].
  cbn [VariationInternal]. fold (stored key). unfold served. destruct (stored key) as [flag|] eqn:Hst.
  - destruct (prerequisites _ _ _) as [calls1|] eqn:Hp; [|done]. cbn [tbind]. intros Hv.
    apply prerequisites_visits in Hp as (ls & Hls & es & Hs & Hk & Hl).
    + assert (visits key (concat ls ++ [key])) as Hvis by (constructor; unfold prereqs_of; by rewrite Hst).
      destruct (check_type && _ && _); injection Hv as <- <-; (split; [by destruct (er_detail flag)|]);
        eexists (concat ls), _; (split; [exact Hvis|]);
        (split; [|exists es; simpl; rewrite Hs, <- app_assoc; done]); unfold reports; simpl; by destruct (eval_reasons_available_ c).
    + intros k calls2 d2 calls3 H2. apply IH in H2 as (_ & before & e & Hvis & [Hek _] & es & Hs & Hk & Hl).
      exists (before ++ [k]). split; [done|]. exists (es ++ [Feature e]). rewrite Hs, omap_app, !length_app, Hl, Hk. simpl.
      by rewrite Hek.
  - intros Hv. assert (visits key ([] ++ [key])) as Hvis by (apply (visits_key key []); unfold prereqs_of; rewrite Hst; constructor).
    destruct (Initialized c); injection Hv as <- <-; (split; [done|]); eexists [], _; (split; [exact Hvis|]);
      (split; [|by exists []]); unfold reports; simpl; by destruct (eval_reasons_available_ c).
Qed.
(** *** When a variation returns *)

Fixpoint halts (fuel : nat) key : Prop :=
  match fuel with O => False | S fuel => Forall (halts fuel) (prereqs_of key) end.

Lemma prerequisites_halts fuel keys calls :
  (∀ k calls, is_Some (VariationInternal c fuel k VNull false false calls) ↔ halts fuel k) →
  is_Some (prerequisites (λ k calls, VariationInternal c fuel k VNull false false calls) keys calls) ↔ Forall (halts fuel) keys.
Proof.
  intros Hf. revert calls. induction keys as [|k keys IH]; intros calls; simpl; [by split; [constructor|intros; eexists]|].
  rewrite Forall_cons, <- (Hf k calls). destruct (VariationInternal c fuel k VNull false false calls) as [[d calls1]|]; simpl.
  - rewrite IH. split; [intros; split; [by eexists|done]|by intros []].
  - split; [by intros []|by intros [[] _]].
Qed.

Lemma VariationInternal_halts fuel key default_value check_type detailed calls :
  is_Some (VariationInternal c fuel key default_value check_type detailed calls) ↔ halts fuel key.
Proof.
  revert key default_value check_type detailed calls.
  induction fuel as [|fuel IH]; intros key default_value check_type detailed calls; [by split; [intros []|]|].
  cbn [VariationInternal halts]. unfold prereqs_of. fold (stored key). destruct (stored key) as [flag|].
  - rewrite <- (prerequisites_halts fuel _ (mkCalls (sent_events calls) (S (clock_reads calls)))) by (intros; apply IH).
    destruct (prerequisites _ _ _); cbn [tbind]; [|by split; intros []].
    destruct (check_type && _ && _); split; intros _; by eexists.
  - split; [constructor|]. intros _. destruct (Initialized c); by eexists.
Qed.

(** The flag requires itself, or a flag it requires does, and so on. *)
Definition cyclic key : Prop := ∃ k, rtc requires key k ∧ tc requires k k.

Lemma halts_after fuel k k' : halts fuel k → tc requires k k' → ∃ fuel', (fuel' < fuel)%nat ∧ halts fuel' k'.
Proof.
  intros Hh Ht. revert fuel Hh.
  assert (∀ fuel k k', halts fuel k → requires k k' → ∃ fuel', (fuel' < fuel)%nat ∧ halts fuel' k') as Hstep.
  { intros [|fuel] x y Hh Hr; [done|]. exists fuel. split; [lia|]. simpl in Hh. rewrite Forall_forall in Hh. by apply Hh. }
  induction Ht as [x y Hr|x y z Hr _ IH]; intros fuel Hh; [by eapply Hstep|].
  destruct (Hstep fuel x y Hh Hr) as (f1 & Hf1 & Hh1). destruct (IH f1 Hh1) as (f2 & Hf2 & Hh2). exists f2. split; [lia|done].
Qed.

Lemma halts_acyclic fuel key : halts fuel key → ¬ cyclic key.
Proof.
  intros Hh (k & Hr & Hc).
  assert (∃ fuel', halts fuel' k) as [n Hn].
  { apply rtc_tc in Hr as [<-|Hr]; [by exists fuel|]. destruct (halts_after fuel key k Hh Hr) as (f' & _ & Hf'). by exists f'. }
  clear Hh Hr. induction n as [n IH] using lt_wf_ind. destruct (halts_after n k k Hn Hc) as (m & Hm & Hh). by apply (IH m).
Qed.

Lemma requires_dom k k' : requires k k' → k ∈ dom (view_flags c).
Proof.
  unfold requires, prereqs_of, stored. intros Hr. apply elem_of_dom. destruct (view_flags c !! k); [by eexists|]. by apply not_elem_of_nil in Hr.
Qed.

(** Keys on the way to [k] are distinct, so that there are not more of them than flags. *)
Lemma acyclic_halts key (seen : gset string) n k :
  ¬ cyclic key → rtc requires key k → seen ⊆ dom (view_flags c) → (∀ x, x ∈ seen → rtc requires key x ∧ tc requires x k) →
  (size (view_flags c) - size seen ≤ n)%nat → halts (S n) k.
Proof.
  intros Hac. revert seen k. induction n as [|n IH]; intros seen k Hk Hsub Hseen Hn; cbn [halts];
    (destruct (prereqs_of k) as [|p ps] eqn:Hps; [constructor|]);
    assert (k ∈ dom (view_flags c)) as Hd by (apply (requires_dom k p); unfold requires; rewrite Hps; by left);
    (assert (k ∉ seen) as Hns by (intros [Hx Hc]%Hseen; apply Hac; by exists k));
    assert (size ({[k]} ∪ seen) ≤ size (view_flags c))%nat as Hsize
      by (rewrite <- size_dom; apply subseteq_size; set_solver);
    rewrite size_union, size_singleton in Hsize by set_solver; [lia|].
  rewrite <- Hps. apply Forall_forall. intros q Hq. apply (IH ({[k]} ∪ seen) q); [by eapply rtc_r|set_solver| |].
  - intros x [->%elem_of_singleton|Hx]%elem_of_union; [split; [done|by apply tc_once]|].
    destruct (Hseen x Hx) as [Hkx Hxk]. split; [done|]. by eapply tc_r.
  - rewrite size_union, size_singleton by set_solver. lia.
Qed.
End Spec.

(** A typed method returns a value of its type: the accessors are never applied to a value
    of another type. *)
Lemma served_type c key default_value :
  Type_of default_value ≠ ValueType.kNull → Type_of (value_ (served c key default_value true)) = Type_of default_value.
Proof.
  intros Ht. unfold served. destruct (stored c key) as [flag|]; [|by destruct (Initialized c)].
  rewrite bool_decide_eq_false_2 by done. simpl. by case_bool_decide.
Qed.

Lemma client_variation_cycle c key default_value check_type detailed calls :
  cyclic c key → ∀ fuel, VariationInternal c fuel key default_value check_type detailed calls = None.
Proof.
  intros Hc fuel. destruct (VariationInternal c fuel key default_value check_type detailed calls) eqn:E; [|done]. exfalso.
  apply (halts_acyclic c fuel key); [|done]. apply (VariationInternal_halts c fuel key default_value check_type detailed calls).
  rewrite E. by eexists.
Qed.

(** ** Theorems *)

(** A variation call returns exactly when no flag that is reached from it through
    prerequisites requires itself.  Then a recursion as deep as there are flags is enough;
    otherwise the call never returns, however deep the recursion may go: nothing guards
    against prerequisites that form a cycle. *)
Theorem client_variation_termination (c : ClientView) (key : string) (default_value : Value) (check_type detailed : bool)
  (calls : Calls) :
  (¬ cyclic c key → is_Some (VariationInternal c (S (size (view_flags c))) key default_value check_type detailed calls)) ∧
  (cyclic c key → ∀ fuel, VariationInternal c fuel key default_value check_type detailed calls = None).
Proof.
  split.
  - intros Hac. apply VariationInternal_halts. apply (acyclic_halts c key ∅); [done|apply rtc_refl|set_solver|set_solver|lia].
  - apply client_variation_cycle.
Qed.

(** C32: What a variation call of a client returns and sends.  The value is the one the service
    computed, unless the flag is missing or deleted (the default, with the error that the
    client is not ready, or else that there is no such flag) or has another type than the
    default (the default, with that error); so that a typed method gets a value of its
    type.  An event is sent for every flag reached through
    prerequisites, those of a flag's prerequisites before its own, and the last event is that
    of the call itself: it carries the context, the default and what was returned. *)
Theorem client_variation_spec (c : ClientView) (fuel : nat) (key : string) (default_value : Value)
  (check_type detailed : bool) (calls calls' : Calls) (d : EvaluationDetail Value) :
  VariationInternal c fuel key default_value check_type detailed calls = Some (d, calls') →
  d = served c key default_value check_type ∧
  (check_type = true → Type_of default_value ≠ ValueType.kNull → Type_of (value_ d) = Type_of default_value) ∧
  ∃ before e, visits c key (before ++ [key]) ∧ reports c key default_value d e ∧
    ∃ es, sent_events calls' = sent_events calls ++ es ++ [Feature e] ∧ omap event_key es = before ∧ length es = length before.
Proof.
  intros [Hd Hev]%VariationInternal_result. split_and!; [done| |done]. intros -> Ht. rewrite Hd. by apply served_type.
Qed.

(** ** Examples *)

Definition example_flag (v : bool) (prereqs : list string) : ResultDescriptor :=
  result_descriptor (mkResult 3 None true false None (mkDetail (VBool v) (Some 0) None) (Some prereqs)).

(** "a" requires "b" and "c", "b" requires "c", and "d" requires itself. *)
Definition example_view : ClientView :=
  mkView (list_to_map [("a", example_flag true ["b"; "c"]); ("b", example_flag true ["c"]); ("c", example_flag false []);
                       ("d", example_flag true ["d"])]) (invalid_context EmptyString) ClientState.kValid false (λ _, 0).

Lemma client_variation_spec_witness :
  ∃ d calls', VariationInternal example_view 5 "a" (VBool false) true false (mkCalls [] 0) = Some (d, calls') ∧
    value_ d = VBool true ∧ omap event_key (sent_events calls') = ["c"; "b"; "c"; "a"] ∧
    Type_of (value_ d) = ValueType.kBool.
Proof.
  destruct (VariationInternal example_view 5 "a" (VBool false) true false (mkCalls [] 0)) as [[d calls']|] eqn:E;
    [|vm_compute in E; discriminate].
  exists d, calls'. split; [done|].
  destruct (client_variation_spec example_view 5 "a" (VBool false) true false (mkCalls [] 0) calls' d E) as (Hd & Ht & _).
  split_and!; [rewrite Hd; vm_compute; reflexivity| |by apply Ht].
  vm_compute in E. injection E as _ <-. vm_compute. reflexivity.
Defined.

(** The flag that requires itself. *)
Example cyclic_variation : VariationInternal example_view 100 "d" (VBool false) true false (mkCalls [] 0) = None.
Proof.
  apply client_variation_cycle. exists "d". split; [apply rtc_refl|]. apply tc_once.
  unfold requires. vm_compute prereqs_of. by left.
Qed.
