(* ===== verification/ClientLifecycle.v ===== *)
(** * The client of a client-side SDK: starting and identifying

    libs/client-sdk/src/client_impl.cpp ([StartAsync], [IdentifyAsync], [RestartDataSource],
    [MakeDataSource], [Initialized]), with the start and the shutdown of
    null_data_source.cpp and streaming_data_source.cpp; polling is that of [Polling].

    The application's calls and the work of the client's own thread interleave: a step is
    one task of that thread.  What [IdentifyAsync] and [StartAsync] return is a promise that
    a listener of the status resolves; a promise is the number of broadcasts there had been
    when the listener was connected, and its value is read off the broadcasts since. *)

From S2P Require Import Prelude OrderedMap Doubles Values AttributeReferences Contexts Reasons DataModel Externals ReferenceExternals.
From S2P Require Import Stores Dependencies Notifier Operators EventData Json JsonModel Persistence Encodings.
From S2P Require Import EvaluationResults JsonNumbers ClientFlags ClientCache Fdv2 StatusManager SourceResults Fdv2Sources.
From S2P Require Import ClientSource JsonTexts BackgroundSync Polling ClientSide.
#[local] Open Scope Z_scope.

(** ** Data sources *)

Inductive DataSource :=
| NullDataSource
| PollingDataSource (p : Poller) (context : Context)
| StreamingDataSource (client_ : bool) (context : Context).

(** What matters of the configuration; [endpoint_ok]: the URL of the source can be parsed. *)
Record Config := mkConfig {
  cfg_Offline : bool;
  cfg_streaming : bool;
  cfg_poll_interval : Z;
  cfg_min_polling_interval : Z;
  cfg_endpoint_ok : bool;
}.

Definition MakeDataSource (config : Config) (context : Context) : DataSource :=
  if cfg_Offline config then NullDataSource
  else if cfg_streaming config then StreamingDataSource false context
  else PollingDataSource (new_poller (cfg_poll_interval config) (cfg_min_polling_interval config) (cfg_endpoint_ok config)) context.

Record ClientImpl (P : Type) := mkClientImpl {
  config_ : Config;
  context_ : Context;
  client_data : ClientData P;
  data_source_ : option DataSource;
  start_ops : nat;
  identify_events : list IdentifyEventParams;
}.
Arguments mkClientImpl {P} _ _ _ _ _ _.
Arguments config_ {P} _.
Arguments context_ {P} _.
Arguments client_data {P} _.
Arguments data_source_ {P} _.
Arguments start_ops {P} _.
Arguments identify_events {P} _.

Section Lifecycle.
Context `{X : Externals} `{B : BoostJson} `{J : JsonText} `{!HashOrder} `{!Sha256} `{!StdSort}.
Context {P : Type} `{!IPersistence P}.
Implicit Types (c : ClientImpl P) (now : Z).

Abbreviation status c := (data_status (client_data c)).

Definition with_data (d : ClientData P) c : ClientImpl P :=
  mkClientImpl (config_ c) (context_ c) d (data_source_ c) (start_ops c) (identify_events c).
Definition with_source (src : DataSource) c : ClientImpl P :=
  mkClientImpl (config_ c) (context_ c) (client_data c) (Some src) (start_ops c) (identify_events c).

Definition kNoStreamEndpoint : string := "Could not parse streaming endpoint URL.".

(** [Start] of the source just made. *)
Definition source_Start (endpoint_ok : bool) (src : DataSource) now (d : ClientData P) : DataSource * ClientData P :=
  match src with
  | NullDataSource => (NullDataSource, with_status (SetState ClientState.kSetOffline now) d)
  | PollingDataSource p context =>
      let '(p, d) := Client.Start now (p, d) in (PollingDataSource p context, d)
  | StreamingDataSource _ context =>
      let d := with_status (SetState ClientState.kInitializing now) d in
      if endpoint_ok then (StreamingDataSource true context, d)
      else (StreamingDataSource false context,
            with_status (SetStateKind ClientState.kShutdown StatusErrorKind.kNetworkError kNoStreamEndpoint now) d)
  end.

(** [ShutdownAsync], up to the completion, which is run later. *)
Definition source_Shutdown (src : DataSource) now (d : ClientData P) : DataSource * ClientData P :=
  match src with
  | NullDataSource => (NullDataSource, d)
  | PollingDataSource p context =>
      let '(p, d) := Client.ShutdownAsync now (p, d) in (PollingDataSource p context, d)
  | StreamingDataSource true context => (src, with_status (SetState ClientState.kInitializing now) d)
  | StreamingDataSource false context => (src, d)
  end.

(** [start_op] *)
Definition start_op now c : ClientImpl P :=
  let '(src, d) := source_Start (cfg_endpoint_ok (config_ c)) (MakeDataSource (config_ c) (context_ c)) now (client_data c) in
  with_data d (with_source src c).

Definition RestartDataSource now c : ClientImpl P :=
  match data_source_ c with
  | None => start_op now c
  | Some src =>
      let '(src, d) := source_Shutdown src now (client_data c) in
      let c := with_data d (with_source src c) in
      mkClientImpl (config_ c) (context_ c) (client_data c) (data_source_ c) (S (start_ops c)) (identify_events c)
  end.

(** The promise, and the client. *)
Definition StartAsyncInternal now c : nat * ClientImpl P :=
  let init_promise := length (broadcasts_ (status c)) in
  (init_promise, RestartDataSource now c).

Definition StartAsync now c : nat * ClientImpl P := StartAsyncInternal now c.

(** [None]: reading the cache throws. *)
Definition IdentifyAsync (context : Context) now c : option (nat * ClientImpl P) :=
  let! cache := LoadCached context (data_cache (client_data c)) in
  let c := mkClientImpl (config_ c) context (mkClientData cache (status c)) (data_source_ c) (start_ops c)
             (identify_events c ++ [mkIdentifyParams now context]) in
  Some (StartAsyncInternal now c).

Definition Initialized c : bool := IsInitializedSuccessfully (sm_state_ (status c)).

(** What the listener has resolved a promise with. *)
Definition settled (s : DataSourceStatus ClientState.t) : Prop := status_state s ≠ ClientState.kInitializing.

Definition promise_value (init_promise : nat) c : option bool :=
  (λ s, IsInitializedSuccessfully (status_state s)) <$> head (filter settled (drop init_promise (broadcasts_ (status c)))).

Definition new_client (config : Config) (context : Context) (cache : FlagPersistence P) now : option (ClientImpl P) :=
  let! cache := LoadCached context cache in
  Some (mkClientImpl config context (mkClientData cache (new_status_manager now)) None 0 [mkIdentifyParams now context]).

(** Tasks of the client's thread. *)
Inductive task : ClientImpl P → ClientImpl P → Prop :=
| task_start now c n :
    start_ops c = S n →
    task c (start_op now (mkClientImpl (config_ c) (context_ c) (client_data c) (data_source_ c) n (identify_events c)))
| task_poll p context p' d' c :
    data_source_ c = Some (PollingDataSource p context) → Client.step context (p, client_data c) (p', d') →
    task c (with_data d' (with_source (PollingDataSource p' context) c))
| task_message context type data now d' c :
    data_source_ c = Some (StreamingDataSource true context) →
    stream_receiver context type data now (client_data c) = Some d' → task c (with_data d' c)
| task_error context error message now c :
    data_source_ c = Some (StreamingDataSource true context) →
    task c (with_data (HandleErrorStateChange error message now (client_data c)) c).

(** The calls that return a promise, with it. *)
Inductive call : ClientImpl P → nat → ClientImpl P → Prop :=
| call_start now c reg c' : StartAsync now c = (reg, c') → call c reg c'
| call_identify context now c reg c' : IdentifyAsync context now c = Some (reg, c') → call c reg c'.

(** What happens to a client: tasks of its thread and calls of the application. *)
Inductive move : ClientImpl P → ClientImpl P → Prop :=
| move_task c c' : task c c' → move c c'
| move_call c reg c' : call c reg c' → move c c'.
End Lifecycle.

(** ** Lemmas: what is asked of the status *)

Definition online_op (op : @StatusOp ClientState.t) : Prop := requested op ≠ Some ClientState.kSetOffline.

(** The status is what operations that never ask for "offline" make of it. *)
Definition online (m m' : StatusManager ClientState.t) : Prop :=
  ∃ ops, m' = run_status ops m ∧ Forall (λ op, online_op op.1) ops.

Lemma online_refl m : online m m.
Proof. by exists []. Qed.

Lemma online_op_step op now m : online_op op → online m (status_step op now m).
Proof. intros Hop. exists [(op, now)]. split; [done|]. by repeat constructor. Qed.

Lemma online_trans m1 m2 m3 : online m1 m2 → online m2 m3 → online m1 m3.
Proof.
  intros (ops1 & -> & H1) (ops2 & -> & H2). exists (ops1 ++ ops2). split; [|by apply Forall_app].
  unfold run_status. by rewrite foldl_app.
Qed.

Ltac online_by op := apply (online_op_step op); done.

Section Facts.
Context `{X : Externals} `{B : BoostJson} `{J : JsonText} `{!HashOrder} `{!Sha256} `{!StdSort}.
Context {P : Type} `{!IPersistence P}.
Implicit Types (c : ClientImpl P) (d : ClientData P) (now : Z).

Lemma message_online context type data now d d' st :
  ClientSource.HandleMessage context type data now d = Some (d', st) → online (data_status d) (data_status d').
Proof.
  intros Hm. apply HandleMessage_outcome in Hm as [cmd s' _ _ ->|text _ _|_ _].
  - destruct (ClientSource.is_put cmd); [online_by (OpState ClientState.kValid)|apply online_refl].
  - online_by (@OpErrorKind ClientState.t StatusErrorKind.kInvalidData text).
  - apply online_refl.
Qed.

Lemma poll_online context res now p p' d d' :
  Client.HandlePollResult context res now (p, d) = Some (p', d') → online (data_status d) (data_status d').
Proof.
  unfold Client.HandlePollResult. destruct (same_etag res p); [intros [= _ <-]; apply online_refl|].
  destruct (res_IsError res).
  { intros [= _ <-]. online_by (OpStateKind ClientState.kInterrupted StatusErrorKind.kNetworkError (default "unknown error" (res_ErrorMessage res))). }
  destruct (res_Status res =? 200).
  { destruct (res_Body res) as [body|]; [|done]. destruct (ClientSource.HandleMessage _ _ _ _ _) as [[d1 st]|] eqn:Hm; [|done].
    intros [= _ <-]. by eapply message_online. }
  destruct (res_Status res =? 304); [intros [= _ <-]; apply online_refl|].
  destruct (IsRecoverableStatus (res_Status res)); intros [= _ <-].
  - online_by (OpStateCode ClientState.kInterrupted (res_Status res) (ErrorForStatusCode (res_Status res) "polling request" (Some "will retry"))).
  - online_by (OpStateCode ClientState.kShutdown (res_Status res) (ErrorForStatusCode (res_Status res) "polling request" None)).
Qed.

Lemma step_online context ps ps' : Client.step context ps ps' → online (data_status ps.2) (data_status ps'.2).
Proof.
  intros Hs. inversion Hs as [res now p d [p' d'] _ Hres|delay now p d _]; subst; [|apply online_refl].
  by eapply poll_online.
Qed.

Lemma error_online error message now d : online (data_status d) (data_status (HandleErrorStateChange error message now d)).
Proof.
  destruct error as [l| |t|code]; unfold HandleErrorStateChange; cbn [IsRecoverable].
  - online_by (OpStateKind ClientState.kShutdown StatusErrorKind.kNetworkError message).
  - online_by (OpStateKind ClientState.kShutdown StatusErrorKind.kNetworkError message).
  - online_by (OpStateKind ClientState.kInterrupted StatusErrorKind.kNetworkError message).
  - online_by (OpStateCode ClientState.kShutdown code message).
Qed.

(** A source that is not offline first asks for "initializing". *)
Lemma start_online ok src now d :
  src ≠ NullDataSource → online (SetState ClientState.kInitializing now (data_status d)) (data_status (source_Start ok src now d).2).
Proof.
  destruct src as [|p context|b context]; [done|..]; intros _; simpl.
  - destruct (po_valid p); simpl; [apply online_refl|].
    online_by (OpStateKind ClientState.kShutdown StatusErrorKind.kNetworkError (kNoEndpoint +:+ ".")).
  - destruct ok; simpl; [apply online_refl|].
    online_by (OpStateKind ClientState.kShutdown StatusErrorKind.kNetworkError kNoStreamEndpoint).
Qed.

Lemma make_online config context : cfg_Offline config = false → MakeDataSource config context ≠ NullDataSource.
Proof. intros Ho. unfold MakeDataSource. rewrite Ho. by destruct (cfg_streaming config). Qed.

Lemma start_op_online now c :
  cfg_Offline (config_ c) = false →
  online (SetState ClientState.kInitializing now (data_status (client_data c))) (data_status (client_data (start_op now c))).
Proof.
  intros Ho. unfold start_op. pose proof (start_online (cfg_endpoint_ok (config_ c)) (MakeDataSource (config_ c) (context_ c)) now
    (client_data c) (make_online _ _ Ho)) as Hs.
  by destruct (source_Start _ _ _ _).
Qed.

Lemma start_op_config now c : config_ (start_op now c) = config_ c.
Proof. unfold start_op. by destruct (source_Start _ _ _ _). Qed.

Lemma task_online c c' : cfg_Offline (config_ c) = false → task c c' →
  config_ c' = config_ c ∧ online (data_status (client_data c)) (data_status (client_data c')).
Proof.
  intros Ho Ht. destruct Ht as [now c n Hn|p context p' d' c Hsrc Hs|context type data now d' c Hsrc Hr|context error message now c Hsrc].
  - split; [by rewrite start_op_config|]. eapply online_trans; [|by apply start_op_online]. online_by (OpState ClientState.kInitializing).
  - split; [done|]. by apply step_online in Hs.
  - split; [done|]. unfold stream_receiver in Hr. destruct (ClientSource.HandleMessage _ _ _ _ _) as [[d1 st]|] eqn:Hm; [|done].
    injection Hr as <-. by eapply message_online.
  - split; [done|]. apply error_online.
Qed.

(** *** The promise of a client that is online *)

(** Nothing settled since the promise was made, or the first that did was an end of the
    initialization. *)
Definition promised (reg : nat) (m : StatusManager ClientState.t) : Prop :=
  (reg ≤ length (broadcasts_ m))%nat ∧
  ((sm_state_ m = ClientState.kInitializing ∧ head (filter settled (drop reg (broadcasts_ m))) = None) ∨
   ∃ s, head (filter settled (drop reg (broadcasts_ m))) = Some s ∧
     (status_state s = ClientState.kValid ∨ status_state s = ClientState.kShutdown)).

(** An operation changes the state and may broadcast it; it does when the state changes. *)
Lemma step_broadcasts op now (m : StatusManager ClientState.t) :
  let m' := status_step op now m in
  (broadcasts_ m' = broadcasts_ m ∧ sm_state_ m' = sm_state_ m) ∨
  ∃ s, broadcasts_ m' = broadcasts_ m ++ [s] ∧ status_state s = sm_state_ m'.
Proof.
  destruct op as [state|state code message|state kind message|kind message|code message]; simpl; try (right; by eexists).
  - unfold SetState, UpdateState. destruct (negb _) eqn:E; simpl; [right; by eexists|left]. by destruct m.
  - right. unfold SetStateCode, UpdateState. by destruct (negb _); eexists.
  - right. unfold SetStateKind, UpdateState. by destruct (negb _); eexists.
Qed.

Lemma filter_settled_snoc reg l s :
  (reg ≤ length l)%nat → filter settled (drop reg (l ++ [s])) = filter settled (drop reg l) ++ filter settled [s].
Proof. intros Hl. by rewrite drop_app_le, filter_app. Qed.

Lemma promised_step reg op now m : online_op op → promised reg m → promised reg (status_step op now m).
Proof.
  intros Hop [Hl Hp]. pose proof (status_step_state op now m) as Hst.
  destruct (step_broadcasts op now m) as [[Hb Hs]|(s & Hb & Hs)]; [unfold promised; by rewrite Hb, Hs|].
  unfold promised. rewrite Hb, filter_settled_snoc, length_app by done. split; [simpl; lia|].
  destruct Hp as [[Hi Hn]|(s0 & Hs0 & Hcase)]; [|right; exists s0; split; [|done]; by destruct (filter settled _); [done|]].
  assert (filter settled (drop reg (broadcasts_ m)) = []) as Hnil by (by destruct (filter settled _)). rewrite Hnil. simpl.
  rewrite Hi in Hst. rewrite Hst. destruct (decide (settled s)) as [Hset|Hset].
  - right. exists s. rewrite filter_cons_True by done. split; [done|]. unfold settled in Hset. rewrite Hs, Hst in *.
    unfold online_op in Hop. destruct (requested op) as [[]|]; try done; auto.
  - left. rewrite filter_cons_False by done. split; [|done]. unfold settled in Hset. rewrite Hs, Hst in Hset. by apply dec_stable.
Qed.

Lemma promised_online reg m m' : promised reg m → online m m' → promised reg m'.
Proof.
  intros Hp (ops & -> & Hops). revert m Hp. induction Hops as [|[op now] ops Hop _ IH]; intros m Hp; [done|].
  cbn [run_status foldl fst snd]. apply IH. by apply promised_step.
Qed.

(** Nothing that was broadcast since settles a promise. *)
Definition open_since (reg : nat) (m : StatusManager ClientState.t) : Prop :=
  (reg ≤ length (broadcasts_ m))%nat ∧ filter settled (drop reg (broadcasts_ m)) = [].

Lemma open_since_fresh m : open_since (length (broadcasts_ m)) m.
Proof. split; [done|]. by rewrite drop_all. Qed.

Lemma promised_initializing reg now m : open_since reg m → promised reg (SetState ClientState.kInitializing now m).
Proof.
  intros [Hl Hnil]. pose proof (status_step_state (OpState ClientState.kInitializing) now m) as Hst. cbn [status_step requested] in Hst.
  unfold promised. destruct (step_broadcasts (OpState ClientState.kInitializing) now m) as [[Hb Hs]|(s & Hb & Hs)];
    cbn [status_step] in *; rewrite Hb, Hst.
  - split; [done|]. left. by rewrite Hnil.
  - rewrite length_app. split; [lia|]. left. split; [done|]. rewrite filter_settled_snoc, Hnil by done.
    rewrite filter_cons_False; [done|]. unfold settled. rewrite Hs, Hst. intros Hn. by apply Hn.
Qed.

(** *** Clients that are online *)

(** The source of a client that is online: a stream without a client is one whose endpoint
    could not be parsed, and has shut the client down. *)
Definition sourced c : Prop :=
  cfg_Offline (config_ c) = false ∧ data_source_ c ≠ Some NullDataSource ∧
  ∀ context, data_source_ c = Some (StreamingDataSource false context) →
    cfg_streaming (config_ c) = true ∧ cfg_endpoint_ok (config_ c) = false ∧
    sm_state_ (data_status (client_data c)) = ClientState.kShutdown.

Lemma start_op_sourced now c : cfg_Offline (config_ c) = false → sourced (start_op now c).
Proof.
  intros Ho. unfold sourced. rewrite start_op_config. split; [done|]. unfold start_op, MakeDataSource. rewrite Ho.
  destruct (cfg_streaming (config_ c)) eqn:Es; simpl.
  - destruct (cfg_endpoint_ok (config_ c)) eqn:Ee; simpl; [by split|]. split; [done|]. intros context' _.
    split_and!; [done..|]. etrans; [|done].
    exact (status_step_state (OpStateKind ClientState.kShutdown StatusErrorKind.kNetworkError kNoStreamEndpoint) now
      (SetState ClientState.kInitializing now (data_status (client_data c)))).
  - by destruct (cfg_endpoint_ok (config_ c)).
Qed.

Lemma restart_sourced now c : sourced c → sourced (RestartDataSource now c).
Proof.
  intros (Ho & Hn & Hs). unfold RestartDataSource.
  destruct (data_source_ c) as [[|p context|[] context]|] eqn:Hsrc; [done|..|by apply start_op_sourced]; simpl.
  - by split_and!.
  - by split_and!.
  - split_and!; [done|done|]. intros context' _. by apply (Hs context).
Qed.

Lemma task_sourced c c' : sourced c → task c c' → sourced c'.
Proof.
  intros (Ho & Hn & Hs) Ht.
  destruct Ht as [now c n _|p context p' d' c Hsrc _|context type data now d' c Hsrc _|context error message now c Hsrc];
    [by apply start_op_sourced|..]; unfold sourced; cbn [with_data with_source config_ data_source_ client_data];
    rewrite ?Hsrc; by split_and!.
Qed.

(** A call is a restart of a client with the same source and status. *)
Lemma call_restart c reg c' :
  call c reg c' → ∃ now c0, c' = RestartDataSource now c0 ∧ reg = length (broadcasts_ (data_status (client_data c))) ∧
    config_ c0 = config_ c ∧ data_source_ c0 = data_source_ c ∧ start_ops c0 = start_ops c ∧
    data_status (client_data c0) = data_status (client_data c).
Proof.
  intros Hc. destruct Hc as [now c reg c' Hst|context now c reg c' Hid].
  - injection Hst as <- <-. by exists now, c.
  - unfold IdentifyAsync in Hid. destruct (LoadCached _ _) as [cache|]; [|done]. cbn [tbind] in Hid.
    unfold StartAsyncInternal in Hid. injection Hid as <- <-. by eexists now, _.
Qed.

Lemma move_sourced c c' : sourced c → move c c' → sourced c'.
Proof.
  intros Hs Hm. destruct Hm as [c c' Ht|c reg c' (now & c0 & -> & _ & Hcfg & Hsrc & _ & Hst)%call_restart];
    [by eapply task_sourced|]. apply restart_sourced. unfold sourced. by rewrite Hcfg, Hsrc, Hst.
Qed.

(** *** What becomes of a promise *)

(** The promise is open, and the client, which has been shut down because the endpoint of the
    stream could not be parsed, still has to start its new source. *)
Definition unstarted (reg : nat) c : Prop :=
  open_since reg (data_status (client_data c)) ∧ (∃ context, data_source_ c = Some (StreamingDataSource false context)) ∧
  start_ops c ≠ 0%nat.

Definition kept (reg : nat) c : Prop := promised reg (data_status (client_data c)) ∨ unstarted reg c.

Lemma restart_kept reg now c :
  sourced c → open_since reg (data_status (client_data c)) → kept reg (RestartDataSource now c).
Proof.
  intros (Ho & Hn & _) Hop. unfold kept, unstarted, RestartDataSource.
  destruct (data_source_ c) as [[|p context|[] context]|] eqn:Hsrc; [done|..].
  - left. by apply promised_initializing.
  - left. by apply promised_initializing.
  - right. simpl. split_and!; [done|by eexists|done].
  - left. eapply promised_online; [by apply promised_initializing|by apply start_op_online].
Qed.

Lemma restart_online now c :
  cfg_Offline (config_ c) = false → online (data_status (client_data c)) (data_status (client_data (RestartDataSource now c))).
Proof.
  intros Ho. unfold RestartDataSource. destruct (data_source_ c) as [[|p context|[] context]|]; simpl; try apply online_refl;
    try online_by (OpState ClientState.kInitializing).
  eapply online_trans; [|by apply start_op_online]. online_by (OpState ClientState.kInitializing).
Qed.

Lemma move_kept reg c c' : sourced c → kept reg c → move c c' → kept reg c'.
Proof.
  intros Hs [Hp|(Hop & [context Hsrc] & Hops)] Hm.
  - left. destruct Hm as [c c' Ht|c r c' (now & c0 & -> & _ & Hcfg & _ & _ & Hst)%call_restart].
    + eapply promised_online; [done|]. by eapply task_online; [apply Hs|].
    + rewrite <- Hst in Hp. eapply promised_online; [done|]. apply restart_online. rewrite Hcfg. apply Hs.
  - destruct Hm as [c c' Ht|c r c' (now & c0 & -> & _ & Hcfg & Hsrc0 & Hops0 & Hst)%call_restart].
    + destruct Ht as [now c n Hn|p cx p' d' c Hsrc' _|cx type data now d' c Hsrc' _|cx error message now c Hsrc'];
        [|congruence..].
      left. eapply promised_online; [by apply (promised_initializing _ now)|].
      apply (start_op_online now (mkClientImpl _ _ (client_data c) _ _ _)), Hs.
    + apply restart_kept; [unfold sourced; by rewrite Hcfg, Hsrc0, Hst|by rewrite Hst].
Qed.

Lemma moves_kept reg c c' : sourced c → kept reg c → rtc move c c' → sourced c' ∧ kept reg c'.
Proof.
  intros Hs Hk Hm. induction Hm as [|c c1 c2 Hm _ IH]; [done|].
  apply IH; [by eapply move_sourced|by eapply move_kept].
Qed.

Lemma moves_sourced c c' : sourced c → rtc move c c' → sourced c'.
Proof. intros Hs Hm. induction Hm as [|c c1 c2 Hm _ IH]; [done|]. by apply IH; eapply move_sourced. Qed.

Lemma new_client_sourced config context cache now c :
  cfg_Offline config = false → new_client config context cache now = Some c → sourced c.
Proof.
  intros Ho Hnew. unfold new_client in Hnew. destruct (LoadCached context cache) as [cache'|]; [|done].
  injection Hnew as <-. by split_and!.
Qed.

Lemma call_kept c reg c' : sourced c → call c reg c' → sourced c' ∧ kept reg c'.
Proof.
  intros Hs Hc. split; [by eapply move_sourced, move_call|].
  apply call_restart in Hc as (now & c0 & -> & -> & Hcfg & Hsrc & _ & Hst).
  apply restart_kept; [unfold sourced; by rewrite Hcfg, Hsrc, Hst|]. rewrite Hst. apply open_since_fresh.
Qed.

(** *** The promise of a client that is offline *)

Definition stays_offline (m : StatusManager ClientState.t) c : Prop :=
  cfg_Offline (config_ c) = true ∧ data_source_ c = Some NullDataSource ∧ data_status (client_data c) = m ∧
  sm_state_ m = ClientState.kSetOffline.

Lemma SetState_same (m : StatusManager ClientState.t) now :
  sm_state_ m = ClientState.kSetOffline → SetState ClientState.kSetOffline now m = m.
Proof. intros Hm. unfold SetState, UpdateState. by rewrite Hm. Qed.

Lemma task_offline m c c' : stays_offline m c → task c c' → stays_offline m c'.
Proof.
  intros (Ho & Hsrc & Hm & Hst) Ht.
  destruct Ht as [now c n Hn|p context p' d' c Hs _|context type data now d' c Hs _|context error message now c Hs];
    [|congruence..].
  unfold start_op, MakeDataSource. cbn [config_ context_ client_data]. rewrite Ho. simpl. split_and!; [done|done| |done].
  simpl. rewrite Hm. by apply SetState_same.
Qed.
End Facts.

(** ** Theorems *)

(** C33: a promise of a client that is online tells how the initialization ended.  Take a
    client made with a configuration that is not offline, after any calls of StartAsync and
    IdentifyAsync and any tasks of its thread, and a promise that one more such call returns.
    From that call on, whatever tasks and further calls follow: (1) the promise is open and
    the client is initializing; or (2) it is open, the client streams from an endpoint that
    cannot be parsed, its state is still the "shutdown" of the source before, and the start of
    the new source has yet to run; or (3) it is "true", and the first state broadcast since
    the call that was not "initializing" was "valid"; or (4) it is "false", and that state
    was "shutdown".  No error that the client recovers from settles it. *)
Theorem identify_promise `{X : Externals} `{B : BoostJson} `{J : JsonText} `{!HashOrder} `{!Sha256} `{!StdSort}
  {P} `{!IPersistence P} (config : Config) (context : Context) (cache : FlagPersistence P) (t0 : Z)
  (c0 c c1 c2 : ClientImpl P) (reg : nat) :
  cfg_Offline config = false → new_client config context cache t0 = Some c0 → rtc move c0 c →
  call c reg c1 → rtc move c1 c2 →
  let first := head (filter settled (drop reg (broadcasts_ (data_status (client_data c2))))) in
  let state := sm_state_ (data_status (client_data c2)) in
  (promise_value reg c2 = None ∧ state = ClientState.kInitializing) ∨
  (promise_value reg c2 = None ∧ state = ClientState.kShutdown ∧ start_ops c2 ≠ 0%nat ∧
     cfg_streaming (config_ c2) = true ∧ cfg_endpoint_ok (config_ c2) = false) ∨
  (promise_value reg c2 = Some true ∧ status_state <$> first = Some ClientState.kValid) ∨
  (promise_value reg c2 = Some false ∧ status_state <$> first = Some ClientState.kShutdown).
Proof.
  intros Ho Hnew Hm Hc Hm2 first state. pose proof (new_client_sourced _ _ _ _ _ Ho Hnew) as Hs0.
  destruct (call_kept c reg c1) as [Hs1 Hk1]; [by eapply moves_sourced|done|].
  destruct (moves_kept reg c1 c2 Hs1 Hk1 Hm2) as [(_ & _ & Hs2) [[_ Hp]|([_ Hnil] & [cx Hsrc] & Hops)]].
  - unfold promise_value. fold first. fold first in Hp. clearbody first.
    destruct Hp as [[Hi ->]|(s & -> & [Hs|Hs])]; [by left|do 2 right; left|do 3 right]; simpl; by rewrite Hs.
  - right; left. destruct (Hs2 cx Hsrc) as (? & ? & ?). unfold promise_value. by rewrite Hnil.
Qed.

(** Offline, a second promise is never kept.  Starting an offline client resolves its
    promise with "true"; but the promise of an [IdentifyAsync] after that stays open for
    ever, whatever the client's thread does: the source that replaces the other asks for the
    state that it finds, so that no listener is told anything. *)
Theorem offline_identify_unresolved `{X : Externals} `{B : BoostJson} `{J : JsonText} `{!HashOrder} `{!Sha256} `{!StdSort}
  {P} `{!IPersistence P} (config : Config) (context context' : Context) (cache : FlagPersistence P) (t0 t1 t2 : Z)
  (c0 c1 c2 c3 c4 : ClientImpl P) (r0 reg : nat) :
  cfg_Offline config = true → new_client config context cache t0 = Some c0 → StartAsync t1 c0 = (r0, c1) →
  rtc task c1 c2 → IdentifyAsync context' t2 c2 = Some (reg, c3) → rtc task c3 c4 →
  promise_value r0 c1 = Some true ∧ promise_value reg c4 = None.
Proof.
  intros Ho Hnew Hstart Ht1 Hid Ht2. unfold new_client in Hnew. destruct (LoadCached context cache) as [cache'|]; [|done].
  injection Hnew as <-. unfold StartAsync, StartAsyncInternal, RestartDataSource, start_op, MakeDataSource in Hstart.
  cbn [data_source_ config_ client_data] in Hstart. rewrite Ho in Hstart. injection Hstart as <- Hc1.
  assert (∃ m, stays_offline m c1) as [m Hm].
  { exists (data_status (client_data c1)). rewrite <- Hc1. by split_and!. }
  split; [by rewrite <- Hc1|].
  assert (∀ c c', stays_offline m c → rtc task c c' → stays_offline m c') as Hrun.
  { intros c c' Hc Ht. induction Ht as [|x y z Hs _ IH]; [done|]. apply IH. by eapply task_offline. }
  pose proof (Hrun _ _ Hm Ht1) as (Ho2 & Hsrc2 & Hst2 & Hm2). unfold IdentifyAsync in Hid.
  destruct (LoadCached context' _) as [cache2|]; [|done]. cbn [tbind] in Hid. unfold StartAsyncInternal in Hid.
  injection Hid as <- Hc3. cbn [client_data data_status]. unfold RestartDataSource in Hc3. cbn [data_source_] in Hc3.
  rewrite Hsrc2 in Hc3. simpl in Hc3. assert (stays_offline m c3) as Hm3 by (rewrite <- Hc3; by split_and!).
  destruct (Hrun _ _ Hm3 Ht2) as (_ & _ & Hst4 & _). unfold promise_value. by rewrite Hst4, Hst2, drop_all.
Qed.

(** ** Examples *)

Section Example.
#[local] Existing Instance reference_boost_json.
#[local] Existing Instance reference_text.
#[local] Existing Instance reference_sha256.
#[local] Existing Instance reference_sort.

Abbreviation Example_ := (ClientImpl (gmap (string * string) string)).

Definition user (key : string) : Context := CB_Build (CB_Kind "user" key []).

Definition empty_client (offline : bool) : Example_ :=
  mkClientImpl (mkConfig offline false 30 30 true) (user "alice")
    (mkClientData (mkCache new_updater None EmptyString 5) (new_status_manager 0)) None 0 [mkIdentifyParams 0 (user "alice")].

Lemma empty_client_new offline :
  new_client (mkConfig offline false 30 30 true) (user "alice")
    (mkCache (P := gmap (string * string) string) new_updater None EmptyString 5) 0 = Some (empty_client offline).
Proof. done. Qed.

(** A client that polls for Alice, and identifies Bob before the answer has come. *)
Definition identifying : nat * Example_ :=
  default (0%nat, empty_client false) (IdentifyAsync (user "bob") 2 (StartAsync 1 (empty_client false)).2).

Definition answer_for_alice : HttpResponse := mkHttpResponse false None 200 (Some (flag_text true)) [].

(** The client after the answer. *)
Definition answered_client : Example_ :=
  let c := identifying.2 in
  match data_source_ c with
  | Some (PollingDataSource p context) =>
      match Client.HandlePollResult context answer_for_alice 3 (answered p, client_data c) with
      | Some (p, d) => with_data d (with_source (PollingDataSource p context) c)
      | None => c
      end
  | _ => c
  end.

Lemma answer_task : task identifying.2 answered_client.
Proof.
  set (p := mkPoller 30 true None None 1 1 None).
  set (ps := default (p, client_data identifying.2)
    (Client.HandlePollResult (user "alice") answer_for_alice 3 (answered p, client_data identifying.2))).
  change answered_client with (with_data ps.2 (with_source (PollingDataSource ps.1 (user "alice")) identifying.2)).
  eapply (task_poll p); [vm_compute; reflexivity|].
  eapply (Client.step_result _ answer_for_alice 3); [done|].
  rewrite <- (surjective_pairing ps). apply (returns (p, client_data identifying.2)). vm_compute. reflexivity.
Qed.

(** The answer to the request for Alice's flags resolves the promise of the call that
    identified Bob: his client is said to be initialized, with her flags. *)
Lemma identify_promise_witness :
  promise_value identifying.1 answered_client = Some true ∧ context_ answered_client = user "bob" ∧
  (λ r, value_ (er_detail r)) <$> (flag_store_ (cache_sink_ (data_cache (client_data answered_client))) !! "a" ≫= item) = Some (VBool true).
Proof.
  split; [|split; vm_compute; reflexivity].
  destruct (identify_promise (mkConfig false false 30 30 true) (user "alice") (mkCache new_updater None EmptyString 5) 0
    (empty_client false) (StartAsync 1 (empty_client false)).2 identifying.2 answered_client identifying.1)
    as [[Hv _]|[[Hv _]|[[Hv _]|[Hv _]]]]; [reflexivity|reflexivity| | | | | |exact Hv|].
  - eapply rtc_once, move_call, (call_start 1). reflexivity.
  - apply (call_identify (user "bob") 2). vm_compute. reflexivity.
  - apply rtc_once, move_task, answer_task.
  - exfalso. vm_compute in Hv. discriminate.
  - exfalso. vm_compute in Hv. discriminate.
  - exfalso. vm_compute in Hv. discriminate.
Defined.

Definition offline_identifying : nat * Example_ :=
  default (0%nat, empty_client true) (IdentifyAsync (user "bob") 2 (StartAsync 1 (empty_client true)).2).

Lemma offline_identify_unresolved_witness :
  promise_value 0 (StartAsync 1 (empty_client true)).2 = Some true ∧
  promise_value offline_identifying.1 offline_identifying.2 = None.
Proof.
  apply (offline_identify_unresolved (mkConfig true false 30 30 true) (user "alice") (user "bob")
    (mkCache new_updater None EmptyString 5) 0 1 2 (empty_client true) (StartAsync 1 (empty_client true)).2
    (StartAsync 1 (empty_client true)).2 offline_identifying.2 offline_identifying.2 0 offline_identifying.1);
    [reflexivity|reflexivity|reflexivity|apply rtc_refl|vm_compute; reflexivity|apply rtc_refl].
Defined.
End Example.
