(* ===== verification/SseClient.v ===== *)
(** * The event stream client

    libs/server-sent-events/src/client.cpp ([FoxyClient] and [Builder::build]): connecting,
    reading the response, reconnecting after a delay, redirects, shutdown.

    The client lives on one strand.  Its asynchronous operations (connect, write, read the
    headers, read some of the body, wait for the timer) and the handlers it posts are entries
    of a list: the network completes an entry, and a completed entry is run, in any order.
    The timed operations of vendor/foxy (detail/timed_op_wrapper_v3.hpp) close the stream when
    their time is up, so that a timeout completes the operation with [operation_aborted], as a
    cancellation does.  Boost.Beast and Boost.URL are a class of functions. *)

From S2P Require Import Prelude Doubles Sse Backoff Externals Fdv2Sources.
From Stdlib Require Import SpecFloat.

(** ** Requests and responses *)

Inductive verb := v_get | v_post | v_report | v_other (name : string).

#[global] Instance verb_eq_dec : EqDecision verb.
Proof. solve_decision. Defined.

Record Request := mkRequest {
  rq_method : verb;
  rq_target : string;
  rq_fields : list (string * string);
  rq_body : string;
}.

Record Response := mkResponse { rs_status : Z; rs_fields : list (string * string) }.

(** [basic_fields::erase] and [basic_fields::set], which erases first. *)
Definition erase_field (name : string) (fs : list (string * string)) : list (string * string) :=
  filter (λ kv, negb (iequals kv.1 name) = true) fs.

Definition set_field (name value : string) (fs : list (string * string)) : list (string * string) :=
  erase_field name fs ++ [(name, value)].

Definition with_fields (f : list (string * string) → list (string * string)) (r : Request) : Request :=
  mkRequest (rq_method r) (rq_target r) (f (rq_fields r)) (rq_body r).

Definition with_target (t : string) (r : Request) : Request :=
  mkRequest (rq_method r) t (rq_fields r) (rq_body r).

(** The parts of a [boost::urls::url] that the client reads. *)
Record Url := mkUrl { u_scheme : option string; u_host : string; u_port : option string; u_target : string }.

(** Boost.Beast and Boost.URL. *)
Class Web := {
  parse_uri : string → option Url;
  resolve_url : string → Url → option Url;
  prepare_payload : Request → Request;
  known_status : Z → bool;
  obsolete_reason : Z → string;
}.

(** What is documented of them: a parsed URI has a scheme, and preparing the payload touches
    the fields of the body only. *)
Class WebLaws (W : Web) : Prop := {
  parse_uri_scheme s u : parse_uri s = Some u → is_Some (u_scheme u);
  prepare_payload_target r : rq_target (prepare_payload r) = rq_target r;
}.

Definition kNoTimeout : Z := 31536000000.
Definition kDefaultInitialReconnectDelay : Z := 1000.
Definition kDefaultMaxBackoffDelay : Z := 30000.

Inductive ErrorCode := operation_aborted | OtherError (what : string).

Definition ec_what (ec : ErrorCode) : string :=
  match ec with operation_aborted => "Operation canceled" | OtherError what => what end.

(** [http::response_parser<body>] *)
Record BodyParser := mkBodyParser { bp_reader : Reader; bp_header : option Response; bp_done : bool }.

Definition new_parser : BodyParser := mkBodyParser new_reader None false.

(** ** State *)

Inductive Handler :=
| HRun
| HRestart (reason : string)
| HShutdown
| HBackoff
| HConnect
| HWrite
| HHeaders
| HRead.

(** An asynchronous operation or a posted handler: outstanding ([None]), or complete with or
    without an error.  A timed operation has the timeout of its session. *)
Record Pending := mkPending { p_handler : Handler; p_timeout : option Z; p_result : option (option ErrorCode) }.

(** What the client does to the outside. *)
Inductive Effect :=
| EConnect (host port : string)
| EWrite (req : Request)
| EResponse (res : Response)
| EEvent (e : SseEvent)
| EError (e : SseError)
| EDelay (reason : string) (delay : option Z)
| EShutdown.

Record FoxyClient := mkFoxy {
  host_ : string;
  port_ : string;
  connect_timeout_ : option Z;
  read_timeout_ : option Z;
  write_timeout_ : option Z;
  req_ : Request;
  body_parser_ : BodyParser;
  session_timeout_ : Z;
  fx_last_event_id_ : option text;
  backoff_ : Backoff;
  shutting_down_ : bool;
  pending : list Pending;
  effects : list Effect;
}.

Definition with_net (f : list Pending → list Pending) (out : list Effect) (c : FoxyClient) : FoxyClient :=
  mkFoxy (host_ c) (port_ c) (connect_timeout_ c) (read_timeout_ c) (write_timeout_ c) (req_ c) (body_parser_ c)
    (session_timeout_ c) (fx_last_event_id_ c) (backoff_ c) (shutting_down_ c) (f (pending c)) (effects c ++ out).

Definition start_op (h : Handler) (c : FoxyClient) : list Pending → list Pending :=
  λ ps, ps ++ [mkPending h (Some (session_timeout_ c)) None].

Definition post (h : Handler) (c : FoxyClient) : FoxyClient :=
  with_net (λ ps, ps ++ [mkPending h None (Some None)]) [] c.

Definition emit (e : Effect) (c : FoxyClient) : FoxyClient := with_net id [e] c.

Definition with_req (r : Request) (c : FoxyClient) : FoxyClient :=
  mkFoxy (host_ c) (port_ c) (connect_timeout_ c) (read_timeout_ c) (write_timeout_ c) r (body_parser_ c)
    (session_timeout_ c) (fx_last_event_id_ c) (backoff_ c) (shutting_down_ c) (pending c) (effects c).

Definition with_address (host port : string) (c : FoxyClient) : FoxyClient :=
  mkFoxy host port (connect_timeout_ c) (read_timeout_ c) (write_timeout_ c) (req_ c) (body_parser_ c)
    (session_timeout_ c) (fx_last_event_id_ c) (backoff_ c) (shutting_down_ c) (pending c) (effects c).

Definition with_timeout (t : Z) (c : FoxyClient) : FoxyClient :=
  mkFoxy (host_ c) (port_ c) (connect_timeout_ c) (read_timeout_ c) (write_timeout_ c) (req_ c) (body_parser_ c)
    t (fx_last_event_id_ c) (backoff_ c) (shutting_down_ c) (pending c) (effects c).

Definition with_parser (p : BodyParser) (c : FoxyClient) : FoxyClient :=
  mkFoxy (host_ c) (port_ c) (connect_timeout_ c) (read_timeout_ c) (write_timeout_ c) (req_ c) p
    (session_timeout_ c) (fx_last_event_id_ c) (backoff_ c) (shutting_down_ c) (pending c) (effects c).

Definition with_backoff (b : Backoff) (c : FoxyClient) : FoxyClient :=
  mkFoxy (host_ c) (port_ c) (connect_timeout_ c) (read_timeout_ c) (write_timeout_ c) (req_ c) (body_parser_ c)
    (session_timeout_ c) (fx_last_event_id_ c) b (shutting_down_ c) (pending c) (effects c).

Definition with_last_id (id : option text) (c : FoxyClient) : FoxyClient :=
  mkFoxy (host_ c) (port_ c) (connect_timeout_ c) (read_timeout_ c) (write_timeout_ c) (req_ c) (body_parser_ c)
    (session_timeout_ c) id (backoff_ c) (shutting_down_ c) (pending c) (effects c).

Definition set_shutting_down (c : FoxyClient) : FoxyClient :=
  mkFoxy (host_ c) (port_ c) (connect_timeout_ c) (read_timeout_ c) (write_timeout_ c) (req_ c) (body_parser_ c)
    (session_timeout_ c) (fx_last_event_id_ c) (backoff_ c) true (pending c) (effects c).

(** Cancelling completes the outstanding operations of the stream, or the wait of the timer. *)
Definition is_stream_op (h : Handler) : bool :=
  match h with HConnect | HWrite | HHeaders | HRead => true | _ => false end.

Definition is_timer (h : Handler) : bool := match h with HBackoff => true | _ => false end.

Definition cancel (which : Handler → bool) (p : Pending) : Pending :=
  match p_result p with
  | None => if which (p_handler p) then mkPending (p_handler p) (p_timeout p) (Some (Some operation_aborted)) else p
  | Some _ => p
  end.

Definition cancel_all (which : Handler → bool) (c : FoxyClient) : FoxyClient := with_net (map (cancel which)) [] c.

(** Replacing the session destroys the old stream, which cancels its operations. *)
Definition create_session (c : FoxyClient) : FoxyClient :=
  with_timeout (default kNoTimeout (connect_timeout_ c)) (cancel_all is_stream_op c).

Definition create_parser (c : FoxyClient) : FoxyClient := with_parser new_parser c.

Section Client.
Context {W : Web} (connection_hook_ : option (Request → Request)) (response_hook_ : bool).
Implicit Types (c : FoxyClient).

(** ** Handlers *)

Definition keep_last_id c : FoxyClient :=
  match last_event_id_ (bp_reader (body_parser_ c)) with
  | Some (a :: id) => with_last_id (Some (a :: id)) c
  | _ => c
  end.

Definition async_backoff (reason : string) (now : Z) (draw : double) c : FoxyClient :=
  let c := with_backoff (fail now (backoff_ c)) c in
  let c := keep_last_id c in
  let c := create_session c in
  let c := create_parser c in
  let c := cancel_all is_timer c in
  with_net (λ ps, ps ++ [mkPending HBackoff None None]) [EDelay reason (delay (λ _, draw) (backoff_ c))] c.

Definition do_run c : FoxyClient :=
  if shutting_down_ c then c
  else
    let c := match connection_hook_ with Some hook => with_req (hook (req_ c)) c | None => c end in
    let c := with_req (prepare_payload (req_ c)) c in
    with_net (start_op HConnect c) [EConnect (host_ c) (port_ c)] c.

Definition on_backoff (ec : option ErrorCode) c : FoxyClient :=
  match ec with Some operation_aborted => c | _ => do_run c end.

Definition do_restart (reason : string) (now : Z) (draw : double) c : FoxyClient :=
  async_backoff reason now draw (cancel_all is_stream_op c).

Definition on_connect (ec : option ErrorCode) (now : Z) (draw : double) c : FoxyClient :=
  match ec with
  | Some operation_aborted => c
  | Some ec => async_backoff (ec_what ec) now draw c
  | None =>
      let c := with_req (with_fields (match fx_last_event_id_ c with
                                      | Some id => set_field "last-event-id" (of_chars id)
                                      | None => erase_field "last-event-id"
                                      end) (req_ c)) c in
      let c := with_timeout (default kNoTimeout (write_timeout_ c)) c in
      with_net (start_op HWrite c) [EWrite (req_ c)] c
  end.

Definition on_write (ec : option ErrorCode) (now : Z) (draw : double) c : FoxyClient :=
  match ec with
  | Some operation_aborted => c
  | Some ec => async_backoff (ec_what ec) now draw c
  | None =>
      let c := with_timeout (default kNoTimeout (read_timeout_ c)) c in
      with_net (start_op HHeaders c) [] c
  end.

(** [response.result()] is [unknown] (0) for a code Beast does not know, and so is its class. *)
Definition result (r : Response) : Z := if known_status (rs_status r) then rs_status r else 0.
Definition status_class (status : Z) : Z := status / 100.

Definition recoverable_client_error (status : Z) : bool := (status =? 400) || (status =? 408) || (status =? 429).

Definition correct_content_type (r : Response) : bool :=
  match find_header "content-type" (rs_fields r) with
  | Some v => match String.index 0 "text/event-stream" v with Some _ => true | None => false end
  | None => false
  end.

Definition can_redirect (r : Response) : bool :=
  ((result r =? 301) || (result r =? 307)) &&
  match find_header "location" (rs_fields r) with Some _ => true | None => false end.

Definition redirect_url (orig_base orig_location : string) : option Url :=
  match parse_uri orig_location with
  | None => None
  | Some location =>
      match u_scheme location with
      | Some _ => Some location
      | None => resolve_url orig_base location
      end
  end.

Definition backoff_reason (status : Z) : string :=
  "HTTP status " +:+ to_string status +:+ " (" +:+ obsolete_reason status +:+ ")".

(** The address and the request after a redirect. *)
Definition follow (u : Url) c : FoxyClient :=
  let c := with_address (u_host u) (match u_port u with Some p => p | None => default EmptyString (u_scheme u) end) c in
  with_req (with_target (u_target u) (with_fields (set_field "Host" (u_host u)) (req_ c))) c.

Definition on_headers (ec : option ErrorCode) (now : Z) (draw : double) c : FoxyClient :=
  match ec with
  | Some operation_aborted => c
  | Some ec => async_backoff (ec_what ec) now draw c
  | None =>
      match bp_header (body_parser_ c) with
      | None => with_net (start_op HHeaders c) [] c
      | Some response =>
          let c := if response_hook_ then emit (EResponse response) c else c in
          let class := status_class (result response) in
          if class =? 2 then
            if result response =? 204 then emit (EError (UnrecoverableClientError 204)) c
            else if negb (correct_content_type response) then async_backoff "invalid Content-Type" now draw c
            else
              let c := with_backoff (succeed now (backoff_ c)) c in
              with_net (start_op HRead c) [] c
          else if class =? 3 then
            if can_redirect response then
              let location := default EmptyString (find_header "location" (rs_fields response)) in
              match redirect_url "base" location with
              | None => emit (EError (InvalidRedirectLocation location)) c
              | Some u => async_backoff (backoff_reason (result response)) now draw (follow u c)
              end
            else emit (EError NotRedirectable) c
          else if class =? 4 then
            if recoverable_client_error (result response) then async_backoff (backoff_reason (result response)) now draw c
            else emit (EError (UnrecoverableClientError (result response))) c
          else async_backoff (backoff_reason (result response)) now draw c
      end
  end.

Definition on_read_body (ec : option ErrorCode) (now : Z) (draw : double) c : FoxyClient :=
  match ec with
  | Some ec =>
      if shutting_down_ c then c
      else
        match ec with
        | operation_aborted =>
            async_backoff "aborting read of response body (timeout)" now draw (emit (EError (ReadTimeout (read_timeout_ c))) c)
        | OtherError what => async_backoff what now draw c
        end
  | None =>
      if bp_done (body_parser_ c) then async_backoff "receiving final chunk" now draw c
      else with_net (start_op HRead c) [] c
  end.

Definition do_shutdown c : FoxyClient :=
  emit EShutdown (cancel_all is_stream_op (cancel_all is_timer (set_shutting_down c))).

Definition run_handler (h : Handler) (ec : option ErrorCode) (now : Z) (draw : double) c : FoxyClient :=
  match h with
  | HRun => do_run c
  | HRestart reason => do_restart reason now draw c
  | HShutdown => do_shutdown c
  | HBackoff => on_backoff ec c
  | HConnect => on_connect ec now draw c
  | HWrite => on_write ec now draw c
  | HHeaders => on_headers ec now draw c
  | HRead => on_read_body ec now draw c
  end.

(** ** The strand and the network *)

(** How the network completes an operation. *)
Inductive Completion :=
| COk
| CHeaders (r : option Response)
| CBody (data : text) (is_done : bool)
| CError (ec : ErrorCode).

Inductive Action :=
| AsyncConnect
| AsyncRestart (reason : string)
| AsyncShutdown
| Complete (i : nat) (r : Completion)
| Run (i : nat) (now : Z) (draw : double).

Definition finish (i : nat) (p : Pending) (ec : option ErrorCode) c : FoxyClient :=
  with_net (λ ps, <[i := mkPending (p_handler p) (p_timeout p) (Some ec)]> ps) [] c.

(** The parser receives the bytes of the body, and its events go to the receiver. *)
Definition feed (data : text) (is_done : bool) c : FoxyClient :=
  let r := bp_reader (body_parser_ c) in
  let r' := put data r in
  with_net id (EEvent <$> drop (length (emitted r)) (emitted r'))
    (with_parser (mkBodyParser r' (bp_header (body_parser_ c)) is_done) c).

Definition complete (i : nat) (r : Completion) c : FoxyClient :=
  match pending c !! i with
  | Some p =>
      match p_result p, p_handler p, r with
      | None, HBackoff, COk => finish i p None c
      | None, (HConnect | HWrite), COk => finish i p None c
      | None, HHeaders, CHeaders r =>
          finish i p None (with_parser (mkBodyParser (bp_reader (body_parser_ c)) r (bp_done (body_parser_ c))) c)
      | None, HRead, CBody data is_done => finish i p None (feed data is_done c)
      | None, (HConnect | HWrite | HHeaders | HRead), CError ec => finish i p (Some ec) c
      | _, _, _ => c
      end
  | None => c
  end.

Definition act (c : FoxyClient) (a : Action) : FoxyClient :=
  match a with
  | AsyncConnect => post HRun c
  | AsyncRestart reason => post (HRestart reason) c
  | AsyncShutdown => post HShutdown c
  | Complete i r => complete i r c
  | Run i now draw =>
      match pending c !! i with
      | Some p =>
          match p_result p with
          | Some ec => run_handler (p_handler p) ec now draw (with_net (delete i) [] c)
          | None => c
          end
      | None => c
      end
  end.

End Client.

(** [FoxyClient::FoxyClient]: [None] when the backoff's exponent is undefined. *)
Definition new_client (req : Request) (host port : string) (connect_timeout read_timeout write_timeout : option Z)
    (initial_reconnect_delay : option Z) : option FoxyClient :=
  match Backoff_default (default kDefaultInitialReconnectDelay initial_reconnect_delay) kDefaultMaxBackoffDelay with
  | Some b =>
      Some (mkFoxy host port connect_timeout read_timeout write_timeout req new_parser
        (default kNoTimeout connect_timeout) None b false [] [])
  | None => None
  end.

(** ** [Builder] *)

Record Builder := mkBuilder {
  url_ : string;
  request_ : Request;
  bd_connect_timeout_ : option Z;
  bd_read_timeout_ : option Z;
  bd_write_timeout_ : option Z;
  initial_reconnect_delay_ : option Z;
}.

Definition new_builder (user_agent url : string) : Builder :=
  let fs := set_field "Cache-Control" "no-cache" (set_field "Accept" "text/event-stream" (set_field "User-Agent" user_agent [])) in
  mkBuilder url (mkRequest v_get EmptyString fs EmptyString) None None None None.

Definition bd_with_request (f : Request → Request) (b : Builder) : Builder :=
  mkBuilder (url_ b) (f (request_ b)) (bd_connect_timeout_ b) (bd_read_timeout_ b) (bd_write_timeout_ b) (initial_reconnect_delay_ b).

Definition bd_header (name value : string) : Builder → Builder := bd_with_request (with_fields (set_field name value)).
Definition bd_body (data : string) : Builder → Builder :=
  bd_with_request (λ r, mkRequest (rq_method r) (rq_target r) (rq_fields r) data).
Definition bd_method (m : verb) : Builder → Builder :=
  bd_with_request (λ r, mkRequest m (rq_target r) (rq_fields r) (rq_body r)).

Definition bd_connect_timeout (t : Z) (b : Builder) : Builder :=
  mkBuilder (url_ b) (request_ b) (Some t) (bd_read_timeout_ b) (bd_write_timeout_ b) (initial_reconnect_delay_ b).
Definition bd_read_timeout (t : Z) (b : Builder) : Builder :=
  mkBuilder (url_ b) (request_ b) (bd_connect_timeout_ b) (Some t) (bd_write_timeout_ b) (initial_reconnect_delay_ b).
Definition bd_write_timeout (t : Z) (b : Builder) : Builder :=
  mkBuilder (url_ b) (request_ b) (bd_connect_timeout_ b) (bd_read_timeout_ b) (Some t) (initial_reconnect_delay_ b).
Definition bd_initial_reconnect_delay (t : Z) (b : Builder) : Builder :=
  mkBuilder (url_ b) (request_ b) (bd_connect_timeout_ b) (bd_read_timeout_ b) (bd_write_timeout_ b) (Some t).

(** The request of the built client: no body unless it is posted or reported, and then a
    content type. *)
Definition built_request (u : Url) (r : Request) : Request :=
  let r :=
    if bool_decide (rq_method r ≠ v_post ∧ rq_method r ≠ v_report) then mkRequest (rq_method r) (rq_target r) (rq_fields r) EmptyString
    else match find_header "Content-Type" (rq_fields r) with
         | None => with_fields (set_field "Content-Type" "text/plain") r
         | Some _ => r
         end in
  let r := with_fields (set_field "Host" (u_host u)) r in
  with_target (if is_empty (u_target u) then "/" else u_target u) r.

Definition http_scheme (scheme : option string) : bool :=
  match scheme with Some s => iequals s "http" || iequals s "https" | None => true end.

(** [Builder::build]: no client ([nullptr], the outer [None]) for a URL that is not one or has
    another scheme. *)
Definition build `{Web} (b : Builder) : option (option FoxyClient) :=
  match parse_uri (url_ b) with
  | None => None
  | Some u =>
      if negb (http_scheme (u_scheme u)) then None
      else
        let service := match u_port u with Some p => p | None => default EmptyString (u_scheme u) end in
        Some (new_client (built_request u (request_ b)) (u_host u) service
          (bd_connect_timeout_ b) (bd_read_timeout_ b) (bd_write_timeout_ b) (initial_reconnect_delay_ b))
  end.

(** ** The client never stalls *)

(** An entry that leads on when it is run: everything but a cancelled wait, and a connection,
    request or header read that was aborted. *)
Definition leads_on (p : Pending) : Prop :=
  match p_handler p with
  | HRun | HRestart _ | HRead => True
  | HShutdown => False
  | HBackoff | HConnect | HWrite | HHeaders => p_result p ≠ Some (Some operation_aborted)
  end.

Definition is_connect (e : Effect) : bool := match e with EConnect _ _ => true | _ => false end.

Definition gave_up_on (e : Effect) : Prop := match e with EError e => IsRecoverable e = false | _ => False end.

(** Shutting down, stopped with an error that is not recoverable, or about to go on. *)
Definition attended (c : FoxyClient) : Prop :=
  shutting_down_ c = true ∨ Exists gave_up_on (effects c) ∨ Exists leads_on (pending c).

(** The network does not abort a connection, a request or a header read: they do not run into
    their timeouts. *)
Definition no_early_timeout (c : FoxyClient) (a : Action) : Prop :=
  match a with
  | Complete i (CError operation_aborted) => ∃ p, pending c !! i = Some p ∧ p_handler p = HRead
  | _ => True
  end.

Section Attended.
Context {W : Web} (connection_hook_ : option (Request → Request)) (response_hook_ : bool).
Implicit Types (c : FoxyClient).

Lemma with_net_attended f out c :
  (Exists leads_on (pending c) → Exists leads_on (f (pending c))) → attended c → attended (with_net f out c).
Proof.
  intros Hf [?|[?|?]]; [by left|right; left|right; right]; simpl; [|by apply Hf]. apply Exists_app. by left.
Qed.

Lemma op_attended f h t out c : Forall (λ _, True) [h] → leads_on (mkPending h t None) →
  attended (with_net (λ ps, f ps ++ [mkPending h t None]) out c).
Proof. intros _ Hl. right; right. simpl. apply Exists_app. right. by apply Exists_cons_hd. Qed.

Lemma async_backoff_attended reason now draw c : attended (async_backoff reason now draw c).
Proof. right; right. simpl. apply Exists_app. right. by apply Exists_cons_hd. Qed.

Lemma do_run_attended c : attended (do_run connection_hook_ c).
Proof.
  unfold do_run. destruct (shutting_down_ c) eqn:E; [by left|].
  right; right. simpl. apply Exists_app. right. by apply Exists_cons_hd.
Qed.

Lemma error_attended e c : IsRecoverable e = false → attended (emit (EError e) c).
Proof. intros He. right; left. simpl. apply Exists_app. right. by apply Exists_cons_hd. Qed.

Lemma started_attended h c : leads_on (mkPending h None None) → attended (with_net (start_op h c) [] c).
Proof. intros Hl. right; right. simpl. apply Exists_app. right. apply Exists_cons_hd. by destruct h. Qed.

(** Running an entry that leads on leaves the client attended. *)
Lemma run_attended h ec now draw c :
  leads_on (mkPending h None (Some ec)) → attended (run_handler connection_hook_ response_hook_ h ec now draw c).
Proof.
  destruct h; cbn [run_handler]; intros Hl.
  - apply do_run_attended.
  - apply async_backoff_attended.
  - done.
  - unfold on_backoff. destruct ec as [[]|]; [done|apply do_run_attended..].
  - unfold on_connect. destruct ec as [[]|]; [done|apply async_backoff_attended|].
    right; right. simpl. apply Exists_app. right. by apply Exists_cons_hd.
  - unfold on_write. destruct ec as [[]|]; [done|apply async_backoff_attended|by apply started_attended].
  - unfold on_headers. destruct ec as [[]|]; [done|apply async_backoff_attended|].
    repeat csplit; first [apply async_backoff_attended|by apply error_attended|by apply started_attended].
  - unfold on_read_body. destruct ec as [ec|].
    + destruct (shutting_down_ c) eqn:E; [by left|]. destruct ec; apply async_backoff_attended.
    + destruct (bp_done _); [apply async_backoff_attended|by apply started_attended].
Qed.

(** Handlers never take back a shutdown or an effect, and connect only before a shutdown. *)
Definition grows (c c' : FoxyClient) : Prop :=
  (shutting_down_ c = true → shutting_down_ c' = true) ∧
  ∃ out, effects c' = effects c ++ out ∧ (shutting_down_ c = true → Forall (λ e, is_connect e = false) out).

Lemma grows_same c c' : shutting_down_ c' = shutting_down_ c → effects c' = effects c → grows c c'.
Proof. intros E1 E2. split; [congruence|]. exists []. by rewrite E2, app_nil_r. Qed.

Lemma grows_refl c : grows c c.
Proof. by apply grows_same. Qed.

Lemma grows_trans c1 c2 c3 : grows c1 c2 → grows c2 c3 → grows c1 c3.
Proof.
  intros [H1 (o1 & E1 & F1)] [H2 (o2 & E2 & F2)]. split; [by auto|]. exists (o1 ++ o2).
  rewrite E2, E1, app_assoc. split; [done|]. intros Hd. apply Forall_app. auto.
Qed.

Lemma with_net_grows f out c : Forall (λ e, is_connect e = false) out → grows c (with_net f out c).
Proof. split; [done|]. by exists out. Qed.

Lemma keep_last_id_rest c :
  effects (keep_last_id c) = effects c ∧ shutting_down_ (keep_last_id c) = shutting_down_ c ∧
  backoff_ (keep_last_id c) = backoff_ c ∧ pending (keep_last_id c) = pending c.
Proof. unfold keep_last_id. by destruct (last_event_id_ _) as [[|]|]. Qed.

Lemma async_backoff_effects reason now draw c :
  effects (async_backoff reason now draw c) =
  effects c ++ [EDelay reason (delay (λ _, draw) (fail now (backoff_ c)))].
Proof.
  unfold async_backoff. destruct (keep_last_id_rest (with_backoff (fail now (backoff_ c)) c)) as (E & _ & B & _).
  cbn. by rewrite !app_nil_r, E, B.
Qed.

Lemma async_backoff_grows reason now draw c : grows c (async_backoff reason now draw c).
Proof.
  split; [|rewrite async_backoff_effects; eexists; split; [done|by repeat constructor]].
  cbn. by destruct (keep_last_id_rest (with_backoff (fail now (backoff_ c)) c)) as (_ & -> & _).
Qed.

Lemma do_run_grows c : grows c (do_run connection_hook_ c).
Proof.
  unfold do_run. destruct (shutting_down_ c) eqn:E; [apply grows_refl|]. split; [congruence|].
  exists [EConnect (host_ c) (port_ c)]. split; [by destruct connection_hook_|congruence].
Qed.

Lemma run_grows h ec now draw c : grows c (run_handler connection_hook_ response_hook_ h ec now draw c).
Proof.
  assert (∀ f out c, Forall (λ e, is_connect e = false) out → grows c (with_net f out c)) as Hnet by apply with_net_grows.
  assert (∀ c c' r n d, grows c c' → grows c (async_backoff r n d c')) as Hb
    by (intros; eapply grows_trans; [done|apply async_backoff_grows]).
  destruct h; cbn [run_handler].
  - apply do_run_grows.
  - by apply Hb, Hnet.
  - split; [done|]. exists [EShutdown]. simpl. rewrite !app_nil_r. split; [done|by repeat constructor].
  - unfold on_backoff. destruct ec as [[]|]; [apply grows_refl|apply do_run_grows..].
  - unfold on_connect. destruct ec as [[]|]; [apply grows_refl|apply Hb, grows_refl|].
    split; [done|]. eexists. split; [done|by repeat constructor].
  - unfold on_write. destruct ec as [[]|]; [apply grows_refl|apply Hb, grows_refl|].
    apply grows_same; [done|]. cbn. by rewrite app_nil_r.
  - unfold on_headers. destruct ec as [[]|]; [apply grows_refl|apply Hb, grows_refl|].
    destruct (bp_header _) as [res|]; [|by apply Hnet].
    assert (grows c (if response_hook_ then emit (EResponse res) c else c)) as Hr
      by (destruct response_hook_; [apply Hnet; by repeat constructor|apply grows_refl]).
    set (c' := if response_hook_ then emit (EResponse res) c else c) in *.
    assert (∀ e, grows c (emit (EError e) c')) as He
      by (intros; eapply grows_trans; [exact Hr|apply Hnet; by repeat constructor]).
    repeat csplit; try apply He; try apply Hb; try exact Hr; (eapply grows_trans; [exact Hr|]);
      (apply grows_same; [done|]); cbn; by rewrite ?app_nil_r.
  - unfold on_read_body. destruct ec as [ec|].
    + destruct (shutting_down_ c) eqn:E; [apply grows_refl|].
      destruct ec; apply Hb; [apply Hnet; by repeat constructor|apply grows_refl].
    + destruct (bp_done _); [apply Hb, grows_refl|by apply Hnet].
Qed.

Lemma grows_done c c' :
  grows c c' → shutting_down_ c = true ∨ Exists gave_up_on (effects c) → attended c'.
Proof. intros [H1 (out & E & _)] [?|?]; [left; auto|right; left]. rewrite E. apply Exists_app. by left. Qed.

Lemma pending_delete (ps : list Pending) i :
  Exists leads_on ps → (∃ p, ps !! i = Some p ∧ leads_on p) ∨ Exists leads_on (delete i ps).
Proof.
  intros He. revert i. induction He as [p ps Hp|p ps He IH]; intros [|i]; simpl.
  - left. eauto.
  - right. by apply Exists_cons_hd.
  - by right.
  - destruct (IH i) as [?|?]; [by left|right]. by apply Exists_cons_tl.
Qed.

Lemma exists_insert (ps : list Pending) i p q :
  ps !! i = Some p → (leads_on p → leads_on q) → Exists leads_on ps → Exists leads_on (<[i := q]> ps).
Proof.
  intros Hi Hpq He. revert i Hi. induction He as [p' ps Hp|p' ps He IH]; intros [|i] Hi; simpl in *; simplify_eq.
  - apply Exists_cons_hd. auto.
  - by apply Exists_cons_hd.
  - by apply Exists_cons_tl.
  - apply Exists_cons_tl. auto.
Qed.

Lemma finish_attended i p ec c c' :
  pending c !! i = Some p → pending c' = pending c → grows c c' →
  (leads_on p → leads_on (mkPending (p_handler p) (p_timeout p) (Some ec))) →
  attended c → attended (finish i p ec c').
Proof.
  intros Hi Hp Hg Hl [Hd|[Hd|Hd]].
  - eapply grows_done; [eapply grows_trans; [exact Hg|by apply with_net_grows]|by left].
  - eapply grows_done; [eapply grows_trans; [exact Hg|by apply with_net_grows]|by right].
  - right; right. simpl. rewrite Hp. by eapply exists_insert.
Qed.

Lemma feed_grows data is_done c : grows c (feed data is_done c).
Proof.
  split; [done|]. eexists. split; [done|]. intros _. apply Forall_fmap, Forall_true. done.
Qed.

Lemma parser_grows q c : grows c (with_parser q c).
Proof. by apply grows_same. Qed.

Lemma complete_attended i r c : no_early_timeout c (Complete i r) → attended c → attended (complete i r c).
Proof.
  intros Hno Ha. unfold complete. destruct (pending c !! i) as [p|] eqn:Hi; [|done].
  assert (∀ ec, ec ≠ Some operation_aborted ∨ p_handler p = HRead →
    leads_on p → leads_on (mkPending (p_handler p) (p_timeout p) (Some ec))) as Hl.
  { intros ec Hec. unfold leads_on; simpl. destruct (p_handler p); naive_solver. }
  destruct (p_result p); [done|].
  destruct (p_handler p) eqn:Hh; destruct r; try done; rewrite <- ?Hh in *;
    (eapply finish_attended; [exact Hi|done| |apply Hl|exact Ha]);
    first [apply feed_grows|apply parser_grows|apply grows_refl|idtac]; try (by left);
    destruct ec; try (by left); right; destruct Hno as (p' & Hp' & ?); simplify_eq; congruence.
Qed.

Lemma complete_grows i r c : grows c (complete i r c).
Proof.
  unfold complete, finish. destruct (pending c !! i) as [p|]; [|apply grows_refl].
  destruct (p_result p), (p_handler p), r; try apply grows_refl;
    (eapply grows_trans; [|by apply with_net_grows]);
    first [apply feed_grows|apply parser_grows|apply grows_refl].
Qed.

Lemma act_grows c a : grows c (act connection_hook_ response_hook_ c a).
Proof.
  destruct a as [| | |i r|i now draw]; cbn [act]; [by apply with_net_grows..|apply complete_grows|].
  destruct (pending c !! i) as [p|]; [|apply grows_refl]. destruct (p_result p) as [ec|]; [|apply grows_refl].
  eapply grows_trans; [by apply with_net_grows|apply run_grows].
Qed.

Lemma acts_grow acts c : grows c (foldl (act connection_hook_ response_hook_) c acts).
Proof.
  revert c. induction acts as [|a acts IH]; intros c; [apply grows_refl|]. eapply grows_trans; [apply act_grows|apply IH].
Qed.

Lemma act_attended c a :
  no_early_timeout c a → attended c → attended (act connection_hook_ response_hook_ c a).
Proof.
  intros Hno Ha. pose proof (act_grows c a) as Hg.
  destruct Ha as [Hd|[Hd|He]]; [by eapply grows_done; [exact Hg|left]|by eapply grows_done; [exact Hg|right]|].
  destruct a as [| | |i r|i now draw]; cbn [act].
  1-3: right; right; simpl; apply Exists_app; by left.
  - apply complete_attended; [done|]. by right; right.
  - destruct (pending c !! i) as [p|] eqn:Hi; [|by right; right]. destruct (p_result p) as [ec|] eqn:Hr; [|by right; right].
    destruct (pending_delete _ i He) as [(p' & Hp' & Hl)|He'].
    { simplify_eq. apply run_attended. revert Hl. unfold leads_on. simpl. by rewrite Hr. }
    destruct (p_handler p); try by apply run_attended.
    + by left.
    + destruct ec as [[]|]; [|by apply (run_attended HBackoff)..]. by right; right.
    + destruct ec as [[]|]; [|by apply (run_attended HConnect)..]. by right; right.
    + destruct ec as [[]|]; [|by apply (run_attended HWrite)..]. by right; right.
    + destruct ec as [[]|]; [|by apply (run_attended HHeaders)..]. by right; right.
Qed.

(** A run of the client with the network. *)
Fixpoint good_run (c : FoxyClient) (acts : list Action) : Prop :=
  match acts with
  | [] => True
  | a :: acts => no_early_timeout c a ∧ good_run (act connection_hook_ response_hook_ c a) acts
  end.

Lemma run_all_attended acts c :
  good_run c acts → attended c → attended (foldl (act connection_hook_ response_hook_) c acts).
Proof.
  revert c. induction acts as [|a acts IH]; intros c; [done|]. intros [Hno Hr] Ha. simpl.
  apply IH; [done|by apply act_attended].
Qed.

End Attended.

(** ** Reconnecting *)

Definition received (es : list Effect) : list SseEvent :=
  omap (λ e, match e with EEvent e => Some e | _ => None end) es.

#[local] Arguments received : simpl never.
#[local] Arguments put : simpl never.

(** The network delivers a chunk, and the handler runs. *)
Definition serve (chunk : text * Z * double) : list Action :=
  let '(data, now, draw) := chunk in [Complete 0 (CBody data false); Run 0 now draw].

(** The connection breaks, the timer expires, and the client connects again. *)
Definition reconnect (what : string) (now : Z) (draw : double) : list Action :=
  [Complete 0 (CError (OtherError what)); Run 0 now draw; Complete 0 COk; Run 0 now draw; Complete 0 COk; Run 0 now draw].

(** The id a request resumes from after the messages of one connection. *)
Definition resume_id (old : option text) (ms : list Message) : option text :=
  match last_id None ms with Some (a :: id) => Some (a :: id) | _ => old end.

Lemma iequals_refl a : iequals a a = true.
Proof. unfold iequals. by apply bool_decide_true. Qed.

Lemma find_erased name fs : find_header name (erase_field name fs) = None.
Proof.
  unfold erase_field. induction fs as [|[k v] fs IH]; [done|]. rewrite filter_cons.
  case_decide as Hd; [|done]. simpl in *. apply negb_true_iff in Hd. by rewrite Hd.
Qed.

Lemma find_set name value fs : find_header name (set_field name value fs) = Some value.
Proof.
  unfold set_field. pose proof (find_erased name fs) as He. induction (erase_field name fs) as [|[k v] l IH]; simpl in *.
  - by rewrite iequals_refl.
  - destruct (iequals k name); [done|auto].
Qed.

Section Reconnecting.
Context {W : Web} (connection_hook_ : option (Request → Request)) (response_hook_ : bool).
Implicit Types (c : FoxyClient).
Local Abbreviation acts c l := (foldl (act connection_hook_ response_hook_) c l).

(** Reading the body on a connection, with the reader [r] and the events of [c0] and [out]. *)
Definition reading c0 (out : list SseEvent) (r : Reader) c : Prop :=
  (∃ t, pending c = [mkPending HRead t None]) ∧ bp_reader (body_parser_ c) = r ∧ shutting_down_ c = false ∧
  fx_last_event_id_ c = fx_last_event_id_ c0 ∧ received (effects c) = received (effects c0) ++ out.

Lemma received_app a b : received (a ++ b) = received a ++ received b.
Proof. unfold received. by rewrite omap_app. Qed.

Lemma received_events es : received (EEvent <$> es) = es.
Proof. induction es as [|e es IH]; [done|]. rewrite fmap_cons. change (e :: received (EEvent <$> es) = e :: es). by rewrite IH. Qed.

Lemma serve_reading c0 out r chunk c :
  reading c0 out r c → ∃ out', emitted (put chunk.1.1 r) = emitted r ++ out' ∧
  reading c0 (out ++ out') (put chunk.1.1 r) (acts c (serve chunk)).
Proof.
  destruct chunk as [[data now] draw], c as [ho po ct rt wt rq bp st li bk sd pe ef]. unfold reading. cbn.
  intros ((t & ->) & Hr & -> & -> & He). destruct (put_emitted data r) as [out' Hout]. exists out'. split; [done|].
  cbn. rewrite Hr. split_and!; [by eexists|done|done|done|]. cbn.
  rewrite !received_app, received_events, Hout, drop_app_length, He. cbn. by rewrite !app_nil_r, app_assoc.
Qed.

Lemma serve_all c0 chunks out r c :
  reading c0 out r c →
  ∃ out', emitted (foldl (λ r d, put d r) r ((λ x : text * Z * double, x.1.1) <$> chunks)) = emitted r ++ out' ∧
  reading c0 (out ++ out') (foldl (λ r d, put d r) r ((λ x : text * Z * double, x.1.1) <$> chunks)) (acts c (mjoin (serve <$> chunks))).
Proof.
  revert out r c. induction chunks as [|ch chunks IH]; intros out r c Hr.
  { exists []. by rewrite !app_nil_r. }
  rewrite !fmap_cons. cbn [mjoin list_join foldl]. destruct (serve_reading _ _ _ ch _ Hr) as (o1 & E1 & R1).
  destruct (IH _ _ _ R1) as (o2 & E2 & R2). exists (o1 ++ o2). rewrite E2, E1, !app_assoc. split; [done|].
  by rewrite foldl_app.
Qed.

Lemma reconnect_request c0 out r c what now draw :
  reading c0 out r c →
  let c' := acts c (reconnect what now draw) in
  received (effects c') = received (effects c0) ++ out ∧
  ∃ req, last (effects c') = Some (EWrite req) ∧
    find_header "last-event-id" (rq_fields req) =
      of_chars <$> match last_event_id_ r with Some (a :: id) => Some (a :: id) | _ => fx_last_event_id_ c0 end.
Proof.
  destruct c as [ho po ct rt wt rq [[bl cl bc ev lid em] hd dn] st li bk sd pe ef]. unfold reading.
  cbn [pending body_parser_ bp_reader shutting_down_ fx_last_event_id_ effects].
  intros ((t & ->) & <- & -> & -> & He). cbn [last_event_id_].
  destruct lid as [[|a id]|], connection_hook_, (fx_last_event_id_ c0) as [old|]; cbn -[delay fail "<$>"];
    rewrite ?received_app, He; cbn -["<$>"]; rewrite ?app_nil_r; (split; [done|]);
    (eexists; split; [by rewrite last_snoc|]); cbn; rewrite ?find_set, ?find_erased; done.
Qed.
End Reconnecting.

(** ** A concrete network library *)

Fixpoint cut_at (stop : ascii → bool) (l : list ascii) : list ascii * list ascii :=
  match l with
  | [] => ([], [])
  | a :: l' => if stop a then ([], l) else let '(x, y) := cut_at stop l' in (a :: x, y)
  end.

(** [scheme://host[:port][target]] *)
Definition sample_parse_uri (s : string) : option Url :=
  let '(scheme, rest) := cut_at (λ a, (a =? ":")%char) (chars s) in
  match rest with
  | _ :: "/"%char :: "/"%char :: rest =>
      let '(authority, target) := cut_at (λ a, (a =? "/")%char || (a =? "?")%char) rest in
      let '(host, port) := cut_at (λ a, (a =? ":")%char) authority in
      Some (mkUrl (Some (of_chars scheme)) (of_chars host) (match port with _ :: p => Some (of_chars p) | [] => None end) (of_chars target))
  | _ => None
  end.

#[local] Instance sample_web : Web := {
  parse_uri := sample_parse_uri;
  resolve_url _ u := Some u;
  prepare_payload r := r;
  known_status s := (100 <=? s) && (s <? 600);
  obsolete_reason _ := EmptyString;
}.

#[local] Instance sample_web_laws : WebLaws sample_web.
Proof.
  split; [|done]. intros s u. cbn. unfold sample_parse_uri. repeat csplit; intros; simplify_eq/=; eauto.
Qed.

(** A client of a server at [host], one second of initial delay. *)
Definition sample_client : option FoxyClient :=
  match build (bd_read_timeout 300000 (new_builder "agent" "https://host/all")) with Some c => c | None => None end.

Definition event_stream : Response := mkResponse 200 [("Content-Type", "text/event-stream; charset=utf-8")].

(** Connect, send the request, receive the response's header. *)
Definition establish (res : Response) : list Action :=
  [AsyncConnect; Run 0 0 (S754_zero false); Complete 0 COk; Run 0 0 (S754_zero false); Complete 0 COk; Run 0 0 (S754_zero false);
   Complete 0 (CHeaders (Some res)); Run 0 0 (S754_zero false)].

Definition sample_run (acts : list Action) : option FoxyClient :=
  (λ c, foldl (act None false) c acts) <$> sample_client.

(** ** Properties *)

(** C14: the stream client does not stall.  From a client that has been told to connect,
    whatever the network answers and in whatever order operations complete, restarts and
    shutdowns included, the client is shutting down, has reported an error that is not
    recoverable, or has an operation, a timer or a posted handler that leads on; provided that
    no connection attempt, request or header read runs into its timeout. *)
Theorem stream_client_attended `{Web} hook response_hook (c : FoxyClient) (acts : list Action) :
  Exists leads_on (pending c) → good_run hook response_hook c acts →
  attended (foldl (act hook response_hook) c acts).
Proof. intros He Hr. apply run_all_attended; [done|]. by right; right. Qed.

(** After a shutdown the client never connects again: whatever completes afterwards, and
    whatever is asked of the client, no further connection is made and the shutdown stays. *)
Theorem shutdown_stops_connecting `{Web} hook response_hook (c : FoxyClient) (acts : list Action) :
  shutting_down_ c = true →
  let c' := foldl (act hook response_hook) c acts in
  shutting_down_ c' = true ∧ filter (λ e, is_connect e = true) (effects c') = filter (λ e, is_connect e = true) (effects c).
Proof.
  intros Hd c'. destruct (acts_grow hook response_hook acts c) as [Hs (out & He & Hout)]. fold c' in Hs, He.
  split; [by apply Hs|]. rewrite He, filter_app. specialize (Hout Hd).
  assert (filter (λ e, is_connect e = true) out = []) as ->; [|by rewrite app_nil_r].
  clear He. induction Hout as [|e es Hne _ IH]; [done|]. cbv beta in Hne. rewrite filter_cons, decide_False; [done|congruence].
Qed.

(** C16: a client that is reading a stream delivers every message of it, however the stream is
    cut into chunks, and when the connection then breaks it reconnects after its delay and
    asks the server to resume after the last id it was given, or after the one it already had
    when the stream had none; the connection hook cannot change that header. *)
Theorem reconnect_resumes `{Web} hook response_hook (c : FoxyClient) (t : option Z) (eol : text) (ms : list Message)
    (first : text * Z * double) (chunks : list (text * Z * double)) (what : string) (now : Z) (draw : double) :
  pending c = [mkPending HRead t None] → bp_reader (body_parser_ c) = new_reader → shutting_down_ c = false →
  eol ∈ eols → forallb message_ok ms = true →
  first.1.1 ++ concat ((λ x : text * Z * double, x.1.1) <$> chunks) = wire eol ms →
  let c' := foldl (act hook response_hook) c (mjoin (serve <$> first :: chunks) ++ reconnect what now draw) in
  received (effects c') = received (effects c) ++ owed None ms ∧
  ∃ req, last (effects c') = Some (EWrite req) ∧
    find_header "last-event-id" (rq_fields req) = of_chars <$> resume_id (fx_last_event_id_ c) ms.
Proof.
  intros Hp Hr Hd Heol Hok Hw c'. assert (reading c [] new_reader c) as Hread.
  { split_and!; [by eexists|done|done|done|by rewrite app_nil_r]. }
  destruct (serve_all hook response_hook c (first :: chunks) [] new_reader c Hread) as (out & Hout & Hc).
  revert Hout Hc. rewrite (fmap_cons _ first). cbn [foldl]. rewrite put_chunks, Hw.
  destruct (wire_read eol ms new_reader) as [He Hl]; [done|done|by split|done|done|]. intros Hout Hc.
  unfold c'. rewrite foldl_app. destruct (reconnect_request hook response_hook _ _ _ _ what now draw Hc) as [H1 (req & Hreq & Hid)].
  rewrite H1. split; [f_equal; rewrite He in Hout; by simplify_list_eq|].
  exists req. split; [done|]. rewrite Hid, Hl. done.
Qed.

(** A relative location is never resolved: parsing it as a URI fails before. *)
Lemma redirect_url_absolute `{WebLaws} base location : redirect_url base location = parse_uri location.
Proof.
  unfold redirect_url. destruct (parse_uri location) as [u|] eqn:E; [|done].
  destruct (parse_uri_scheme _ _ E) as [s ->]. done.
Qed.

(** A redirect that is followed: moved permanently or temporarily, to a location that is an
    absolute URI. *)
Definition followed `{Web} (res : Response) : bool :=
  bool_decide (result res ∈ [301; 307]) &&
  match find_header "location" (rs_fields res) ≫= parse_uri with Some _ => true | None => false end.

(** The responses after which the client gives up: no content, a redirect that is not
    followed, and the client errors other than 400, 408 and 429. *)
Definition gives_up_after `{Web} (res : Response) : bool :=
  let s := result res in
  (s =? 204) || ((300 <=? s) && (s <? 400) && negb (followed res)) ||
  ((400 <=? s) && (s <? 500) && negb (bool_decide (s ∈ [400; 408; 429]))).

(** The responses whose body is read. *)
Definition streams_after `{Web} (res : Response) : bool :=
  let s := result res in (200 <=? s) && (s <? 300) && negb (s =? 204) && correct_content_type res.

Lemma recoverable_spec s : recoverable_client_error s = bool_decide (s ∈ [400; 408; 429]).
Proof.
  apply eq_iff_eq_true. rewrite bool_decide_eq_true. unfold recoverable_client_error.
  rewrite !orb_true_iff, !Z.eqb_eq, !elem_of_cons, elem_of_nil. tauto.
Qed.

Lemma followed_spec `{WebLaws} res :
  followed res = can_redirect res &&
    match redirect_url "base" (default EmptyString (find_header "location" (rs_fields res))) with Some _ => true | None => false end.
Proof.
  unfold followed, can_redirect. rewrite redirect_url_absolute.
  assert (bool_decide (result res ∈ [301; 307]) = (result res =? 301) || (result res =? 307)) as ->.
  { apply eq_iff_eq_true. rewrite bool_decide_eq_true, orb_true_iff, !Z.eqb_eq, !elem_of_cons, elem_of_nil. tauto. }
  destruct (find_header _ _); simpl; [by rewrite andb_true_r|]. by rewrite andb_false_r.
Qed.

Lemma class_eqb s k : 0 < k → (status_class s =? k) = (100 * k <=? s) && (s <? 100 * (k + 1)).
Proof.
  intros Hk. unfold status_class. apply eq_iff_eq_true. rewrite andb_true_iff, Z.eqb_eq, Z.leb_le, Z.ltb_lt.
  pose proof (Z.div_mod s 100). pose proof (Z.mod_pos_bound s 100). lia.
Qed.

Lemma ranges_apart s a b : b <= a → (a <=? s) = true → (s <? b) = false.
Proof. rewrite Z.leb_le, Z.ltb_ge. lia. Qed.

(** C17: what becomes of a connection once the header of its response is read depends on
    the response alone, a status code that Beast does not know counting as 0.  (1) On 204,
    on a 3xx response other than a 301 or 307 with an absolute URI in its location header,
    and on a 4xx response other than 400, 408 and 429, the client gives up: it reports
    exactly one error, which is not recoverable, and starts nothing further.  (2) On any
    other 2xx response with text/event-stream in its content type it reports nothing,
    reads the body under the session timeout and leaves the attempts of the backoff alone.
    (3) After every other response (a redirect that is followed, a 2xx response of another
    content type, 400, 408, 429, and every status outside 2xx to 4xx) it waits for a
    backoff delay, which is the one thing it reports: no error.  The response hook of the
    client, if it has one, sees the response first in all three cases. *)
Theorem response_outcome `{WebLaws} response_hook now draw (c : FoxyClient) (res : Response) :
  bp_header (body_parser_ c) = Some res →
  let c' := on_headers response_hook None now draw c in
  let hook := if response_hook then [EResponse res] else [] in
  if gives_up_after res then pending c' = pending c ∧ ∃ e, effects c' = effects c ++ hook ++ [EError e] ∧ IsRecoverable e = false
  else if streams_after res then pending c' = pending c ++ [mkPending HRead (Some (session_timeout_ c)) None] ∧
    effects c' = effects c ++ hook ∧ attempt_ (backoff_ c') = attempt_ (backoff_ c)
  else (∃ ps, pending c' = ps ++ [mkPending HBackoff None None]) ∧ ∃ r d, effects c' = effects c ++ hook ++ [EDelay r d].
Proof.
  intros Hres c' hook. unfold c', on_headers. rewrite Hres. rewrite !class_eqb by lia.
  unfold gives_up_after, streams_after; cbv beta zeta. rewrite followed_spec, <- recoverable_spec. cbn [Z.mul Z.add Pos.mul Pos.add].
  set (s := result res) in *. set (c1 := if response_hook then emit (EResponse res) c else c).
  assert (pending c1 = pending c ∧ session_timeout_ c1 = session_timeout_ c ∧ backoff_ c1 = backoff_ c ∧
    effects c1 = effects c ++ hook) as (Hp & Ht & Hk & Hf)
    by (unfold c1, hook; destruct response_hook; [done|by rewrite app_nil_r]).
  assert (∀ reason c2, effects c2 = effects c1 → let c3 := async_backoff reason now draw c2 in
    (∃ ps, pending c3 = ps ++ [mkPending HBackoff None None]) ∧ ∃ r d, effects c3 = effects c ++ hook ++ [EDelay r d]) as Hb.
  { intros reason c2 H2 c3. split; [by eexists|]. unfold c3. rewrite async_backoff_effects, H2, Hf, <- app_assoc. eauto. }
  assert (∀ e, IsRecoverable e = false → pending (emit (EError e) c1) = pending c ∧
    ∃ e', effects (emit (EError e) c1) = effects c ++ hook ++ [EError e'] ∧ IsRecoverable e' = false) as He.
  { intros e Hr. split; [exact Hp|]. exists e. split; [|done]. cbn. by rewrite Hf, <- app_assoc. }
  repeat (match goal with
          | |- context [?a <=? s] => destruct (Z.leb_spec a s)
          | |- context [s <? ?b] => destruct (Z.ltb_spec s b)
          | |- context [s =? 204] => destruct (Z.eqb_spec s 204)
          end; cbn [andb orb negb]; try lia); try (by apply Hb); try (by apply He).
  - destruct (recoverable_client_error s); cbn [negb]; [by apply Hb|by apply He].
  - destruct (can_redirect res); cbn [negb andb]; [|by apply He]. destruct (redirect_url _ _); [by apply Hb|by apply He].
  - destruct (correct_content_type res); [|by apply Hb]. cbn. unfold start_op. cbn. by rewrite app_nil_r, Hp, Ht, Hk, Hf.
Qed.

(** ** Witnesses *)

Lemma stream_client_attended_witness :
  from_option (λ c, attended (foldl (act None false) c (drop 1 (establish event_stream)))) False
    (post HRun <$> sample_client).
Proof.
  apply (stream_client_attended None false); [by constructor|]. vm_compute. repeat split.
Defined.

(** The client of the examples, streaming. *)
Definition streaming : FoxyClient :=
  default (mkFoxy EmptyString EmptyString None None None (mkRequest v_get EmptyString [] EmptyString) new_parser 0 None
    (mkBackoff 0 0 0 0 None (S754_zero false) 0) true [] []) (sample_run (establish event_stream)).

Lemma shutdown_stops_connecting_witness :
  let c := set_shutting_down streaming in
  let c' := foldl (act None false) c [AsyncConnect; Run 1 0 (S754_zero false)] in
  shutting_down_ c' = true ∧ filter (λ e, is_connect e = true) (effects c') = filter (λ e, is_connect e = true) (effects c).
Proof. apply (shutdown_stops_connecting None false). reflexivity. Defined.

Lemma reconnect_resumes_witness :
  let ms := [mkMessage (chars "put") [chars "{}"] (Some (chars "7"))] in
  let c' := foldl (act None false) streaming
    (mjoin (serve <$> [(wire [LF] ms, 0, S754_zero false)]) ++ reconnect "reset" 0 (S754_zero false)) in
  received (effects c') = received (effects streaming) ++ owed None ms ∧
  ∃ req, last (effects c') = Some (EWrite req) ∧
    find_header "last-event-id" (rq_fields req) = of_chars <$> resume_id (fx_last_event_id_ streaming) ms.
Proof.
  intros ms. apply (reconnect_resumes None false streaming (Some 300000) [LF] ms (wire [LF] ms, 0, S754_zero false) []);
    [reflexivity|reflexivity|reflexivity|by repeat constructor|reflexivity|apply app_nil_r].
Defined.

Lemma response_outcome_witness :
  let res := mkResponse 429 [] in
  let c := with_parser (mkBodyParser new_reader (Some res) false) streaming in
  let c' := on_headers false None 0 (S754_zero false) c in
  gives_up_after res = false ∧ streams_after res = false ∧
  if gives_up_after res then pending c' = pending c ∧ ∃ e, effects c' = effects c ++ [] ++ [EError e] ∧ IsRecoverable e = false
  else if streams_after res then pending c' = pending c ++ [mkPending HRead (Some (session_timeout_ c)) None] ∧
    effects c' = effects c ++ [] ∧ attempt_ (backoff_ c') = attempt_ (backoff_ c)
  else (∃ ps, pending c' = ps ++ [mkPending HBackoff None None]) ∧ ∃ r d, effects c' = effects c ++ [] ++ [EDelay r d].
Proof.
  intros res c c'. split; [reflexivity|]. split; [reflexivity|].
  apply (response_outcome false 0 (S754_zero false) c res). reflexivity.
Defined.

(** ** What the model shows *)

Definition errors_of (es : list Effect) : list SseError :=
  omap (λ e, match e with EError e => Some e | _ => None end) es.

Definition delays_of (es : list Effect) : list (option Z) :=
  omap (λ e, match e with EDelay _ d => Some d | _ => None end) es.

(** A connection attempt that exceeds its timeout is completed with [operation_aborted], which
    the handler takes for a shutdown: nothing is left to run, no error is reported, and the
    client never connects again. *)
Lemma connect_timeout_strands :
  (λ c, (shutting_down_ c, pending c, errors_of (effects c), delays_of (effects c))) <$>
    sample_run [AsyncConnect; Run 0 0 (S754_zero false); Complete 0 (CError operation_aborted); Run 0 0 (S754_zero false)] =
  Some (false, [], [], []).
Proof. vm_compute. reflexivity. Qed.

(** A restart cancels the outstanding read, whose handler takes the cancellation for a timeout:
    a restart reports a read timeout and counts as two failures. *)
Lemma restart_reports_timeout :
  (λ c, (errors_of (effects c), attempt_ (backoff_ c))) <$>
    sample_run (establish event_stream ++ [AsyncRestart "stale"; Run 1 0 (S754_zero false); Run 0 0 (S754_zero false)]) =
  Some ([ReadTimeout (Some 300000)], 3).
Proof. vm_compute. reflexivity. Qed.

(** The id of an event is remembered when its line is read, not when the event is complete: a
    connection that breaks in between resumes after an event that was never delivered. *)
Lemma undelivered_id_resumed :
  (λ c, (received (effects c), fx_last_event_id_ c)) <$>
    sample_run (establish event_stream ++ serve (chars "id: 7" ++ [LF] ++ chars "data: x" ++ [LF], 0, S754_zero false)
      ++ reconnect "reset" 0 (S754_zero false)) =
  Some ([], Some (chars "7")).
Proof. vm_compute. reflexivity. Qed.

(** The builder sends an empty target as a slash; a redirect does not. *)
Lemma redirect_empty_target :
  (λ c, (host_ c, rq_target (req_ c))) <$> sample_run (establish (mkResponse 301 [("Location", "http://other")])) =
  Some ("other", EmptyString) ∧
  (λ c, rq_target (req_ c)) <$> (default None (build (new_builder "agent" "http://other"))) = Some "/".
Proof. vm_compute. by split. Qed.

(** The first failure waits for twice the initial delay: it is counted before the delay is
    computed. *)
Lemma first_delay_doubled :
  (λ c, delays_of (effects c)) <$>
    sample_run [AsyncConnect; Run 0 0 (S754_zero false); Complete 0 (CError (OtherError "refused")); Run 0 0 (S754_zero false)] =
  Some [Some (2 * kDefaultInitialReconnectDelay)].
Proof. vm_compute. reflexivity. Qed.
