(* ===== verification/Promises.v ===== *)
(** * Promises and futures

    libs/internal/include/launchdarkly/async/promise.hpp.

    The promises of a program are a list; a [Promise] or a [Future] is an index of it.  A
    continuation given to [Then] is the function it applies and the promise it resolves.  What
    remains to be done (a registration under way, a continuation handed to its executor, a
    [Resolve] about to take the lock) is a pool of tasks.  An executor may run a task at once
    or later, on any thread, so any task of the pool may be next; each critical section of the
    code is one step.  The values of all promises share one type, with the values of
    [std::monostate] and of the indices of [WhenAny] in it.  Continuations are functions of
    the value: they do not themselves touch promises, except by returning a future. *)

From S2P Require Import Prelude.

Section Promises.
Context {V : Type} (monostate : V) (of_index : nat → V).

(** The bodies of the lambdas that the code passes to executors, with the promise they resolve:
    [Then] with a function, [Then] with a function that returns a future, the inner [Then] of
    the latter, [WhenAll] with its shared counter, [WhenAny] with its index. *)
Inductive Callback :=
| CMap (f : V → V) (q : nat)
| CFlat (f : V → nat) (q : nat)
| CForward (q : nat)
| CAll (q : nat)
| CAny (i q : nat).

Record PromiseInternal := mkPromise { result_ : option V; continuations_ : list Callback }.

Inductive Task :=
| TThen (p : nat) (cb : Callback)
| TCall (p : nat) (cb : Callback) (v : V)
| TResolve (q : nat) (v : V).

(** How a promise came to be: with its holder ([Promise], [MakeFuture]), or inside a call. *)
Inductive Origin :=
| OHeld
| OThen (p : nat) (f : V → V)
| OFlat (p : nat) (f : V → nat)
| OAll (ps : list nat)
| OAny (ps : list nat).

(** [origins], [asked] and [ran] are history: where each promise comes from, the continuations
    that were registered, and those that have run, with their argument.  The counter of a call
    of [WhenAll] is named after its promise. *)
Record World := mkWorld {
  promises : list PromiseInternal;
  counts : gmap nat nat;
  pool : list Task;
  origins : list Origin;
  asked : list (nat * Callback);
  ran : list (nat * Callback * V);
}.

Definition new_world : World := mkWorld [] ∅ [] [] [] [].

Definition GetResult (w : World) (p : nat) : option V := promises w !! p ≫= result_.
Definition IsFinished (w : World) (p : nat) : bool := match GetResult w p with Some _ => true | None => false end.

(** ** Tasks *)

Definition push (ts : list Task) (w : World) : World :=
  mkWorld (promises w) (counts w) (pool w ++ ts) (origins w) (asked w) (ran w).

Definition set_promise (q : nat) (pi : PromiseInternal) (w : World) : World :=
  mkWorld (<[q := pi]> (promises w)) (counts w) (pool w) (origins w) (asked w) (ran w).

(** [PromiseInternal::Resolve] *)
Definition Resolve (q : nat) (v : V) (w : World) : World :=
  match promises w !! q with
  | Some (mkPromise None to_call) => push ((λ cb, TCall q cb v) <$> to_call) (set_promise q (mkPromise (Some v) []) w)
  | _ => w
  end.

(** [PromiseInternal::Then].  A future that does not exist yet cannot be asked: the task waits. *)
Definition Then (p : nat) (cb : Callback) (w : World) : World :=
  match promises w !! p with
  | Some (mkPromise None ks) => set_promise p (mkPromise None (ks ++ [cb])) w
  | Some (mkPromise (Some v) _) => push [TCall p cb v] w
  | None => push [TThen p cb] w
  end.

Definition ask (l : list (nat * Callback)) (w : World) : World :=
  mkWorld (promises w) (counts w) (pool w ++ ((λ x, TThen x.1 x.2) <$> l)) (origins w) (asked w ++ l) (ran w).

Definition note_run (p : nat) (cb : Callback) (v : V) (w : World) : World :=
  mkWorld (promises w) (counts w) (pool w) (origins w) (asked w) (ran w ++ [(p, cb, v)]).

(** [count->fetch_sub(1) == 1] *)
Definition fetch_sub (c : nat) (w : World) : World * bool :=
  let n := default 0%nat (counts w !! c) in
  (mkWorld (promises w) (<[c := (n - 1)%nat]> (counts w)) (pool w) (origins w) (asked w) (ran w), bool_decide (n = 1%nat)).

(** A continuation runs with the result of the promise it was registered with. *)
Definition Call (p : nat) (cb : Callback) (v : V) (w : World) : World :=
  let w := note_run p cb v w in
  match cb with
  | CMap f q => push [TResolve q (f v)] w
  | CFlat f q => ask [(f v, CForward q)] w
  | CForward q => push [TResolve q v] w
  | CAll q => let '(w, last) := fetch_sub q w in if last then push [TResolve q monostate] w else w
  | CAny i q => push [TResolve q (of_index i)] w
  end.

Definition run_task (t : Task) (w : World) : World :=
  match t with
  | TThen p cb => Then p cb w
  | TCall p cb v => Call p cb v w
  | TResolve q v => Resolve q v w
  end.

(** ** The program and its threads *)

(** A new promise [q], with what its call registers and starts. *)
Definition create (o : Origin) (count : option nat) (l : list (nat * Callback)) (ts : list Task) (w : World) : World :=
  mkWorld (promises w ++ [mkPromise None []])
    (match count with Some n => <[length (promises w) := n]> (counts w) | None => counts w end)
    (pool w ++ ((λ x, TThen x.1 x.2) <$> l) ++ ts) (origins w ++ [o]) (asked w ++ l) (ran w).

Inductive Op :=
| NewPromise
| CallResolve (p : nat) (v : V)
| CallThen (p : nat) (f : V → V)
| CallThenFlat (p : nat) (f : V → nat)
| CallWhenAll (ps : list nat)
| CallWhenAny (ps : list nat)
| MakeFuture (v : V)
| Step (k : nat).

Definition is_held (w : World) (p : nat) : bool := match origins w !! p with Some OHeld => true | _ => false end.

(** A program resolves the promises it holds; the others are inside their calls. *)
Definition op (w : World) (o : Op) : World :=
  let q := length (promises w) in
  match o with
  | NewPromise => create OHeld None [] [] w
  | CallResolve p v => if is_held w p then push [TResolve p v] w else w
  | CallThen p f => create (OThen p f) None [(p, CMap f q)] [] w
  | CallThenFlat p f => create (OFlat p f) None [(p, CFlat f q)] [] w
  | CallWhenAll [] => create (OAll []) (Some 0%nat) [] [TResolve q monostate] w
  | CallWhenAll ps => create (OAll ps) (Some (length ps)) ((λ p, (p, CAll q)) <$> ps) [] w
  | CallWhenAny ps => create (OAny ps) None (imap (λ i p, (p, CAny i q)) ps) [] w
  | MakeFuture v => create OHeld None [] [TResolve q v] w
  | Step k =>
      match pool w !! k with
      | Some t => run_task t (mkWorld (promises w) (counts w) (delete k (pool w)) (origins w) (asked w) (ran w))
      | None => w
      end
  end.

(** ** Invariant *)

Fixpoint waiting_from (k : nat) (ps : list PromiseInternal) : list (nat * Callback) :=
  match ps with
  | [] => []
  | pi :: ps => ((λ cb, (k, cb)) <$> continuations_ pi) ++ waiting_from (S k) ps
  end.

Definition waiting (w : World) : list (nat * Callback) := waiting_from 0 (promises w).

Definition task_token (t : Task) : option (nat * Callback) :=
  match t with TThen p cb | TCall p cb _ => Some (p, cb) | TResolve _ _ => None end.

(** Where the registered continuations are: in the pool, waiting for their promise, or run. *)
Definition tokens (w : World) : list (nat * Callback) := omap task_token (pool w) ++ waiting w ++ (ran w).*1.

Definition settles (w : World) (q : nat) (u : V) : Prop := is_Some (GetResult w q) ∨ TResolve q u ∈ pool w.

Definition effect (w : World) (cb : Callback) (v : V) : Prop :=
  match cb with
  | CMap f q => settles w q (f v)
  | CFlat f q => (f v, CForward q) ∈ asked w
  | CForward q => settles w q v
  | CAll _ => True
  | CAny i q => settles w q (of_index i)
  end.

(** The value a promise may have, by its origin. *)
Definition why (w : World) (q : nat) (u : V) : Prop :=
  match origins w !! q with
  | Some OHeld => True
  | Some (OThen p f) => ∃ v, GetResult w p = Some v ∧ u = f v
  | Some (OFlat p f) => ∃ v, GetResult w p = Some v ∧ GetResult w (f v) = Some u
  | Some (OAll ps) => u = monostate ∧ counts w !! q = Some 0%nat
  | Some (OAny ps) => ∃ i p, ps !! i = Some p ∧ is_Some (GetResult w p) ∧ u = of_index i
  | None => False
  end.

Definition fits (w : World) (p : nat) (cb : Callback) : Prop :=
  match cb with
  | CMap f q => origins w !! q = Some (OThen p f)
  | CFlat f q => origins w !! q = Some (OFlat p f)
  | CForward q => ∃ p0 f v, origins w !! q = Some (OFlat p0 f) ∧ GetResult w p0 = Some v ∧ p = f v
  | CAll q => ∃ ps, origins w !! q = Some (OAll ps) ∧ p ∈ ps
  | CAny i q => ∃ ps, origins w !! q = Some (OAny ps) ∧ ps !! i = Some p
  end.

Definition is_all (q : nat) (cb : Callback) : bool := match cb with CAll q' => bool_decide (q' = q) | _ => false end.

Definition all_of (q : nat) (l : list (nat * Callback)) : list (nat * Callback) := filter (λ x, is_all q x.2 = true) l.

Definition started (w : World) (q : nat) (o : Origin) : Prop :=
  match o with
  | OHeld => True
  | OThen p f => (p, CMap f q) ∈ asked w
  | OFlat p f => (p, CFlat f q) ∈ asked w
  | OAll ps => all_of q (asked w) ≡ₚ ((λ p, (p, CAll q)) <$> ps)
  | OAny ps => ∀ i p, ps !! i = Some p → (p, CAny i q) ∈ asked w
  end.

Definition counted (w : World) (q : nat) (ps : list nat) : Prop :=
  ∃ n, counts w !! q = Some n ∧ (n + length (all_of q (ran w).*1) = length ps)%nat ∧ (n = 0%nat → settles w q monostate).

Record Inv (w : World) : Prop := mkInv {
  inv_length : length (origins w) = length (promises w);
  inv_tokens : asked w ≡ₚ tokens w;
  inv_value p cb v : TCall p cb v ∈ pool w ∨ (p, cb, v) ∈ ran w → GetResult w p = Some v;
  inv_taken p v ks : promises w !! p = Some (mkPromise (Some v) ks) → ks = [];
  inv_effect p cb v : (p, cb, v) ∈ ran w → effect w cb v;
  inv_why q u : GetResult w q = Some u ∨ TResolve q u ∈ pool w → why w q u;
  inv_asked p cb : (p, cb) ∈ asked w → fits w p cb;
  inv_started q o : origins w !! q = Some o → started w q o;
  inv_counted q ps : origins w !! q = Some (OAll ps) → counted w q ps;
}.

(** ** Lemmas *)

Lemma waiting_insert k ps q pi pi' :
  ps !! q = Some pi →
  waiting_from k (<[q := pi']> ps) ++ ((λ cb, ((k + q)%nat, cb)) <$> continuations_ pi) ≡ₚ
  waiting_from k ps ++ ((λ cb, ((k + q)%nat, cb)) <$> continuations_ pi').
Proof.
  revert k q. induction ps as [|p0 ps IH]; intros k [|q] Hq; simpl in *; [done|done|..].
  - injection Hq as ->. rewrite Nat.add_0_r. solve_Permutation.
  - replace (k + S q)%nat with (S k + q)%nat by lia. rewrite <- !app_assoc, (IH (S k) q Hq). done.
Qed.

Lemma waiting_app k ps ps' : waiting_from k (ps ++ ps') = waiting_from k ps ++ waiting_from (k + length ps) ps'.
Proof.
  revert k. induction ps as [|pi ps IH]; intros k; simpl; [by rewrite Nat.add_0_r|].
  rewrite IH, app_assoc. do 2 f_equal. lia.
Qed.

Lemma elem_waiting k ps p cb :
  (p, cb) ∈ waiting_from k ps → ∃ i pi, p = (k + i)%nat ∧ ps !! i = Some pi ∧ cb ∈ continuations_ pi.
Proof.
  revert k. induction ps as [|pi ps IH]; intros k; simpl; [by intros ?%elem_of_nil|].
  intros [(cb' & [= -> ->] & Hin)%list_elem_of_fmap|(i & pi' & -> & Hi & Hin)%IH]%elem_of_app.
  - exists 0%nat, pi. split_and!; [lia|done|done].
  - exists (S i), pi'. split_and!; [lia|done|done].
Qed.

Lemma waiting_elem k ps i pi cb :
  ps !! i = Some pi → cb ∈ continuations_ pi → ((k + i)%nat, cb) ∈ waiting_from k ps.
Proof.
  intros Hi Hc. revert k i Hi. induction ps as [|p0 ps IH]; intros k [|i] Hi; simplify_eq/=; apply elem_of_app.
  - left. rewrite Nat.add_0_r. apply list_elem_of_fmap. eauto.
  - right. replace (k + S i)%nat with (S k + i)%nat by lia. by apply IH.
Qed.

(** What a step may do to the parts of the state that the invariant reads. *)
Record extends (w w' : World) : Prop := mkExtends {
  ext_result p v : GetResult w p = Some v → GetResult w' p = Some v;
  ext_asked x : x ∈ asked w → x ∈ asked w';
  ext_origin q o : origins w !! q = Some o → origins w' !! q = Some o;
  ext_resolve q u : TResolve q u ∈ pool w → TResolve q u ∈ pool w' ∨ is_Some (GetResult w' q);
}.

Lemma settles_extends w w' q u : extends w w' → settles w q u → settles w' q u.
Proof.
  intros He [[v Hv]|Hin]; [left; eexists; by apply He|].
  destruct (ext_resolve _ _ He _ _ Hin); [by right|by left].
Qed.

Lemma effect_extends w w' cb v : extends w w' → effect w cb v → effect w' cb v.
Proof. intros He. destruct cb; simpl; try apply settles_extends; try done. apply He. Qed.

Lemma fits_extends w w' p cb : extends w w' → fits w p cb → fits w' p cb.
Proof.
  intros He. destruct cb; simpl; [apply He..| | |].
  - intros (p0 & f & v & Ho & Hv & ->). exists p0, f, v. split_and!; [by apply He|by apply He|done].
  - intros (ps & Ho & Hp). exists ps. split; [by apply He|done].
  - intros (ps & Ho & Hp). exists ps. split; [by apply He|done].
Qed.

Lemma why_extends w w' q u :
  extends w w' → (∀ ps, origins w !! q = Some (OAll ps) → counts w !! q = Some 0%nat → counts w' !! q = Some 0%nat) →
  why w q u → why w' q u.
Proof.
  intros He Hc. unfold why. destruct (origins w !! q) as [o|] eqn:Ho; [|done]. rewrite (ext_origin _ _ He _ _ Ho).
  destruct o; [done|..].
  - intros (v & Hv & ->). exists v. split; [by apply He|done].
  - intros (v & Hv & Hu). exists v. split; by apply He.
  - intros [-> Hn]. split; [done|by eapply Hc].
  - intros (i & p & Hi & [v Hv] & ->). exists i, p. split_and!; [done|eexists; by apply He|done].
Qed.

(** The invariant after a step, from what the step changed. *)
Lemma inv_step w w' :
  Inv w → extends w w' →
  length (origins w') = length (promises w') →
  asked w' ≡ₚ tokens w' →
  (∀ p cb v, TCall p cb v ∈ pool w' ∨ (p, cb, v) ∈ ran w' → TCall p cb v ∈ pool w ∨ (p, cb, v) ∈ ran w ∨ GetResult w' p = Some v) →
  (∀ p v ks, promises w' !! p = Some (mkPromise (Some v) ks) → ks = []) →
  (∀ p cb v, (p, cb, v) ∈ ran w' → (p, cb, v) ∈ ran w ∨ effect w' cb v) →
  (∀ q u, GetResult w' q = Some u ∨ TResolve q u ∈ pool w' → GetResult w q = Some u ∨ TResolve q u ∈ pool w ∨ why w' q u) →
  (∀ p cb, (p, cb) ∈ asked w' → (p, cb) ∈ asked w ∨ fits w' p cb) →
  (∀ q o, origins w' !! q = Some o → origins w !! q = Some o ∧ all_of q (asked w') = all_of q (asked w) ∨ started w' q o) →
  (∀ q ps, origins w !! q = Some (OAll ps) → counts w !! q = Some 0%nat → counts w' !! q = Some 0%nat) →
  (∀ q ps, origins w' !! q = Some (OAll ps) → origins w !! q = Some (OAll ps) ∧ counts w' !! q = counts w !! q ∧
     all_of q (ran w').*1 = all_of q (ran w).*1 ∨ counted w' q ps) →
  Inv w'.
Proof.
  intros I E Hlen Htok Hval Htak Heff Hwhy Hask Hst Hz Hcnt. split; [done|done|..|done| | | | |].
  - intros p cb v Hin. destruct (Hval _ _ _ Hin) as [H|[H|H]]; [| |done]; apply E, (inv_value _ I p cb); auto.
  - intros p cb v Hin. destruct (Heff _ _ _ Hin) as [H|H]; [|done]. eapply effect_extends, inv_effect; eauto.
  - intros q u Hin. destruct (Hwhy _ _ Hin) as [H|[H|H]]; [| |done];
      (eapply why_extends; [exact E|intros ps; apply Hz|apply (inv_why _ I); auto]).
  - intros p cb Hin. destruct (Hask _ _ Hin) as [H|H]; [|done]. eapply fits_extends, inv_asked; eauto.
  - intros q o Ho. destruct (Hst _ _ Ho) as [[Ho' Ha]|]; [|done]. pose proof (inv_started _ I _ _ Ho') as H.
    destruct o; simpl in *; [done|by apply E|by apply E|by rewrite Ha|]. intros i p Hi. by apply E, H.
  - intros q ps Ho. destruct (Hcnt _ _ Ho) as [(Ho' & Hc & Ha)|]; [|done].
    destruct (inv_counted _ I _ _ Ho') as (n & Hn & Hs & Hd). exists n. rewrite Hc, Ha. split_and!; [done|done|].
    intros Hz'. by eapply settles_extends, Hd.
Qed.

Definition with_pool (pl : list Task) (w : World) : World :=
  mkWorld (promises w) (counts w) pl (origins w) (asked w) (ran w).

Lemma inv_pool w pl : Inv w → pool w ≡ₚ pl → Inv (with_pool pl w).
Proof.
  intros I Hp. assert (∀ t, t ∈ pl ↔ t ∈ pool w) as Hin by (intros t; by rewrite Hp).
  eapply inv_step; [exact I|..]; unfold tokens, waiting; simpl; intros.
  - split; simpl; [done..|]. intros q u. rewrite Hin. auto.
  - apply I.
  - rewrite (inv_tokens _ I). unfold tokens. by rewrite Hp.
  - rewrite Hin in H. tauto.
  - by eapply (inv_taken _ I).
  - tauto.
  - rewrite Hin in H. tauto.
  - tauto.
  - tauto.
  - done.
  - tauto.
Qed.

(** [Then]: the continuation waits, or is handed to its executor. *)
Lemma then_inv p cb pl w : Inv (with_pool (TThen p cb :: pl) w) → Inv (Then p cb (with_pool pl w)).
Proof.
  intros I. unfold Then. simpl. destruct (promises w !! p) as [[[v|] ks]|] eqn:Hp.
  - eapply inv_step; [exact I|..]; unfold tokens, waiting; simpl; intros.
    + split; simpl; [done..|]. intros q u. rewrite elem_of_cons, elem_of_app. naive_solver.
    + apply I.
    + rewrite (inv_tokens _ I). unfold tokens, waiting. simpl. rewrite omap_app. simpl. solve_Permutation.
    + rewrite elem_of_app, list_elem_of_singleton in H. rewrite elem_of_cons.
      destruct H as [[H|H]|H]; [auto| |auto]. simplify_eq. right; right. unfold GetResult. simpl. by rewrite Hp.
    + by eapply (inv_taken _ I).
    + tauto.
    + rewrite elem_of_app, list_elem_of_singleton in H. rewrite elem_of_cons. naive_solver.
    + tauto.
    + tauto.
    + done.
    + tauto.
  - assert (∀ p', GetResult (set_promise p (mkPromise None (ks ++ [cb])) (with_pool pl w)) p' = GetResult w p') as Hres.
    { intros p'. unfold GetResult. simpl. destruct (decide (p' = p)) as [->|].
      - rewrite list_lookup_insert_eq by (by eapply lookup_lt_Some). by rewrite Hp.
      - by rewrite list_lookup_insert_ne. }
    eapply inv_step; [exact I|..]; unfold tokens, waiting; simpl; intros.
    + split; simpl; [intros ??; by rewrite Hres|done..|]. intros q u. rewrite elem_of_cons. naive_solver.
    + rewrite length_insert. apply I.
    + rewrite (inv_tokens _ I). unfold tokens, waiting. simpl.
      pose proof (waiting_insert 0 _ p _ (mkPromise None (ks ++ [cb])) Hp) as Hw. simpl in Hw.
      rewrite fmap_app in Hw. simpl in Hw. rewrite app_assoc in Hw.
      assert (waiting_from 0 (<[p:=mkPromise None (ks ++ [cb])]> (promises w)) ≡ₚ (p, cb) :: waiting_from 0 (promises w)) as ->; [|solve_Permutation].
      apply (Permutation_app_inv_r ((λ cb0, (p, cb0)) <$> ks)). rewrite Hw. solve_Permutation.
    + rewrite elem_of_cons. tauto.
    + destruct (decide (p0 = p)) as [->|].
      * rewrite list_lookup_insert_eq in H by (by eapply lookup_lt_Some). done.
      * rewrite list_lookup_insert_ne in H by done. by eapply (inv_taken _ I).
    + tauto.
    + rewrite Hres in H. rewrite elem_of_cons. tauto.
    + tauto.
    + tauto.
    + done.
    + tauto.
  - apply (inv_pool _ (pl ++ [TThen p cb])) in I; [exact I|]. simpl. solve_Permutation.
Qed.

(** [Resolve]: the first one counts, and hands over what was waiting. *)
Lemma resolve_inv q v pl w : Inv (with_pool (TResolve q v :: pl) w) → Inv (Resolve q v (with_pool pl w)).
Proof.
  intros I. unfold Resolve. simpl. destruct (promises w !! q) as [pi|] eqn:Hq.
  2:{ exfalso. pose proof (inv_why _ I q v (or_intror (list_elem_of_here _ _))) as Hw. unfold why in Hw. simpl in Hw.
      destruct (origins w !! q) as [o|] eqn:Ho; [|done]. apply lookup_lt_Some in Ho. apply lookup_ge_None in Hq.
      pose proof (inv_length _ I) as Hl. simpl in Hl. lia. }
  destruct pi as [[v'|] ks].
  { assert (GetResult (with_pool pl w) q = Some v') as Hr by (unfold GetResult; simpl; by rewrite Hq).
    eapply inv_step; [exact I|..]; unfold tokens, waiting; simpl; intros; try tauto; try done.
    - split; simpl; [done..|]. intros q' u. rewrite elem_of_cons. intros [[= -> ->]|]; [right; eauto|auto].
    - apply I.
    - apply (inv_tokens _ I).
    - rewrite elem_of_cons. tauto.
    - by eapply (inv_taken _ I).
    - rewrite elem_of_cons. tauto. }
  set (w' := push _ _).
  assert (∀ p, GetResult w' p = if decide (p = q) then Some v else GetResult w p) as Hres.
  { intros p. unfold GetResult, w'. simpl. case_decide as Hd; [subst p|by rewrite list_lookup_insert_ne].
    by rewrite list_lookup_insert_eq by (by eapply lookup_lt_Some). }
  assert (GetResult w q = None) as Hnone by (unfold GetResult; by rewrite Hq).
  eapply inv_step; [exact I|..]; simpl; intros.
  - split; simpl.
    + intros p u Hu. rewrite Hres. case_decide; [|done]. subst. unfold GetResult in *. simpl in *. congruence.
    + done.
    + done.
    + intros q' u. rewrite elem_of_cons, elem_of_app. intros [[= -> ->]|]; [|auto].
      right. rewrite Hres. by rewrite decide_True.
  - rewrite length_insert. apply I.
  - rewrite (inv_tokens _ I). unfold tokens, waiting. simpl. rewrite omap_app.
    pose proof (waiting_insert 0 _ q _ (mkPromise (Some v) []) Hq) as Hw. simpl in Hw. rewrite app_nil_r in Hw.
    rewrite <- Hw. assert (omap task_token ((λ cb, TCall q cb v) <$> ks) = (λ cb, (q, cb)) <$> ks) as ->; [|solve_Permutation].
    clear. induction ks as [|k ks IH]; [done|]. simpl. by f_equal.
  - rewrite elem_of_cons. destruct H as [[H|H]%elem_of_app|H]; [auto| |auto].
    apply list_elem_of_fmap in H as (cb' & [= -> -> ->] & _). right; right. rewrite Hres. by rewrite decide_True.
  - destruct (decide (p = q)) as [->|].
    + rewrite list_lookup_insert_eq in H by (by eapply lookup_lt_Some). by simplify_eq.
    + rewrite list_lookup_insert_ne in H by done. by eapply (inv_taken _ I).
  - tauto.
  - rewrite Hres in H. rewrite elem_of_cons. destruct H as [H|[H|H]%elem_of_app]; [|by auto|].
    + case_decide; [subst; simplify_eq; auto|auto].
    + by apply list_elem_of_fmap in H as (? & ? & ?).
  - tauto.
  - tauto.
  - done.
  - tauto.
Qed.

(** A task's continuation was asked for, and fits the promise it resolves. *)
Lemma call_fits p cb v pl w :
  Inv (with_pool (TCall p cb v :: pl) w) → fits w p cb ∧ GetResult w p = Some v.
Proof.
  intros I. split.
  - apply (inv_asked _ I). rewrite (inv_tokens _ I). unfold tokens. simpl. apply list_elem_of_here.
  - apply (inv_value _ I p cb). left. apply list_elem_of_here.
Qed.

#[local] Instance all_of_proper q : Proper ((≡ₚ) ==> (≡ₚ)) (all_of q).
Proof. intros l l' Hl. unfold all_of. by rewrite Hl. Qed.

Lemma all_of_app q a b : all_of q (a ++ b) = all_of q a ++ all_of q b.
Proof. apply filter_app. Qed.

Lemma all_of_one q p cb : all_of q [(p, cb)] = if is_all q cb then [(p, cb)] else [].
Proof. unfold all_of. rewrite filter_cons, filter_nil. simpl. by destruct (is_all q cb). Qed.

(** The tokens after a continuation has run. *)
Lemma ran_tokens p cb v pl w more :
  Inv (with_pool (TCall p cb v :: pl) w) →
  asked w ++ omap task_token more ≡ₚ omap task_token (pl ++ more) ++ waiting w ++ ((ran w ++ [(p, cb, v)]).*1).
Proof.
  intros I. pose proof (inv_tokens _ I) as Ht. unfold tokens in Ht. simpl in Ht. rewrite Ht, omap_app, fmap_app. simpl.
  change (waiting (with_pool (TCall p cb v :: pl) w)) with (waiting w). solve_Permutation.
Qed.

Lemma call_settle_inv p cb v q u pl w :
  Inv (with_pool (TCall p cb v :: pl) w) → (∀ q', is_all q' cb = false) → why w q u →
  (∀ w', settles w' q u → effect w' cb v) →
  Inv (push [TResolve q u] (note_run p cb v (with_pool pl w))).
Proof.
  intros I Hall Hw Heff. destruct (call_fits _ _ _ _ _ I) as [_ Hv].
  eapply inv_step; [exact I|..]; simpl; intros.
  - split; simpl; [done..|]. intros q' u'. rewrite elem_of_cons, elem_of_app. naive_solver.
  - apply I.
  - pose proof (ran_tokens _ _ _ _ _ [TResolve q u] I) as Ht. simpl in Ht. rewrite app_nil_r in Ht. exact Ht.
  - rewrite elem_of_cons. destruct H as [[H|H%list_elem_of_singleton]%elem_of_app|[H|H%list_elem_of_singleton]%elem_of_app]; [auto|done|auto|].
    simplify_eq. auto.
  - by eapply (inv_taken _ I).
  - apply elem_of_app in H as [H|H%list_elem_of_singleton]; [auto|]. simplify_eq. right. apply Heff. right. simpl.
    apply elem_of_app. right. apply list_elem_of_here.
  - rewrite elem_of_cons. destruct H as [H|[H|H%list_elem_of_singleton]%elem_of_app]; [auto|auto|]. simplify_eq. by right; right.
  - tauto.
  - tauto.
  - done.
  - left. rewrite fmap_app, all_of_app. simpl. rewrite all_of_one, Hall, app_nil_r. done.
Qed.

Lemma call_flat_inv p f q v pl w :
  Inv (with_pool (TCall p (CFlat f q) v :: pl) w) →
  Inv (ask [(f v, CForward q)] (note_run p (CFlat f q) v (with_pool pl w))).
Proof.
  intros I. destruct (call_fits _ _ _ _ _ I) as [Hf Hv].
  eapply inv_step; [exact I|..]; simpl; intros.
  - split; simpl; [done| |done|].
    + intros x. rewrite elem_of_app. auto.
    + intros q' u'. rewrite elem_of_cons, elem_of_app. naive_solver.
  - apply I.
  - apply (ran_tokens _ _ _ _ _ [TThen (f v) (CForward q)] I).
  - rewrite elem_of_cons. destruct H as [[H|H%list_elem_of_singleton]%elem_of_app|[H|H%list_elem_of_singleton]%elem_of_app]; [auto|done|auto|].
    simplify_eq. auto.
  - by eapply (inv_taken _ I).
  - apply elem_of_app in H as [H|H%list_elem_of_singleton]; [auto|]. simplify_eq. right. simpl.
    apply elem_of_app. right. apply list_elem_of_here.
  - rewrite elem_of_cons. destruct H as [H|[H|H%list_elem_of_singleton]%elem_of_app]; [auto|auto|done].
  - apply elem_of_app in H as [H|H%list_elem_of_singleton]; [auto|]. simplify_eq. right. exists p, f, v. done.
  - left. rewrite all_of_app, all_of_one, app_nil_r. done.
  - done.
  - left. rewrite fmap_app, all_of_app. simpl. rewrite all_of_one, app_nil_r. done.
Qed.

(** The counter of a call that still has a continuation to run is not zero. *)
Lemma count_left p q v pl w ps :
  Inv (with_pool (TCall p (CAll q) v :: pl) w) → origins w !! q = Some (OAll ps) →
  ∃ n, counts w !! q = Some (S n) ∧ (S n + length (all_of q (ran w).*1) = length ps)%nat.
Proof.
  intros I Ho. destruct (inv_counted _ I q ps Ho) as (n & Hn & Hs & _). simpl in *.
  pose proof (inv_started _ I q _ Ho) as Hst. simpl in Hst. rewrite (inv_tokens _ I) in Hst.
  unfold tokens, waiting in Hst. simpl in Hst. apply Permutation_length in Hst. rewrite length_fmap in Hst.
  unfold all_of in Hst at 1. rewrite filter_cons, decide_True in Hst by (simpl; by rewrite bool_decide_true).
  change (filter (λ x : nat * Callback, is_all q x.2 = true)) with (all_of q) in Hst.
  simpl in Hst. rewrite !all_of_app, !length_app in Hst. destruct n as [|n]; [lia|]. eauto.
Qed.

Lemma call_all_inv p q v pl w :
  Inv (with_pool (TCall p (CAll q) v :: pl) w) → Inv (Call p (CAll q) v (with_pool pl w)).
Proof.
  intros I. destruct (call_fits _ _ _ _ _ I) as [(ps & Ho & Hin) Hv].
  destruct (count_left _ _ _ _ _ _ I Ho) as (n & Hn & Hs).
  unfold Call, fetch_sub. simpl. rewrite Hn. simpl. rewrite Nat.sub_0_r.
  set (more := if bool_decide (S n = 1%nat) then [TResolve q monostate] else []).
  set (w' := mkWorld (promises w) (<[q := n]> (counts w)) (pl ++ more) (origins w) (asked w) (ran w ++ [(p, CAll q, v)])).
  assert ((if bool_decide (S n = 1%nat) then push [TResolve q monostate]
    (mkWorld (promises w) (<[q := n]> (counts w)) pl (origins w) (asked w) (ran w ++ [(p, CAll q, v)]))
    else mkWorld (promises w) (<[q := n]> (counts w)) pl (origins w) (asked w) (ran w ++ [(p, CAll q, v)])) = w') as ->.
  { unfold w', more. case_bool_decide; [done|]. by rewrite app_nil_r. }
  assert (∀ t, t ∈ more → t = TResolve q monostate ∧ n = 0%nat) as Hmore.
  { unfold more. case_bool_decide; [|by intros ??%elem_of_nil]. intros t ->%list_elem_of_singleton. split; [done|lia]. }
  eapply inv_step; [exact I|..]; simpl; intros.
  - split; simpl; [done..|]. intros q' u'. rewrite elem_of_cons, elem_of_app. naive_solver.
  - apply I.
  - pose proof (ran_tokens _ _ _ _ _ more I) as Ht.
    assert (omap task_token more = []) as Hm by (unfold more; by case_bool_decide). rewrite Hm, app_nil_r in Ht. exact Ht.
  - rewrite elem_of_cons. destruct H as [[H|[? _]%Hmore]%elem_of_app|[H|H%list_elem_of_singleton]%elem_of_app]; [auto|done|auto|].
    simplify_eq. auto.
  - by eapply (inv_taken _ I).
  - apply elem_of_app in H as [H|H%list_elem_of_singleton]; [auto|]. simplify_eq. by right.
  - rewrite elem_of_cons. destruct H as [H|[H|[H Hz]%Hmore]%elem_of_app]; [auto|auto|]. simplify_eq. right; right.
    unfold why. simpl. rewrite Ho. split; [done|]. by rewrite lookup_insert_eq.
  - tauto.
  - tauto.
  - destruct (decide (q0 = q)) as [->|]; [congruence|]. by rewrite lookup_insert_ne.
  - destruct (decide (q0 = q)) as [->|Hne].
    + right. simplify_eq. exists n. simpl. rewrite lookup_insert_eq, fmap_app, all_of_app, length_app. simpl.
      rewrite all_of_one. simpl. rewrite bool_decide_true by done. simpl. split_and!; [done|lia|].
      intros ->. right. simpl. apply elem_of_app. right. apply list_elem_of_here.
    + left. rewrite lookup_insert_ne by done. split_and!; [done|done|].
      rewrite fmap_app, all_of_app. simpl. rewrite all_of_one. simpl. rewrite bool_decide_false by done. by rewrite app_nil_r.
Qed.

Lemma call_inv p cb v pl w : Inv (with_pool (TCall p cb v :: pl) w) → Inv (Call p cb v (with_pool pl w)).
Proof.
  intros I. destruct (call_fits _ _ _ _ _ I) as [Hf Hv]. destruct cb as [f q|f q|q|q|i q].
  - apply call_settle_inv; [done|done| |done]. unfold why. simpl in Hf. rewrite Hf. eauto.
  - by apply call_flat_inv.
  - apply call_settle_inv; [done|done| |done]. destruct Hf as (p0 & f & v0 & Ho & Hr & ->). unfold why. rewrite Ho. eauto.
  - by apply call_all_inv.
  - apply call_settle_inv; [done|done| |done]. destruct Hf as (ps & Ho & Hi). unfold why. rewrite Ho. eauto 6.
Qed.

(** A call creates its promise together with what it registers. *)
Lemma create_inv o count l ts w :
  Inv w → let q := length (promises w) in let w' := create o count l ts w in
  (∀ p cb, (p, cb) ∈ l → fits w' p cb) →
  (∀ t, t ∈ ts → ∃ u, t = TResolve q u ∧ why w' q u) →
  (∀ q', (q' < q)%nat → all_of q' l = []) →
  started w' q o → (∀ ps, o = OAll ps → counted w' q ps) →
  Inv w'.
Proof.
  intros I q w' Hfits Hts Hl Hst Hcnt. pose proof (inv_length _ I) as Hlen.
  assert (∀ p, GetResult w' p = GetResult w p) as Hres.
  { intros p. unfold GetResult, w'. simpl. destruct (decide (p < length (promises w))%nat) as [|Hge].
    - by rewrite lookup_app_l.
    - rewrite lookup_app_r, (lookup_ge_None_2 (promises w)) by lia. by destruct (p - _)%nat as [|[]]. }
  assert (∀ q' o', origins w' !! q' = Some o' → (q' < q)%nat ∧ origins w !! q' = Some o' ∨ q' = q ∧ o' = o) as Hori.
  { intros q' o'. unfold w'. simpl. intros [H|[Hge H]]%lookup_app_Some.
    - left. split; [|done]. apply lookup_lt_Some in H. unfold q. lia.
    - right. apply list_lookup_singleton_Some in H as [H ->]. split; [unfold q; lia|done]. }
  eapply inv_step; [exact I|..]; simpl; intros.
  - split; simpl.
    + intros p u. by rewrite Hres.
    + intros x. rewrite elem_of_app. auto.
    + intros q' o' Ho. by apply lookup_app_l_Some.
    + intros q' u. rewrite !elem_of_app. auto.
  - rewrite !length_app. simpl. lia.
  - rewrite (inv_tokens _ I). unfold tokens, waiting. simpl. rewrite waiting_app, !omap_app. simpl. rewrite app_nil_r.
    assert (omap task_token ts = []) as ->.
    { clear -Hts. induction ts as [|t ts IH]; [done|]. destruct (Hts t (list_elem_of_here _ _)) as (u & -> & _).
      simpl. apply IH. intros t Ht. apply Hts. by apply list_elem_of_further. }
    assert (omap task_token ((λ x, TThen x.1 x.2) <$> l) = l) as ->; [|solve_Permutation].
    clear. induction l as [|[] l IH]; [done|]. simpl. by f_equal.
  - destruct H as [[H|[H|H]%elem_of_app]%elem_of_app|H]; [auto| | |auto].
    + by apply list_elem_of_fmap in H as (? & ? & ?).
    + destruct (Hts _ H) as (? & ? & _). done.
  - apply lookup_app_Some in H as [H|[_ H]]; [by eapply (inv_taken _ I)|].
    apply list_lookup_singleton_Some in H as [_ H]. done.
  - auto.
  - rewrite Hres in H. destruct H as [H|[H|[H|H]%elem_of_app]%elem_of_app]; [auto|auto| |].
    + by apply list_elem_of_fmap in H as (? & ? & ?).
    + destruct (Hts _ H) as (u' & ? & Hw). simplify_eq. auto.
  - apply elem_of_app in H as [H|H]; auto.
  - destruct (Hori _ _ H) as [[Hlt Ho]|[-> ->]]; [|by right]. left. split; [done|].
    by rewrite all_of_app, Hl, app_nil_r.
  - destruct count; [|done]. rewrite lookup_insert_ne; [done|]. apply lookup_lt_Some in H. lia.
  - destruct (Hori _ _ H) as [[Hlt Ho]|[-> Ho]]; [|right; by apply Hcnt]. left. split_and!; [done| |done].
    destruct count; [|done]. rewrite lookup_insert_ne; [done|]. unfold q in Hlt. lia.
Qed.

Lemma step_inv k w : Inv w → Inv (op w (Step k)).
Proof.
  intros I. simpl. destruct (pool w !! k) as [t|] eqn:Hk; [|done].
  change (mkWorld _ _ _ _ _ _) with (with_pool (delete k (pool w)) w).
  assert (Inv (with_pool (t :: delete k (pool w)) w)) as I'.
  { apply inv_pool; [done|]. by apply delete_Permutation. }
  destruct t; [by apply then_inv|by apply call_inv|by apply resolve_inv].
Qed.

Lemma all_of_none q (l : list (nat * Callback)) : (∀ p cb, (p, cb) ∈ l → is_all q cb = false) → all_of q l = [].
Proof.
  induction l as [|[p cb] l IH]; intros Hl; [done|]. unfold all_of. rewrite filter_cons. simpl.
  rewrite (Hl p cb) by apply list_elem_of_here. apply IH. intros p' cb' Hin. apply (Hl p'). by apply list_elem_of_further.
Qed.

Lemma all_of_map q ps : all_of q ((λ p, (p, CAll q)) <$> ps) = (λ p, (p, CAll q)) <$> ps.
Proof.
  induction ps as [|p ps IH]; [done|]. rewrite fmap_cons. unfold all_of in *. rewrite filter_cons. simpl.
  rewrite bool_decide_true by done. simpl. by rewrite IH.
Qed.

(** Nothing refers to a promise that does not exist yet. *)
Lemma fresh_none w : Inv w → all_of (length (promises w)) (asked w) = [] ∧ all_of (length (promises w)) (ran w).*1 = [].
Proof.
  intros I. assert (all_of (length (promises w)) (asked w) = []) as Ha.
  { apply all_of_none. intros p cb Hin. pose proof (inv_asked _ I _ _ Hin) as Hf.
    destruct cb; try done. simpl in *. apply bool_decide_false. intros ->. destruct Hf as (ps & Ho & _).
    apply lookup_lt_Some in Ho. rewrite (inv_length _ I) in Ho. lia. }
  split; [done|]. apply all_of_none. intros p cb Hin. destruct (is_all _ cb) eqn:E; [|done]. exfalso.
  assert ((p, cb) ∈ all_of (length (promises w)) (asked w)) as Hx; [|rewrite Ha in Hx; by apply elem_of_nil in Hx].
  apply list_elem_of_filter. split; [done|]. rewrite (inv_tokens _ I). unfold tokens. rewrite !elem_of_app. auto.
Qed.

Lemma created_origin o count l ts w : Inv w → origins (create o count l ts w) !! length (promises w) = Some o.
Proof. intros I. simpl. rewrite <- (inv_length _ I). apply list_lookup_middle. done. Qed.

Lemma imap_origin (g : nat → nat → nat * Callback) (l : list nat) x :
  x ∈ imap g l → ∃ i p, l !! i = Some p ∧ x = g i p.
Proof. intros (i & Hi)%list_elem_of_lookup. rewrite list_lookup_imap in Hi. destruct (l !! i) as [p|] eqn:E; simplify_eq/=. eauto. Qed.

Lemma op_inv w o : Inv w → Inv (op w o).
Proof.
  intros I. destruct (fresh_none w I) as [Fa Fr]. destruct o as [|p v|p f|p f|ps|ps|v|k]; [..|by apply step_inv]; simpl.
  - apply create_inv; simpl; try done; by intros ? ?%elem_of_nil || by intros ? ? ?%elem_of_nil.
  - destruct (is_held w p) eqn:Hh; [|done]. unfold is_held in Hh. destruct (origins w !! p) as [[]|] eqn:Ho; try done.
    eapply inv_step; [exact I|..]; simpl; intros.
    + split; simpl; [done..|]. intros q u. rewrite elem_of_app. auto.
    + apply I.
    + rewrite (inv_tokens _ I). unfold tokens, waiting. simpl. rewrite omap_app. simpl. by rewrite app_nil_r.
    + rewrite elem_of_app, list_elem_of_singleton in H. naive_solver.
    + by eapply (inv_taken _ I).
    + auto.
    + rewrite elem_of_app, list_elem_of_singleton in H. destruct H as [H|[H|H]]; [auto|auto|]. simplify_eq.
      right; right. unfold why. simpl. by rewrite Ho.
    + auto.
    + auto.
    + done.
    + auto.
  - apply create_inv; [done|..].
    + intros p' cb [= -> ->]%list_elem_of_singleton. by apply created_origin.
    + by intros t ?%elem_of_nil.
    + intros q' Hlt. by rewrite all_of_one.
    + simpl. apply elem_of_app. right. apply list_elem_of_here.
    + done.
  - apply create_inv; [done|..].
    + intros p' cb [= -> ->]%list_elem_of_singleton. by apply created_origin.
    + by intros t ?%elem_of_nil.
    + intros q' Hlt. by rewrite all_of_one.
    + simpl. apply elem_of_app. right. apply list_elem_of_here.
    + done.
  - destruct ps as [|p0 ps]; [|set (ps' := p0 :: ps) in *]; (apply create_inv; [done|..]).
    + by intros ? ? ?%elem_of_nil.
    + intros t ->%list_elem_of_singleton. exists monostate. split; [done|]. unfold why.
      rewrite created_origin by done. split; [done|]. simpl. by rewrite lookup_insert_eq.
    + done.
    + simpl. by rewrite app_nil_r, Fa.
    + intros ? [= <-]. exists 0%nat. simpl. rewrite lookup_insert_eq, Fr. split_and!; [done|done|].
      intros _. right. simpl. apply elem_of_app. right. apply list_elem_of_here.
    + intros p' cb (p1 & [= -> ->] & Hin)%list_elem_of_fmap. exists ps'. split; [by apply created_origin|done].
    + by intros t ?%elem_of_nil.
    + intros q' Hlt. apply all_of_none. intros p' cb (p1 & [= -> ->] & _)%list_elem_of_fmap. simpl. apply bool_decide_false. lia.
    + change (all_of (length (promises w)) (asked w ++ ((λ p, (p, CAll (length (promises w)))) <$> ps')) ≡ₚ
        (λ p, (p, CAll (length (promises w)))) <$> ps'). by rewrite all_of_app, Fa, all_of_map.
    + intros ? [= <-]. exists (length ps'). simpl. rewrite lookup_insert_eq, Fr. split_and!; [done|simpl; lia|done].
  - apply create_inv; [done|..].
    + intros p' cb (i & p1 & Hp1 & [= -> ->])%imap_origin. exists ps. split; [by apply created_origin|done].
    + by intros t ?%elem_of_nil.
    + intros q' Hlt. apply all_of_none. by intros p' cb (i & p1 & _ & [= -> ->])%imap_origin.
    + intros i p' Hi. simpl. apply elem_of_app. right. apply list_elem_of_lookup. exists i. by rewrite list_lookup_imap, Hi.
    + done.
  - apply create_inv; [done|..].
    + by intros ? ? ?%elem_of_nil.
    + intros t ->%list_elem_of_singleton. exists v. split; [done|]. unfold why. by rewrite created_origin.
    + done.
    + done.
    + done.
Qed.

Definition run (w : World) (ops : list Op) : World := foldl op w ops.

Lemma new_world_inv : Inv new_world.
Proof.
  split; simpl; try done.
  - by intros ? ? ? [?%elem_of_nil|?%elem_of_nil].
  - by intros ? ? ? ?%elem_of_nil.
  - by intros ? ? [?|?%elem_of_nil].
  - by intros ? ? ?%elem_of_nil.
Qed.

Lemma run_inv ops w : Inv w → Inv (run w ops).
Proof. revert w. induction ops as [|o ops IH]; intros w I; [done|]. by apply IH, op_inv. Qed.

(** When nothing is left to do, a registered continuation has run as soon as its promise has a
    result. *)
Lemma resolved_ran w p cb v :
  Inv w → pool w = [] → (p, cb) ∈ asked w → GetResult w p = Some v → (p, cb, v) ∈ ran w.
Proof.
  intros I Hq Hin Hv. rewrite (inv_tokens _ I) in Hin. unfold tokens in Hin. rewrite Hq in Hin. simpl in Hin.
  apply elem_of_app in Hin as [(i & pi & -> & Hi & Hc)%elem_waiting|Hin].
  - exfalso. unfold GetResult in Hv. simpl in *. rewrite Hi in Hv. destruct pi as [[v'|] ks]; [|done].
    rewrite (inv_taken _ I _ _ _ Hi) in Hc. by apply elem_of_nil in Hc.
  - apply list_elem_of_fmap in Hin as ([[p' cb'] v'] & [= -> ->] & Hin).
    pose proof (inv_value _ I _ _ _ (or_intror Hin)) as Hv'. by simplify_eq.
Qed.

Lemma settled w q u : pool w = [] → settles w q u → is_Some (GetResult w q).
Proof. intros Hq [?|Hin]; [done|]. rewrite Hq in Hin. by apply elem_of_nil in Hin. Qed.

(** The result of a promise, by its origin. *)
Definition settled_as (w : World) (q : nat) (o : Origin) : Prop :=
  match o with
  | OHeld => True
  | OThen p f => GetResult w q = f <$> GetResult w p
  | OFlat p f => GetResult w q = GetResult w p ≫= λ v, GetResult w (f v)
  | OAll ps =>
      GetResult w q = Some monostate ∧ Forall (λ p, is_Some (GetResult w p)) ps ∨
      GetResult w q = None ∧ Exists (λ p, GetResult w p = None) ps
  | OAny ps =>
      match GetResult w q with
      | Some u => ∃ i p, ps !! i = Some p ∧ is_Some (GetResult w p) ∧ u = of_index i
      | None => Forall (λ p, GetResult w p = None) ps
      end
  end.

Lemma all_settled w q ps :
  Inv w → pool w = [] → origins w !! q = Some (OAll ps) → settled_as w q (OAll ps).
Proof.
  intros I Hq Ho. destruct (inv_counted _ I q ps Ho) as (n & Hn & Hs & Hz).
  pose proof (inv_started _ I q _ Ho) as Hst. simpl in Hst.
  assert (∀ p, p ∈ ps → (p, CAll q) ∈ asked w) as Hask.
  { intros p Hp. assert ((p, CAll q) ∈ all_of q (asked w)) as Hx.
    { rewrite Hst. apply list_elem_of_fmap. eauto. }
    by apply list_elem_of_filter in Hx as [_ ?]. }
  destruct (decide (Forall (λ p, is_Some (GetResult w p)) ps)) as [Hall|Hex%not_Forall_Exists]; [left|right|apply _].
  - split; [|done]. assert (n = 0%nat) as ->.
    { assert (all_of q (asked w) ≡ₚ all_of q (ran w).*1) as Hp.
      { rewrite (inv_tokens _ I). unfold tokens. rewrite Hq. simpl. rewrite all_of_app, (all_of_none q (waiting w)); [done|].
        intros p cb (i & pi & -> & Hi & Hc)%elem_waiting. destruct (is_all q cb) eqn:E; [exfalso|done].
        destruct cb; try done. simpl in E. apply bool_decide_eq_true in E as ->.
        assert ((i, CAll q) ∈ asked w) as Hin.
        { rewrite (inv_tokens _ I). unfold tokens, waiting. rewrite !elem_of_app. right; left.
          by eapply (waiting_elem 0). }
        destruct (inv_asked _ I _ _ Hin) as (ps' & Ho' & Hp). simplify_eq.
        rewrite Forall_forall in Hall. destruct (Hall _ Hp) as [v Hv]. unfold GetResult in Hv. rewrite Hi in Hv.
        destruct pi as [[v'|] ks]; [|done]. rewrite (inv_taken _ I _ _ _ Hi) in Hc. by apply elem_of_nil in Hc. }
      rewrite Hst in Hp. apply Permutation_length in Hp. rewrite length_fmap in Hp. lia. }
    destruct (settled w q monostate Hq (Hz eq_refl)) as [u Hu]. rewrite Hu.
    pose proof (inv_why _ I q u (or_introl Hu)) as Hw. unfold why in Hw. rewrite Ho in Hw. destruct Hw as [-> _]. done.
  - apply Exists_exists in Hex as (p & Hp & Hnp). apply eq_None_not_Some in Hnp.
    split; [|apply Exists_exists; eauto]. destruct (GetResult w q) as [u|] eqn:Hu; [exfalso|done].
    pose proof (inv_why _ I q u (or_introl Hu)) as Hw. unfold why in Hw. rewrite Ho in Hw. destruct Hw as [_ Hz0].
    assert (n = 0%nat) as -> by congruence.
    (* every continuation has run *)
    assert (all_of q (ran w).*1 ≡ₚ (λ p, (p, CAll q)) <$> ps) as Hp'.
    { assert (∃ rest, all_of q (asked w) ≡ₚ all_of q (ran w).*1 ++ rest) as [rest Hr].
      { exists (all_of q (waiting w)). rewrite (inv_tokens _ I). unfold tokens. rewrite Hq. simpl. rewrite all_of_app. solve_Permutation. }
      pose proof (Permutation_length Hr) as Hl. rewrite Hst in Hl. rewrite length_fmap, length_app in Hl.
      assert (rest = []) as -> by (apply nil_length_inv; lia). rewrite app_nil_r in Hr. by rewrite <- Hr. }
    assert ((p, CAll q) ∈ all_of q (ran w).*1) as Hin by (rewrite Hp'; apply list_elem_of_fmap; eauto).
    apply list_elem_of_filter in Hin as [_ Hin]. apply list_elem_of_fmap in Hin as ([[p' cb'] v'] & [= <- <-] & Hin).
    pose proof (inv_value _ I _ _ _ (or_intror Hin)) as Hv'. congruence.
Qed.

Lemma quiet_settled w q o : Inv w → pool w = [] → origins w !! q = Some o → settled_as w q o.
Proof.
  intros I Hq Ho. pose proof (inv_started _ I _ _ Ho) as Hst.
  assert (∀ u, GetResult w q = Some u → why w q u) as Hwhy by (intros u Hu; apply (inv_why _ I); by left).
  unfold why in Hwhy. rewrite Ho in Hwhy. destruct o as [|p f|p f|ps|ps]; [done|..]; [| |by apply all_settled|]; simpl in *.
  - destruct (GetResult w p) as [v|] eqn:Hv; simpl.
    + destruct (settled w q (f v) Hq) as [u Hu]; [by apply (inv_effect _ I p (CMap f q)), resolved_ran|].
      destruct (Hwhy u Hu) as (v' & Hv' & ->). by simplify_eq.
    + destruct (GetResult w q) as [u|] eqn:Hu; [|done]. destruct (Hwhy u eq_refl) as (v & ? & _). done.
  - destruct (GetResult w p) as [v|] eqn:Hv; simpl.
    + assert ((f v, CForward q) ∈ asked w) as Hin by (by apply (inv_effect _ I p (CFlat f q)), resolved_ran).
      destruct (GetResult w (f v)) as [u|] eqn:Hfu.
      * destruct (settled w q u Hq) as [u' Hu]; [by apply (inv_effect _ I (f v) (CForward q)), resolved_ran|].
        destruct (Hwhy u' Hu) as (v' & Hv' & Hu'). by simplify_eq.
      * destruct (GetResult w q) as [u|] eqn:Hu; [|done]. destruct (Hwhy u eq_refl) as (v' & ? & ?). by simplify_eq.
    + destruct (GetResult w q) as [u|] eqn:Hu; [|done]. destruct (Hwhy u eq_refl) as (v & ? & _). done.
  - destruct (GetResult w q) as [u|] eqn:Hu; [by apply Hwhy|]. apply Forall_lookup_2. intros i p Hi.
    destruct (GetResult w p) as [v|] eqn:Hv; [exfalso|done].
    destruct (settled w q (of_index i) Hq) as [u Hu']; [|congruence].
    by apply (inv_effect _ I p (CAny i q) v), resolved_ran; [..|apply Hst|].
Qed.

(** ** The work ends *)

(** What is left to do for a continuation, a task and a whole program. *)
Definition weight (cb : Callback) : nat := match cb with CFlat _ _ => 5 | _ => 2 end%nat.

Definition task_weight (t : Task) : nat :=
  match t with TThen _ cb => weight cb + 2 | TCall _ cb _ => weight cb | TResolve _ _ => 1 end%nat.

Definition measure (w : World) : nat :=
  (sum_list_with task_weight (pool w) + sum_list_with (λ x : nat * Callback, (weight x.2 + 1)%nat) (waiting w))%nat.

(** Every future that is asked for, or that a continuation returns, exists. *)
Definition closed (w : World) : Prop :=
  (∀ p cb, (p, cb) ∈ asked w → (p < length (promises w))%nat) ∧
  (∀ q p f v, origins w !! q = Some (OFlat p f) → (f v < length (promises w))%nat).

Lemma sum_perm {A} (g : A → nat) l l' : l ≡ₚ l' → sum_list_with g l = sum_list_with g l'.
Proof. induction 1; simpl; lia. Qed.

Lemma step_measure k t w :
  Inv w → closed w → pool w !! k = Some t →
  (measure (op w (Step k)) < measure w)%nat ∧ closed (op w (Step k)).
Proof.
  intros I [Hc Hf] Hk. simpl. rewrite Hk. change (mkWorld _ _ _ _ _ _) with (with_pool (delete k (pool w)) w).
  set (pl := delete k (pool w)).
  assert (Inv (with_pool (t :: pl) w)) as I' by (apply inv_pool; [done|by apply delete_Permutation]).
  assert (measure w = task_weight t + sum_list_with task_weight pl + sum_list_with (λ x : nat * Callback, (weight x.2 + 1)%nat) (waiting w))%nat as Hm.
  { unfold measure. rewrite (sum_perm _ _ (t :: pl)) by (by apply delete_Permutation). simpl. lia. }
  rewrite Hm. destruct t as [p cb|p cb v|q v]; simpl.
  - assert (p < length (promises w))%nat as Hlt.
    { apply (Hc p cb). rewrite (inv_tokens _ I'). unfold tokens. simpl. apply list_elem_of_here. }
    unfold Then. simpl. destruct (promises w !! p) as [[[v|] ks]|] eqn:Hp; [| |apply lookup_ge_None in Hp; lia].
    + split; [|done]. unfold measure, waiting. simpl. rewrite sum_list_with_app. simpl. lia.
    + split; [|split; simpl; intros; rewrite length_insert; eauto]. unfold measure, waiting. simpl.
      pose proof (waiting_insert 0 _ p _ (mkPromise None (ks ++ [cb])) Hp) as Hw. simpl in Hw.
      apply (sum_perm (λ x : nat * Callback, (weight x.2 + 1)%nat)) in Hw. rewrite fmap_app, !sum_list_with_app in Hw. simpl in Hw. lia.
  - destruct (call_fits _ _ _ _ _ I') as [Hfit _].
    destruct cb as [f q|f q|q|q|i q]; unfold Call; simpl; unfold measure, waiting; simpl.
    + rewrite sum_list_with_app. simpl. split; [lia|done].
    + rewrite sum_list_with_app. simpl. split; [lia|]. split; simpl; [|done]. intros p' cb [H|H%list_elem_of_singleton]%elem_of_app; [eauto|].
      simplify_eq. by eapply Hf.
    + rewrite sum_list_with_app. simpl. split; [lia|done].
    + case_bool_decide; simpl; rewrite ?sum_list_with_app; simpl; (split; [lia|done]).
    + rewrite sum_list_with_app. simpl. split; [lia|done].
  - unfold Resolve. simpl. destruct (promises w !! q) as [[[v'|] ks]|] eqn:Hp.
    + split; [|done]. unfold measure, waiting. simpl. lia.
    + split; [|split; simpl; intros; rewrite length_insert; eauto]. unfold measure, waiting. simpl. rewrite sum_list_with_app.
      pose proof (waiting_insert 0 _ q _ (mkPromise (Some v) []) Hp) as Hw. simpl in Hw. rewrite app_nil_r in Hw.
      apply (sum_perm (λ x : nat * Callback, (weight x.2 + 1)%nat)) in Hw. rewrite sum_list_with_app in Hw.
      assert (sum_list_with task_weight ((λ cb, TCall q cb v) <$> ks) ≤
        sum_list_with (λ x : nat * Callback, (weight x.2 + 1)%nat) ((λ cb, (q, cb)) <$> ks))%nat; [|lia].
      clear. induction ks as [|k ks IH]; [done|]. rewrite !fmap_cons. cbn [sum_list_with task_weight snd]. lia.
    + split; [|done]. unfold measure, waiting. simpl. lia.
Qed.

Lemma drain n w : Inv w → closed w → (measure w ≤ n)%nat → pool (run w (replicate n (Step 0))) = [].
Proof.
  revert w. induction n as [|n IH]; intros w I Hc Hn.
  - simpl. destruct (pool w) as [|t l] eqn:Hp; [done|]. unfold measure in Hn. rewrite Hp in Hn. simpl in Hn.
    destruct t as [? []|? []|]; simpl in Hn; lia.
  - change (pool (run (op w (Step 0)) (replicate n (Step 0))) = []).
    destruct (pool w !! 0%nat) as [t|] eqn:Hp.
    + destruct (step_measure 0 t w I Hc Hp) as [Hlt Hc']. apply IH; [by apply op_inv|done|lia].
    + assert (op w (Step 0) = w) as Hsame by (simpl; by rewrite Hp).
      assert (pool w = []) as Hnil by (by destruct (pool w)).
      rewrite Hsame. clear -Hnil Hsame. induction n as [|n IH]; [done|].
      change (pool (run (op w (Step 0)) (replicate n (Step 0))) = []). by rewrite Hsame.
Qed.

(** A result is never replaced. *)
Lemma step_result k w p v : GetResult w p = Some v → GetResult (op w (Step k)) p = Some v.
Proof.
  intros Hv. simpl. destruct (pool w !! k) as [t|]; [|done].
  assert (∀ q pi pi', promises w !! q = Some pi → result_ pi = None →
    (<[q := pi']> (promises w) !! p) ≫= result_ = Some v) as Hins.
  { intros q pi pi' Hq Hn. unfold GetResult in Hv. destruct (decide (p = q)) as [->|].
    - rewrite Hq in Hv. simpl in Hv. congruence.
    - by rewrite list_lookup_insert_ne. }
  destruct t as [p' cb|p' cb u|q u]; simpl.
  - unfold Then. simpl. destruct (promises w !! p') as [[[]]|] eqn:E; try done. by eapply Hins.
  - unfold Call. destruct cb; try done. simpl. by case_bool_decide.
  - unfold Resolve. simpl. destruct (promises w !! q) as [[[]]|] eqn:E; try done. by eapply Hins.
Qed.

Lemma op_result w o p v : GetResult w p = Some v → GetResult (op w o) p = Some v.
Proof.
  intros Hv. assert (∀ o' n l ts, GetResult (create o' n l ts w) p = Some v) as Hc.
  { intros. unfold GetResult in *. simpl. destruct (promises w !! p) as [pi|] eqn:E; [|done].
    by rewrite (lookup_app_l_Some _ _ _ _ E). }
  destruct o as [| | | |[]| | |]; simpl; try apply Hc; [|by apply step_result]. by destruct (is_held w p0).
Qed.

(** ** [WaitForResult] *)

(** The executor of the waiting call has been called, which wakes the thread: the continuation that resolves [q]
    has run. *)
Definition called (w : World) (q : nat) : bool :=
  existsb (λ x, match x.1.2 with CMap _ q' => bool_decide (q' = q) | _ => false end) (ran w).

(** [cv.wait_for]: the other threads go on until the thread is woken or the time is over, which is when [during]
    is. *)
Fixpoint await (q : nat) (during : list Op) (w : World) : World :=
  if called w q then w else match during with [] => w | o :: during => await q during (op w o) end.

Definition WaitForResult (p : nat) (during : list Op) (w : World) : World * option V :=
  let q := length (promises w) in
  let w := await q during (op w (CallThen p (λ _, monostate))) in
  (w, GetResult w p).

Lemma op_origin w o q o' : origins w !! q = Some o' → origins (op w o) !! q = Some o'.
Proof.
  intros Hq. assert (∀ o n l ts, origins (create o n l ts w) !! q = Some o') as Hc by (intros; cbn; by apply lookup_app_l_Some).
  assert (∀ t w', origins w' = origins w → origins (run_task t w') = origins w) as Ht.
  { intros [p cb|p cb v|p v] w' Hw; cbn.
    - unfold Then. destruct (promises w' !! p) as [[[]]|]; done.
    - unfold Call. destruct cb; try done. cbn. by case_bool_decide.
    - unfold Resolve. destruct (promises w' !! p) as [[[]]|]; done. }
  destruct o as [| | | |[]| | |k]; cbn [op]; try apply Hc; [by destruct (is_held w p)|]. destruct (pool w !! k) as [t|]; [by rewrite Ht|done].
Qed.

Lemma op_asked w o x : x ∈ asked w → x ∈ asked (op w o).
Proof.
  intros Hx. assert (∀ o n l ts, x ∈ asked (create o n l ts w)) as Hc by (intros; cbn; apply elem_of_app; by left).
  assert (∀ t w', asked w' = asked w → x ∈ asked (run_task t w')) as Ht.
  { intros [p cb|p cb v|p v] w' Hw; rewrite <- Hw in Hx; cbn.
    - unfold Then. destruct (promises w' !! p) as [[[]]|]; done.
    - unfold Call. destruct cb; try done; cbn; [apply elem_of_app; by left|]. by case_bool_decide.
    - unfold Resolve. destruct (promises w' !! p) as [[[]]|]; done. }
  destruct o as [| | | |[]| | |k]; cbn [op]; try apply Hc; [by destruct (is_held w p)|]. destruct (pool w !! k) as [t|]; [by apply Ht|done].
Qed.

(** The waiting thread has registered its continuation, whatever the others do. *)
Record Awaits (p q : nat) (w : World) : Prop := mkAwaits {
  await_inv : Inv w;
  await_origin : origins w !! q = Some (OThen p (λ _, monostate));
  await_asked : (p, CMap (λ _, monostate) q) ∈ asked w;
}.

Lemma await_awaits p q during w : Awaits p q w → Awaits p q (await q during w).
Proof.
  revert w. induction during as [|o during IH]; intros w Ha; cbn [await]; destruct (called w q); try done.
  destruct Ha as [I Ho Hk]. apply IH. split; [by apply op_inv|by apply op_origin|by apply op_asked].
Qed.

Lemma awaiting p w : Inv w → Awaits p (length (promises w)) (op w (CallThen p (λ _, monostate))).
Proof.
  intros I. split; [by apply op_inv|exact (created_origin _ _ _ _ w I)|]. cbn. apply elem_of_app. right. by left.
Qed.

(** The thread is woken only with a result, and is woken if there is one when nothing is left to do. *)
Lemma awaits_called p q w : Awaits p q w → (called w q = true → is_Some (GetResult w p)) ∧ (pool w = [] → is_Some (GetResult w p) → called w q = true).
Proof.
  intros [I Ho Hk]. unfold called. split.
  - intros ([[p' cb] v] & Hin & Hcb)%existsb_exists. apply list_elem_of_In in Hin. cbn in Hcb. destruct cb as [f q'| | | |]; try done. apply bool_decide_eq_true in Hcb as ->.
    assert ((p', CMap f q) ∈ asked w) as Hasked.
    { rewrite (inv_tokens _ I). unfold tokens. rewrite !elem_of_app. right; right. apply list_elem_of_fmap. by exists (p', CMap f q, v). }
    pose proof (inv_asked _ I _ _ Hasked) as Hf. cbn in Hf. assert (p' = p) as -> by congruence. eexists. apply (inv_value _ I p (CMap f q)). by right.
  - intros Hq [v Hv]. apply existsb_exists. exists (p, CMap (λ _, monostate) q, v). split; [by apply list_elem_of_In, resolved_ran|]. cbn. by apply bool_decide_true.
Qed.

Lemma await_over q during w : called (await q during w) q = false → await q during w = run w during.
Proof.
  revert w. induction during as [|o during IH]; intros w; cbn [await]; destruct (called w q) eqn:E; try congruence; [done|]. apply IH.
Qed.

End Promises.

(** ** Properties *)

Section Properties.
Context {V : Type} (monostate : V) (of_index : nat → V).

(** C37: whatever the program does with its promises, on any number of threads and with any
    executors, once nothing is left to run every future has the result its creation promises:
    [Then] the function of the result of the promise before it, the flattening [Then] the
    result of the future that the continuation returned, [WhenAll] a result exactly when all
    its futures have one, [WhenAny] the index of a future that has a result, and none if no
    future has one.  It does not matter whether a continuation was registered before or after
    its promise was resolved. *)
Theorem futures_settle (ops : list Op) (q : nat) (o : Origin) :
  let w := run monostate of_index new_world ops in
  pool w = [] → origins w !! q = Some o → settled_as monostate of_index w q o.
Proof. intros w Hq Ho. apply quiet_settled; [|done|done]. apply run_inv, new_world_inv. Qed.

(** A continuation runs at most once and none is lost: those registered are those in the
    hands of an executor, those waiting for a promise without a result, and those that have
    run with the result of their promise, each as often as it was registered; and a result,
    once there, stays. *)
Theorem continuations_run_once (ops more : list Op) :
  let w := run monostate of_index new_world ops in
  asked w ≡ₚ omap task_token (pool w) ++ waiting w ++ (ran w).*1 ∧
  (∀ p cb, (p, cb) ∈ waiting w → GetResult w p = None) ∧
  (∀ p cb v, (p, cb, v) ∈ ran w → GetResult w p = Some v) ∧
  (∀ p v, GetResult w p = Some v → GetResult (run monostate of_index w more) p = Some v).
Proof.
  intros w. assert (Inv monostate of_index w) as I by apply run_inv, new_world_inv. split_and!.
  - apply (inv_tokens _ _ _ I).
  - intros p cb (i & [[v|] ks] & -> & Hi & Hc)%elem_waiting; [|unfold GetResult; simpl; by rewrite Hi].
    rewrite (inv_taken _ _ _ I _ _ _ Hi) in Hc. by apply elem_of_nil in Hc.
  - intros p cb v Hin. apply (inv_value _ _ _ I p cb). by right.
  - clear I. generalize w as w0. induction more as [|o more IH]; intros w0 p v Hv; [done|]. by apply IH, op_result.
Qed.

(** The work that promises cause ends: from every state a program can reach, in which the
    futures asked for exist, running what is pending until nothing is left takes at most
    [measure] steps. *)
Theorem promises_drain (ops : list Op) :
  let w := run monostate of_index new_world ops in
  closed w → pool (run monostate of_index w (replicate (measure w) (Step 0))) = [].
Proof. intros w Hc. apply drain; [|done|done]. apply run_inv, new_world_inv. Qed.

(** A thread that waits for a result with a time limit: it gets one exactly when it was woken or the promise was
    resolved in time, if it was not woken it waited until the time was over, and no wake-up is lost. *)
Theorem wait_for_result (ops during : list Op) (p : nat) :
  let w := run monostate of_index new_world ops in
  let q := length (promises w) in
  let '(w', result) := WaitForResult monostate of_index p during w in
  result = GetResult w' p ∧
  (called w' q = true → is_Some result) ∧
  (called w' q = false → w' = run monostate of_index (op monostate of_index w (CallThen p (λ _, monostate))) during) ∧
  (pool w' = [] → is_Some result → called w' q = true).
Proof.
  intros w q. unfold WaitForResult. fold q. assert (Inv monostate of_index w) as I by apply run_inv, new_world_inv.
  pose proof (await_awaits monostate of_index p q during _ (awaiting monostate of_index p w I)) as Ha.
  destruct (awaits_called _ _ _ _ _ Ha) as [H1 H2]. split_and!; [done|done|apply await_over|done].
Qed.

End Properties.

(** ** Witnesses *)

(** Two promises, a chain, a flattening and both combinations; one promise is resolved before
    and one after its continuations are registered. *)
Definition sample_ops : list (@Op nat) :=
  [NewPromise; NewPromise; CallResolve 0 7%nat; Step 0;
   CallThen 0 S; CallThenFlat 1 (λ v, v); CallWhenAll [0; 1]%nat; CallWhenAny [1; 0]%nat; CallResolve 1 2%nat].

Definition sample_world : World := run 0%nat id new_world sample_ops.

Definition sample_done : list (@Op nat) := sample_ops ++ replicate (measure sample_world) (Step 0).

Lemma futures_settle_witness :
  let w := run 0%nat id new_world sample_done in
  pool w = [] ∧ GetResult w <$> [2; 3; 4; 5]%nat = [Some 8; Some 8; Some 0; Some 1]%nat ∧
  settled_as 0%nat id w 3 (OFlat 1 (λ v, v)).
Proof.
  intros w. split; [by vm_compute|]. split; [by vm_compute|].
  apply (futures_settle 0%nat id sample_done 3 (OFlat 1 (λ v, v))); by vm_compute.
Defined.

Definition flat_ops : list (@Op nat) :=
  [NewPromise; CallThen 0 S; CallThenFlat 0 (λ _, 1%nat); CallResolve 0 4%nat].

Lemma promises_drain_witness :
  let w := run 0%nat id new_world flat_ops in
  closed w ∧ pool (run 0%nat id w (replicate (measure w) (Step 0))) = [].
Proof.
  intros w. assert (closed w) as Hc.
  { split.
    - intros p cb. vm_compute (asked w). vm_compute (length _). rewrite !elem_of_cons, elem_of_nil. intros; naive_solver lia.
    - intros q p f v. vm_compute (length _). vm_compute (origins w).
      destruct q as [|[|[|q]]]; simpl; intros; simplify_eq; lia. }
  split; [exact Hc|]. by apply (promises_drain 0%nat id flat_ops).
Defined.
