(* ===== verification/Cancellations.v ===== *)
(** * Cancellation

    libs/internal/include/launchdarkly/async/cancellation.hpp.

    Threads share a [CancellationState].  Each critical section of [Register], [Deregister] and
    [Cancel] is one step; a thread that invokes a callback, or waits for one to end, is in a
    state of its own, and the other threads may step in between.  While a callback runs, its
    thread may itself register and deregister.  The log records what happened, in order.  The
    counter of ids, a [std::size_t], is a natural number: it does not wrap around. *)

From S2P Require Import Prelude.
From Stdlib Require Import Sorted.

(** [CallbackId]; zero is [kAlreadyCancelled]. *)
Definition kAlreadyCancelled : nat := 0.

(** Where a thread is: outside, in the loop of [Cancel] with the lock, invoking a callback, or
    blocked in [Deregister]. *)
Inductive Pc := Idle | Looping | Invoking (id : nat) | Waiting (id : nat).

#[global] Instance pc_eq_dec : EqDecision Pc.
Proof. solve_decision. Defined.

Inductive LogEvent :=
| Registered (t id : nat)
| Immediate (t : nat)
| Ran (t id : nat)
| Ended (t id : nat)
| Deregistered (t id : nat)
| Cancelled (t : nat).

#[global] Instance log_event_eq_dec : EqDecision LogEvent.
Proof. solve_decision. Defined.

Record CancellationState := mkCancellation {
  cancelled_ : bool;
  next_id_ : nat;
  callbacks_ : list nat;
  executing_id_ : nat;
  executing_thread_ : nat;
  threads : list Pc;
  log : list LogEvent;
}.

Definition new_cancellation (n : nat) : CancellationState :=
  mkCancellation false 1 [] kAlreadyCancelled 0 (replicate n Idle) [].

Definition note (e : LogEvent) (s : CancellationState) : CancellationState :=
  mkCancellation (cancelled_ s) (next_id_ s) (callbacks_ s) (executing_id_ s) (executing_thread_ s) (threads s) (log s ++ [e]).

Definition goto (t : nat) (pc : Pc) (s : CancellationState) : CancellationState :=
  mkCancellation (cancelled_ s) (next_id_ s) (callbacks_ s) (executing_id_ s) (executing_thread_ s) (<[t := pc]> (threads s)) (log s).

(** [Register]: a callback that comes too late is invoked at once. *)
Definition Register (t : nat) (s : CancellationState) : CancellationState :=
  if cancelled_ s then note (Immediate t) s
  else
    let id := next_id_ s in
    note (Registered t id)
      (mkCancellation (cancelled_ s) (S id) (callbacks_ s ++ [id]) (executing_id_ s) (executing_thread_ s) (threads s) (log s)).

(** [callbacks_.erase(id)] *)
Definition erase (id : nat) (s : CancellationState) : CancellationState :=
  mkCancellation (cancelled_ s) (next_id_ s) (filter (λ i, i ≠ id) (callbacks_ s)) (executing_id_ s) (executing_thread_ s) (threads s) (log s).

Definition Deregister (t id : nat) (s : CancellationState) : CancellationState :=
  if bool_decide (id = kAlreadyCancelled) then s
  else if bool_decide (id ∈ callbacks_ s) then note (Deregistered t id) (erase id s)
  else if bool_decide (executing_id_ s ≠ id) then note (Deregistered t id) s
  else if bool_decide (executing_thread_ s = t) then note (Deregistered t id) s
  else goto t (Waiting id) s.

(** [Cancel], up to its loop. *)
Definition Cancel (t : nat) (s : CancellationState) : CancellationState :=
  if cancelled_ s then s
  else
    goto t Looping
      (mkCancellation true (next_id_ s) (callbacks_ s) (executing_id_ s) (executing_thread_ s) (threads s) (log s)).

(** The loop: take the first callback and invoke it with the lock released, or return. *)
Definition cancel_loop (t : nat) (s : CancellationState) : CancellationState :=
  match callbacks_ s with
  | id :: rest =>
      note (Ran t id)
        (goto t (Invoking id) (mkCancellation (cancelled_ s) (next_id_ s) rest id t (threads s) (log s)))
  | [] => note (Cancelled t) (goto t Idle s)
  end.

(** The callback has returned. *)
Definition cancel_invoked (t id : nat) (s : CancellationState) : CancellationState :=
  note (Ended t id)
    (goto t Looping
       (mkCancellation (cancelled_ s) (next_id_ s) (callbacks_ s) kAlreadyCancelled (executing_thread_ s) (threads s) (log s))).

Inductive Action := ARegister (t : nat) | ADeregister (t id : nat) | ACancel (t : nat) | AContinue (t : nat).

(** A thread outside, or in a callback, may call; only a thread outside calls [Cancel], which is
    anyway without effect in a callback.  [AContinue] lets a thread go on with what it does. *)
Definition may_call (pc : Pc) : bool := match pc with Idle | Invoking _ => true | _ => false end.

Definition act (s : CancellationState) (a : Action) : CancellationState :=
  match a with
  | ARegister t => match threads s !! t with Some pc => if may_call pc then Register t s else s | None => s end
  | ADeregister t id => match threads s !! t with Some pc => if may_call pc then Deregister t id s else s | None => s end
  | ACancel t => match threads s !! t with Some Idle => Cancel t s | _ => s end
  | AContinue t =>
      match threads s !! t with
      | Some Looping => cancel_loop t s
      | Some (Invoking id) => cancel_invoked t id s
      | Some (Waiting id) => if bool_decide (executing_id_ s ≠ id) then note (Deregistered t id) (goto t Idle s) else s
      | _ => s
      end
  end.

(** ** Invariant *)

(** The callbacks started so far, in order, and those that have ended. *)
Definition started (l : list LogEvent) : list nat := omap (λ e, match e with Ran _ id => Some id | _ => None end) l.
Definition ended (l : list LogEvent) : list nat := omap (λ e, match e with Ended _ id => Some id | _ => None end) l.
Definition registered (l : list LogEvent) : list nat := omap (λ e, match e with Registered _ id => Some id | _ => None end) l.

(** Of a callback that was registered before, what is promised when [Deregister] returns: it is
    not pending any more and never starts afterwards, and if it has started, it has ended or it
    is the caller. *)
Definition dereg_ok (pending : list nat) (l : list LogEvent) : Prop :=
  ∀ l1 t id l2, l = l1 ++ Deregistered t id :: l2 → id ∈ registered l1 →
    id ∉ pending ∧ id ∉ started l2 ∧ (id ∈ started l1 → id ∈ ended l1 ∨ Ran t id ∈ l1).

Definition cancelling (pc : Pc) : bool := match pc with Looping | Invoking _ => true | _ => false end.

Record CInv (s : CancellationState) : Prop := mkCInv {
  ci_sorted : StronglySorted lt (started (log s) ++ callbacks_ s);
  ci_bounds : Forall (λ i, (0 < i < next_id_ s)%nat) (started (log s) ++ callbacks_ s);
  ci_next : (0 < next_id_ s)%nat;
  ci_registered i : i ∈ registered (log s) → (0 < i < next_id_ s)%nat;
  ci_ended i : i ∈ started (log s) → i ∈ ended (log s) ∨ i = executing_id_ s ∧ Ran (executing_thread_ s) i ∈ log s;
  ci_idle : cancelled_ s = false → started (log s) = [] ∧ Forall (λ pc, cancelling pc = false) (threads s);
  ci_executing : executing_id_ s ≠ kAlreadyCancelled → threads s !! executing_thread_ s = Some (Invoking (executing_id_ s));
  ci_executing_started : executing_id_ s ≠ kAlreadyCancelled → executing_id_ s ∈ started (log s);
  ci_one t t' pc pc' : threads s !! t = Some pc → threads s !! t' = Some pc' → cancelling pc = true → cancelling pc' = true → t = t';
  ci_waiting t id : threads s !! t = Some (Waiting id) → id ∈ started (log s);
  ci_dereg : dereg_ok (callbacks_ s) (log s);
}.

(** ** Lemmas *)

Lemma started_app a b : started (a ++ b) = started a ++ started b.
Proof. apply omap_app. Qed.

Lemma ended_app a b : ended (a ++ b) = ended a ++ ended b.
Proof. apply omap_app. Qed.

Lemma registered_app a b : registered (a ++ b) = registered a ++ registered b.
Proof. apply omap_app. Qed.

Lemma ids_snoc l x : StronglySorted lt l → Forall (λ i, (i < x)%nat) l → StronglySorted lt (l ++ [x]).
Proof.
  induction 1 as [|y l Hs IH Hy]; intros Hx; simpl; [by repeat constructor|].
  apply Forall_cons in Hx as [Hyx Hx]. constructor; [by apply IH|]. apply Forall_app. split; [done|by repeat constructor].
Qed.

Lemma sorted_filter a b (P : nat → Prop) `{∀ i, Decision (P i)} :
  StronglySorted lt (a ++ b) → StronglySorted lt (a ++ filter P b).
Proof.
  induction a as [|x a IH]; simpl.
  - induction 1 as [|x l Hs IH Hx]; [constructor|]. rewrite filter_cons. case_decide; [|done].
    constructor; [done|]. rewrite Forall_forall in *. intros y [_ Hy]%list_elem_of_filter. auto.
  - intros Hs. apply StronglySorted_inv in Hs as [Hs Hx]. constructor; [by apply IH|].
    apply Forall_app in Hx as [Ha Hb]. apply Forall_app. split; [done|].
    rewrite Forall_forall in *. intros y [_ Hy]%list_elem_of_filter. auto.
Qed.

Lemma sorted_apart a b x : StronglySorted lt (a ++ b) → x ∈ a → x ∉ b.
Proof.
  induction a as [|y a IH]; simpl; [by intros _ ?%elem_of_nil|]. intros Hs Hx Hb.
  apply StronglySorted_inv in Hs as [Hs Hy]. apply elem_of_cons in Hx as [->|Hx]; [|by apply IH].
  rewrite Forall_forall in Hy. specialize (Hy y). rewrite elem_of_app in Hy. specialize (Hy (or_intror Hb)). lia.
Qed.

(** A log entry that says nothing of [Deregister]. *)
Lemma dereg_snoc pending pending' l e :
  dereg_ok pending l → (∀ t id, e ≠ Deregistered t id) → (∀ i, i ∈ pending' → i ∈ pending ∨ i ∉ registered l) →
  (∀ i, i ∈ started [e] → i ∈ pending) → dereg_ok pending' (l ++ [e]).
Proof.
  intros Hok He Hp Hs l1 t id l2 Heq Hreg.
  destruct l2 as [|e' l2' _] using rev_ind.
  { apply app_inj_tail in Heq as [_ Heq]. by destruct (He t id). }
  rewrite app_comm_cons, app_assoc in Heq. apply app_inj_tail in Heq as [-> <-].
  destruct (Hok l1 t id l2' eq_refl Hreg) as (Hn & Hst & Hend). split_and!; [|rewrite started_app|done].
  - intros [?|Hr]%Hp; [done|]. apply Hr. rewrite registered_app. apply elem_of_app. by left.
  - intros [?|?%Hs]%elem_of_app; done.
Qed.

Lemma dereg_return pending pending' l t id :
  dereg_ok pending l → (∀ i, i ∈ pending' → i ∈ pending) →
  (id ∈ registered l → id ∉ pending' ∧ (id ∈ started l → id ∈ ended l ∨ Ran t id ∈ l)) →
  dereg_ok pending' (l ++ [Deregistered t id]).
Proof.
  intros Hok Hp Hid l1 t' id' l2 Heq Hreg.
  destruct l2 as [|e' l2' _] using rev_ind.
  { apply app_inj_tail in Heq as [-> [= -> ->]]. destruct (Hid Hreg) as [Hn He]. split_and!; [done|by apply not_elem_of_nil|done]. }
  rewrite app_comm_cons, app_assoc in Heq. apply app_inj_tail in Heq as [-> <-].
  destruct (Hok l1 t' id' l2' eq_refl Hreg) as (Hn & Hst & Hend). split_and!; [by intros ?%Hp| |done].
  rewrite started_app. simpl. by rewrite app_nil_r.
Qed.

(** The log with an entry that starts, ends and registers nothing. *)
Lemma plain_log l e :
  started [e] = [] → ended [e] = [] → registered [e] = [] →
  started (l ++ [e]) = started l ∧ ended (l ++ [e]) = ended l ∧ registered (l ++ [e]) = registered l.
Proof. intros H1 H2 H3. rewrite started_app, ended_app, registered_app, H1, H2, H3. by rewrite !app_nil_r. Qed.

(** Such an entry keeps the invariant, also when callbacks are dropped and a thread moves on. *)
Lemma note_inv e t pc pending s s' :
  CInv s → started [e] = [] → ended [e] = [] → registered [e] = [] →
  s' = mkCancellation (cancelled_ s) (next_id_ s) pending (executing_id_ s) (executing_thread_ s) (<[t := pc]> (threads s)) (log s ++ [e]) →
  (∃ P (D : ∀ i : nat, Decision (P i)), pending = filter P (callbacks_ s)) →
  threads s !! t = Some pc ∨ cancelling pc = false ∧ (∀ id, pc ≠ Waiting id) ∧ (∀ pc', threads s !! t = Some pc' → ∀ id, pc' ≠ Invoking id) →
  dereg_ok pending (log s ++ [e]) → CInv s'.
Proof.
  intros I H1 H2 H3 -> (P & D & ->) Hpc Hd. destruct (plain_log (log s) e H1 H2 H3) as (Es & Ee & Er).
  assert (∀ t' pc', <[t := pc]> (threads s) !! t' = Some pc' → threads s !! t' = Some pc' ∨ t' = t ∧ pc' = pc) as Hth.
  { intros t' pc' Ht'. destruct (decide (t' = t)) as [->|]; [|rewrite list_lookup_insert_ne in Ht' by done; by left].
    right. split; [done|]. apply list_lookup_insert_Some in Ht' as [(_ & ? & _)|[? _]]; [by subst|done]. }
  split; simpl; rewrite ?Es, ?Ee, ?Er.
  - by apply sorted_filter, I.
  - pose proof (ci_bounds _ I) as Hb. apply Forall_app in Hb as [Ha Hb]. apply Forall_app. split; [done|].
    rewrite Forall_forall in *. intros i [_ ?]%list_elem_of_filter. auto.
  - apply I.
  - apply I.
  - intros i Hi. destruct (ci_ended _ I i Hi) as [?|[-> ?]]; [by left|right]. split; [done|]. apply elem_of_app. by left.
  - intros Hc. destruct (ci_idle _ I Hc) as [? Hf]. split; [done|]. apply Forall_lookup_2. intros t' pc' [Ht'|[-> ->]]%Hth.
    + exact (Forall_lookup_1 _ _ _ _ Hf Ht').
    + destruct Hpc as [Hpc|[? _]]; [exact (Forall_lookup_1 _ _ _ _ Hf Hpc)|done].
  - intros Hx. pose proof (ci_executing _ I Hx) as He. destruct (decide (t = executing_thread_ s)) as [Heq|];
      [|by rewrite list_lookup_insert_ne]. rewrite <- Heq in He |- *. rewrite list_lookup_insert_eq by (eapply lookup_lt_Some, He).
    destruct Hpc as [Hpc|(_ & _ & Hpc)]; [congruence|]. by destruct (Hpc _ He (executing_id_ s)).
  - apply I.
  - intros t1 t2 pc1 pc2 [?|[-> ->]]%Hth [?|[-> ->]]%Hth; try (by eapply (ci_one _ I)); intros Hc1 Hc2; [..|done];
      (destruct Hpc as [Hpc|[? _]]; [by eapply (ci_one _ I)|congruence]).
  - intros t1 id [?|[-> <-]]%Hth; [by eapply (ci_waiting _ I)|].
    destruct Hpc as [Hpc|(_ & Hw & _)]; [by eapply (ci_waiting _ I)|by destruct (Hw id)].
  - done.
Qed.

Lemma filter_all {A} (l : list A) : l = filter (λ _, True) l.
Proof. induction l as [|x l IH]; [done|]. rewrite filter_cons, decide_True by done. by f_equal. Qed.

Lemma note_same e t pc s :
  CInv s → threads s !! t = Some pc → started [e] = [] → ended [e] = [] → registered [e] = [] →
  dereg_ok (callbacks_ s) (log s ++ [e]) → CInv (note e s).
Proof.
  intros I Ht H1 H2 H3 Hd. eapply (note_inv e t pc (callbacks_ s)); [exact I|exact H1|exact H2|exact H3| | |by left|exact Hd].
  - unfold note. by rewrite list_insert_id.
  - exists (λ _, True), _. apply filter_all.
Qed.

Lemma register_inv t pc s : CInv s → threads s !! t = Some pc → CInv (Register t s).
Proof.
  intros I Ht. unfold Register. destruct (cancelled_ s) eqn:Hc.
  - eapply note_same; [done..|]. apply (dereg_snoc (callbacks_ s)); [apply I|done|auto|by intros ? ?%elem_of_nil].
  - destruct (ci_idle _ I Hc) as [Hs Hf]. pose proof (ci_bounds _ I) as Hb.
    split; simpl; rewrite ?started_app, ?ended_app, ?registered_app; simpl; rewrite ?app_nil_r, ?Hs.
    + pose proof (ci_sorted _ I) as Hss. rewrite Hs in Hss, Hb. simpl in *. apply ids_snoc; [done|].
      eapply Forall_impl; [exact Hb|]. simpl. lia.
    + rewrite Hs in Hb. simpl in *. apply Forall_app. split; [eapply Forall_impl; [exact Hb|]; simpl; lia|].
      constructor; [|done]. pose proof (ci_next _ I). lia.
    + lia.
    + intros i [Hi| ->%list_elem_of_singleton]%elem_of_app; [apply (ci_registered _ I) in Hi; lia|]. pose proof (ci_next _ I). lia.
    + by intros i ?%elem_of_nil.
    + done.
    + apply I.
    + intros Hx%(ci_executing_started _ I). by rewrite Hs in Hx.
    + apply I.
    + intros t' id Hw. apply (ci_waiting _ I) in Hw. by rewrite Hs in Hw.
    + apply (dereg_snoc (callbacks_ s)); [apply I|done| |by intros ? ?%elem_of_nil].
      intros i [?| ->%list_elem_of_singleton]%elem_of_app; [by left|right]. intros Hr%(ci_registered _ I). lia.
Qed.

Lemma deregister_inv t pc id s : CInv s → threads s !! t = Some pc → may_call pc = true → CInv (Deregister t id s).
Proof.
  intros I Ht Hm. unfold Deregister. case_bool_decide as H0; [done|]. case_bool_decide as Hin.
  { eapply (note_inv (Deregistered t id) t pc (filter (λ i, i ≠ id) (callbacks_ s))); [exact I|done|done|done| | | |].
    - unfold note, erase. simpl. by rewrite list_insert_id.
    - by eexists _, _.
    - by left.
    - apply (dereg_return (callbacks_ s)); [apply I|by intros i [_ ?]%list_elem_of_filter|]. intros _. split.
      + by intros [? _]%list_elem_of_filter.
      + intros Hs. by destruct (sorted_apart _ _ id (ci_sorted _ I) Hs). }
  case_bool_decide as Hx; [|case_bool_decide as Hth].
  - eapply note_same; [done..|]. apply (dereg_return (callbacks_ s)); [apply I|done|]. intros _. split; [done|].
    intros Hs. destruct (ci_ended _ I id Hs) as [?|[? _]]; [by left|done].
  - eapply note_same; [done..|]. apply (dereg_return (callbacks_ s)); [apply I|done|]. intros _. split; [done|].
    intros Hs. destruct (ci_ended _ I id Hs) as [?|[_ ?]]; [by left|right]. by subst.
  - assert (executing_id_ s = id) as Hid by (by destruct (decide (executing_id_ s = id))).
    assert (pc = Idle) as ->.
    { destruct pc as [| |j|j]; try done. exfalso. apply Hth.
      pose proof (ci_executing _ I ltac:(by rewrite Hid)) as He. by apply (ci_one _ I _ _ _ _ He Ht). }
    assert (∀ t' pc', <[t := Waiting id]> (threads s) !! t' = Some pc' → threads s !! t' = Some pc' ∨ t' = t ∧ pc' = Waiting id) as Hths.
    { intros t' pc' [(-> & -> & _)|[_ ?]]%list_lookup_insert_Some; auto. }
    split; simpl; try apply I.
    + intros Hc. destruct (ci_idle _ I Hc) as [? Hf]. split; [done|]. by apply Forall_insert.
    + intros Hne. pose proof (ci_executing _ I Hne) as He. rewrite list_lookup_insert_ne; [done|]. intros ->. done.
    + intros t1 t2 pc1 pc2 [?|[-> ->]]%Hths [?|[-> ->]]%Hths; try (by eapply (ci_one _ I)); done.
    + intros t1 i [?|[-> [= ->]]]%Hths; [by eapply (ci_waiting _ I)|]. rewrite <- Hid. apply (ci_executing_started _ I). by rewrite Hid.
Qed.

Lemma insert_cases (l : list Pc) t pc t' pc' :
  <[t := pc]> l !! t' = Some pc' → t' = t ∧ pc' = pc ∨ t' ≠ t ∧ l !! t' = Some pc'.
Proof. intros [(-> & -> & _)|[? ?]]%list_lookup_insert_Some; auto. Qed.

Lemma cancel_inv t s : CInv s → threads s !! t = Some Idle → CInv (Cancel t s).
Proof.
  intros I Ht. unfold Cancel. destruct (cancelled_ s) eqn:Hc; [done|]. destruct (ci_idle _ I Hc) as [Hs Hf].
  assert (∀ t' pc', threads s !! t' = Some pc' → cancelling pc' = false) as Hno by (intros t' pc' Ht'; exact (Forall_lookup_1 _ _ _ _ Hf Ht')).
  split; simpl; try apply I.
  - done.
  - intros Hx. apply (ci_executing_started _ I) in Hx. rewrite Hs in Hx. by apply elem_of_nil in Hx.
  - intros t1 t2 pc1 pc2 [[-> ->]|[_ H1]]%insert_cases [[-> ->]|[_ H2]]%insert_cases Hc1 Hc2; [done|..];
      [apply Hno in H2|apply Hno in H1|apply Hno in H1]; congruence.
  - intros t1 id [[_ ?]|[_ ?]]%insert_cases; [done|by eapply (ci_waiting _ I)].
Qed.

(** While a thread is in the loop, no callback is running. *)
Lemma looping_quiet t s : CInv s → threads s !! t = Some Looping → executing_id_ s = kAlreadyCancelled.
Proof.
  intros I Ht. destruct (decide (executing_id_ s = kAlreadyCancelled)) as [|Hx]; [done|].
  pose proof (ci_executing _ I Hx) as He. pose proof (ci_one _ I _ _ _ _ Ht He eq_refl eq_refl) as Heq.
  rewrite <- Heq in He. congruence.
Qed.

Lemma looping_cancelled t pc s : CInv s → threads s !! t = Some pc → cancelling pc = true → cancelled_ s = true.
Proof.
  intros I Ht Hpc. destruct (cancelled_ s) eqn:Hc; [done|]. destruct (ci_idle _ I Hc) as [_ Hf].
  rewrite (Forall_lookup_1 _ _ _ _ Hf Ht) in Hpc. done.
Qed.

Lemma loop_inv t s : CInv s → threads s !! t = Some Looping → CInv (cancel_loop t s).
Proof.
  intros I Ht. pose proof (looping_quiet t s I Ht) as Hq. pose proof (looping_cancelled _ _ _ I Ht eq_refl) as Hc.
  unfold cancel_loop. destruct (callbacks_ s) as [|id rest] eqn:Hcb.
  { eapply (note_inv (Cancelled t) t Idle (callbacks_ s)); [exact I|done|done|done| | | |].
    - unfold note, goto. simpl. by rewrite Hcb.
    - exists (λ _, True), _. apply filter_all.
    - right. split_and!; [done|done|]. intros pc' H id Hpc. congruence.
    - apply (dereg_snoc (callbacks_ s)); [apply I|done|auto|by intros ? ?%elem_of_nil]. }
  pose proof (ci_sorted _ I) as Hs. pose proof (ci_bounds _ I) as Hb. rewrite Hcb in Hs, Hb.
  split; simpl; rewrite ?started_app, ?ended_app, ?registered_app; simpl; rewrite ?app_nil_r, <- ?app_assoc; try done.
  - apply I.
  - apply I.
  - intros i [Hi| ->%list_elem_of_singleton]%elem_of_app.
    + destruct (ci_ended _ I i Hi) as [?|[-> _]]; [by left|]. rewrite Forall_forall in Hb.
      specialize (Hb (executing_id_ s)). rewrite elem_of_app in Hb. specialize (Hb (or_introl Hi)). rewrite Hq in Hb. unfold kAlreadyCancelled in Hb. lia.
    + right. split; [done|]. apply elem_of_app. right. apply list_elem_of_here.
  - congruence.
  - intros _. apply list_lookup_insert_eq. eapply lookup_lt_Some, Ht.
  - intros _. apply elem_of_app. right. apply list_elem_of_here.
  - intros t1 t2 pc1 pc2 [[-> ->]|[Hn1 H1]]%insert_cases [[-> ->]|[Hn2 H2]]%insert_cases Hc1 Hc2; [done|..].
    + destruct Hn2. by apply (ci_one _ I _ _ _ _ H2 Ht).
    + destruct Hn1. by apply (ci_one _ I _ _ _ _ H1 Ht).
    + by apply (ci_one _ I _ _ _ _ H1 H2).
  - intros t1 j [[_ ?]|[_ H1]]%insert_cases; [done|]. apply elem_of_app. left. by eapply (ci_waiting _ I).
  - apply (dereg_snoc (callbacks_ s)); [apply I|done| |].
    + intros i Hi. left. rewrite Hcb. by apply list_elem_of_further.
    + simpl. intros i ->%list_elem_of_singleton. rewrite Hcb. apply list_elem_of_here.
Qed.

Lemma invoked_inv t id s : CInv s → threads s !! t = Some (Invoking id) → CInv (cancel_invoked t id s).
Proof.
  intros I Ht. pose proof (looping_cancelled _ _ _ I Ht eq_refl) as Hc.
  split; simpl; rewrite ?started_app, ?ended_app, ?registered_app; simpl; rewrite ?app_nil_r; try done; try apply I.
  - intros i Hi. left. apply elem_of_app. destruct (ci_ended _ I i Hi) as [?|[-> Hr]]; [by left|right].
    assert (executing_id_ s ≠ kAlreadyCancelled) as Hx.
    { pose proof (ci_bounds _ I) as Hb. rewrite Forall_forall in Hb. specialize (Hb (executing_id_ s)).
      rewrite elem_of_app in Hb. specialize (Hb (or_introl Hi)). unfold kAlreadyCancelled. lia. }
    pose proof (ci_executing _ I Hx) as He. pose proof (ci_one _ I _ _ _ _ Ht He eq_refl eq_refl) as Heq.
    rewrite <- Heq in He. rewrite Ht in He. injection He as ->. apply list_elem_of_here.
  - congruence.
  - intros t1 t2 pc1 pc2 [[-> ->]|[Hn1 H1]]%insert_cases [[-> ->]|[Hn2 H2]]%insert_cases Hc1 Hc2; [done|..].
    + destruct Hn2. by apply (ci_one _ I _ _ _ _ H2 Ht).
    + destruct Hn1. by apply (ci_one _ I _ _ _ _ H1 Ht).
    + by apply (ci_one _ I _ _ _ _ H1 H2).
  - intros t1 j [[_ ?]|[_ H1]]%insert_cases; [done|]. by eapply (ci_waiting _ I).
  - apply (dereg_snoc (callbacks_ s)); [apply I|done|auto|by intros ? ?%elem_of_nil].
Qed.

Lemma wake_inv t id s :
  CInv s → threads s !! t = Some (Waiting id) → executing_id_ s ≠ id → CInv (note (Deregistered t id) (goto t Idle s)).
Proof.
  intros I Ht Hx. pose proof (ci_waiting _ I _ _ Ht) as Hs.
  eapply (note_inv (Deregistered t id) t Idle (callbacks_ s)); [exact I|done|done|done|done| | |].
  - exists (λ _, True), _. apply filter_all.
  - right. split_and!; [done|done|]. intros pc' H j Hpc. congruence.
  - apply (dereg_return (callbacks_ s)); [apply I|done|]. intros _. split; [by apply (sorted_apart _ _ _ (ci_sorted _ I))|].
    intros _. destruct (ci_ended _ I id Hs) as [?|[? _]]; [by left|done].
Qed.

Lemma act_inv s a : CInv s → CInv (act s a).
Proof.
  intros I. destruct a as [t|t id|t|t]; simpl; destruct (threads s !! t) as [pc|] eqn:Ht; try done.
  - destruct (may_call pc); [by eapply register_inv|done].
  - destruct (may_call pc) eqn:Hm; [by eapply deregister_inv|done].
  - destruct pc; try done. by apply cancel_inv.
  - destruct pc; [done|by apply loop_inv|by apply invoked_inv|]. case_bool_decide; [by apply wake_inv|done].
Qed.

Lemma new_inv n : CInv (new_cancellation n).
Proof.
  split; simpl; try done; try lia.
  - constructor.
  - by intros ? ?%elem_of_nil.
  - by intros ? ?%elem_of_nil.
  - split; [done|]. apply Forall_replicate. done.
  - intros t t' pc pc' [-> _]%lookup_replicate [-> _]%lookup_replicate. done.
  - by intros t id [? _]%lookup_replicate.
  - by intros [|? l1] t id l2 Heq.
Qed.

Lemma acts_inv acts s : CInv s → CInv (foldl act s acts).
Proof. revert s. induction acts as [|a acts IH]; intros s I; [done|]. by apply IH, act_inv. Qed.

(** ** Properties *)

(** C38: whatever the threads do, when [Deregister] returns for a registered callback, the
    callback is no longer pending and is never invoked afterwards; and if it was invoked, then
    it has ended, unless [Deregister] was called by the thread that was running it.  Callbacks
    are invoked in the order of their registration, each at most once. *)
Theorem deregister_synchronizes (n : nat) (acts : list Action) :
  let s := foldl act (new_cancellation n) acts in
  dereg_ok (callbacks_ s) (log s) ∧ StronglySorted lt (started (log s)).
Proof.
  intros s. assert (CInv s) as I by apply acts_inv, new_inv. split; [apply I|].
  pose proof (ci_sorted _ I) as Hs. clearbody s. clear I. induction (started (log s)) as [|x l IH]; [constructor|].
  apply StronglySorted_inv in Hs as [Hs Hx]. constructor; [by apply IH|]. by apply Forall_app in Hx as [? _].
Qed.

(** Nothing waits in vain: a thread is blocked in [Deregister] only while another thread is
    inside the very callback it waits for, and it can return as soon as that callback has; when
    [Cancel] has returned, nothing is pending and every callback that was invoked has ended. *)
Theorem cancellation_progress (n : nat) (acts : list Action) :
  let s := foldl act (new_cancellation n) acts in
  (∀ t id, threads s !! t = Some (Waiting id) →
     (∃ t', t' ≠ t ∧ threads s !! t' = Some (Invoking id)) ∨ threads (act s (AContinue t)) !! t = Some Idle) ∧
  (cancelled_ s = true → Forall (λ pc, cancelling pc = false) (threads s) →
     ∀ i, i ∈ started (log s) → i ∈ ended (log s)).
Proof.
  intros s. assert (CInv s) as I by apply acts_inv, new_inv. split.
  - intros t id Ht. destruct (decide (executing_id_ s = id)) as [Hx|Hx].
    + left. exists (executing_thread_ s). assert (executing_id_ s ≠ kAlreadyCancelled) as Hne.
      { pose proof (ci_bounds _ I) as Hb. rewrite Forall_forall in Hb. specialize (Hb id). rewrite elem_of_app in Hb.
        specialize (Hb (or_introl (ci_waiting _ I _ _ Ht))). unfold kAlreadyCancelled. lia. }
      pose proof (ci_executing _ I Hne) as He. rewrite Hx in He. split; [|done]. intros Heq. rewrite Heq in He. congruence.
    + right. simpl. rewrite Ht, bool_decide_true by done. simpl. apply list_lookup_insert_eq. eapply lookup_lt_Some, Ht.
  - intros Hc Hf i Hi. destruct (ci_ended _ I i Hi) as [?|[-> _]]; [done|].
    pose proof (ci_bounds _ I) as Hb. rewrite Forall_forall in Hb. specialize (Hb (executing_id_ s)). rewrite elem_of_app in Hb.
    specialize (Hb (or_introl Hi)). assert (executing_id_ s ≠ kAlreadyCancelled) as Hne by (unfold kAlreadyCancelled; lia).
    pose proof (Forall_lookup_1 _ _ _ _ Hf (ci_executing _ I Hne)) as Hno. done.
Qed.
