(* ===== verification/JsonContexts.v ===== *)
(** * JSON of contexts

    libs/internal/src/serialization/json_context.cpp and json_attributes.cpp.

    The keys of a [boost::json::object] are unique, so that the iterators the code compares are
    told apart by their keys. *)

From S2P Require Import Prelude OrderedMap Doubles Values AttributeReferences Contexts Json.
From Stdlib Require Import Sorted.

(** ** Writing *)

Definition from_Attributes (a : Attributes) : list (string * json) :=
  let obj := obj_emplace "key" (JString (Attributes_Key a)) [] in
  let obj := write_if "name" (JString (Attributes_Name a)) (negb (is_empty (Attributes_Name a))) obj in
  let obj := write_if "anonymous" (JBool (Attributes_Anonymous a)) (Attributes_Anonymous a) obj in
  let obj := foldl (λ obj kv, if IsNull kv.2 then obj else obj_emplace kv.1 (from_Value kv.2) obj)
               obj (AsObject (custom_attributes_ a)) in
  match private_attributes_ a with
  | [] => obj
  | refs => obj_emplace "_meta" (JObject [("privateAttributes", JArray ((λ r, JString (RedactionName r)) <$> refs))]) obj
  end.

(** A context that is not valid leaves the value it is written to, a null, as it is;
    [Attributes] throws for a kind that is not there, which does not happen here. *)
Definition from_Context (c : Context) : json :=
  if Context_Valid c then
    match Context_Kinds c with
    | [kind] =>
        let kind := from_c_str kind in
        match Context_Attributes c kind with
        | Some a => JObject (obj_emplace "kind" (JString kind) (from_Attributes a))
        | None => JNull
        end
    | kinds =>
        JObject (foldl (λ obj kind,
          match Context_Attributes c (from_c_str kind) with
          | Some a => obj_emplace (from_c_str kind) (JObject (from_Attributes a)) obj
          | None => obj
          end) (obj_emplace "kind" (JString "multi") []) kinds)
    end
  else JNull.

(** ** Reading *)

Abbreviation context_result A := (expected A JsonError.t).

(** A field that may be absent or null. *)
Definition present (key : string) (obj : list (string * json)) : option json :=
  match obj_find key obj with Some JNull | None => None | Some v => Some v end.

Definition read_name (context : list (string * json)) (attrs : AttributesBuilder) : context_result AttributesBuilder :=
  match present "name" context with
  | None => Val attrs
  | Some (JString s) => Val (AB_Name s attrs)
  | Some _ => Unexpected JsonError.kContextInvalidNameField
  end.

Definition read_anonymous (context : list (string * json)) (attrs : AttributesBuilder) : context_result AttributesBuilder :=
  match present "anonymous" context with
  | None => Val attrs
  | Some (JBool b) => Val (AB_Anonymous b attrs)
  | Some _ => Unexpected JsonError.kContextInvalidAnonymousField
  end.

Fixpoint add_private (arr : list json) (attrs : AttributesBuilder) : context_result AttributesBuilder :=
  match arr with
  | [] => Val attrs
  | JString s :: rest => add_private rest (AB_AddPrivateAttribute (FromReferenceStr s) attrs)
  | _ :: _ => Unexpected JsonError.kContextInvalidAttributeReference
  end.

Definition read_meta (context : list (string * json)) (attrs : AttributesBuilder) : context_result AttributesBuilder :=
  match present "_meta" context with
  | None => Val attrs
  | Some (JObject meta) =>
      match present "secondary" meta with
      | None | Some (JString _) =>
          match present "privateAttributes" meta with
          | None => Val attrs
          | Some (JArray private_attrs) => add_private private_attrs attrs
          | Some _ => Unexpected JsonError.kContextInvalidPrivateAttributesField
          end
      | Some _ => Unexpected JsonError.kContextInvalidSecondaryField
      end
  | Some _ => Unexpected JsonError.kContextInvalidMetaField
  end.

Definition own_field (key : string) : bool :=
  str_eqb key "key" || str_eqb key "name" || str_eqb key "anonymous" || str_eqb key "_meta".

(** The loop over the other attributes: one that cannot be read is left out. *)
Definition read_attribute `{BoostJson} (attrs : AttributesBuilder) (attr : string * json) : AttributesBuilder :=
  if own_field attr.1 then attrs
  else
    match attr.2 with
    | JNull => attrs
    | v => match to_Value v with
           | Val value => AB_Set attr.1 (default VNull value) false attrs
           | Unexpected _ => attrs
           end
    end.

Definition ParseSingle `{BoostJson} (builder : ContextBuilder) (context : list (string * json)) (kind : string)
    : context_result ContextBuilder :=
  match obj_find "key" context with
  | None => Unexpected JsonError.kContextMissingKeyField
  | Some (JString key) =>
      let builder := CB_Kind kind key builder in
      let attrs := default (new_attributes_builder key) (find kind builder) in
      let? attrs := read_name context attrs in
      let? attrs := read_anonymous context attrs in
      let? attrs := read_meta context attrs in
      Val (assign kind (foldl read_attribute attrs context) builder)
  | Some _ => Unexpected JsonError.kContextInvalidKeyField
  end.

Fixpoint parse_kinds `{BoostJson} (builder : ContextBuilder) (context : list (string * json)) : context_result ContextBuilder :=
  match context with
  | [] => Val builder
  | (single_kind, v) :: rest =>
      if str_eqb single_kind "kind" then parse_kinds builder rest
      else
        match v with
        | JObject obj => let? builder := ParseSingle builder obj single_kind in parse_kinds builder rest
        | _ => Unexpected JsonError.kContextMustBeObject
        end
  end.

Definition to_Context `{BoostJson} (json_value : json) : context_result Context :=
  match json_value with
  | JObject context =>
      match obj_find "kind" context with
      | None => Unexpected JsonError.kContextMissingKindField
      | Some (JString kind) =>
          let? builder := if str_eqb kind "multi" then parse_kinds [] context else ParseSingle [] context kind in
          Val (CB_Build builder)
      | Some _ => Unexpected JsonError.kContextInvalidKindField
      end
  | _ => Unexpected JsonError.kContextMustBeObject
  end.

(** ** Which contexts survive *)

(** The attributes that are stored in fields of their own, and that [Set] refuses. *)
Definition reserved : list string := ["key"; "name"; "anonymous"; "_meta"; "kind"].

Definition SortedRefs (l : list AttributeReference) : Prop :=
  StronglySorted (λ x y, comps_ltb (components_ x) (components_ y) = true) l.

(** Custom attributes that are well formed and not null, without reserved names; private
    attributes that are references, in the order of their set. *)
Record AttributesOk (b : AttributesBuilder) : Prop := {
  ok_values : Ordered (ab_values_ b);
  ok_attribute : Forall (λ kv, kv.1 ∉ reserved ∧ kv.2 ≠ VNull ∧ WfValue kv.2 ∧ keys_nul_free kv.2 = true) (ab_values_ b);
  ok_private : SortedRefs (ab_private_ b) ∧ Forall (λ r, FromReferenceStr (RedactionName r) = r) (ab_private_ b);
}.

(** ** Lemmas: the written object *)

Definition attribute_fields (b : AttributesBuilder) : list (string * json) :=
  [("key", JString (ab_key_ b))] ++
  (if is_empty (ab_name_ b) then [] else [("name", JString (ab_name_ b))]) ++
  (if ab_anonymous_ b then [("anonymous", JBool true)] else []) ++
  ((λ kv, (kv.1, from_Value kv.2)) <$> ab_values_ b) ++
  match ab_private_ b with
  | [] => []
  | refs => [("_meta", JObject [("privateAttributes", JArray ((λ r, JString (RedactionName r)) <$> refs))])]
  end.

Lemma emplace_new k v obj : k ∉ obj.*1 → obj_emplace k v obj = obj ++ [(k, v)].
Proof. intros Hk. unfold obj_emplace, obj_find. apply find_None_keys in Hk. by rewrite Hk. Qed.

Lemma write_values (o : list (string * Value)) obj :
  Ordered o → Forall (λ kv, kv.2 ≠ VNull ∧ kv.1 ∉ obj.*1) o →
  foldl (λ obj kv, if IsNull kv.2 then obj else obj_emplace kv.1 (from_Value kv.2) obj) obj o =
  obj ++ ((λ kv, (kv.1, from_Value kv.2)) <$> o).
Proof.
  revert obj. induction o as [|[k v] o IH]; intros obj Ho Hf; [by rewrite app_nil_r|].
  apply ordered_cons in Ho as [Ho Hk]. apply Forall_cons in Hf as [[Hn Hin] Hf]. cbn [foldl fst snd] in *.
  assert (IsNull v = false) as -> by (by destruct v). rewrite emplace_new by done.
  rewrite IH, <- app_assoc; [done|done|]. rewrite Forall_forall in *. intros [k' v'] Hin'.
  destruct (Hf _ Hin') as [? ?]. split; [done|]. rewrite fmap_app, not_elem_of_app. split; [done|].
  simpl. rewrite list_elem_of_singleton. intros ->.
  apply (str_lt_irrefl k). refine (proj1 (Forall_forall _ _) Hk k _). apply list_elem_of_fmap. by exists (k, v').
Qed.

Lemma written_attributes b : AttributesOk b → from_Attributes (BuildAttributes b) = attribute_fields b.
Proof.
  intros [Ho Ha _]. unfold from_Attributes, attribute_fields. cbn [Attributes_Key Attributes_Name Attributes_Anonymous BuildAttributes make_attributes key_ name_ anonymous_ AsString AsBool of_opt_string custom_attributes_ AsObject private_attributes_].
  set (o1 := write_if "anonymous" _ _ _).
  assert (o1 = [("key", JString (ab_key_ b))] ++ (if is_empty (ab_name_ b) then [] else [("name", JString (ab_name_ b))]) ++
    (if ab_anonymous_ b then [("anonymous", JBool true)] else [])) as ->.
  { unfold o1. by destruct (is_empty (ab_name_ b)), (ab_anonymous_ b). }
  rewrite write_values; [|done|].
  - rewrite <- !app_assoc. destruct (ab_private_ b) as [|r refs] eqn:Er; [by rewrite !app_nil_r|].
    rewrite emplace_new; [by rewrite <- !app_assoc|]. rewrite !fmap_app, !not_elem_of_app. split_and!.
    + simpl. set_solver.
    + destruct (is_empty _); simpl; set_solver.
    + destruct (ab_anonymous_ b); simpl; set_solver.
    + rewrite <- list_fmap_compose. intros ([k v] & Heq & Hin)%list_elem_of_fmap. rewrite Forall_forall in Ha.
      destruct (Ha _ Hin) as [Hr _]. apply Hr. simpl in *. subst. unfold reserved. set_solver.
  - rewrite Forall_forall in *. intros [k v] Hin. destruct (Ha _ Hin) as (Hr & Hn & _). split; [done|].
    simpl in *. unfold reserved in Hr. rewrite !elem_of_cons, elem_of_nil in Hr.
    destruct (is_empty _), (ab_anonymous_ b); simpl; rewrite ?elem_of_cons, ?elem_of_nil; naive_solver.
Qed.

Lemma valid_kind_neq kind : ValidKind kind = true →
  kind ≠ "multi" ∧ kind ≠ "kind" ∧ from_c_str kind = kind.
Proof.
  unfold ValidKind. rewrite !andb_true_iff, !negb_true_iff, orb_false_iff, !str_eqb_neq.
  intros [[_ [Hm Hk]] Hc]. split_and!; [done..|]. apply from_c_str_nul_free. intros Hin.
  rewrite forallb_forall in Hc. apply list_elem_of_In, Hc in Hin. by vm_compute in Hin.
Qed.

Lemma kind_not_field b : AttributesOk b → "kind" ∉ (attribute_fields b).*1.
Proof.
  intros [_ Ha _]. unfold attribute_fields. rewrite !fmap_app, !not_elem_of_app. split_and!.
  - simpl. set_solver.
  - destruct (is_empty _); simpl; set_solver.
  - destruct (ab_anonymous_ b); simpl; set_solver.
  - rewrite <- list_fmap_compose. intros ([k v] & Heq & Hin)%list_elem_of_fmap. rewrite Forall_forall in Ha.
    destruct (Ha _ Hin) as [Hr _]. apply Hr. simpl in *. subst. unfold reserved. set_solver.
  - destruct (ab_private_ b); simpl; set_solver.
Qed.

Lemma write_kinds (attributes_of : string → option Attributes) (b : ContextBuilder) obj :
  Ordered b → Forall (λ kb, ValidKind kb.1 = true ∧ kb.1 ∉ obj.*1 ∧ AttributesOk kb.2 ∧
    attributes_of kb.1 = Some (BuildAttributes kb.2)) b →
  foldl (λ obj kind,
    match attributes_of (from_c_str kind) with
    | Some a => obj_emplace (from_c_str kind) (JObject (from_Attributes a)) obj
    | None => obj
    end) obj b.*1 = obj ++ ((λ kb, (kb.1, JObject (attribute_fields kb.2))) <$> b).
Proof.
  revert obj. induction b as [|[kind ab] b IH]; intros obj Ho Hf; [by rewrite app_nil_r|].
  apply ordered_cons in Ho as [Ho Hk]. apply Forall_cons in Hf as [(Hv & Hn & Hok & Ha) Hf].
  cbn [fmap list_fmap foldl fst snd] in *. destruct (valid_kind_neq _ Hv) as (_ & _ & ->).
  rewrite Ha, written_attributes, emplace_new by done. rewrite IH, <- app_assoc; [done|done|].
  rewrite Forall_forall in *. intros [k' b'] Hin. destruct (Hf _ Hin) as (? & ? & ? & ?). split_and!; try done.
  rewrite fmap_app, not_elem_of_app. split; [done|]. simpl. rewrite list_elem_of_singleton. intros ->.
  apply (str_lt_irrefl kind). refine (proj1 (Forall_forall _ _) Hk kind _). apply list_elem_of_fmap. by exists (kind, b').
Qed.

(** What is written for a context that was built. *)
Definition context_object (b : ContextBuilder) : json :=
  match b with
  | [(kind, ab)] => JObject (attribute_fields ab ++ [("kind", JString kind)])
  | _ => JObject (("kind", JString "multi") :: ((λ kb, (kb.1, JObject (attribute_fields kb.2))) <$> b))
  end.

Lemma written_context b :
  Ordered b → Buildable b → Forall (λ kb, AttributesOk kb.2) b → from_Context (CB_Build b) = context_object b.
Proof.
  intros Ho Hb Hok. destruct (CB_Build_cases b Ho) as [[_ ->]|[? _]]; [|done]. destruct Hb as [Hne Hv].
  unfold from_Context. cbn [Context_Valid make_context ctx_valid_].
  set (c := make_context _).
  assert (∀ kb, kb ∈ b → Context_Attributes c kb.1 = Some (BuildAttributes kb.2)) as Ha.
  { intros kb Hin. unfold Context_Attributes, c. cbn [make_context attributes_]. rewrite find_fmap.
    by rewrite (find_ordered_elem b kb Ho Hin). }
  assert (Context_Kinds c = b.*1) as -> by apply (keys_fmap BuildAttributes b).
  destruct b as [|[kind ab] [|kb b]]; [done| |].
  - apply Forall_cons in Hv as [[Hv _] _], Hok as [Hok _]. cbn [fmap list_fmap fst].
    destruct (valid_kind_neq _ Hv) as (_ & _ & Hc). cbn [fst] in Hc. rewrite Hc.
    specialize (Ha (kind, ab)). cbn [fst snd] in Ha. rewrite Ha by set_solver.
    by rewrite written_attributes, emplace_new by (done || by apply kind_not_field).
  - refine (f_equal JObject (write_kinds (Context_Attributes c) ((kind, ab) :: kb :: b) [("kind", JString "multi")] Ho _)).
    rewrite Forall_forall in *. intros kb' Hin. destruct (Hv _ Hin) as [Hv' _], (valid_kind_neq _ Hv') as (_ & ? & _).
    split_and!; [done| |by apply Hok|by apply Ha]. simpl. set_solver.
Qed.

(** ** Lemmas: the object read back *)

Lemma comps_ltb_asym a b : comps_ltb a b = true → comps_ltb b a = false.
Proof.
  revert b. induction a as [|x a IH]; intros [|y b]; simpl; try done.
  destruct (str_ltb x y) eqn:E; simpl.
  - intros _. destruct (str_ltb y x) eqn:E'; [|done]. by destruct (str_lt_asym x y E).
  - destruct (str_ltb y x); simpl; [done|]. apply IH.
Qed.

Lemma ref_insert_last r l :
  Forall (λ x, comps_ltb (components_ x) (components_ r) = true) l → ref_set_insert r l = l ++ [r].
Proof.
  induction 1 as [|x l Hx Hl IH]; [done|]. cbn [ref_set_insert].
  by rewrite (comps_ltb_asym _ _ Hx), Hx, IH.
Qed.

Definition with_private (b : AttributesBuilder) (l : list AttributeReference) : AttributesBuilder :=
  mkAttributesBuilder (ab_key_ b) (ab_name_ b) (ab_anonymous_ b) (ab_values_ b) l.

Lemma add_private_sorted b refs :
  SortedRefs (ab_private_ b ++ refs) → Forall (λ r, FromReferenceStr (RedactionName r) = r) refs →
  add_private ((λ r, JString (RedactionName r)) <$> refs) b = Val (with_private b (ab_private_ b ++ refs)).
Proof.
  revert b. induction refs as [|r refs IH]; intros b Hs Hf.
  { rewrite app_nil_r. by destruct b. }
  apply Forall_cons in Hf as [Hr Hf]. cbn [fmap list_fmap add_private]. rewrite Hr.
  assert (ref_set_insert r (ab_private_ b) = ab_private_ b ++ [r]) as Hi.
  { apply ref_insert_last. clear - Hs. induction (ab_private_ b) as [|x l IHl]; [constructor|].
    inversion Hs as [|?? Hs' Hx]; subst. constructor; [|by apply IHl].
    rewrite Forall_forall in Hx. apply Hx. set_solver. }
  unfold AB_AddPrivateAttribute. rewrite IH; cbn [ab_private_]; rewrite ?Hi, <- ?app_assoc; done.
Qed.

Definition with_values (b : AttributesBuilder) (m : list (string * Value)) : AttributesBuilder :=
  mkAttributesBuilder (ab_key_ b) (ab_name_ b) (ab_anonymous_ b) m (ab_private_ b).

Lemma from_Value_null v : from_Value v = JNull → v = VNull.
Proof. by destruct v. Qed.

Lemma reserved_eqb k j : k ∉ reserved → j ∈ reserved → str_eqb k j = false.
Proof. intros Hk Hj. apply str_eqb_neq. by intros ->. Qed.

Section Read.
Context `{BoostJsonSpec}.

Lemma read_value b k v :
  k ∉ reserved → v ≠ VNull → WfValue v → keys_nul_free v = true →
  read_attribute b (k, from_Value v) = with_values b (assign k v (ab_values_ b)).
Proof.
  intros Hk Hn Hw Hf. unfold read_attribute, own_field. cbn [fst snd].
  pose proof (Value_inverts v Hw Hf) as Hi. unfold inverts in Hi.
  rewrite !(reserved_eqb k) by (done || unfold reserved; set_solver). cbn [orb].
  assert (AB_Set k v false b = with_values b (assign k v (ab_values_ b))) as Hs.
  { unfold AB_Set, ProtectedAttributes, TypedAttributes. cbn [existsb].
    by rewrite !(reserved_eqb k) by (done || unfold reserved; set_solver). }
  destruct (from_Value v) eqn:E; [by apply from_Value_null in E|..]; by rewrite Hi, <- Hs.
Qed.

Lemma read_values b (o : list (string * Value)) :
  Forall (λ kv, kv.1 ∉ reserved ∧ kv.2 ≠ VNull ∧ WfValue kv.2 ∧ keys_nul_free kv.2 = true) o →
  foldl read_attribute b ((λ kv, (kv.1, from_Value kv.2)) <$> o) =
  with_values b (foldl (λ m kv, assign kv.1 kv.2 m) (ab_values_ b) o).
Proof.
  revert b. induction o as [|[k v] o IH]; intros b Hf; [by destruct b|].
  apply Forall_cons in Hf as [(? & ? & ? & ?) Hf]. cbn [fmap list_fmap foldl fst snd] in *.
  by rewrite read_value, IH.
Qed.

Lemma find_values k (o : list (string * Value)) :
  k ∈ reserved → Forall (λ kv, kv.1 ∉ reserved ∧ kv.2 ≠ VNull ∧ WfValue kv.2 ∧ keys_nul_free kv.2 = true) o →
  find k ((λ kv, (kv.1, from_Value kv.2)) <$> o) = None.
Proof.
  intros Hk Hf. apply find_None_keys. rewrite keys_fmap. intros ([j v] & -> & Hin)%list_elem_of_fmap.
  rewrite Forall_forall in Hf. by destruct (Hf _ Hin).
Qed.

(** The tail after the fields of the attributes: the kind of a single-kind context, or nothing. *)
Definition kind_tail (tail : list (string * json)) : Prop := tail = [] ∨ ∃ kind, tail = [("kind", JString kind)].

Definition meta_field (refs : list AttributeReference) : option json :=
  match refs with
  | [] => None
  | _ => Some (JObject [("privateAttributes", JArray ((λ r, JString (RedactionName r)) <$> refs))])
  end.

(** What each of the lookups of [ParseSingle] finds. *)
Lemma find_fields b tail : AttributesOk b → kind_tail tail →
  find "key" (attribute_fields b ++ tail) = Some (JString (ab_key_ b)) ∧
  find "name" (attribute_fields b ++ tail) = (if is_empty (ab_name_ b) then None else Some (JString (ab_name_ b))) ∧
  find "anonymous" (attribute_fields b ++ tail) = (if ab_anonymous_ b then Some (JBool true) else None) ∧
  find "_meta" (attribute_fields b ++ tail) = meta_field (ab_private_ b).
Proof.
  intros [_ Ha _] Ht. unfold attribute_fields, meta_field.
  repeat rewrite find_app. rewrite !(find_values _ (ab_values_ b)) by (done || unfold reserved; set_solver).
  destruct Ht as [-> |[kind ->]], (is_empty _), (ab_anonymous_ b), (ab_private_ b); by vm_compute.
Qed.

Lemma read_tail b tail : kind_tail tail → foldl read_attribute b tail = b.
Proof. by intros [-> |[kind ->]]. Qed.

Lemma loop_fields b tail builder :
  AttributesOk b → kind_tail tail → ab_values_ builder = [] →
  foldl read_attribute builder (attribute_fields b ++ tail) = with_values builder (ab_values_ b).
Proof.
  intros [Ho Ha _] Ht Hv. unfold attribute_fields. rewrite !foldl_app, (read_tail _ _ Ht).
  set (start := foldl read_attribute _ (if ab_anonymous_ b then _ else _)).
  assert (start = builder) as -> by (by unfold start; destruct (is_empty _), (ab_anonymous_ b)).
  rewrite read_values, Hv, (foldl_assign_nil (λ v, v)) by done.
  assert ((λ kv : string * Value, (kv.1, kv.2)) <$> ab_values_ b = ab_values_ b) as ->.
  { rewrite <- (list_fmap_id (ab_values_ b)) at 2. apply list_fmap_ext. by intros ? []. }
  by destruct (ab_private_ b).
Qed.

Lemma read_meta_fields fields b :
  SortedRefs (ab_private_ b) ∧ Forall (λ r, FromReferenceStr (RedactionName r) = r) (ab_private_ b) →
  find "_meta" fields = meta_field (ab_private_ b) →
  read_meta fields (with_private b []) = Val b.
Proof.
  intros [Hs Hr] Hf. unfold read_meta, present, obj_find. rewrite Hf.
  destruct b as [key name anon values refs]. cbn [ab_private_] in *. destruct refs as [|r refs]; [done|].
  set (refs' := r :: refs) in *. cbn [meta_field]. 
  change (add_private ((λ r, JString (RedactionName r)) <$> refs')
    (mkAttributesBuilder key name anon values []) = Val (mkAttributesBuilder key name anon values refs')).
  by rewrite (add_private_sorted (mkAttributesBuilder key name anon values [])).
Qed.

(** The fields of its attributes rebuild the builder. *)
Lemma ParseSingle_fields builder kind b tail :
  AttributesOk b → kind_tail tail → find kind builder = None →
  ParseSingle builder (attribute_fields b ++ tail) kind =
  Val (assign kind b (assign kind (new_attributes_builder (ab_key_ b)) builder)).
Proof.
  intros Hok Ht Hk. destruct (find_fields b tail Hok Ht) as (Fk & Fn & Fa & Fm).
  set (fields := attribute_fields b ++ tail) in *.
  unfold ParseSingle, CB_Kind, emplace, obj_find. rewrite Fk, Hk. cbv zeta. rewrite find_assign_eq. cbn [default id].
  assert (read_name fields (new_attributes_builder (ab_key_ b)) =
    Val (mkAttributesBuilder (ab_key_ b) (ab_name_ b) false [] [])) as ->.
  { unfold read_name, present, obj_find. rewrite Fn. by destruct (ab_name_ b). }
  cbn [ebind]. assert (read_anonymous fields (mkAttributesBuilder (ab_key_ b) (ab_name_ b) false [] []) =
    Val (with_private (with_values b []) [])) as ->.
  { unfold read_anonymous, present, obj_find. rewrite Fa. unfold with_private, with_values. cbn. by destruct (ab_anonymous_ b). }
  cbn [ebind]. rewrite (read_meta_fields fields (with_values b [])) by (apply Hok || done).
  cbn [ebind]. unfold fields. rewrite loop_fields by done. by destruct b.
Qed.

Lemma assign_assign {V} k (v w : V) m : assign k v (assign k w m) = assign k v m.
Proof.
  induction m as [|[j x] m IH]; simpl; [by rewrite str_eqb_refl|].
  destruct (str_eqb k j) eqn:E; simpl; [by rewrite str_eqb_refl|].
  destruct (str_ltb k j) eqn:L; simpl; [by rewrite str_eqb_refl|]. by rewrite E, L, IH.
Qed.

Lemma parse_kinds_fields acc (b : ContextBuilder) :
  Ordered (acc ++ b) → Forall (λ kb, kb.1 ≠ "kind" ∧ AttributesOk kb.2) b →
  parse_kinds acc ((λ kb, (kb.1, JObject (attribute_fields kb.2))) <$> b) = Val (acc ++ b).
Proof.
  revert acc. induction b as [|[kind ab] b IH]; intros acc Ho Hf; [by rewrite app_nil_r|].
  apply Forall_cons in Hf as [[Hk Hok] Hf]. cbn [fmap list_fmap parse_kinds fst snd] in *.
  rewrite (proj2 (str_eqb_neq _ _) Hk). pose proof Ho as (_ & _ & Hlt)%ordered_app.
  assert (Forall (λ j, str_lt j kind) (keys acc)) as Hl.
  { apply Forall_forall. intros j Hj. apply Hlt; [done|]. by left. }
  rewrite <- (app_nil_r (attribute_fields ab)), ParseSingle_fields.
  - cbn [ebind]. rewrite assign_assign, assign_last by done. rewrite IH; rewrite <- ?app_assoc; done.
  - done.
  - by left.
  - apply find_None_keys. intros Hin. rewrite Forall_forall in Hl. by apply (str_lt_irrefl kind), Hl.
Qed.

(** C40: A context built of kinds in order, whose builders hold well-formed custom attributes
    that are not null and not named as the fields of their own, and private attributes in the
    order of their set, is written as JSON that is read back as that very context: its
    attributes, kinds, keys and canonical key, for one kind and for several. *)
Theorem context_json_roundtrip (b : ContextBuilder)
  (Hordered : Ordered b) (Hbuildable : Buildable b) (Hok : Forall (λ kb, AttributesOk kb.2) b) :
  to_Context (from_Context (CB_Build b)) = Val (CB_Build b).
Proof.
  rewrite written_context by done. destruct Hbuildable as [Hne Hv].
  assert (∀ o, b = o → Forall (λ kb, kb.1 ≠ "kind" ∧ AttributesOk kb.2) o) as Hk.
  { intros ? <-. rewrite Forall_forall in *. intros kb Hin. destruct (valid_kind_neq _ (proj1 (Hv _ Hin))) as (_ & ? & _).
    split; [done|by apply Hok]. }
  destruct b as [|[kind ab] [|kb b]]; [done| |].
  - specialize (Hk _ eq_refl) as [[_ Ha] _]%Forall_cons. apply Forall_cons in Hv as [[Hv _] _].
    destruct (valid_kind_neq _ Hv) as (Hm & _ & _). unfold context_object, to_Context, obj_find.
    cbn [fst snd] in *. rewrite find_app, (proj2 (find_None_keys _ _) (kind_not_field _ Ha)). cbn [find fst snd] in *.
    rewrite str_eqb_refl, (proj2 (str_eqb_neq _ _) Hm), ParseSingle_fields by (done || right; eauto).
    cbn [ebind]. by rewrite assign_assign.
  - unfold context_object, to_Context, obj_find. cbn [find]. rewrite str_eqb_refl.
    change (str_eqb "multi" "multi") with true. cbn [parse_kinds]. rewrite str_eqb_refl.
    by rewrite (parse_kinds_fields [] _ Hordered (Hk _ eq_refl)).
Qed.
End Read.

(** ** Examples *)

#[local] Existing Instance reference_boost_json.
#[local] Existing Instance reference_boost_json_spec.

Definition sample_builder : ContextBuilder :=
  [("org", mkAttributesBuilder "acme" EmptyString false [] []);
   ("user", mkAttributesBuilder "bob" "Bob" true [("address", VObject [("city", VString "Oakland")]); ("beta", VBool true)]
     [FromReferenceStr "/address/city"; FromReferenceStr "beta"])].

Lemma context_json_roundtrip_witness :
  to_Context (from_Context (CB_Build sample_builder)) = Val (CB_Build sample_builder) ∧
  to_Context (from_Context (CB_Build (drop 1 sample_builder))) = Val (CB_Build (drop 1 sample_builder)).
Proof.
  assert (Forall (λ kb, AttributesOk kb.2) sample_builder) as Hok.
  { repeat constructor; unfold reserved; try done; set_solver. }
  assert (Buildable sample_builder ∧ Buildable (drop 1 sample_builder)) as [] by (split; eapply bool_decide_eq_true_1; by vm_compute).
  assert (Ordered sample_builder ∧ Ordered (drop 1 sample_builder)) as [] by (split; repeat constructor).
  split; apply context_json_roundtrip; try done. by apply Forall_drop.
Defined.

(** The field [secondary] of [_meta] is checked to be a string, and dropped. *)
Lemma secondary_dropped :
  to_Context (JObject [("kind", JString "user"); ("key", JString "bob"); ("_meta", JObject [("secondary", JString "x")])]) =
  to_Context (JObject [("kind", JString "user"); ("key", JString "bob")]).
Proof. done. Qed.
