(* ===== verification/EventPayloads.v ===== *)
(** * Analytics events as JSON

    libs/internal/src/serialization/events/json_events.cpp: what a flush sends; and
    src/events/event_batch.cpp.  The contexts of the events are the JSON that the context
    filter made of them.  A [std::unordered_map] is written in the order of its
    enumeration; a [std::map] and a [std::set] in the order of their keys. *)

From stdpp Require Import sorting.
From S2P Require Import Prelude OrderedMap Doubles Values AttributeReferences Contexts Reasons EventData.
From S2P Require Import EventBuffers EventDelivery Json EvaluationResults Notifier.
#[local] Open Scope Z_scope.

(** ** Events *)

(** [duration_cast] to milliseconds truncates. *)
Definition from_Date (d : Date) : json := JInt64 (Z.quot d 1000000).

Definition from_FeatureEventBase (event : FeatureEventBase) : list (string * json) :=
  let obj := obj_emplace "creationDate" (from_Date (fb_creation_date event)) [] in
  let obj := obj_emplace "key" (JString (fb_key event)) obj in
  let obj := write_opt JUint64 "version" (fb_version event) obj in
  let obj := write_opt JUint64 "variation" (fb_variation event) obj in
  let obj := obj_emplace "value" (from_Value (fb_value event)) obj in
  let obj := write_opt from_Reason "reason" (fb_reason event) obj in
  let obj := obj_emplace "default" (from_Value (fb_default event)) obj in
  write_opt JString "prereqOf" (fb_prereq_of event) obj.

Definition from_FeatureEvent (base : FeatureEventBase) (context : json) : json :=
  JObject (obj_emplace "context" context (obj_emplace "kind" (JString "feature") (from_FeatureEventBase base))).

Definition from_DebugEvent (base : FeatureEventBase) (context : json) : json :=
  JObject (obj_emplace "context" context (obj_emplace "kind" (JString "debug") (from_FeatureEventBase base))).

Definition from_IdentifyEvent (creation_date : Date) (context : json) : json :=
  JObject (obj_emplace "context" context
    (obj_emplace "creationDate" (from_Date creation_date) (obj_emplace "kind" (JString "identify") []))).

Definition from_IndexEvent (creation_date : Date) (context : json) : json :=
  JObject (obj_emplace "context" context
    (obj_emplace "creationDate" (from_Date creation_date) (obj_emplace "kind" (JString "index") []))).

Definition from_TrackEvent (creation_date : Date) (key : string) (context : json) (data : option Value)
    (metric_value : option double) : json :=
  let obj := obj_emplace "kind" (JString "custom") [] in
  let obj := obj_emplace "creationDate" (from_Date creation_date) obj in
  let obj := obj_emplace "key" (JString key) obj in
  let obj := obj_emplace "context" context obj in
  let obj := write_opt from_Value "data" data obj in
  JObject (write_opt JDouble "metricValue" metric_value obj).

Definition from_OutputEvent (event : OutputEvent json) : json :=
  match event with
  | OutFeature base context => from_FeatureEvent base context
  | OutDebug base context => from_DebugEvent base context
  | OutIdentify creation_date context => from_IdentifyEvent creation_date context
  | OutIndex creation_date context => from_IndexEvent creation_date context
  | OutTrack creation_date key context data metric_value => from_TrackEvent creation_date key context data metric_value
  end.

(** ** Summaries *)

(** [std::optional]'s [operator<]: nothing comes before everything. *)
Definition opt_ltb (a b : option Z) : bool :=
  match a, b with
  | _, None => false
  | None, Some _ => true
  | Some x, Some y => x <? y
  end.

(** [VariationKey::operator<]; a key is a version and a variation. *)
Definition key_ltb (a b : VariationKey) : bool :=
  if opt_ltb a.2 b.2 then true else if opt_ltb b.2 a.2 then false else opt_ltb a.1 b.1.

Definition counter_le (a b : VariationKey * VariationSummary) : Prop := key_ltb b.1 a.1 = false.

#[global] Instance counter_le_dec : RelDecision counter_le.
Proof. intros a b. unfold counter_le. apply _. Defined.

Section Summaries.
Context `{!HashOrder}.
(** What a counter reads after a signed overflow. *)
Variable (overflowed : Z).

Definition from_Counter (kvp : VariationKey * VariationSummary) : json :=
  let counter :=
    match kvp.1.1 with
    | Some version => obj_emplace "version" (JUint64 version) []
    | None => obj_emplace "unknown" (JBool true) []
    end in
  let counter := write_opt JUint64 "variation" kvp.1.2 counter in
  let counter := obj_emplace "value" (from_Value (summary_value_ kvp.2)) counter in
  JObject (obj_emplace "count" (JInt64 (default overflowed (summary_count_ kvp.2))) counter).

Definition from_SummaryState (state : SummaryState) : json :=
  let obj := obj_emplace "default" (from_Value (ss_default_ state)) [] in
  let obj := obj_emplace "contextKinds" (JArray (JString <$> merge_sort String.le (elements (context_kinds state)))) obj in
  JObject (obj_emplace "counters" (JArray (from_Counter <$> merge_sort counter_le (map_to_list (counters state)))) obj).

Definition from_Features (features : gmap string SummaryState) : json :=
  JObject (foldl (λ obj kv, obj_emplace kv.1 (from_SummaryState kv.2) obj) [] (iterate features)).

Definition from_Summarizer (summary : Summarizer) : json :=
  let obj := obj_emplace "kind" (JString "summary") [] in
  let obj := obj_emplace "startDate" (from_Date (start_time_ summary)) obj in
  let obj := obj_emplace "endDate" (from_Date (end_time_ summary)) obj in
  JObject (obj_emplace "features" (from_Features (features_ summary)) obj).

(** The body of a request: the array that [CreateBatch] fills. *)
Definition payload (batch : EventBatch json) : list json :=
  (from_OutputEvent <$> batch.1) ++ match batch.2 with Some summary => [from_Summarizer summary] | None => [] end.

(** [EventBatch::Count] *)
Definition batch_Count (batch : EventBatch json) : nat := length (payload batch).
End Summaries.

(** ** Lemmas *)

Lemma emplace_fresh k v obj : k ∉ obj.*1 → obj_emplace k v obj = obj ++ [(k, v)].
Proof. intros Hk. unfold obj_emplace, obj_find. apply find_None_keys in Hk. by rewrite Hk. Qed.

Lemma emplace_all {A} (f : A → json) (l : list (string * A)) obj :
  NoDup l.*1 → (∀ k, k ∈ l.*1 → k ∉ obj.*1) →
  foldl (λ obj kv, obj_emplace kv.1 (f kv.2) obj) obj l = obj ++ ((λ kv, (kv.1, f kv.2)) <$> l).
Proof.
  revert obj. induction l as [|[k x] l IH]; intros obj Hnd Hd; [by rewrite app_nil_r|].
  apply NoDup_cons in Hnd as [Hk Hnd]. cbn [foldl fst snd]. rewrite emplace_fresh by (apply Hd; by left).
  rewrite IH, <- app_assoc; [done|done|]. intros j Hj. rewrite fmap_app, not_elem_of_app. split; [apply Hd; by right|].
  simpl. rewrite list_elem_of_singleton. by intros ->.
Qed.

Section Summary.
Context `{!HashOrder} (overflowed : Z).

(** The counter of [n] evaluations. *)
Definition counter_object (c : VariationKey * Value * nat) : json :=
  let '(version, variation, value, n) := c in
  JObject (match version with Some v => [("version", JUint64 v)] | None => [("unknown", JBool true)] end ++
    match variation with Some i => [("variation", JUint64 i)] | None => [] end ++
    [("value", from_Value value); ("count", JInt64 (Z.of_nat n))]).

Lemma counter_written vk v n :
  from_Counter overflowed (vk, mkSummary (Some (Z.of_nat n)) v) = counter_object (vk, v, n).
Proof. by destruct vk as [[ver|] [var|]]. Qed.

Lemma features_written (features : gmap string SummaryState) :
  ∃ obj, from_Features overflowed features = JObject obj ∧ NoDup obj.*1 ∧
    ∀ key, obj_find key obj = from_SummaryState overflowed <$> features !! key.
Proof.
  pose proof (NoDup_fst_map_to_list features) as Hnd. rewrite <- (iterate_perm features) in Hnd.
  exists ((λ kv, (kv.1, from_SummaryState overflowed kv.2)) <$> iterate features). split_and!.
  - unfold from_Features. rewrite emplace_all; [done|done|]. intros ??. apply not_elem_of_nil.
  - change (NoDup (keys ((λ kv, (kv.1, from_SummaryState overflowed kv.2)) <$> iterate features))). by rewrite keys_fmap.
  - intros key. unfold obj_find. rewrite find_fmap. f_equal.
    destruct (find key (iterate features)) as [st|] eqn:E.
    + apply find_Some_elem in E. rewrite iterate_perm in E. by apply elem_of_map_to_list in E as ->.
    + symmetry. apply eq_None_not_Some. intros [st Hst]. apply find_None_keys in E. apply E.
      apply elem_of_map_to_list in Hst. rewrite <- (iterate_perm features) in Hst. apply list_elem_of_fmap. by exists (key, st).
Qed.

(** Every event of a flag belongs to exactly one counter. *)
Lemma one_of_keys (v : VariationKey) ks :
  NoDup ks → v ∈ ks → sum_list ((λ k, if decide (k = v) then 1%nat else 0%nat) <$> ks) = 1%nat.
Proof.
  assert (∀ l, v ∉ l → sum_list ((λ k, if decide (k = v) then 1%nat else 0%nat) <$> l) = 0%nat) as Hn.
  { induction l as [|k l IH]; [done|]. intros [Hk Hl]%not_elem_of_cons. cbn [fmap list_fmap sum_list].
    rewrite decide_False by done. by rewrite IH. }
  induction 1 as [|k ks Hk Hnd IH]; [by intros ?%elem_of_nil|]. cbn [fmap list_fmap sum_list].
  destruct (decide (k = v)) as [-> |Hne]; [by rewrite Hn|]. intros [->|Hin]%elem_of_cons; [done|]. by rewrite IH.
Qed.

Lemma counters_sum (key : string) (ks : list VariationKey) (events : list FeatureEventParams) :
  NoDup ks → (∀ e, e ∈ events → fe_key e = key → (fe_version e, fe_variation e) ∈ ks) →
  sum_list ((λ vk, length (filter (for_counter key vk) events)) <$> ks) = length (filter (for_flag key) events).
Proof.
  intros Hnd. induction events as [|e events IH]; intros Hin.
  { simpl. clear. induction ks as [|k ks IH]; [done|]. exact IH. }
  assert (∀ e', e' ∈ events → fe_key e' = key → (fe_version e', fe_variation e') ∈ ks) as Hin' by (intros; apply Hin; [by right|done]).
  specialize (IH Hin'). rewrite filter_cons. destruct (decide (for_flag key e)) as [Hk|Hk].
  - pose proof (one_of_keys (fe_version e, fe_variation e) ks Hnd) as H1.
    cbn [length]. rewrite <- IH. rewrite <- Nat.add_1_l, <- H1 by (apply Hin; [by left|done]).
    clear - Hk. induction ks as [|k ks IH]; [done|]. cbn [fmap list_fmap sum_list_with]. unfold id in *. rewrite filter_cons.
    destruct (decide (k = (fe_version e, fe_variation e))) as [-> |Hne].
    + rewrite (decide_True (P := for_counter key _ e)) by done. cbn [length]. lia.
    + rewrite (decide_False (P := for_counter key k e)) by (unfold for_counter; naive_solver). lia.
  - rewrite <- IH. f_equal. apply list_fmap_ext. intros i vk _. rewrite filter_cons, decide_False; [done|].
    intros [? _]. done.
Qed.

Lemma counters_written (st : SummaryState) :
  (∀ vk s, counters st !! vk = Some s → ∃ n, summary_count_ s = Some (Z.of_nat n)) →
  ∃ cs : list (VariationKey * Value * nat),
    from_Counter overflowed <$> merge_sort counter_le (map_to_list (counters st)) = counter_object <$> cs ∧
    NoDup (cs.*1.*1) ∧
    (∀ vk v n, (vk, v, n) ∈ cs ↔ counters st !! vk = Some (mkSummary (Some (Z.of_nat n)) v)).
Proof.
  intros Hc. set (l := merge_sort counter_le (map_to_list (counters st))).
  assert (l ≡ₚ map_to_list (counters st)) as Hp by apply merge_sort_Permutation.
  set (f := λ kv : VariationKey * VariationSummary, (kv.1, summary_value_ kv.2, Z.to_nat (default 0 (summary_count_ kv.2)))).
  assert (∀ kv, kv ∈ l → ∃ n, kv.2 = mkSummary (Some (Z.of_nat n)) (summary_value_ kv.2)) as Hl.
  { intros [vk [c v]]. rewrite Hp, elem_of_map_to_list. intros Hk. destruct (Hc _ _ Hk) as [n Hn]. simpl in Hn. subst. by exists n. }
  exists (f <$> l). split_and!.
  - rewrite <- list_fmap_compose. apply list_fmap_ext. intros i [vk s] Hi%list_elem_of_lookup_2.
    destruct (Hl _ Hi) as [n Hn]. simpl in *. rewrite Hn. rewrite counter_written. cbn. by rewrite Nat2Z.id.
  - rewrite <- !list_fmap_compose. rewrite (list_fmap_ext _ fst) by done. rewrite Hp. apply NoDup_fst_map_to_list.
  - intros vk v n. rewrite list_elem_of_fmap. split.
    + intros ([vk' s] & Heq & Hin). destruct (Hl _ Hin) as [m Hm]. simpl in Hm. rewrite Hm in *.
      unfold f in Heq. cbn in Heq. rewrite Nat2Z.id in Heq. simplify_eq. apply elem_of_map_to_list. by rewrite <- Hp.
    + intros Hk. exists (vk, mkSummary (Some (Z.of_nat n)) v). split; [unfold f; cbn; by rewrite Nat2Z.id|].
      by rewrite Hp, elem_of_map_to_list.
Qed.
End Summary.

(** What the summary of [events] is to say about a flag with events: its default, the kinds of
    its contexts, and a counter for each version and variation, which together count every
    event once. *)
Definition accounted (key : string) (events : list FeatureEventParams) (first : FeatureEventParams)
    (kinds : list string) (cs : list (VariationKey * Value * nat)) : Prop :=
  NoDup kinds ∧
  (∀ k, k ∈ kinds ↔ ∃ e, e ∈ events ∧ fe_key e = key ∧ k ∈ Context_Kinds (fe_context e)) ∧
  NoDup (cs.*1.*1) ∧
  (∀ vk v n, (vk, v, n) ∈ cs ↔
     ∃ e rest, filter (for_counter key vk) events = e :: rest ∧ v = fe_value e ∧ n = S (length rest)) ∧
  sum_list (cs.*2) = length (filter (for_flag key) events).

Lemma state_accounted `{!HashOrder} overflowed (key : string) (events : list FeatureEventParams) first rest st :
  filter (for_flag key) events = first :: rest → summary_ok events key (Some st) →
  ∃ kinds cs, from_SummaryState overflowed st =
      JObject [("default", from_Value (fe_default first)); ("contextKinds", JArray (JString <$> kinds));
               ("counters", JArray (counter_object <$> cs))] ∧
    accounted key events first kinds cs.
Proof.
  intros Hf Hok. unfold summary_ok in Hok. rewrite Hf in Hok. destruct Hok as (st' & [= <-] & Hd & Hk & Hc).
  destruct (counters_written overflowed st) as (cs & Hw & Hnd & Hcs).
  { intros vk s Hs. rewrite Hc in Hs. destruct (filter (for_counter key vk) events); simplify_eq/=. eauto. }
  assert (∀ vk v n, (vk, v, n) ∈ cs ↔ ∃ e r, filter (for_counter key vk) events = e :: r ∧ v = fe_value e ∧ n = S (length r)) as Hin.
  { intros vk v n. rewrite Hcs, Hc. destruct (filter (for_counter key vk) events) as [|e r]; [naive_solver|].
    split; [intros [= Hn <-]; exists e, r; split_and!; [done|done|lia]|]. intros (? & ? & [= <- <-] & -> & ->). done. }
  exists (merge_sort String.le (elements (context_kinds st))), cs. split.
  { unfold from_SummaryState. rewrite Hw, Hd. done. }
  split_and!; [|intros k; by rewrite merge_sort_Permutation, elem_of_elements, Hk|done|done|].
  - rewrite merge_sort_Permutation. apply NoDup_elements.
  - rewrite <- (counters_sum key (cs.*1.*1)); [|done|].
    + f_equal. rewrite <- !list_fmap_compose. apply list_fmap_ext. intros i [[vk v] n] Hi%list_elem_of_lookup_2.
      apply Hin in Hi as (e & r & He & _ & ->). simpl. by rewrite He.
    + intros e He Hke. apply list_elem_of_fmap. set (vk := (fe_version e, fe_variation e)).
      assert (e ∈ filter (for_counter key vk) events) as Hx by (by apply list_elem_of_filter).
      destruct (filter (for_counter key vk) events) as [|e' r] eqn:E; [by apply not_elem_of_nil in Hx|].
      exists (vk, fe_value e'). split; [done|]. apply list_elem_of_fmap. exists (vk, fe_value e', S (length r)).
      split; [done|]. apply Hin. eauto.
Qed.

(** ** Reading events back *)

(** How a collector reads an event. *)
Section Reading.
Context `{B : BoostJson}.

Definition read_date (j : option json) : option Date := match j with Some (JInt64 ms) => Some (ms * 1000000) | _ => None end.
Definition read_string (j : option json) : option string := match j with Some (JString s) => Some s | _ => None end.
Definition read_json_value (j : json) : option Value := match to_Value j with Val (Some v) => Some v | _ => None end.
Definition read_unsigned (j : json) : option Z := match j with JUint64 z => Some z | _ => None end.
Definition read_double (j : json) : option double := match j with JDouble d => Some d | _ => None end.
Definition read_reason (j : json) : option EvaluationReason := match to_Reason j with Some (Val r) => Some r | _ => None end.

Definition read_optional {A} (read : json → option A) (j : option json) : option (option A) :=
  match j with None => Some None | Some x => Some <$> read x end.

Definition read_base (o : list (string * json)) : option FeatureEventBase :=
  let! date := read_date (obj_find "creationDate" o) in
  let! key := read_string (obj_find "key" o) in
  let! version := read_optional read_unsigned (obj_find "version" o) in
  let! variation := read_optional read_unsigned (obj_find "variation" o) in
  let! value := obj_find "value" o ≫= read_json_value in
  let! reason := read_optional read_reason (obj_find "reason" o) in
  let! default_ := obj_find "default" o ≫= read_json_value in
  let! prereq_of := read_optional (λ j, read_string (Some j)) (obj_find "prereqOf" o) in
  Some (mkFeatureBase date key version variation value reason default_ prereq_of).

Definition read_OutputEvent (j : json) : option (OutputEvent json) :=
  match j with
  | JObject o =>
      let! kind := read_string (obj_find "kind" o) in
      let! context := obj_find "context" o in
      if str_eqb kind "feature" then let! base := read_base o in Some (OutFeature base context)
      else if str_eqb kind "debug" then let! base := read_base o in Some (OutDebug base context)
      else
        let! date := read_date (obj_find "creationDate" o) in
        if str_eqb kind "identify" then Some (OutIdentify date context)
        else if str_eqb kind "index" then Some (OutIndex date context)
        else if str_eqb kind "custom" then
          let! key := read_string (obj_find "key" o) in
          let! data := read_optional read_json_value (obj_find "data" o) in
          let! metric := read_optional read_double (obj_find "metricValue" o) in
          Some (OutTrack date key context data metric)
        else None
  | _ => None
  end.
End Reading.

(** Values and reasons as the SDK makes them. *)
Definition value_ok (v : Value) : Prop := WfValue v ∧ keys_nul_free v = true.

Definition base_ok (b : FeatureEventBase) : Prop :=
  value_ok (fb_value b) ∧ value_ok (fb_default b) ∧ match fb_reason b with Some r => reason_ok r | None => True end.

Definition event_ok (e : OutputEvent json) : Prop :=
  match e with
  | OutFeature b _ | OutDebug b _ => base_ok b
  | OutTrack _ _ _ (Some v) _ => value_ok v
  | _ => True
  end.

(** The event with its date cut to the millisecond. *)
Definition ms_base (b : FeatureEventBase) : FeatureEventBase :=
  mkFeatureBase (ms_date (fb_creation_date b)) (fb_key b) (fb_version b) (fb_variation b) (fb_value b)
    (fb_reason b) (fb_default b) (fb_prereq_of b).

Definition ms_event (e : OutputEvent json) : OutputEvent json :=
  match e with
  | OutFeature b c => OutFeature (ms_base b) c
  | OutDebug b c => OutDebug (ms_base b) c
  | OutIdentify d c => OutIdentify (ms_date d) c
  | OutIndex d c => OutIndex (ms_date d) c
  | OutTrack d k c v m => OutTrack (ms_date d) k c v m
  end.

Section Roundtrip.
Context `{BoostJsonSpec}.

Lemma read_value_ok v : value_ok v → read_json_value (from_Value v) = Some v.
Proof. intros [Hw Hn]. unfold read_json_value. by rewrite (Value_inverts v Hw Hn). Qed.

Lemma read_optional_ok {A} (read : json → option A) (write : A → json) o :
  (∀ x, o = Some x → read (write x) = Some x) → read_optional read (write <$> o) = Some o.
Proof. destruct o as [x|]; [|done]. intros Hx. cbn. by rewrite Hx. Qed.

Lemma read_base_ok b (kind : string) (context : json) : base_ok b →
  read_base (obj_emplace "context" context (obj_emplace "kind" (JString kind) (from_FeatureEventBase b))) = Some (ms_base b).
Proof.
  intros (Hv & Hd & Hr). unfold read_base, from_FeatureEventBase. lookup_written.
  cbn [read_date read_string tbind mbind option_bind].
  rewrite !(read_optional_ok read_unsigned JUint64) by done. cbn [tbind].
  rewrite (read_value_ok _ Hv), (read_value_ok _ Hd). cbn [tbind].
  rewrite (read_optional_ok read_reason from_Reason); [|intros r E; rewrite E in Hr; unfold read_reason; by rewrite reason_read].
  cbn [tbind]. by rewrite (read_optional_ok (λ j, read_string (Some j)) JString).
Qed.

(** Every field of an event can be read from what is sent: dates are cut to the millisecond,
    and nothing else is lost or confused. *)
Theorem event_payload_roundtrip (e : OutputEvent json) (Hok : event_ok e) :
  read_OutputEvent (from_OutputEvent e) = Some (ms_event e).
Proof.
  destruct e as [b c|b c|d c|d c|d k c v m]; cbn [from_OutputEvent]; unfold from_FeatureEvent, from_DebugEvent, from_TrackEvent.
  - cbn [read_OutputEvent]. rewrite read_base_ok by done. unfold from_FeatureEventBase. lookup_written. done.
  - cbn [read_OutputEvent]. rewrite read_base_ok by done. unfold from_FeatureEventBase. lookup_written. done.
  - done.
  - done.
  - cbn [read_OutputEvent]. lookup_written. cbn [read_date read_string tbind]. change (str_eqb "custom" _) with false at 1 2 3 4.
    rewrite (read_optional_ok read_json_value from_Value), (read_optional_ok read_double JDouble); [done|done|].
    intros x ->. by apply read_value_ok.
Qed.
End Roundtrip.

(** ** Properties *)

(** C19: what a summary event says is what happened.  For fewer than 2^31 evaluations, the
    object that is sent has a member for exactly the flags that were evaluated, with the
    default of the flag's first evaluation, the kinds of its contexts, and one counter for
    each version and variation, marked unknown when the flag had no version; the counters
    hold how often it was served, and add up to the number of the flag's evaluations. *)
Theorem summary_payload `{!HashOrder} (overflowed : Z) (start finish : Date) (events : list FeatureEventParams)
  (Hlen : Z.of_nat (length events) < 2 ^ 31) :
  ∃ features,
    from_Summarizer overflowed (Finish (foldl Update (new_summarizer start) events) finish) =
      JObject [("kind", JString "summary"); ("startDate", JInt64 (Z.quot start 1000000));
               ("endDate", JInt64 (Z.quot finish 1000000)); ("features", JObject features)] ∧
    NoDup features.*1 ∧
    ∀ key,
      match filter (for_flag key) events with
      | [] => obj_find key features = None
      | first :: _ =>
          ∃ kinds cs, obj_find key features =
              Some (JObject [("default", from_Value (fe_default first)); ("contextKinds", JArray (JString <$> kinds));
                             ("counters", JArray (counter_object <$> cs))]) ∧
            accounted key events first kinds cs
      end.
Proof.
  set (s := foldl Update (new_summarizer start) events).
  assert (∀ key, summary_ok events key (features_ s !! key)) as Hs by (intros key; by apply summary_counts).
  destruct (features_written overflowed (features_ s)) as (obj & Hobj & Hnd & Hfind). exists obj. split_and!; [|done|].
  { unfold from_Summarizer, Finish. cbn [features_ start_time_ end_time_]. rewrite Hobj.
    assert (start_time_ s = start) as ->; [|done]. unfold s. clear. induction events as [|e l IH] using rev_ind; [done|].
    by rewrite foldl_app. }
  intros key. rewrite Hfind. specialize (Hs key). destruct (filter (for_flag key) events) as [|first rest] eqn:Hf.
  - unfold summary_ok in Hs. rewrite Hf in Hs. by rewrite Hs.
  - destruct (features_ s !! key) as [st|] eqn:E.
    + destruct (state_accounted overflowed key events first rest st Hf Hs) as (kinds & cs & Hw & Ha).
      exists kinds, cs. cbn. by rewrite Hw.
    + unfold summary_ok in Hs. rewrite Hf in Hs. by destruct Hs as (? & ? & _).
Qed.

Lemma summary_payload_witness :
  let events := [example_event "f" 0; example_event "f" 1; example_event "f" 0] in
  payload 0 ([], Some (Finish (foldl Update (new_summarizer 0) events) 5000000)) =
    [JObject [("kind", JString "summary"); ("startDate", JInt64 0); ("endDate", JInt64 5);
      ("features", JObject [("f", JObject [("default", JNull); ("contextKinds", JArray []);
        ("counters", JArray [counter_object (Some 1, Some 0, VBool true, 2%nat); counter_object (Some 1, Some 1, VBool true, 1%nat)])])])]] ∧
  ∃ features,
    from_Summarizer 0 (Finish (foldl Update (new_summarizer 0) events) 5000000) =
      JObject [("kind", JString "summary"); ("startDate", JInt64 (Z.quot 0 1000000));
               ("endDate", JInt64 (Z.quot 5000000 1000000)); ("features", JObject features)] ∧
    NoDup features.*1 ∧
    ∀ key,
      match filter (for_flag key) events with
      | [] => obj_find key features = None
      | first :: _ =>
          ∃ kinds cs, obj_find key features =
              Some (JObject [("default", from_Value (fe_default first)); ("contextKinds", JArray (JString <$> kinds));
                             ("counters", JArray (counter_object <$> cs))]) ∧
            accounted key events first kinds cs
      end.
Proof. intros events. split; [by vm_compute|]. apply summary_payload. by vm_compute. Defined.
