(* ===== verification/FlagsStateJson.v ===== *)
(** * The state of all flags as JSON

    libs/server-sdk/src/all_flags_state/json_all_flags_state.cpp: what a server hands to a
    page so that a client starts with the flags. *)

From S2P Require Import Prelude OrderedMap Doubles Values AttributeReferences Reasons Notifier Json EvaluationResults.
From S2P Require Import EventPayloads ServerClient.
#[local] Open Scope Z_scope.

Definition from_State (state : State) : json :=
  let obj := [] in
  let obj :=
    if negb (omit_details_ state) then
      let obj := obj_emplace "version" (JUint64 (version_ state)) obj in
      write_opt from_Reason "reason" (state_reason_ state) obj
    else obj in
  let obj := write_opt JInt64 "variation" (state_variation_ state) obj in
  let obj := write_bool "trackEvents" (track_events_ state) obj in
  let obj := write_bool "trackReason" (track_reason_ state) obj in
  let obj :=
    match debug_events_until_date_ state with
    | Some date => if 0 <? date then obj_emplace "debugEventsUntilDate" (JUint64 date) obj else obj
    | None => obj
    end in
  let obj :=
    match prerequisites_ state with
    | [] => obj
    | prerequisites => obj_emplace "prerequisites" (JArray (JString <$> prerequisites)) obj
    end in
  JObject obj.

Definition from_FlagsState `{!HashOrder} (state : FlagsState) : json :=
  let obj := obj_emplace "$valid" (JBool (fs_valid_ state)) [] in
  let states := JObject (foldl (λ obj kv, obj_emplace kv.1 (from_State kv.2) obj) [] (iterate (flags_state_ state))) in
  let obj := obj_emplace "$flagsState" states obj in
  JObject (foldl (λ obj kv, obj_emplace kv.1 (from_Value kv.2) obj) obj (iterate (evaluations_ state))).

(** ** Lemmas *)

(** The members that are not flags. *)
Definition own_members : list string := ["$valid"; "$flagsState"].

Lemma find_emplaces {A} (f : A → json) (l : list (string * A)) obj k :
  obj_find k (foldl (λ obj kv, obj_emplace kv.1 (f kv.2) obj) obj l) =
  match obj_find k obj with Some x => Some x | None => f <$> find k l end.
Proof.
  revert obj. induction l as [|[j x] l IH]; intros obj; [simpl; by destruct (obj_find k obj)|].
  cbn [foldl find fst snd]. rewrite IH, find_emplaced. unfold or_written.
  destruct (obj_find k obj); [done|]. by destruct (str_eqb k j).
Qed.

Lemma find_iterate `{!HashOrder} {A} (m : gmap string A) k : find k (iterate m) = m !! k.
Proof.
  destruct (find k (iterate m)) as [x|] eqn:E.
  - apply find_Some_elem in E. rewrite iterate_perm in E. by apply elem_of_map_to_list in E as ->.
  - symmetry. apply eq_None_not_Some. intros [x Hx]. apply find_None_keys in E. apply E.
    apply elem_of_map_to_list in Hx. rewrite <- (iterate_perm m) in Hx. apply list_elem_of_fmap. by exists (k, x).
Qed.

(** ** Properties *)

(** The object holds the value of every flag under its key, and under [$flagsState] the
    metadata of every flag, whatever the order of the maps; but a flag that is named as one of
    the members of the object itself is not among the values. *)
Theorem flags_state_members `{!HashOrder} (state : FlagsState) :
  ∃ obj states, from_FlagsState state = JObject obj ∧
    obj_find "$valid" obj = Some (JBool (fs_valid_ state)) ∧
    obj_find "$flagsState" obj = Some (JObject states) ∧
    (∀ key, obj_find key states = from_State <$> flags_state_ state !! key) ∧
    ∀ key, key ∉ own_members → obj_find key obj = from_Value <$> evaluations_ state !! key.
Proof.
  eexists _, _. split; [reflexivity|]. rewrite !find_emplaces. split; [done|]. split; [done|]. split.
  - intros key. by rewrite find_emplaces, find_iterate.
  - intros key Hk. unfold own_members in Hk. rewrite find_emplaces, find_iterate.
    autorewrite with written. change (obj_find key []) with (@None json). unfold or_written.
    rewrite !(proj2 (str_eqb_neq _ _)); [done|..]; intros ->; set_solver.
Qed.

(** The metadata of a flag without details say neither its version nor its reason. *)
Lemma omitted_details (state : State) :
  ∃ obj, from_State state = JObject obj ∧
    obj_find "version" obj = (if omit_details_ state then None else Some (JUint64 (version_ state))) ∧
    obj_find "reason" obj = (if omit_details_ state then None else from_Reason <$> state_reason_ state) ∧
    obj_find "variation" obj = JInt64 <$> state_variation_ state ∧
    obj_find "trackEvents" obj = (if track_events_ state then Some (JBool true) else None) ∧
    obj_find "trackReason" obj = (if track_reason_ state then Some (JBool true) else None).
Proof.
  destruct state as [version variation reason te tr debug omit prereqs]. eexists. split; [reflexivity|].
  cbn [version_ state_variation_ state_reason_ track_events_ track_reason_ debug_events_until_date_ omit_details_ prerequisites_].
  destruct omit, debug as [d|], prereqs as [|p prereqs], te, tr, variation, reason;
    try (destruct (0 <? d)); done.
Qed.

(** A flag named [$valid] is evaluated, and its value is not written. *)
Lemma hidden_flag `{!HashOrder} :
  let state := mkFlagsState true {["$valid" := VString "on"]} ∅ in
  ∃ obj, from_FlagsState state = JObject obj ∧ obj_find "$valid" obj = Some (JBool true).
Proof. eexists. split; [reflexivity|]. by rewrite find_emplaces. Qed.
