(* ===== verification/HttpRequester.v ===== *)
(** * HTTP requests

    libs/internal/src/network/http_requester.cpp ([HttpRequest], [AppendUrl]) and
    include/launchdarkly/network/asio_requester.hpp (making a request and following
    redirects); the requests of the polling data sources
    (libs/client-sdk/src/data_sources/polling_data_source.cpp,
    libs/server-sdk/src/data_systems/background_sync/sources/polling/polling_data_source.cpp)
    with detail/payload_filter_validation.

    Boost.URL and Boost.Beast are a class.  The network is any function from the connections
    made so far to what the last of them yields. *)

From S2P Require Import Prelude AttributeReferences Externals Json Encodings Fdv2Sources SseClient.

(** ** Boost.URL *)

Class BoostUrl := {
  url : Type;
  uri_parse : string → option url;
  normalize : url → url;
  url_host : url → string;
  url_port : url → option string;
  url_https : url → bool;
  url_path : url → string;
  url_query : url → string;
  set_path : string → url → url;
  url_text : url → string;
  payload_prepared : Request → Request;
}.

(** [prepare_payload] sets fields only. *)
Class BoostUrlLaws (U : BoostUrl) : Prop := {
  prepared_rest r : rq_method (payload_prepared r) = rq_method r ∧ rq_body (payload_prepared r) = rq_body r ∧
    rq_target (payload_prepared r) = rq_target r;
}.

(** ** [HttpRequest] *)

Inductive HttpMethod := kPost | kGet | kReport | kPut.

Record TlsOptions := mkTls { tls_verify_none : bool; tls_ca_file : option string }.

Record HttpProperties := mkProperties {
  connect_timeout : Z;
  read_timeout : Z;
  write_timeout : Z;
  response_timeout : Z;
  base_headers : list (string * string);
  tls_options : TlsOptions;
  proxy_url : option string;
}.

Record HttpRequest := mkHttpRequest {
  hr_url : string;
  hr_method : HttpMethod;
  hr_body : option string;
  hr_properties : HttpProperties;
  hr_host : string;
  hr_port : option string;
  hr_path : string;
  hr_https : bool;
  hr_valid : bool;
}.

Section Requests.
Context `{BoostUrl}.

(** The members left out of an invalid request are never read. *)
Definition make_request (text : string) (method : HttpMethod) (properties : HttpProperties) (body : option string) : HttpRequest :=
  match uri_parse text with
  | None => mkHttpRequest text method body properties EmptyString None EmptyString false false
  | Some components =>
      let boost_url := normalize components in
      let path := from_c_str (url_path boost_url) in
      let path := if is_empty (url_query boost_url) then path else path +:+ "?" +:+ url_query components in
      mkHttpRequest text method body properties (url_host components) (url_port components) path (url_https components) true
  end.

Definition ends_with_slash (s : string) : bool := match last (chars s) with Some c => (c =? "/")%char | None => false end.
Definition starts_with_slash (s : string) : bool := match chars s with c :: _ => (c =? "/")%char | [] => false end.

(** The path of [AppendUrl]. *)
Definition append_path (path to_append : string) : string :=
  let path_has_trailing_slash := ends_with_slash path in
  let append_has_leading_slash := starts_with_slash to_append in
  if (path_has_trailing_slash && negb append_has_leading_slash) || (negb path_has_trailing_slash && append_has_leading_slash)
  then path +:+ to_append
  else if negb path_has_trailing_slash && negb append_has_leading_slash then path +:+ "/" +:+ to_append
  else path +:+ of_chars (drop 1 (chars to_append)).

(** [url.c_str()] is a C string. *)
Definition AppendUrl (url_in : option string) (to_append : string) : option string :=
  match url_in with
  | None => None
  | Some text =>
      if is_empty to_append then url_in
      else
        match uri_parse text with
        | None => None
        | Some components =>
            let u := normalize components in
            let path := append_path (from_c_str (url_path u)) to_append in
            Some (from_c_str (url_text (normalize (set_path path u))))
        end
  end.

(** ** Making a request *)

Definition kRedirectLimit : Z := 20.

Definition IsAbsolute (str : string) : bool :=
  match String.index 0 "://" str with Some _ => true | None => false end ||
  match String.index 0 "//" str with Some 0%nat => true | _ => false end.

Definition has_header (name : string) (headers : list (string * string)) : bool :=
  match find_header name headers with Some _ => true | None => false end.

Definition NeedsRedirect (res : HttpResponse) : bool :=
  (res_Status res =? 301) || ((res_Status res =? 308) && has_header "location" (res_Headers res)).

Definition ConvertMethod (method : HttpMethod) : verb :=
  match method with kPost => v_post | kGet => v_get | kReport => v_report | kPut => v_other "PUT" end.

Definition MakeBeastRequest (request : HttpRequest) : Request :=
  let r := mkRequest (ConvertMethod (hr_method request)) (if is_empty (hr_path request) then "/" else hr_path request) []
             (default EmptyString (hr_body request)) in
  let r := payload_prepared r in
  let r := with_fields (set_field "Host" (hr_host request)) r in
  foldl (λ r pair, with_fields (set_field pair.1 pair.2) r) r (base_headers (hr_properties request)).

(** [None] when the header that is dereferenced is not there. *)
Definition MakeRedirectRequest (req : HttpRequest) (res : HttpResponse) : option (option HttpRequest) :=
  match find_header "location" (res_Headers res) with
  | None => None
  | Some location =>
      if IsAbsolute location then Some (Some (make_request location (hr_method req) (hr_properties req) (hr_body req)))
      else
        match AppendUrl (Some (hr_url req)) location with
        | Some new_url => Some (Some (make_request new_url (hr_method req) (hr_properties req) (hr_body req)))
        | None => Some None
        end
  end.

(** What a connection yields: an error of the connection or of the exchange, or a response. *)
Inductive Answer :=
| ConnectFailed (message : string)
| RequestFailed (message : string)
| Responded (status : Z) (body : string) (fields : list (string * string)).

Definition error_result (message : string) : HttpResponse := mkHttpResponse true (Some message) 0 None [].

(** [std::map::insert_or_assign] with names compared without case. *)
Fixpoint insert_or_assign (name value : string) (headers : list (string * string)) : list (string * string) :=
  match headers with
  | [] => [(name, value)]
  | (k, v) :: rest => if iequals k name then (k, value) :: rest else (k, v) :: insert_or_assign name value rest
  end.

Definition MakeResult (status : Z) (body : string) (fields : list (string * string)) : HttpResponse :=
  mkHttpResponse false None status (Some body) (foldl (λ headers field, insert_or_assign field.1 field.2 headers) [] fields).

(** [OnConnect], [OnResponse] and [Fail] of the client. *)
Definition result_of (answer : Answer) : HttpResponse :=
  match answer with
  | ConnectFailed message => error_result ("connect: " +:+ message)
  | RequestFailed message => error_result ("request: " +:+ message)
  | Responded status body fields => MakeResult status body fields
  end.

(** The client made for a request. *)
Record Connection := mkConnection {
  cn_host : string;
  cn_service : string;
  cn_https : bool;
  cn_request : Request;
  cn_connect_timeout : Z;
  cn_response_timeout : Z;
}.

Definition connection_of (request : HttpRequest) : Connection :=
  mkConnection (hr_host request) (default (if hr_https request then "https" else "http") (hr_port request)) (hr_https request)
    (MakeBeastRequest request) (connect_timeout (hr_properties request)) (response_timeout (hr_properties request)).

(** The connections made, and the result the callback is given; no result where the behaviour
    of the code is undefined.  [unsigned char] holds the count. *)
Fixpoint InnerRequest (fuel : nat) (network : list Connection → Answer) (sent : list Connection)
    (request : option HttpRequest) (redirect_count : Z) : option (list Connection * option HttpResponse) :=
  match fuel with
  | O => None
  | S fuel =>
      if kRedirectLimit <? redirect_count then Some (sent, Some (error_result "Redirects exceeded 20, cancelling request."))
      else
        match request with
        | Some req =>
            if hr_valid req then
              let sent := sent ++ [connection_of req] in
              let res := result_of (network sent) in
              if NeedsRedirect res then
                match MakeRedirectRequest req res with
                | None => Some (sent, None)
                | Some next => InnerRequest fuel network sent next (redirect_count + 1)
                end
              else Some (sent, Some res)
            else Some (sent, Some (error_result "The request was malformed and could not be made."))
        | None => Some (sent, Some (error_result "The request was malformed and could not be made."))
        end
  end.

(** Enough for the redirects that are followed. *)
Definition request_fuel : nat := 22.

Definition HttpRequest_Request (network : list Connection → Answer) (request : HttpRequest) : option (list Connection * option HttpResponse) :=
  InnerRequest request_fuel network [] (Some request) 0.

(** ** The requests of the polling data sources *)

Definition polling_interval (interval min_interval : Z) : Z := if interval <? min_interval then min_interval else interval.

Section Client.
Variable (base_url report_path get_path : string) (use_report with_reasons : bool) (properties : HttpProperties).

(** [MakeRequest] of the client-side source, of the context as JSON text. *)
Definition client_poll_request (string_context : string) : HttpRequest :=
  let '(u, method, body) :=
    if use_report then (AppendUrl (Some base_url) report_path, kReport, Some string_context)
    else (AppendUrl (AppendUrl (Some base_url) get_path) (of_chars (Base64UrlEncode (chars string_context))), kGet, None) in
  let u := if with_reasons then (λ t, t +:+ "?withReasons=true") <$> u else u in
  make_request (default EmptyString u) method properties body.
End Client.

Definition ValidateFilterKey `{Externals} (filter_key : string) : bool :=
  if is_empty filter_key then false
  else default false (regex_search filter_key "^[a-zA-Z0-9][._\-a-zA-Z0-9]*$").

(** [MakeRequest] of the server-side source. *)
Definition server_poll_request `{Externals} (base_url get_path : string) (filter_key : option string)
    (properties : HttpProperties) : HttpRequest :=
  let u := AppendUrl (Some base_url) get_path in
  let u :=
    match filter_key, u with
    | Some key, Some t => if ValidateFilterKey key then Some (t +:+ "?filter=" +:+ key) else u
    | _, _ => u
    end in
  make_request (default EmptyString u) kGet properties None.
End Requests.

(** ** Lemmas *)

(** A text without the one slash it may end with, or begin with. *)
Definition without_last_slash (s : list ascii) : list ascii :=
  match last s with Some c => if (c =? "/")%char then take (length s - 1) s else s | None => s end.
Definition without_first_slash (s : list ascii) : list ascii :=
  match s with c :: s' => if (c =? "/")%char then s' else s | [] => [] end.

(** The two parts are joined by a single slash, however many of the two have one there. *)
Lemma append_path_joined path to_append :
  to_append ≠ EmptyString →
  chars (append_path path to_append) = without_last_slash (chars path) ++ "/"%char :: without_first_slash (chars to_append).
Proof.
  intros Hne. unfold append_path, ends_with_slash, starts_with_slash, without_last_slash, without_first_slash.
  destruct (chars to_append) as [|a l] eqn:Ea; [by destruct to_append|].
  destruct (last (chars path)) as [c|] eqn:El.
  - apply last_Some in El as [p Hp]. destruct (c =? "/")%char eqn:Ec, (a =? "/")%char eqn:Eac; simpl;
      rewrite ?chars_app, ?chars_of_chars, ?Ea, Hp, ?length_app, <- ?app_assoc; cbn [length app];
      rewrite ?Nat.add_sub, ?take_app_length; try done.
    + apply Ascii.eqb_eq in Ec, Eac. by subst.
    + apply Ascii.eqb_eq in Ec. by subst.
    + apply Ascii.eqb_eq in Eac. by subst.
  - apply last_None in El. destruct (a =? "/")%char eqn:Eac; simpl; rewrite ?chars_app, El, ?Ea; [|done].
    apply Ascii.eqb_eq in Eac. by subst.
Qed.

Section Completion.
Context `{BoostUrlLaws}.
Variable (network : list Connection → Answer).

(** A connection that carries what [req] asks for. *)
Definition carries (req : HttpRequest) (c : Connection) : Prop :=
  rq_method (cn_request c) = ConvertMethod (hr_method req) ∧
  rq_body (cn_request c) = default EmptyString (hr_body req) ∧
  cn_connect_timeout c = connect_timeout (hr_properties req) ∧ cn_response_timeout c = response_timeout (hr_properties req).

Definition same_content (a b : HttpRequest) : Prop :=
  hr_method a = hr_method b ∧ hr_body a = hr_body b ∧ hr_properties a = hr_properties b.

Lemma fields_rest (l : list (string * string)) r :
  let r' := foldl (λ r pair, with_fields (set_field pair.1 pair.2) r) r l in
  rq_method r' = rq_method r ∧ rq_body r' = rq_body r.
Proof. revert r. induction l as [|kv l IH]; intros r; [done|]. apply (IH (with_fields (set_field kv.1 kv.2) r)). Qed.

Lemma connection_carries req : carries req (connection_of req).
Proof.
  unfold carries, connection_of, MakeBeastRequest. cbn [cn_request cn_connect_timeout cn_response_timeout].
  set (r := mkRequest _ _ _ _). destruct (fields_rest (base_headers (hr_properties req)) (with_fields (set_field "Host" (hr_host req)) (payload_prepared r))) as [-> ->].
  destruct (prepared_rest r) as (Hm & Hb & _). cbn [with_fields rq_method rq_body]. by rewrite Hm, Hb.
Qed.

Lemma carries_same a b c : same_content a b → carries a c → carries b c.
Proof. unfold carries. intros (-> & -> & ->). done. Qed.

Lemma make_request_content text m p b :
  let r := make_request text m p b in hr_method r = m ∧ hr_body r = b ∧ hr_properties r = p.
Proof. unfold make_request. by destruct (uri_parse text). Qed.

Lemma redirect_content req res next :
  MakeRedirectRequest req res = Some next → match next with Some r => same_content r req | None => True end.
Proof.
  unfold MakeRedirectRequest. destruct (find_header _ _) as [loc|]; [|done].
  destruct (IsAbsolute loc); [|destruct (AppendUrl _ _)]; intros [= <-]; try done; apply make_request_content.
Qed.

(** How a request ends: with the answer to its last connection, with an error of the
    requester's own, or undefined. *)
Definition ended (sent : list Connection) (out : option HttpResponse) : Prop :=
  match out with
  | Some res => NeedsRedirect res = false ∧ (res_IsError res = true ∨ sent ≠ [] ∧ res = result_of (network sent))
  | None => sent ≠ [] ∧ res_Status (result_of (network sent)) = 301 ∧
            find_header "location" (res_Headers (result_of (network sent))) = None
  end.

Lemma inner_completes req0 n sent req count :
  0 <= count <= 21 → count = Z.of_nat (length sent) → (22 <= n + length sent)%nat →
  match req with Some r => same_content r req0 | None => True end → Forall (carries req0) sent →
  ∃ sent' out, (∀ m, (n <= m)%nat → InnerRequest m network sent req count = Some (sent', out)) ∧
    (length sent' <= 21)%nat ∧ Forall (carries req0) sent' ∧ ended sent' out.
Proof.
  revert sent req count. induction n as [|n IH]; intros sent req count Hc Hl Hn Hr Hs; [lia|].
  destruct (kRedirectLimit <? count) eqn:Elim.
  { eexists sent, _. split; [intros [|m] Hm; [lia|]; cbn [InnerRequest]; by rewrite Elim|].
    split; [lia|]. split; [done|]. split; [done|by left]. }
  assert (Hmal : ∀ m, (S n <= m)%nat → match req with Some r => hr_valid r = false | None => True end →
    InnerRequest m network sent req count = Some (sent, Some (error_result "The request was malformed and could not be made."))).
  { intros [|m] Hm Hv; [lia|]. cbn [InnerRequest]. rewrite Elim. destruct req as [r|]; [by rewrite Hv|done]. }
  destruct req as [r|]; [destruct (hr_valid r) eqn:Ev|].
  2-3: eexists sent, _; split; [intros m Hm; by apply Hmal|]; split; [lia|]; split; [done|split; [done|by left]].
  clear Hmal. set (sent1 := sent ++ [connection_of r]).
  assert (Forall (carries req0) sent1) as Hs1.
  { apply Forall_app. split; [done|]. constructor; [|done]. eapply carries_same; [exact Hr|apply connection_carries]. }
  assert (length sent1 = S (length sent)) as Hlen by (unfold sent1; rewrite length_app; simpl; lia).
  apply Z.ltb_ge in Elim. unfold kRedirectLimit in Elim.
  destruct (NeedsRedirect (result_of (network sent1))) eqn:En.
  - destruct (MakeRedirectRequest r (result_of (network sent1))) as [next|] eqn:Em.
    + destruct (IH sent1 next (count + 1)) as (sent' & out & Hrun & Hrest); [lia|lia|lia| |done|].
      { apply redirect_content in Em. destruct next as [r'|]; [|done]. destruct Em as (H1 & H2 & H3), Hr as (H4 & H5 & H6).
        split_and!; congruence. }
      exists sent', out. split; [|done]. intros [|m] Hm; [lia|]. cbn [InnerRequest].
      rewrite (proj2 (Z.ltb_ge _ _)) by (unfold kRedirectLimit; lia). rewrite Ev. fold sent1. rewrite En, Em. apply Hrun. lia.
    + exists sent1, None. split.
      { intros [|m] Hm; [lia|]. cbn [InnerRequest]. rewrite (proj2 (Z.ltb_ge _ _)) by (unfold kRedirectLimit; lia).
        rewrite Ev. fold sent1. by rewrite En, Em. }
      split; [lia|]. split; [done|]. unfold MakeRedirectRequest in Em. unfold NeedsRedirect, has_header in En.
      destruct (find_header "location" _) as [loc|] eqn:Ef; [destruct (IsAbsolute loc); [done|]; by destruct (AppendUrl _ _)|].
      rewrite andb_false_r, orb_false_r in En. apply Z.eqb_eq in En.
      split_and!; [by destruct sent|done|done].
  - exists sent1, (Some (result_of (network sent1))). split.
    { intros [|m] Hm; [lia|]. cbn [InnerRequest]. rewrite (proj2 (Z.ltb_ge _ _)) by (unfold kRedirectLimit; lia).
      rewrite Ev. fold sent1. by rewrite En. }
    split; [lia|]. split; [done|]. split; [done|]. right. split; [by destruct sent|done].
Qed.
End Completion.

(** ** Properties *)

(** C20: a request always ends.  Whatever the network answers, after at most 21 connections,
    each with the method, the body and the timeouts of the request, the callback is called
    once: with a response that is not a redirect to follow, or with an error.  The one
    exception is a 301 without a location, on which the code reads a header that is not
    there. *)
Theorem request_completes `{BoostUrlLaws} (network : list Connection → Answer) (request : HttpRequest) :
  ∃ sent out,
    (∀ fuel, (request_fuel <= fuel)%nat → InnerRequest fuel network [] (Some request) 0 = Some (sent, out)) ∧
    (length sent <= 21)%nat ∧ Forall (carries request) sent ∧
    match out with
    | Some res => NeedsRedirect res = false ∧ (res_IsError res = true ∨ sent ≠ [] ∧ res = result_of (network sent))
    | None => sent ≠ [] ∧ res_Status (result_of (network sent)) = 301 ∧
              find_header "location" (res_Headers (result_of (network sent))) = None
    end.
Proof. by apply (inner_completes network request 22 [] (Some request) 0). Qed.

(** ** A concrete URL library *)

Definition hex_value (c : ascii) : option N :=
  let n := N_of_ascii c in
  if ((48 <=? n) && (n <=? 57))%N then Some (n - 48)%N
  else if ((65 <=? n) && (n <=? 70))%N then Some (n - 55)%N
  else if ((97 <=? n) && (n <=? 102))%N then Some (n - 87)%N
  else None.

Fixpoint percent_decoded (l : list ascii) : list ascii :=
  match l with
  | "%"%char :: a :: b :: rest =>
      match hex_value a, hex_value b with
      | Some x, Some y => ascii_of_N (16 * x + y) :: percent_decoded rest
      | _, _ => "%"%char :: a :: b :: percent_decoded rest
      end
  | c :: rest => c :: percent_decoded rest
  | [] => []
  end.

Definition percent_encoded (l : list ascii) : list ascii :=
  l ≫= λ c, if (c =? "%")%char then ["%"; "2"; "5"]%char else if (c =? "?")%char then ["%"; "3"; "F"]%char else [c].

Record SampleUrl := mkSampleUrl { su_scheme : list ascii; su_host : list ascii; su_port : list ascii; su_path : list ascii; su_query : list ascii }.

(** [scheme://host[:port][path][?query]] *)
Definition sample_uri_parse (s : string) : option SampleUrl :=
  let '(scheme, rest) := cut_at (λ a, (a =? ":")%char) (chars s) in
  match rest with
  | _ :: "/"%char :: "/"%char :: rest =>
      let '(authority, rest) := cut_at (λ a, (a =? "/")%char || (a =? "?")%char) rest in
      let '(host, port) := cut_at (λ a, (a =? ":")%char) authority in
      let '(path, query) := cut_at (λ a, (a =? "?")%char) rest in
      Some (mkSampleUrl scheme host (drop 1 port) path (drop 1 query))
  | _ => None
  end.

#[local] Instance sample_urls : BoostUrl := {
  url := SampleUrl;
  uri_parse := sample_uri_parse;
  normalize u := u;
  url_host u := of_chars (su_host u);
  url_port u := match su_port u with [] => None | p => Some (of_chars p) end;
  url_https u := bool_decide (su_scheme u = chars "https");
  url_path u := of_chars (percent_decoded (su_path u));
  url_query u := of_chars (percent_decoded (su_query u));
  set_path p u := mkSampleUrl (su_scheme u) (su_host u) (su_port u) (percent_encoded (chars p)) (su_query u);
  url_text u := of_chars (su_scheme u ++ chars "://" ++ su_host u ++ match su_port u with [] => [] | p => ":"%char :: p end ++
    su_path u ++ match su_query u with [] => [] | q => "?"%char :: q end);
  payload_prepared r := r;
}.

#[local] Instance sample_urls_laws : BoostUrlLaws sample_urls.
Proof. by split. Qed.

Definition sample_properties : HttpProperties :=
  mkProperties 1000 1000 1000 1000 [("Authorization", "sdk-key")] (mkTls false None) None.

Definition sample_request (text : string) : HttpRequest := make_request text kGet sample_properties None.

(** A server that has moved, then answers. *)
Definition moved_network (location : string) (sent : list Connection) : Answer :=
  match sent with [_] => Responded 301 EmptyString [("Location", location)] | _ => Responded 200 "{}" [] end.

Definition connections (o : option (list Connection * option HttpResponse)) : list Connection :=
  match o with Some (sent, _) => sent | None => [] end.

Lemma request_completes_witness :
  let network := moved_network "https://elsewhere/new" in
  let request := sample_request "https://host/sdk/latest-all" in
  cn_host <$> connections (HttpRequest_Request network request) = ["host"; "elsewhere"] ∧
  ∃ sent out,
    (∀ fuel, (request_fuel <= fuel)%nat → InnerRequest fuel network [] (Some request) 0 = Some (sent, out)) ∧
    (length sent <= 21)%nat ∧ Forall (carries request) sent ∧
    match out with
    | Some res => NeedsRedirect res = false ∧ (res_IsError res = true ∨ sent ≠ [] ∧ res = result_of (network sent))
    | None => sent ≠ [] ∧ res_Status (result_of (network sent)) = 301 ∧
              find_header "location" (res_Headers (result_of (network sent))) = None
    end.
Proof. intros network request. split; [by vm_compute|]. apply request_completes. Defined.

(** ** What the model shows *)

(** [||] binds weaker than [&&]: a 301 is taken for a redirect even without a location. *)
Lemma moved_nowhere :
  option_map snd (HttpRequest_Request (λ _, Responded 301 EmptyString []) (sample_request "https://host/a")) = Some None.
Proof. by vm_compute. Qed.

(** A relative location is appended to the URL of the request instead of resolved against it. *)
Lemma relative_redirect_appended :
  (λ c, rq_target (cn_request c)) <$> connections (HttpRequest_Request (moved_network "/new") (sample_request "https://host/old")) =
  ["/old"; "/old/new"].
Proof. by vm_compute. Qed.

(** The path and the query are sent decoded: an encoded ampersand ends its parameter. *)
Lemma query_sent_decoded :
  hr_path (sample_request "https://host/sdk/poll?basis=a%26filter%3Db") = "/sdk/poll?basis=a&filter=b".
Proof. by vm_compute. Qed.

(** The headers of the request, with the SDK key, go wherever the server redirects to. *)
Lemma redirect_keeps_key :
  (λ c, (cn_host c, find_header "authorization" (rq_fields (cn_request c)))) <$>
    connections (HttpRequest_Request (moved_network "http://elsewhere/new") (sample_request "https://host/old")) =
  [("host", Some "sdk-key"); ("elsewhere", Some "sdk-key")].
Proof. by vm_compute. Qed.

(** A query in the base URL is kept in front of the parameter that is appended as text. *)
Lemma filter_after_query `{Externals} :
  regex_search "prod" "^[a-zA-Z0-9][._\-a-zA-Z0-9]*$" = Some true →
  hr_url (server_poll_request "https://relay?env=1" "/sdk/latest-all" (Some "prod") sample_properties) =
  "https://relay/sdk/latest-all?env=1?filter=prod".
Proof. intros Hr. unfold server_poll_request, ValidateFilterKey. rewrite Hr. by vm_compute. Qed.
