(* ===== verification/DatabaseSources.v ===== *)
(** * Database sources

    libs/server-sdk-dynamodb-source/src: dynamodb_source.cpp, dynamodb_big_segment_store.cpp,
    prefix.hpp and dynamodb_attributes.hpp; libs/server-sdk-redis-source/src: redis_source.cpp
    and redis_big_segment_store.cpp.

    The databases are classes of the calls the code makes, with what is documented of them as
    laws.  The hash map of items that is returned is an ordered list: nothing depends on the
    order. *)

From S2P Require Import Prelude OrderedMap AttributeReferences Externals SemVers ReferenceExternals EvalStack.
From S2P Require Import Dependencies Json Persistence LazyLoads BigSegments.
#[local] Open Scope Z_scope.

(** [ISerializedItemKind::Namespace] of the two kinds. *)
Definition Namespace (kind : DataKind.t) : string :=
  match kind with DataKind.kFlag => "features" | DataKind.kSegment => "segments" end.

(** ** [std::strtoll] in base 10, and the checks of its result *)

Definition is_space (c : ascii) : bool := let n := N_of_ascii c in ((9 <=? n) && (n <=? 13) || (n =? 32))%N.

Fixpoint skip_spaces (l : list ascii) : list ascii :=
  match l with c :: l' => if is_space c then skip_spaces l' else l | [] => [] end.

Fixpoint take_digits (l : list ascii) : list ascii * list ascii :=
  match l with
  | c :: l' => if is_digit c then let '(d, r) := take_digits l' in (c :: d, r) else ([], l)
  | [] => ([], [])
  end.

(** A whole C string that is a number in range; otherwise [errno] is set, nothing was read, or
    something is left. *)
Definition parsed_integer (raw : string) : option Z :=
  let l := skip_spaces (c_str (chars raw)) in
  let '(negative, l) :=
    match l with
    | "-"%char :: l' => (true, l')
    | "+"%char :: l' => (false, l')
    | _ => (false, l)
    end in
  let '(digits, rest) := take_digits l in
  match digits, rest with
  | _ :: _, [] =>
      let z := if negative then - digits_value digits else digits_value digits in
      if (- 2 ^ 63 <=? z) && (z <=? 2 ^ 63 - 1) then Some z else None
  | _, _ => None
  end.

(** [PrefixedNamespace], and [Prefixed] of the Redis Big Segment store. *)
Definition PrefixedNamespace (prefix base : string) : string :=
  if is_empty prefix then base else prefix +:+ ":" +:+ base.

(** ** DynamoDB *)

(** [Aws::DynamoDB::Model::AttributeValue]: the types the code tells apart. *)
Inductive AttributeValue :=
| AString (s : string)
| ANumber (n : string)
| AStringSet (l : list string)
| AOther.

Abbreviation Item := (gmap string AttributeValue).

(** The getters answer with something empty for a value of another type. *)
Definition GetS (v : AttributeValue) : string := match v with AString s => s | _ => EmptyString end.
Definition GetN (v : AttributeValue) : string := match v with ANumber n => n | _ => EmptyString end.

Definition kPartitionKey : string := "namespace".
Definition kSortKey : string := "key".
Definition kItemAttribute : string := "item".
Definition kInitedNamespace : string := "$inited".
Definition kBigSegmentsUserNamespace : string := "big_segments_user".
Definition kBigSegmentsMetadataNamespace : string := "big_segments_metadata".
Definition kBigSegmentsIncludedAttribute : string := "included".
Definition kBigSegmentsExcludedAttribute : string := "excluded".
Definition kBigSegmentsSyncTimeAttribute : string := "synchronizedOn".

Definition kMissingItem : string := "DynamoDB row missing expected 'item' attribute".
Definition kEmptyItem : string := "DynamoDB 'item' attribute is empty or not of type S".

(** Consistent reads of one table: an item by its keys, and a page of the items of a partition
    from a key on, with the key to go on from. *)
Class DynamoDB := {
  GetItem : string → string → expected Item string;
  Query : string → Item → expected (list Item * Item) string;
}.

Section DynamoDBSource.
Context `{DynamoDB} (prefix_ : string).

Definition dynamodb_Get (kind : DataKind.t) (itemKey : string) : expected (option SerializedItemDescriptor) string :=
  match GetItem (PrefixedNamespace prefix_ (Namespace kind)) itemKey with
  | Unexpected e => Unexpected e
  | Val item =>
      if bool_decide (item = ∅) then Val None
      else
        match item !! kItemAttribute with
        | None => Unexpected kMissingItem
        | Some v => if is_empty (GetS v) then Unexpected kEmptyItem else Val (Some (Present 0 (GetS v)))
        end
  end.

(** The rows of a page. *)
Fixpoint add_rows (rows : list Item) (items : list (string * SerializedItemDescriptor)) :
    expected (list (string * SerializedItemDescriptor)) string :=
  match rows with
  | [] => Val items
  | row :: rows =>
      match row !! kSortKey with
      | None => add_rows rows items
      | Some key =>
          match row !! kItemAttribute with
          | None => Unexpected kMissingItem
          | Some v =>
              if is_empty (GetS v) then Unexpected kEmptyItem
              else add_rows rows (emplace (GetS key) (Present 0 (GetS v)) items)
          end
      end
  end.

(** The loop over the pages; [None] when the fuel does not suffice. *)
Fixpoint query_pages (fuel : nat) (namespace : string) (start : Item) (items : list (string * SerializedItemDescriptor)) :
    option (expected (list (string * SerializedItemDescriptor)) string) :=
  match fuel with
  | O => None
  | S fuel =>
      match Query namespace start with
      | Unexpected e => Some (Unexpected e)
      | Val (rows, last_key) =>
          match add_rows rows items with
          | Unexpected e => Some (Unexpected e)
          | Val items => if bool_decide (last_key = ∅) then Some (Val items) else query_pages fuel namespace last_key items
          end
      end
  end.

Definition dynamodb_All (fuel : nat) (kind : DataKind.t) : option (expected (list (string * SerializedItemDescriptor)) string) :=
  query_pages fuel (PrefixedNamespace prefix_ (Namespace kind)) ∅ [].

Definition dynamodb_Initialized : bool :=
  let inited_namespace_ := PrefixedNamespace prefix_ kInitedNamespace in
  match GetItem inited_namespace_ inited_namespace_ with
  | Unexpected _ => false
  | Val item => negb (bool_decide (item = ∅))
  end.

(** ** Big Segments *)

Definition string_set (name : string) (item : Item) : expected (list string) string :=
  match item !! name with
  | None => Val []
  | Some (AStringSet l) => Val l
  | Some _ => Unexpected ("DynamoDB Big Segments '" +:+ name +:+ "' is not of type STRING_SET")
  end.

Definition dynamodb_GetMembership (context_hash : string) : StoreAnswer :=
  match GetItem (PrefixedNamespace prefix_ kBigSegmentsUserNamespace) context_hash with
  | Unexpected e => Unexpected e
  | Val item =>
      match string_set kBigSegmentsIncludedAttribute item with
      | Unexpected e => Unexpected e
      | Val included =>
          match string_set kBigSegmentsExcludedAttribute item with
          | Unexpected e => Unexpected e
          | Val excluded => Val (FromSegmentRefs included excluded)
          end
      end
  end.

(** The time is a count of milliseconds. *)
Definition dynamodb_GetMetadata : MetadataAnswer :=
  let metadata_namespace_ := PrefixedNamespace prefix_ kBigSegmentsMetadataNamespace in
  match GetItem metadata_namespace_ metadata_namespace_ with
  | Unexpected e => Unexpected e
  | Val item =>
      if bool_decide (item = ∅) then Val None
      else
        match item !! kBigSegmentsSyncTimeAttribute with
        | None => Val None
        | Some v =>
            if is_empty (GetN v) then Unexpected "DynamoDB Big Segments 'synchronizedOn' is empty or not type N"
            else
              match parsed_integer (GetN v) with
              | Some ms => Val (Some ms)
              | None => Unexpected "DynamoDB Big Segments 'synchronizedOn' is not a valid integer"
              end
        end
  end.
End DynamoDBSource.

(** ** Redis *)

(** Reads that may throw an error. *)
Class Redis := {
  hget : string → string → expected (option string) string;
  hgetall : string → expected (list (string * string)) string;
  exists_ : string → expected Z string;
  smembers : string → expected (list string) string;
  redis_get : string → expected (option string) string;
}.

Section RedisSource.
Context `{Redis} (prefix_ : string).

Definition key_for_kind (kind : DataKind.t) : string := prefix_ +:+ ":" +:+ Namespace kind.

Definition redis_Get (kind : DataKind.t) (itemKey : string) : expected (option SerializedItemDescriptor) string :=
  match hget (key_for_kind kind) itemKey with
  | Unexpected e => Unexpected e
  | Val (Some item) => Val (Some (Present 0 item))
  | Val None => Val None
  end.

(** The fields are first inserted into a map of strings. *)
Definition redis_All (kind : DataKind.t) : expected (list (string * SerializedItemDescriptor)) string :=
  match hgetall (key_for_kind kind) with
  | Unexpected e => Unexpected e
  | Val fields =>
      let raw_items := foldl (λ m kv, emplace kv.1 kv.2 m) [] fields in
      Val (foldl (λ m kv, emplace kv.1 (Present 0 kv.2) m) [] raw_items)
  end.

Definition redis_Initialized : bool :=
  match exists_ (prefix_ +:+ ":$inited") with Val n => n =? 1 | Unexpected _ => false end.

Definition redis_GetMembership (context_hash : string) : StoreAnswer :=
  match smembers (PrefixedNamespace prefix_ "big_segment_include" +:+ ":" +:+ context_hash) with
  | Unexpected e => Unexpected e
  | Val included =>
      match smembers (PrefixedNamespace prefix_ "big_segment_exclude" +:+ ":" +:+ context_hash) with
      | Unexpected e => Unexpected e
      | Val excluded => Val (FromSegmentRefs included excluded)
      end
  end.

Definition redis_GetMetadata : MetadataAnswer :=
  match redis_get (PrefixedNamespace prefix_ "big_segments_synchronized_on") with
  | Unexpected e => Unexpected e
  | Val None => Val None
  | Val (Some raw) =>
      match parsed_integer raw with
      | Some ms => Val (Some ms)
      | None => Unexpected "Redis Big Segments synchronized_on is not a valid integer"
      end
  end.

Definition redis_reader : SerializedReader := mkSerializedReader redis_Get redis_All redis_Initialized.
End RedisSource.

(** ** What is documented of the databases *)

(** A partition is a list of items in the order of their sort keys.  A query returns some of
    them from the start key on, and the key of the last one, unless there are no more. *)
Class DynamoDBLaws (D : DynamoDB) (partition : string → list (string * Item)) : Prop := {
  partition_ordered ns : Ordered (partition ns);
  partition_key ns k row : (k, row) ∈ partition ns → row !! kSortKey = Some (AString k);
  get_item ns k item : GetItem ns k = Val item → item = default ∅ (find k (partition ns));
  query_page ns start page last_key before rest :
    Query ns start = Val (page, last_key) → partition ns = before ++ rest →
    (start = ∅ ∧ before = [] ∨ ∃ pre k row, before = pre ++ [(k, row)] ∧ start !! kSortKey = Some (AString k)) →
    ∃ rows after, rest = rows ++ after ∧ page = rows.*2 ∧ (last_key = ∅ → after = []) ∧
      (last_key ≠ ∅ → ∃ pre k row, rows = pre ++ [(k, row)] ∧ last_key !! kSortKey = Some (AString k));
}.

(** A hash: its fields, one at a time or all together. *)
Class RedisLaws (R : Redis) (hash : string → list (string * string)) : Prop := {
  hash_fields key : NoDup (hash key).*1;
  hget_field key field v : hget key field = Val v → v = find field (hash key);
  hgetall_fields key l : hgetall key = Val l → l ≡ₚ hash key;
}.

(** ** Lemmas: DynamoDB *)

(** What either operation makes of an item. *)
Definition read_row (row : Item) : expected SerializedItemDescriptor string :=
  match row !! kItemAttribute with
  | None => Unexpected kMissingItem
  | Some v => if is_empty (GetS v) then Unexpected kEmptyItem else Val (Present 0 (GetS v))
  end.

(** Rows, and what was read from them. *)
Definition rows_read (rows : list (string * Item)) (items : list (string * SerializedItemDescriptor)) : Prop :=
  Forall2 (λ kr kd, kr.1 = kd.1 ∧ read_row kr.2 = Val kd.2) rows items.

Lemma rows_read_keys rows items : rows_read rows items → keys items = keys rows.
Proof. induction 1 as [|[k r] [j d] rows items [Hk _] _ IH]; [done|]. cbn [fst snd] in Hk. subst j. unfold keys in *. cbn. by f_equal. Qed.

Lemma rows_read_find rows items key :
  rows_read rows items →
  match find key rows with Some row => ∃ d, find key items = Some d ∧ read_row row = Val d | None => find key items = None end.
Proof.
  induction 1 as [|[k r] [j d] rows items [Hk Hr] _ IH]; [done|]. simpl in *. subst j. destruct (str_eqb key k); eauto.
Qed.

Lemma add_rows_page rows items :
  Ordered (items ++ ((λ kr, (kr.1, Present 0 EmptyString)) <$> rows)) → Forall (λ kr, kr.2 !! kSortKey = Some (AString kr.1)) rows →
  (∃ l, add_rows rows.*2 items = Val (items ++ l) ∧ rows_read rows l) ∨
  (∃ kr e, kr ∈ rows ∧ read_row kr.2 = Unexpected e ∧ add_rows rows.*2 items = Unexpected e).
Proof.
  revert items. induction rows as [|[k row] rows IH]; intros items Ho Hk.
  { left. exists []. rewrite app_nil_r. split; [done|constructor]. }
  apply Forall_cons in Hk as [Hrow Hk]. cbn [fmap list_fmap add_rows fst snd] in *. rewrite Hrow. unfold read_row.
  destruct (row !! kItemAttribute) as [v|] eqn:Ev; [|right; exists (k, row), kMissingItem; cbn; rewrite Ev; split_and!; [by left|done|done]].
  destruct (is_empty (GetS v)) eqn:Ee; [right; exists (k, row), kEmptyItem; cbn; rewrite Ev, Ee; split_and!; [by left|done|done]|].
  cbn [GetS]. assert (emplace k (Present 0 (GetS v)) items = items ++ [(k, Present 0 (GetS v))]) as ->.
  { apply ordered_app in Ho as (_ & _ & Hlt).
    assert (Forall (λ j, str_lt j k) (keys items)) as Hl by (apply Forall_forall; intros j Hj; apply Hlt; [done|by left]).
    unfold emplace. rewrite (proj2 (find_None_keys k items)); [by apply assign_last|].
    intros Hin. rewrite Forall_forall in Hl. by apply (str_lt_irrefl k), Hl. }
  destruct (IH (items ++ [(k, Present 0 (GetS v))])) as [(l & Hl & Hread)|(kr & e & Hin & He & Hr)]; [|done| |].
  - rewrite <- app_assoc. unfold Ordered, keys in *. rewrite !fmap_app in *. exact Ho.
  - left. exists ((k, Present 0 (GetS v)) :: l). rewrite Hl, <- app_assoc. split; [done|]. constructor; [|done]. cbn.
    unfold read_row. by rewrite Ev, Ee.
  - right. exists kr, e. split_and!; [by right|done|done].
Qed.

Section DynamoDBLemmas.
Context {D : DynamoDB} {partition : string → list (string * Item)} `{L : !DynamoDBLaws D partition} (prefix_ : string).

Lemma query_pages_spec ns n fuel start before rest items :
  (length rest <= n)%nat → (n < fuel)%nat → partition ns = before ++ rest → rows_read before items →
  (start = ∅ ∧ before = [] ∨ ∃ pre k row, before = pre ++ [(k, row)] ∧ start !! kSortKey = Some (AString k)) →
  ∃ r, query_pages fuel ns start items = Some r ∧
    match r with
    | Val items => rows_read (partition ns) items
    | Unexpected e => (∃ kr, kr ∈ partition ns ∧ read_row kr.2 = Unexpected e) ∨ ∃ start, Query ns start = Unexpected e
    end.
Proof.
  revert fuel start before rest items. induction n as [n IH] using lt_wf_ind.
  intros [|fuel] start before rest items Hn Hf Hp Hr Hs; [lia|]. cbn [query_pages].
  destruct (Query ns start) as [[page last_key]|e] eqn:Eq; [|eexists; split; [done|]; right; by exists start].
  destruct (query_page _ _ _ _ _ _ Eq Hp Hs) as (rows & after & -> & -> & Hend & Hmore).
  pose proof (partition_ordered ns) as Ho. rewrite Hp in Ho. rewrite app_assoc in Hp.
  assert (Ordered (before ++ rows)) as Hbr by (rewrite app_assoc in Ho; by apply ordered_app in Ho as (? & _)).
  destruct (add_rows_page rows items) as [(l & -> & Hl)|([k row] & e & Hin & He & ->)].
  - unfold Ordered, keys in *. rewrite !fmap_app in *. pose proof (rows_read_keys _ _ Hr) as Hk. unfold keys in Hk.
    rewrite Hk, <- list_fmap_compose. exact Hbr.
  - apply Forall_forall. intros [k row] Hin. apply (partition_key ns). rewrite Hp. set_solver.
  - assert (rows_read (before ++ rows) (items ++ l)) as Hread by (by apply Forall2_app).
    case_bool_decide as Hlast.
    + eexists. split; [done|]. by rewrite Hp, (Hend Hlast), app_nil_r.
    + destruct (Hmore Hlast) as (pre & k & row & -> & Hk). rewrite !length_app in Hn. simpl in Hn.
      apply (IH (length after) ltac:(lia) fuel last_key (before ++ pre ++ [(k, row)]) after); [lia|lia|done|done|].
      right. exists (before ++ pre), k, row. by rewrite app_assoc.
  - eexists. split; [done|]. left. exists (k, row). split; [|done]. rewrite Hp. set_solver.
Qed.

Lemma dynamodb_Get_row kind key item :
  GetItem (PrefixedNamespace prefix_ (Namespace kind)) key = Val item →
  dynamodb_Get prefix_ kind key =
    match find key (partition (PrefixedNamespace prefix_ (Namespace kind))) with
    | Some row => match read_row row with Val d => Val (Some d) | Unexpected e => Unexpected e end
    | None => Val None
    end.
Proof.
  intros Hg. unfold dynamodb_Get. rewrite Hg. apply get_item in Hg as ->.
  destruct (find key (partition _)) as [row|] eqn:Ef; simpl; [|done].
  pose proof (partition_key _ _ _ (find_Some_elem _ _ _ Ef)) as Hk.
  rewrite bool_decide_eq_false_2 by (intros ->; by rewrite lookup_empty in Hk).
  unfold read_row. destruct (row !! kItemAttribute) as [v|]; [|done]. by destruct (is_empty (GetS v)).
Qed.
End DynamoDBLemmas.

Lemma query_pages_more `{DynamoDB} ns fuel more start items r :
  query_pages fuel ns start items = Some r → query_pages (fuel + more) ns start items = Some r.
Proof.
  revert start items. induction fuel as [|fuel IH]; intros start items; [done|]. cbn [query_pages Nat.add].
  destruct (Query ns start) as [[page last_key]|e]; [|done]. destruct (add_rows page items); [|done].
  case_bool_decide; [done|]. apply IH.
Qed.

(** ** Lemmas: Redis *)

Lemma emplaces_find {A B} (f : A → B) (l : list (string * A)) acc key :
  NoDup l.*1 → (∀ k, k ∈ l.*1 → find k acc = None) →
  find key (foldl (λ m kv, emplace kv.1 (f kv.2) m) acc l) = match find key l with Some x => Some (f x) | None => find key acc end.
Proof.
  revert acc. induction l as [|[k x] l IH]; intros acc Hnd Hacc; [done|]. apply NoDup_cons in Hnd as [Hk Hnd].
  cbn [foldl find fst snd]. assert (find k acc = None) as Hn by (apply Hacc; by left). rewrite IH; [|done|].
  - destruct (str_eqb key k) eqn:E.
    + apply str_eqb_eq in E as ->. rewrite (proj2 (find_None_keys k l)) by done. by rewrite find_emplace_new.
    + destruct (find key l); [done|]. apply find_emplace_ne. intros ->. by rewrite str_eqb_refl in E.
  - intros j Hj. rewrite find_emplace_ne; [apply Hacc; by right|]. intros ->. done.
Qed.

Lemma emplaces_nodup {A B} (f : A → B) (l : list (string * A)) acc :
  Ordered acc → Ordered (foldl (λ m kv, emplace kv.1 (f kv.2) m) acc l).
Proof. revert acc. induction l as [|[k x] l IH]; intros acc Ha; [done|]. apply IH. by apply emplace_ordered. Qed.

Lemma find_permutation {A} (l l' : list (string * A)) key : NoDup l.*1 → l ≡ₚ l' → find key l = find key l'.
Proof.
  intros Hnd Hp. destruct (find key l') as [x|] eqn:E.
  - apply find_Some_elem in E. rewrite <- Hp in E. clear Hp. induction l as [|[k y] l IH]; [by apply not_elem_of_nil in E|].
    apply NoDup_cons in Hnd as [Hk Hnd]. simpl. apply elem_of_cons in E as [[= <- <-]|E]; [by rewrite str_eqb_refl|].
    rewrite IH by done. rewrite (proj2 (str_eqb_neq key k)); [done|]. intros ->. apply Hk, list_elem_of_fmap. by exists (k, x).
  - apply find_None_keys. apply find_None_keys in E. unfold keys in *. by rewrite Hp.
Qed.

(** ** Lemmas: numbers *)

Lemma take_all_digits l : forallb is_digit l = true → take_digits l = (l, []).
Proof. induction l as [|c l IH]; [done|]. cbn. intros [-> H]%andb_true_iff. by rewrite IH. Qed.

Lemma digits_start c l : is_digit c = true → skip_spaces (c :: l) = c :: l ∧ c ≠ "-"%char ∧ c ≠ "+"%char.
Proof.
  unfold is_digit. intros Hd. split_and!; [|by intros ->..]. cbn. assert (is_space c = false) as ->; [|done].
  destruct c as [[] [] [] [] [] [] [] []]; done.
Qed.

(** A decimal number is read as the number it was written from. *)
Lemma parsed_printed z : 0 <= z < 2 ^ 63 → parsed_integer (to_string z) = Some z.
Proof.
  intros Hz. pose proof (to_string_numeric z ltac:(lia)) as Hn. pose proof (to_string_value z ltac:(lia)) as Hv.
  assert (forallb is_digit (chars (to_string z)) = true) as Hd by (by apply numeric_digits).
  unfold parsed_integer. destruct (chars (to_string z)) as [|c l] eqn:E; [done|].
  assert (is_digit c = true) as Hc by (simpl in Hd; by apply andb_true_iff in Hd as [? _]).
  assert (c_str (c :: l) = c :: l) as ->.
  { apply c_str_nul_free. unfold nul_free. intros Hin. apply list_elem_of_In in Hin. rewrite forallb_forall in Hd.
    apply Hd in Hin. done. }
  destruct (digits_start c l Hc) as (-> & Hm & Hp).
  assert (∀ A (f g h : list ascii → A), match c :: l with "-"%char :: l' => f l' | "+"%char :: l' => g l' | _ => h (c :: l) end = h (c :: l)) as Hs.
  { intros A f g h. destruct c as [[] [] [] [] [] [] [] []]; try done; exfalso; by (apply Hm || apply Hp). }
  rewrite (Hs _ (λ l', (true, l')) (λ l', (false, l')) (λ l', (false, l'))). rewrite take_all_digits by done.
  cbv beta iota. rewrite Hv. rewrite (proj2 (Z.leb_le _ _)), (proj2 (Z.leb_le _ _)) by lia. done.
Qed.

(** ** Properties *)

(** C21: the DynamoDB source reads a partition as a whole.  However the service cuts the answer
    into pages, the loop ends, and either every item of the partition is returned, under its
    key and as a lookup of the key returns it, and nothing else; or the error is that of one
    of the queries or of the lookup of an item that cannot be read. *)
Theorem dynamodb_all_items {D : DynamoDB} {partition : string → list (string * Item)} `{L : !DynamoDBLaws D partition}
    (prefix : string) (kind : DataKind.t) :
  let ns := PrefixedNamespace prefix (Namespace kind) in
  ∃ r, (∀ fuel, (length (partition ns) < fuel)%nat → dynamodb_All prefix fuel kind = Some r) ∧
    match r with
    | Val items => Ordered items ∧ ∀ key item, GetItem ns key = Val item → dynamodb_Get prefix kind key = Val (find key items)
    | Unexpected e =>
        (∃ start, Query ns start = Unexpected e) ∨
        ∃ key, is_Some (find key (partition ns)) ∧ ∀ item, GetItem ns key = Val item → dynamodb_Get prefix kind key = Unexpected e
    end.
Proof.
  intros ns. unfold dynamodb_All. fold ns.
  destruct (query_pages_spec (L := L) ns (length (partition ns)) (S (length (partition ns))) ∅ [] (partition ns) []) as (r & Hr & Hspec);
    [lia|lia|done|constructor|by left|].
  exists r. split.
  { intros fuel Hf. replace fuel with (S (length (partition ns)) + (fuel - S (length (partition ns))))%nat by lia.
    by apply query_pages_more. }
  destruct r as [items|e].
  - split; [pose proof (partition_ordered ns) as Ho; unfold Ordered in *; by rewrite (rows_read_keys _ _ Hspec)|].
    intros key item Hg. rewrite (dynamodb_Get_row prefix kind key item Hg). fold ns.
    pose proof (rows_read_find _ _ key Hspec) as Hfind. destruct (find key (partition ns)); [|by rewrite Hfind].
    destruct Hfind as (d & -> & ->). done.
  - destruct Hspec as [([key row] & Hin & He)|?]; [right|by left]. exists key.
    pose proof (find_ordered_elem _ _ (partition_ordered ns) Hin) as Hf. cbn in Hf. split; [by eexists|].
    intros item Hg. rewrite (dynamodb_Get_row prefix kind key item Hg). fold ns. rewrite Hf. cbn in He. by rewrite He.
Qed.

(** The Redis source likewise: all the fields of a hash are the lookups of its fields. *)
Theorem redis_all_items {R : Redis} {hash : string → list (string * string)} `{L : !RedisLaws R hash}
    (prefix : string) (kind : DataKind.t) l :
  hgetall (key_for_kind prefix kind) = Val l →
  ∃ items, redis_All prefix kind = Val items ∧ Ordered items ∧
    ∀ key v, hget (key_for_kind prefix kind) key = Val v → redis_Get prefix kind key = Val (find key items).
Proof.
  intros Hl. unfold redis_All. rewrite Hl. eexists. split; [done|]. split; [apply emplaces_nodup, ordered_nil|].
  intros key v Hv. unfold redis_Get. rewrite Hv. apply hget_field in Hv as ->. apply hgetall_fields in Hl.
  assert (NoDup l.*1) as Hnd by (rewrite Hl; apply hash_fields).
  set (raw := foldl (λ m kv, emplace kv.1 kv.2 m) [] l).
  assert (Ordered raw) as Hor by (apply (emplaces_nodup (λ x : string, x)), ordered_nil).
  rewrite (emplaces_find (Present 0)); [|by apply ordered_nodup|done]. unfold raw.
  rewrite (emplaces_find (λ x : string, x)) by done. rewrite (find_permutation l (hash (key_for_kind prefix kind))) by done.
  by destruct (find key (hash _)).
Qed.

(** Both Big Segment stores read the metadata that were written as a number. *)
Lemma metadata_time {D : DynamoDB} {R : Redis} (prefix : string) (ms : Z) (item : Item) :
  0 <= ms < 2 ^ 63 →
  GetItem (PrefixedNamespace prefix kBigSegmentsMetadataNamespace) (PrefixedNamespace prefix kBigSegmentsMetadataNamespace) = Val item →
  item !! kBigSegmentsSyncTimeAttribute = Some (ANumber (to_string ms)) →
  redis_get (PrefixedNamespace prefix "big_segments_synchronized_on") = Val (Some (to_string ms)) →
  dynamodb_GetMetadata prefix = Val (Some ms) ∧ redis_GetMetadata prefix = Val (Some ms).
Proof.
  intros Hms Hg Hi Hr. unfold dynamodb_GetMetadata, redis_GetMetadata. rewrite Hg, Hr, parsed_printed by done. split; [|done].
  rewrite bool_decide_eq_false_2 by (intros ->; by rewrite lookup_empty in Hi). rewrite Hi. cbn [GetN].
  assert (is_empty (to_string ms) = false) as ->; [|by rewrite parsed_printed].
  pose proof (to_string_numeric ms ltac:(lia)) as Hn. by destruct (to_string ms).
Qed.

(** ** A table *)

Definition rows_after (k : string) (rows : list (string * Item)) : list (string * Item) := filter (λ kr, str_ltb k kr.1 = true) rows.

(** One item a page, the key of the last item with it. *)
Definition paged_table (partition : string → list (string * Item)) : DynamoDB := {|
  GetItem ns k := Val (default ∅ (find k (partition ns)));
  Query ns start :=
    let rest := match start !! kSortKey with Some (AString k) => rows_after k (partition ns) | _ => partition ns end in
    match rest with
    | [] => Val ([], ∅)
    | (k, row) :: _ => Val ([row], {[kSortKey := AString k]})
    end;
|}.

Lemma filter_all_out {A} (P : A → Prop) `{!∀ x, Decision (P x)} (l : list A) : (∀ x, x ∈ l → ¬ P x) → filter P l = [].
Proof. induction l as [|x l IH]; intros Hl; [done|]. rewrite filter_cons_False; [apply IH|]; intros; apply Hl; set_solver. Qed.

Lemma filter_every {A} (P : A → Prop) `{!∀ x, Decision (P x)} (l : list A) : (∀ x, x ∈ l → P x) → filter P l = l.
Proof. induction l as [|x l IH]; intros Hl; [done|]. rewrite filter_cons_True; [f_equal; apply IH|]; intros; apply Hl; set_solver. Qed.

Lemma rows_after_app before rest pre k row :
  Ordered (before ++ rest) → before = pre ++ [(k, row)] → rows_after k (before ++ rest) = rest.
Proof.
  intros Ho ->. apply ordered_app in Ho as (Hb & _ & Hlt). apply ordered_app in Hb as (_ & _ & Hpre).
  unfold rows_after. rewrite filter_app, filter_app.
  assert (filter (λ kr, str_ltb k kr.1 = true) pre = []) as ->.
  { apply filter_all_out. intros [j r] Hin Hj. cbn in Hj.
    apply (str_lt_asym j k); [|exact Hj]. apply Hpre; [apply list_elem_of_fmap; by exists (j, r)|by left]. }
  rewrite filter_cons, decide_False by (cbn; apply str_lt_irrefl). cbn [app].
  apply filter_every. intros [j r] Hin. apply Hlt; [|apply list_elem_of_fmap; by exists (j, r)].
  unfold keys. rewrite fmap_app. apply elem_of_app. right. by left.
Qed.

Lemma paged_table_laws (partition : string → list (string * Item)) :
  (∀ ns, Ordered (partition ns)) → (∀ ns k row, (k, row) ∈ partition ns → row !! kSortKey = Some (AString k)) →
  DynamoDBLaws (paged_table partition) partition.
Proof.
  intros Ho Hk. split; [done|done|by intros ns k item [= <-]|].
  intros ns start page last_key before rest Hq Hp Hs. cbn in Hq.
  assert (match start !! kSortKey with Some (AString k) => rows_after k (partition ns) | _ => partition ns end = rest) as Hrest.
  { destruct Hs as [[-> ->]|(pre & k & row & Hb & Hstart)]; [by rewrite lookup_empty|].
    rewrite Hstart, Hp. apply (rows_after_app before rest pre k row); [by rewrite <- Hp|done]. }
  rewrite Hrest in Hq. destruct rest as [|[k row] rest]; injection Hq as <- <-.
  - exists [], []. by split_and!.
  - exists [(k, row)], rest. split_and!; [done|done| |].
    + intros He. pose proof (f_equal (λ m : Item, m !! kSortKey) He) as Hx. cbv beta in Hx.
      unfold kSortKey in Hx. by rewrite lookup_insert_eq, lookup_empty in Hx.
    + intros _. exists [], k, row. split; [done|]. apply lookup_insert_eq.
Qed.

Definition sample_row (key text : string) : string * Item :=
  (key, {[kSortKey := AString key; kItemAttribute := AString text]}).

Definition sample_partition (ns : string) : list (string * Item) :=
  if str_eqb ns "p:features" then [sample_row "a" "1"; sample_row "b" "2"; sample_row "c" "3"] else [].

#[local] Instance sample_table : DynamoDB := paged_table sample_partition.

Lemma sample_table_laws : DynamoDBLaws sample_table sample_partition.
Proof.
  apply paged_table_laws; intros ns; unfold sample_partition; destruct (str_eqb ns "p:features").
  - by repeat constructor.
  - constructor.
  - intros k row. rewrite !elem_of_cons, elem_of_nil. intros [[= -> ->]|[[= -> ->]|[[= -> ->]|[]]]]; done.
  - intros k row Hin. by apply not_elem_of_nil in Hin.
Qed.

Lemma dynamodb_all_items_witness :
  dynamodb_All "p" 4 DataKind.kFlag = Some (Val [("a", Present 0 "1"); ("b", Present 0 "2"); ("c", Present 0 "3")]) ∧
  ∃ r, (∀ fuel, (length (sample_partition "p:features") < fuel)%nat → dynamodb_All "p" fuel DataKind.kFlag = Some r) ∧
    match r with
    | Val items => Ordered items ∧ ∀ key item, GetItem "p:features" key = Val item → dynamodb_Get "p" DataKind.kFlag key = Val (find key items)
    | Unexpected e =>
        (∃ start, Query "p:features" start = Unexpected e) ∨
        ∃ key, is_Some (find key (sample_partition "p:features")) ∧
          ∀ item, GetItem "p:features" key = Val item → dynamodb_Get "p" DataKind.kFlag key = Unexpected e
    end.
Proof.
  split; [by vm_compute|]. apply (dynamodb_all_items (L := sample_table_laws) "p" DataKind.kFlag).
Defined.

(** ** What the model shows *)

(** Without a prefix the keys of the Redis source still have the colon that separates it, while
    those of the Big Segment store do not. *)
Lemma redis_empty_prefix :
  key_for_kind EmptyString DataKind.kFlag = ":features" ∧
  PrefixedNamespace EmptyString "big_segments_synchronized_on" = "big_segments_synchronized_on".
Proof. done. Qed.
