(* ===== verification/Logging.v ===== *)
(** * Logging

    libs/common/src/log_level.cpp and config/logging_builder.cpp, libs/internal/src/logging
    (logger.cpp, console_backend.cpp, null_logger.cpp) with the macro of logger.hpp, and the logger
    that both clients make of a configuration ([MakeLogger] of their client_impl.cpp).

    A level is the number of the enumeration, since the C interface casts any number to it.  A back
    end that the application supplies is of any type, with a function for [Enabled]; what is written
    is recorded. *)

From S2P Require Import Prelude Fdv2Sources.

(** ** Levels *)

Abbreviation LogLevel := Z.
Definition kDebug : LogLevel := 0.
Definition kInfo : LogLevel := 1.
Definition kWarn : LogLevel := 2.
Definition kError : LogLevel := 3.

Definition GetLogLevelName (level : LogLevel) (default_ : string) : string :=
  if level =? kDebug then "debug" else if level =? kInfo then "info" else if level =? kWarn then "warn"
  else if level =? kError then "error" else default_.

Definition GetLogLevelEnum (level : option string) (default_ : LogLevel) : LogLevel :=
  match level with
  | None => default_
  | Some level =>
      let lowercase := of_chars (ascii_lower <$> chars level) in
      if str_eqb lowercase "debug" then kDebug else if str_eqb lowercase "info" then kInfo
      else if str_eqb lowercase "warn" then kWarn else if str_eqb lowercase "error" then kError else default_
  end.

(** The name of a level is read back as the level, and whatever the case of its letters. *)
Lemma level_name_read level unknown dflt : 0 ≤ level ≤ 3 → GetLogLevelEnum (Some (GetLogLevelName level unknown)) dflt = level.
Proof. intros H. assert (level = 0 ∨ level = 1 ∨ level = 2 ∨ level = 3) as [->|[->|[->| ->]]] by lia; reflexivity. Qed.

Lemma level_case_insensitive a b dflt : iequals a b = true → GetLogLevelEnum (Some a) dflt = GetLogLevelEnum (Some b) dflt.
Proof. unfold iequals, GetLogLevelEnum. intros H%bool_decide_eq_true. by rewrite H. Qed.

(** ** Configuration *)

Section Loggers.
Context {Backend : Type} (custom_Enabled : Backend → LogLevel → bool).

(** [BasicLogging], [CustomLogging] and [NoLogging]; a null back end is [None]. *)
Inductive LoggingBuilder :=
| BasicLogging (level_ : LogLevel) (tag_ : string)
| CustomLogging (backend_ : option Backend)
| NoLogging.

Definition LogTag : string := "LaunchDarkly".

(** [env] is what the environment says of LD_LOG_LEVEL. *)
Definition new_basic (env : option string) : LoggingBuilder := BasicLogging (GetLogLevelEnum env kInfo) LogTag.

Definition Basic_Level (level : LogLevel) (b : LoggingBuilder) : LoggingBuilder :=
  match b with BasicLogging _ tag => BasicLogging level tag | _ => b end.
Definition Basic_Tag (tag : string) (b : LoggingBuilder) : LoggingBuilder :=
  match b with BasicLogging level _ => BasicLogging level tag | _ => b end.

Record LoggingConfig := mkLogging {
  disable_logging : bool;
  lg_backend : option Backend;
  lg_tag : string;
  lg_level : LogLevel;
}.

Definition LoggingBuilder_Build (b : LoggingBuilder) : LoggingConfig :=
  match b with
  | BasicLogging level tag => mkLogging false None tag level
  | CustomLogging (Some backend) => mkLogging false (Some backend) LogTag kInfo
  | CustomLogging None => mkLogging false None LogTag kInfo
  | NoLogging => mkLogging true None LogTag kInfo
  end.

(** ** Back ends and loggers *)

Inductive LogBackend :=
| NullBackend
| ConsoleBackend (level_ : LogLevel) (name_ : string)
| OtherBackend (b : Backend).

Definition new_console (level : LogLevel) (name : string) : LogBackend := ConsoleBackend level ("[" +:+ name +:+ "] ").

Definition MakeLogger (config : LoggingConfig) : LogBackend :=
  if disable_logging config then NullBackend
  else match lg_backend config with
       | Some b => OtherBackend b
       | None => new_console (lg_level config) (lg_tag config)
       end.

Definition backend_Enabled (b : LogBackend) (level : LogLevel) : bool :=
  match b with
  | NullBackend => false
  | ConsoleBackend level_ _ => level_ <=? level
  | OtherBackend b => custom_Enabled b level
  end.

(** A line on the standard output or on the standard error, or a call of the back end supplied. *)
Inductive Written := ToOut (line : string) | ToErr (line : string) | ToBackend (b : Backend) (level : LogLevel) (message : string).

Definition backend_Write (b : LogBackend) (level : LogLevel) (message : string) : list Written :=
  match b with
  | NullBackend => []
  | ConsoleBackend _ name_ =>
      if backend_Enabled b level then [if level =? kError then ToErr (name_ +:+ message) else ToOut (name_ +:+ message)]
      else []
  | OtherBackend b => [ToBackend b level message]
  end.

Record LogRecord := mkRecord { rec_level : LogLevel; rec_open : bool; rec_str : string }.

Definition OpenRecord (b : LogBackend) (level : LogLevel) : LogRecord := mkRecord level (backend_Enabled b level) EmptyString.

(** [LogRecordStream::operator<<]. *)
Definition stream_put (r : LogRecord) (any : string) : LogRecord :=
  if rec_open r then mkRecord (rec_level r) (rec_open r) (rec_str r +:+ any) else r.

Definition PushRecord (b : LogBackend) (r : LogRecord) : list Written :=
  if rec_open r then backend_Write b (rec_level r) (rec_str r) else [].

(** [LD_LOG(logger, level) << piece << piece ...;], to the end of the statement. *)
Definition LD_LOG (b : LogBackend) (level : LogLevel) (pieces : list string) : list Written :=
  let r := foldl stream_put (OpenRecord b level) pieces in
  if rec_open r then PushRecord b r else [].

(** ** What is logged *)

Lemma append_nil_r (s : string) : s +:+ EmptyString = s.
Proof. apply chars_inj. by rewrite chars_app, app_nil_r. Qed.

Lemma append_assoc (a b c : string) : (a +:+ b) +:+ c = a +:+ b +:+ c.
Proof. apply chars_inj. by rewrite !chars_app, app_assoc. Qed.

Lemma stream_put_all r pieces :
  foldl stream_put r pieces = if rec_open r then mkRecord (rec_level r) true (rec_str r +:+ foldr String.append EmptyString pieces) else r.
Proof.
  revert r. induction pieces as [|p pieces IH]; intros r; cbn.
  - destruct (rec_open r) eqn:E; [|done]. destruct r as [l o s]. cbn in *. subst o. by rewrite append_nil_r.
  - rewrite IH. unfold stream_put. destruct (rec_open r) eqn:E; cbn; rewrite ?E; [|done]. by rewrite append_assoc.
Qed.

(** A statement writes at most once, with its pieces in order: what the configuration asks for. *)
Theorem logged_as_configured (config : LoggingBuilder) level pieces :
  let message := foldr String.append EmptyString pieces in
  LD_LOG (MakeLogger (LoggingBuilder_Build config)) level pieces =
  match config with
  | NoLogging => []
  | CustomLogging (Some b) => if custom_Enabled b level then [ToBackend b level message] else []
  | BasicLogging min tag =>
      if min <=? level then [(if level =? kError then ToErr else ToOut) ("[" +:+ tag +:+ "] " +:+ message)] else []
  | CustomLogging None =>
      if kInfo <=? level then [(if level =? kError then ToErr else ToOut) ("[LaunchDarkly] " +:+ message)] else []
  end.
Proof.
  unfold LD_LOG, PushRecord. rewrite stream_put_all. unfold OpenRecord.
  destruct config as [min tag|[b|]|]; cbn -[Z.leb Z.eqb kInfo kError].
  - destruct (min <=? level) eqn:E; cbn -[Z.leb Z.eqb kError]; [|done]. rewrite E, !append_assoc. by destruct (level =? kError).
  - by destruct (custom_Enabled b level).
  - destruct (kInfo <=? level) eqn:E; cbn -[Z.leb Z.eqb kInfo kError]; [|done]. rewrite E. by destruct (level =? kError).
  - done.
Qed.
End Loggers.
