(* ===== verification/Configurations.v ===== *)
(** * Configuration

    libs/common/src/config: endpoints_builder.cpp, events_builder.cpp, events.cpp,
    app_info_builder.cpp, http_properties_builder.cpp and defaults.hpp;
    libs/server-sdk/src/config: config_builder.cpp, builders/big_segments_builder.cpp and
    builders/data_system (data_system_builder.cpp, background_sync_builder.cpp,
    lazy_load_builder.cpp, fdv2_builder.cpp); the server's part of common's
    data_source_builder.cpp and server_data_source_builder.hpp.
    [ConfigBuilder_Build] is compared with the list of everything that is wrong with what was
    set, and the application tags with the set of the valid ones.

    Durations are milliseconds.  A shared pointer that may be null is an [option] of what it
    points to, of any type. *)

From stdpp Require Import sorting.
From S2P Require Import Prelude OrderedMap AttributeReferences Contexts EventBuffers Fdv2Sources HttpRequester Logging.
#[local] Open Scope Z_scope.

Module Error.
Inductive t :=
| kConfig_Endpoints_EmptyURL | kConfig_Endpoints_AllURLsMustBeSet
| kConfig_ApplicationInfo_EmptyKeyOrValue | kConfig_ApplicationInfo_ValueTooLong
| kConfig_ApplicationInfo_InvalidKeyCharacters | kConfig_ApplicationInfo_InvalidValueCharacters
| kConfig_Events_ZeroCapacity | kConfig_SDKKey_Empty
| kConfig_DataSystem_LazyLoad_MissingSource | kConfig_BigSegments_NullStore.
End Error.

Abbreviation built A := (expected A Error.t).

(** ** Endpoints *)

Record ServiceEndpoints := mkEndpoints { polling_base_url : string; streaming_base_url : string; events_base_url : string }.

Record EndpointsBuilder := mkEndpointsBuilder {
  eb_polling : option string;
  eb_streaming : option string;
  eb_events : option string;
}.

Definition PollingBaseUrl (u : string) (b : EndpointsBuilder) : EndpointsBuilder :=
  mkEndpointsBuilder (Some u) (eb_streaming b) (eb_events b).
Definition StreamingBaseUrl (u : string) (b : EndpointsBuilder) : EndpointsBuilder :=
  mkEndpointsBuilder (eb_polling b) (Some u) (eb_events b).
Definition EventsBaseUrl (u : string) (b : EndpointsBuilder) : EndpointsBuilder :=
  mkEndpointsBuilder (eb_polling b) (eb_streaming b) (Some u).
Definition RelayProxyBaseURL (u : string) (b : EndpointsBuilder) : EndpointsBuilder :=
  EventsBaseUrl u (StreamingBaseUrl u (PollingBaseUrl u b)).

(** The loop over [end], from the size down. *)
Fixpoint trimmed_end (input : list ascii) (m : ascii) (end_ : nat) : nat :=
  match end_ with
  | O => O
  | S e => if default m (input !! e) =? m then trimmed_end input m e else end_
  end%char.

Definition trim_right_matches (input : string) (m : ascii) : string :=
  of_chars (take (trimmed_end (chars input) m (length (chars input))) (chars input)).

Definition empty_string (o : option string) : bool := match o with Some s => is_empty s | None => false end.

Definition EndpointsBuilder_Build (defaults : ServiceEndpoints) (b : EndpointsBuilder) : built ServiceEndpoints :=
  if empty_string (eb_polling b) || empty_string (eb_streaming b) || empty_string (eb_events b)
  then Unexpected Error.kConfig_Endpoints_EmptyURL
  else
    match eb_polling b, eb_streaming b, eb_events b with
    | None, None, None => Val defaults
    | Some p, Some s, Some e =>
        Val (mkEndpoints (trim_right_matches p "/") (trim_right_matches s "/") (trim_right_matches e "/"))
    | _, _, _ => Unexpected Error.kConfig_Endpoints_AllURLsMustBeSet
    end.

(** ** Events *)

Record Events := mkEvents {
  enabled_ : bool;
  capacity_ : nat;
  flush_interval_ : Z;
  path_ : string;
  all_attributes_private_ : bool;
  ev_private_attributes_ : list AttributeReference;
  delivery_retry_delay_ : Z;
  flush_workers_ : nat;
  context_keys_cache_capacity_ : option nat;
}.

Definition EB_Enabled (enabled : bool) (c : Events) : Events :=
  mkEvents enabled (capacity_ c) (flush_interval_ c) (path_ c) (all_attributes_private_ c) (ev_private_attributes_ c)
    (delivery_retry_delay_ c) (flush_workers_ c) (context_keys_cache_capacity_ c).
Definition EB_Disable (c : Events) : Events := EB_Enabled false c.
Definition EB_Capacity (capacity : nat) (c : Events) : Events :=
  mkEvents (enabled_ c) capacity (flush_interval_ c) (path_ c) (all_attributes_private_ c) (ev_private_attributes_ c)
    (delivery_retry_delay_ c) (flush_workers_ c) (context_keys_cache_capacity_ c).
Definition EB_ContextKeysCapacity (capacity : nat) (c : Events) : Events :=
  mkEvents (enabled_ c) (capacity_ c) (flush_interval_ c) (path_ c) (all_attributes_private_ c) (ev_private_attributes_ c)
    (delivery_retry_delay_ c) (flush_workers_ c) (Some capacity).
Definition EB_FlushInterval (interval : Z) (c : Events) : Events :=
  mkEvents (enabled_ c) (capacity_ c) interval (path_ c) (all_attributes_private_ c) (ev_private_attributes_ c)
    (delivery_retry_delay_ c) (flush_workers_ c) (context_keys_cache_capacity_ c).
Definition EB_AllAttributesPrivate (value : bool) (c : Events) : Events :=
  mkEvents (enabled_ c) (capacity_ c) (flush_interval_ c) (path_ c) value (ev_private_attributes_ c)
    (delivery_retry_delay_ c) (flush_workers_ c) (context_keys_cache_capacity_ c).
Definition EB_PrivateAttributes (attributes : list AttributeReference) (c : Events) : Events :=
  mkEvents (enabled_ c) (capacity_ c) (flush_interval_ c) (path_ c) (all_attributes_private_ c) attributes
    (delivery_retry_delay_ c) (flush_workers_ c) (context_keys_cache_capacity_ c).
Definition EB_PrivateAttribute (attribute : AttributeReference) (c : Events) : Events :=
  EB_PrivateAttributes (ref_set_insert attribute (ev_private_attributes_ c)) c.

Definition EventsBuilder_Build (c : Events) : built Events :=
  if (capacity_ c =? 0)%nat then Unexpected Error.kConfig_Events_ZeroCapacity else Val c.

(** [operator==(Events, Events)]; a set of references is compared by [operator==] of its elements,
    which compares their components. *)
Definition Events_eqb (lhs rhs : Events) : bool :=
  str_eqb (path_ lhs) (path_ rhs) && (flush_interval_ lhs =? flush_interval_ rhs) && (capacity_ lhs =? capacity_ rhs)%nat &&
  bool_decide (all_attributes_private_ lhs = all_attributes_private_ rhs) &&
  bool_decide (components_ <$> ev_private_attributes_ lhs = components_ <$> ev_private_attributes_ rhs) &&
  (delivery_retry_delay_ lhs =? delivery_retry_delay_ rhs) && (flush_workers_ lhs =? flush_workers_ rhs)%nat &&
  bool_decide (context_keys_cache_capacity_ lhs = context_keys_cache_capacity_ rhs).

(** ** Application tags *)

Definition kMaxTagValueLength : nat := 64.

(** A [char] is signed: an octet above 127 is negative. *)
Definition ValidChar (c : ascii) : bool :=
  let n := N_of_ascii c in
  ((0 <? n) && (n <? 128))%N && (between "0" c "9" || between "A" c "Z" || between "a" c "z" ||
   (c =? "-")%char || (c =? ".")%char || (c =? "_")%char).

Definition IsValidTag (key value : string) : option Error.t :=
  if is_empty value || is_empty key then Some Error.kConfig_ApplicationInfo_EmptyKeyOrValue
  else if (kMaxTagValueLength <? length (chars value))%nat then Some Error.kConfig_ApplicationInfo_ValueTooLong
  else if negb (forallb ValidChar (chars key)) then Some Error.kConfig_ApplicationInfo_InvalidKeyCharacters
  else if negb (forallb ValidChar (chars value)) then Some Error.kConfig_ApplicationInfo_InvalidValueCharacters
  else None.

Definition Tag_Build (tag : string * string) : built string :=
  match IsValidTag tag.1 tag.2 with
  | Some err => Unexpected err
  | None => Val (tag.1 +:+ "/" +:+ tag.2)
  end.

Definition AddTag (key value : string) (tags : list (string * string)) : list (string * string) := tags ++ [(key, value)].
Definition Identifier (app_id : string) := AddTag "application-id" app_id.
Definition App_Version (version : string) := AddTag "application-version" version.

(** [std::unique]: of equal neighbours, the first. *)
Fixpoint unique (l : list string) : list string :=
  match l with
  | x :: (y :: _) as l' => if str_eqb x y then unique l' else x :: unique l'
  | _ => l
  end.

Definition join (sep : ascii) (l : list string) : string := of_chars (join_with sep (chars <$> l)).

Definition AppInfo_Build (tags : list (string * string)) : option string :=
  match tags with
  | [] => None
  | _ =>
      let validated := omap (λ tag, match Tag_Build tag with Val t => Some t | Unexpected _ => None end) tags in
      match validated with
      | [] => None
      | _ => Some (join " " (unique (merge_sort String.le validated)))
      end
  end.

(** ** HTTP properties *)

Record HttpPropertiesBuilder := mkPropertiesBuilder {
  pb_properties : HttpProperties;
  wrapper_name_ : string;
  wrapper_version_ : string;
}.

Definition SkipVerifyPeer (skip : bool) (t : TlsOptions) : TlsOptions := mkTls skip (tls_ca_file t).
Definition CustomCAFile (file : string) (t : TlsOptions) : TlsOptions :=
  mkTls (tls_verify_none t) (if is_empty file then None else Some file).

(** The constructor from properties that were built. *)
Definition builder_of_properties (p : HttpProperties) : HttpPropertiesBuilder := mkPropertiesBuilder p EmptyString EmptyString.

Definition with_base_headers (headers : list (string * string)) (p : HttpProperties) : HttpProperties :=
  mkProperties (connect_timeout p) (read_timeout p) (write_timeout p) (response_timeout p) headers (tls_options p) (proxy_url p).

(** The base headers are a [std::map] that compares names with their case. *)
Definition PB_Header (key : string) (value : option string) (b : HttpPropertiesBuilder) : HttpPropertiesBuilder :=
  let p := pb_properties b in
  mkPropertiesBuilder
    (with_base_headers (match value with
                        | Some v => assign key v (base_headers p)
                        | None => filter (λ kv, kv.1 ≠ key) (base_headers p)
                        end) p)
    (wrapper_name_ b) (wrapper_version_ b).

Definition PB_with (f : HttpProperties → HttpProperties) (b : HttpPropertiesBuilder) : HttpPropertiesBuilder :=
  mkPropertiesBuilder (f (pb_properties b)) (wrapper_name_ b) (wrapper_version_ b).
Definition PB_ConnectTimeout (t : Z) := PB_with (λ p,
  mkProperties t (read_timeout p) (write_timeout p) (response_timeout p) (base_headers p) (tls_options p) (proxy_url p)).
Definition PB_ReadTimeout (t : Z) := PB_with (λ p,
  mkProperties (connect_timeout p) t (write_timeout p) (response_timeout p) (base_headers p) (tls_options p) (proxy_url p)).
Definition PB_WriteTimeout (t : Z) := PB_with (λ p,
  mkProperties (connect_timeout p) (read_timeout p) t (response_timeout p) (base_headers p) (tls_options p) (proxy_url p)).
Definition PB_ResponseTimeout (t : Z) := PB_with (λ p,
  mkProperties (connect_timeout p) (read_timeout p) (write_timeout p) t (base_headers p) (tls_options p) (proxy_url p)).
Definition PB_WrapperName (name : string) (b : HttpPropertiesBuilder) : HttpPropertiesBuilder :=
  mkPropertiesBuilder (pb_properties b) name (wrapper_version_ b).
Definition PB_WrapperVersion (version : string) (b : HttpPropertiesBuilder) : HttpPropertiesBuilder :=
  mkPropertiesBuilder (pb_properties b) (wrapper_name_ b) version.
Definition PB_Headers (headers : list (string * string)) := PB_with (with_base_headers headers).
Definition PB_Tls (tls : TlsOptions) := PB_with (λ p,
  mkProperties (connect_timeout p) (read_timeout p) (write_timeout p) (response_timeout p) (base_headers p) tls (proxy_url p)).
(** The constructor of [ProxyOptions]: without libcurl ([curl] is false) a proxy that is set and not empty
    makes it throw. *)
Definition ProxyOptions (curl : bool) (url : option string) : option (option string) :=
  match url with Some u => if negb curl && negb (is_empty u) then None else Some url | None => Some None end.

Definition PB_Proxy (curl : bool) (url : option string) (b : HttpPropertiesBuilder) : option HttpPropertiesBuilder :=
  match ProxyOptions curl url with
  | None => None
  | Some url => Some (PB_with (λ p, mkProperties (connect_timeout p) (read_timeout p) (write_timeout p) (response_timeout p)
                                      (base_headers p) (tls_options p) url) b)
  end.

Definition HttpPropertiesBuilder_Build (b : HttpPropertiesBuilder) : HttpProperties :=
  let p := pb_properties b in
  if is_empty (wrapper_name_ b) then p
  else
    with_base_headers
      (assign "X-LaunchDarkly-Wrapper"
         (if is_empty (wrapper_version_ b) then wrapper_name_ b else wrapper_name_ b +:+ "/" +:+ wrapper_version_ b)
         (base_headers p)) p.

(** ** Big Segments *)

Record BigSegmentsConfig (S : Type) := mkBigSegmentsConfig {
  bs_store : S;
  context_cache_size : nat;
  context_cache_time : Z;
  status_poll_interval : Z;
  bs_stale_after : Z;
}.
Arguments mkBigSegmentsConfig {S}. Arguments bs_store {S}. Arguments context_cache_size {S}.
Arguments context_cache_time {S}. Arguments status_poll_interval {S}. Arguments bs_stale_after {S}.

Definition kDefaultContextCacheSize : nat := 1000.
Definition kDefaultContextCacheTime : Z := 5000.
Definition kDefaultStatusPollInterval : Z := 5000.
Definition kDefaultStaleAfter : Z := 120000.

Section Builders.
Context {Store Source Backend Hook : Type}.

Abbreviation BigSegmentsBuilder := (BigSegmentsConfig (option Store)).

Definition new_big_segments (store : option Store) : BigSegmentsBuilder :=
  mkBigSegmentsConfig store kDefaultContextCacheSize kDefaultContextCacheTime kDefaultStatusPollInterval kDefaultStaleAfter.

Definition ContextCacheSize (size : nat) (b : BigSegmentsBuilder) : BigSegmentsBuilder :=
  mkBigSegmentsConfig (bs_store b) size (context_cache_time b) (status_poll_interval b) (bs_stale_after b).
Definition ContextCacheTime (ttl : Z) (b : BigSegmentsBuilder) : BigSegmentsBuilder :=
  mkBigSegmentsConfig (bs_store b) (context_cache_size b) (if 0 <? ttl then ttl else kDefaultContextCacheTime)
    (status_poll_interval b) (bs_stale_after b).
Definition StatusPollInterval (interval : Z) (b : BigSegmentsBuilder) : BigSegmentsBuilder :=
  mkBigSegmentsConfig (bs_store b) (context_cache_size b) (context_cache_time b)
    (if 0 <? interval then interval else kDefaultStatusPollInterval) (bs_stale_after b).
Definition StaleAfter (threshold : Z) (b : BigSegmentsBuilder) : BigSegmentsBuilder :=
  mkBigSegmentsConfig (bs_store b) (context_cache_size b) (context_cache_time b) (status_poll_interval b)
    (if 0 <? threshold then threshold else kDefaultStaleAfter).

Definition BigSegmentsBuilder_Build (b : BigSegmentsBuilder) : built (BigSegmentsConfig Store) :=
  match bs_store b with
  | None => Unexpected Error.kConfig_BigSegments_NullStore
  | Some store =>
      let poll := Z.min (status_poll_interval b) (bs_stale_after b) in
      Val (mkBigSegmentsConfig store (context_cache_size b) (context_cache_time b) poll (bs_stale_after b))
  end.

(** ** Data systems *)

Record StreamingConfig := mkStreaming { initial_reconnect_delay : Z; streaming_path : string; st_filter_key : option string }.
Record PollingConfig := mkPolling { poll_interval : Z; polling_get_path : string; min_polling_interval : Z; po_filter_key : option string }.

(** The only eviction policy, and the bootstrap and destination of a background sync, which are
    empty structs, carry nothing. *)
Record LazyLoadConfig := mkLazyConfig { refresh_ttl : Z; lz_source : option Source }.

Record FDv2Config := mkFDv2 {
  initializers : list (Z * option string);
  synchronizers : list ((Z * option string) + (Z * option string));
  fdv1_fallback : option (StreamingConfig + PollingConfig);
  fallback_timeout : Z;
  recovery_timeout : Z;
}.

Inductive Method :=
| BackgroundSync (synchronizer : StreamingConfig + PollingConfig)
| LazyLoad (config : LazyLoadConfig)
| FDv2 (config : FDv2Config).

Record DataSystemConfig := mkDataSystem { disabled : bool; system : Method }.

Record DataSystemBuilder := mkDataSystemBuilder { method_builder_ : option Method; ds_config_ : DataSystemConfig }.

Definition default_data_system : DataSystemConfig := mkDataSystem false (BackgroundSync (inl (mkStreaming 1000 "/all" None))).
Definition new_data_system : DataSystemBuilder := mkDataSystemBuilder None default_data_system.

Definition DS_Method (m : Method) (b : DataSystemBuilder) : DataSystemBuilder := mkDataSystemBuilder (Some m) (ds_config_ b).
Definition DS_Enabled (enabled : bool) (b : DataSystemBuilder) : DataSystemBuilder :=
  mkDataSystemBuilder (method_builder_ b) (mkDataSystem (negb enabled) (system (ds_config_ b))).
Definition DS_Disable (b : DataSystemBuilder) : DataSystemBuilder := DS_Enabled false b.

Definition LazyLoadBuilder_Build (c : LazyLoadConfig) : built LazyLoadConfig :=
  match lz_source c with
  | None => Unexpected Error.kConfig_DataSystem_LazyLoad_MissingSource
  | Some _ => Val c
  end.

Definition DataSystemBuilder_Build (b : DataSystemBuilder) : built DataSystemConfig :=
  match method_builder_ b with
  | None => Val (ds_config_ b)
  | Some m =>
      match m with
      | LazyLoad config =>
          match LazyLoadBuilder_Build config with
          | Val config => Val (mkDataSystem (disabled (ds_config_ b)) (LazyLoad config))
          | Unexpected e => Unexpected e
          end
      | m => Val (mkDataSystem (disabled (ds_config_ b)) m)
      end
  end.

Definition CacheRefresh (ttl : Z) (c : LazyLoadConfig) : LazyLoadConfig := mkLazyConfig ttl (lz_source c).
Definition LazyLoad_Source (source : option Source) (c : LazyLoadConfig) : LazyLoadConfig := mkLazyConfig (refresh_ttl c) source.

Definition server_streaming : StreamingConfig := mkStreaming 1000 "/all" None.
Definition server_polling : PollingConfig := mkPolling 30000 "/sdk/latest-all" 30000 None.

Definition InitialReconnectDelay (delay : Z) (c : StreamingConfig) : StreamingConfig :=
  mkStreaming delay (streaming_path c) (st_filter_key c).
Definition Streaming_Filter (key : string) (c : StreamingConfig) : StreamingConfig :=
  mkStreaming (initial_reconnect_delay c) (streaming_path c) (Some key).
(** The interval is given in seconds. *)
Definition PollInterval (seconds : Z) (c : PollingConfig) : PollingConfig :=
  mkPolling (seconds * 1000) (polling_get_path c) (min_polling_interval c) (po_filter_key c).
Definition Polling_Filter (key : string) (c : PollingConfig) : PollingConfig :=
  mkPolling (poll_interval c) (polling_get_path c) (min_polling_interval c) (Some key).

(** [FDv2Builder]: the sources are built when they are added. *)
Definition new_fdv2 : FDv2Config := mkFDv2 [] [] None 120000 300000.
Definition fdv2_streaming : Z * option string := (1000, None).
Definition fdv2_polling : Z * option string := (30000, None).

Definition Initializer (source : Z * option string) (c : FDv2Config) : FDv2Config :=
  mkFDv2 (initializers c ++ [source]) (synchronizers c) (fdv1_fallback c) (fallback_timeout c) (recovery_timeout c).
Definition Synchronizer (source : (Z * option string) + (Z * option string)) (c : FDv2Config) : FDv2Config :=
  mkFDv2 (initializers c) (synchronizers c ++ [source]) (fdv1_fallback c) (fallback_timeout c) (recovery_timeout c).
Definition FDv1Fallback (source : StreamingConfig + PollingConfig) (c : FDv2Config) : FDv2Config :=
  mkFDv2 (initializers c) (synchronizers c) (Some source) (fallback_timeout c) (recovery_timeout c).
Definition DisableFDv1Fallback (c : FDv2Config) : FDv2Config :=
  mkFDv2 (initializers c) (synchronizers c) None (fallback_timeout c) (recovery_timeout c).
Definition FallbackTimeout (timeout : Z) (c : FDv2Config) : FDv2Config :=
  mkFDv2 (initializers c) (synchronizers c) (fdv1_fallback c) timeout (recovery_timeout c).
Definition RecoveryTimeout (timeout : Z) (c : FDv2Config) : FDv2Config :=
  mkFDv2 (initializers c) (synchronizers c) (fdv1_fallback c) (fallback_timeout c) timeout.

Definition fdv2_Default : FDv2Config :=
  FDv1Fallback (inl server_streaming) (Synchronizer (inr fdv2_polling) (Synchronizer (inl fdv2_streaming)
    (Initializer fdv2_polling new_fdv2))).

(** [Defaults::FDv2Config]. *)
Definition default_fdv2 : FDv2Config :=
  mkFDv2 [fdv2_polling] [inl fdv2_streaming; inr fdv2_polling] (Some (inl server_streaming)) 120000 300000.

(** ** The configuration of a server-side SDK *)

Record ConfigBuilder := mkConfigBuilder {
  cb_sdk_key : string;
  cb_offline : bool;
  cb_endpoints : EndpointsBuilder;
  cb_events : Events;
  cb_tags : list (string * string);
  cb_data_system : DataSystemBuilder;
  cb_http : HttpPropertiesBuilder;
  cb_big_segments : option BigSegmentsBuilder;
  cb_logging : @LoggingBuilder Backend;
  cb_hooks : list Hook;
}.

Record Config := mkConfig {
  cf_sdk_key : string;
  cf_endpoints : ServiceEndpoints;
  cf_events : Events;
  cf_app_tag : option string;
  cf_data_system : DataSystemConfig;
  cf_big_segments : option (BigSegmentsConfig Store);
  cf_http : HttpProperties;
  cf_logging : @LoggingConfig Backend;
  cf_hooks : list Hook;
}.

Definition server_endpoints : ServiceEndpoints :=
  mkEndpoints "https://sdk.launchdarkly.com" "https://stream.launchdarkly.com" "https://events.launchdarkly.com".

Definition server_events : Events := mkEvents true 10000 5000 "/bulk" false [] 1000 5 (Some 1000%nat).

Definition default_properties : HttpProperties := mkProperties 10000 10000 10000 10000 [] (mkTls false None) None.

(** [env] is the variable LD_LOG_LEVEL. *)
Definition new_config (env : option string) (sdk_key : string) : ConfigBuilder :=
  mkConfigBuilder sdk_key false (mkEndpointsBuilder None None None) server_events [] new_data_system
    (builder_of_properties default_properties) None (new_basic env) [].

(** The methods that return a builder for a part, with what is done to the part. *)
Definition CB_ServiceEndpoints (f : EndpointsBuilder → EndpointsBuilder) (b : ConfigBuilder) : ConfigBuilder :=
  mkConfigBuilder (cb_sdk_key b) (cb_offline b) (f (cb_endpoints b)) (cb_events b) (cb_tags b) (cb_data_system b) (cb_http b)
    (cb_big_segments b) (cb_logging b) (cb_hooks b).
Definition CB_Events (f : Events → Events) (b : ConfigBuilder) : ConfigBuilder :=
  mkConfigBuilder (cb_sdk_key b) (cb_offline b) (cb_endpoints b) (f (cb_events b)) (cb_tags b) (cb_data_system b) (cb_http b)
    (cb_big_segments b) (cb_logging b) (cb_hooks b).
Definition CB_AppInfo (f : list (string * string) → list (string * string)) (b : ConfigBuilder) : ConfigBuilder :=
  mkConfigBuilder (cb_sdk_key b) (cb_offline b) (cb_endpoints b) (cb_events b) (f (cb_tags b)) (cb_data_system b) (cb_http b)
    (cb_big_segments b) (cb_logging b) (cb_hooks b).
Definition CB_DataSystem (f : DataSystemBuilder → DataSystemBuilder) (b : ConfigBuilder) : ConfigBuilder :=
  mkConfigBuilder (cb_sdk_key b) (cb_offline b) (cb_endpoints b) (cb_events b) (cb_tags b) (f (cb_data_system b)) (cb_http b)
    (cb_big_segments b) (cb_logging b) (cb_hooks b).
Definition CB_HttpProperties (f : HttpPropertiesBuilder → HttpPropertiesBuilder) (b : ConfigBuilder) : ConfigBuilder :=
  mkConfigBuilder (cb_sdk_key b) (cb_offline b) (cb_endpoints b) (cb_events b) (cb_tags b) (cb_data_system b) (f (cb_http b))
    (cb_big_segments b) (cb_logging b) (cb_hooks b).
Definition CB_BigSegments (builder : BigSegmentsBuilder) (b : ConfigBuilder) : ConfigBuilder :=
  mkConfigBuilder (cb_sdk_key b) (cb_offline b) (cb_endpoints b) (cb_events b) (cb_tags b) (cb_data_system b) (cb_http b)
    (Some builder) (cb_logging b) (cb_hooks b).
Definition CB_Logging (logging : @LoggingBuilder Backend) (b : ConfigBuilder) : ConfigBuilder :=
  mkConfigBuilder (cb_sdk_key b) (cb_offline b) (cb_endpoints b) (cb_events b) (cb_tags b) (cb_data_system b) (cb_http b)
    (cb_big_segments b) logging (cb_hooks b).
Definition CB_Offline (offline : bool) (b : ConfigBuilder) : ConfigBuilder :=
  mkConfigBuilder (cb_sdk_key b) offline (cb_endpoints b) (cb_events b) (cb_tags b) (cb_data_system b) (cb_http b)
    (cb_big_segments b) (cb_logging b) (cb_hooks b).
Definition CB_Hooks (hook : option Hook) (b : ConfigBuilder) : ConfigBuilder :=
  mkConfigBuilder (cb_sdk_key b) (cb_offline b) (cb_endpoints b) (cb_events b) (cb_tags b) (cb_data_system b) (cb_http b)
    (cb_big_segments b) (cb_logging b) (match hook with Some h => cb_hooks b ++ [h] | None => cb_hooks b end).

Definition ConfigBuilder_Build (b : ConfigBuilder) : built Config :=
  if is_empty (cb_sdk_key b) then Unexpected Error.kConfig_SDKKey_Empty
  else
    match EndpointsBuilder_Build server_endpoints (cb_endpoints b) with
    | Unexpected e => Unexpected e
    | Val endpoints =>
        match EventsBuilder_Build (if cb_offline b then EB_Disable (cb_events b) else cb_events b) with
        | Unexpected e => Unexpected e
        | Val events =>
            let app_tag := AppInfo_Build (cb_tags b) in
            match DataSystemBuilder_Build (if cb_offline b then DS_Disable (cb_data_system b) else cb_data_system b) with
            | Unexpected e => Unexpected e
            | Val data_system =>
                let http := HttpPropertiesBuilder_Build (cb_http b) in
                let logging := LoggingBuilder_Build (cb_logging b) in
                match cb_big_segments b with
                | None => Val (mkConfig (cb_sdk_key b) endpoints events app_tag data_system None http logging (cb_hooks b))
                | Some big_segments_builder =>
                    match BigSegmentsBuilder_Build big_segments_builder with
                    | Unexpected e => Unexpected e
                    | Val c => Val (mkConfig (cb_sdk_key b) endpoints events app_tag data_system (Some c) http logging (cb_hooks b))
                    end
                end
            end
        end
    end.
End Builders.


(** ** Lemmas *)

Lemma trimmed_end_spec l m n :
  (n ≤ length l)%nat →
  drop (trimmed_end l m n) (take n l) = replicate (n - trimmed_end l m n) m ∧
  (trimmed_end l m n ≤ n)%nat ∧ last (take (trimmed_end l m n) l) ≠ Some m.
Proof.
  induction n as [|n IH]; intros Hn; [done|]. cbn [trimmed_end].
  assert (is_Some (l !! n)) as [c Hc] by (apply lookup_lt_is_Some_2; lia). rewrite Hc. cbn [from_option id]. unfold id.
  destruct (Ascii.eqb_spec c m) as [->|Hne].
  - destruct (IH ltac:(lia)) as (Hd & Hle & Hl). split_and!; [|lia|done].
    rewrite (take_S_r _ _ _ Hc), drop_app_le by (rewrite length_take; lia).
    rewrite Hd. replace (S n - trimmed_end l m n)%nat with (S (n - trimmed_end l m n)) by lia.
    by rewrite replicate_S_end.
  - split_and!; [by rewrite drop_ge, Nat.sub_diag by (rewrite length_take; lia)|lia|].
    rewrite (take_S_r _ _ _ Hc), last_snoc. congruence.
Qed.

(** [trim_right_matches] removes all the characters [m] from the end, and nothing else. *)
Lemma trim_right_spec s m :
  ∃ n, s = trim_right_matches s m +:+ of_chars (replicate n m) ∧ last (chars (trim_right_matches s m)) ≠ Some m.
Proof.
  destruct (trimmed_end_spec (chars s) m (length (chars s)) ltac:(lia)) as (Hd & _ & Hl).
  exists (length (chars s) - trimmed_end (chars s) m (length (chars s)))%nat. unfold trim_right_matches.
  rewrite chars_of_chars. split; [|done].
  rewrite firstn_all in Hd. by rewrite <- of_chars_app, <- Hd, take_drop, of_chars_chars.
Qed.

Lemma unique_elem l x : x ∈ unique l ↔ x ∈ l.
Proof.
  induction l as [|a [|b l] IH]; [done..|].
  change (unique (a :: b :: l)) with (if str_eqb a b then unique (b :: l) else a :: unique (b :: l)).
  destruct (str_eqb a b) eqn:E; [apply str_eqb_eq in E as ->|apply str_eqb_neq in E as Hne].
  { rewrite IH. set_solver. }
  rewrite !elem_of_cons, IH. set_solver.
Qed.

Lemma unique_sorted l : StronglySorted String.le l → StronglySorted String.le (unique l) ∧ NoDup (unique l).
Proof.
  induction l as [|a [|b l] IH]; intros Hs; [repeat constructor|split; repeat constructor; set_solver|].
  apply StronglySorted_inv in Hs as [Hs Ha]. destruct (IH Hs) as [IHs IHd].
  change (unique (a :: b :: l)) with (if str_eqb a b then unique (b :: l) else a :: unique (b :: l)).
  destruct (str_eqb a b) eqn:E; [apply str_eqb_eq in E as ->|apply str_eqb_neq in E as Hne]; [by split|].
  split; constructor; [done| | |done].
  - rewrite Forall_forall in Ha |- *. intros x Hx. by apply Ha, unique_elem.
  - rewrite unique_elem, elem_of_cons. intros [?|Hin]; [done|]. apply Hne.
    rewrite Forall_forall in Ha. apply StronglySorted_inv in Hs as [_ Hb]. rewrite Forall_forall in Hb.
    apply (anti_symm String.le); [apply Ha; set_solver|by apply Hb].
Qed.

Lemma valid_char_no_space c : ValidChar c = true → c ≠ " "%char ∧ c ≠ "/"%char.
Proof. intros H. split; intros ->; vm_compute in H; done. Qed.

Lemma valid_tag_spec tag t :
  Tag_Build tag = Val t → t = tag.1 +:+ "/" +:+ tag.2 ∧ " "%char ∉ chars t ∧ (length (chars tag.2) ≤ 64)%nat.
Proof.
  unfold Tag_Build, IsValidTag. destruct tag as [k v]; cbn [fst snd].
  destruct (is_empty v || is_empty k); [done|]. destruct (Nat.ltb_spec kMaxTagValueLength (length (chars v))); [done|].
  destruct (forallb ValidChar (chars k)) eqn:Hk; [|done]. destruct (forallb ValidChar (chars v)) eqn:Hv; [|done].
  cbn [negb]. intros [= <-]. split_and!; [done| |done].
  rewrite !chars_app. rewrite forallb_forall in Hk, Hv.
  rewrite !elem_of_app. intros [Hin|[Hin|Hin]].
  - apply list_elem_of_In, Hk, valid_char_no_space in Hin. tauto.
  - by apply list_elem_of_singleton in Hin.
  - apply list_elem_of_In, Hv, valid_char_no_space in Hin. tauto.
Qed.

Definition valid_tags (tags : list (string * string)) : list string :=
  omap (λ tag, match Tag_Build tag with Val t => Some t | Unexpected _ => None end) tags.

Lemma valid_tags_elem tags t : t ∈ valid_tags tags ↔ ∃ tag, tag ∈ tags ∧ Tag_Build tag = Val t.
Proof.
  unfold valid_tags. rewrite list_elem_of_omap.
  split; intros (tag & Hin & Ht); exists tag; (split; [done|]); destruct (Tag_Build tag); by simplify_eq.
Qed.

Lemma app_info_tags tags :
  match AppInfo_Build tags with
  | None => ∀ tag, tag ∈ tags → ∃ e, Tag_Build tag = Unexpected e
  | Some header =>
      ∃ l, split_at " " (chars header) = chars <$> l ∧ l ≠ [] ∧ StronglySorted String.le l ∧ NoDup l ∧
        ∀ t, t ∈ l ↔ ∃ tag, tag ∈ tags ∧ Tag_Build tag = Val t
  end.
Proof.
  assert (AppInfo_Build tags = match valid_tags tags with
                               | [] => None | _ => Some (join " " (unique (merge_sort String.le (valid_tags tags)))) end) as ->
    by (destruct tags; reflexivity).
  destruct (valid_tags tags) as [|t0 ts] eqn:Hv.
  - intros tag Hin. destruct (Tag_Build tag) as [t|e] eqn:Ht; [|by eexists].
    exfalso. assert (t ∈ valid_tags tags) as Hi by (apply valid_tags_elem; eauto). rewrite Hv in Hi. by apply not_elem_of_nil in Hi.
  - rewrite <- Hv. set (l := unique (merge_sort String.le (valid_tags tags))).
    assert (∀ t, t ∈ l ↔ t ∈ valid_tags tags) as Hl by (intros t; unfold l; by rewrite unique_elem, merge_sort_Permutation).
    destruct (unique_sorted (merge_sort String.le (valid_tags tags))) as [Hs Hd]; [apply (StronglySorted_merge_sort _)|].
    assert (l ≠ []) as Hne.
    { intros E. assert (t0 ∈ l) as Hi by (rewrite Hl, Hv; set_solver). rewrite E in Hi. by apply not_elem_of_nil in Hi. }
    exists l. split_and!; [|done..|by intros t; rewrite Hl, valid_tags_elem].
    unfold join. rewrite chars_of_chars. apply split_join; [by destruct l|].
    apply Forall_fmap, Forall_forall. intros t Ht. rewrite Hl, valid_tags_elem in Ht.
    destruct Ht as (tag & _ & Ht). by apply valid_tag_spec in Ht as (_ & ? & _).
Qed.

(** ** Building a configuration *)

Section Building.
Context {Store Source Backend Hook : Type}.
Implicit Types b : @ConfigBuilder Store Source Backend Hook.

(** What is wrong with the settings, in the order in which the parts are built. *)
Definition config_faults b : list Error.t :=
  let e := cb_endpoints b in
  let set := omap id [eb_polling e; eb_streaming e; eb_events e] in
  (if decide (cb_sdk_key b = EmptyString) then [Error.kConfig_SDKKey_Empty] else []) ++
  (if decide (EmptyString ∈ set) then [Error.kConfig_Endpoints_EmptyURL] else []) ++
  (if decide (length set ∈ [1; 2]%nat) then [Error.kConfig_Endpoints_AllURLsMustBeSet] else []) ++
  (if decide (capacity_ (cb_events b) = 0%nat) then [Error.kConfig_Events_ZeroCapacity] else []) ++
  (match method_builder_ (cb_data_system b) with
   | Some (LazyLoad (mkLazyConfig _ None)) => [Error.kConfig_DataSystem_LazyLoad_MissingSource]
   | _ => []
   end) ++
  (match cb_big_segments b with
   | Some s => if bs_store s then [] else [Error.kConfig_BigSegments_NullStore]
   | None => []
   end).

(** The URL that a part of the SDK uses: what was set less its slashes at the end. *)
Definition url_of (set : option string) (dflt used : string) : Prop :=
  match set with
  | Some u => u ≠ EmptyString ∧ ∃ n, u = used +:+ of_chars (replicate n "/"%char) ∧ last (chars used) ≠ Some "/"%char
  | None => used = dflt
  end.

Record config_sound b (c : @Config Store Source Backend Hook) : Prop := {
  sound_key : cf_sdk_key c = cb_sdk_key b ∧ cf_sdk_key c ≠ EmptyString;
  sound_polling : url_of (eb_polling (cb_endpoints b)) "https://sdk.launchdarkly.com" (polling_base_url (cf_endpoints c));
  sound_streaming : url_of (eb_streaming (cb_endpoints b)) "https://stream.launchdarkly.com" (streaming_base_url (cf_endpoints c));
  sound_events_url : url_of (eb_events (cb_endpoints b)) "https://events.launchdarkly.com" (events_base_url (cf_endpoints c));
  sound_events : cf_events c = EB_Enabled (enabled_ (cb_events b) && negb (cb_offline b)) (cb_events b);
  sound_capacity : (0 < capacity_ (cf_events c))%nat;
  sound_data_system :
    disabled (cf_data_system c) = disabled (ds_config_ (cb_data_system b)) || cb_offline b ∧
    system (cf_data_system c) = default (system (ds_config_ (cb_data_system b))) (method_builder_ (cb_data_system b));
  sound_big_segments :
    match cb_big_segments b, cf_big_segments c with
    | Some s, Some d =>
        bs_store s = Some (bs_store d) ∧ bs_stale_after d = bs_stale_after s ∧
        status_poll_interval d = Z.min (status_poll_interval s) (bs_stale_after s)
    | None, None => True
    | _, _ => False
    end;
  sound_rest :
    cf_app_tag c = AppInfo_Build (cb_tags b) ∧ cf_http c = HttpPropertiesBuilder_Build (cb_http b) ∧
    cf_logging c = LoggingBuilder_Build (cb_logging b) ∧ cf_hooks c = cb_hooks b;
}.

Lemma endpoints_build_cases d (e : EndpointsBuilder) :
  match EndpointsBuilder_Build d e with
  | Val r =>
      url_of (eb_polling e) (polling_base_url d) (polling_base_url r) ∧
      url_of (eb_streaming e) (streaming_base_url d) (streaming_base_url r) ∧
      url_of (eb_events e) (events_base_url d) (events_base_url r) ∧
      EmptyString ∉ omap id [eb_polling e; eb_streaming e; eb_events e] ∧
      length (omap id [eb_polling e; eb_streaming e; eb_events e]) ∉ [1; 2]%nat
  | Unexpected x =>
      x = Error.kConfig_Endpoints_EmptyURL ∧
      EmptyString ∈ omap id [eb_polling e; eb_streaming e; eb_events e] ∨
      x = Error.kConfig_Endpoints_AllURLsMustBeSet ∧
      EmptyString ∉ omap id [eb_polling e; eb_streaming e; eb_events e] ∧
      length (omap id [eb_polling e; eb_streaming e; eb_events e]) ∈ [1; 2]%nat
  end.
Proof.
  unfold EndpointsBuilder_Build, empty_string. destruct e as [[p|] [s|] [u|]]; cbn [eb_polling eb_streaming eb_events omap list_omap id length orb];
  repeat match goal with |- context [is_empty ?u] =>
    let E := fresh "E" in destruct (is_empty u) eqn:E; [apply is_empty_true in E as ->|] end;
  cbn [orb]; try (left; split; [done|set_solver]);
  repeat match goal with H : is_empty ?u = false |- _ => assert (u ≠ EmptyString) by (intros ->; discriminate H); clear H end;
  try (right; split_and!; [done|set_solver|set_solver]).
  - split_and!; try (split; [done|apply trim_right_spec]); set_solver.
  - split_and!; [done..|set_solver|set_solver].
Qed.

Lemma events_build_cases b :
  match EventsBuilder_Build (if cb_offline b then EB_Disable (cb_events b) else cb_events b) with
  | Val e => e = EB_Enabled (enabled_ (cb_events b) && negb (cb_offline b)) (cb_events b) ∧ (0 < capacity_ e)%nat
  | Unexpected e => e = Error.kConfig_Events_ZeroCapacity ∧ capacity_ (cb_events b) = 0%nat
  end.
Proof.
  destruct (cb_events b) as [en cap fl path all priv retry workers keys].
  unfold EventsBuilder_Build, EB_Disable, EB_Enabled. destruct (cb_offline b); cbn;
    (destruct cap; [done|]); cbn; rewrite ?andb_false_r, ?andb_true_r; (split; [done|lia]).
Qed.

Lemma data_system_build_cases b :
  match DataSystemBuilder_Build (if cb_offline b then DS_Disable (cb_data_system b) else cb_data_system b) with
  | Val d =>
      disabled d = disabled (ds_config_ (cb_data_system b)) || cb_offline b ∧
      system d = default (system (ds_config_ (cb_data_system b))) (method_builder_ (cb_data_system b)) ∧
      (match method_builder_ (cb_data_system b) with
       | Some (LazyLoad (mkLazyConfig _ None)) => [Error.kConfig_DataSystem_LazyLoad_MissingSource]
       | _ => []
       end) = []
  | Unexpected e =>
      e = Error.kConfig_DataSystem_LazyLoad_MissingSource ∧
      (match method_builder_ (cb_data_system b) with
       | Some (LazyLoad (mkLazyConfig _ None)) => [Error.kConfig_DataSystem_LazyLoad_MissingSource]
       | _ => []
       end) = [e]
  end.
Proof.
  destruct (cb_data_system b) as [[[sync|[ttl [src|]]|cfg]|] [dis sys]];
    unfold DataSystemBuilder_Build, DS_Disable, DS_Enabled; destruct (cb_offline b); cbn; rewrite ?orb_true_r, ?orb_false_r; done.
Qed.

(** C22: A server-side configuration is built exactly when nothing that was set is wrong, and
    otherwise the first fault, in the order of the parts, is the error.  A configuration that is
    built has the key that was set, which is not empty; URLs without slashes at the end, all of
    the service or all set; a capacity for events; events and data system off when offline; the
    method of the data system that was set, with a source when it loads lazily; and it polls
    the status of a Big Segment store at least as often as the store may go stale. *)
Theorem config_built b :
  match ConfigBuilder_Build b with
  | Val c => config_faults b = [] ∧ config_sound b c
  | Unexpected e => head (config_faults b) = Some e
  end.
Proof.
  unfold ConfigBuilder_Build, config_faults.
  pose proof (endpoints_build_cases server_endpoints (cb_endpoints b)) as He.
  destruct (is_empty (cb_sdk_key b)) eqn:Hk.
  { apply is_empty_true in Hk. by rewrite decide_True. }
  assert (cb_sdk_key b ≠ EmptyString) as Hkey by (intros E; by rewrite E in Hk).
  rewrite (decide_False (P := cb_sdk_key b = _)) by done. cbn [app].
  destruct (EndpointsBuilder_Build server_endpoints (cb_endpoints b)) as [e|x].
  2:{ destruct He as [[-> Hin]|(-> & Hout & Hin)]; [by rewrite decide_True|].
      rewrite decide_False, decide_True by done. done. }
  destruct He as (Hp & Hs & Hv & Hin & Hl). rewrite (decide_False (P := _ ∈ omap _ _)), (decide_False (P := length _ ∈ _)) by done.
  cbn [app]. clear Hk Hin Hl.
  pose proof (events_build_cases b) as Hev. pose proof (data_system_build_cases b) as Hds.
  destruct (EventsBuilder_Build _) as [ev|x].
  2:{ destruct Hev as [-> Hc]. by rewrite decide_True. }
  destruct Hev as [-> Hcap]. rewrite decide_False by (cbn in Hcap; lia). cbn [app].
  destruct (DataSystemBuilder_Build _) as [ds|x]; [|by destruct Hds as [-> ->]].
  destruct Hds as (Hd & Hsys & ->). cbn [app].
  destruct (cb_big_segments b) as [bs|] eqn:Hb; [unfold BigSegmentsBuilder_Build; destruct (bs_store bs) as [store|] eqn:Hst|];
    [|done|]; (split; [done|]); constructor; try done; by rewrite Hb.
Qed.

End Building.

(** The builders of Big Segments that the setters make. *)
Inductive big_segments_made {Store} (store : option Store) : BigSegmentsConfig (option Store) → Prop :=
| made_new : big_segments_made store (new_big_segments store)
| made_size n b : big_segments_made store b → big_segments_made store (ContextCacheSize n b)
| made_time t b : big_segments_made store b → big_segments_made store (ContextCacheTime t b)
| made_poll t b : big_segments_made store b → big_segments_made store (StatusPollInterval t b)
| made_stale t b : big_segments_made store b → big_segments_made store (StaleAfter t b).

(** Whatever the setters are given, zero and negative times too, the configuration they build has
    positive times and polls the store before it can go stale. *)
Theorem big_segments_times {Store} (store : Store) b :
  big_segments_made (Some store) b →
  ∃ c, BigSegmentsBuilder_Build b = Val c ∧ bs_store c = store ∧ 0 < context_cache_time c ∧
    0 < status_poll_interval c ≤ bs_stale_after c.
Proof.
  intros Hb.
  assert (bs_store b = Some store ∧ 0 < context_cache_time b ∧ 0 < status_poll_interval b ∧ 0 < bs_stale_after b)
    as (Hs & Ht & Hp & Ha).
  { induction Hb as [|n b _ IH|t b _ IH|t b _ IH|t b _ IH]; [split_and!; done|..]; destruct IH as (? & ? & ? & ?);
      unfold ContextCacheSize, ContextCacheTime, StatusPollInterval, StaleAfter; cbn; try destruct (Z.ltb_spec 0 t); split_and!; done. }
  unfold BigSegmentsBuilder_Build. rewrite Hs. eexists. split_and!; [done|done|done| |]; cbn; lia.
Qed.

Section Samples.
Abbreviation fresh_config := (@new_config unit unit unit unit None).

(** An empty URL is refused, but a URL of slashes only is trimmed to an empty one. *)
Example slash_url_is_empty :
  EndpointsBuilder_Build server_endpoints (RelayProxyBaseURL "/" (mkEndpointsBuilder None None None)) =
  Val (mkEndpoints EmptyString EmptyString EmptyString).
Proof. reflexivity. Qed.

(** The comparison of events configurations does not look at whether they are enabled. *)
Example disabled_events_equal : Events_eqb server_events (EB_Disable server_events) = true.
Proof. reflexivity. Qed.

(** A context key cache of no capacity is accepted; the first key noticed then fails. *)
Example zero_keys_capacity :
  EventsBuilder_Build (EB_ContextKeysCapacity 0 server_events) = Val (EB_ContextKeysCapacity 0 server_events) ∧
  Notice "a" (new_lru 0) = None.
Proof. split; reflexivity. Qed.

(** The default of the builder and the default configuration are written twice, and agree. *)
Example fdv2_defaults_agree : fdv2_Default = default_fdv2.
Proof. reflexivity. Qed.

(** A configuration that sets nothing else still needs a key. *)
Example default_config_builds :
  (if ConfigBuilder_Build (fresh_config "key") then true else false) = true ∧
  ConfigBuilder_Build (fresh_config EmptyString) = Unexpected Error.kConfig_SDKKey_Empty.
Proof. split; vm_compute; reflexivity. Qed.

Example tags_sorted :
  AppInfo_Build (App_Version "1.0" (Identifier "app" (Identifier "no spaces" (Identifier "app" [])))) =
  Some "application-id/app application-version/1.0".
Proof. vm_compute. reflexivity. Qed.
End Samples.
