(* ===== verification/ClientConfig.v ===== *)
(** * The configuration of a client-side SDK

    libs/common/src/config: config_builder.cpp, data_source_builder.cpp (the client's part),
    persistence_builder.cpp, with the client's defaults of defaults.hpp; [MakePersistence] of
    libs/client-sdk/src/client_impl.cpp.

    Durations are milliseconds.  Implementations of persistence and logging back ends are of any
    type, and a pointer to one may be null. *)

From S2P Require Import Prelude OrderedMap AttributeReferences Contexts HttpRequester Logging Configurations.

(** ** Data source *)

Record ClientStreamingConfig := mkClientStreaming { cs_initial_reconnect_delay : Z; cs_streaming_path : string }.
Record ClientPollingConfig := mkClientPolling {
  cp_poll_interval : Z;
  cp_polling_get_path : string;
  cp_polling_report_path : string;
  cp_min_polling_interval : Z;
}.

Definition client_streaming : ClientStreamingConfig := mkClientStreaming 1000 "/meval".
Definition client_polling : ClientPollingConfig := mkClientPolling 300000 "/msdk/evalx/contexts" "/msdk/evalx/context" 300000.

Definition CS_InitialReconnectDelay (delay : Z) (c : ClientStreamingConfig) : ClientStreamingConfig :=
  mkClientStreaming delay (cs_streaming_path c).
(** The interval is given in seconds. *)
Definition CP_PollInterval (seconds : Z) (c : ClientPollingConfig) : ClientPollingConfig :=
  mkClientPolling (seconds * 1000) (cp_polling_get_path c) (cp_polling_report_path c) (cp_min_polling_interval c).

Record DataSourceBuilder := mkDataSource {
  with_reasons_ : bool;
  use_report_ : bool;
  ds_method_ : ClientStreamingConfig + ClientPollingConfig;
}.

Definition new_data_source : DataSourceBuilder := mkDataSource false false (inl client_streaming).
Definition WithReasons (value : bool) (b : DataSourceBuilder) : DataSourceBuilder := mkDataSource value (use_report_ b) (ds_method_ b).
Definition UseReport (value : bool) (b : DataSourceBuilder) : DataSourceBuilder := mkDataSource (with_reasons_ b) value (ds_method_ b).
Definition Client_Method (m : ClientStreamingConfig + ClientPollingConfig) (b : DataSourceBuilder) : DataSourceBuilder :=
  mkDataSource (with_reasons_ b) (use_report_ b) m.

Record DataSourceConfig := mkDataSourceConfig {
  ds_method : ClientStreamingConfig + ClientPollingConfig;
  ds_with_reasons : bool;
  ds_use_report : bool;
}.

Definition DataSourceBuilder_Build (b : DataSourceBuilder) : DataSourceConfig :=
  mkDataSourceConfig (ds_method_ b) (with_reasons_ b) (use_report_ b).

Section ClientBuilders.
Context {Impl Backend : Type}.

(** ** Persistence *)

Inductive PersistenceType := NoneBuilder | CustomBuilder (implementation_ : option Impl).

Record PersistenceBuilder := mkPersistenceBuilder { type_ : PersistenceType; max_contexts_ : nat }.

Definition new_persistence : PersistenceBuilder := mkPersistenceBuilder NoneBuilder 5.

Definition P_Type (persistence : PersistenceType) (b : PersistenceBuilder) : PersistenceBuilder :=
  mkPersistenceBuilder persistence (max_contexts_ b).
Definition P_Custom (implementation : option Impl) (b : PersistenceBuilder) : PersistenceBuilder := P_Type (CustomBuilder implementation) b.
Definition P_None (b : PersistenceBuilder) : PersistenceBuilder := P_Type NoneBuilder b.

Record PersistenceConfig := mkPersistence { disable_persistence : bool; pe_implementation : option Impl; pe_max_contexts : nat }.

Definition PersistenceBuilder_Build (b : PersistenceBuilder) : PersistenceConfig :=
  match type_ b with
  | NoneBuilder => mkPersistence true None (max_contexts_ b)
  | CustomBuilder (Some impl) => mkPersistence false (Some impl) (max_contexts_ b)
  | CustomBuilder None => mkPersistence true None (max_contexts_ b)
  end.

Definition MakePersistence (p : PersistenceConfig) : option Impl := if disable_persistence p then None else pe_implementation p.

(** ** The configuration *)

Record ClientConfigBuilder := mkClientBuilder {
  cc_sdk_key : string;
  cc_offline : option bool;
  cc_endpoints : EndpointsBuilder;
  cc_events : Events;
  cc_tags : list (string * string);
  cc_data_source : DataSourceBuilder;
  cc_http : HttpPropertiesBuilder;
  cc_logging : @LoggingBuilder Backend;
  cc_persistence : PersistenceBuilder;
}.

Record ClientConfig := mkClientConfig {
  cl_sdk_key : string;
  cl_offline : bool;
  cl_logging : @LoggingConfig Backend;
  cl_endpoints : ServiceEndpoints;
  cl_events : Events;
  cl_app_tag : option string;
  cl_data_source : DataSourceConfig;
  cl_http : HttpProperties;
  cl_persistence : PersistenceConfig;
}.

Definition client_endpoints : ServiceEndpoints :=
  mkEndpoints "https://clientsdk.launchdarkly.com" "https://clientstream.launchdarkly.com" "https://mobile.launchdarkly.com".

Definition client_events : Events := mkEvents true 100 30000 "/mobile" false [] 1000 5 None.

(** [env] is the variable LD_LOG_LEVEL. *)
Definition new_client_config (env : option string) (sdk_key : string) : ClientConfigBuilder :=
  mkClientBuilder sdk_key None (mkEndpointsBuilder None None None) client_events [] new_data_source
    (builder_of_properties default_properties) (new_basic env) new_persistence.

Implicit Types b : ClientConfigBuilder.

(** The methods that return a builder for a part, with what is done to the part. *)
Definition CC_ServiceEndpoints (f : EndpointsBuilder → EndpointsBuilder) b : ClientConfigBuilder :=
  mkClientBuilder (cc_sdk_key b) (cc_offline b) (f (cc_endpoints b)) (cc_events b) (cc_tags b) (cc_data_source b) (cc_http b)
    (cc_logging b) (cc_persistence b).
Definition CC_Events (f : Events → Events) b : ClientConfigBuilder :=
  mkClientBuilder (cc_sdk_key b) (cc_offline b) (cc_endpoints b) (f (cc_events b)) (cc_tags b) (cc_data_source b) (cc_http b)
    (cc_logging b) (cc_persistence b).
Definition CC_AppInfo (f : list (string * string) → list (string * string)) b : ClientConfigBuilder :=
  mkClientBuilder (cc_sdk_key b) (cc_offline b) (cc_endpoints b) (cc_events b) (f (cc_tags b)) (cc_data_source b) (cc_http b)
    (cc_logging b) (cc_persistence b).
Definition CC_Offline (offline : bool) b : ClientConfigBuilder :=
  mkClientBuilder (cc_sdk_key b) (Some offline) (cc_endpoints b) (cc_events b) (cc_tags b) (cc_data_source b) (cc_http b)
    (cc_logging b) (cc_persistence b).
Definition CC_DataSource (f : DataSourceBuilder → DataSourceBuilder) b : ClientConfigBuilder :=
  mkClientBuilder (cc_sdk_key b) (cc_offline b) (cc_endpoints b) (cc_events b) (cc_tags b) (f (cc_data_source b)) (cc_http b)
    (cc_logging b) (cc_persistence b).
Definition CC_HttpProperties (f : HttpPropertiesBuilder → HttpPropertiesBuilder) b : ClientConfigBuilder :=
  mkClientBuilder (cc_sdk_key b) (cc_offline b) (cc_endpoints b) (cc_events b) (cc_tags b) (cc_data_source b) (f (cc_http b))
    (cc_logging b) (cc_persistence b).
Definition CC_Logging (logging : @LoggingBuilder Backend) b : ClientConfigBuilder :=
  mkClientBuilder (cc_sdk_key b) (cc_offline b) (cc_endpoints b) (cc_events b) (cc_tags b) (cc_data_source b) (cc_http b)
    logging (cc_persistence b).
Definition CC_Persistence (f : PersistenceBuilder → PersistenceBuilder) b : ClientConfigBuilder :=
  mkClientBuilder (cc_sdk_key b) (cc_offline b) (cc_endpoints b) (cc_events b) (cc_tags b) (cc_data_source b) (cc_http b)
    (cc_logging b) (f (cc_persistence b)).

Definition ClientConfigBuilder_Build b : built ClientConfig :=
  if is_empty (cc_sdk_key b) then Unexpected Error.kConfig_SDKKey_Empty
  else
    let offline := default false (cc_offline b) in
    match EndpointsBuilder_Build client_endpoints (cc_endpoints b) with
    | Unexpected e => Unexpected e
    | Val endpoints =>
        match EventsBuilder_Build (cc_events b) with
        | Unexpected e => Unexpected e
        | Val events =>
            let app_tag := AppInfo_Build (cc_tags b) in
            let data_source := DataSourceBuilder_Build (cc_data_source b) in
            let http := HttpPropertiesBuilder_Build (cc_http b) in
            let logging := LoggingBuilder_Build (cc_logging b) in
            let persistence := PersistenceBuilder_Build (cc_persistence b) in
            Val (mkClientConfig (cc_sdk_key b) offline logging endpoints events app_tag data_source http persistence)
        end
    end.

(** ** What is built *)

(** What is wrong with the settings, in the order in which the parts are built. *)
Definition client_config_faults b : list Error.t :=
  let e := cc_endpoints b in
  let set := omap id [eb_polling e; eb_streaming e; eb_events e] in
  (if decide (cc_sdk_key b = EmptyString) then [Error.kConfig_SDKKey_Empty] else []) ++
  (if decide (EmptyString ∈ set) then [Error.kConfig_Endpoints_EmptyURL] else []) ++
  (if decide (length set ∈ [1; 2]%nat) then [Error.kConfig_Endpoints_AllURLsMustBeSet] else []) ++
  (if decide (capacity_ (cc_events b) = 0%nat) then [Error.kConfig_Events_ZeroCapacity] else []).

(** A store is used when one was supplied, and none otherwise. *)
Lemma persistence_made (p : PersistenceBuilder) :
  MakePersistence (PersistenceBuilder_Build p) = match type_ p with NoneBuilder => None | CustomBuilder impl => impl end.
Proof. unfold PersistenceBuilder_Build. by destruct (type_ p) as [|[|]]. Qed.

(** A client-side configuration is built when nothing that was set is wrong, and otherwise the first
    fault is the error.  It has the key that was set, URLs without slashes at the end, all of the
    service or all set, and a capacity for events; and everything else is as it was set.  Unlike the
    server's, being offline changes no other part. *)
Theorem client_config_built b :
  match ClientConfigBuilder_Build b with
  | Val c =>
      client_config_faults b = [] ∧ cl_sdk_key c = cc_sdk_key b ∧ cl_sdk_key c ≠ EmptyString ∧
      url_of (eb_polling (cc_endpoints b)) "https://clientsdk.launchdarkly.com" (polling_base_url (cl_endpoints c)) ∧
      url_of (eb_streaming (cc_endpoints b)) "https://clientstream.launchdarkly.com" (streaming_base_url (cl_endpoints c)) ∧
      url_of (eb_events (cc_endpoints b)) "https://mobile.launchdarkly.com" (events_base_url (cl_endpoints c)) ∧
      cl_events c = cc_events b ∧ (0 < capacity_ (cl_events c))%nat ∧ cl_offline c = default false (cc_offline b) ∧
      MakePersistence (cl_persistence c) = (match type_ (cc_persistence b) with NoneBuilder => None | CustomBuilder impl => impl end) ∧
      ds_method (cl_data_source c) = ds_method_ (cc_data_source b)
  | Unexpected e => head (client_config_faults b) = Some e
  end.
Proof.
  unfold ClientConfigBuilder_Build, client_config_faults. pose proof (endpoints_build_cases client_endpoints (cc_endpoints b)) as He.
  destruct (is_empty (cc_sdk_key b)) eqn:Hk; [apply is_empty_true in Hk; by rewrite decide_True|].
  assert (cc_sdk_key b ≠ EmptyString) as Hkey by (intros E; by rewrite E in Hk).
  rewrite (decide_False (P := cc_sdk_key b = _)) by done. cbn [app].
  destruct (EndpointsBuilder_Build client_endpoints (cc_endpoints b)) as [e|x].
  2:{ destruct He as [[-> Hin]|(-> & Hout & Hin)]; [by rewrite decide_True|].
      rewrite decide_False, decide_True by done. done. }
  destruct He as (Hp & Hs & Hv & Hin & Hl). rewrite (decide_False (P := _ ∈ omap _ _)), (decide_False (P := length _ ∈ _)) by done.
  cbn [app]. unfold EventsBuilder_Build. destruct (Nat.eqb_spec (capacity_ (cc_events b)) 0) as [E|E]; [by rewrite decide_True|].
  rewrite decide_False by done. split_and!; try done; [cbn; lia|]. apply persistence_made.
Qed.
End ClientBuilders.
