(* ===== verification/CurlMulti.v ===== *)
(** * The manager of libcurl transfers

    libs/networking/src/curl_multi_manager.cpp, curl_multi_manager.hpp: the transfers with their
    completion callbacks, header lists and read timers, and the sockets that are monitored for
    libcurl.

    libcurl is what calls the manager: which messages it has, when it calls the socket callback
    and with what are arguments of the steps.  An easy handle and a header list are names of
    allocations; a handle's name is not given again.  A timer's wait is armed until it expires or
    is cancelled; the handler of one that expired is queued, where a cancellation does not reach
    it. *)

From S2P Require Import Prelude.

(** [CurlMultiManager::Result] *)
Inductive Result := FromCurlCode (code : Z) | FromReadTimeout.

#[global] Instance Result_eq_dec : EqDecision Result.
Proof. solve_decision. Defined.

(** ** Transfers *)

Section Transfers.
Context {K : Type}.

(** [multi_] are the handles that were added to libcurl's multi handle, [completions] what was
    posted, in order, and [freed] the header lists given back. *)
Record Transfers := mkTransfers {
  multi_ : gset nat;
  callbacks_ : gmap nat K;
  headers_ : gmap nat (option nat);
  handles_ : gset nat;
  handle_timeouts_ : gmap nat Z;
  armed : gset nat;
  expired : list nat;
  completions : list (nat * K * Result);
  freed : list nat;
}.

Definition new_transfers : Transfers := mkTransfers ∅ ∅ ∅ ∅ ∅ ∅ [] [] [].

Definition option_list {A} (o : option A) : list A := match o with Some x => [x] | None => [] end.

(** [curl_slist_free_all], of a list that is not null. *)
Definition free_list (headers : option nat) (m : Transfers) : Transfers :=
  mkTransfers (multi_ m) (callbacks_ m) (headers_ m) (handles_ m) (handle_timeouts_ m) (armed m) (expired m)
    (completions m) (freed m ++ option_list headers).

(** [add_ok]: [curl_multi_add_handle] returned [CURLM_OK]. *)
Definition add_handle (add_ok : bool) (easy : nat) (headers : option nat) (callback : K) (read_timeout : option Z)
    (m : Transfers) : Transfers :=
  if negb add_ok then free_list headers m
  else
    mkTransfers ({[easy]} ∪ multi_ m) (<[easy := callback]> (callbacks_ m)) (<[easy := headers]> (headers_ m))
      ({[easy]} ∪ handles_ m)
      (match read_timeout with Some t => <[easy := t]> (handle_timeouts_ m) | None => handle_timeouts_ m end)
      (match read_timeout with Some _ => {[easy]} ∪ armed m | None => armed m end)
      (expired m) (completions m) (freed m).

(** The timer of the handle is cancelled and waits anew. *)
Definition reset_read_timeout (easy : nat) (m : Transfers) : Transfers :=
  match handle_timeouts_ m !! easy with
  | Some _ =>
      mkTransfers (multi_ m) (callbacks_ m) (headers_ m) (handles_ m) (handle_timeouts_ m) ({[easy]} ∪ (armed m ∖ {[easy]}))
        (expired m) (completions m) (freed m)
  | None => m
  end.

(** What a finished transfer and a read timeout share: everything of the handle is taken out, it
    leaves the multi handle, its headers are freed, and its callback is posted if it has one. *)
Definition take_down (easy : nat) (result : Result) (m : Transfers) : Transfers :=
  mkTransfers (multi_ m ∖ {[easy]}) (delete easy (callbacks_ m)) (delete easy (headers_ m)) (handles_ m ∖ {[easy]})
    (delete easy (handle_timeouts_ m))
    (match handle_timeouts_ m !! easy with Some _ => armed m ∖ {[easy]} | None => armed m end)
    (expired m)
    (completions m ++ match callbacks_ m !! easy with Some callback => [(easy, callback, result)] | None => [] end)
    (freed m ++ match headers_ m !! easy with Some headers => option_list headers | None => [] end).

(** The loop over the messages of libcurl; one that is not [CURLMSG_DONE] is [None]. *)
Fixpoint check_multi_info (messages : list (option (nat * Z))) (m : Transfers) : Transfers :=
  match messages with
  | [] => m
  | Some (easy, result) :: rest => check_multi_info rest (take_down easy (FromCurlCode result) m)
  | None :: rest => check_multi_info rest m
  end.

Definition handle_read_timeout (easy : nat) (m : Transfers) : Transfers :=
  match callbacks_ m !! easy with
  | None => m
  | Some _ => take_down easy FromReadTimeout m
  end.

(** [~CurlMultiManager] *)
Definition destroy (m : Transfers) : Transfers :=
  foldl (λ m easy, free_list (default None (headers_ m !! easy)) m) m (map_to_list (callbacks_ m)).*1.

(** The wait of a timer that has not been cancelled ends: its handler is queued. *)
Definition expire (easy : nat) (m : Transfers) : Transfers :=
  if decide (easy ∈ armed m) then
    mkTransfers (multi_ m) (callbacks_ m) (headers_ m) (handles_ m) (handle_timeouts_ m) (armed m ∖ {[easy]})
      (expired m ++ [easy]) (completions m) (freed m)
  else m.

Definition run_expired (m : Transfers) : Transfers :=
  match expired m with
  | easy :: rest =>
      handle_read_timeout easy
        (mkTransfers (multi_ m) (callbacks_ m) (headers_ m) (handles_ m) (handle_timeouts_ m) (armed m) rest
           (completions m) (freed m))
  | [] => m
  end.

Inductive TransferStep :=
| MAdd (add_ok : bool) (easy : nat) (headers : option nat) (callback : K) (read_timeout : option Z)
| MSocket (easy : nat)
| MMessages (messages : list (option (nat * Z)))
| MExpire (easy : nat)
| MRunExpired.

Definition transfer_step (m : Transfers) (a : TransferStep) : Transfers :=
  match a with
  | MAdd add_ok easy headers callback read_timeout => add_handle add_ok easy headers callback read_timeout m
  | MSocket easy => reset_read_timeout easy m
  | MMessages messages => check_multi_info messages m
  | MExpire easy => expire easy m
  | MRunExpired => run_expired m
  end.

Implicit Types (m : Transfers) (k : K) (given : list (nat * K)) (lists : list nat) (easy : nat).

(** ** What becomes of a transfer *)

(** The handles that were added, and the header lists that were handed over. *)
Definition added (steps : list TransferStep) : list (nat * K) :=
  omap (λ a, match a with MAdd true easy _ k _ => Some (easy, k) | _ => None end) steps.

Definition handed_over (steps : list TransferStep) : list nat :=
  steps ≫= λ a, match a with MAdd _ _ headers _ _ => option_list headers | _ => [] end.

Definition held (m : Transfers) : list nat := (map_to_list (headers_ m)).*2 ≫= option_list.

(** In flight, or completed: the callbacks held and the ones posted are those added. *)
Record TransfersOk (given : list (nat * K)) (lists : list nat) (m : Transfers) : Prop := {
  to_callbacks : map_to_list (callbacks_ m) ++ (completions m).*1 ≡ₚ given;
  to_headers : freed m ++ held m ≡ₚ lists;
  to_dom : dom (headers_ m) = dom (callbacks_ m);
  to_multi : multi_ m = dom (callbacks_ m);
  to_handles : handles_ m = dom (callbacks_ m);
  to_timeouts : dom (handle_timeouts_ m) ⊆ dom (callbacks_ m);
  to_armed : armed m ⊆ dom (handle_timeouts_ m);
}.

Lemma held_insert m easy h :
  headers_ m !! easy = None →
  (map_to_list (<[easy := h]> (headers_ m))).*2 ≫= option_list ≡ₚ option_list h ++ held m.
Proof. intros Hn. unfold held. by rewrite (map_to_list_insert _ _ _ Hn). Qed.

Lemma held_delete m easy h :
  headers_ m !! easy = Some h → held m ≡ₚ option_list h ++ ((map_to_list (delete easy (headers_ m))).*2 ≫= option_list).
Proof. intros Hs. unfold held. by rewrite <- (map_to_list_delete _ _ _ Hs). Qed.

Lemma free_ok given lists m h : TransfersOk given lists m → TransfersOk given (lists ++ option_list h) (free_list h m).
Proof.
  intros [Hc Hh Hd Hm Hn Ht Ha]. split; cbn; try done. unfold held. cbn. fold (held m).
  rewrite <- Hh, <- !app_assoc. apply Permutation_app_head, Permutation_app_comm.
Qed.

Lemma add_ok_step given lists m (add_ok : bool) easy h k t :
  easy ∉ given.*1 → TransfersOk given lists m →
  TransfersOk (given ++ (if add_ok then [(easy, k)] else [])) (lists ++ option_list h) (add_handle add_ok easy h k t m).
Proof.
  intros Hfresh Hok. destruct add_ok; [|rewrite app_nil_r; by apply free_ok]. destruct Hok as [Hc Hh Hd Hm Hn Ht Ha].
  assert (callbacks_ m !! easy = None) as Hcb.
  { destruct (callbacks_ m !! easy) as [k'|] eqn:E; [|done]. exfalso. apply Hfresh.
    apply elem_of_map_to_list in E. rewrite list_elem_of_fmap. exists (easy, k'). split; [done|]. rewrite <- Hc. set_solver. }
  assert (headers_ m !! easy = None) as Hhd by (apply not_elem_of_dom; rewrite Hd; by apply not_elem_of_dom).
  unfold add_handle. cbn [negb]. split; cbn.
  - rewrite (map_to_list_insert _ _ _ Hcb). cbn [app]. rewrite <- Hc. by rewrite Permutation_cons_append.
  - unfold held. cbn. rewrite (held_insert _ _ _ Hhd), <- Hh, <- !app_assoc. apply Permutation_app_head, Permutation_app_comm.
  - rewrite !dom_insert_L. by f_equal.
  - rewrite !dom_insert_L. by f_equal.
  - rewrite !dom_insert_L. by f_equal.
  - destruct t; rewrite ?dom_insert_L; set_solver.
  - destruct t; rewrite ?dom_insert_L; set_solver.
Qed.

Lemma take_down_ok given lists m easy r :
  TransfersOk given lists m → TransfersOk given lists (take_down easy r m).
Proof.
  intros [Hc Hh Hd Hm Hn Ht Ha].
  assert (is_Some (headers_ m !! easy) ↔ is_Some (callbacks_ m !! easy)) as Hboth by (by rewrite <- !elem_of_dom, Hd).
  split; cbn; rewrite ?dom_delete_L.
  - rewrite fmap_app, app_assoc. rewrite <- Hc. destruct (callbacks_ m !! easy) as [k|] eqn:E; cbn.
    + rewrite <- (map_to_list_delete (callbacks_ m) easy k E). rewrite <- Permutation_cons_append. done.
    + by rewrite app_nil_r, delete_id.
  - rewrite <- Hh. destruct (headers_ m !! easy) as [h|] eqn:E.
    + rewrite (held_delete _ _ _ E), <- app_assoc. done.
    + unfold held. cbn. by rewrite delete_id, app_nil_r.
  - by rewrite Hd.
  - by rewrite Hm.
  - by rewrite Hn.
  - set_solver.
  - destruct (handle_timeouts_ m !! easy) as [t|] eqn:E; [set_solver|].
    apply not_elem_of_dom in E. set_solver.
Qed.

Lemma same_ok given lists m m' :
  callbacks_ m' = callbacks_ m → headers_ m' = headers_ m → multi_ m' = multi_ m → handles_ m' = handles_ m →
  handle_timeouts_ m' = handle_timeouts_ m → completions m' = completions m → freed m' = freed m →
  armed m' ⊆ dom (handle_timeouts_ m) →
  TransfersOk given lists m → TransfersOk given lists m'.
Proof. intros E1 E2 E3 E4 E5 E6 E7 Ha [H1 H2 H3 H4 H5 H6 H7]. unfold held in *. split; unfold held; rewrite ?E1, ?E2, ?E3, ?E4, ?E5, ?E6, ?E7; done. Qed.

Lemma check_multi_info_ok given lists messages m :
  TransfersOk given lists m → TransfersOk given lists (check_multi_info messages m).
Proof. revert m. induction messages as [|[[easy r]|] rest IH]; intros m Hm; cbn; auto using take_down_ok. Qed.

Lemma transfer_step_ok given lists m a :
  NoDup ((given ++ added [a]).*1) → TransfersOk given lists m →
  TransfersOk (given ++ added [a]) (lists ++ handed_over [a]) (transfer_step m a).
Proof.
  intros Hnd Hm. destruct a as [add_ok easy h k t|easy|messages|easy|]; cbn in Hnd |- *; rewrite ?app_nil_r in *.
  - destruct add_ok.
    + apply (add_ok_step given lists m true); [|done]. rewrite fmap_app in Hnd. apply NoDup_app in Hnd as (_ & Hnd & _).
      intros Hin. apply Hnd in Hin. set_solver.
    + rewrite app_nil_r. by apply free_ok.
  - unfold reset_read_timeout. destruct (handle_timeouts_ m !! easy) eqn:E; [|done].
    apply (same_ok _ _ m); try done. cbn. pose proof (to_armed _ _ _ Hm). apply elem_of_dom_2 in E. set_solver.
  - by apply check_multi_info_ok.
  - unfold expire. case_decide; [|done]. apply (same_ok _ _ m); try done. cbn. pose proof (to_armed _ _ _ Hm). set_solver.
  - unfold run_expired. destruct (expired m) as [|easy rest]; [done|]. unfold handle_read_timeout. cbn.
    destruct (callbacks_ m !! easy) eqn:E; [apply take_down_ok|]; apply (same_ok _ _ m); try done; apply (to_armed _ _ _ Hm).
Qed.

Lemma transfer_steps_ok given lists steps m :
  NoDup ((given ++ added steps).*1) → TransfersOk given lists m →
  TransfersOk (given ++ added steps) (lists ++ handed_over steps) (foldl transfer_step m steps).
Proof.
  revert given lists m. induction steps as [|a steps IH]; intros given lists m Hnd Hm; [cbn; by rewrite !app_nil_r|].
  assert (added (a :: steps) = added [a] ++ added steps) as Ha by (unfold added; cbn; by repeat case_match).
  assert (handed_over (a :: steps) = handed_over [a] ++ handed_over steps) as Hh by (unfold handed_over; cbn; by rewrite app_nil_r).
  rewrite Ha in Hnd |- *. rewrite Hh, !app_assoc. rewrite app_assoc in Hnd. cbn [foldl]. apply IH; [done|].
  apply transfer_step_ok; [|done]. rewrite fmap_app in Hnd. by apply NoDup_app in Hnd as (? & _).
Qed.

Lemma lists_by_key (h : gmap nat (option nat)) (l : list (nat * option nat)) :
  (∀ e x, (e, x) ∈ l → h !! e = Some x) →
  (l.*1 ≫= λ e, option_list (default None (h !! e))) = l.*2 ≫= option_list.
Proof.
  induction l as [|[e x] l IH]; intros Hl; [done|]. cbn. rewrite (Hl e x) by set_solver. cbn. f_equal.
  apply IH. intros; apply Hl; set_solver.
Qed.

Lemma key_in_dom {A} (h : gmap nat A) e : e ∈ (map_to_list h).*1 ↔ e ∈ dom h.
Proof.
  rewrite list_elem_of_fmap, elem_of_dom. split.
  - intros ([e' x] & -> & Hin). apply elem_of_map_to_list in Hin. by eexists.
  - intros [x Hx]. exists (e, x). by rewrite elem_of_map_to_list.
Qed.

Lemma destroy_frees given lists m : TransfersOk given lists m → freed (destroy m) ≡ₚ lists.
Proof.
  intros [Hc Hh Hd Hm Hn Ht Ha].
  assert (∀ keys m', headers_ m' = headers_ m →
    freed (foldl (λ m easy, free_list (default None (headers_ m !! easy)) m) m' keys) =
    freed m' ++ (keys ≫= λ e, option_list (default None (headers_ m !! e)))) as Hfold.
  { induction keys as [|e keys IH]; intros m' E; cbn; [by rewrite app_nil_r|].
    rewrite IH by done. cbn. by rewrite E, app_assoc. }
  unfold destroy. rewrite Hfold by done. rewrite <- Hh. apply Permutation_app_head. unfold held.
  rewrite <- (lists_by_key (headers_ m)) by (intros e x; apply elem_of_map_to_list).
  apply bind_Permutation, NoDup_Permutation; [apply NoDup_fst_map_to_list..|].
  intros e. by rewrite !key_in_dom, Hd.
Qed.

(** A transfer that was added is in flight or has had its callback posted, and exactly once: with
    what libcurl reports of it, or with a read timeout, whichever came first, whatever messages
    come afterwards.  What is in flight is in the multi handle.  Every header list handed over,
    also for a handle that libcurl refused, has been freed exactly once when the manager is
    destroyed. *)
Theorem transfers_complete_once (steps : list TransferStep) :
  NoDup (added steps).*1 →
  let m := foldl transfer_step new_transfers steps in
  map_to_list (callbacks_ m) ++ (completions m).*1 ≡ₚ added steps ∧ multi_ m = dom (callbacks_ m) ∧
  freed (destroy m) ≡ₚ handed_over steps.
Proof.
  intros Hnd m. assert (TransfersOk (added steps) (handed_over steps) m) as Hm.
  { apply (transfer_steps_ok [] [] steps new_transfers); [done|]. by split; cbn; rewrite ?dom_empty_L. }
  split_and!; [apply Hm|apply Hm|by eapply destroy_frees].
Qed.

End Transfers.

(** ** Sockets *)

Inductive Direction := wait_read | wait_write.

#[global] Instance Direction_eq_dec : EqDecision Direction.
Proof. solve_decision. Defined.

Definition CURL_POLL_REMOVE : Z := 4.

(** [CURL_POLL_IN] is bit 0 of an action, [CURL_POLL_OUT] bit 1. *)
Definition polls (d : Direction) (action : Z) : bool :=
  match d with wait_read => Z.testbit action 0 | wait_write => Z.testbit action 1 end.

(** [SocketInfo]: [assigned] when the ASIO handle is not null; a handler is the name of the
    function that the shared pointer holds. *)
Record SocketInfo := mkSocket {
  assigned : bool;
  action : Z;
  read_handler : option nat;
  write_handler : option nat;
}.

Definition handler_of (d : Direction) (i : SocketInfo) : option nat :=
  match d with wait_read => read_handler i | wait_write => write_handler i end.

(** [waits] are the outstanding [async_wait]s, [closed] the descriptors that destroying an ASIO
    socket has closed. *)
Record Sockets := mkSockets {
  sockets_ : gmap Z SocketInfo;
  waits : list (Z * Direction * nat);
  next_handler : nat;
  closed : list Z;
}.

Definition new_sockets : Sockets := mkSockets ∅ [] 0 [].

(** One direction of [start_socket_monitor]: a new handler, called at once, when there is none or
    the action changed. *)
Definition monitor (sockfd : Z) (d : Direction) (wanted action_changed : bool) (current : option nat) (s : Sockets) :
    option nat * Sockets :=
  if wanted then
    if negb (bool_decide (is_Some current)) || action_changed then
      (Some (next_handler s),
       mkSockets (sockets_ s) (waits s ++ [(sockfd, d, next_handler s)]) (S (next_handler s)) (closed s))
    else (current, s)
  else (None, s).

Definition set_socket (sockfd : Z) (i : SocketInfo) (s : Sockets) : Sockets :=
  mkSockets (<[sockfd := i]> (sockets_ s)) (waits s) (next_handler s) (closed s).

(** [assign_ok]: the descriptor could be assigned to an ASIO socket. *)
Definition start_socket_monitor (assign_ok : bool) (sockfd act : Z) (i : SocketInfo) (s : Sockets) : Sockets :=
  if negb (assigned i) && negb assign_ok then set_socket sockfd i s
  else
    let action_changed := negb (action i =? act) in
    let '(r, s) := monitor sockfd wait_read (polls wait_read act) action_changed (read_handler i) s in
    let '(w, s) := monitor sockfd wait_write (polls wait_write act) action_changed (write_handler i) s in
    set_socket sockfd (mkSocket true act r w) s.

(** Erasing a socket destroys its ASIO handle: its waits end with an error, on which their
    handlers do nothing, and the descriptor is closed. *)
Definition remove_socket (sockfd : Z) (s : Sockets) : Sockets :=
  match sockets_ s !! sockfd with
  | Some i =>
      mkSockets (delete sockfd (sockets_ s)) (filter (λ w, w.1.1 ≠ sockfd) (waits s)) (next_handler s)
        (closed s ++ if assigned i then [sockfd] else [])
  | None => s
  end.

(** A call of [socket_callback], as to the sockets. *)
Definition socket_callback (s : Sockets) (call : bool * Z * Z) : Sockets :=
  let '(assign_ok, sockfd, what) := call in
  if what =? CURL_POLL_REMOVE then remove_socket sockfd s
  else
    let i := default (mkSocket false 0 None None) (sockets_ s !! sockfd) in
    start_socket_monitor assign_ok sockfd what i s.

(** The handler is still held by its socket. *)
Definition handler_alive (sockfd : Z) (d : Direction) (h : nat) (s : Sockets) : bool :=
  match sockets_ s !! sockfd with
  | Some i => bool_decide (handler_of d i = Some h)
  | None => false
  end.

(** A wait ends without an error: libcurl acts on the socket, making [calls] of the socket
    callback, and the handler waits again if it is still there. *)
Definition wait_over (i : nat) (calls : list (bool * Z * Z)) (s : Sockets) : Sockets :=
  match waits s !! i with
  | Some (sockfd, d, h) =>
      let s := mkSockets (sockets_ s) (delete i (waits s)) (next_handler s) (closed s) in
      let s := foldl socket_callback s calls in
      if handler_alive sockfd d h s
      then mkSockets (sockets_ s) (waits s ++ [(sockfd, d, h)]) (next_handler s) (closed s)
      else s
  | None => s
  end.

Inductive SocketStep := SCallback (call : bool * Z * Z) | SWaitOver (i : nat) (calls : list (bool * Z * Z)).

Definition socket_step (s : Sockets) (a : SocketStep) : Sockets :=
  match a with
  | SCallback call => socket_callback s call
  | SWaitOver i calls => wait_over i calls s
  end.

(** ** Monitoring *)

(** Each handler waits exactly once, apart from the one that is [running]; a socket with an ASIO
    handle has a handler for each direction that libcurl polls, and no other. *)
Record Monitored (running : option (Z * Direction * nat)) (s : Sockets) : Prop := {
  mo_wanted fd i d : sockets_ s !! fd = Some i → is_Some (handler_of d i) ↔ assigned i = true ∧ polls d (action i) = true;
  mo_waits fd i d h :
    sockets_ s !! fd = Some i → handler_of d i = Some h →
    length (filter (λ w, w = (fd, d, h)) (waits s)) = (if decide (running = Some (fd, d, h)) then 0 else 1)%nat;
  mo_old fd i d h : sockets_ s !! fd = Some i → handler_of d i = Some h → (h < next_handler s)%nat;
  mo_waits_old w : w ∈ waits s → (w.2 < next_handler s)%nat;
  mo_running w : running = Some w → (w.2 < next_handler s)%nat;
}.

Definition wait_count (w : Z * Direction * nat) (l : list (Z * Direction * nat)) : nat := length (filter (λ v, v = w) l).

Lemma wait_count_app w a b : wait_count w (a ++ b) = (wait_count w a + wait_count w b)%nat.
Proof. unfold wait_count. by rewrite filter_app, length_app. Qed.

Lemma wait_count_none w l : w ∉ l → wait_count w l = 0%nat.
Proof.
  intros Hw. unfold wait_count. induction l as [|v l IH]; [done|]. rewrite filter_cons_False by set_solver. apply IH. set_solver.
Qed.

(** What becomes of the handler of a direction: it ends, it is kept, or there is a new one. *)
Inductive handler_change (s : Sockets) (fd : Z) (i i' : SocketInfo) (added : list (Z * Direction * nat)) (d : Direction) : Prop :=
| handler_ends : polls d (action i') = false → handler_of d i' = None → handler_change s fd i i' added d
| handler_kept h :
    polls d (action i') = true → sockets_ s !! fd = Some i → handler_of d i = Some h → handler_of d i' = Some h →
    handler_change s fd i i' added d
| handler_new h :
    polls d (action i') = true → handler_of d i' = Some h → (next_handler s ≤ h)%nat → wait_count (fd, d, h) added = 1%nat →
    handler_change s fd i i' added d.

Lemma monitored_change running s s' fd i i' added :
  Monitored running s → sockets_ s' = <[fd := i']> (sockets_ s) → waits s' = waits s ++ added → assigned i' = true →
  (next_handler s ≤ next_handler s')%nat →
  Forall (λ w, w.1.1 = fd ∧ (next_handler s ≤ w.2 < next_handler s')%nat) added →
  (∀ d, handler_change s fd i i' added d) → Monitored running s'.
Proof.
  intros [Hwant Hwait Hold Hwold Hrun] Es Ew Ha Hn Hadd Hd.
  assert (∀ d h, (fd, d, h) ∈ added → (next_handler s ≤ h < next_handler s')%nat) as Hin.
  { intros d h Hi. rewrite Forall_forall in Hadd. by apply Hadd in Hi as [_ ?]. }
  split.
  - intros fd' j d. rewrite Es. destruct (decide (fd' = fd)) as [->|Hne].
    + rewrite lookup_insert_eq. intros [= <-]. destruct (Hd d) as [Hp ->|h Hp _ _ ->|h Hp -> _ _]; rewrite Ha, Hp.
      * split; [by intros [? ?]|by intros [_ ?]].
      * by split.
      * by split.
    + rewrite lookup_insert_ne by done. apply Hwant.
  - intros fd' j d h. rewrite Es, Ew. fold (wait_count (fd', d, h) (waits s ++ added)). rewrite wait_count_app.
    destruct (decide (fd' = fd)) as [->|Hne].
    + rewrite lookup_insert_eq. intros [= <-] Hh. destruct (Hd d) as [Hp E|h' Hp Hs E E'|h' Hp E Hge Hc]; simplify_eq.
      * rewrite <- (Hwait _ _ _ _ Hs E). unfold wait_count at 1. rewrite (wait_count_none _ added); [lia|].
        intros Hi. apply Hin in Hi. pose proof (Hold _ _ _ _ Hs E). lia.
      * rewrite Hc, (wait_count_none _ (waits s)) by (intros Hi; apply Hwold in Hi; cbn in Hi; lia).
        rewrite decide_False; [done|]. intros ->. specialize (Hrun _ eq_refl). cbn in Hrun. lia.
    + rewrite lookup_insert_ne by done. intros Hs Hh. rewrite <- (Hwait _ _ _ _ Hs Hh). unfold wait_count at 1.
      rewrite (wait_count_none _ added); [lia|]. intros Hi. rewrite Forall_forall in Hadd. by apply Hadd in Hi as [? _].
  - intros fd' j d h. rewrite Es. destruct (decide (fd' = fd)) as [->|Hne].
    + rewrite lookup_insert_eq. intros [= <-] Hh. destruct (Hd d) as [Hp E|h' Hp Hs E E'|h' Hp E Hge Hc]; simplify_eq.
      * pose proof (Hold _ _ _ _ Hs E). lia.
      * destruct (decide ((fd, d, h) ∈ added)) as [Hi|Hi]; [apply Hin in Hi; lia|].
        by rewrite (wait_count_none _ _ Hi) in Hc.
    + rewrite lookup_insert_ne by done. intros Hs Hh. pose proof (Hold _ _ _ _ Hs Hh). lia.
  - intros w. rewrite Ew, elem_of_app. intros [Hi|Hi]; [apply Hwold in Hi; lia|].
    rewrite Forall_forall in Hadd. apply Hadd in Hi as [_ ?]. lia.
  - intros w Hw. specialize (Hrun w Hw). lia.
Qed.

Lemma monitor_cases fd d wanted changed cur s :
  let r := monitor fd d wanted changed cur s in
  (wanted = false ∧ r = (None, s)) ∨
  (∃ h, wanted = true ∧ changed = false ∧ cur = Some h ∧ r = (cur, s)) ∨
  (wanted = true ∧ r = (Some (next_handler s),
     mkSockets (sockets_ s) (waits s ++ [(fd, d, next_handler s)]) (S (next_handler s)) (closed s))).
Proof.
  unfold monitor. destruct wanted; [|by left]. destruct cur as [h|]; [|by right; right].
  rewrite bool_decide_eq_true_2 by done. destruct changed; cbn; [by right; right|right; left; by exists h].
Qed.

Lemma empty_socket_monitored running s fd : sockets_ s !! fd = None → Monitored running s →
  Monitored running (set_socket fd (mkSocket false 0 None None) s).
Proof.
  intros Hn [Hwant Hwait Hold Hwold Hrun]. split; cbn; try done.
  - intros fd' i d. destruct (decide (fd' = fd)) as [->|?]; [|rewrite lookup_insert_ne by done; apply Hwant].
    rewrite lookup_insert_eq. intros [= <-]. destruct d; (split; [by intros [? ?]|by intros [? ?]]).
  - intros fd' i d h. destruct (decide (fd' = fd)) as [->|?]; [|rewrite lookup_insert_ne by done; apply Hwait].
    rewrite lookup_insert_eq. intros [= <-]. by destruct d.
  - intros fd' i d h. destruct (decide (fd' = fd)) as [->|?]; [|rewrite lookup_insert_ne by done; apply Hold].
    rewrite lookup_insert_eq. intros [= <-]. by destruct d.
Qed.

Lemma start_monitor_ok running s fd act i assign_ok :
  Monitored running s → (sockets_ s !! fd = Some i ∨ sockets_ s !! fd = None ∧ i = mkSocket false 0 None None) →
  Monitored running (start_socket_monitor assign_ok fd act i s).
Proof.
  intros Hm Hi. unfold start_socket_monitor. destruct (negb (assigned i) && negb assign_ok).
  { destruct Hi as [Hi|[Hn ->]]; [|by apply empty_socket_monitored].
    replace (set_socket fd i s) with s; [done|]. unfold set_socket. rewrite insert_id by done. by destruct s. }
  assert (∀ d h, handler_of d i = Some h → sockets_ s !! fd = Some i) as Hcur.
  { intros d h Hh. destruct Hi as [Hi|[_ ->]]; [done|by destruct d]. }
  destruct (monitor_cases fd wait_read (polls wait_read act) (negb (action i =? act)) (read_handler i) s)
    as [[Hr ->]|[(h & Hr & _ & Eh & ->)|[Hr ->]]]; cbv beta iota.
  all: match goal with |- context [monitor ?f wait_write ?w ?ch ?cu ?s1] =>
    destruct (monitor_cases f wait_write w ch cu s1)
      as [[Hw ->]|[(h' & Hw & _ & Eh' & ->)|[Hw ->]]]; cbv beta iota end.
  all: match goal with Hm : Monitored ?r ?s |- Monitored _ (set_socket ?f _ _) =>
    match goal with Hi : sockets_ s !! f = Some ?i ∨ _ |- _ => eapply (monitored_change r s _ f i) end end;
    [eassumption|reflexivity|cbn; rewrite <- ?app_assoc; try reflexivity; by rewrite app_nil_r|done|cbn; lia| |].
  all: try (repeat constructor; cbn; lia).
  all: intros [|]; cbn [app next_handler];
    first [by apply handler_ends|
           eapply handler_kept; [eassumption| |eassumption|eassumption];
             first [eapply (Hcur wait_read); eassumption|eapply (Hcur wait_write); eassumption]|
           eapply handler_new; [done|done|cbn; lia|
             unfold wait_count; repeat (rewrite filter_cons; case_decide); simplify_eq; done]].
Qed.

Lemma remove_ok running s fd : Monitored running s → Monitored running (remove_socket fd s).
Proof.
  intros [Hwant Hwait Hold Hwold Hrun]. unfold remove_socket. destruct (sockets_ s !! fd) as [i0|]; [|done].
  split; cbn; [| | | |done].
  - intros fd' i d [Hne Hs]%lookup_delete_Some. by eapply Hwant.
  - intros fd' i d h [Hne Hs]%lookup_delete_Some Hh. rewrite <- (Hwait _ _ _ _ Hs Hh).
    f_equal. rewrite list_filter_filter. apply list_filter_iff. intros w. split; [tauto|]. intros ->. done.
  - intros fd' i d h [Hne Hs]%lookup_delete_Some. by eapply Hold.
  - intros w [_ Hw]%list_elem_of_filter. by apply Hwold.
Qed.

Lemma callback_ok running s call : Monitored running s → Monitored running (socket_callback s call).
Proof.
  intros Hm. destruct call as [[assign_ok fd] what]. unfold socket_callback.
  destruct (what =? CURL_POLL_REMOVE); [by apply remove_ok|]. apply start_monitor_ok; [done|].
  destruct (sockets_ s !! fd); [by left|by right].
Qed.

Lemma callbacks_ok running calls s : Monitored running s → Monitored running (foldl socket_callback s calls).
Proof. revert s. induction calls as [|call calls IH]; intros s Hm; [done|]. apply IH. by apply callback_ok. Qed.

Lemma wait_count_delete i w v l :
  l !! i = Some w → wait_count v l = ((if decide (w = v) then 1 else 0) + wait_count v (delete i l))%nat.
Proof.
  intros Hi. unfold wait_count. rewrite (delete_Permutation l i w Hi) at 1. rewrite filter_cons. by case_decide.
Qed.

Lemma wait_over_ok i calls s : Monitored None s → Monitored None (wait_over i calls s).
Proof.
  intros Hm. unfold wait_over. destruct (waits s !! i) as [[[fd d] h]|] eqn:Hi; [|done].
  set (s1 := mkSockets _ _ _ _).
  assert (Monitored (Some (fd, d, h)) s1) as Hm1.
  { destruct Hm as [Hwant Hwait Hold Hwold Hrun]. split; cbn; [done| |done| |].
    - intros fd' j d' h' Hs Hh. specialize (Hwait _ _ _ _ Hs Hh). rewrite decide_False in Hwait by done.
      fold (wait_count (fd', d', h') (waits s)) in Hwait. rewrite (wait_count_delete _ _ _ _ Hi) in Hwait.
      fold (wait_count (fd', d', h') (delete i (waits s))).
      destruct (decide ((fd, d, h) = (fd', d', h'))) as [E|E]; [rewrite decide_True by congruence|rewrite decide_False by congruence]; lia.
    - intros w Hw. apply Hwold. rewrite (delete_Permutation _ _ _ Hi). set_solver.
    - intros w [= <-]. apply (Hwold (fd, d, h)). by eapply list_elem_of_lookup_2. }
  apply (callbacks_ok _ calls) in Hm1. set (s2 := foldl socket_callback s1 calls) in *. clearbody s2. clear s1.
  destruct Hm1 as [Hwant Hwait Hold Hwold Hrun]. unfold handler_alive.
  destruct (sockets_ s2 !! fd) as [j|] eqn:Hj; [case_bool_decide as Hh|].
  - split; cbn; [done| |done| |done].
    + intros fd' j' d' h' Hs Hh'. specialize (Hwait _ _ _ _ Hs Hh').
      fold (wait_count (fd', d', h') (waits s2)) in Hwait. fold (wait_count (fd', d', h') (waits s2 ++ [(fd, d, h)])).
      rewrite decide_False by done. rewrite wait_count_app, Hwait. unfold wait_count. rewrite filter_cons, filter_nil.
      destruct (decide (Some (fd, d, h) = Some (fd', d', h'))), (decide ((fd, d, h) = (fd', d', h'))); cbn; congruence || lia.
    + intros w. rewrite elem_of_app. intros [Hw|Hw]; [by apply Hwold|]. apply list_elem_of_singleton in Hw as ->. by apply Hrun.
  - split; cbn; [done| |done|done|done]. intros fd' j' d' h' Hs Hh'. rewrite (Hwait _ _ _ _ Hs Hh').
    rewrite decide_False; [done|]. intros [= -> -> ->]. apply Hh. congruence.
  - split; cbn; [done| |done|done|done]. intros fd' j' d' h' Hs Hh'. rewrite (Hwait _ _ _ _ Hs Hh').
    rewrite decide_False; [done|]. intros [= -> -> ->]. congruence.
Qed.

(** A socket that libcurl polls, and that could be given to ASIO, is always waited for in each
    direction that libcurl polls, by exactly one wait, whatever libcurl asks for while a wait is
    over. *)
Theorem sockets_monitored (steps : list SocketStep) :
  let s := foldl socket_step new_sockets steps in
  ∀ fd i d, sockets_ s !! fd = Some i → assigned i = true → polls d (action i) = true →
  ∃ h, handler_of d i = Some h ∧ wait_count (fd, d, h) (waits s) = 1%nat.
Proof.
  intros s. assert (Monitored None s) as [Hwant Hwait _ _ _].
  { unfold s. assert (Monitored None new_sockets) as Hm by (split; cbn; intros; try done; set_solver).
    revert Hm. generalize new_sockets. induction steps as [|a steps IH]; intros s0 Hm; [done|]. apply IH.
    destruct a; [by apply callback_ok|by apply wait_over_ok]. }
  intros fd i d Hs Ha Hp. destruct (proj2 (Hwant fd i d Hs) (conj Ha Hp)) as [h Hh]. exists h. split; [done|].
  by rewrite (Hwait _ _ _ _ Hs Hh : wait_count _ _ = _).
Qed.

(** A socket that libcurl no longer polls, which it may keep for another request, is closed. *)
Example unpolled_socket_closed :
  closed (foldl socket_step new_sockets [SCallback (true, 7, 1); SCallback (true, 7, CURL_POLL_REMOVE)]) = [7].
Proof. reflexivity. Qed.
