(* ===== verification/CurlClient.v ===== *)
(** * The event stream client on libcurl

    libs/server-sent-events/src/curl_client.cpp, curl_client.hpp: the alternative to the client of
    [SseClient], and the callbacks that libcurl calls during a transfer.

    The client lives on one strand, whose posted tasks run in order; its transfers are those of
    [CurlMulti].  What libcurl does (whether a call succeeds, when it calls back and with what, how
    a transfer ends) are arguments of the steps.  Log messages are left out. *)

From S2P Require Import Prelude Doubles Sse Backoff Externals ReferenceExternals Fdv2Sources SseClient DatabaseSources CurlMulti.
From Stdlib Require Import SpecFloat.

(** Boost.Beast's field names and libcurl's messages. *)
Class CurlTexts := { field_name_ok : string → bool; curl_easy_strerror : Z → string }.

Definition CURLE_OK : Z := 0.
Definition CURLE_ABORTED_BY_CALLBACK : Z := 42.

(** [http::response_header<>{}] *)
Definition no_response : Response := mkResponse 200 [].

(** ** State *)

Record RequestContext := mkContext {
  ctx_shutting_down : bool;
  curl_socket : option Z;
  has_callbacks : bool;
  parser_reader : Reader;
  last_event_id : option text;
  last_progress_time : Z;
  last_download_amount : Z;
  current_response : Response;
  reading_headers : bool;
  ctx_req : Request;
  ctx_url : string;
  connect_timeout : option Z;
  read_timeout : option Z;
  write_timeout : option Z;
  custom_ca_file : option string;
  proxy_url : option string;
  skip_verify_peer : bool;
}.

Definition with_headers (r : Response) (reading : bool) (x : RequestContext) : RequestContext :=
  mkContext (ctx_shutting_down x) (curl_socket x) (has_callbacks x) (parser_reader x) (last_event_id x) (last_progress_time x)
    (last_download_amount x) r reading (ctx_req x) (ctx_url x) (connect_timeout x) (read_timeout x) (write_timeout x)
    (custom_ca_file x) (proxy_url x) (skip_verify_peer x).

Definition with_reader (r : Reader) (id : option text) (x : RequestContext) : RequestContext :=
  mkContext (ctx_shutting_down x) (curl_socket x) (has_callbacks x) r id (last_progress_time x)
    (last_download_amount x) (current_response x) (reading_headers x) (ctx_req x) (ctx_url x) (connect_timeout x)
    (read_timeout x) (write_timeout x) (custom_ca_file x) (proxy_url x) (skip_verify_peer x).

Definition with_progress (time amount : Z) (x : RequestContext) : RequestContext :=
  mkContext (ctx_shutting_down x) (curl_socket x) (has_callbacks x) (parser_reader x) (last_event_id x) time
    amount (current_response x) (reading_headers x) (ctx_req x) (ctx_url x) (connect_timeout x)
    (read_timeout x) (write_timeout x) (custom_ca_file x) (proxy_url x) (skip_verify_peer x).

Definition with_request (r : Request) (u : string) (x : RequestContext) : RequestContext :=
  mkContext (ctx_shutting_down x) (curl_socket x) (has_callbacks x) (parser_reader x) (last_event_id x) (last_progress_time x)
    (last_download_amount x) (current_response x) (reading_headers x) r u (connect_timeout x)
    (read_timeout x) (write_timeout x) (custom_ca_file x) (proxy_url x) (skip_verify_peer x).

Definition with_socket (shutting_down : bool) (fd : option Z) (x : RequestContext) : RequestContext :=
  mkContext shutting_down fd (has_callbacks x) (parser_reader x) (last_event_id x) (last_progress_time x)
    (last_download_amount x) (current_response x) (reading_headers x) (ctx_req x) (ctx_url x) (connect_timeout x)
    (read_timeout x) (write_timeout x) (custom_ca_file x) (proxy_url x) (skip_verify_peer x).

Definition set_callbacks (x : RequestContext) : RequestContext :=
  mkContext (ctx_shutting_down x) (curl_socket x) true (parser_reader x) (last_event_id x) (last_progress_time x)
    (last_download_amount x) (current_response x) (reading_headers x) (ctx_req x) (ctx_url x) (connect_timeout x)
    (read_timeout x) (write_timeout x) (custom_ca_file x) (proxy_url x) (skip_verify_peer x).

(** What is posted to the executor. *)
Inductive Task :=
| TRun
| TRestart (reason : string)
| TShutdown
| TBackoff (reason : string)
| TSucceed
| TEvent (e : SseEvent)
| TError (e : SseError)
| TResponse (r : Response)
| TTimer (aborted : bool)
| TCompletion (easy : nat) (r : Result) (response_code : Z).

Inductive CurlOption :=
| OUrl (u : string) | OHttpGet | OPost | OCustomRequest (m : string) | OPostFields (body : string) | OPostFieldSize (n : Z)
| OHttpHeader (headers : list string) | OConnectTimeoutMs (t : Z) | OTimeoutMs (t : Z) | OXferInfoFunction | OXferInfoData | ONoProgress
| OSslVerifyPeer (v : Z) | OSslVerifyHost (v : Z) | OCaInfo (file : string) | OProxy (u : string)
| OWriteFunction | OWriteData | OHeaderFunction | OHeaderData | OOpenSocketFunction | OOpenSocketData
| OFollowLocation | OMaxRedirs (n : Z).

(** What the client does to the outside; [XHeaders] is the allocation of a header list. *)
Inductive CurlEffect :=
| XHeaders (name : nat)
| XTransfer (easy : nat) (options : list CurlOption)
| XClose (fd : Z)
| XEvent (e : SseEvent)
| XError (e : SseError)
| XResponse (r : Response)
| XDelay (reason : string) (delay : option Z)
| XShutdown.

Record CurlClient := mkCurl {
  request_context_ : RequestContext;
  cc_host : string;
  cc_port : string;
  use_https_ : bool;
  cc_backoff : Backoff;
  timer_armed : bool;
  multi_manager_ : Transfers (K := unit);
  created : nat;
  tasks : list Task;
  curl_effects : list CurlEffect;
}.

Definition with_context (x : RequestContext) (c : CurlClient) : CurlClient :=
  mkCurl x (cc_host c) (cc_port c) (use_https_ c) (cc_backoff c) (timer_armed c) (multi_manager_ c) (created c) (tasks c) (curl_effects c).

Definition post_task (ts : list Task) (c : CurlClient) : CurlClient :=
  mkCurl (request_context_ c) (cc_host c) (cc_port c) (use_https_ c) (cc_backoff c) (timer_armed c) (multi_manager_ c) (created c)
    (tasks c ++ ts) (curl_effects c).

Definition effect (es : list CurlEffect) (c : CurlClient) : CurlClient :=
  mkCurl (request_context_ c) (cc_host c) (cc_port c) (use_https_ c) (cc_backoff c) (timer_armed c) (multi_manager_ c) (created c)
    (tasks c) (curl_effects c ++ es).

Definition with_timer (b : Backoff) (armed : bool) (c : CurlClient) : CurlClient :=
  mkCurl (request_context_ c) (cc_host c) (cc_port c) (use_https_ c) b armed (multi_manager_ c) (created c) (tasks c) (curl_effects c).

(** A step of the manager; the callbacks it posts are tasks of the same executor. *)
Definition with_manager (response_code : Z) (f : Transfers (K := unit) → Transfers (K := unit)) (c : CurlClient) : CurlClient :=
  let m := f (multi_manager_ c) in
  let posted := drop (length (completions (multi_manager_ c))) (completions m) in
  mkCurl (request_context_ c) (cc_host c) (cc_port c) (use_https_ c) (cc_backoff c) (timer_armed c) m (created c)
    (tasks c ++ ((λ p, TCompletion p.1.1 p.2 response_code) <$> posted)) (curl_effects c).

Definition next_created (c : CurlClient) : CurlClient :=
  mkCurl (request_context_ c) (cc_host c) (cc_port c) (use_https_ c) (cc_backoff c) (timer_armed c) (multi_manager_ c) (S (created c))
    (tasks c) (curl_effects c).

Implicit Types (c : CurlClient) (x : RequestContext).

(** A callback of the context: it is not called once shutting down. *)
Definition context_post (t : list Task) c : CurlClient :=
  if ctx_shutting_down (request_context_ c) then c
  else if has_callbacks (request_context_ c) then post_task t c
  else c.

Definition close_socket c : list CurlEffect :=
  match curl_socket (request_context_ c) with Some fd => [XClose fd] | None => [] end.

Definition abort_transfer c : CurlClient :=
  if ctx_shutting_down (request_context_ c) then c
  else effect (close_socket c) (with_context (with_socket false None (request_context_ c)) c).

Definition context_shutdown c : CurlClient :=
  effect (close_socket c) (with_context (with_socket true (curl_socket (request_context_ c)) (request_context_ c)) c).

(** ** Starting a transfer *)

Definition build_url (host port : string) (use_https : bool) (req : Request) : string :=
  (if use_https then "https" else "http") +:+ "://" +:+ host +:+
  (if negb (str_eqb port "https") && negb (str_eqb port "http") then ":" +:+ port else EmptyString) +:+ rq_target req.

Inductive SetupStep := SetOpt (o : CurlOption) | NoteProgress.

Definition setup_steps x : list SetupStep :=
  [SetOpt (OUrl (ctx_url x));
   SetOpt (match rq_method (ctx_req x) with v_get => OHttpGet | v_post => OPost | v_report => OCustomRequest "REPORT" | _ => OHttpGet end)] ++
  (if is_empty (rq_body (ctx_req x)) then []
   else [SetOpt (OPostFields (rq_body (ctx_req x))); SetOpt (OPostFieldSize (Z.of_nat (length (chars (rq_body (ctx_req x))))))]) ++
  (match rq_fields (ctx_req x) with [] => [] | fields => [SetOpt (OHttpHeader ((λ f, f.1 +:+ ": " +:+ f.2) <$> fields))] end) ++
  (match connect_timeout x with Some t => [SetOpt (OConnectTimeoutMs t)] | None => [] end) ++
  (match read_timeout x with
   | Some _ => [NoteProgress; SetOpt OXferInfoFunction; SetOpt OXferInfoData; SetOpt ONoProgress]
   | None => []
   end) ++
  (if skip_verify_peer x then [SetOpt (OSslVerifyPeer 0); SetOpt (OSslVerifyHost 0)]
   else [SetOpt (OSslVerifyPeer 1); SetOpt (OSslVerifyHost 2)] ++
        match custom_ca_file x with Some file => [SetOpt (OCaInfo file)] | None => [] end) ++
  (match proxy_url x with Some u => [SetOpt (OProxy u)] | None => [] end) ++
  [SetOpt OWriteFunction; SetOpt OWriteData; SetOpt OHeaderFunction; SetOpt OHeaderData; SetOpt OOpenSocketFunction;
   SetOpt OOpenSocketData; SetOpt OFollowLocation; SetOpt (OMaxRedirs 20)].

(** What libcurl answers to the calls that start a transfer. *)
Record Libcurl := mkLibcurl { init_ok : bool; setopt_ok : CurlOption → bool; multi_add_ok : bool }.

(** The options in order, up to the first that is refused. *)
Fixpoint SetupCurlOptions (lib : Libcurl) (now : Z) (steps : list SetupStep) (done : list CurlOption) x :
    bool * list CurlOption * RequestContext :=
  match steps with
  | [] => (true, done, x)
  | SetOpt o :: rest => if setopt_ok lib o then SetupCurlOptions lib now rest (done ++ [o]) x else (false, done, x)
  | NoteProgress :: rest => SetupCurlOptions lib now rest done (with_progress now 0 x)
  end.

(** The list of headers is allocated before it is set. *)
Definition headers_allocated (x : RequestContext) (done : list CurlOption) : bool :=
  negb (bool_decide (rq_fields (ctx_req x) = [])) && (2 + (if is_empty (rq_body (ctx_req x)) then 0 else 2) <=? length done)%nat.

Definition PerformRequestWithMulti (lib : Libcurl) (now : Z) c : CurlClient :=
  let x := request_context_ c in
  if ctx_shutting_down x then c
  else
    let x := with_headers no_response false (with_reader new_reader (last_event_id x) x) in
    let c := with_context x c in
    if negb (init_ok lib) then context_post [TBackoff "failed to initialize CURL"] c
    else
      let easy := created c in
      let '(ok, options, x) := SetupCurlOptions lib now (setup_steps x) [] x in
      let c := next_created (with_context x c) in
      let c := if headers_allocated x options then effect [XHeaders easy] c else c in
      if negb ok then context_post [TBackoff "failed to set CURL options"] c
      else
        let headers := if headers_allocated x options then Some easy else None in
        let c := if multi_add_ok lib then effect [XTransfer easy options] c else c in
        with_manager 0 (add_handle (multi_add_ok lib) easy headers () (read_timeout x)) c.

(** ** Tasks *)

Section Client.
Context {W : Web} {T : CurlTexts} (connection_hook_ : option (Request → Request)) (response_hook_ : bool).

Definition resume_fields (id : option text) : list (string * string) → list (string * string) :=
  match id with
  | Some (a :: rest) => set_field "last-event-id" (of_chars (a :: rest))
  | _ => erase_field "last-event-id"
  end.

Definition curl_do_run (lib : Libcurl) (now : Z) c : CurlClient :=
  let x := request_context_ c in
  if ctx_shutting_down x then c
  else
    let x :=
      match connection_hook_ with
      | Some hook => let r := hook (ctx_req x) in with_request r (build_url (cc_host c) (cc_port c) (use_https_ c) r) x
      | None => x
      end in
    let x := with_request (prepare_payload (with_fields (resume_fields (last_event_id x)) (ctx_req x))) (ctx_url x) x in
    PerformRequestWithMulti lib now (with_context (set_callbacks x) c).

(** [expires_after] cancels the wait that there may be. *)
Definition curl_async_backoff (reason : string) (now : Z) (draw : double) c : CurlClient :=
  let b := fail now (cc_backoff c) in
  let c := if timer_armed c then post_task [TTimer true] c else c in
  effect [XDelay reason (delay (λ _, draw) b)] (with_timer b true c).

Definition curl_on_backoff (aborted : bool) (lib : Libcurl) (now : Z) c : CurlClient :=
  if aborted || ctx_shutting_down (request_context_ c) then c else curl_do_run lib now c.

Definition curl_do_shutdown c : CurlClient :=
  let c := context_shutdown c in
  let c := if timer_armed c then post_task [TTimer true] (with_timer (cc_backoff c) false c) else c in
  effect [XShutdown] c.

(** The completion callback of a transfer. *)
Definition on_completion (r : Result) (response_code : Z) c : CurlClient :=
  let x := request_context_ c in
  if ctx_shutting_down x then c
  else
    match r with
    | FromReadTimeout =>
        context_post [TBackoff "read timeout - no data received"] (context_post [TError (ReadTimeout (read_timeout x))] c)
    | FromCurlCode res =>
        let class := status_class response_code in
        if class =? 3 then context_post [TError NotRedirectable] c
        else if negb (res =? CURLE_OK) then
          if (res =? CURLE_ABORTED_BY_CALLBACK) && bool_decide (is_Some (read_timeout x)) then
            context_post [TBackoff "aborting read of response body (timeout)"] (context_post [TError (ReadTimeout (read_timeout x))] c)
          else context_post [TBackoff ("CURL error: " +:+ curl_easy_strerror res)] c
        else if class =? 2 then
          if response_code =? 204 then context_post [TError (UnrecoverableClientError 204)] c
          else context_post [TBackoff "connection closed normally"] (context_post [TSucceed] c)
        else if class =? 4 then
          if recoverable_client_error response_code then context_post [TBackoff ("HTTP status " +:+ to_string response_code)] c
          else context_post [TError (UnrecoverableClientError response_code)] c
        else context_post [TBackoff ("HTTP status " +:+ to_string response_code)] c
    end.

Definition run_task (t : Task) (lib : Libcurl) (now : Z) (draw : double) c : CurlClient :=
  match t with
  | TRun => curl_do_run lib now c
  | TRestart _ => abort_transfer c
  | TShutdown => curl_do_shutdown c
  | TBackoff reason => curl_async_backoff reason now draw c
  | TSucceed => with_timer (succeed now (cc_backoff c)) (timer_armed c) c
  | TEvent e => effect [XEvent e] c
  | TError e => effect [XError e] c
  | TResponse r => effect [XResponse r] c
  | TTimer aborted => curl_on_backoff aborted lib now c
  | TCompletion _ r response_code => on_completion r response_code c
  end.

(** ** The callbacks of libcurl *)

(** The last id among events that have one. *)
Definition last_id_of (id : option text) (es : list SseEvent) : option text :=
  foldl (λ id e, match sse_id e with Some i => Some i | None => id end) id es.

Definition WriteCallback (data : text) c : CurlClient :=
  let x := request_context_ c in
  if ctx_shutting_down x then c
  else
    let r := put data (parser_reader x) in
    let es := drop (length (emitted (parser_reader x))) (emitted r) in
    context_post (TEvent <$> es) (with_context (with_reader r (last_id_of (last_event_id x) es) x) c).

Definition is_line_end (a : ascii) : bool := (a =? CR)%char || (a =? LF)%char.

(** [remove_suffix] while the last character is one that [drops]. *)
Fixpoint strip_end (drops : ascii → bool) (l : list ascii) : list ascii :=
  match l with
  | [] => []
  | a :: l' => match strip_end drops l' with [] => if drops a then [] else [a] | r => a :: r end
  end.

Fixpoint strip_front (drops : ascii → bool) (l : list ascii) : list ascii :=
  match l with a :: l' => if drops a then strip_front drops l' else l | [] => [] end.

Definition is_ows (a : ascii) : bool := (a =? " ")%char || (a =? "009")%char.

Definition starts_http (l : list ascii) : bool := bool_decide (take 5 l = chars "HTTP/").

Fixpoint split_first (sep : ascii) (l : list ascii) : option (list ascii * list ascii) :=
  match l with
  | [] => None
  | a :: l' => if (a =? sep)%char then Some ([], l') else match split_first sep l' with Some (p, r) => Some (a :: p, r) | None => None end
  end.

(** [std::from_chars] of an unsigned number and the bound on it; 0 when there is none. *)
Definition status_of_line (line : list ascii) : Z :=
  match split_first " " line with
  | Some (_, rest) =>
      match (take_digits rest).1 with
      | [] => 0
      | digits => let code := digits_value digits in if (100 <=? code) && (code <=? 999) then code else 0
      end
  | None => 0
  end.

(** [basic_fields::insert]: after the last field of that name, or at the end. *)
Fixpoint insert_field (name value : string) (fs : list (string * string)) : list (string * string) :=
  match fs with
  | [] => [(name, value)]
  | f :: fs' =>
      if iequals f.1 name && negb (existsb (λ g, iequals g.1 name) fs') then f :: (name, value) :: fs'
      else f :: insert_field name value fs'
  end.

Definition HeaderCallback (buffer : list ascii) c : CurlClient :=
  let x := request_context_ c in
  let line := strip_end is_line_end buffer in
  match line with
  | [] =>
      if reading_headers x then
        let c' := if response_hook_ then context_post [TResponse (current_response x)] c else c in
        with_context (with_headers no_response false x) c'
      else c
  | _ =>
      if starts_http line then
        if reading_headers x then c
        else with_context (with_headers (mkResponse (status_of_line line) []) true x) c
      else if negb (reading_headers x) then c
      else
        match split_first ":" line with
        | Some (name, value) =>
            let value := strip_end is_ows (strip_front is_ows value) in
            if field_name_ok (of_chars name) then
              let r := current_response x in
              with_context (with_headers (mkResponse (rs_status r) (insert_field (of_chars name) (of_chars value) (rs_fields r))) true x) c
            else c
        | None => c
        end
  end.

Definition OpenSocketCallback (sockfd : option Z) c : CurlClient :=
  match sockfd with
  | Some fd => with_context (with_socket (ctx_shutting_down (request_context_ c)) (Some fd) (request_context_ c)) c
  | None => c
  end.

(** Whether the transfer goes on. *)
Definition ProgressCallback (now dlnow : Z) c : bool * CurlClient :=
  let x := request_context_ c in
  if ctx_shutting_down x then (false, c)
  else
    match read_timeout x with
    | Some t =>
        if negb (dlnow =? last_download_amount x) then (true, with_context (with_progress now dlnow x) c)
        else if t <? Z.quot (now - last_progress_time x) 1000000 then (false, c)
        else (true, c)
    | None => (true, c)
    end.

(** ** Steps *)

Inductive CurlStep :=
| CRestart (reason : string)
| CShutdown
| CRunTask (lib : Libcurl) (now : Z) (draw : double)
| CTimerFires
| CHeader (easy : nat) (buffer : list ascii)
| CWrite (easy : nat) (data : text)
| COpenSocket (easy : nat) (sockfd : option Z)
| CProgress (easy : nat) (now dlnow : Z)
| CSocketCallback (easy : nat)
| CDone (easy : nat) (code response_code : Z)
| CReadTimerExpires (easy : nat)
| CReadTimeout.

Definition pop_task (rest : list Task) c : CurlClient :=
  mkCurl (request_context_ c) (cc_host c) (cc_port c) (use_https_ c) (cc_backoff c) (timer_armed c) (multi_manager_ c) (created c)
    rest (curl_effects c).

(** libcurl calls back for the transfers it has. *)
Definition during (easy : nat) (f : CurlClient → CurlClient) c : CurlClient :=
  if decide (easy ∈ multi_ (multi_manager_ c)) then f c else c.

Definition curl_step c (a : CurlStep) : CurlClient :=
  match a with
  | CRestart reason => post_task [TRestart reason] c
  | CShutdown => post_task [TShutdown] c
  | CRunTask lib now draw => match tasks c with t :: rest => run_task t lib now draw (pop_task rest c) | [] => c end
  | CTimerFires => if timer_armed c then post_task [TTimer false] (with_timer (cc_backoff c) false c) else c
  | CHeader easy buffer => during easy (HeaderCallback buffer) c
  | CWrite easy data => during easy (WriteCallback data) c
  | COpenSocket easy sockfd => during easy (OpenSocketCallback sockfd) c
  | CProgress easy now dlnow => during easy (λ c, (ProgressCallback now dlnow c).2) c
  | CSocketCallback easy => with_manager 0 (reset_read_timeout easy) c
  | CDone easy code response_code => with_manager response_code (check_multi_info [Some (easy, code)]) c
  | CReadTimerExpires easy => with_manager 0 (expire easy) c
  | CReadTimeout => with_manager 0 run_expired c
  end.

End Client.

(** The constructor, and [async_connect]. *)
Definition new_curl_client (req : Request) (host port : string) (connect_timeout read_timeout write_timeout initial_reconnect_delay : option Z)
    (skip_verify_peer : bool) (custom_ca_file : option string) (use_https : bool) (proxy_url : option string) : option CurlClient :=
  match Backoff_default (default kDefaultInitialReconnectDelay initial_reconnect_delay) kDefaultMaxBackoffDelay with
  | Some b =>
      Some (mkCurl
        (mkContext false None false new_reader None 0 0 no_response false req (build_url host port use_https req)
           connect_timeout read_timeout write_timeout custom_ca_file proxy_url skip_verify_peer)
        host port use_https b false new_transfers 0 [] [])
  | None => None
  end.

Definition curl_async_connect (c : CurlClient) : CurlClient := post_task [TRun] c.

(** ** What the client waits for *)

(** The tasks that lead on to another connection. *)
Definition leads (t : Task) : bool :=
  match t with TRun | TBackoff _ | TTimer false | TCompletion _ _ _ => true | _ => false end.

Definition count_leads (ts : list Task) : nat := length (filter (λ t, leads t = true) ts).
#[global] Arguments count_leads : simpl never.

(** Tasks, the timer and transfers that lead on. *)
Definition tokens (c : CurlClient) : nat :=
  count_leads (tasks c) + (if timer_armed c then 1 else 0) + size (callbacks_ (multi_manager_ c)).

(** Shut down, or an error that is not recoverable has been or will be reported. *)
Definition over (c : CurlClient) : Prop :=
  ctx_shutting_down (request_context_ c) = true ∨
  ∃ e, IsRecoverable e = false ∧ (TError e ∈ tasks c ∨ XError e ∈ curl_effects c).

Record extends (c c' : CurlClient) : Prop := {
  ex_shut : ctx_shutting_down (request_context_ c) = true → ctx_shutting_down (request_context_ c') = true;
  ex_callbacks : has_callbacks (request_context_ c) = true → has_callbacks (request_context_ c') = true;
  ex_tasks : tasks c `prefix_of` tasks c';
  ex_effects : curl_effects c `prefix_of` curl_effects c';
}.

(** A transfer in flight is of an earlier handle, and the callbacks of the context are set. *)
Record Flying (c : CurlClient) : Prop := {
  fl_created e : e ∈ dom (callbacks_ (multi_manager_ c)) → (e < created c)%nat;
  fl_callbacks :
    callbacks_ (multi_manager_ c) ≠ ∅ ∨ (∃ easy r code, TCompletion easy r code ∈ tasks c) →
    has_callbacks (request_context_ c) = true;
}.

#[global] Instance extends_refl : Reflexive extends.
Proof. by intros c. Qed.

#[global] Instance extends_trans : Transitive extends.
Proof. intros c1 c2 c3 [A B C D] [E F G H]. split; [auto..| |]; by etrans. Qed.

Lemma extends_over c c' : extends c c' → over c → over c'.
Proof.
  intros [Hs _ [l1 Ht] [l2 He]] [H|(e & Hr & H)]; [left; auto|]. right. exists e. split; [done|].
  rewrite Ht, He. set_solver.
Qed.

Lemma count_leads_app a b : count_leads (a ++ b) = (count_leads a + count_leads b)%nat.
Proof. unfold count_leads. by rewrite filter_app, length_app. Qed.

Lemma count_leads_one t : count_leads [t] = if leads t then 1%nat else 0%nat.
Proof. unfold count_leads. by destruct (leads t) eqn:E; rewrite filter_cons, E. Qed.

Lemma tokens_context x c : tokens (with_context x c) = tokens c.
Proof. done. Qed.

Lemma tokens_effect es c : tokens (effect es c) = tokens c.
Proof. done. Qed.

Lemma tokens_post ts c : tokens (post_task ts c) = (tokens c + count_leads ts)%nat.
Proof. unfold tokens. cbn. rewrite count_leads_app. lia. Qed.

Lemma tokens_created c : tokens (next_created c) = tokens c.
Proof. done. Qed.

Lemma extends_context x c :
  (ctx_shutting_down (request_context_ c) = true → ctx_shutting_down x = true) →
  (has_callbacks (request_context_ c) = true → has_callbacks x = true) → extends c (with_context x c).
Proof. intros Hs Hc. by split. Qed.

Lemma extends_effect es c : extends c (effect es c).
Proof. split; cbn; [done|done|done|by apply prefix_app_r]. Qed.

Lemma extends_post ts c : extends c (post_task ts c).
Proof. split; cbn; [done|done|by apply prefix_app_r|done]. Qed.

Lemma context_post_cases ts c :
  context_post ts c = post_task ts c ∨
  context_post ts c = c ∧ (ctx_shutting_down (request_context_ c) = true ∨ has_callbacks (request_context_ c) = false).
Proof.
  unfold context_post. destruct (ctx_shutting_down (request_context_ c)) eqn:E; [right; auto|].
  destruct (has_callbacks (request_context_ c)) eqn:E'; auto.
Qed.

Lemma extends_context_post ts c : extends c (context_post ts c).
Proof. destruct (context_post_cases ts c) as [->|[-> _]]; [apply extends_post|done]. Qed.

Lemma context_post_live ts c :
  ctx_shutting_down (request_context_ c) = false → has_callbacks (request_context_ c) = true → context_post ts c = post_task ts c.
Proof. unfold context_post. by intros -> ->. Qed.

Lemma context_post_tokens ts c : (tokens (context_post ts c) ≤ tokens c + count_leads ts)%nat.
Proof. destruct (context_post_cases ts c) as [->|[-> _]]; [by rewrite tokens_post|lia]. Qed.

(** A manager step that neither adds nor loses a callback. *)
Lemma with_manager_tokens code f c :
  (∃ l, completions (f (multi_manager_ c)) = completions (multi_manager_ c) ++ l ∧
    (size (callbacks_ (f (multi_manager_ c))) + length l = size (callbacks_ (multi_manager_ c)))%nat) →
  tokens (with_manager code f c) = tokens c ∧ extends c (with_manager code f c).
Proof.
  intros (l & Hl & Hsize). unfold with_manager. rewrite Hl, drop_app_length. split.
  - unfold tokens. cbn. rewrite count_leads_app.
    assert (count_leads ((λ p : nat * () * Result, TCompletion p.1.1 p.2 code) <$> l) = length l) as ->; [|lia].
    clear. unfold count_leads. induction l as [|p l IH]; [done|]. cbn [fmap list_fmap]. rewrite filter_cons_True by done. cbn. by rewrite IH.
  - split; cbn; [done|done|by apply prefix_app_r|done].
Qed.

Definition conserves (m m' : Transfers (K := unit)) : Prop :=
  dom (callbacks_ m') ⊆ dom (callbacks_ m) ∧
  ∃ l, completions m' = completions m ++ l ∧ (size (callbacks_ m') + length l = size (callbacks_ m))%nat.

Lemma take_down_conserves easy r m : conserves m (take_down easy r m).
Proof.
  split; cbn; [rewrite dom_delete_L; set_solver|]. destruct (callbacks_ m !! easy) as [[]|] eqn:E.
  - exists [(easy, (), r)]. split; [done|]. rewrite map_size_delete_Some by done.
    assert (size (callbacks_ m) ≠ 0)%nat by (apply map_size_non_empty_iff; intros E'; by rewrite E', lookup_empty in E). cbn. lia.
  - exists []. rewrite delete_id by done. cbn. split; [done|lia].
Qed.

Lemma same_conserves m m' : callbacks_ m' = callbacks_ m → completions m' = completions m → conserves m m'.
Proof. intros E1 E2. split; [by rewrite E1|]. exists []. rewrite E1, E2, app_nil_r. cbn. split; [done|lia]. Qed.

Lemma manager_step_conserves m :
  (∀ easy, conserves m (reset_read_timeout easy m)) ∧ (∀ easy code, conserves m (check_multi_info [Some (easy, code)] m)) ∧
  (∀ easy, conserves m (expire easy m)) ∧ conserves m (run_expired m).
Proof.
  split_and!.
  - intros easy. unfold reset_read_timeout. destruct (handle_timeouts_ m !! easy); by apply same_conserves.
  - intros easy code. apply take_down_conserves.
  - intros easy. unfold expire. case_decide; by apply same_conserves.
  - unfold run_expired. destruct (expired m) as [|easy rest]; [by apply same_conserves|]. unfold handle_read_timeout. cbn.
    destruct (callbacks_ m !! easy); [|by apply same_conserves].
    set (m1 := mkTransfers _ _ _ _ _ _ _ _ _). exact (take_down_conserves easy FromReadTimeout m1).
Qed.

Lemma manager_conserved code f c :
  conserves (multi_manager_ c) (f (multi_manager_ c)) → Flying c →
  tokens (with_manager code f c) = tokens c ∧ extends c (with_manager code f c) ∧ Flying (with_manager code f c).
Proof.
  intros (Hd & l & Hl & Hs) [Hf Hcb]. destruct (with_manager_tokens code f c) as [Ht He]; [by exists l|].
  split_and!; [done|done|]. split; cbn.
  - intros e Hin. apply Hf. set_solver.
  - intros Hor. apply Hcb. assert (callbacks_ (f (multi_manager_ c)) ≠ ∅ → callbacks_ (multi_manager_ c) ≠ ∅) as Hne.
    { intros Hne E. apply Hne. apply dom_empty_inv_L. rewrite E, dom_empty_L in Hd. set_solver. }
    destruct Hor as [Hor|(easy & r & n & Hin)]; [auto|]. unfold with_manager in Hin. cbn in Hin. rewrite Hl, drop_app_length in Hin.
    apply elem_of_app in Hin as [Hin|Hin]; [right; eauto|]. left. intros E. rewrite E, map_size_empty in Hs.
    destruct l; [by apply not_elem_of_nil in Hin|cbn in Hs; lia].
Qed.

(** ** Starting and finishing transfers *)

Lemma setup_keeps lib now steps opts x :
  let y := (SetupCurlOptions lib now steps opts x).2 in
  ctx_shutting_down y = ctx_shutting_down x ∧ has_callbacks y = has_callbacks x.
Proof.
  revert opts x. induction steps as [|[o|] steps IH]; intros opts x; cbn; [done| |by apply (IH opts (with_progress now 0 x))].
  destruct (setopt_ok lib o); [apply IH|done].
Qed.

(** What a task or an operation may do: it keeps what was there, and gains at most [n] tokens. *)
Definition gains (n : nat) (c c' : CurlClient) : Prop :=
  extends c c' ∧ (tokens c' ≤ tokens c + n)%nat ∧ (Flying c → Flying c').

Lemma flying_same c c' :
  callbacks_ (multi_manager_ c') = callbacks_ (multi_manager_ c) → (created c ≤ created c')%nat →
  (∀ easy r code, TCompletion easy r code ∈ tasks c' → TCompletion easy r code ∈ tasks c) →
  (has_callbacks (request_context_ c) = true → has_callbacks (request_context_ c') = true) → Flying c → Flying c'.
Proof.
  intros E Hc Ht Hh [Hf Hcb]. split; rewrite E.
  - intros e Hin. apply Hf in Hin. lia.
  - intros Hor. apply Hh, Hcb. destruct Hor as [?|(easy & r & n & ?)]; [by left|right; eauto].
Qed.

Lemma context_post_gains t c :
  (∀ easy r code, t ≠ TCompletion easy r code) → gains (count_leads [t]) c (context_post [t] c).
Proof.
  intros Hn. split_and!; [apply extends_context_post|apply context_post_tokens|].
  destruct (context_post_cases [t] c) as [->|[-> _]]; [|done]. apply flying_same; cbn; [done|lia| |done].
  intros easy r code Hin. apply elem_of_app in Hin as [?|Hin]; [done|]. apply list_elem_of_singleton in Hin. by destruct (Hn easy r code).
Qed.

Lemma gains_trans n k c1 c2 c3 : gains n c1 c2 → gains k c2 c3 → gains (n + k) c1 c3.
Proof. intros (A & B & C) (D & E & F). split_and!; [by etrans|lia|auto]. Qed.

Lemma plain_gains c c' :
  extends c c' → tokens c' = tokens c → callbacks_ (multi_manager_ c') = callbacks_ (multi_manager_ c) →
  (created c ≤ created c')%nat → tasks c' = tasks c → gains 0 c c'.
Proof.
  intros He Ht Hc Hn Hq. split_and!; [done|lia|]. apply flying_same; [done|done|by rewrite Hq|apply He].
Qed.

Lemma context_step_gains x c :
  (ctx_shutting_down (request_context_ c) = true → ctx_shutting_down x = true) →
  (has_callbacks (request_context_ c) = true → has_callbacks x = true) → gains 0 c (with_context x c).
Proof. intros Hs Hc. apply plain_gains; try done. Qed.

Lemma effect_gains es c : gains 0 c (effect es c).
Proof. apply plain_gains; try done. apply extends_effect. Qed.

(** Adding a transfer gains a token, if libcurl takes it. *)
Lemma add_gains ok easy h t c :
  has_callbacks (request_context_ c) = true → easy = created c →
  let c' := with_manager 0 (add_handle ok easy h () t) (next_created c) in
  gains 1 c c' ∧ (Flying c → ok = true → tokens c' = S (tokens c)).
Proof.
  intros Hh -> c'.
  assert (completions (add_handle ok (created c) h () t (multi_manager_ c)) = completions (multi_manager_ c)) as Hc
    by (by destruct ok).
  assert (tasks c' = tasks c) as Ht by (unfold c', with_manager; cbn; rewrite Hc, drop_all; by rewrite app_nil_r).
  assert (Flying c → size (callbacks_ (multi_manager_ c')) = ((if ok then 1 else 0) + size (callbacks_ (multi_manager_ c)))%nat) as Hsize.
  { intros [Hf _]. unfold c', with_manager. cbn. destruct ok; [|done]. cbn. rewrite map_size_insert_None; [done|].
    apply not_elem_of_dom. intros Hin. apply Hf in Hin. lia. }
  assert (size (callbacks_ (multi_manager_ c')) ≤ S (size (callbacks_ (multi_manager_ c))))%nat as Hle.
  { unfold c', with_manager. cbn. destruct ok; cbn; [|lia]. rewrite map_size_insert. unfold id; case_match; lia. }
  split; [split_and!|].
  - split; [done|done|by rewrite Ht|done].
  - unfold tokens. rewrite Ht. cbn [timer_armed]. replace (timer_armed c') with (timer_armed c) by done. lia.
  - intros [Hf Hcb]. split; [|done]. intros e Hin. unfold c', with_manager in Hin |- *. cbn in Hin |- *.
    destruct ok; cbn in Hin; [|apply Hf in Hin; lia]. rewrite dom_insert_L in Hin.
    apply elem_of_union in Hin as [->%elem_of_singleton|Hin]; [lia|]. apply Hf in Hin. lia.
  - intros Hfl ->. unfold tokens. rewrite Ht, Hsize by done. replace (timer_armed c') with (timer_armed c) by done. lia.
Qed.

Lemma gains_weaken n k c c' : (n ≤ k)%nat → gains n c c' → gains k c c'.
Proof. intros Hle (A & B & C). split_and!; [done|lia|done]. Qed.

Lemma created_gains c : gains 0 c (next_created c).
Proof. apply plain_gains; try done. cbn. lia. Qed.

(** A transfer is started, or a backoff posted, unless shutting down. *)
Lemma perform_gains lib now c :
  has_callbacks (request_context_ c) = true →
  let c' := PerformRequestWithMulti lib now c in
  gains 1 c c' ∧
  (Flying c → ctx_shutting_down (request_context_ c) = false → multi_add_ok lib = true → tokens c' = S (tokens c)).
Proof.
  intros Hh. unfold PerformRequestWithMulti. destruct (ctx_shutting_down (request_context_ c)) eqn:Hs.
  { split; [|done]. split_and!; [done|lia|done]. }
  set (x := with_headers _ _ _). set (c1 := with_context x c).
  assert (gains 0 c c1) as G1 by (apply context_step_gains; [|done]; by rewrite Hs).
  destruct (init_ok lib); cbn [negb].
  2:{ split; [exact (gains_trans 0 1 _ _ _ G1 (context_post_gains (TBackoff _) c1 ltac:(done)))|].
      intros _ _ _. rewrite context_post_live by done. rewrite tokens_post, count_leads_one. unfold c1. rewrite tokens_context. cbn [leads]. lia. }
  pose proof (setup_keeps lib now (setup_steps x) [] x) as Hkeep.
  destruct (SetupCurlOptions lib now (setup_steps x) [] x) as [[ok options] y]. cbn [snd] in Hkeep. destruct Hkeep as [Hys Hyc].
  set (c2 := with_context y c1).
  assert (gains 0 c c2) as G2.
  { apply (gains_trans 0 0 _ c1); [done|]. apply context_step_gains; unfold c1; cbn; rewrite ?Hys, ?Hyc; cbn; by rewrite ?Hs. }
  set (es := if headers_allocated y options then [XHeaders (created c1)] else []).
  assert ((if headers_allocated y options then effect [XHeaders (created c1)] (next_created c2) else next_created c2) =
    next_created (effect es c2)) as ->.
  { unfold es. destruct (headers_allocated y options); [done|]. unfold effect, next_created. cbn. by rewrite app_nil_r. }
  set (c3 := effect es c2).
  assert (gains 0 c c3) as G3 by (apply (gains_trans 0 0 _ c2); [done|apply effect_gains]).
  assert (tokens c3 = tokens c) as Ht3 by done.
  assert (has_callbacks (request_context_ c3) = true) as Hh3 by (cbn; by rewrite Hyc).
  destruct ok; cbn [negb].
  2:{ split.
      - refine (gains_trans 0 1 _ _ _ (gains_trans 0 0 _ _ _ G3 (created_gains c3)) _). by apply (context_post_gains (TBackoff _)).
      - intros _ _ _. rewrite context_post_live; [|cbn; by rewrite Hys|done]. rewrite tokens_post, count_leads_one, tokens_created, Ht3. cbn [leads]. lia. }
  set (es' := if multi_add_ok lib then [XTransfer (created c1) options] else []).
  assert ((if multi_add_ok lib then effect [XTransfer (created c1) options] (next_created c3) else next_created c3) =
    next_created (effect es' c3)) as ->.
  { unfold es'. destruct (multi_add_ok lib); [done|]. unfold effect, next_created. cbn. by rewrite app_nil_r. }
  destruct (add_gains (multi_add_ok lib) (created c1) (if headers_allocated y options then Some (created c1) else None)
    (read_timeout y) (effect es' c3) Hh3 eq_refl) as [Ga Gt].
  assert (gains 0 c (effect es' c3)) as G4 by (apply (gains_trans 0 0 _ c3); [done|apply effect_gains]).
  split; [exact (gains_trans 0 1 _ _ _ G4 Ga)|]. intros Hfl _ Hok. rewrite Gt; [by rewrite tokens_effect, Ht3| |done]. by apply G4.
Qed.

Section Attended.
Context {W : Web} {T : CurlTexts} (connection_hook_ : option (Request → Request)) (response_hook_ : bool).

Lemma do_run_gains lib now c :
  let c' := curl_do_run connection_hook_ lib now c in
  gains 1 c c' ∧
  (Flying c → ctx_shutting_down (request_context_ c) = false → multi_add_ok lib = true → tokens c' = S (tokens c)).
Proof.
  unfold curl_do_run. destruct (ctx_shutting_down (request_context_ c)) eqn:Hs.
  { split; [|done]. split_and!; [done|lia|done]. }
  set (x := set_callbacks _). assert (ctx_shutting_down x = false) as Hx by (unfold x; by destruct connection_hook_).
  assert (gains 0 c (with_context x c)) as G0 by (apply context_step_gains; [by rewrite Hs|done]).
  destruct (perform_gains lib now (with_context x c) eq_refl) as [G Ht].
  split; [exact (gains_trans 0 1 _ _ _ G0 G)|]. intros Hfl _ Hok. rewrite Ht; [done| |done|done]. by apply G0.
Qed.

Lemma post_plain_gains t c : leads t = false → gains 0 c (post_task [t] c).
Proof.
  intros Hl. split_and!; [apply extends_post|rewrite tokens_post, count_leads_one, Hl; lia|].
  apply flying_same; cbn; [done|lia| |done]. intros easy r code Hin. apply elem_of_app in Hin as [?|Hin]; [done|].
  apply list_elem_of_singleton in Hin. by subst t.
Qed.

Lemma on_completion_gains r code c : gains 1 c (on_completion r code c).
Proof.
  assert (∀ e, gains 1 c (context_post [TError e] c)) as He
    by (intros e; apply (gains_weaken 0); [lia|]; by apply (context_post_gains (TError e))).
  assert (∀ s, gains 1 c (context_post [TBackoff s] c)) as Hb by (intros s; by apply (context_post_gains (TBackoff s))).
  assert (∀ t s, leads t = false → gains 1 c (context_post [TBackoff s] (context_post [t] c))) as Hboth.
  { intros t s Hl. refine (gains_trans 0 1 _ _ _ _ _); [|by apply (context_post_gains (TBackoff s))].
    pose proof (context_post_gains t c) as G. rewrite count_leads_one, Hl in G. apply G. by intros easy r' code' ->. }
  unfold on_completion. repeat case_match; auto; (split_and!; [done|lia|done]).
Qed.

(** After a transfer that is over, the client backs off or has reported why it gives up. *)
Lemma on_completion_attended r code c :
  has_callbacks (request_context_ c) = true →
  tokens (on_completion r code c) = S (tokens c) ∨ over (on_completion r code c).
Proof.
  intros Hh. unfold on_completion. destruct (ctx_shutting_down (request_context_ c)) eqn:Hs; [right; by left|].
  assert (∀ s, tokens (context_post [TBackoff s] c) = S (tokens c)) as Hb.
  { intros s. rewrite context_post_live by done. rewrite tokens_post, count_leads_one. cbn [leads]. lia. }
  assert (∀ t s, leads t = false → tokens (context_post [TBackoff s] (context_post [t] c)) = S (tokens c)) as Hboth.
  { intros t s Hl. rewrite (context_post_live [t]) by done. rewrite context_post_live by done.
    rewrite !tokens_post, !count_leads_one, Hl. cbn [leads]. lia. }
  assert (∀ e, IsRecoverable e = false → over (context_post [TError e] c)) as He.
  { intros e Hr. rewrite context_post_live by done. right. exists e. split; [done|]. left. cbn. set_solver. }
  repeat case_match; solve [left; by auto|right; by auto].
Qed.

Lemma disarm_gains c : gains 0 c (if timer_armed c then post_task [TTimer true] (with_timer (cc_backoff c) false c) else c).
Proof.
  destruct (timer_armed c) eqn:E; [|by split_and!; [done|lia|done]].
  refine (gains_trans 0 0 _ _ _ _ (post_plain_gains (TTimer true) _ eq_refl)).
  split_and!; [done|unfold tokens; cbn; rewrite E; lia|]. by apply flying_same.
Qed.

Lemma shutdown_gains c : gains 0 c (curl_do_shutdown c).
Proof.
  unfold curl_do_shutdown, context_shutdown. refine (gains_trans 0 0 _ _ _ _ (effect_gains _ _)).
  refine (gains_trans 0 0 _ _ _ _ (disarm_gains _)). refine (gains_trans 0 0 _ _ _ _ (effect_gains _ _)). by apply context_step_gains.
Qed.

Lemma abort_gains c : gains 0 c (abort_transfer c) ∧ tokens (abort_transfer c) = tokens c.
Proof.
  unfold abort_transfer. destruct (ctx_shutting_down (request_context_ c)) eqn:Hs; [by split; [split_and!; [done|lia|done]|]|].
  split; [|done]. refine (gains_trans 0 0 _ _ _ _ (effect_gains _ _)). apply context_step_gains; [by rewrite Hs|done].
Qed.

Lemma backoff_gains reason now draw c :
  gains 1 c (curl_async_backoff reason now draw c) ∧ (timer_armed c = false → tokens (curl_async_backoff reason now draw c) = S (tokens c)).
Proof.
  unfold curl_async_backoff. split.
  - refine (gains_trans 1 0 _ _ _ _ (effect_gains _ _)).
    assert (gains 0 c (if timer_armed c then post_task [TTimer true] c else c)) as G
      by (destruct (timer_armed c); [by apply post_plain_gains|by split_and!; [done|lia|done]]).
    refine (gains_trans 0 1 _ _ _ G _). set (c1 := if timer_armed c then _ else _).
    split_and!; [done|unfold tokens; cbn; destruct (timer_armed c1); lia|]. by apply flying_same.
  - intros E. rewrite tokens_effect, E. unfold tokens. cbn. rewrite E. lia.
Qed.

Lemma run_task_gains t lib now draw c :
  gains (if leads t then 1 else 0) c (run_task connection_hook_ t lib now draw c).
Proof.
  assert (∀ n, gains n c c) as Hrefl by (intros n; split_and!; [done|lia|done]).
  destruct t as [|r| |r| |e|e|r|[]|easy r code]; cbn [leads run_task];
    try apply effect_gains; try apply do_run_gains; try apply on_completion_gains.
  - apply abort_gains.
  - apply shutdown_gains.
  - apply backoff_gains.
  - apply plain_gains; done.
  - apply Hrefl.
  - unfold curl_on_backoff. cbn [orb]. destruct (ctx_shutting_down (request_context_ c)); [apply Hrefl|apply do_run_gains].
Qed.

Lemma run_task_attended t lib now draw c :
  Flying c → multi_add_ok lib = true → (∀ easy r code, t = TCompletion easy r code → has_callbacks (request_context_ c) = true) →
  ((if leads t then 1 else 0) + tokens c = 1)%nat →
  tokens (run_task connection_hook_ t lib now draw c) = 1%nat ∨ over (run_task connection_hook_ t lib now draw c).
Proof.
  intros Hfl Hok Hcb H1. destruct t as [|r| |r| |e|e|r|[]|easy r code]; cbn [leads run_task] in *; try (left; exact H1).
  - destruct (do_run_gains lib now c) as [G Ht]. destruct (ctx_shutting_down (request_context_ c)) eqn:Hs.
    + right. left. by apply G.
    + left. rewrite Ht by done. lia.
  - left. by rewrite (proj2 (abort_gains c)).
  - right. left. unfold curl_do_shutdown. by destruct (timer_armed (context_shutdown c)).
  - left. rewrite (proj2 (backoff_gains r now draw c)); [lia|]. unfold tokens in H1. destruct (timer_armed c); [lia|done].
  - unfold curl_on_backoff. cbn [orb]. destruct (ctx_shutting_down (request_context_ c)) eqn:Hs; [right; by left|].
    left. rewrite (proj2 (do_run_gains lib now c)) by done. lia.
  - destruct (on_completion_attended r code c) as [->|?]; [by eapply Hcb|left; lia|by right].
Qed.

Lemma run_task_over t lib now draw c rest :
  tasks c = t :: rest → over c → over (run_task connection_hook_ t lib now draw (pop_task rest c)).
Proof.
  intros Hq Ho. assert (∀ e, IsRecoverable e = false → TError e ∈ rest ∨ XError e ∈ curl_effects c → over (pop_task rest c)) as Hpop
    by (intros e Hr Hin; right; by exists e).
  assert (over (pop_task rest c) → over (run_task connection_hook_ t lib now draw (pop_task rest c))) as Hrun
    by (apply extends_over, run_task_gains).
  destruct Ho as [?|(e & Hr & [Hin|Hin])]; [apply Hrun; by left| |eauto].
  rewrite Hq in Hin. apply elem_of_cons in Hin as [<-|Hin]; [|eauto].
  right. exists e. split; [done|]. right. cbn. set_solver.
Qed.

Definition keeps c c' : Prop := gains 0 c c' ∧ tokens c' = tokens c.

Lemma keeps_refl c : keeps c c.
Proof. split; [|done]. split_and!; [done|lia|done]. Qed.

Lemma keeps_context x c :
  (ctx_shutting_down (request_context_ c) = true → ctx_shutting_down x = true) →
  (has_callbacks (request_context_ c) = true → has_callbacks x = true) → keeps c (with_context x c).
Proof. intros Hs Hc. split; [by apply context_step_gains|done]. Qed.

Lemma keeps_trans c1 c2 c3 : keeps c1 c2 → keeps c2 c3 → keeps c1 c3.
Proof. intros [G1 T1] [G2 T2]. split; [exact (gains_trans 0 0 _ _ _ G1 G2)|congruence]. Qed.

Lemma keeps_context_post ts c : Forall (λ t, leads t = false) ts → keeps c (context_post ts c).
Proof.
  intros Hl. assert (count_leads ts = 0%nat) as Hz.
  { induction Hl as [|t ts Ht _ IH]; [done|]. unfold count_leads in *. rewrite filter_cons_False by (by rewrite Ht). done. }
  destruct (context_post_cases ts c) as [->|[-> _]]; [|apply keeps_refl].
  split; [|by rewrite tokens_post, Hz, Nat.add_0_r]. split_and!; [apply extends_post|rewrite tokens_post, Hz; lia|].
  apply flying_same; cbn; [done|lia| |done]. intros easy r code Hin. apply elem_of_app in Hin as [?|Hin]; [done|].
  rewrite Forall_forall in Hl. by apply Hl in Hin.
Qed.

Lemma keeps_post t c : leads t = false → keeps c (post_task [t] c).
Proof. intros Hl. split; [by apply post_plain_gains|]. rewrite tokens_post, count_leads_one, Hl. lia. Qed.

Lemma header_keeps buffer c : keeps c (HeaderCallback response_hook_ buffer c).
Proof.
  unfold HeaderCallback. repeat case_match; try apply keeps_refl; try (by apply keeps_context).
  eapply keeps_trans; [by apply (keeps_context_post [TResponse (current_response (request_context_ c))]); repeat constructor|].
  apply keeps_context; destruct (context_post_cases [TResponse (current_response (request_context_ c))] c) as [->|[-> _]]; done.
Qed.

Lemma write_keeps data c : keeps c (WriteCallback data c).
Proof.
  unfold WriteCallback. case_match; [apply keeps_refl|].
  eapply keeps_trans; [|apply keeps_context_post, Forall_fmap, Forall_forall; done]. by apply keeps_context.
Qed.

Lemma progress_keeps now dlnow c : keeps c (ProgressCallback now dlnow c).2.
Proof. unfold ProgressCallback. repeat case_match; try apply keeps_refl. by apply keeps_context. Qed.

Lemma socket_keeps fd c : keeps c (OpenSocketCallback fd c).
Proof. destruct fd; [by apply keeps_context|apply keeps_refl]. Qed.

Lemma during_keeps easy f c : (∀ c, keeps c (f c)) → keeps c (during easy f c).
Proof. intros Hf. unfold during. case_decide; [apply Hf|apply keeps_refl]. Qed.

(** What the theorem asks of libcurl: it takes the handles it is given. *)
Definition accepts (a : CurlStep) : Prop :=
  match a with CRunTask lib _ _ => multi_add_ok lib = true | _ => True end.

Lemma curl_step_safe a c : (tokens c ≤ 1)%nat → Flying c →
  (tokens (curl_step connection_hook_ response_hook_ c a) ≤ 1)%nat ∧ Flying (curl_step connection_hook_ response_hook_ c a) ∧
  (accepts a → tokens c = 1%nat ∨ over c →
   tokens (curl_step connection_hook_ response_hook_ c a) = 1%nat ∨ over (curl_step connection_hook_ response_hook_ c a)).
Proof.
  intros H1 Hfl.
  assert (∀ c', keeps c c' → (tokens c' ≤ 1)%nat ∧ Flying c' ∧ (accepts a → tokens c = 1%nat ∨ over c → tokens c' = 1%nat ∨ over c')) as Hk.
  { intros c' [(He & _ & Hf) Ht]. rewrite Ht. split_and!; [done|by apply Hf|]. intros _ [?|?]; [by left|right; by eapply extends_over]. }
  assert (∀ code f, conserves (multi_manager_ c) (f (multi_manager_ c)) → keeps c (with_manager code f c)) as Hm.
  { intros code f Hc. destruct (manager_conserved code f c Hc Hfl) as (Ht & He & Hf). split; [|done]. split_and!; [done|lia|done]. }
  destruct (manager_step_conserves (multi_manager_ c)) as (M1 & M2 & M3 & M4).
  destruct a as [r| |lib now draw| |easy b|easy d|easy fd|easy now dl|easy|easy code rc|easy|]; cbn [curl_step];
    try (apply Hk; first [by apply during_keeps, header_keeps|by apply during_keeps, write_keeps|by apply during_keeps, socket_keeps|
                          by apply during_keeps, progress_keeps|apply Hm; auto|by apply keeps_post]; fail).
  - destruct (tasks c) as [|t rest] eqn:Hq; [apply Hk, keeps_refl|].
    assert (tokens c = ((if leads t then 1 else 0) + tokens (pop_task rest c))%nat) as Hpop.
    { unfold tokens. rewrite Hq. change (t :: rest) with ([t] ++ rest). rewrite count_leads_app, count_leads_one. cbn. lia. }
    assert (Flying (pop_task rest c)) as Hfl'.
    { revert Hfl. apply flying_same; cbn; [done|lia| |done]. rewrite Hq. set_solver. }
    destruct (run_task_gains t lib now draw (pop_task rest c)) as (He & Ht & Hf).
    split_and!; [lia|by apply Hf|]. intros Hok [Ha|Ho]; [|right; by apply run_task_over].
    apply run_task_attended; [done|done| |lia]. intros easy r code ->. apply (fl_callbacks _ Hfl). right.
    exists easy, r, code. rewrite Hq. set_solver.
  - destruct (timer_armed c) eqn:E; [|apply Hk, keeps_refl].
    apply Hk. assert (tokens (post_task [TTimer false] (with_timer (cc_backoff c) false c)) = tokens c) as Ht.
    { rewrite tokens_post, count_leads_one. unfold tokens. cbn. rewrite E. lia. }
    split; [|done]. split_and!; [split; cbn; [done|done|by apply prefix_app_r|done]|lia|].
    apply flying_same; cbn; [done|lia| |done]. set_solver.
Qed.

Lemma curl_steps_safe acts c : (tokens c ≤ 1)%nat → Flying c →
  let c' := foldl (curl_step connection_hook_ response_hook_) c acts in
  (tokens c' ≤ 1)%nat ∧ (Forall accepts acts → tokens c = 1%nat ∨ over c → tokens c' = 1%nat ∨ over c').
Proof.
  revert c. induction acts as [|a acts IH]; intros c H1 Hfl; [done|]. cbn [foldl].
  destruct (curl_step_safe a c H1 Hfl) as (H1' & Hfl' & Hat). destruct (IH _ H1' Hfl') as [A B].
  split; [done|]. intros [Ha Hacts]%Forall_cons Hc. apply B; [done|]. by apply Hat.
Qed.
End Attended.

(** ** Properties *)

(** C15: The libcurl client does one thing at a time, and goes on doing it.  After it was connected,
    whatever libcurl and the callers do, at most one transfer is in flight, and while one is, no
    timer waits and no task that could start another is posted: so the request that libcurl reads
    is not changed under it.  And if libcurl takes the handles it is given, there is always a
    transfer, a timer or a task that leads on, unless the client was shut down or reports an error
    that is not recoverable. *)
Theorem curl_client_attended `{Web, CurlTexts} hook response_hook req host port ct rt wt delay skip ca https proxy c0 acts :
  new_curl_client req host port ct rt wt delay skip ca https proxy = Some c0 →
  let c := foldl (curl_step hook response_hook) (curl_async_connect c0) acts in
  (size (callbacks_ (multi_manager_ c)) ≤ 1)%nat ∧
  (callbacks_ (multi_manager_ c) ≠ ∅ → timer_armed c = false ∧ Forall (λ t, leads t = false) (tasks c)) ∧
  (Forall accepts acts →
   callbacks_ (multi_manager_ c) ≠ ∅ ∨ timer_armed c = true ∨ Exists (λ t, leads t = true) (tasks c) ∨ over c).
Proof.
  intros Hnew c. unfold new_curl_client in Hnew. destruct (Backoff_default _ _) as [b|]; [|done]. injection Hnew as <-.
  destruct (curl_steps_safe hook response_hook acts (curl_async_connect
    (mkCurl (mkContext false None false new_reader None 0 0 no_response false req (build_url host port https req) ct rt wt ca proxy skip)
       host port https b false new_transfers 0 [] []))) as [H1 Hat]; [done| |fold c in H1, Hat].
  { split; cbn; [intros e Hin; rewrite dom_empty_L in Hin; set_solver|].
    intros [?|(easy & r & code & Hin)]; [done|]. by apply list_elem_of_singleton in Hin. }
  unfold tokens in H1, Hat.
  assert (∀ ts, count_leads ts = 0%nat ∨ Exists (λ t, leads t = true) ts) as Hcount.
  { intros ts. destruct (decide (Exists (λ t, leads t = true) ts)) as [?|Hn]; [by right|left].
    unfold count_leads. apply length_zero_iff_nil. apply not_Exists_Forall in Hn; [|apply _].
    induction Hn as [|t ts Ht _ IH]; [done|]. by rewrite filter_cons_False. }
  split_and!; [lia| |].
  - intros Hne. apply map_size_non_empty_iff in Hne. split; [destruct (timer_armed c); [lia|done]|].
    apply Forall_forall. intros t Hin. destruct (leads t) eqn:E; [|done]. exfalso.
    apply list_elem_of_split in Hin as (l1 & l2 & Hq). rewrite Hq, count_leads_app in H1.
    change (t :: l2) with ([t] ++ l2) in H1. rewrite count_leads_app, count_leads_one, E in H1. lia.
  - intros Hacc. destruct (Hat Hacc) as [Hc|Ho]; [left; done| |by right; right; right].
    destruct (decide (callbacks_ (multi_manager_ c) = ∅)) as [E|E]; [|by left]. rewrite E, map_size_empty in Hc.
    destruct (timer_armed c); [by right; left|]. destruct (Hcount (tasks c)) as [Hz|?]; [lia|by right; right; left].
Qed.

(** ** What a transfer delivers *)

#[local] Arguments put : simpl never.

Lemma last_id_of_app id a b : last_id_of id (a ++ b) = last_id_of (last_id_of id a) b.
Proof. unfold last_id_of. by rewrite foldl_app. Qed.

Lemma write_all chunks c :
  ctx_shutting_down (request_context_ c) = false → has_callbacks (request_context_ c) = true →
  let c' := foldl (λ c data, WriteCallback data c) c chunks in
  ∃ es, emitted (foldl (λ r d, put d r) (parser_reader (request_context_ c)) chunks) = emitted (parser_reader (request_context_ c)) ++ es ∧
    tasks c' = tasks c ++ (TEvent <$> es) ∧ last_event_id (request_context_ c') = last_id_of (last_event_id (request_context_ c)) es.
Proof.
  revert c. induction chunks as [|d chunks IH]; intros c Hs Hh; cbn [foldl]; [exists []; by rewrite !app_nil_r|].
  destruct (put_emitted d (parser_reader (request_context_ c))) as [es Hes].
  assert (WriteCallback d c = post_task (TEvent <$> es) (with_context
    (with_reader (put d (parser_reader (request_context_ c))) (last_id_of (last_event_id (request_context_ c)) es) (request_context_ c)) c)) as ->.
  { unfold WriteCallback. rewrite Hs, Hes, drop_app_length. by rewrite context_post_live. }
  set (c1 := post_task _ _). destruct (IH c1 Hs Hh) as (es' & E1 & E2 & E3). cbn in E1, E2, E3. exists (es ++ es').
  rewrite E1, Hes, E2, E3, fmap_app, last_id_of_app, !app_assoc. done.
Qed.

(** A stream of messages, cut into chunks anywhere, reaches the receiver as exactly those
    messages, in order; the id to resume from is that of the last message delivered that has one,
    or the one before. *)
Theorem curl_stream_delivered (eol : text) (ms : list Message) (chunks : list text) c :
  eol ∈ eols → forallb message_ok ms = true → concat chunks = wire eol ms →
  ctx_shutting_down (request_context_ c) = false → has_callbacks (request_context_ c) = true →
  parser_reader (request_context_ c) = new_reader →
  let c' := foldl (λ c data, WriteCallback data c) c chunks in
  tasks c' = tasks c ++ (TEvent <$> owed None ms) ∧
  last_event_id (request_context_ c') = last_id_of (last_event_id (request_context_ c)) (owed None ms).
Proof.
  intros Heol Hok Hw Hs Hh Hr c'. destruct (write_all chunks c Hs Hh) as (es & E1 & E2 & E3). fold c' in E2, E3.
  assert (es = owed None ms) as <-; [|done]. rewrite Hr in E1.
  assert (foldl (λ r d, put d r) new_reader chunks = put (concat chunks) new_reader) as Hput
    by exact (put_chunks chunks [] new_reader).
  rewrite Hput, Hw in E1. destruct (wire_read eol ms new_reader Heol Hok) as [E _]; [by split|done|done|].
  rewrite E in E1. by simplify_list_eq.
Qed.

(** ** The headers of a response *)

Lemma strip_end_app drops l e :
  forallb (λ a, negb (drops a)) l = true → forallb drops e = true → strip_end drops (l ++ e) = l.
Proof.
  intros Hl He. induction l as [|a l IH]; cbn.
  - induction e as [|b e IHe]; [done|]. cbn in He |- *. apply andb_true_iff in He as [Hb He]. by rewrite IHe, Hb.
  - cbn in Hl. apply andb_true_iff in Hl as [Ha Hl]. rewrite IH by done. apply negb_true_iff in Ha. rewrite Ha. by destruct l.
Qed.

Lemma split_first_app sep p r : sep ∉ p → split_first sep (p ++ sep :: r) = Some (p, r).
Proof.
  induction p as [|a p IH]; intros Hn; cbn; [by rewrite Ascii.eqb_refl|].
  destruct (Ascii.eqb_spec a sep) as [->|_]; [set_solver|]. rewrite IH by set_solver. done.
Qed.

(** The lines of a response: the version of HTTP has no space, the number of the status ends
    where its digits do. *)
Record StatusLine := mkStatusLine { sl_version : list ascii; sl_digits : list ascii; sl_rest : list ascii }.

Definition status_line (s : StatusLine) : list ascii := chars "HTTP/" ++ sl_version s ++ " "%char :: sl_digits s ++ sl_rest s.

Definition no_line_end (l : list ascii) : bool := forallb (λ a, negb (is_line_end a)) l.

Definition status_line_ok (s : StatusLine) : Prop :=
  " "%char ∉ sl_version s ∧ forallb is_digit (sl_digits s) = true ∧ 100 ≤ digits_value (sl_digits s) ≤ 999 ∧
  match sl_rest s with a :: _ => is_digit a = false | [] => True end ∧ no_line_end (status_line s) = true.

Definition field_line (f : list ascii * list ascii) : list ascii := f.1 ++ ":"%char :: f.2.

Definition field_ok `{CurlTexts} (f : list ascii * list ascii) : Prop :=
  ":"%char ∉ f.1 ∧ no_line_end (field_line f) = true ∧ starts_http (field_line f) = false ∧ field_name_ok (of_chars f.1) = true.

Definition trimmed (v : list ascii) : string := of_chars (strip_end is_ows (strip_front is_ows v)).

Definition fields_of (fs : list (list ascii * list ascii)) (to : list (string * string)) : list (string * string) :=
  foldl (λ to f, insert_field (of_chars f.1) (trimmed f.2) to) to fs.

Section Headers.
Context {T : CurlTexts}.

Lemma status_line_read s : status_line_ok s → status_of_line (status_line s) = digits_value (sl_digits s).
Proof.
  intros (Hv & Hd & [Hlo Hhi] & Hr & _). unfold status_of_line, status_line.
  rewrite app_assoc, split_first_app by (intros [Hin|Hin]%elem_of_app; [by apply list_elem_of_In in Hin; cbn in Hin; intuition|done]).
  assert (take_digits (sl_digits s ++ sl_rest s) = (sl_digits s, sl_rest s)) as ->.
  { clear Hlo Hhi. induction (sl_digits s) as [|a l IH]; cbn.
    - destruct (sl_rest s) as [|b r]; [done|]. cbn. by rewrite Hr.
    - cbn in Hd. apply andb_true_iff in Hd as [-> Hd]. by rewrite IH. }
  cbn [fst]. destruct (sl_digits s) as [|a l] eqn:E; [by cbn in Hlo|]. rewrite <- E in *.
  by rewrite (proj2 (Z.leb_le 100 _)), (proj2 (Z.leb_le _ 999)).
Qed.

Lemma field_step hook f eol c :
  field_ok f → forallb is_line_end eol = true → reading_headers (request_context_ c) = true →
  HeaderCallback hook (field_line f ++ eol) c =
  with_context (with_headers (mkResponse (rs_status (current_response (request_context_ c)))
    (insert_field (of_chars f.1) (trimmed f.2) (rs_fields (current_response (request_context_ c))))) true (request_context_ c)) c.
Proof.
  intros (Hc & Hl & Hh & Hn) He Hr. unfold HeaderCallback. rewrite strip_end_app by done.
  destruct (field_line f) as [|a l] eqn:E; [by destruct f as [[|]]|]. rewrite Hh, Hr, <- E. cbn [negb].
  unfold field_line. rewrite split_first_app by done. by rewrite Hn.
Qed.

Lemma fields_step hook fs eol c :
  Forall field_ok fs → forallb is_line_end eol = true → reading_headers (request_context_ c) = true →
  foldl (λ c l, HeaderCallback hook l c) c ((λ f, field_line f ++ eol) <$> fs) =
  with_context (with_headers (mkResponse (rs_status (current_response (request_context_ c)))
    (fields_of fs (rs_fields (current_response (request_context_ c))))) true (request_context_ c)) c.
Proof.
  intros Hfs He. revert c. induction Hfs as [|f fs Hf _ IH]; intros c Hr.
  - destruct c as [[] ? ? ? ? ? ? ? ? ?]. cbn in Hr |- *. subst. by destruct current_response0.
  - rewrite fmap_cons. cbn [foldl]. rewrite (field_step hook f eol c) by done. rewrite IH by done. done.
Qed.
End Headers.

(** The headers of a response reach the hook once, when the empty line ends them, with the status
    of the status line, all the fields in order, and their values without the blanks around them,
    whatever line ends the server uses.  Lines after that, as of a trailer, change nothing until
    another response starts. *)
Theorem response_reported `{CurlTexts} (s : StatusLine) (fs : list (list ascii * list ascii)) (trailer : list (list ascii)) (eol : list ascii) c :
  status_line_ok s → Forall field_ok fs → forallb is_line_end eol = true →
  Forall (λ l, starts_http (strip_end is_line_end l) = false) trailer →
  ctx_shutting_down (request_context_ c) = false → has_callbacks (request_context_ c) = true →
  reading_headers (request_context_ c) = false →
  let c' := foldl (λ c l, HeaderCallback true l c) c
    ([status_line s ++ eol] ++ ((λ f, field_line f ++ eol) <$> fs) ++ [eol] ++ trailer) in
  tasks c' = tasks c ++ [TResponse (mkResponse (digits_value (sl_digits s)) (fields_of fs []))] ∧
  reading_headers (request_context_ c') = false.
Proof.
  intros Hs Hfs He Htr Hsd Hcb Hr c'. unfold c'. rewrite !foldl_app. cbn [foldl].
  set (c1 := HeaderCallback true (status_line s ++ eol) c).
  assert (c1 = with_context (with_headers (mkResponse (digits_value (sl_digits s)) []) true (request_context_ c)) c) as E1.
  { unfold c1, HeaderCallback. rewrite strip_end_app by (done || apply Hs). unfold status_line at 1. cbn [chars app].
    rewrite Hr. by rewrite (status_line_read s Hs). }
  rewrite (fields_step true fs eol c1) by (done || by rewrite E1). rewrite E1. cbn [request_context_ with_context current_response with_headers rs_status rs_fields].
  set (c2 := with_context _ _).
  assert (HeaderCallback true eol c2 = with_context (with_headers no_response false (request_context_ c2))
    (post_task [TResponse (mkResponse (digits_value (sl_digits s)) (fields_of fs []))] c2)) as ->.
  { unfold HeaderCallback. rewrite (strip_end_app is_line_end [] eol eq_refl He : strip_end is_line_end eol = []). cbn [request_context_ c2 with_context reading_headers with_headers].
    by rewrite context_post_live. }
  set (c3 := with_context _ _).
  assert (foldl (λ c l, HeaderCallback true l c) c3 trailer = c3) as ->; [|done].
  assert (reading_headers (request_context_ c3) = false) as Hr3 by done. clearbody c3.
  induction Htr as [|l ls Hl _ IH]; [done|]. cbn [foldl].
  replace (HeaderCallback true l c3) with c3; [done|]. unfold HeaderCallback. rewrite Hl, Hr3. by case_match.
Qed.

(** ** Samples *)

(** After a stream that ended normally the client means to reset its backoff, but records the
    success only then, and counts a failure at once: unless more than the reset interval passes
    between the two tasks, the attempt grows with every connection, however long it lasted. *)
Lemma backoff_never_resets `{CurlTexts} hook lib now1 now2 draw1 draw2 `{Web} c :
  ctx_shutting_down (request_context_ c) = false → has_callbacks (request_context_ c) = true → tasks c = [] →
  Z.quot (now2 - now1) 1000000 ≤ reset_interval_ (cc_backoff c) →
  ∃ reason, tasks (on_completion (FromCurlCode CURLE_OK) 200 c) = [TSucceed; TBackoff reason] ∧
  attempt_ (cc_backoff (run_task hook (TBackoff reason) lib now2 draw2 (run_task hook TSucceed lib now1 draw1 c))) =
    u64 (attempt_ (cc_backoff c) + 1).
Proof.
  intros Hs Hh Hq Hle. eexists. split.
  - unfold on_completion. rewrite Hs. change (status_class 200) with 2. cbn -[context_post].
    rewrite (context_post_live [TSucceed]) by done. rewrite context_post_live by done. cbn. by rewrite Hq.
  - cbn [run_task]. unfold curl_async_backoff. cbn. unfold fail. cbn. by rewrite (proj2 (Z.ltb_ge _ _)).
Qed.

(** Data that arrive do not touch the read timer: only libcurl's socket callback does. *)
Lemma data_keeps_read_timer data c : multi_manager_ (WriteCallback data c) = multi_manager_ c.
Proof.
  unfold WriteCallback. case_match; [done|]. match goal with |- context [context_post ?ts ?c'] => by destruct (context_post_cases ts c') as [->|[-> _]] end.
Qed.

#[local] Instance sample_texts : CurlTexts := {| field_name_ok n := negb (is_empty n); curl_easy_strerror _ := "error" |}.
#[local] Instance sample_payload : Web := {|
  parse_uri _ := None; resolve_url _ u := Some u; prepare_payload r := r; known_status _ := true; obsolete_reason _ := EmptyString |}.

Definition good_libcurl : Libcurl := mkLibcurl true (λ _, true) true.
Definition no_draw : double := S754_zero false.

Definition sample_curl (proxy : option string) : CurlClient :=
  default (mkCurl (mkContext false None false new_reader None 0 0 no_response false (mkRequest v_get EmptyString [] EmptyString) EmptyString None None None None None false)
             EmptyString EmptyString false (mkBackoff 0 0 0 0 None no_draw 0) false new_transfers 0 [] [])
    (new_curl_client (mkRequest v_get "/all" [("Authorization", "key")] EmptyString) "host" "https" None (Some 300000) None None false None true proxy).

Definition curl_run (proxy : option string) (acts : list CurlStep) : CurlClient :=
  foldl (curl_step None true) (curl_async_connect (sample_curl proxy)) acts.

Definition run_one : CurlStep := CRunTask good_libcurl 0 no_draw.

Definition data_line : text := chars "data: a" ++ [LF; LF].

Lemma curl_client_attended_witness :
  let c := curl_run None [run_one; CWrite 0 data_line; run_one; CDone 0 0 200; run_one; run_one; run_one] in
  (size (callbacks_ (multi_manager_ c)) ≤ 1)%nat ∧
  (callbacks_ (multi_manager_ c) ≠ ∅ → timer_armed c = false ∧ Forall (λ t, leads t = false) (tasks c)) ∧
  (Forall accepts [run_one; CWrite 0 data_line; run_one; CDone 0 0 200; run_one; run_one; run_one] →
   callbacks_ (multi_manager_ c) ≠ ∅ ∨ timer_armed c = true ∨ Exists (λ t, leads t = true) (tasks c) ∨ over c) ∧
  timer_armed c = true.
Proof.
  intros c. destruct (curl_client_attended None true (mkRequest v_get "/all" [("Authorization", "key")] EmptyString) "host" "https" None
    (Some 300000) None None false None true None (sample_curl None)
    [run_one; CWrite 0 data_line; run_one; CDone 0 0 200; run_one; run_one; run_one]) as (A & B & C).
  - vm_compute. reflexivity.
  - split_and!; [exact A|exact B|exact C|vm_compute; reflexivity].
Defined.

(** A stream on which data arrive is taken for dead when the read timeout has passed since libcurl
    last changed what it polls. *)
Example busy_stream_times_out :
  tasks (curl_run None [run_one; CWrite 0 data_line; CReadTimerExpires 0; CReadTimeout; run_one; run_one]) =
  [TError (ReadTimeout (Some 300000)); TBackoff "read timeout - no data received"].
Proof. vm_compute. reflexivity. Qed.

(** Between two transfers the client still has the number of the last socket, which libcurl has
    closed, and closes it when it is shut down or restarted. *)
Example stale_socket_closed :
  let c := curl_run None [run_one; COpenSocket 0 (Some 7); CDone 0 7 0; run_one; run_one; CRestart "reason"; run_one] in
  callbacks_ (multi_manager_ c) = ∅ ∧ XClose 7 ∈ curl_effects c.
Proof. vm_compute. split; [done|]. repeat (first [apply list_elem_of_here|apply list_elem_of_further]). Qed.

(** The body of an error response is read as events. *)
Example error_body_parsed :
  TEvent (mkSseEvent (chars "message") (chars "a") None) ∈
    tasks (curl_run None [run_one; CHeader 0 (chars "HTTP/1.1 500 Error"); CHeader 0 [CR; LF]; CWrite 0 data_line]).
Proof. vm_compute. repeat (first [apply list_elem_of_here|apply list_elem_of_further]). Qed.

(** When an option after the headers is refused, the header list is neither freed nor handed over. *)
Example refused_option_leaks :
  let c := curl_run (Some "proxy") [CRunTask (mkLibcurl true (λ o, match o with OProxy _ => false | _ => true end) true) 0 no_draw] in
  curl_effects c = [XHeaders 0] ∧ freed (multi_manager_ c) = [] ∧ headers_ (multi_manager_ c) = ∅ ∧
  tasks c = [TBackoff "failed to set CURL options"].
Proof. vm_compute. done. Qed.

(** A handle that libcurl does not take leaves the client with nothing to wait for. *)
Example refused_handle_strands :
  let c := curl_run None [CRunTask (mkLibcurl true (λ _, true) false) 0 no_draw] in
  tokens c = 0%nat ∧ tasks c = [] ∧ ctx_shutting_down (request_context_ c) = false ∧ curl_effects c = [XHeaders 0].
Proof. vm_compute. done. Qed.
