(* ===== verification/CurlRequests.v ===== *)
(** * HTTP requests on libcurl

    libs/internal/src/network/curl_requester.cpp: the alternative to the requester of
    [HttpRequester].  Any number of requests may be under way; their transfers are those of
    [CurlMulti], and the tasks posted to the executor run in order. *)

From S2P Require Import Prelude Fdv2Sources SseClient HttpRequester CurlMulti CurlClient.

Definition kErrorMalformedRequest : string := "The request was malformed and could not be made.".
Definition kErrorCurlInit : string := "Failed to initialize CURL".
Definition kErrorHeaderAppend : string := "Failed to append headers to CURL".
Definition kErrorCurlPrefix : string := "CURL error: ".

(** ** Callbacks of libcurl *)

Definition is_ows_or_end (a : ascii) : bool := is_ows a || is_line_end a.

(** A status line and an empty line are skipped; so the headers of every response of a chain of
    redirects end up in one map. *)
Definition request_header (buffer : list ascii) (headers : list (string * string)) : list (string * string) :=
  if starts_http buffer || bool_decide (buffer = [Sse.CR; Sse.LF]) || bool_decide (buffer = [Sse.LF]) then headers
  else
    match split_first ":" buffer with
    | Some (key, value) => insert_or_assign (of_chars key) (of_chars (strip_end is_ows_or_end (strip_front is_ows value))) headers
    | None => headers
    end.

(** ** Options *)

Definition request_steps_before (r : HttpRequest) : list CurlOption :=
  [OUrl (hr_url r);
   match hr_method r with kPost => OPost | kPut => OCustomRequest "PUT" | kReport => OCustomRequest "REPORT" | kGet => OHttpGet end] ++
  match hr_body r with Some body => [OPostFields body; OPostFieldSize (Z.of_nat (length (chars body)))] | None => [] end.

Definition or_positive (t dflt : Z) : Z := if 0 <? t then t else dflt.

Definition request_steps_after (tls : TlsOptions) (r : HttpRequest) : list CurlOption :=
  let p := hr_properties r in
  (match base_headers p with [] => [] | hs => [OHttpHeader ((λ h, h.1 +:+ ": " +:+ h.2) <$> hs)] end) ++
  [OConnectTimeoutMs (or_positive (HttpRequester.connect_timeout p) 30000); OTimeoutMs (or_positive (response_timeout p) 60000)] ++
  (if tls_verify_none tls then [OSslVerifyPeer 0; OSslVerifyHost 0]
   else [OSslVerifyPeer 1; OSslVerifyHost 2] ++ match tls_ca_file tls with Some f => [OCaInfo f] | None => [] end) ++
  (match HttpRequester.proxy_url p with Some u => [OProxy u] | None => [] end) ++
  [OWriteFunction; OWriteData; OHeaderFunction; OHeaderData; OFollowLocation; OMaxRedirs 20].

(** The name of an option in the message about it. *)
Definition option_name (o : CurlOption) : string :=
  match o with
  | OUrl _ => "CURLOPT_URL" | OHttpGet => "CURLOPT_HTTPGET" | OPost => "CURLOPT_POST" | OCustomRequest _ => "CURLOPT_CUSTOMREQUEST"
  | OPostFields _ => "CURLOPT_POSTFIELDS" | OPostFieldSize _ => "CURLOPT_POSTFIELDSIZE" | OHttpHeader _ => "CURLOPT_HTTPHEADER"
  | OConnectTimeoutMs _ => "CURLOPT_CONNECTTIMEOUT_MS" | OTimeoutMs _ => "CURLOPT_TIMEOUT_MS"
  | OXferInfoFunction => "CURLOPT_XFERINFOFUNCTION" | OXferInfoData => "CURLOPT_XFERINFODATA" | ONoProgress => "CURLOPT_NOPROGRESS"
  | OSslVerifyPeer _ => "CURLOPT_SSL_VERIFYPEER" | OSslVerifyHost _ => "CURLOPT_SSL_VERIFYHOST" | OCaInfo _ => "CURLOPT_CAINFO"
  | OProxy _ => "CURLOPT_PROXY" | OWriteFunction => "CURLOPT_WRITEFUNCTION" | OWriteData => "CURLOPT_WRITEDATA"
  | OHeaderFunction => "CURLOPT_HEADERFUNCTION" | OHeaderData => "CURLOPT_HEADERDATA"
  | OOpenSocketFunction => "CURLOPT_OPENSOCKETFUNCTION" | OOpenSocketData => "CURLOPT_OPENSOCKETDATA"
  | OFollowLocation => "CURLOPT_FOLLOWLOCATION" | OMaxRedirs _ => "CURLOPT_MAXREDIRS"
  end.

(** What libcurl answers while a request is set up; a refused option has a code. *)
Record Setup := mkSetup { su_init_ok : bool; su_setopt : CurlOption → option Z; su_append_ok : bool; su_add_ok : bool }.

(** ** The requester *)

Inductive RequestTask :=
| RStart (n : nat) (request : HttpRequest)
| RComplete (n : nat) (result : Result) (response_code : Z).

(** [rc_body] and [rc_headers] are the response so far. *)
Record ResponseContext := mkResponseContext { rc_body : list ascii; rc_headers : list (string * string) }.

Record CurlRequester := mkRequester {
  rq_tls : TlsOptions;
  rq_multi : Transfers (K := nat);
  rq_contexts : gmap nat ResponseContext;
  rq_tasks : list RequestTask;
  rq_issued : nat;
  rq_easy : nat;
  rq_answers : list (nat * HttpResponse);
}.

Definition new_requester (tls : TlsOptions) : CurlRequester := mkRequester tls new_transfers ∅ [] 0 0 [].

Section Requester.
Context {T : CurlTexts}.
Implicit Types (s : CurlRequester).

Definition answer (n : nat) (r : HttpResponse) s : CurlRequester :=
  mkRequester (rq_tls s) (rq_multi s) (rq_contexts s) (rq_tasks s) (rq_issued s) (rq_easy s) (rq_answers s ++ [(n, r)]).

(** [CurlRequester::Request] *)
Definition curl_Request (request : HttpRequest) s : CurlRequester :=
  mkRequester (rq_tls s) (rq_multi s) (rq_contexts s) (rq_tasks s ++ [RStart (rq_issued s) request]) (S (rq_issued s)) (rq_easy s)
    (rq_answers s).

Definition option_error (o : CurlOption) (code : Z) : HttpResponse :=
  error_result (kErrorCurlPrefix +:+ "curl_easy_setopt failed for " +:+ option_name o +:+ ": " +:+ curl_easy_strerror code).

Fixpoint first_refused (setopt : CurlOption → option Z) (os : list CurlOption) : option (CurlOption * Z) :=
  match os with
  | [] => None
  | o :: os' => match setopt o with Some code => Some (o, code) | None => first_refused setopt os' end
  end.

Definition perform_request (su : Setup) (n : nat) (request : HttpRequest) s : CurlRequester :=
  if negb (hr_valid request) then answer n (error_result kErrorMalformedRequest) s
  else if negb (su_init_ok su) then answer n (error_result kErrorCurlInit) s
  else
    match first_refused (su_setopt su) (request_steps_before request) with
    | Some (o, code) => answer n (option_error o code) s
    | None =>
        if negb (su_append_ok su) && negb (bool_decide (base_headers (hr_properties request) = []))
        then answer n (error_result kErrorHeaderAppend) s
        else
          match first_refused (su_setopt su) (request_steps_after (rq_tls s) request) with
          | Some (o, code) => answer n (option_error o code) s
          | None =>
              let easy := rq_easy s in
              let headers := if bool_decide (base_headers (hr_properties request) = []) then None else Some easy in
              mkRequester (rq_tls s) (add_handle (su_add_ok su) easy headers n None (rq_multi s))
                (<[n := mkResponseContext [] []]> (rq_contexts s)) (rq_tasks s) (rq_issued s) (S easy) (rq_answers s)
          end
    end.

(** The completion callback. *)
Definition complete_request (n : nat) (result : Result) (response_code : Z) s : CurlRequester :=
  let x := default (mkResponseContext [] []) (rq_contexts s !! n) in
  answer n
    (match result with
     | FromReadTimeout => error_result "Request timed out"
     | FromCurlCode code =>
         if negb (code =? CURLE_OK) then error_result (kErrorCurlPrefix +:+ curl_easy_strerror code)
         else mkHttpResponse false None response_code (Some (of_chars (rc_body x))) (rc_headers x)
     end) s.

(** The callbacks find the context of their request through its handle. *)
Definition with_response (easy : nat) (f : ResponseContext → ResponseContext) s : CurlRequester :=
  match callbacks_ (rq_multi s) !! easy with
  | Some n =>
      mkRequester (rq_tls s) (rq_multi s) (<[n := f (default (mkResponseContext [] []) (rq_contexts s !! n))]> (rq_contexts s))
        (rq_tasks s) (rq_issued s) (rq_easy s) (rq_answers s)
  | None => s
  end.

Inductive RequestStep :=
| QRequest (request : HttpRequest)
| QRun (su : Setup)
| QHeader (easy : nat) (buffer : list ascii)
| QWrite (easy : nat) (data : list ascii)
| QDone (easy : nat) (code response_code : Z).

Definition request_step s (a : RequestStep) : CurlRequester :=
  match a with
  | QRequest request => curl_Request request s
  | QRun su =>
      match rq_tasks s with
      | t :: rest =>
          let s := mkRequester (rq_tls s) (rq_multi s) (rq_contexts s) rest (rq_issued s) (rq_easy s) (rq_answers s) in
          match t with
          | RStart n request => perform_request su n request s
          | RComplete n result response_code => complete_request n result response_code s
          end
      | [] => s
      end
  | QHeader easy buffer => with_response easy (λ x, mkResponseContext (rc_body x) (request_header buffer (rc_headers x))) s
  | QWrite easy data => with_response easy (λ x, mkResponseContext (rc_body x ++ data) (rc_headers x)) s
  | QDone easy code response_code =>
      let m := check_multi_info [Some (easy, code)] (rq_multi s) in
      let posted := drop (length (completions (rq_multi s))) (completions m) in
      mkRequester (rq_tls s) m (rq_contexts s) (rq_tasks s ++ ((λ p, RComplete p.1.2 p.2 response_code) <$> posted))
        (rq_issued s) (rq_easy s) (rq_answers s)
  end.

(** ** Every request is answered once *)

Definition task_request (t : RequestTask) : nat := match t with RStart n _ => n | RComplete n _ _ => n end.

(** Where the requests are: to be started or answered by a task, in flight, answered. *)
Definition whereabouts s : list nat :=
  (task_request <$> rq_tasks s) ++ (map_to_list (callbacks_ (rq_multi s))).*2 ++ (rq_answers s).*1.

Definition adds (a : RequestStep) : Prop := match a with QRun su => su_add_ok su = true | _ => True end.

Record RequestsOk s : Prop := {
  ro_once : whereabouts s ≡ₚ seq 0 (rq_issued s);
  ro_easy e : e ∈ dom (callbacks_ (rq_multi s)) → (e < rq_easy s)%nat;
}.

Lemma answer_ok n r tls m x ts i e as_ :
  RequestsOk (mkRequester tls m x (RStart n r :: ts) i e as_) ∨ (∃ res code, RequestsOk (mkRequester tls m x (RComplete n res code :: ts) i e as_)) →
  ∀ res, RequestsOk (answer n res (mkRequester tls m x ts i e as_)).
Proof.
  intros Hor res. assert ((n :: (task_request <$> ts)) ++ (map_to_list (callbacks_ m)).*2 ++ as_.*1 ≡ₚ seq 0 i ∧
    ∀ e', e' ∈ dom (callbacks_ m) → (e' < e)%nat) as [Hp He].
  { by destruct Hor as [[Hp He]|(? & ? & [Hp He])]. }
  split; [|done]. unfold whereabouts, answer. cbn. rewrite fmap_app. cbn. rewrite <- Hp. cbn.
  rewrite !app_assoc. symmetry. apply Permutation_cons_append.
Qed.

Lemma add_request_ok n r tls m x x' ts i e as_ h :
  RequestsOk (mkRequester tls m x (RStart n r :: ts) i e as_) →
  RequestsOk (mkRequester tls (add_handle true e h n None m) x' ts i (S e) as_).
Proof.
  intros [Hp He]. cbn in He. unfold add_handle. cbn. split.
  - unfold whereabouts in *. cbn in Hp |- *.
    rewrite map_to_list_insert by (apply not_elem_of_dom; intros Hin; apply He in Hin; lia).
    cbn. rewrite <- Hp. symmetry. apply Permutation_middle.
  - cbn. intros e'. rewrite dom_insert_L. intros [->%elem_of_singleton|Hin%He]%elem_of_union; lia.
Qed.

Lemma start_ok su n r tls m x ts i e as_ :
  su_add_ok su = true → RequestsOk (mkRequester tls m x (RStart n r :: ts) i e as_) →
  RequestsOk (perform_request su n r (mkRequester tls m x ts i e as_)).
Proof.
  intros Hadd Hok. pose proof (answer_ok n r tls m x ts i e as_ (or_introl Hok)) as Ha.
  unfold perform_request. rewrite Hadd. repeat case_match; try apply Ha; by eapply add_request_ok.
Qed.

Lemma done_ok easy code rc s : RequestsOk s → RequestsOk (request_step s (QDone easy code rc)).
Proof.
  intros [Hp He]. destruct s as [tls m x ts i e as_]. cbn in *. rewrite drop_app_length. split; cbn.
  - rewrite <- Hp. unfold whereabouts. cbn. destruct (callbacks_ m !! easy) as [n|] eqn:E; cbn.
    + rewrite <- (map_to_list_delete _ _ _ E). cbn. rewrite fmap_app, <- app_assoc. cbn. done.
    + by rewrite delete_id, app_nil_r.
  - intros e'. rewrite dom_delete_L. intros Hin. apply He. set_solver.
Qed.

Lemma request_step_ok a s : adds a → RequestsOk s → RequestsOk (request_step s a).
Proof.
  intros Hadd Hok. destruct a as [r|su|easy b|easy d|easy code rc]; [| | | |by apply done_ok].
  - destruct Hok as [Hp He]. split; [|done]. unfold whereabouts in *. cbn. rewrite fmap_app, <- app_assoc. cbn.
    rewrite <- Permutation_middle, Hp. rewrite Permutation_cons_append, <- seq_S. done.
  - destruct s as [tls m x [|t ts] i e as_]; [done|]. cbn in Hadd |- *. destruct t as [n r|n res code]; [by apply start_ok|].
    apply (answer_ok n (mkHttpRequest EmptyString kGet None (mkProperties 0 0 0 0 [] (mkTls false None) None) EmptyString None EmptyString false false)).
    right. by exists res, code.
  - cbn. unfold with_response. destruct (callbacks_ (rq_multi s) !! easy); [|done]. by destruct Hok.
  - cbn. unfold with_response. destruct (callbacks_ (rq_multi s) !! easy); [|done]. by destruct Hok.
Qed.

(** Requests are neither lost nor answered twice: as long as libcurl takes the handles, at any
    time each request that was made waits to be started, is in flight, waits to be answered, or
    has been answered, exactly one of these and exactly once. *)
Theorem requests_answered_once tls (steps : list RequestStep) :
  Forall adds steps →
  let s := foldl request_step (new_requester tls) steps in
  (task_request <$> rq_tasks s) ++ (map_to_list (callbacks_ (rq_multi s))).*2 ++ (rq_answers s).*1 ≡ₚ seq 0 (rq_issued s).
Proof.
  intros Hs s. enough (RequestsOk s) as [Hp _] by exact Hp.
  assert (RequestsOk (new_requester tls)) as Hok by (split; [done|cbn; rewrite dom_empty_L; set_solver]).
  unfold s. revert Hok. generalize (new_requester tls). induction Hs as [|a steps Ha _ IH]; intros s0 Hok; [done|].
  apply IH. by apply request_step_ok.
Qed.

(** A handle that libcurl does not take is dropped with its callback: no answer is given. *)
Lemma refused_request_unanswered su tls request :
  hr_valid request = true → su_init_ok su = true → (∀ o, su_setopt su o = None) → su_append_ok su = true → su_add_ok su = false →
  let s := foldl request_step (new_requester tls) [QRequest request; QRun su] in
  rq_answers s = [] ∧ rq_tasks s = [] ∧ callbacks_ (rq_multi s) = ∅.
Proof.
  intros Hv Hi Ho Ha Hadd s.
  assert (∀ os, first_refused (su_setopt su) os = None) as Hf by (induction os as [|o os IH]; [done|]; cbn; by rewrite Ho).
  assert (s = perform_request su 0 request (mkRequester tls new_transfers ∅ [] 1 0 [])) as -> by done.
  unfold perform_request. rewrite Hv, Hi, !Hf, Ha, Hadd. cbn -[base_headers]. by repeat case_match.
Qed.
End Requester.

(** The headers of a redirect stay among those of the response it led to. *)
Example redirect_headers_merged :
  foldl (λ hs l, request_header l hs) []
    ((λ l, chars l ++ [Sse.CR; Sse.LF]) <$>
     ["HTTP/1.1 301 Moved"; "ETag: old"; "Location: /new"; EmptyString; "HTTP/1.1 200 OK"; "Content-Type: application/json"; EmptyString]) =
  [("ETag", "old"); ("Location", "/new"); ("Content-Type", "application/json")].
Proof. vm_compute. reflexivity. Qed.
