(* ===== verification/TracingHooks.v ===== *)
(** * The OpenTelemetry hook

    libs/server-sdk-otel/src/tracing_hook.cpp, tracing_hook.hpp: a hook that starts a span around
    an evaluation and adds an event about its result to the active span.

    Spans are OpenTelemetry's: what is called on each is recorded, whether [StartSpan] gives a span
    and which span is the active one are arguments of the steps.  Evaluations on any number of
    threads interleave; that each gets back in its second stage what it returned from its first is
    what [Hooks] shows of the executor.  The pointers to [std::any] that are handed around are not
    null. *)

From S2P Require Import Prelude OrderedMap Doubles Values Contexts Reasons Json Persistence Hooks.

Definition FEATURE_FLAG_KEY : string := "feature_flag.key".
Definition FEATURE_FLAG_PROVIDER_NAME : string := "feature_flag.provider.name".
Definition FEATURE_FLAG_CONTEXT_ID : string := "feature_flag.context.id".
Definition FEATURE_FLAG_CONTEXT_KEY : string := "feature_flag.context.key".
Definition FEATURE_FLAG_SET_ID : string := "feature_flag.set.id".
Definition FEATURE_FLAG_RESULT_VALUE : string := "feature_flag.result.value".
Definition FEATURE_FLAG_RESULT_VARIATION_INDEX : string := "feature_flag.result.variationIndex".
Definition FEATURE_FLAG_RESULT_REASON_IN_EXPERIMENT : string := "feature_flag.result.reason.inExperiment".
Definition PROVIDER_NAME : string := "LaunchDarkly".
Definition EVENT_NAME : string := "feature_flag".

(** [series_keys::SPAN] and [hook_ctx_keys::SPAN]. *)
Definition SPAN : string := "otel.span".

(** ** Options *)

Record TracingHookOptions := mkTracingOptions {
  include_value_ : bool;
  create_spans_ : bool;
  trace_environment_id_ : option string;
}.

Definition default_options : TracingHookOptions := mkTracingOptions false false None.
Definition IncludeValue (include_value : bool) (o : TracingHookOptions) : TracingHookOptions :=
  mkTracingOptions include_value (create_spans_ o) (trace_environment_id_ o).
Definition CreateSpans (create_spans : bool) (o : TracingHookOptions) : TracingHookOptions :=
  mkTracingOptions (include_value_ o) create_spans (trace_environment_id_ o).
Definition EnvironmentId (environment_id : string) (o : TracingHookOptions) : TracingHookOptions :=
  if negb (is_empty environment_id) then mkTracingOptions (include_value_ o) (create_spans_ o) (Some environment_id) else o.

(** ** Spans *)

Inductive AttributeValue := AString (s : string) | AInt (z : Z) | ABool (b : bool).

Inductive SpanCall :=
| SetAttribute (key : string) (value : AttributeValue)
| AddEvent (name : string) (attributes : list (string * AttributeValue))
| End_.

#[global] Instance AttributeValue_eq_dec : EqDecision AttributeValue.
Proof. solve_decision. Defined.
#[global] Instance SpanCall_eq_dec : EqDecision SpanCall.
Proof. solve_decision. Defined.

Record Span := mkSpan { span_name : string; span_valid : bool; span_calls : list SpanCall }.

Notation Spans := (gmap nat Span).

Definition call_span (id : nat) (calls : list SpanCall) (ss : Spans) : Spans :=
  alter (λ s, mkSpan (span_name s) (span_valid s) (span_calls s ++ calls)) id ss.

(** What a [std::any] may hold: a pointer to a span, maybe null, or something else. *)
Inductive Any := ASpan (span : option nat) | AOther.

(** [any_cast] to a pointer of a span, and whether that is null. *)
Definition span_in (a : Any) : option nat := match a with ASpan (Some id) => Some id | _ => None end.

(** ** The hook *)

Section Tracing.
Context {J : JsonText} (options_ : TracingHookOptions).
Implicit Types (series_context : EvaluationSeriesContext Any) (data : EvaluationSeriesData Any) (ss : Spans).

(** [current]: what OpenTelemetry says is the current span. *)
Definition GetActiveSpan (hook_ctx : HookContext Any) (current : option nat) : option nat :=
  match HookContext_Get SPAN hook_ctx with
  | Some a => match span_in a with Some id => Some id | None => current end
  | None => current
  end.

Definition GetEnvironmentId series_context : option string :=
  match trace_environment_id_ options_ with
  | Some id => Some id
  | None => es_environment_id _ series_context
  end.

(** [started]: the span [StartSpan] gave, by its name, and whether it is one that is recorded. *)
Definition tracing_BeforeEvaluation series_context data (started : option (nat * bool)) ss : EvaluationSeriesData Any * Spans :=
  if negb (create_spans_ options_) then (data, ss)
  else
    match started with
    | Some (id, valid) =>
        (Builder_SetShared SPAN (ASpan (Some id)) data,
         <[id := mkSpan ("LDClient." +:+ es_method _ series_context) valid
                   [SetAttribute FEATURE_FLAG_KEY (AString (es_flag_key series_context));
                    SetAttribute FEATURE_FLAG_CONTEXT_KEY (AString (canonical_key_ (es_context _ series_context)))]]> ss)
    | None => (data, ss)
    end.

Definition event_attributes series_context (detail : EvaluationDetail Value) : list (string * AttributeValue) :=
  [(FEATURE_FLAG_KEY, AString (es_flag_key series_context));
   (FEATURE_FLAG_PROVIDER_NAME, AString PROVIDER_NAME);
   (FEATURE_FLAG_CONTEXT_ID, AString (canonical_key_ (es_context _ series_context)))] ++
  match GetEnvironmentId series_context with Some id => [(FEATURE_FLAG_SET_ID, AString id)] | None => [] end ++
  (if include_value_ options_ then [(FEATURE_FLAG_RESULT_VALUE, AString (serialize (from_Value (value_ detail))))] else []) ++
  (if match reason_ detail with Some r => in_experiment_ r | None => false end
   then [(FEATURE_FLAG_RESULT_REASON_IN_EXPERIMENT, ABool true)] else []) ++
  match variation_index_ detail with Some i => [(FEATURE_FLAG_RESULT_VARIATION_INDEX, AInt (s64 i))] | None => [] end.

Definition AddFeatureFlagEvent (id : nat) series_context (detail : EvaluationDetail Value) ss : Spans :=
  call_span id [AddEvent EVENT_NAME (event_attributes series_context detail)] ss.

(** The span of the first stage. *)
Definition own_span data : option nat :=
  match SeriesData_GetShared SPAN data with Some a => span_in a | None => None end.

Definition span_is_valid ss (id : nat) : bool := match ss !! id with Some s => span_valid s | None => false end.

Definition tracing_AfterEvaluation series_context data (detail : EvaluationDetail Value) (current : option nat) ss : Spans :=
  let ss :=
    if create_spans_ options_ then match own_span data with Some id => call_span id [End_] ss | None => ss end else ss in
  match GetActiveSpan (es_hook_context _ series_context) current with
  | Some id => if span_is_valid ss id then AddFeatureFlagEvent id series_context detail ss else ss
  | None => ss
  end.

(** ** Evaluations on many threads *)

(** An evaluation whose second stage has run, with the span that was the active one. *)
Record Traced := mkTraced { tr_series : EvaluationSeriesContext Any; tr_detail : EvaluationDetail Value; tr_active : option nat }.

(** [begun] are the evaluations in the order of their first stages, which number them; [under_way]
    those between their stages; [own] which evaluation a span of the hook is of. *)
Record Tracing := mkTracing {
  spans : Spans;
  next_span : nat;
  begun : list (EvaluationSeriesContext Any);
  under_way : gmap nat (EvaluationSeriesData Any);
  own : gmap nat nat;
  traced : list Traced;
}.

Definition new_tracing : Tracing := mkTracing ∅ 0 [] ∅ ∅ [].

(** [started]: whether [StartSpan] gives a span, and whether a valid one. *)
Inductive TraceStep :=
| EBefore (series : EvaluationSeriesContext Any) (started : option bool)
| EAfter (evaluation : nat) (detail : EvaluationDetail Value) (current : option nat)
| EOther (name : string) (valid : bool).

(** A pointer to a span points to one that was started. *)
Definition exists_in (ss : Spans) (id : option nat) : bool :=
  match id with Some id => bool_decide (is_Some (ss !! id)) | None => true end.

Definition trace_step (t : Tracing) (a : TraceStep) : Tracing :=
  match a with
  | EBefore series started =>
      let id := next_span t in
      let e := length (begun t) in
      let '(data, ss) := tracing_BeforeEvaluation series [] ((λ valid, (id, valid)) <$> started) (spans t) in
      mkTracing ss (S id) (begun t ++ [series]) (<[e := data]> (under_way t))
        (match own_span data with Some id => <[id := e]> (own t) | None => own t end) (traced t)
  | EAfter e detail current =>
      match begun t !! e, under_way t !! e with
      | Some series, Some data =>
          let active := GetActiveSpan (es_hook_context _ series) current in
          if exists_in (spans t) active then
            mkTracing (tracing_AfterEvaluation series data detail current (spans t)) (next_span t) (begun t) (delete e (under_way t))
              (own t) (traced t ++ [mkTraced series detail active])
          else t
      | _, _ => t
      end
  | EOther name valid =>
      mkTracing (<[next_span t := mkSpan name valid []]> (spans t)) (S (next_span t)) (begun t) (under_way t) (own t) (traced t)
  end.
End Tracing.

(** ** What the spans show *)

(** The events of a span, in order, and how often it was ended. *)
Definition events_of (s : Span) : list (string * list (string * AttributeValue)) :=
  omap (λ c, match c with AddEvent n attrs => Some (n, attrs) | _ => None end) (span_calls s).

Definition ends_of (s : Span) : nat := length (filter (λ c, c = End_) (span_calls s)).

Section Traces.
Context {J : JsonText} (options_ : TracingHookOptions).
Implicit Types (t : Tracing).

(** The events that the evaluations with the active span [id] ask for. *)
Definition expected_events (id : nat) (done_ : list Traced) : list (string * list (string * AttributeValue)) :=
  (λ r, (EVENT_NAME, event_attributes options_ (tr_series r) (tr_detail r))) <$> filter (λ r, tr_active r = Some id) done_.

(** A span that the hook started for an evaluation. *)
Record OwnSpan t (e : nat) (s : Span) : Prop := {
  own_named : ∃ series later, begun t !! e = Some series ∧ span_name s = "LDClient." +:+ es_method _ series ∧
    span_calls s = [SetAttribute FEATURE_FLAG_KEY (AString (es_flag_key series));
                    SetAttribute FEATURE_FLAG_CONTEXT_KEY (AString (canonical_key_ (es_context _ series)))] ++ later;
  own_ended : ends_of s = if bool_decide (is_Some (under_way t !! e)) then 0%nat else 1%nat;
}.

Record TracesOk t : Prop := {
  ok_spans : ∀ id, is_Some (spans t !! id) → (id < next_span t)%nat;
  ok_running : ∀ e, is_Some (under_way t !! e) → (e < length (begun t))%nat;
  ok_data : ∀ e data id, under_way t !! e = Some data → own_span data = Some id ↔ own t !! id = Some e;
  ok_created : ∀ id e, own t !! id = Some e → create_spans_ options_ = true;
  ok_own : ∀ id e, own t !! id = Some e → ∃ s, spans t !! id = Some s ∧ OwnSpan t e s;
  ok_events : ∀ id s, spans t !! id = Some s → events_of s = if span_valid s then expected_events id (traced t) else [];
  ok_active : ∀ r id, r ∈ traced t → tr_active r = Some id → is_Some (spans t !! id);
}.

(** What the second stage calls on a span. *)
Definition after_calls (series : EvaluationSeriesContext Any) (data : EvaluationSeriesData Any) (detail : EvaluationDetail Value)
    (active : option nat) (id : nat) (s : Span) : list SpanCall :=
  (if create_spans_ options_ && bool_decide (own_span data = Some id) then [End_] else []) ++
  (if bool_decide (active = Some id) && span_valid s then [AddEvent EVENT_NAME (event_attributes options_ series detail)] else []).

Lemma after_calls_ends series data detail active id s :
  length (filter (λ c, c = End_) (after_calls series data detail active id s)) =
    if create_spans_ options_ && bool_decide (own_span data = Some id) then 1%nat else 0%nat.
Proof.
  unfold after_calls. generalize (event_attributes options_ series detail). intros attrs.
  destruct (create_spans_ options_ && _), (bool_decide (active = Some id) && _); reflexivity.
Qed.

Lemma after_calls_events series data detail active id s :
  omap (λ c, match c with AddEvent n attrs => Some (n, attrs) | _ => None end) (after_calls series data detail active id s) =
    if bool_decide (active = Some id) && span_valid s then [(EVENT_NAME, event_attributes options_ series detail)] else [].
Proof.
  unfold after_calls. generalize (event_attributes options_ series detail). intros attrs.
  destruct (create_spans_ options_ && _), (bool_decide (active = Some id) && _); reflexivity.
Qed.

Lemma call_span_lookup ss id calls id' :
  call_span id calls ss !! id' =
    (λ s, if bool_decide (id' = id) then mkSpan (span_name s) (span_valid s) (span_calls s ++ calls) else s) <$> ss !! id'.
Proof.
  unfold call_span. case_bool_decide as E; [subst; by rewrite lookup_alter_eq|].
  rewrite lookup_alter_ne by done. by destruct (ss !! id').
Qed.

Lemma after_lookup series data detail current ss id :
  tracing_AfterEvaluation options_ series data detail current ss !! id =
    (λ s, mkSpan (span_name s) (span_valid s)
            (span_calls s ++ after_calls series data detail (GetActiveSpan (es_hook_context _ series) current) id s)) <$> ss !! id.
Proof.
  unfold tracing_AfterEvaluation, after_calls.
  set (ss1 := if create_spans_ options_ then _ else _).
  assert (∀ i, ss1 !! i = (λ s, mkSpan (span_name s) (span_valid s)
            (span_calls s ++ if create_spans_ options_ && bool_decide (own_span data = Some i) then [End_] else [])) <$> ss !! i) as H1.
  { intros i. unfold ss1. destruct (create_spans_ options_); [destruct (own_span data) as [o|]; [rewrite call_span_lookup|]|];
      (destruct (ss !! i) as [[n v cs]|]; [cbn|done]); rewrite ?app_nil_r; [|done|done].
    repeat case_bool_decide; rewrite ?app_nil_r; congruence. }
  destruct (GetActiveSpan _ current) as [a|].
  2:{ rewrite H1. destruct (ss !! id) as [[n v cs]|]; [|done]. cbn. by rewrite !app_nil_r. }
  unfold span_is_valid. rewrite (H1 a). destruct (ss !! a) as [[n v cs]|] eqn:Ea; cbn -[event_attributes]; [destruct v; cbn -[event_attributes]|].
  - unfold AddFeatureFlagEvent. rewrite call_span_lookup, H1. destruct (decide (id = a)) as [->|Hne].
    + rewrite Ea, (bool_decide_true (a = a)), (bool_decide_true (Some a = Some a)) by done. cbn -[event_attributes].
      by rewrite app_assoc.
    + rewrite (bool_decide_false (id = a)) by done. rewrite (bool_decide_false (Some a = Some id)) by congruence.
      destruct (ss !! id); [|done]. cbn. by rewrite app_nil_r.
  - rewrite H1. destruct (decide (id = a)) as [->|Hne]; [rewrite Ea; cbn; by rewrite andb_false_r, !app_nil_r|].
    rewrite (bool_decide_false (Some a = Some id)) by congruence. destruct (ss !! id); [|done]. cbn. by rewrite app_nil_r.
  - rewrite H1. destruct (decide (id = a)) as [->|Hne]; [by rewrite Ea|].
    rewrite (bool_decide_false (Some a = Some id)) by congruence. destruct (ss !! id); [|done]. cbn. by rewrite app_nil_r.
Qed.

Lemma expected_app id a b : expected_events id (a ++ b) = expected_events id a ++ expected_events id b.
Proof. unfold expected_events. by rewrite filter_app, fmap_app. Qed.

Lemma expected_none t id : TracesOk t → spans t !! id = None → expected_events id (traced t) = [].
Proof.
  intros Hok Hid. unfold expected_events. enough (∀ l, (∀ r, r ∈ l → tr_active r ≠ Some id) → filter (λ r, tr_active r = Some id) l = []) as ->.
  - done.
  - intros r Hr Ha. destruct (ok_active _ Hok r id Hr Ha) as [s Hs]. congruence.
  - induction l as [|r l IH]; intros Hl; [done|]. rewrite filter_cons_False by (apply Hl; by left). apply IH. intros r' Hr'. apply Hl. by right.
Qed.

Lemma own_span_mono t t' e s : e ≠ length (begun t) → prefix (begun t) (begun t') → under_way t' !! e = under_way t !! e → OwnSpan t e s → OwnSpan t' e s.
Proof.
  intros Hne Hp Hu [(series & later & Hb & Hn & Hc) He]. split; [|by rewrite Hu].
  exists series, later. split; [by eapply prefix_lookup_Some|done].
Qed.

Lemma other_ok t name valid : TracesOk t → TracesOk (trace_step options_ t (EOther name valid)).
Proof.
  intros Hok. assert (spans t !! next_span t = None) as Hnew.
  { destruct (spans t !! next_span t) eqn:E; [|done]. assert (next_span t < next_span t)%nat; [by apply Hok; eauto|lia]. }
  split; cbn -[expected_events].
  - intros id Hid. destruct (decide (id = next_span t)) as [->|]; [lia|]. rewrite lookup_insert_ne in Hid by done.
    apply Hok in Hid. lia.
  - apply Hok.
  - apply Hok.
  - apply Hok.
  - intros id e He. destruct (ok_own _ Hok _ _ He) as (s & Hs & Hos). exists s. split.
    + rewrite lookup_insert_ne; [done|congruence].
    + by destruct Hos; split.
  - intros id s. destruct (decide (id = next_span t)) as [->|]; [|rewrite lookup_insert_ne by done; apply Hok].
    rewrite lookup_insert_eq. intros [= <-]. cbn. rewrite expected_none by done. by destruct valid.
  - intros r id Hr Ha. destruct (ok_active _ Hok _ _ Hr Ha) as [s Hs]. exists s.
    rewrite lookup_insert_ne; [done|congruence].
Qed.

(** The first stage of an evaluation, when it started a span or not. *)
Lemma begin_ok t series data (o : option Span) :
  TracesOk t → own_span data = (if o then Some (next_span t) else None) →
  (∀ s, o = Some s → create_spans_ options_ = true ∧ span_name s = "LDClient." +:+ es_method _ series ∧
     span_calls s = [SetAttribute FEATURE_FLAG_KEY (AString (es_flag_key series));
                     SetAttribute FEATURE_FLAG_CONTEXT_KEY (AString (canonical_key_ (es_context _ series)))]) →
  TracesOk (mkTracing (match o with Some s => <[next_span t := s]> (spans t) | None => spans t end) (S (next_span t))
    (begun t ++ [series]) (<[length (begun t) := data]> (under_way t))
    (match own_span data with Some id => <[id := length (begun t)]> (own t) | None => own t end) (traced t)).
Proof.
  intros Hok Hdata Ho. assert (spans t !! next_span t = None) as Hnew.
  { destruct (spans t !! next_span t) eqn:E; [|done]. assert (next_span t < next_span t)%nat; [by apply Hok; eauto|lia]. }
  assert (under_way t !! length (begun t) = None) as Hfresh.
  { destruct (under_way t !! length (begun t)) eqn:E; [|done]. assert (length (begun t) < length (begun t))%nat; [by apply Hok; eauto|lia]. }
  assert (∀ id e, own t !! id = Some e → e ≠ length (begun t) ∧ id ≠ next_span t) as Hne.
  { intros id e He. destruct (ok_own _ Hok _ _ He) as (s & Hs & [(sr & l & Hb & _) _]).
    split; [apply lookup_lt_Some in Hb; lia|congruence]. }
  set (ss := match o with Some s => _ | None => _ end). set (ow := match own_span data with Some id => _ | None => _ end).
  assert (∀ id, id ≠ next_span t → ss !! id = spans t !! id) as Hss by (intros; unfold ss; destruct o; [by rewrite lookup_insert_ne|done]).
  assert (∀ id e, ow !! id = Some e ↔ (own_span data = Some id ∧ e = length (begun t)) ∨ own t !! id = Some e) as How.
  { intros id e. unfold ow. rewrite Hdata. destruct o; [|naive_solver]. destruct (decide (id = next_span t)) as [->|Hi].
    - rewrite lookup_insert_eq. split; [intros [= <-]; by left|]. intros [[_ ->]|He]; [done|by apply Hne in He as [_ ?]].
    - rewrite lookup_insert_ne by done. split; [by right|]. intros [[[= E] _]|?]; [by destruct Hi|done]. }
  split; cbn -[expected_events].
  - intros id Hid. destruct (decide (id = next_span t)) as [->|]; [lia|]. rewrite Hss in Hid by done. apply Hok in Hid. lia.
  - intros e He. rewrite length_app. cbn. destruct (decide (e = length (begun t))) as [->|]; [lia|].
    rewrite lookup_insert_ne in He by done. apply Hok in He. lia.
  - intros e d id. rewrite How. destruct (decide (e = length (begun t))) as [->|].
    + rewrite lookup_insert_eq. intros [= <-]. split; [by left|]. intros [[? _]|He]; [done|by apply Hne in He as [? _]].
    + rewrite lookup_insert_ne by done. intros Hd. rewrite (ok_data _ Hok _ _ _ Hd). naive_solver.
  - intros id e. rewrite How. intros [[Hd _]|He]; [|by eapply ok_created].
    rewrite Hdata in Hd. destruct o as [s|]; [|done]. by apply (Ho s).
  - intros id e. rewrite How. intros [[Hd ->]|He].
    + rewrite Hdata in Hd. destruct o as [s|]; [|done]. injection Hd as <-. destruct (Ho s eq_refl) as (_ & Hn & Hc).
      exists s. split; [apply lookup_insert_eq|]. split; cbn.
      * exists series, []. rewrite lookup_app_r, Nat.sub_diag by lia. done.
      * rewrite lookup_insert_eq. unfold ends_of. by rewrite Hc.
    + destruct (ok_own _ Hok _ _ He) as (s & Hs & Hos). destruct (Hne _ _ He) as [H1 H2]. exists s.
      split; [by rewrite Hss|]. eapply own_span_mono; [exact H1| | |exact Hos]; cbn; [by apply prefix_app_r|by rewrite lookup_insert_ne].
  - intros id s. destruct (decide (id = next_span t)) as [->|]; [|rewrite Hss by done; apply Hok].
    unfold ss. destruct o as [s'|]; [|congruence]. rewrite lookup_insert_eq. intros [= ->].
    destruct (Ho s eq_refl) as (_ & _ & Hc). rewrite expected_none by done. unfold events_of. rewrite Hc. by destruct (span_valid s).
  - intros r id Hr Ha. destruct (ok_active _ Hok _ _ Hr Ha) as [s Hs]. exists s. rewrite Hss; [done|congruence].
Qed.

Lemma trace_before_ok t series started : TracesOk t → TracesOk (trace_step options_ t (EBefore series started)).
Proof.
  intros Hok. cbn -[own_span]. unfold tracing_BeforeEvaluation. destruct (create_spans_ options_) eqn:Hcreate; [destruct started as [valid|]|].
  - apply (begin_ok t series (Builder_SetShared SPAN (ASpan (Some (next_span t))) []) (Some _)); [done|done|]. by intros s [= <-].
  - by apply (begin_ok t series [] None).
  - by apply (begin_ok t series [] None).
Qed.

Lemma trace_after_ok t e detail current : TracesOk t → TracesOk (trace_step options_ t (EAfter e detail current)).
Proof.
  intros Hok. cbn. destruct (begun t !! e) as [series|] eqn:Hb; [|done]. destruct (under_way t !! e) as [data|] eqn:Hu; [|done].
  set (active := GetActiveSpan _ current). destruct (exists_in (spans t) active) eqn:Hex; [|done].
  split; cbn -[expected_events].
  - intros id. rewrite after_lookup, fmap_is_Some. apply Hok.
  - intros e' He'. apply Hok. destruct (decide (e' = e)) as [->|]; [by eauto|]. by rewrite lookup_delete_ne in He'.
  - intros e' d id Hd. apply lookup_delete_Some in Hd as [_ Hd]. by apply Hok.
  - apply Hok.
  - intros id e' He'. destruct (ok_own _ Hok _ _ He') as (s & Hs & [(sr & later & Hb' & Hn & Hc) Hend]).
    rewrite after_lookup, Hs. eexists. split; [done|]. fold active.
    assert (ends_of (mkSpan (span_name s) (span_valid s) (span_calls s ++ after_calls series data detail active id s)) =
              (ends_of s + if bool_decide (e' = e) then 1 else 0)%nat) as Hends.
    { unfold ends_of. cbn -[after_calls]. rewrite filter_app, length_app, after_calls_ends, (ok_created _ Hok _ _ He'). f_equal. cbn.
      assert (own_span data = Some id ↔ e' = e) as Hiff.
      { rewrite (ok_data _ Hok _ _ _ Hu), He'. split; [by intros [= ->]|by intros ->]. }
      by rewrite (bool_decide_ext _ _ Hiff). }
    split; cbn -[event_attributes ends_of after_calls].
    + exists sr, (later ++ after_calls series data detail active id s). by rewrite Hc.
    + rewrite Hends, Hend. destruct (decide (e' = e)) as [->|Hne].
      * rewrite lookup_delete_eq, Hu, (bool_decide_true (e = e)) by done. done.
      * rewrite lookup_delete_ne, (bool_decide_false (e' = e)) by done. lia.
  - intros id s. rewrite after_lookup, fmap_Some. intros (s0 & Hs0 & ->). fold active. cbn -[expected_events after_calls].
    rewrite expected_app. unfold events_of. cbn -[expected_events after_calls]. rewrite omap_app.
    pose proof (ok_events _ Hok _ _ Hs0) as He. unfold events_of in He. rewrite He.
    rewrite after_calls_events. destruct (span_valid s0); [rewrite andb_true_r|by rewrite andb_false_r]. f_equal.
    unfold expected_events. case_bool_decide as E; [by rewrite filter_cons_True|by rewrite filter_cons_False].
  - intros r id Hr Ha. rewrite after_lookup, fmap_is_Some. apply elem_of_app in Hr as [Hr|Hr]; [by eapply ok_active|].
    apply list_elem_of_singleton in Hr as ->. cbn in Ha. rewrite Ha in Hex. cbn in Hex. by apply bool_decide_eq_true in Hex.
Qed.

(** However the evaluations of any number of threads interleave: a span that the hook started is
    named after the method and carries the flag and the context of its evaluation, it is not ended
    before the evaluation is over, and ended exactly once when it is.  A valid span that is active
    at the end of evaluations gets one event for each of these, in their order, and other spans
    get none. *)
Theorem evaluations_traced (steps : list TraceStep) :
  let t := foldl (trace_step options_) new_tracing steps in
  (∀ id e, own t !! id = Some e → ∃ s, spans t !! id = Some s ∧ OwnSpan t e s) ∧
  (∀ id s, spans t !! id = Some s → events_of s = if span_valid s then expected_events id (traced t) else []).
Proof.
  intros t. assert (TracesOk t) as Hok; [|split; apply Hok].
  assert (TracesOk new_tracing) as H0 by (split; cbn; intros *; rewrite ?lookup_empty; first [done|by intros []|by intros ?%not_elem_of_nil]).
  unfold t. revert H0. generalize new_tracing. induction steps as [|a steps IH]; intros t0 H0; [done|]. apply IH.
  destruct a; [by apply trace_before_ok|by apply trace_after_ok|by apply other_ok].
Qed.
End Traces.

(** Two evaluations that overlap, with one active span; the second of them is in a span of its own. *)
Example overlapping_evaluations :
  let series key := mkSeriesContext key (mkContext [] [] [] true EmptyString "u") VNull "BoolVariation" [] (Some "env") in
  let detail b := mkDetail (VBool b) (Some 1) None in
  let t := foldl (@trace_step reference_text (CreateSpans true default_options)) new_tracing
    [EOther "request" true; EBefore (series "a") None; EBefore (series "b") (Some true); EAfter 1 (detail true) (Some 0%nat);
     EAfter 0 (detail false) (Some 0%nat)] in
  own t = {[2%nat := 1%nat]} ∧ (ends_of <$> spans t !! 2%nat) = Some 1%nat ∧
  ((λ s, (λ e, find FEATURE_FLAG_KEY e.2) <$> events_of s) <$> spans t !! 0%nat) = Some [Some (AString "b"); Some (AString "a")].
Proof. vm_compute. done. Qed.
