(* ===== verification/StreamStart.v ===== *)
(** * Starting a stream

    How the streaming data sources make their client and connect it: [StartAsync] of
    libs/server-sdk/src/data_systems/background_sync/sources/streaming/streaming_data_source.cpp and
    [Start] of libs/client-sdk/src/data_sources/streaming_data_source.cpp.

    The builder of the stream client is that of [SseClient]; [StreamOptions] adds to it what concerns
    the connection.  The properties are those of a configuration, which has no proxy without libcurl
    ([ProxyOptions] of [Configurations]), so the builder does not throw for one. *)

From S2P Require Import Prelude OrderedMap Externals Json Encodings Fdv2Sources SseClient HttpRequester Logging Configurations ClientConfig.
From S2P Require Import StatusManager.

(** ** The builder *)

Record StreamOptions := mkStreamOptions {
  so_builder : Builder;
  so_skip_verify_peer : bool;
  so_custom_ca_file : option string;
  so_proxy_url : option string;
}.

(** [Builder::skip_verify_peer], [custom_ca_file] and [proxy]. *)
Definition so_set_skip (skip : bool) (o : StreamOptions) : StreamOptions :=
  mkStreamOptions (so_builder o) skip (so_custom_ca_file o) (so_proxy_url o).
Definition so_set_ca_file (path : string) (o : StreamOptions) : StreamOptions :=
  mkStreamOptions (so_builder o) (so_skip_verify_peer o) (if is_empty path then None else Some path) (so_proxy_url o).
Definition so_set_proxy (url : option string) (o : StreamOptions) : StreamOptions :=
  mkStreamOptions (so_builder o) (so_skip_verify_peer o) (so_custom_ca_file o) url.

(** What both sources set, after the method and the body. *)
Definition stream_options (properties : HttpProperties) (initial_reconnect_delay : Z) (b : Builder) : StreamOptions :=
  let b := bd_read_timeout 300000 b in
  let b := bd_write_timeout (write_timeout properties) b in
  let b := bd_connect_timeout (connect_timeout properties) b in
  let b := bd_initial_reconnect_delay initial_reconnect_delay b in
  let b := foldl (λ b kv, bd_header kv.1 kv.2 b) b (base_headers properties) in
  let o := mkStreamOptions b false None None in
  let o := if tls_verify_none (tls_options properties) then so_set_skip true o else o in
  let o := match tls_ca_file (tls_options properties) with Some file => so_set_ca_file file o | None => o end in
  match proxy_url properties with Some u => so_set_proxy (Some u) o | None => o end.

Section Starting.
Context `{U : BoostUrl} `{W : Web} `{X : Externals} (user_agent : string).

(** ** The server's source *)

Definition kCouldNotParseEndpoint : string := "Could not parse streaming endpoint URL".

Definition server_stream_url (streaming_endpoint_ : string) (c : StreamingConfig) : option string :=
  let updated_url := AppendUrl (Some streaming_endpoint_) (streaming_path c) in
  match st_filter_key c, updated_url with
  | Some key, Some t => if ValidateFilterKey key then Some (t +:+ "?filter=" +:+ key) else updated_url
  | _, _ => updated_url
  end.

(** The options of the client; [None] when the URL is not one. *)
Definition server_stream_options (streaming_endpoint_ : string) (c : StreamingConfig) (properties : HttpProperties) : option StreamOptions :=
  match server_stream_url streaming_endpoint_ c with
  | None => None
  | Some text =>
      match uri_parse text with
      | None => None
      | Some u =>
          Some (stream_options properties (initial_reconnect_delay c) (bd_method v_get (new_builder user_agent (url_text u))))
      end
  end.

(** The status, and the client that connects, if there is one. *)
Definition server_StartAsync (streaming_endpoint_ : string) (c : StreamingConfig) (properties : HttpProperties) (now : Z)
    (m : StatusManager ServerState.t) : StatusManager ServerState.t * option StreamOptions :=
  let m := SetState ServerState.kInitializing now m in
  let failed := SetStateKind ServerState.kOff StatusErrorKind.kNetworkError kCouldNotParseEndpoint now m in
  match server_stream_options streaming_endpoint_ c properties with
  | None => (failed, None)
  | Some o => if build (so_builder o) then (m, Some o) else (failed, None)
  end.

(** ** The client's source *)

Definition kCouldNotParseClientEndpoint : string := "Could not parse streaming endpoint URL.".

Definition client_stream_url (streaming_endpoint_ path : string) (use_report : bool) (string_context : string) : option string :=
  let updated_url := AppendUrl (Some streaming_endpoint_) path in
  if use_report then updated_url else AppendUrl updated_url (of_chars (Base64UrlEncode (chars string_context))).

(** [set_reasons] is [url.params().set("withReasons", "true")] and the text of the URL. *)
Definition client_stream_options (set_reasons : url → string) (streaming_endpoint_ : string) (c : DataSourceConfig)
    (s : ClientStreamingConfig) (properties : HttpProperties) (string_context : string) : option StreamOptions :=
  match client_stream_url streaming_endpoint_ (cs_streaming_path s) (ds_use_report c) string_context with
  | None => None
  | Some text =>
      match uri_parse text with
      | None => None
      | Some u =>
          let b := new_builder user_agent (if ds_with_reasons c then set_reasons u else url_text u) in
          let b := bd_method (if ds_use_report c then v_report else v_get) b in
          let b := if ds_use_report c then bd_body string_context b else b in
          Some (stream_options properties (cs_initial_reconnect_delay s) b)
      end
  end.

Definition client_Start (set_reasons : url → string) (streaming_endpoint_ : string) (c : DataSourceConfig) (s : ClientStreamingConfig)
    (properties : HttpProperties) (string_context : string) (now : Z) (m : StatusManager ClientState.t)
    : StatusManager ClientState.t * option StreamOptions :=
  let m := SetState ClientState.kInitializing now m in
  let failed := SetStateKind ClientState.kShutdown StatusErrorKind.kNetworkError kCouldNotParseClientEndpoint now m in
  match client_stream_options set_reasons streaming_endpoint_ c s properties string_context with
  | None => (failed, None)
  | Some o => if build (so_builder o) then (m, Some o) else (failed, None)
  end.

(** ** What the sources ask for *)

(** Neither the headers nor the times change the rest of the builder. *)
Lemma headers_kept headers b :
  let b' := foldl (λ b kv, bd_header kv.1 kv.2 b) b headers in
  url_ b' = url_ b ∧ rq_method (request_ b') = rq_method (request_ b) ∧ rq_body (request_ b') = rq_body (request_ b) ∧
  bd_connect_timeout_ b' = bd_connect_timeout_ b ∧ initial_reconnect_delay_ b' = initial_reconnect_delay_ b.
Proof. revert b. induction headers as [|kv headers IH]; intros b; [done|]. cbn [foldl]. destruct (IH (bd_header kv.1 kv.2 b)) as (-> & -> & -> & -> & ->). done. Qed.

Lemma stream_options_builder properties delay b :
  let b' := so_builder (stream_options properties delay b) in
  url_ b' = url_ b ∧ rq_method (request_ b') = rq_method (request_ b) ∧ rq_body (request_ b') = rq_body (request_ b) ∧
  bd_connect_timeout_ b' = Some (connect_timeout properties) ∧ initial_reconnect_delay_ b' = Some delay.
Proof.
  intros b'. assert (b' = foldl (λ b kv, bd_header kv.1 kv.2 b) (bd_initial_reconnect_delay delay
    (bd_connect_timeout (connect_timeout properties) (bd_write_timeout (write_timeout properties) (bd_read_timeout 300000 b)))) (base_headers properties)) as ->.
  { unfold b', stream_options. destruct (tls_verify_none _), (tls_ca_file _), (proxy_url _); done. }
  match goal with |- context [foldl _ ?b0 ?hs] => destruct (headers_kept hs b0) as (-> & -> & -> & -> & ->) end. done.
Qed.

Lemma stream_options_fields properties delay b :
  rq_fields (request_ (so_builder (stream_options properties delay b))) = foldl (λ fs kv, set_field kv.1 kv.2 fs) (rq_fields (request_ b)) (base_headers properties).
Proof.
  assert (∀ headers b, rq_fields (request_ (foldl (λ b kv, bd_header kv.1 kv.2 b) b headers)) =
    foldl (λ fs kv, set_field kv.1 kv.2 fs) (rq_fields (request_ b)) headers) as Hh.
  { induction headers as [|kv headers IH]; intros b'; [done|]. cbn [foldl]. by rewrite IH. }
  unfold stream_options. destruct (tls_verify_none _), (tls_ca_file _), (proxy_url _); cbn [so_builder so_set_skip so_set_ca_file so_set_proxy]; by rewrite Hh.
Qed.

(** With REPORT the context is in the body and nowhere else: the URL does not depend on it. *)
Theorem report_hides_context set_reasons endpoint c s properties text text' o o' :
  ds_use_report c = true →
  client_stream_options set_reasons endpoint c s properties text = Some o →
  client_stream_options set_reasons endpoint c s properties text' = Some o' →
  url_ (so_builder o) = url_ (so_builder o') ∧ rq_method (request_ (so_builder o)) = v_report ∧ rq_body (request_ (so_builder o)) = text.
Proof.
  intros Hr. unfold client_stream_options, client_stream_url. rewrite Hr.
  destruct (AppendUrl _ _) as [t|]; [|done]. destruct (uri_parse t) as [u|]; [|done]. intros [= <-] [= <-].
  match goal with |- url_ (so_builder (stream_options ?p ?d ?b)) = url_ (so_builder (stream_options ?p ?d ?b')) ∧ _ =>
    destruct (stream_options_builder p d b) as (-> & -> & -> & _); destruct (stream_options_builder p d b') as (-> & _) end.
  done.
Qed.

End Starting.

(** ** Headers that differ in case

    The configured headers are distinct, but names that differ in case only are one field of the request:
    the last one counts, which is the greatest. *)

Lemma find_set_other name j value fs : iequals j name = false → find_header name (set_field j value fs) = find_header name fs.
Proof.
  intros Hj. unfold set_field, erase_field. induction fs as [|[k v] fs IH]; [cbn; by rewrite Hj|].
  rewrite filter_cons. case_decide as Hd; cbn [app find_header]; rewrite IH; [done|]. destruct (iequals k name) eqn:Hk; [|done].
  cbn in Hd. unfold iequals in *. destruct (bool_decide_reflect (ascii_lower <$> chars k = ascii_lower <$> chars j)) as [E|]; [|done].
  by rewrite E, Hj in Hk.
Qed.

Lemma lower_char c : ascii_lower c = c ∨ Ascii.compare c (ascii_lower c) = Lt.
Proof. destruct c as [[] [] [] [] [] [] [] []]; vm_compute; auto. Qed.

(** A name in lower case is the greatest of those that differ from it in case. *)
Lemma lower_is_greatest name k : ascii_lower <$> chars name = chars name → iequals k name = true → k = name ∨ str_lt k name.
Proof.
  unfold iequals. rewrite bool_decide_eq_true. intros Hl Heq. rewrite Hl in Heq. clear Hl. revert k Heq.
  induction name as [|b name IH]; intros [|a k] Heq; try done; [by left|]. injection Heq as Ha Hk.
  unfold str_lt, str_ltb, String.ltb. cbn [String.compare]. destruct (lower_char a) as [E|E]; rewrite Ha in E.
  - subst b. rewrite E. replace (Ascii.compare a a) with Eq by (unfold Ascii.compare; by rewrite N.compare_refl). destruct (IH k Hk) as [->|Hlt]; [by left|]. by right.
  - right. by rewrite E.
Qed.

Lemma last_header name value headers fs :
  ascii_lower <$> chars name = chars name → Ordered headers → find name headers = Some value →
  find_header name (foldl (λ fs kv, set_field kv.1 kv.2 fs) fs headers) = Some value.
Proof.
  intros Hl. revert fs. induction headers as [|[k v] headers IH]; intros fs Ho Hf; [done|]. apply ordered_cons in Ho as [Ho Hk].
  cbn [foldl]. cbn [find] in Hf. destruct (str_eqb name k) eqn:E; [|by apply IH]. apply str_eqb_eq in E as <-. injection Hf as ->.
  assert (∀ fs, find_header name fs = Some value → find_header name (foldl (λ fs kv, set_field kv.1 kv.2 fs) fs headers) = Some value) as Hrest.
  { clear IH Ho. induction headers as [|[j w] headers IH]; intros fs' Hfs; [done|]. apply Forall_cons_1 in Hk as [Hj Hk]. cbn [foldl].
    apply IH; [done|]. rewrite find_set_other; [done|]. destruct (iequals j name) eqn:Hi; [|done].
    destruct (lower_is_greatest name j Hl Hi) as [Ej|Hlt]; [subst j; by apply str_lt_irrefl in Hj|]. by apply str_lt_asym in Hlt. }
  apply Hrest, find_set.
Qed.

(** ** The context in a URL *)

Lemma encoded_char c input : c ∈ Base64UrlEncode input → c ∈ "="%char :: chars kBase64Table.
Proof.
  assert (∀ fuel start, c ∈ encode_bits fuel start input → c ∈ chars kBase64Table) as Hbits.
  { induction fuel as [|fuel IH]; intros start; cbn [encode_bits]; [by intros ?%not_elem_of_nil|].
    destruct (_ <? _)%nat; [|by intros ?%not_elem_of_nil]. intros [->|H]%elem_of_cons; [|by eapply IH].
    eapply list_elem_of_lookup_2, table_lookup, GetBits_range. }
  intros H. apply elem_of_cons. unfold Base64UrlEncode in H. destruct (_ =? _)%nat in H; [by right; eapply Hbits|].
  apply elem_of_app in H as [H|H]; [by right; eapply Hbits|]. left. by apply elem_of_replicate in H as [? _].
Qed.

Lemma encoded_no_slash input : without_first_slash (Base64UrlEncode input) = Base64UrlEncode input.
Proof.
  destruct (Base64UrlEncode input) as [|c l] eqn:E; [done|]. cbn. destruct (c =? "/")%char eqn:Ec; [|done].
  apply Ascii.eqb_eq in Ec as ->. exfalso. assert ("/"%char ∈ "="%char :: chars kBase64Table) as Hin by (apply (encoded_char _ input); rewrite E; left).
  revert Hin. apply (bool_decide_eq_false_1 _). by vm_compute.
Qed.

(** Without REPORT the context is the last segment of the path: whatever the path before it, the context can
    be told from the path. *)
Lemma context_of_path path text text' :
  text ≠ EmptyString → text' ≠ EmptyString →
  append_path path (of_chars (Base64UrlEncode (chars text))) = append_path path (of_chars (Base64UrlEncode (chars text'))) → text = text'.
Proof.
  intros Hne Hne' Heq.
  assert (∀ t : string, t ≠ EmptyString → of_chars (Base64UrlEncode (chars t)) ≠ EmptyString) as Henc.
  { intros t Ht E. apply (f_equal chars) in E. rewrite chars_of_chars in E. apply (f_equal length) in E.
    rewrite Base64UrlEncode_length in E. destruct t as [|a t]; [done|]. cbn [chars length] in E.
    assert (1 ≤ (S (length (chars t)) + 2) / 3)%nat by (apply Nat.div_le_lower_bound; lia). lia. }
  apply (f_equal chars) in Heq. rewrite !append_path_joined in Heq by (apply Henc; done).
  apply app_inv_head in Heq. injection Heq as Heq. rewrite !chars_of_chars, !encoded_no_slash in Heq.
  by apply chars_inj, Base64UrlEncode_inj.
Qed.

(** ** What is logged of an error *)

(** Both sources open a log statement for an error of the stream and put nothing in it: the line has the
    tag only. *)
Lemma stream_error_logged_empty {Backend} (enabled : Backend → LogLevel → bool) tag :
  LD_LOG enabled (MakeLogger (LoggingBuilder_Build (BasicLogging kInfo tag))) kError [] = [ToErr ("[" +:+ tag +:+ "] ")].
Proof. by rewrite logged_as_configured. Qed.
