(* ===== verification/ServerStart.v ===== *)
(** * Making and starting clients

    libs/server-sdk/src/client_impl.cpp: the constructor (the properties of requests, [MakeDataSystem],
    [MakeFDv2System], [MakeEventProcessor]) and [StartAsync]; data_systems/fdv2/synchronizer_factories.cpp
    and initializer_factories.cpp; data_systems/offline.cpp.  The constructor of libs/client-sdk/src/client_impl.cpp,
    with its [MakeDataSource].

    What a data system is made of is a value of [MadeSystem].  The promise of [StartAsync] is resolved by a
    listener of the status, so the listeners run whenever the data system broadcasts its status. *)

From S2P Require Import Prelude OrderedMap DataModel Stores Dependencies Notifier Externals Json JsonModel Persistence Fdv2 StatusManager SourceResults.
From S2P Require Import Fdv2Sources SseClient HttpRequester BackgroundSync Expirations LazyLoads Logging Configurations ClientConfig StreamStart.

(** ** The constructor *)

Definition kInstanceIdHeader : string := "X-LaunchDarkly-Instance-Id".

Section Making.
Context {Store Source Backend Hook : Type}.
Implicit Types c : @Config Store Source Backend Hook.

(** The properties of every request; [instance_id] is a random UUID. *)
Definition server_properties (version instance_id : string) c : HttpProperties :=
  HttpPropertiesBuilder_Build
    (PB_Header kInstanceIdHeader (Some instance_id)
      (PB_Header "x-launchdarkly-tags" (cf_app_tag c)
        (PB_Header "authorization" (Some (cf_sdk_key c))
          (PB_Header "user-agent" (Some ("CPPServer/" +:+ version)) (builder_of_properties (cf_http c)))))).

(** The sources of FDv2: the base URL, and the delay or the interval; the sources of FDv1 are adapted. *)
Inductive SyncSource :=
| MadeStreaming (base_url : string) (initial_reconnect_delay : Z)
| MadePolling (base_url : string) (poll_interval : Z)
| MadeFDv1Streaming (c : StreamingConfig)
| MadeFDv1Polling (c : PollingConfig).

Inductive MadeSystem :=
| MadeOffline
| MadeBackgroundSync (synchronizer : StreamingConfig + PollingConfig)
| MadeLazyLoad (c : @LazyLoadConfig Source)
| MadeFDv2 (initializers : list string) (synchronizers : list SyncSource) (fallback_timeout recovery_timeout : Z).

Definition FDv2PollingInitializerFactory (endpoints : ServiceEndpoints) (polling : Z * option string) : string :=
  default (polling_base_url endpoints) polling.2.
Definition synchronizer_factory (endpoints : ServiceEndpoints) (sync : (Z * option string) + (Z * option string)) : SyncSource :=
  match sync with
  | inl streaming => MadeStreaming (default (streaming_base_url endpoints) streaming.2) streaming.1
  | inr polling => MadePolling (default (polling_base_url endpoints) polling.2) polling.1
  end.
Definition adapter_factory (fallback : StreamingConfig + PollingConfig) : SyncSource :=
  match fallback with inl c => MadeFDv1Streaming c | inr c => MadeFDv1Polling c end.

Definition MakeFDv2System (endpoints : ServiceEndpoints) (cfg : FDv2Config) : MadeSystem :=
  MadeFDv2 (FDv2PollingInitializerFactory endpoints <$> initializers cfg)
    ((synchronizer_factory endpoints <$> synchronizers cfg) ++
     match fdv1_fallback cfg with Some fallback => [adapter_factory fallback] | None => [] end)
    (fallback_timeout cfg) (recovery_timeout cfg).

Definition MakeDataSystem c : MadeSystem :=
  if disabled (cf_data_system c) then MadeOffline
  else
    match system (cf_data_system c) with
    | BackgroundSync cfg => MadeBackgroundSync cfg
    | Configurations.LazyLoad cfg => MadeLazyLoad cfg
    | FDv2 cfg => MakeFDv2System (cf_endpoints c) cfg
    end.

Definition MakeEventProcessor c : option (ServiceEndpoints * Events) :=
  if enabled_ (cf_events c) then Some (cf_endpoints c, cf_events c) else None.

(** ** What is made *)

(** A client that is configured offline has no source of data and sends no events. *)
Theorem offline_is_silent (b : @ConfigBuilder Store Source Backend Hook) c :
  cb_offline b = true → ConfigBuilder_Build b = Val c → MakeDataSystem c = MadeOffline ∧ MakeEventProcessor c = None.
Proof.
  intros Hoff. unfold ConfigBuilder_Build. destruct (is_empty _); [done|]. destruct (EndpointsBuilder_Build _ _) as [e|]; [|done].
  pose proof (events_build_cases b) as Hev. destruct (EventsBuilder_Build _) as [ev|]; [|done]. destruct Hev as [-> _].
  pose proof (data_system_build_cases b) as Hds. destruct (DataSystemBuilder_Build _) as [ds|]; [|done]. destruct Hds as (Hd & _ & _).
  rewrite Hoff in *. rewrite orb_true_r in Hd.
  destruct (cb_big_segments b) as [bs|]; [destruct (BigSegmentsBuilder_Build bs); [|done]|]; intros [= <-];
    unfold MakeDataSystem, MakeEventProcessor; cbn; rewrite Hd, andb_false_r; done.
Qed.

(** By default the sources of FDv2 are tried with the service's URLs, and FDv1 last. *)
Example default_sources (endpoints : ServiceEndpoints) :
  MakeFDv2System endpoints fdv2_Default =
  MadeFDv2 [polling_base_url endpoints]
    [MadeStreaming (streaming_base_url endpoints) 1000; MadePolling (polling_base_url endpoints) 30000; MadeFDv1Streaming server_streaming]
    120000 300000.
Proof. done. Qed.

(** *** Headers *)

Lemma find_erased_key k (m : list (string * string)) : find k (base.filter (λ kv, kv.1 ≠ k) m) = None.
Proof.
  induction m as [|[j v] m IH]; [done|]. destruct (decide (j = k)) as [->|Hn]; [by rewrite filter_cons_False by (cbn; naive_solver)|].
  rewrite filter_cons_True by done. cbn. by rewrite (proj2 (str_eqb_neq k j)) by congruence.
Qed.

Lemma find_erased_other k j (m : list (string * string)) : k ≠ j → find j (base.filter (λ kv, kv.1 ≠ k) m) = find j m.
Proof.
  intros Hne. induction m as [|[i v] m IH]; [done|]. destruct (decide (i = k)) as [->|Hn].
  - rewrite filter_cons_False by (cbn; naive_solver). cbn. by rewrite (proj2 (str_eqb_neq j k)) by congruence.
  - rewrite filter_cons_True by done. cbn. by destruct (str_eqb j i).
Qed.

(** What [Header] does to the headers: the one is set or removed, the others stay. *)
Lemma header_found key value b j :
  find j (base_headers (pb_properties (PB_Header key value b))) = if decide (key = j) then value else find j (base_headers (pb_properties b)).
Proof.
  unfold PB_Header. cbn. destruct value as [v|]; case_decide as E; subst.
  - apply find_assign_eq.
  - by apply find_assign_ne.
  - apply find_erased_key.
  - by apply find_erased_other.
Qed.

(** Every request carries the key, the version, the instance and, if there are any, the tags; what the
    application configured under these names is replaced, and its other headers are kept. *)
Lemma server_headers version instance_id c j :
  find j (base_headers (server_properties version instance_id c)) =
  if decide (j = kInstanceIdHeader) then Some instance_id
  else if decide (j = "x-launchdarkly-tags") then cf_app_tag c
  else if decide (j = "authorization") then Some (cf_sdk_key c)
  else if decide (j = "user-agent") then Some ("CPPServer/" +:+ version)
  else find j (base_headers (cf_http c)).
Proof.
  unfold server_properties, HttpPropertiesBuilder_Build. rewrite (proj2 (is_empty_true _)) by done. rewrite !header_found. cbn [pb_properties builder_of_properties].
  repeat (case_decide; subst; try done).
Qed.

Lemma header_ordered key value b : Ordered (base_headers (pb_properties b)) → Ordered (base_headers (pb_properties (PB_Header key value b))).
Proof.
  intros Ho. unfold PB_Header. cbn. destruct value as [v|]; [by apply assign_ordered|].
  revert Ho. induction (base_headers (pb_properties b)) as [|[k v] m IH]; [done|]. rewrite ordered_cons. intros [Ho Hk].
  rewrite filter_cons. case_decide; [|by apply IH]. apply ordered_cons. split; [by apply IH|].
  apply Forall_forall. intros x (kv & -> & [_ Hin]%list_elem_of_filter)%list_elem_of_fmap.
  rewrite Forall_forall in Hk. apply Hk, list_elem_of_fmap. by exists kv.
Qed.

(** The stream is asked for with the key of the SDK, whatever headers the application configured, also if
    they differ from this one in case only. *)
Theorem stream_authorized `{U : BoostUrl} `{X : Externals} user_agent version instance_id c endpoint cfg o :
  Ordered (base_headers (cf_http c)) →
  server_stream_options user_agent endpoint cfg (server_properties version instance_id c) = Some o →
  find_header "authorization" (rq_fields (request_ (so_builder o))) = Some (cf_sdk_key c).
Proof.
  intros Ho. unfold server_stream_options. destruct (server_stream_url endpoint cfg) as [t|]; [|done]. destruct (uri_parse t) as [u|]; [|done].
  intros [= <-]. rewrite stream_options_fields. apply last_header; [done| |].
  - unfold server_properties, HttpPropertiesBuilder_Build. rewrite (proj2 (is_empty_true _)) by done. by repeat apply header_ordered.
  - rewrite server_headers. done.
Qed.

(** The header of the instance is not in lower case: an application that configures it in lower case
    replaces it. *)
Example instance_header_replaced :
  find_header kInstanceIdHeader (foldl (λ fs kv, set_field kv.1 kv.2 fs) []
    (assign kInstanceIdHeader "uuid" [("x-launchdarkly-instance-id", "configured")])) = Some "configured".
Proof. done. Qed.
End Making.

(** ** [StartAsync] *)

Section Start.
Context {Sys : Type} (status : Sys → StatusManager ServerState.t).

(** The data system, the promises whose listener is connected, and those that were resolved (with true). *)
Record Server := mkServer {
  sv_system : Sys;
  sv_waiting : list nat;
  sv_resolved : list nat;
  sv_promises : nat;
}.

Definition new_server (sys : Sys) : Server := mkServer sys [] [] 0.

Implicit Types (sv : Server) (Initialized : Sys → Sys * bool).

(** A listener asks the data system, and resolves its promise and disconnects, or stays connected. *)
Definition run_listener Initialized sv (id : nat) : Server :=
  let '(sys, initialized) := Initialized (sv_system sv) in
  if initialized
  then mkServer sys (base.filter (λ j, j ≠ id) (sv_waiting sv)) (sv_resolved sv ++ [id]) (sv_promises sv)
  else mkServer sys (sv_waiting sv) (sv_resolved sv) (sv_promises sv).

Definition run_listeners Initialized sv : Server := foldl (run_listener Initialized) sv (sv_waiting sv).

(** The data system does something, and the listeners run for each time it broadcasts its status. *)
Definition system_step Initialized (f : Sys → Sys) sv : Server :=
  let sys := f (sv_system sv) in
  let n := (length (broadcasts_ (status sys)) - length (broadcasts_ (status (sv_system sv))))%nat in
  Nat.iter n (run_listeners Initialized) (mkServer sys (sv_waiting sv) (sv_resolved sv) (sv_promises sv)).

Definition StartAsync Initialized (Initialize : Sys → Sys) sv : Server :=
  system_step Initialized Initialize
    (mkServer (sv_system sv) (sv_waiting sv ++ [sv_promises sv]) (sv_resolved sv) (S (sv_promises sv))).

(** A listener that finds the system not initialized changes nothing. *)
Lemma listeners_wait Initialized sv n :
  Initialized (sv_system sv) = (sv_system sv, false) → Nat.iter n (run_listeners Initialized) sv = sv.
Proof.
  intros Hi. assert (run_listeners Initialized sv = sv) as H1.
  { unfold run_listeners. induction (sv_waiting sv) as [|id l IH]; [done|]. cbn [foldl].
    replace (run_listener Initialized sv id) with sv; [exact IH|]. unfold run_listener. rewrite Hi. by destruct sv. }
  induction n as [|n IH]; [done|]. by rewrite Nat.iter_succ, IH.
Qed.

(** With no listener nothing happens. *)
Lemma none_listening Initialized sv n : sv_waiting sv = [] → Nat.iter n (run_listeners Initialized) sv = sv.
Proof. intros Hw. induction n as [|n IH]; [done|]. rewrite Nat.iter_succ, IH. unfold run_listeners. by rewrite Hw. Qed.

(** The one that waits is resolved. *)
Lemma listener_resolved Initialized sv n id :
  sv_waiting sv = [id] → Initialized (sv_system sv) = (sv_system sv, true) → n ≠ 0%nat →
  Nat.iter n (run_listeners Initialized) sv = mkServer (sv_system sv) [] (sv_resolved sv ++ [id]) (sv_promises sv).
Proof.
  intros Hw Hi Hn. destruct n as [|n]; [done|]. rewrite Nat.iter_succ_r. set (sv' := run_listeners Initialized sv).
  assert (sv' = mkServer (sv_system sv) [] (sv_resolved sv ++ [id]) (sv_promises sv)) as ->.
  { unfold sv', run_listeners. rewrite Hw. cbn [foldl]. unfold run_listener. rewrite Hi, Hw.
    by rewrite filter_cons_False by naive_solver. }
  by apply none_listening.
Qed.
End Start.

(** ** Offline *)

(** [OfflineSystem] has a status only. *)
Definition offline_Initialize (now : Z) (m : StatusManager ServerState.t) : StatusManager ServerState.t := SetState ServerState.kValid now m.
Definition offline_Initialized (m : StatusManager ServerState.t) : StatusManager ServerState.t * bool := (m, true).

Lemma offline_started t0 t1 :
  sv_resolved (StartAsync (λ m, m) offline_Initialized (offline_Initialize t1) (new_server (new_status_manager t0))) = [0%nat].
Proof. done. Qed.

(** ** Streams *)

Section Stream.
Context `{B : BoostJson} `{J : JsonText} `{!HashOrder} `{U : BoostUrl} `{W : Web} `{X : Externals} (user_agent : string).
Abbreviation System := (SyncState (ChangeNotifier MemoryStore)).

Definition sync_Initialized (s : System) : System * bool := (s, BackgroundSync.Initialized s).

(** What the stream of a background sync brings. *)
Inductive StreamEvent :=
| StreamMessage (type data : string) (now : Z)
| StreamError (error : SseError) (error_string : string) (now : Z).

Definition stream_event (e : StreamEvent) (s : System) : System :=
  match e with
  | StreamMessage type data now => sync_receiver type data now s
  | StreamError error text now => sync_error error text now s
  end.

(** [Initialize] starts the stream: its endpoint, its configuration and the properties of its requests. *)
Definition sync_Initialize (endpoint : string) (cfg : StreamingConfig) (properties : HttpProperties) (now : Z) (s : System) : System :=
  sync_status (λ m, (server_StartAsync user_agent endpoint cfg properties now m).1) s.

Definition run_server (endpoint : string) (cfg : StreamingConfig) (properties : HttpProperties) (t0 t1 : Z) (events : list StreamEvent) : Server :=
  foldl (λ sv e, system_step sy_status sync_Initialized (stream_event e) sv)
    (StartAsync sy_status sync_Initialized (sync_Initialize endpoint cfg properties t1) (new_server (new_system t0))) events.

(** The promise waits as long as the store is not initialized, and until then the source is not valid. *)
Record StartOk (sv : Server) : Prop := {
  start_promise : if BackgroundSync.Initialized (sv_system sv) then sv_waiting sv = [] ∧ sv_resolved sv = [0%nat]
                  else sv_waiting sv = [0%nat] ∧ sv_resolved sv = [];
  start_status : BackgroundSync.Initialized (sv_system sv) = false → sm_state_ (sy_status (sv_system sv)) ≠ ServerState.kValid;
}.

Lemma message_initialized type data now (s : System) :
  BackgroundSync.Initialized (sync_receiver type data now s) =
  existsb is_put (option_list (command_of (type, data))) || BackgroundSync.Initialized s.
Proof.
  unfold BackgroundSync.Initialized, Memory.Initialized. destruct (command_receiver_spec type data now s) as (-> & _ & _).
  by destruct (commands_contents (option_list (command_of (type, data))) (sy_handler s)) as [_ ->].
Qed.

Lemma valid_broadcasts now (m : StatusManager ServerState.t) :
  sm_state_ m ≠ ServerState.kValid → length (broadcasts_ (SetState ServerState.kValid now m)) = S (length (broadcasts_ m)).
Proof.
  intros Hne. unfold SetState, UpdateState. rewrite (bool_decide_eq_false_2 (ServerState.kValid = interrupted)) by done. cbn [andb].
  rewrite bool_decide_eq_false_2 by done. unfold broadcast. cbn [negb broadcasts_]. rewrite length_app. apply Nat.add_comm.
Qed.

(** A put broadcasts the status if the source was not valid. *)
Lemma put_broadcasts type data now (s : System) :
  existsb is_put (option_list (command_of (type, data))) = true → sm_state_ (sy_status s) ≠ ServerState.kValid →
  length (broadcasts_ (sy_status (sync_receiver type data now s))) = S (length (broadcasts_ (sy_status s))).
Proof.
  intros Hput Hne. unfold sync_receiver, HandleMessage. unfold command_of, decode, decode_json, known_verb in Hput. cbn [fst snd] in Hput.
  destruct (str_eqb type "put") eqn:Ht.
  - cbn [orb] in Hput. destruct (parse data) as [j|]; [|done]. destruct (to_Put j) as [[put|]|e]; [|done|done].
    by apply valid_broadcasts.
  - exfalso. destruct (str_eqb type "patch"); cbn [orb] in Hput.
    + destruct (parse data) as [j|]; [|done]. destruct (to_Patch j) as [[p|]|e]; [|done|done]. cbn in Hput. unfold patch_command in Hput. by destruct (sp_data p).
    + destruct (str_eqb type "delete"); [|done]. destruct (parse data) as [j|]; [|done]. destruct (to_Delete j) as [d|e]; [|done].
      cbn in Hput. unfold delete_command in Hput. by destruct (sd_kind d).
Qed.

Lemma error_state error text now (s : System) : sm_state_ (sy_status (sync_error error text now s)) ≠ ServerState.kValid.
Proof.
  unfold sync_error. set (state := if IsRecoverable error then ServerState.kInterrupted else ServerState.kOff).
  assert (∀ m : StatusManager ServerState.t, sm_state_ (UpdateState state now m).1 ≠ ServerState.kValid) as Hu.
  { intros m. assert (state = ServerState.kInterrupted ∨ state = ServerState.kOff) as Hst by (unfold state; destruct (IsRecoverable error); auto).
    unfold UpdateState. cbv zeta. set (ns := if _ && _ then _ else _). assert (ns ≠ ServerState.kValid) as Hns.
    { unfold ns. destruct (_ && _); [done|]. by destruct Hst as [-> | ->]. }
    destruct (bool_decide (sm_state_ m = ns)) eqn:Eb; cbn; [|done]. apply bool_decide_eq_true in Eb. congruence. }
  destruct error; apply Hu.
Qed.

Lemma stream_event_start e sv : StartOk sv → StartOk (system_step sy_status sync_Initialized (stream_event e) sv).
Proof.
  intros [Hp Hs]. unfold system_step. set (s' := stream_event e (sv_system sv)). set (n := (_ - _)%nat).
  destruct (BackgroundSync.Initialized (sv_system sv)) eqn:Ei.
  - destruct Hp as [Hw Hr]. rewrite none_listening by done. assert (BackgroundSync.Initialized s' = true) as Hi'.
    { unfold s', stream_event. destruct e; [by rewrite message_initialized, Ei, orb_true_r|done]. }
    split; cbn; rewrite Hi'; done.
  - destruct Hp as [Hw Hr]. destruct (BackgroundSync.Initialized s') eqn:Ei'.
    + assert (n ≠ 0%nat) as Hn.
      { unfold n, s' in *. destruct e as [type data now|error text now]; cbn [stream_event] in *.
        - rewrite message_initialized, Ei, orb_false_r in Ei'. rewrite put_broadcasts by auto. lia.
        - unfold BackgroundSync.Initialized in Ei, Ei'. cbn in Ei'. congruence. }
      rewrite (listener_resolved _ _ _ 0) by (cbn; unfold sync_Initialized; rewrite ?Ei'; done).
      split; cbn; rewrite Ei'; [by rewrite Hr|done].
    + rewrite listeners_wait by (cbn; unfold sync_Initialized; by rewrite Ei'). split; cbn; rewrite Ei'; [done|].
      intros _. unfold s' in *. destruct e as [type data now|error text now]; cbn [stream_event] in *; [|apply error_state].
      rewrite message_initialized, Ei, orb_false_r in Ei'. destruct (command_receiver_spec type data now (sv_system sv)) as (_ & -> & _).
      rewrite Ei'. by apply Hs.
Qed.

(** Starting the stream does not make the source valid. *)
Lemma stream_start_state endpoint cfg properties t0 t1 :
  sm_state_ (sy_status (sync_Initialize endpoint cfg properties t1 (new_system t0))) ≠ ServerState.kValid.
Proof.
  unfold sync_Initialize, server_StartAsync. destruct (server_stream_options _ _ _ _) as [o|]; [|done].
  by destruct (build (so_builder o)).
Qed.

(** The future of [StartAsync] becomes ready when the client is initialized, and not before, whatever the
    stream brings, whatever errors it has, and also when its URL is no URL. *)
Theorem start_resolved_when_initialized endpoint cfg properties t0 t1 (events : list StreamEvent) :
  let sv := run_server endpoint cfg properties t0 t1 events in
  sv_resolved sv = (if BackgroundSync.Initialized (sv_system sv) then [0%nat] else []) ∧
  sv_waiting sv = (if BackgroundSync.Initialized (sv_system sv) then [] else [0%nat]).
Proof.
  intros sv. enough (StartOk sv) as [Hp _] by (destruct (BackgroundSync.Initialized (sv_system sv)); naive_solver).
  unfold sv, run_server. set (sv0 := StartAsync _ _ _ _). assert (StartOk sv0) as H0.
  { unfold sv0, StartAsync, system_step. rewrite listeners_wait by done. split; [done|]. intros _. apply stream_start_state. }
  clearbody sv0. revert sv0 H0. clear sv. induction events as [|e events IH]; intros sv0 H0; [done|]. apply IH. by apply stream_event_start.
Qed.
End Stream.

(** ** Lazy loading *)

Section Lazy.
Context `{!HashOrder}.

(** A store without the flag that is asked for, before and after it is initialized. *)
Definition bare_store (initialized : bool) : DataReader :=
  mkReader (λ _, Some (Val None)) (λ _, Some (Val None)) (Some (Val ∅)) (Some (Val ∅)) initialized.

Definition lazy_step (ttl : Z) (initialized : bool) (now : Z) (c : Call) (sv : Server) : Server :=
  let r := mkReading now now now in
  system_step lz_status (LazyLoads.Initialized ttl (bare_store initialized) r) (λ s, (lazy_call ttl c r (bare_store initialized) s).1) sv.

Definition lazy_started : Server :=
  StartAsync lz_status (LazyLoads.Initialized 5 (bare_store false) (mkReading 0 0 0))
    (λ s, (lazy_call 5 (CInitialize 0) (mkReading 0 0 0) (bare_store false) s).1) (new_server (new_lazy_load 0)).

(** When the client is started before the store is initialized, the promise is not resolved by asking whether
    the client is initialized, also when it is; only reading an item resolves it. *)
Lemma lazy_start_waits_for_reading :
  let asked := lazy_step 5 true 100 CInitialized lazy_started in
  (LazyLoads.Initialized 5 (bare_store true) (mkReading 100 100 100) (sv_system asked)).2 = true ∧
  sv_waiting asked = [0%nat] ∧ sv_resolved asked = [] ∧ sv_resolved (lazy_step 5 true 101 (CGetFlag "flag") asked) = [0%nat].
Proof. by vm_compute. Qed.
End Lazy.

(** ** The constructor of a client-side client *)

Section ClientMaking.
Context {Backend Persistence : Type}.
Implicit Types c : @ClientConfig Backend Persistence.

Definition client_properties (version : string) c : HttpProperties :=
  HttpPropertiesBuilder_Build
    (PB_Header "x-launchdarkly-tags" (cl_app_tag c)
      (PB_Header "authorization" (Some (cl_sdk_key c))
        (PB_Header "user-agent" (Some ("CPPClient/" +:+ version)) (builder_of_properties (cl_http c))))).

(** [None] is the processor that does nothing. *)
Definition client_event_processor (version : string) c : option (ServiceEndpoints * Events * HttpProperties) :=
  if enabled_ (cl_events c) && negb (cl_offline c) then Some (cl_endpoints c, cl_events c, client_properties version c) else None.

(** The source: none offline, or the endpoint and the configuration of a stream or of polling. *)
Inductive MadeSource :=
| MadeNull
| MadeClientStreaming (endpoint : string) (c : ClientStreamingConfig)
| MadeClientPolling (endpoint : string) (c : ClientPollingConfig).

Definition MakeDataSource c : MadeSource :=
  if cl_offline c then MadeNull
  else match ds_method (cl_data_source c) with
       | inl streaming => MadeClientStreaming (streaming_base_url (cl_endpoints c)) streaming
       | inr polling => MadeClientPolling (polling_base_url (cl_endpoints c)) polling
       end.

(** What a client does when it is started with a context, whose text is [string_context]. *)
Definition client_connects `{U : BoostUrl} `{X : Externals} (user_agent : string) (set_reasons : url → string) (version : string) c
    (string_context : string) : option StreamOptions :=
  match MakeDataSource c with
  | MadeClientStreaming endpoint streaming =>
      client_stream_options user_agent set_reasons endpoint (cl_data_source c) streaming (client_properties version c) string_context
  | _ => None
  end.

Lemma client_headers version c j :
  find j (base_headers (client_properties version c)) =
  if decide (j = "x-launchdarkly-tags") then cl_app_tag c
  else if decide (j = "authorization") then Some (cl_sdk_key c)
  else if decide (j = "user-agent") then Some ("CPPClient/" +:+ version)
  else find j (base_headers (cl_http c)).
Proof.
  unfold client_properties, HttpPropertiesBuilder_Build. rewrite (proj2 (is_empty_true _)) by done. rewrite !header_found. cbn [pb_properties builder_of_properties].
  repeat (case_decide; subst; try done).
Qed.

(** A client that streams asks with its key, whatever headers the application configured; one that is offline
    neither connects nor sends events. *)
Theorem client_stream_authorized `{U : BoostUrl} `{X : Externals} user_agent set_reasons version c string_context :
  Ordered (base_headers (cl_http c)) →
  match client_connects user_agent set_reasons version c string_context with
  | Some o => cl_offline c = false ∧ find_header "authorization" (rq_fields (request_ (so_builder o))) = Some (cl_sdk_key c)
  | None => True
  end ∧
  (cl_offline c = true → client_connects user_agent set_reasons version c string_context = None ∧ client_event_processor version c = None).
Proof.
  intros Ho. unfold client_connects, client_event_processor, MakeDataSource. destruct (cl_offline c); [by rewrite andb_false_r|].
  split; [|done]. destruct (ds_method _) as [streaming|]; [|done]. unfold client_stream_options.
  destruct (client_stream_url _ _ _ _) as [t|]; [|done]. destruct (uri_parse t) as [u|]; [|done]. split; [done|].
  rewrite stream_options_fields. apply last_header; [done| |].
  - unfold client_properties, HttpPropertiesBuilder_Build. rewrite (proj2 (is_empty_true _)) by done. by repeat apply header_ordered.
  - by rewrite client_headers.
Qed.
End ClientMaking.
