(* ===== verification/CConfigObjects.v ===== *)
(** * What the C interface to configurations allocates

    The objects behind the handles of libs/server-sdk/src/bindings/c (builder.cpp, fdv2_builder.cpp),
    libs/client-sdk/src/bindings/c/builder.cpp and libs/common/src/bindings/c (config/logging_builder.cpp,
    status.cpp).  Structs of function pointers that the application passes (hooks, log back ends,
    persistence) and the sources of lazy loading are identified by a number. *)

From S2P Require Import Prelude HttpRequester Logging Configurations ClientConfig.

Abbreviation ServerBuilder := (@ConfigBuilder nat nat nat nat).
Abbreviation ServerConfig := (@Config nat nat nat nat).
Abbreviation CClientBuilder := (@ClientConfigBuilder nat nat).
Abbreviation CClientConfig := (@ClientConfig nat nat).

Inductive ConfigObject :=
| CoServerBuilder (b : ServerBuilder)
| CoServerConfig (c : ServerConfig)
| CoStreaming (c : StreamingConfig)
| CoPolling (c : PollingConfig)
| CoLazyLoad (c : @LazyLoadConfig nat)
| CoFDv2 (c : FDv2Config)
| CoFDv2Streaming (c : Z * option string)
| CoFDv2Polling (c : Z * option string)
| CoTls (t : TlsOptions)
| CoBasicLogging (level_and_tag : LogLevel * string)
| CoCustomLogging (backend : option nat)
| CoClientBuilder (b : CClientBuilder)
| CoClientConfig (c : CClientConfig)
| CoClientStreaming (c : ClientStreamingConfig)
| CoClientPolling (c : ClientPollingConfig)
| CoPersistence (implementation : option nat)
| CoError (e : Error.t).
