(* ===== verification/CBindings.v ===== *)
(** * The C interface to values and contexts

    libs/common/src/bindings/c: value.cpp, array_builder.cpp, object_builder.cpp,
    context_builder.cpp, context.cpp, with iter.hpp.

    Handles are pointers, so the model has a heap of what was allocated with [new].  A call that
    follows a null or dangling pointer, or frees what was not allocated, has no result.  An [LDValue]
    is a heap object of its own or a part of another: an element that an iterator is at, an
    attribute of a context, an entry of the data of a hook or a flag of a state of all flags.  A C
    string argument ends at its first NUL. *)

From S2P Require Import Prelude StatusManager OrderedMap Doubles Values AttributeReferences Contexts Reasons Json Persistence Hooks ServerClient CConfigObjects.

(** ** Heap *)

Inductive LDValue :=
| VNullptr
| VHeap (a : nat)
| VElem (p : LDValue) (i : nat)
| VField (p : LDValue) (i : nat)
| VAttr (context : nat) (kind : string) (ref : string)
| VEntry (data : nat) (key : string)
| VFlag (state : nat) (key : string).

(** What a [std::any] of a hook may hold: a [void star], a [void const star] or another type. *)
Inductive CAny := AVoid (p : nat) | AConstVoid (p : nat) | AForeign.

(** What is allocated; an iterator has the container it is of, and its position. *)
Inductive Object_ :=
| ObValue (v : Value)
| ObVector (l : list Value)
| ObMap (m : list (string * Value))
| ObArrayIter (p : LDValue) (i : nat)
| ObObjectIter (p : LDValue) (i : nat)
| ObContextBuilder (kind_to_key : list (string * string)) (builder : ContextBuilder)
| ObContext (c : Context)
| ObPrivateIter (context : nat) (kind : string) (i : nat)
| ObString (s : string)
| ObSeriesData (d : EvaluationSeriesData CAny)
| ObSeriesDataBuilder (d : EvaluationSeriesData CAny)
| ObHookContext (c : HookContext CAny)
| ObDetail (d : EvaluationDetail Value)
| ObCDetail (variation_index : option Z) (reason : option EvaluationReason)
| ObFlagsState (s : FlagsState)
| ObConfig (o : ConfigObject)
| ObServerStatus (s : DataSourceStatus ServerState.t)
| ObClientStatus (s : DataSourceStatus ClientState.t)
| ObErrorInfo (e : ErrorInfo)
| ObConnection (id : nat)
| ObFlagConnection (key : string) (handler : nat).

Notation Heap := (gmap nat Object_).

Implicit Types (h : Heap) (p : LDValue) (v : Value).

(** What a pointer to a value points to. *)
Fixpoint deref h p : option Value :=
  match p with
  | VNullptr => None
  | VHeap a => match h !! a with Some (ObValue v) => Some v | _ => None end
  | VElem p i => match deref h p with Some (VArray l) => l !! i | _ => None end
  | VField p i => match deref h p with Some (VObject m) => snd <$> m !! i | _ => None end
  | VAttr a kind ref => match h !! a with Some (ObContext c) => Some (Context_Get c kind (FromReferenceStr ref)) | _ => None end
  | VEntry a key => match h !! a with Some (ObSeriesData d) => SeriesData_Get key d | _ => None end
  | VFlag a key => match h !! a with Some (ObFlagsState s) => Some (default VNull (evaluations_ s !! key)) | _ => None end
  end.

(** ** Calls *)

(** A call changes the heap and has a result, unless its behaviour is undefined. *)
Definition C (A : Type) : Type := Heap → option (A * Heap).

Definition ret {A} (x : A) : C A := λ h, Some (x, h).
Definition bind {A B} (m : C A) (k : A → C B) : C B := λ h, match m h with Some (x, h') => k x h' | None => None end.
Definition undefined {A} : C A := λ _, None.

Declare Scope c_scope.
Notation "x <- m ;; k" := (bind m (λ x, k)) (at level 100, m at next level, right associativity) : c_scope.
Notation "m ;;; k" := (bind m (λ _, k)) (at level 100, right associativity) : c_scope.
#[local] Open Scope c_scope.

Definition new (o : Object_) : C nat := λ h, let a := fresh (dom h) in Some (a, <[a := o]> h).
Definition load (a : nat) : C Object_ := λ h, match h !! a with Some o => Some (o, h) | None => None end.
Definition store (a : nat) (o : Object_) : C unit := λ h, Some ((), <[a := o]> h).
Definition free (a : nat) : C unit := λ h, match h !! a with Some _ => Some ((), delete a h) | None => None end.
Definition value_at p : C Value := λ h, match deref h p with Some v => Some (v, h) | None => None end.

(** ** value.cpp *)

Definition new_value v : C LDValue := a <- new (ObValue v) ;; ret (VHeap a).

Definition LDValue_NewNull : C LDValue := new_value VNull.
Definition LDValue_NewBool (val : bool) : C LDValue := new_value (VBool val).
Definition LDValue_NewNumber (val : double) : C LDValue := new_value (VNumber val).
Definition LDValue_NewString (val : string) : C LDValue := new_value (VString (from_c_str val)).
Definition LDValue_NewValue (val : LDValue) : C LDValue := v <- value_at val ;; new_value v.

(** [delete] of a null pointer does nothing; of a part of another object, it is undefined. *)
Definition LDValue_Free (val : LDValue) : C unit :=
  match val with
  | VNullptr => ret ()
  | VHeap a => o <- load a ;; match o with ObValue _ => free a | _ => undefined end
  | _ => undefined
  end.

Definition LDValue_Type (val : LDValue) : C ValueType.t := v <- value_at val ;; ret (Type_of v).
Definition LDValue_GetBool (val : LDValue) : C bool := v <- value_at val ;; ret (AsBool v).
Definition LDValue_GetNumber (val : LDValue) : C double := v <- value_at val ;; ret (AsDouble v).
Definition LDValue_GetString (val : LDValue) : C string := v <- value_at val ;; ret (from_c_str (AsString v)).
Definition LDValue_Count (val : LDValue) : C Z :=
  v <- value_at val ;;
  ret (match v with
       | VObject o => Z.of_nat (length o) `mod` 2 ^ 32
       | VArray a => Z.of_nat (length a) `mod` 2 ^ 32
       | _ => 0
       end).
Definition LDValue_SerializeJSON `{JsonText} (val : LDValue) : C nat :=
  v <- value_at val ;; new (ObString (from_c_str (serialize (from_Value v)))).
Definition LDMemory_FreeString (string : nat) : C unit :=
  o <- load string ;; match o with ObString _ => free string | _ => undefined end.

Definition LDValue_ArrayIter_New (val : LDValue) : C (option nat) :=
  v <- value_at val ;; if IsArray v then a <- new (ObArrayIter val 0) ;; ret (Some a) else ret None.

(** The iterator, and the array it is in. *)
Definition array_iter (iter : nat) : C (LDValue * nat * list Value) :=
  o <- load iter ;;
  match o with
  | ObArrayIter p i => v <- value_at p ;; match v with VArray l => ret (p, i, l) | _ => undefined end
  | _ => undefined
  end.

(** An iterator may not be moved past the end. *)
Definition LDValue_ArrayIter_Next (iter : nat) : C unit :=
  x <- array_iter iter ;; let '(p, i, l) := x in if (i <? length l)%nat then store iter (ObArrayIter p (S i)) else undefined.
Definition LDValue_ArrayIter_End (iter : nat) : C bool :=
  x <- array_iter iter ;; let '(p, i, l) := x in ret (i =? length l)%nat.
Definition LDValue_ArrayIter_Value (iter : nat) : C LDValue :=
  x <- array_iter iter ;; let '(p, i, l) := x in if (i <? length l)%nat then ret (VElem p i) else undefined.
Definition LDValue_ArrayIter_Free (iter : nat) : C unit :=
  o <- load iter ;; match o with ObArrayIter _ _ => free iter | _ => undefined end.

Definition LDValue_ObjectIter_New (val : LDValue) : C (option nat) :=
  v <- value_at val ;; if IsObject v then a <- new (ObObjectIter val 0) ;; ret (Some a) else ret None.

Definition object_iter (iter : nat) : C (LDValue * nat * list (string * Value)) :=
  o <- load iter ;;
  match o with
  | ObObjectIter p i => v <- value_at p ;; match v with VObject m => ret (p, i, m) | _ => undefined end
  | _ => undefined
  end.

Definition LDValue_ObjectIter_Next (iter : nat) : C unit :=
  x <- object_iter iter ;; let '(p, i, m) := x in if (i <? length m)%nat then store iter (ObObjectIter p (S i)) else undefined.
Definition LDValue_ObjectIter_End (iter : nat) : C bool :=
  x <- object_iter iter ;; let '(p, i, m) := x in ret (i =? length m)%nat.
Definition LDValue_ObjectIter_Value (iter : nat) : C LDValue :=
  x <- object_iter iter ;; let '(p, i, m) := x in if (i <? length m)%nat then ret (VField p i) else undefined.
Definition LDValue_ObjectIter_Key (iter : nat) : C string :=
  x <- object_iter iter ;;
  let '(p, i, m) := x in match m !! i with Some kv => ret (from_c_str kv.1) | None => undefined end.
Definition LDValue_ObjectIter_Free (iter : nat) : C unit :=
  o <- load iter ;; match o with ObObjectIter _ _ => free iter | _ => undefined end.

(** ** array_builder.cpp, object_builder.cpp *)

Definition LDArrayBuilder_New : C nat := new (ObVector []).
Definition LDArrayBuilder_Free (array_builder : nat) : C unit :=
  o <- load array_builder ;; match o with ObVector _ => free array_builder | _ => undefined end.

Definition LDArrayBuilder_Add (array_builder : nat) (val : LDValue) : C unit :=
  v <- value_at val ;; o <- load array_builder ;;
  match o with
  | ObVector l => store array_builder (ObVector (l ++ [v])) ;;; LDValue_Free val
  | _ => undefined
  end.

Definition LDArrayBuilder_Build (array_builder : nat) : C LDValue :=
  o <- load array_builder ;;
  match o with
  | ObVector l => value <- new_value (VArray l) ;; free array_builder ;;; ret value
  | _ => undefined
  end.

Definition LDObjectBuilder_New : C nat := new (ObMap []).
Definition LDObjectBuilder_Free (builder : nat) : C unit :=
  o <- load builder ;; match o with ObMap _ => free builder | _ => undefined end.

Definition LDObjectBuilder_Add (builder : nat) (key : string) (val : LDValue) : C unit :=
  v <- value_at val ;; o <- load builder ;;
  match o with
  | ObMap m => store builder (ObMap (emplace (from_c_str key) v m)) ;;; LDValue_Free val
  | _ => undefined
  end.

Definition LDObjectBuilder_Build (builder : nat) : C LDValue :=
  o <- load builder ;;
  match o with
  | ObMap m => value <- new_value (VObject m) ;; free builder ;;; ret value
  | _ => undefined
  end.

(** ** context_builder.cpp *)

Definition LDContextBuilder_New : C nat := new (ObContextBuilder [] []).
Definition LDContextBuilder_Free (builder : nat) : C unit :=
  o <- load builder ;; match o with ObContextBuilder _ _ => free builder | _ => undefined end.

Definition LDContextBuilder_Build (builder : nat) : C nat :=
  o <- load builder ;;
  match o with
  | ObContextBuilder _ b => context <- new (ObContext (CB_Build b)) ;; LDContextBuilder_Free builder ;;; ret context
  | _ => undefined
  end.

Definition LDContextBuilder_AddKind (builder : nat) (kind key : string) : C unit :=
  o <- load builder ;;
  match o with
  | ObContextBuilder kind_to_key b =>
      store builder (ObContextBuilder (assign (from_c_str kind) (from_c_str key) kind_to_key) (CB_Kind (from_c_str kind) (from_c_str key) b))
  | _ => undefined
  end.

(** The attributes of a kind: [Kind(kind, key)] and what is called on its result. *)
Definition with_kind (kind key : string) (f : AttributesBuilder → AttributesBuilder) (b : ContextBuilder) : ContextBuilder :=
  let b := CB_Kind kind key b in
  match find kind b with Some attributes => assign kind (f attributes) b | None => b end.

(** What the five functions share: nothing happens for a kind that was not added. *)
Definition set_attributes (builder : nat) (kind : string) (f : C (AttributesBuilder → AttributesBuilder)) (after : C unit) : C bool :=
  o <- load builder ;;
  match o with
  | ObContextBuilder kind_to_key b =>
      match find (from_c_str kind) kind_to_key with
      | Some existing =>
          g <- f ;; store builder (ObContextBuilder kind_to_key (with_kind (from_c_str kind) existing g b)) ;;; after ;;; ret true
      | None => ret false
      end
  | _ => undefined
  end.

Definition LDContextBuilder_Attributes_Set (builder : nat) (kind attr_key : string) (val : LDValue) : C bool :=
  set_attributes builder kind (v <- value_at val ;; ret (AB_Set (from_c_str attr_key) v false)) (LDValue_Free val).
Definition LDContextBuilder_Attributes_SetPrivate (builder : nat) (kind attr_key : string) (val : LDValue) : C bool :=
  set_attributes builder kind (v <- value_at val ;; ret (AB_Set (from_c_str attr_key) v true)) (LDValue_Free val).
Definition LDContextBuilder_Attributes_SetName (builder : nat) (kind name : string) : C bool :=
  set_attributes builder kind (ret (AB_Name (from_c_str name))) (ret ()).
Definition LDContextBuilder_Attributes_SetAnonymous (builder : nat) (kind : string) (anonymous : bool) : C bool :=
  set_attributes builder kind (ret (AB_Anonymous anonymous)) (ret ()).
Definition LDContextBuilder_Attributes_AddPrivateAttribute (builder : nat) (kind attr_key : string) : C bool :=
  set_attributes builder kind (ret (AB_AddPrivateAttribute (FromReferenceStr (from_c_str attr_key)))) (ret ()).

(** ** context.cpp *)

Definition context_at (context : nat) : C Context :=
  o <- load context ;; match o with ObContext c => ret c | _ => undefined end.

Definition LDContext_Free (context : nat) : C unit := context_at context ;;; free context.
Definition LDContext_Valid (context : nat) : C bool := c <- context_at context ;; ret (Context_Valid c).
Definition LDContext_CanonicalKey (context : nat) : C string := c <- context_at context ;; ret (from_c_str (CanonicalKey c)).
Definition LDContext_Errors (context : nat) : C string := c <- context_at context ;; ret (from_c_str (errors_ c)).

(** A pointer into the context; also what is missing is a value, the null value. *)
Definition LDContext_Get (context : nat) (kind ref : string) : C LDValue :=
  context_at context ;;; ret (VAttr context (from_c_str kind) (from_c_str ref)).

Definition LDContext_PrivateAttributesIter_New (context : nat) (kind : string) : C (option nat) :=
  c <- context_at context ;;
  if existsb (str_eqb (from_c_str kind)) (Context_Kinds c)
  then a <- new (ObPrivateIter context (from_c_str kind) 0) ;; ret (Some a)
  else ret None.

Definition private_iter (iter : nat) : C (nat * string * nat * list AttributeReference) :=
  o <- load iter ;;
  match o with
  | ObPrivateIter context kind i =>
      c <- context_at context ;;
      match Context_Attributes c kind with
      | Some attributes => ret (context, kind, i, private_attributes_ attributes)
      | None => undefined
      end
  | _ => undefined
  end.

Definition LDContext_PrivateAttributesIter_Free (iter : nat) : C unit :=
  o <- load iter ;; match o with ObPrivateIter _ _ _ => free iter | _ => undefined end.
Definition LDContext_PrivateAttributesIter_Next (iter : nat) : C unit :=
  x <- private_iter iter ;;
  let '(context, kind, i, refs) := x in
  if (i <? length refs)%nat then store iter (ObPrivateIter context kind (S i)) else undefined.
Definition LDContext_PrivateAttributesIter_End (iter : nat) : C bool :=
  x <- private_iter iter ;; let '(context, kind, i, refs) := x in ret (i =? length refs)%nat.
Definition LDContext_PrivateAttributesIter_Value (iter : nat) : C string :=
  x <- private_iter iter ;;
  let '(context, kind, i, refs) := x in
  match refs !! i with Some r => ret (from_c_str (RedactionName r)) | None => undefined end.

(** ** Programs that build and read values *)

(** Loops that add values to a builder. *)
Definition add_values (build : Value → C LDValue) (builder : nat) : list Value → C unit :=
  fix add l := match l with
               | [] => ret ()
               | x :: l' => val <- build x ;; LDArrayBuilder_Add builder val ;;; add l'
               end.

Definition add_members (build : Value → C LDValue) (builder : nat) : list (string * Value) → C unit :=
  fix add l := match l with
               | [] => ret ()
               | (k, x) :: l' => val <- build x ;; LDObjectBuilder_Add builder k val ;;; add l'
               end.

(** A value, made with the constructors and builders. *)
Fixpoint c_build v : C LDValue :=
  match v with
  | VNull => LDValue_NewNull
  | VBool b => LDValue_NewBool b
  | VNumber d => LDValue_NewNumber d
  | VString s => LDValue_NewString s
  | VArray a => builder <- LDArrayBuilder_New ;; add_values c_build builder a ;;; LDArrayBuilder_Build builder
  | VObject o => builder <- LDObjectBuilder_New ;; add_members c_build builder o ;;; LDObjectBuilder_Build builder
  end.

(** A loop over an array, and over an object, until the iterator says that it is at the end. *)
Fixpoint read_array (read : LDValue → C Value) (iter : nat) (n : nat) : C (list Value) :=
  match n with
  | O => undefined
  | S n =>
      e <- LDValue_ArrayIter_End iter ;;
      if e : bool then ret []
      else
        val <- LDValue_ArrayIter_Value iter ;; x <- read val ;; LDValue_ArrayIter_Next iter ;;;
        rest <- read_array read iter n ;; ret (x :: rest)
  end.

Fixpoint read_object (read : LDValue → C Value) (iter : nat) (n : nat) : C (list (string * Value)) :=
  match n with
  | O => undefined
  | S n =>
      e <- LDValue_ObjectIter_End iter ;;
      if e : bool then ret []
      else
        key <- LDValue_ObjectIter_Key iter ;; val <- LDValue_ObjectIter_Value iter ;; x <- read val ;;
        LDValue_ObjectIter_Next iter ;;; rest <- read_object read iter n ;; ret ((key, x) :: rest)
  end.

Fixpoint c_read (n : nat) p : C Value :=
  match n with
  | O => undefined
  | S n =>
      t <- LDValue_Type p ;;
      match t with
      | ValueType.kNull => ret VNull
      | ValueType.kBool => b <- LDValue_GetBool p ;; ret (VBool b)
      | ValueType.kNumber => d <- LDValue_GetNumber p ;; ret (VNumber d)
      | ValueType.kString => s <- LDValue_GetString p ;; ret (VString s)
      | ValueType.kArray =>
          it <- LDValue_ArrayIter_New p ;;
          match it with
          | Some iter => l <- read_array (c_read n) iter n ;; LDValue_ArrayIter_Free iter ;;; ret (VArray l)
          | None => undefined
          end
      | ValueType.kObject =>
          it <- LDValue_ObjectIter_New p ;;
          match it with
          | Some iter => m <- read_object (c_read n) iter n ;; LDValue_ObjectIter_Free iter ;;; ret (VObject m)
          | None => undefined
          end
      end
  end.

(** Values whose strings are C strings. *)
Fixpoint c_strings v : Prop :=
  match v with
  | VString s => from_c_str s = s
  | VArray a => (fix go l := match l with [] => True | x :: l' => c_strings x ∧ go l' end) a
  | VObject o => (fix go l := match l with [] => True | kv :: l' => from_c_str (fst kv) = fst kv ∧ c_strings (snd kv) ∧ go l' end) o
  | _ => True
  end.

(** Steps enough for reading a value. *)
Fixpoint c_size v : nat :=
  match v with
  | VArray a => 2 + sum_list_with c_size a
  | VObject o => 2 + sum_list_with (λ kv, c_size (snd kv)) o
  | _ => 1
  end.

(** ** Reading *)

Lemma deref_mono h h' p v : h ⊆ h' → deref h p = Some v → deref h' p = Some v.
Proof.
  intros Hsub. revert v. induction p as [|a|p IH i|p IH i|a k r|a k|a k]; intros v; cbn; [done| | | | | |].
  - destruct (h !! a) as [o|] eqn:E; [|done]. by rewrite (lookup_weaken _ _ _ _ E Hsub).
  - destruct (deref h p) as [w|]; [|done]. by rewrite (IH w).
  - destruct (deref h p) as [w|]; [|done]. by rewrite (IH w).
  - destruct (h !! a) as [o|] eqn:E; [|done]. by rewrite (lookup_weaken _ _ _ _ E Hsub).
  - destruct (h !! a) as [o|] eqn:E; [|done]. by rewrite (lookup_weaken _ _ _ _ E Hsub).
  - destruct (h !! a) as [o|] eqn:E; [|done]. by rewrite (lookup_weaken _ _ _ _ E Hsub).
Qed.

Lemma fresh_free h : h !! fresh (dom h) = None.
Proof. apply not_elem_of_dom, is_fresh. Qed.

Lemma value_at_ok h p v : deref h p = Some v → value_at p h = Some (v, h).
Proof. intros H. unfold value_at. by rewrite H. Qed.

Lemma array_iter_ok h iter p i l :
  h !! iter = None → deref h p = Some (VArray l) →
  array_iter iter (<[iter := ObArrayIter p i]> h) = Some ((p, i, l), <[iter := ObArrayIter p i]> h).
Proof.
  intros Hf Hp. unfold array_iter, bind, load. rewrite lookup_insert_eq.
  by rewrite (value_at_ok _ _ _ (deref_mono _ _ _ _ (insert_subseteq _ _ _ Hf) Hp)).
Qed.

Lemma object_iter_ok h iter p i m :
  h !! iter = None → deref h p = Some (VObject m) →
  object_iter iter (<[iter := ObObjectIter p i]> h) = Some ((p, i, m), <[iter := ObObjectIter p i]> h).
Proof.
  intros Hf Hp. unfold object_iter, bind, load. rewrite lookup_insert_eq.
  by rewrite (value_at_ok _ _ _ (deref_mono _ _ _ _ (insert_subseteq _ _ _ Hf) Hp)).
Qed.

Lemma read_array_ok h iter p l (read : LDValue → C Value) n i :
  h !! iter = None → deref h p = Some (VArray l) →
  (∀ i x h', l !! i = Some x → h ⊆ h' → read (VElem p i) h' = Some (x, h')) →
  (i ≤ length l)%nat → (length l - i < n)%nat →
  read_array read iter n (<[iter := ObArrayIter p i]> h) = Some (drop i l, <[iter := ObArrayIter p (length l)]> h).
Proof.
  intros Hf Hp Hread. revert i. induction n as [|n IH]; intros i Hi Hn; [lia|].
  cbn [read_array]. unfold LDValue_ArrayIter_End, LDValue_ArrayIter_Value, LDValue_ArrayIter_Next, bind, ret.
  rewrite (array_iter_ok _ _ _ _ _ Hf Hp). destruct (Nat.eqb_spec i (length l)) as [->|Hne]; [by rewrite drop_all|].
  destruct (lookup_lt_is_Some_2 l i) as [x Hx]; [lia|].
  rewrite (array_iter_ok _ _ _ _ _ Hf Hp), (proj2 (Nat.ltb_lt i (length l))) by lia.
  rewrite (Hread i x _ Hx (insert_subseteq _ _ _ Hf)), (array_iter_ok _ _ _ _ _ Hf Hp), (proj2 (Nat.ltb_lt i (length l))) by lia.
  unfold store. rewrite insert_insert_eq, IH by lia. by rewrite (drop_S l x i Hx).
Qed.

Lemma read_object_ok h iter p m (read : LDValue → C Value) n i :
  h !! iter = None → deref h p = Some (VObject m) →
  (∀ i kv h', m !! i = Some kv → h ⊆ h' → read (VField p i) h' = Some (kv.2, h')) →
  Forall (λ kv, from_c_str kv.1 = kv.1) m →
  (i ≤ length m)%nat → (length m - i < n)%nat →
  read_object read iter n (<[iter := ObObjectIter p i]> h) = Some (drop i m, <[iter := ObObjectIter p (length m)]> h).
Proof.
  intros Hf Hp Hread Hkeys. revert i. induction n as [|n IH]; intros i Hi Hn; [lia|].
  cbn [read_object]. unfold LDValue_ObjectIter_End, LDValue_ObjectIter_Value, LDValue_ObjectIter_Key, LDValue_ObjectIter_Next, bind, ret.
  rewrite (object_iter_ok _ _ _ _ _ Hf Hp). destruct (Nat.eqb_spec i (length m)) as [->|Hne]; [by rewrite drop_all|].
  destruct (lookup_lt_is_Some_2 m i) as [kv Hx]; [lia|].
  rewrite (object_iter_ok _ _ _ _ _ Hf Hp), Hx.
  rewrite (object_iter_ok _ _ _ _ _ Hf Hp), (proj2 (Nat.ltb_lt i (length m))) by lia.
  rewrite (Hread i kv _ Hx (insert_subseteq _ _ _ Hf)), (object_iter_ok _ _ _ _ _ Hf Hp), (proj2 (Nat.ltb_lt i (length m))) by lia.
  unfold store. rewrite insert_insert_eq, IH by lia. rewrite (drop_S m kv i Hx).
  rewrite (proj1 (Forall_lookup _ m) Hkeys i kv Hx : from_c_str kv.1 = kv.1). by destruct kv.
Qed.

Lemma c_strings_array a : c_strings (VArray a) ↔ Forall c_strings a.
Proof. cbn. induction a as [|x a IH]; [by rewrite Forall_nil|]. rewrite Forall_cons. by rewrite IH. Qed.

Lemma c_strings_object o : c_strings (VObject o) ↔ Forall (λ kv, from_c_str kv.1 = kv.1) o ∧ Forall (λ kv, c_strings kv.2) o.
Proof. cbn. induction o as [|x o IH]; [by rewrite !Forall_nil|]. rewrite !Forall_cons, IH. tauto. Qed.

Lemma c_size_pos v : (1 ≤ c_size v)%nat.
Proof. destruct v; cbn; lia. Qed.

Lemma sum_elem {A} (f : A → nat) l x : x ∈ l → (f x ≤ sum_list_with f l)%nat.
Proof. induction 1; cbn; lia. Qed.

Lemma sum_length {A} (f : A → nat) l : (∀ x, 1 ≤ f x)%nat → (length l ≤ sum_list_with f l)%nat.
Proof. intros Hf. induction l as [|x l IH]; cbn; [done|]. specialize (Hf x). lia. Qed.

(** Reading a live value gives the value, and gives back every iterator it used. *)
Lemma c_read_ok v n h p : (c_size v ≤ n)%nat → c_strings v → deref h p = Some v → c_read n p h = Some (v, h).
Proof.
  revert n h p. induction v as [|b|d|s|a IH|o IH] using Value_nested_ind; intros n h p Hn Hs Hp;
    (destruct n as [|n]; [cbn in Hn; lia|]); cbn [c_read]; unfold LDValue_Type, LDValue_GetBool, LDValue_GetNumber, LDValue_GetString, bind at 1;
    unfold bind at 1; rewrite (value_at_ok _ _ _ Hp); cbn [ret Type_of].
  1: done. 1, 2: unfold bind; by rewrite (value_at_ok _ _ _ Hp).
  1: { unfold bind; rewrite (value_at_ok _ _ _ Hp). cbn [AsString ret]. by rewrite (Hs : from_c_str s = s). }
  - unfold LDValue_ArrayIter_New, bind. rewrite (value_at_ok _ _ _ Hp). cbn [IsArray new ret].
    apply c_strings_array in Hs. cbn [c_size] in Hn. pose proof (sum_length c_size a c_size_pos).
    rewrite (read_array_ok _ _ _ a _ _ _ (fresh_free h) Hp); [|clear H|lia|lia].
    + unfold LDValue_ArrayIter_Free, bind, load, free. by rewrite !lookup_insert_eq, delete_insert_id by apply fresh_free.
    + intros i x h' Hx Hsub. pose proof (list_elem_of_lookup_2 _ _ _ Hx) as Hin. pose proof (sum_elem c_size a x Hin).
      rewrite Forall_forall in IH, Hs. apply IH; [done|lia|by apply Hs|]. cbn. by rewrite (deref_mono _ _ _ _ Hsub Hp).
  - unfold LDValue_ObjectIter_New, bind. rewrite (value_at_ok _ _ _ Hp). cbn [IsObject new ret].
    apply c_strings_object in Hs as [Hk Hs]. cbn [c_size] in Hn.
    pose proof (sum_length (λ kv : string * Value, c_size (snd kv)) o (λ kv, c_size_pos _)).
    rewrite (read_object_ok _ _ _ o _ _ _ (fresh_free h) Hp); [|clear H|done|lia|lia].
    + unfold LDValue_ObjectIter_Free, bind, load, free. by rewrite !lookup_insert_eq, delete_insert_id by apply fresh_free.
    + intros i kv h' Hx Hsub. pose proof (list_elem_of_lookup_2 _ _ _ Hx) as Hin.
      pose proof (sum_elem (λ kv : string * Value, c_size (snd kv)) o kv Hin). cbn in *.
      rewrite Forall_forall in IH, Hs. apply IH; [done|lia|by apply Hs|]. cbn. by rewrite (deref_mono _ _ _ _ Hsub Hp), Hx.
Qed.

(** ** Building *)

Lemma bind_ok {A B} (m : C A) (k : A → C B) x (h h' : Heap) r : m h = Some (x, h') → k x h' = r → bind m k h = r.
Proof. unfold bind. by intros ->. Qed.

Lemma bind_inv {A B} (m : C A) (k : A → C B) (h h' : Heap) y :
  bind m k h = Some (y, h') → ∃ x h1, m h = Some (x, h1) ∧ k x h1 = Some (y, h').
Proof. unfold bind. destruct (m h) as [[x h1]|] eqn:E; [|done]. intros H. by exists x, h1. Qed.

(** A call that leaves one new object, at the address it returns. *)
Definition makes {A} (m : C A) (handle : nat → A) (o : Object_) : Prop :=
  ∀ h, ∃ a, h !! a = None ∧ m h = Some (handle a, <[a := o]> h).

Lemma new_makes o : makes (new o) id o.
Proof. intros h. exists (fresh (dom h)). split; [apply fresh_free|done]. Qed.

Lemma new_value_makes v : makes (new_value v) VHeap (ObValue v).
Proof. intros h. exists (fresh (dom h)). split; [apply fresh_free|done]. Qed.

(** What a builder ends with: the value is allocated before the builder is deleted. *)
Lemma replace_makes {A} h b o o' (k : nat → A) :
  h !! b = None →
  ∃ a, h !! a = None ∧
    bind (new o') (λ a, bind (free b) (λ _, ret (k a))) (<[b := o]> h) = Some (k a, <[a := o']> h).
Proof.
  intros Hb. set (a := fresh (dom (<[b := o]> h))). assert (<[b := o]> h !! a = None) as Ha by apply fresh_free.
  assert (a ≠ b) as Hne by (intros E; by rewrite E, lookup_insert_eq in Ha). rewrite lookup_insert_ne in Ha by done.
  exists a. split; [done|]. unfold bind, new, free, ret. cbv zeta. fold a.
  rewrite lookup_insert_ne, lookup_insert_eq by done.
  by rewrite delete_insert_ne, delete_insert_id by done.
Qed.

Lemma add_values_ok build l acc h b :
  h !! b = None → Forall (λ x, makes (build x) VHeap (ObValue x)) l →
  add_values build b l (<[b := ObVector acc]> h) = Some ((), <[b := ObVector (acc ++ l)]> h).
Proof.
  intros Hb Hl. revert acc. induction Hl as [|x l Hx _ IH]; intros acc; [by rewrite app_nil_r|].
  cbn [add_values]. unfold bind. destruct (Hx (<[b := ObVector acc]> h)) as (a & Ha & ->).
  assert (a ≠ b) as Hne by (intros ->; by rewrite lookup_insert_eq in Ha). rewrite lookup_insert_ne in Ha by done.
  unfold LDArrayBuilder_Add, bind, value_at, load, store. cbn [deref].
  rewrite lookup_insert_eq, lookup_insert_ne, lookup_insert_eq by done.
  unfold LDValue_Free, bind, load, free. rewrite lookup_insert_ne, !lookup_insert_eq by done.
  rewrite (insert_insert_ne _ b a), insert_insert_eq, delete_insert_id, ?lookup_insert_eq by (done || by rewrite lookup_insert_ne).
  etrans; [exact (IH (acc ++ [x]))|]. by rewrite <- app_assoc.
Qed.

Lemma add_members_ok build l acc h b :
  h !! b = None → Forall (λ kv, from_c_str kv.1 = kv.1) l → Forall (λ kv, makes (build kv.2) VHeap (ObValue kv.2)) l →
  add_members build b l (<[b := ObMap acc]> h) = Some ((), <[b := ObMap (foldl (λ m kv, emplace kv.1 kv.2 m) acc l)]> h).
Proof.
  intros Hb Hk Hl. revert acc Hk. induction Hl as [|[k x] l Hx _ IH]; intros acc Hk; [done|]. apply Forall_cons in Hk as [Hkx Hk]. cbn [fst snd] in *.
  cbn [add_members]. unfold bind. destruct (Hx (<[b := ObMap acc]> h)) as (a & Ha & ->).
  assert (a ≠ b) as Hne by (intros ->; by rewrite lookup_insert_eq in Ha). rewrite lookup_insert_ne in Ha by done.
  unfold LDObjectBuilder_Add, bind, value_at, load, store. cbn [deref].
  rewrite lookup_insert_eq, lookup_insert_ne, lookup_insert_eq, Hkx by done.
  unfold LDValue_Free, bind, load, free. rewrite lookup_insert_ne, !lookup_insert_eq by done.
  rewrite (insert_insert_ne _ b a), insert_insert_eq, delete_insert_id, ?lookup_insert_eq by (done || by rewrite lookup_insert_ne).
  exact (IH (emplace k x acc) Hk).
Qed.

Lemma c_build_makes v : WfValue v → c_strings v → makes (c_build v) VHeap (ObValue v).
Proof.
  induction v as [|b|d|s|a IH|o IH] using Value_nested_ind; intros Hw Hs; try apply new_value_makes.
  - cbn [c_build]. unfold LDValue_NewString. rewrite (Hs : from_c_str s = s). apply new_value_makes.
  - apply WfValue_array in Hw. apply c_strings_array in Hs. intros h. cbn [c_build]. unfold LDArrayBuilder_New, bind.
    destruct (new_makes (ObVector []) h) as (b & Hb & ->). cbn [id].
    rewrite add_values_ok; [|done|rewrite Forall_forall in *; auto].
    destruct (replace_makes h b (ObVector a) (ObValue (VArray a)) VHeap Hb) as (x & Hx & E). exists x. split; [done|].
    rewrite <- E. unfold LDArrayBuilder_Build, bind, load, new_value. by rewrite lookup_insert_eq.
  - apply WfValue_object in Hw as [Ho Hw]. apply c_strings_object in Hs as [Hk Hs]. intros h. cbn [c_build]. unfold LDObjectBuilder_New, bind.
    destruct (new_makes (ObMap []) h) as (b & Hb & ->). cbn [id].
    rewrite add_members_ok; [|done|done|rewrite Forall_forall in *; auto].
    rewrite (foldl_emplace_nil (λ x, x) o Ho). replace ((λ kv, (kv.1, kv.2)) <$> o) with o by (symmetry; etrans; [|apply list_fmap_id]; apply list_fmap_ext; by intros ? [] ?).
    destruct (replace_makes h b (ObMap o) (ObValue (VObject o)) VHeap Hb) as (x & Hx & E). exists x. split; [done|].
    rewrite <- E. unfold LDObjectBuilder_Build, bind, load, new_value. by rewrite lookup_insert_eq.
Qed.

(** ** Contexts *)

(** What a client asks a context builder for. *)
Inductive Setting :=
| SKind (kind key : string)
| SAttribute (kind name : string) (v : Value) (private : bool)
| SName (kind name : string)
| SAnonymous (kind : string) (anonymous : bool)
| SPrivate (kind ref : string).

(** In C: a value that is refused is still the caller's. *)
Definition c_setting (builder : nat) (s : Setting) : C unit :=
  match s with
  | SKind kind key => LDContextBuilder_AddKind builder kind key
  | SAttribute kind name v private =>
      val <- c_build v ;;
      ok <- (if private then LDContextBuilder_Attributes_SetPrivate builder kind name val
             else LDContextBuilder_Attributes_Set builder kind name val) ;;
      if ok : bool then ret () else LDValue_Free val
  | SName kind name => LDContextBuilder_Attributes_SetName builder kind name ;;; ret ()
  | SAnonymous kind anonymous => LDContextBuilder_Attributes_SetAnonymous builder kind anonymous ;;; ret ()
  | SPrivate kind ref => LDContextBuilder_Attributes_AddPrivateAttribute builder kind ref ;;; ret ()
  end.

Fixpoint c_settings (builder : nat) (l : list Setting) : C unit :=
  match l with [] => ret () | s :: l' => c_setting builder s ;;; c_settings builder l' end.

Definition c_context (l : list Setting) : C nat :=
  builder <- LDContextBuilder_New ;; c_settings builder l ;;; LDContextBuilder_Build builder.

(** In C++: a call on the attributes of a kind that is there. *)
Definition on_kind (kind : string) (f : AttributesBuilder → AttributesBuilder) (b : ContextBuilder) : ContextBuilder :=
  match find kind b with Some attributes => assign kind (f attributes) b | None => b end.

Definition cxx_setting (b : ContextBuilder) (s : Setting) : ContextBuilder :=
  match s with
  | SKind kind key => CB_Kind kind key b
  | SAttribute kind name v private => on_kind kind (AB_Set name v private) b
  | SName kind name => on_kind kind (AB_Name name) b
  | SAnonymous kind anonymous => on_kind kind (AB_Anonymous anonymous) b
  | SPrivate kind ref => on_kind kind (AB_AddPrivateAttribute (FromReferenceStr ref)) b
  end.

Definition c_string (s : string) : Prop := from_c_str s = s.

Definition setting_ok (s : Setting) : Prop :=
  match s with
  | SKind kind key => c_string kind ∧ c_string key
  | SAttribute kind name v _ => c_string kind ∧ c_string name ∧ WfValue v ∧ c_strings v
  | SName kind name => c_string kind ∧ c_string name
  | SAnonymous kind _ => c_string kind
  | SPrivate kind ref => c_string kind ∧ c_string ref
  end.

(** The keys that the binding keeps are those of the builder. *)
Definition same_keys (kind_to_key : list (string * string)) (b : ContextBuilder) : Prop :=
  ∀ kind, find kind kind_to_key = ab_key_ <$> find kind b.

Lemma assign_twice {A} k (x y : A) m : assign k x (assign k y m) = assign k x m.
Proof.
  induction m as [|[j z] m IH]; cbn; [by rewrite str_eqb_refl|].
  destruct (str_eqb k j) eqn:E; cbn; [by rewrite str_eqb_refl|].
  destruct (str_ltb k j) eqn:L; cbn; [by rewrite str_eqb_refl|]. by rewrite E, L, IH.
Qed.

Lemma AB_Set_key name v private b : ab_key_ (AB_Set name v private b) = ab_key_ b.
Proof.
  unfold AB_Set, TypedAttributes. case_match; [done|]. destruct (str_eqb name "anonymous"), (str_eqb name "name"); cbn;
    repeat case_match; done.
Qed.

(** Setting attributes does not change the key. *)
Lemma with_kind_on_kind kind key f b ktk :
  same_keys ktk b → find kind ktk = Some key → with_kind kind key f b = on_kind kind f b.
Proof.
  intros Hs Hf. rewrite Hs in Hf. unfold with_kind, on_kind, CB_Kind. destruct (find kind b) as [ab|]; [|done].
  injection Hf as <-. rewrite find_assign_eq, assign_twice. by destruct ab.
Qed.

Lemma on_kind_keys kind f b ktk : (∀ a, ab_key_ (f a) = ab_key_ a) → same_keys ktk b → same_keys ktk (on_kind kind f b).
Proof.
  intros Hf Hs k. rewrite Hs. unfold on_kind. destruct (find kind b) as [ab|] eqn:E; [|done].
  destruct (decide (kind = k)) as [->|Hne]; [|by rewrite find_assign_ne].
  rewrite find_assign_eq, E. cbn. by rewrite Hf.
Qed.

Lemma add_kind_keys kind key b ktk : same_keys ktk b → same_keys (assign kind key ktk) (CB_Kind kind key b).
Proof.
  intros Hs k. unfold CB_Kind. destruct (find kind b) as [ab|] eqn:E.
  - destruct (decide (kind = k)) as [->|Hne]; [by rewrite !find_assign_eq|]. by rewrite !find_assign_ne, Hs.
  - destruct (decide (kind = k)) as [->|Hne]; [by rewrite find_assign_eq, find_emplace_new|].
    by rewrite find_assign_ne, find_emplace_ne, Hs.
Qed.
(** The five functions, for a kind that was added and for another one. *)
Lemma set_attributes_ok h builder ktk b kind f g after :
  h !! builder = Some (ObContextBuilder ktk b) → c_string kind → same_keys ktk b → f h = Some (g, h) →
  set_attributes builder kind f after h =
    if find kind b then (after ;;; ret true) (<[builder := ObContextBuilder ktk (on_kind kind g b)]> h) else Some (false, h).
Proof.
  intros Hb Hk Hs Hf. unfold set_attributes. unfold bind at 1, load. rewrite Hb, Hk. pose proof (Hs kind) as E.
  destruct (find kind ktk) as [key|] eqn:Ef, (find kind b) as [ab|]; try done.
  unfold bind at 1. rewrite Hf. unfold bind at 1, store. by rewrite (with_kind_on_kind _ _ _ _ ktk).
Qed.

(** The three functions that take no value. *)
Lemma set_plain_ok h builder ktk b kind g :
  h !! builder = None → c_string kind → same_keys ktk b →
  (set_attributes builder kind (ret g) (ret ()) ;;; ret ()) (<[builder := ObContextBuilder ktk b]> h) =
    Some ((), <[builder := ObContextBuilder ktk (on_kind kind g b)]> h).
Proof.
  intros Hb Hk Hs. unfold bind at 1. rewrite (set_attributes_ok _ _ ktk b _ _ g) by (done || apply lookup_insert_eq).
  unfold on_kind. destruct (find kind b); [|done]. unfold bind, ret. by rewrite insert_insert_eq.
Qed.

Lemma set_value_ok h builder ktk b kind name v private :
  h !! builder = None → c_string kind → c_string name → same_keys ktk b → WfValue v → c_strings v →
  c_setting builder (SAttribute kind name v private) (<[builder := ObContextBuilder ktk b]> h) =
    Some ((), <[builder := ObContextBuilder ktk (on_kind kind (AB_Set name v private) b)]> h).
Proof.
  intros Hb Hk Hn Hs Hw Hc. cbn [c_setting]. unfold bind at 1.
  destruct (c_build_makes v Hw Hc (<[builder := ObContextBuilder ktk b]> h)) as (a & Ha & ->).
  assert (a ≠ builder) as Hne by (intros ->; by rewrite lookup_insert_eq in Ha). rewrite lookup_insert_ne in Ha by done.
  set (h1 := <[a := ObValue v]> _).
  assert (h1 !! builder = Some (ObContextBuilder ktk b)) as Hb1 by (unfold h1; by rewrite lookup_insert_ne, lookup_insert_eq).
  assert (bind (value_at (VHeap a)) (λ v, ret (AB_Set (from_c_str name) v private)) h1 = Some (AB_Set name v private, h1)) as Hf.
  { unfold bind, value_at, ret, h1. cbn [deref]. by rewrite lookup_insert_eq, Hn. }
  assert ((if private then LDContextBuilder_Attributes_SetPrivate builder kind name (VHeap a)
           else LDContextBuilder_Attributes_Set builder kind name (VHeap a)) h1 =
          if find kind b then Some (true, <[builder := ObContextBuilder ktk (on_kind kind (AB_Set name v private) b)]> h)
          else Some (false, h1)) as E.
  { destruct private; unfold LDContextBuilder_Attributes_SetPrivate, LDContextBuilder_Attributes_Set;
      rewrite (set_attributes_ok _ _ ktk b _ _ _ _ Hb1 Hk Hs Hf); (destruct (find kind b); [|done]);
      unfold LDValue_Free, bind, load, free, ret, h1; rewrite lookup_insert_ne, lookup_insert_eq by done;
      rewrite insert_insert_ne, insert_insert_eq, lookup_insert_eq, delete_insert_id by (done || by rewrite lookup_insert_ne); done. }
  unfold bind at 1. rewrite E. unfold on_kind. destruct (find kind b); [done|].
  unfold LDValue_Free, bind, load, free, h1. by rewrite !lookup_insert_eq, delete_insert_id by (by rewrite lookup_insert_ne).
Qed.

Lemma c_setting_ok s h builder ktk b :
  h !! builder = None → setting_ok s → same_keys ktk b →
  ∃ ktk', same_keys ktk' (cxx_setting b s) ∧
    c_setting builder s (<[builder := ObContextBuilder ktk b]> h) = Some ((), <[builder := ObContextBuilder ktk' (cxx_setting b s)]> h).
Proof.
  intros Hb Hok Hs. destruct s as [kind key|kind name v private|kind name|kind anonymous|kind ref]; cbn in Hok.
  - destruct Hok as [Hk Hy]. eexists. split; [by apply add_kind_keys|]. cbn [c_setting]. unfold LDContextBuilder_AddKind, bind, load, store.
    by rewrite lookup_insert_eq, Hk, Hy, insert_insert_eq.
  - destruct Hok as (Hk & Hn & Hw & Hc). exists ktk. split; [apply on_kind_keys; [apply AB_Set_key|done]|]. by apply set_value_ok.
  - destruct Hok as [Hk Hn]. exists ktk. split; [by apply on_kind_keys|]. cbn [c_setting]. unfold LDContextBuilder_Attributes_SetName.
    rewrite Hn. by apply set_plain_ok.
  - exists ktk. split; [by apply on_kind_keys|]. by apply set_plain_ok.
  - destruct Hok as [Hk Hr]. exists ktk. split; [by apply on_kind_keys|]. cbn [c_setting]. unfold LDContextBuilder_Attributes_AddPrivateAttribute.
    rewrite Hr. by apply set_plain_ok.
Qed.

Lemma c_settings_ok l h builder ktk b :
  h !! builder = None → Forall setting_ok l → same_keys ktk b →
  ∃ ktk', c_settings builder l (<[builder := ObContextBuilder ktk b]> h) =
    Some ((), <[builder := ObContextBuilder ktk' (foldl cxx_setting b l)]> h).
Proof.
  intros Hb Hl. revert ktk b. induction Hl as [|s l Hok _ IH]; intros ktk b Hs; [by exists ktk|].
  destruct (c_setting_ok s h builder ktk b Hb Hok Hs) as (ktk1 & Hs1 & E). destruct (IH _ _ Hs1) as (ktk2 & E2).
  exists ktk2. cbn [c_settings foldl]. unfold bind. by rewrite E.
Qed.

(** ** Properties *)

(** C39: What is built through the C interface is what can be read through it, and nothing leaks.
    For a value whose strings are C strings, the constructors and builders make one new object of
    the heap; reading it back, with the iterators of arrays and objects, gives the value; and after
    it is freed the heap is as it was before. *)
Theorem c_value_roundtrip v n h :
  WfValue v → c_strings v → (c_size v ≤ n)%nat →
  ∃ a, h !! a = None ∧ c_build v h = Some (VHeap a, <[a := ObValue v]> h) ∧
    c_read n (VHeap a) (<[a := ObValue v]> h) = Some (v, <[a := ObValue v]> h) ∧
    LDValue_Free (VHeap a) (<[a := ObValue v]> h) = Some ((), h).
Proof.
  intros Hw Hs Hn. destruct (c_build_makes v Hw Hs h) as (a & Ha & Hb). exists a. split_and!; [done|done| |].
  - apply c_read_ok; [done|done|]. cbn. by rewrite lookup_insert_eq.
  - unfold LDValue_Free, bind, load, free. by rewrite !lookup_insert_eq, delete_insert_id by done.
Qed.

(** A context built through the C interface is the one that the same calls build in C++ (an
    attribute of a kind that was not added is left out), and everything else that was allocated for
    it, the builder and the values, is freed. *)
Theorem c_context_built (l : list Setting) h :
  Forall setting_ok l →
  ∃ a, h !! a = None ∧ c_context l h = Some (a, <[a := ObContext (CB_Build (foldl cxx_setting [] l))]> h).
Proof.
  intros Hl. unfold c_context, LDContextBuilder_New, bind. destruct (new_makes (ObContextBuilder [] []) h) as (b & Hb & ->).
  destruct (c_settings_ok l h b [] [] Hb Hl) as (ktk & E); [done|]. cbn [id]. rewrite E.
  set (o := ObContextBuilder ktk _). destruct (replace_makes h b o (ObContext (CB_Build (foldl cxx_setting [] l))) id Hb) as (a & Ha & Er).
  assert (fresh (dom (<[b := o]> h)) ≠ b) as Hne.
  { intros Ef. pose proof (fresh_free (<[b := o]> h)) as Hx. by rewrite Ef, lookup_insert_eq in Hx. }
  exists a. split; [done|]. unfold id in Er. rewrite <- Er. unfold LDContextBuilder_Build, LDContextBuilder_Free, bind, load, ret, new, free.
  rewrite lookup_insert_eq. unfold o at 1. cbv beta iota zeta.
  rewrite lookup_insert_ne, lookup_insert_eq by done. unfold o at 1. cbv beta iota.
  by rewrite lookup_insert_ne, lookup_insert_eq by done.
Qed.

Definition sample_value : Value :=
  VObject [("a", VArray [VNumber (d_of_Z 1); VString "x"; VNull]); ("b", VBool true)].

Lemma c_value_roundtrip_witness :
  ∃ a, (∅ : Heap) !! a = None ∧ c_build sample_value ∅ = Some (VHeap a, <[a := ObValue sample_value]> ∅) ∧
    c_read 10 (VHeap a) (<[a := ObValue sample_value]> ∅) = Some (sample_value, <[a := ObValue sample_value]> ∅) ∧
    LDValue_Free (VHeap a) (<[a := ObValue sample_value]> ∅) = Some ((), ∅).
Proof.
  apply (c_value_roundtrip sample_value 10 ∅).
  - apply WfValue_object. split; [repeat constructor|]. repeat constructor.
  - cbn. tauto.
  - vm_compute. lia.
Defined.

(** A value that is set on a kind that was not added is not consumed: a caller that counts on that leaks it. *)
Example refused_value_kept :
  (builder <- LDContextBuilder_New ;; val <- LDValue_NewBool true ;;
   ok <- LDContextBuilder_Attributes_Set builder "user" "beta" val ;; LDContextBuilder_Free builder ;;; ret ok) ∅ =
  Some (false, {[1%nat := ObValue (VBool true)]}).
Proof. vm_compute. reflexivity. Qed.

(** An attribute that is missing is a null value, not a null pointer. *)
Example missing_attribute_not_null :
  match (c <- c_context [SKind "user" "u"] ;; p <- LDContext_Get c "user" "beta" ;; t <- LDValue_Type p ;; ret (p, t)) ∅ with
  | Some (p, t, _) => p ≠ VNullptr ∧ t = ValueType.kNull
  | None => False
  end.
Proof. vm_compute. done. Qed.

(** The first of two members with the same key is kept. *)
Example first_member_kept :
  fst <$> (builder <- LDObjectBuilder_New ;; x <- LDValue_NewBool true ;; LDObjectBuilder_Add builder "k" x ;;;
           y <- LDValue_NewBool false ;; LDObjectBuilder_Add builder "k" y ;;; p <- LDObjectBuilder_Build builder ;; c_read 5 p) ∅ =
  Some (VObject [("k", VBool true)]).
Proof. vm_compute. reflexivity. Qed.
