(* ===== verification/CHooks.v ===== *)
(** * Hooks written in C

    libs/server-sdk/src/bindings/c: hook_wrapper.cpp, evaluation_series_data.cpp, hook_context.cpp;
    libs/common/src/bindings/c/data/evaluation_detail.cpp.

    On the heap of [CBindings].  The callbacks of a hook are programs of the application, which use
    that heap; the context of the series, which they may only read, is a value. *)

From S2P Require Import Prelude OrderedMap Doubles Values Contexts Reasons Json Hooks CBindings.
#[local] Open Scope c_scope.

Abbreviation SeriesData := (EvaluationSeriesData CAny).

(** ** evaluation_series_data.cpp *)

Definition data_at (data : nat) : C SeriesData :=
  o <- load data ;; match o with ObSeriesData d => ret d | _ => undefined end.

Definition LDEvaluationSeriesData_New : C nat := new (ObSeriesData []).

(** A pointer into the data, when there is a value. *)
Definition LDEvaluationSeriesData_GetValue (data : nat) (key : string) : C (option LDValue) :=
  d <- data_at data ;;
  ret (match SeriesData_Get (from_c_str key) d with Some _ => Some (VEntry data (from_c_str key)) | None => None end).

Definition LDEvaluationSeriesData_GetPointer (data : nat) (key : string) : C (option nat) :=
  d <- data_at data ;; ret (match SeriesData_GetShared (from_c_str key) d with Some (AVoid p) => Some p | _ => None end).

Definition LDEvaluationSeriesData_NewBuilder (data : option nat) : C nat :=
  match data with
  | Some a => d <- data_at a ;; new (ObSeriesDataBuilder d)
  | None => new (ObSeriesDataBuilder [])
  end.

Definition LDEvaluationSeriesData_Free (data : nat) : C unit := data_at data ;;; free data.

Definition builder_at (builder : nat) : C SeriesData :=
  o <- load builder ;; match o with ObSeriesDataBuilder d => ret d | _ => undefined end.

(** The value is copied: it remains the caller's. *)
Definition LDEvaluationSeriesDataBuilder_SetValue (builder : nat) (key : string) (value : LDValue) : C unit :=
  d <- builder_at builder ;; v <- value_at value ;; store builder (ObSeriesDataBuilder (Builder_Set (from_c_str key) v d)).

Definition LDEvaluationSeriesDataBuilder_SetPointer (builder : nat) (key : string) (pointer : nat) : C unit :=
  d <- builder_at builder ;; store builder (ObSeriesDataBuilder (Builder_SetShared (from_c_str key) (AVoid pointer) d)).

Definition LDEvaluationSeriesDataBuilder_Build (builder : nat) : C nat :=
  d <- builder_at builder ;; result <- new (ObSeriesData d) ;; free builder ;;; ret result.

Definition LDEvaluationSeriesDataBuilder_Free (builder : nat) : C unit := builder_at builder ;;; free builder.

(** ** hook_context.cpp *)

Definition hook_context_at (hook_context : nat) : C (HookContext CAny) :=
  o <- load hook_context ;; match o with ObHookContext c => ret c | _ => undefined end.

Definition LDHookContext_New : C nat := new (ObHookContext []).
Definition LDHookContext_Set (hook_context : nat) (key : string) (value : nat) : C unit :=
  c <- hook_context_at hook_context ;; store hook_context (ObHookContext (HookContext_Set (from_c_str key) (AConstVoid value) c)).
Definition LDHookContext_Get (hook_context : nat) (key : string) : C (option nat) :=
  c <- hook_context_at hook_context ;; ret (match HookContext_Get (from_c_str key) c with Some (AConstVoid p) => Some p | _ => None end).
Definition LDHookContext_Free (hook_context : nat) : C unit := hook_context_at hook_context ;;; free hook_context.

(** ** evaluation_detail.cpp *)

(** The handle is taken for a pointer to a [CEvaluationDetail]. *)
Definition detail_at (detail : nat) : C (option Z * option EvaluationReason) :=
  o <- load detail ;; match o with ObCDetail variation_index reason => ret (variation_index, reason) | _ => undefined end.

Definition LDEvalDetail_Free (detail : nat) : C unit := detail_at detail ;;; free detail.
Definition LDEvalDetail_VariationIndex (detail : nat) : C (option Z) := d <- detail_at detail ;; ret d.1.

(** A reason is a pointer into the detail. *)
Definition LDEvalDetail_Reason (detail : nat) : C (option nat) :=
  d <- detail_at detail ;; ret (match d.2 with Some _ => Some detail | None => None end).

Definition reason_at (reason : nat) : C EvaluationReason :=
  d <- detail_at reason ;; match d.2 with Some r => ret r | None => undefined end.

Definition LDEvalReason_Kind (reason : nat) : C Kind.t := r <- reason_at reason ;; ret (kind_ r).
Definition LDEvalReason_ErrorKind (reason : nat) : C (option ErrorKind.t) := r <- reason_at reason ;; ret (error_kind_ r).
Definition LDEvalReason_InExperiment (reason : nat) : C bool := r <- reason_at reason ;; ret (in_experiment_ r).

(** ** hook_wrapper.cpp *)

(** [LDServerSDKHook]: the callbacks, when they are set. *)
Record CHook := mkCHook {
  ch_name : string;
  before_evaluation_ : option (EvaluationSeriesContext CAny → nat → C (option nat));
  after_evaluation_ : option (EvaluationSeriesContext CAny → nat → nat → C (option nat));
}.

(** What both stages do with a callback that is set: it gets a copy of the data, and what it
    returns is taken over. *)
Definition with_callback (callback : nat → C (option nat)) (data : SeriesData) : C SeriesData :=
  input <- new (ObSeriesData data) ;;
  result <- callback input ;;
  match result with
  | Some result_data =>
      (if (result_data =? input)%nat then ret () else LDEvaluationSeriesData_Free input) ;;;
      cpp_result <- data_at result_data ;; free result_data ;;; ret cpp_result
  | None => LDEvaluationSeriesData_Free input ;;; ret []
  end.

Definition CHook_BeforeEvaluation (hook : CHook) (series_context : EvaluationSeriesContext CAny) (data : SeriesData) : C SeriesData :=
  match before_evaluation_ hook with
  | None => ret data
  | Some callback => with_callback (callback series_context) data
  end.

(** The callback gets the address of the detail of the evaluation. *)
Definition CHook_AfterEvaluation (hook : CHook) (series_context : EvaluationSeriesContext CAny) (data : SeriesData)
    (detail : nat) : C SeriesData :=
  match after_evaluation_ hook with
  | None => ret data
  | Some callback => with_callback (λ c_data, callback series_context c_data detail) data
  end.

(** ** What a hook gives and gets *)

(** What a callback may do with the data [d] at its argument, as documented: return them, return
    nothing, or return data of its own, [Some d'], leaving the argument alone and nothing else
    behind. *)
Definition obeys (callback : nat → C (option nat)) (returns : SeriesData → option (option SeriesData)) : Prop :=
  ∀ h a d, h !! a = None →
  match returns d with
  | None => callback a (<[a := ObSeriesData d]> h) = Some (None, <[a := ObSeriesData d]> h)
  | Some None => callback a (<[a := ObSeriesData d]> h) = Some (Some a, <[a := ObSeriesData d]> h)
  | Some (Some d') =>
      ∃ b, b ≠ a ∧ h !! b = None ∧ callback a (<[a := ObSeriesData d]> h) = Some (Some b, <[b := ObSeriesData d']> (<[a := ObSeriesData d]> h))
  end.

Definition returned (returns : SeriesData → option (option SeriesData)) (d : SeriesData) : SeriesData :=
  match returns d with None => [] | Some None => d | Some (Some d') => d' end.

Lemma data_at_ok h a d : h !! a = Some (ObSeriesData d) → data_at a h = Some (d, h).
Proof. intros H. unfold data_at, bind, load. by rewrite H. Qed.

Lemma free_data_ok h a d : h !! a = Some (ObSeriesData d) → LDEvaluationSeriesData_Free a h = Some ((), delete a h).
Proof. intros H. unfold LDEvaluationSeriesData_Free, bind. rewrite (data_at_ok _ _ _ H). unfold free. by rewrite H. Qed.

(** Taking over what is at an address. *)
Lemma take_data_ok h a d :
  h !! a = None → (cpp_result <- data_at a ;; free a ;;; ret cpp_result) (<[a := ObSeriesData d]> h) = Some (d, h).
Proof.
  intros Ha. unfold bind. rewrite (data_at_ok _ _ d) by apply lookup_insert_eq. unfold free, ret.
  by rewrite lookup_insert_eq, delete_insert_id.
Qed.

Lemma with_callback_ok callback returns d h :
  obeys callback returns → with_callback callback d h = Some (returned returns d, h).
Proof.
  intros Hc. unfold with_callback. unfold bind at 1. destruct (new_makes (ObSeriesData d) h) as (a & Ha & ->). cbn [id]. unfold bind at 1.
  specialize (Hc h a d Ha). unfold returned. destruct (returns d) as [[d'|]|].
  - destruct Hc as (b & Hne & Hb & ->). rewrite (proj2 (Nat.eqb_neq b a)) by done. unfold bind at 1.
    rewrite (free_data_ok _ a d) by (by rewrite lookup_insert_ne, lookup_insert_eq).
    rewrite delete_insert_ne, delete_insert_id by done. by apply take_data_ok.
  - rewrite Hc, Nat.eqb_refl. unfold bind at 1. cbn [ret]. by apply take_data_ok.
  - rewrite Hc. unfold bind. rewrite (free_data_ok _ a d) by apply lookup_insert_eq. by rewrite delete_insert_id.
Qed.

(** A hook in C is a hook: with callbacks that obey, both stages return what the callbacks returned
    (or the data they were given, when there is no callback), and of the data that were handed over
    nothing is left on the heap, and nothing is freed twice. *)
Theorem c_hook_stages hook series detail d h before after :
  (∀ f, before_evaluation_ hook = Some f → obeys (f series) before) →
  (∀ f, after_evaluation_ hook = Some f → obeys (λ a, f series a detail) after) →
  CHook_BeforeEvaluation hook series d h = Some (if before_evaluation_ hook then returned before d else d, h) ∧
  CHook_AfterEvaluation hook series d detail h = Some (if after_evaluation_ hook then returned after d else d, h).
Proof.
  intros Hb Ha. unfold CHook_BeforeEvaluation, CHook_AfterEvaluation. split.
  - destruct (before_evaluation_ hook) as [f|]; [|done]. apply with_callback_ok, Hb, eq_refl.
  - destruct (after_evaluation_ hook) as [f|]; [|done]. apply (with_callback_ok (λ a, f series a detail)), Ha, eq_refl.
Qed.

(** The way callbacks keep something: with a builder over their data. *)
Definition keep_pointer (key : string) (pointer : nat) (data : nat) : C (option nat) :=
  builder <- LDEvaluationSeriesData_NewBuilder (Some data) ;; LDEvaluationSeriesDataBuilder_SetPointer builder key pointer ;;;
  result <- LDEvaluationSeriesDataBuilder_Build builder ;; ret (Some result).

Lemma keep_pointer_obeys key pointer :
  obeys (keep_pointer key pointer) (λ d, Some (Some (Builder_SetShared (from_c_str key) (AVoid pointer) d))).
Proof.
  intros h a d Ha. unfold keep_pointer, LDEvaluationSeriesData_NewBuilder, bind at 1, data_at. unfold bind at 1 2, load.
  rewrite lookup_insert_eq. cbn [ret].
  destruct (new_makes (ObSeriesDataBuilder d) (<[a := ObSeriesData d]> h)) as (b & Hb & ->). cbn [id].
  unfold LDEvaluationSeriesDataBuilder_SetPointer, builder_at. unfold bind at 1 2 3, load. rewrite lookup_insert_eq. cbn [ret store].
  rewrite insert_insert_eq. unfold LDEvaluationSeriesDataBuilder_Build, builder_at. unfold bind at 1 2 3, load. rewrite lookup_insert_eq. cbn [ret].
  destruct (replace_makes (<[a := ObSeriesData d]> h) b (ObSeriesDataBuilder (Builder_SetShared (from_c_str key) (AVoid pointer) d))
    (ObSeriesData (Builder_SetShared (from_c_str key) (AVoid pointer) d)) id Hb) as (x & Hx & E).
  assert (x ≠ a) as Hne by (intros ->; by rewrite lookup_insert_eq in Hx). rewrite lookup_insert_ne in Hx by done.
  exists x. split; [done|]. split; [done|]. unfold id in E. by rewrite E.
Qed.

(** The detail that a hook is given is an [EvaluationDetail<Value>], not the [CEvaluationDetail] that
    the functions on details read: looking at it is undefined. *)
Example hook_detail_confused :
  let hook := mkCHook "h" None (Some (λ _ data detail, LDEvalDetail_VariationIndex detail ;;; ret (Some data))) in
  let series := mkSeriesContext "flag" (mkContext [] [] [] true EmptyString "u") VNull "BoolVariation" [] None in
  CHook_AfterEvaluation hook series [] 0 {[0%nat := ObDetail (mkDetail (VBool true) (Some 1) None)]} = None.
Proof. vm_compute. reflexivity. Qed.

(** A pointer that a hook keeps before an evaluation is there after it. *)
Example pointer_kept :
  let hook := mkCHook "h" (Some (λ _, keep_pointer "span" 7)) None in
  let series := mkSeriesContext "flag" (mkContext [] [] [] true EmptyString "u") VNull "BoolVariation" [] None in
  (d <- CHook_BeforeEvaluation hook series [] ;; a <- new (ObSeriesData d) ;; LDEvaluationSeriesData_GetPointer a "span") ∅ =
  Some (Some 7%nat, {[0%nat := ObSeriesData [("span", mkDataEntry None (Some (AVoid 7)))]]}).
Proof. vm_compute. reflexivity. Qed.
