(* ===== verification/CServer.v ===== *)
(** * The C interface of the server-side client

    libs/server-sdk/src/bindings/c/sdk.cpp (evaluations, tracking, [AllFlagsState]) and
    all_flags_state/all_flags_state.cpp, over the client of [ServerClient] and the heap of
    [CBindings].  A call returns what the client's call did, with the result that C gets: a string
    and a JSON value are new objects, and a detail is one when it is asked for. *)

From S2P Require Import Prelude OrderedMap Doubles Values Contexts Reasons DataModel Externals EvalStack Stores EventData.
From S2P Require Import Notifier Json Persistence Hooks ServerClient FlagsStateJson CBindings CHooks.
#[local] Open Scope c_scope.
#[local] Open Scope Z_scope.

Section Server.
Context `{X : Externals} {W : Type} `{!BigSegmentStore W} {St : Type} `{!IStore St}.
Variable sdk : ClientImpl CAny W St.
Abbreviation Out := (Outcome CAny W).
Implicit Types (context : nat) (flag_key event_name : string) (hook_context : option nat).

(** The client's calls end, as [ServerClient] shows. *)
Definition run {A} (o : option A) : C A := match o with Some x => ret x | None => undefined end.

Definition strdup (s : string) : C nat := new (ObString (from_c_str s)).

(** [CEvaluationDetail(detail)] *)
Definition new_detail {T} (d : EvaluationDetail T) : C nat := new (ObCDetail (variation_index_ d) (reason_ d)).

(** [out_detail]: whether it is not null. *)
Definition MaybeDetail {T} (out_detail : bool) (o : Out (EvaluationDetail T)) : C (Out T * option nat) :=
  if negb out_detail then ret (map_outcome value_ o, None)
  else d <- new_detail (out_value o) ;; ret (map_outcome value_ o, Some d).

(** The functions that take a hook context always write the detail. *)
Definition always_detail {T} (out_detail : bool) (o : Out (EvaluationDetail T)) : C (Out T * option nat) :=
  if out_detail then d <- new_detail (out_value o) ;; ret (map_outcome value_ o, Some d) else undefined.

(** An [int] whose conversion is defined. *)
Definition int_result (o : Out (option Z)) : C (Out Z) :=
  match out_value o with Some n => ret (map_outcome (λ _, n) o) | None => undefined end.
Definition int_detail (o : Out (EvaluationDetail (option Z))) : C (Out (EvaluationDetail Z)) :=
  match value_ (out_value o) with
  | Some n => ret (map_outcome (λ d, mkDetail n (variation_index_ d) (reason_ d)) o)
  | None => undefined
  end.

Definition string_result (o : Out string) : C (Out nat) := s <- strdup (out_value o) ;; ret (map_outcome (λ _, s) o).
Definition value_result (o : Out Value) : C (Out LDValue) := v <- new_value (out_value o) ;; ret (map_outcome (λ _, v) o).

(** A null hook context selects the overloads without one, which use an empty one. *)
Definition hook_context_or_empty hook_context : C (HookContext CAny) :=
  match hook_context with Some a => hook_context_at a | None => ret [] end.

(** ** Evaluations *)

Definition LDServerSDK_BoolVariation context flag_key (default_value : bool) : C (Out bool) :=
  ctx <- context_at context ;; run (BoolVariation sdk ctx (from_c_str flag_key) default_value []).
Definition LDServerSDK_BoolVariationDetail context flag_key (default_value : bool) (out_detail : bool) : C (Out bool * option nat) :=
  ctx <- context_at context ;; o <- run (BoolVariationDetail sdk ctx (from_c_str flag_key) default_value []) ;; MaybeDetail out_detail o.

Definition LDServerSDK_StringVariation context flag_key (default_value : string) : C (Out nat) :=
  ctx <- context_at context ;; o <- run (StringVariation sdk ctx (from_c_str flag_key) (from_c_str default_value) []) ;; string_result o.
Definition LDServerSDK_StringVariationDetail context flag_key (default_value : string) (out_detail : bool) : C (Out nat * option nat) :=
  ctx <- context_at context ;; o <- run (StringVariationDetail sdk ctx (from_c_str flag_key) (from_c_str default_value) []) ;;
  r <- MaybeDetail out_detail o ;; s <- string_result r.1 ;; ret (s, r.2).

Definition LDServerSDK_IntVariation context flag_key (default_value : Z) : C (Out Z) :=
  ctx <- context_at context ;; o <- run (IntVariation sdk ctx (from_c_str flag_key) default_value []) ;; int_result o.
Definition LDServerSDK_IntVariationDetail context flag_key (default_value : Z) (out_detail : bool) : C (Out Z * option nat) :=
  ctx <- context_at context ;; o <- run (IntVariationDetail sdk ctx (from_c_str flag_key) default_value []) ;;
  o <- int_detail o ;; MaybeDetail out_detail o.

Definition LDServerSDK_DoubleVariation context flag_key (default_value : double) : C (Out double) :=
  ctx <- context_at context ;; run (DoubleVariation sdk ctx (from_c_str flag_key) default_value []).
Definition LDServerSDK_DoubleVariationDetail context flag_key (default_value : double) (out_detail : bool) : C (Out double * option nat) :=
  ctx <- context_at context ;; o <- run (DoubleVariationDetail sdk ctx (from_c_str flag_key) default_value []) ;; MaybeDetail out_detail o.

(** The default value remains the caller's. *)
Definition LDServerSDK_JsonVariation context flag_key (default_value : LDValue) : C (Out LDValue) :=
  ctx <- context_at context ;; v <- value_at default_value ;;
  o <- run (JsonVariation sdk ctx (from_c_str flag_key) v []) ;; value_result o.
Definition LDServerSDK_JsonVariationDetail context flag_key (default_value : LDValue) (out_detail : bool) : C (Out LDValue * option nat) :=
  ctx <- context_at context ;; v <- value_at default_value ;;
  o <- run (JsonVariationDetail sdk ctx (from_c_str flag_key) v []) ;; r <- MaybeDetail out_detail o ;; x <- value_result r.1 ;; ret (x, r.2).

Definition LDServerSDK_BoolVariation_WithHookContext context flag_key (default_value : bool) hook_context : C (Out bool) :=
  ctx <- context_at context ;; hc <- hook_context_or_empty hook_context ;;
  run (BoolVariation sdk ctx (from_c_str flag_key) default_value hc).
Definition LDServerSDK_BoolVariationDetail_WithHookContext context flag_key (default_value : bool) hook_context (out_detail : bool) :
    C (Out bool * option nat) :=
  ctx <- context_at context ;; hc <- hook_context_or_empty hook_context ;;
  o <- run (BoolVariationDetail sdk ctx (from_c_str flag_key) default_value hc) ;; always_detail out_detail o.

Definition LDServerSDK_StringVariation_WithHookContext context flag_key (default_value : string) hook_context : C (Out nat) :=
  ctx <- context_at context ;; hc <- hook_context_or_empty hook_context ;;
  o <- run (StringVariation sdk ctx (from_c_str flag_key) (from_c_str default_value) hc) ;; string_result o.
Definition LDServerSDK_StringVariationDetail_WithHookContext context flag_key (default_value : string) hook_context (out_detail : bool) :
    C (Out nat * option nat) :=
  ctx <- context_at context ;; hc <- hook_context_or_empty hook_context ;;
  o <- run (StringVariationDetail sdk ctx (from_c_str flag_key) (from_c_str default_value) hc) ;;
  r <- always_detail out_detail o ;; s <- string_result r.1 ;; ret (s, r.2).

Definition LDServerSDK_IntVariation_WithHookContext context flag_key (default_value : Z) hook_context : C (Out Z) :=
  ctx <- context_at context ;; hc <- hook_context_or_empty hook_context ;;
  o <- run (IntVariation sdk ctx (from_c_str flag_key) default_value hc) ;; int_result o.
Definition LDServerSDK_IntVariationDetail_WithHookContext context flag_key (default_value : Z) hook_context (out_detail : bool) :
    C (Out Z * option nat) :=
  ctx <- context_at context ;; hc <- hook_context_or_empty hook_context ;;
  o <- run (IntVariationDetail sdk ctx (from_c_str flag_key) default_value hc) ;; o <- int_detail o ;; always_detail out_detail o.

Definition LDServerSDK_DoubleVariation_WithHookContext context flag_key (default_value : double) hook_context : C (Out double) :=
  ctx <- context_at context ;; hc <- hook_context_or_empty hook_context ;;
  run (DoubleVariation sdk ctx (from_c_str flag_key) default_value hc).
Definition LDServerSDK_DoubleVariationDetail_WithHookContext context flag_key (default_value : double) hook_context (out_detail : bool) :
    C (Out double * option nat) :=
  ctx <- context_at context ;; hc <- hook_context_or_empty hook_context ;;
  o <- run (DoubleVariationDetail sdk ctx (from_c_str flag_key) default_value hc) ;; always_detail out_detail o.

Definition LDServerSDK_JsonVariation_WithHookContext context flag_key (default_value : LDValue) hook_context : C (Out LDValue) :=
  ctx <- context_at context ;; v <- value_at default_value ;; hc <- hook_context_or_empty hook_context ;;
  o <- run (JsonVariation sdk ctx (from_c_str flag_key) v hc) ;; value_result o.
Definition LDServerSDK_JsonVariationDetail_WithHookContext context flag_key (default_value : LDValue) hook_context (out_detail : bool) :
    C (Out LDValue * option nat) :=
  ctx <- context_at context ;; v <- value_at default_value ;; hc <- hook_context_or_empty hook_context ;;
  o <- run (JsonVariationDetail sdk ctx (from_c_str flag_key) v hc) ;; r <- always_detail out_detail o ;; x <- value_result r.1 ;; ret (x, r.2).

(** ** Events *)

Definition LDServerSDK_Identify context : C (list InputEvent) := ctx <- context_at context ;; ret (client_Identify sdk ctx).

Definition LDServerSDK_TrackEvent context event_name : C (Out unit) :=
  ctx <- context_at context ;; ret (Track_name sdk ctx (from_c_str event_name) []).

(** [Track(context, event_name, metric_value, value)]: the parameters are the data and the metric,
    in this order, and a [double] converts to a [Value] and a [Value] to a [double]. *)
Definition LDServerSDK_TrackMetric context event_name (metric_value : double) (value : LDValue) : C (Out unit) :=
  ctx <- context_at context ;; v <- value_at value ;;
  LDValue_Free value ;;; ret (Track_metric sdk ctx (from_c_str event_name) (VNumber metric_value) (AsDouble v) []).

Definition LDServerSDK_TrackData context event_name (value : LDValue) : C (Out unit) :=
  ctx <- context_at context ;; v <- value_at value ;;
  LDValue_Free value ;;; ret (Track_data sdk ctx (from_c_str event_name) v []).

Definition LDServerSDK_TrackEvent_WithHookContext context event_name hook_context : C (Out unit) :=
  ctx <- context_at context ;; hc <- hook_context_or_empty hook_context ;; ret (Track_name sdk ctx (from_c_str event_name) hc).
Definition LDServerSDK_TrackMetric_WithHookContext context event_name (metric_value : double) (data : LDValue) hook_context : C (Out unit) :=
  ctx <- context_at context ;; v <- value_at data ;; hc <- hook_context_or_empty hook_context ;;
  LDValue_Free data ;;; ret (Track_metric sdk ctx (from_c_str event_name) v metric_value hc).
Definition LDServerSDK_TrackData_WithHookContext context event_name (data : LDValue) hook_context : C (Out unit) :=
  ctx <- context_at context ;; v <- value_at data ;; hc <- hook_context_or_empty hook_context ;;
  LDValue_Free data ;;; ret (Track_data sdk ctx (from_c_str event_name) v hc).

(** ** All flags *)

Definition LDServerSDK_AllFlagsState context (options : Z) (now : string → Z) (all_flags : list (string * FlagDescriptor)) : C (Out nat) :=
  ctx <- context_at context ;; o <- run (AllFlagsState sdk ctx options now all_flags) ;;
  s <- new (ObFlagsState (out_value o)) ;; ret (map_outcome (λ _, s) o).
End Server.

Definition flags_state_at (state : nat) : C FlagsState :=
  o <- load state ;; match o with ObFlagsState s => ret s | _ => undefined end.

Definition LDAllFlagsState_Free (state : nat) : C unit := flags_state_at state ;;; free state.
Definition LDAllFlagsState_Valid (state : nat) : C bool := s <- flags_state_at state ;; ret (fs_valid_ s).
Definition LDAllFlagsState_SerializeJSON `{JsonText, HashOrder} (state : nat) : C nat :=
  s <- flags_state_at state ;; strdup (serialize (from_FlagsState s)).
Definition LDAllFlagsState_Value (state : nat) (flag_key : string) : C LDValue :=
  flags_state_at state ;;; ret (VFlag state (from_c_str flag_key)).
Definition LDAllFlagsState_Map (state : nat) : C LDValue :=
  s <- flags_state_at state ;; new_value (VObject (Object_of_list (map_to_list (evaluations_ s)))).

(** ** What C gets *)

Section Delivered.
Context `{X : Externals} {W : Type} `{!BigSegmentStore W} {St : Type} `{!IStore St}.
Variable sdk : ClientImpl CAny W St.

(** Without a hook context, the functions that take one are those that do not, except that the
    detail must be asked for; [TrackMetric] is the exception. *)
Theorem null_hook_context context flag_key event_name (b : bool) (s : string) (n : Z) (d : double) v h :
  LDServerSDK_BoolVariation_WithHookContext sdk context flag_key b None h = LDServerSDK_BoolVariation sdk context flag_key b h ∧
  LDServerSDK_BoolVariationDetail_WithHookContext sdk context flag_key b None true h = LDServerSDK_BoolVariationDetail sdk context flag_key b true h ∧
  LDServerSDK_StringVariation_WithHookContext sdk context flag_key s None h = LDServerSDK_StringVariation sdk context flag_key s h ∧
  LDServerSDK_StringVariationDetail_WithHookContext sdk context flag_key s None true h = LDServerSDK_StringVariationDetail sdk context flag_key s true h ∧
  LDServerSDK_IntVariation_WithHookContext sdk context flag_key n None h = LDServerSDK_IntVariation sdk context flag_key n h ∧
  LDServerSDK_IntVariationDetail_WithHookContext sdk context flag_key n None true h = LDServerSDK_IntVariationDetail sdk context flag_key n true h ∧
  LDServerSDK_DoubleVariation_WithHookContext sdk context flag_key d None h = LDServerSDK_DoubleVariation sdk context flag_key d h ∧
  LDServerSDK_DoubleVariationDetail_WithHookContext sdk context flag_key d None true h = LDServerSDK_DoubleVariationDetail sdk context flag_key d true h ∧
  LDServerSDK_JsonVariation_WithHookContext sdk context flag_key v None h = LDServerSDK_JsonVariation sdk context flag_key v h ∧
  LDServerSDK_JsonVariationDetail_WithHookContext sdk context flag_key v None true h = LDServerSDK_JsonVariationDetail sdk context flag_key v true h ∧
  LDServerSDK_TrackEvent_WithHookContext sdk context event_name None h = LDServerSDK_TrackEvent sdk context event_name h ∧
  LDServerSDK_TrackData_WithHookContext sdk context event_name v None h = LDServerSDK_TrackData sdk context event_name v h.
Proof. split_and!; reflexivity. Qed.

Lemma context_at_ok h a ctx : h !! a = Some (ObContext ctx) → context_at a h = Some (ctx, h).
Proof. intros H. unfold context_at, bind, load. by rewrite H. Qed.

(** A string with its detail: what the client returned, in two new objects that are the caller's. *)
Theorem c_string_detail_delivered h context ctx flag_key default_value o :
  h !! context = Some (ObContext ctx) →
  StringVariationDetail sdk ctx (from_c_str flag_key) (from_c_str default_value) [] = Some o →
  ∃ s d, s ≠ d ∧ h !! s = None ∧ h !! d = None ∧
    LDServerSDK_StringVariationDetail sdk context flag_key default_value true h =
      Some ((map_outcome (λ _, s) o, Some d),
        <[s := ObString (from_c_str (value_ (out_value o)))]>
          (<[d := ObCDetail (variation_index_ (out_value o)) (reason_ (out_value o))]> h)).
Proof.
  intros Hc Ho. unfold LDServerSDK_StringVariationDetail. unfold bind at 1. rewrite (context_at_ok _ _ _ Hc). unfold bind at 1, run. rewrite Ho.
  cbn [ret]. unfold MaybeDetail, new_detail. cbn [negb]. unfold bind at 1 2.
  destruct (new_makes (ObCDetail (variation_index_ (out_value o)) (reason_ (out_value o))) h) as (d & Hd & ->). cbn [id ret].
  unfold string_result, strdup, bind. cbn [fst snd].
  destruct (new_makes (ObString (from_c_str (out_value (map_outcome value_ o))))
    (<[d := ObCDetail (variation_index_ (out_value o)) (reason_ (out_value o))]> h)) as (s & Hs & ->).
  assert (s ≠ d) as Hne by (intros ->; by rewrite lookup_insert_eq in Hs). rewrite lookup_insert_ne in Hs by done.
  exists s, d. by destruct o.
Qed.

(** The metric and the data of [TrackMetric] change places; the function with a hook context keeps
    them. *)
Theorem track_metric_swapped h context ctx event_name (metric_value : double) a v :
  h !! context = Some (ObContext ctx) → h !! a = Some (ObValue v) →
  LDServerSDK_TrackMetric sdk context event_name metric_value (VHeap a) h =
    Some (Track_metric sdk ctx (from_c_str event_name) (VNumber metric_value) (AsDouble v) [], delete a h) ∧
  LDServerSDK_TrackMetric_WithHookContext sdk context event_name metric_value (VHeap a) None h =
    Some (Track_metric sdk ctx (from_c_str event_name) v metric_value [], delete a h).
Proof.
  intros Hc Ha. assert (LDValue_Free (VHeap a) h = Some ((), delete a h)) as Hf.
  { unfold LDValue_Free, bind, load, free. by rewrite !Ha. }
  assert (value_at (VHeap a) h = Some (v, h)) as Hv by (apply value_at_ok; cbn; by rewrite Ha).
  unfold LDServerSDK_TrackMetric, LDServerSDK_TrackMetric_WithHookContext, bind. rewrite (context_at_ok _ _ _ Hc), Hv.
  cbn [hook_context_or_empty ret]. by rewrite Hf.
Qed.

(** The map of all flags has the value of each flag. *)
Lemma all_flags_map_delivered h state s :
  h !! state = Some (ObFlagsState s) →
  ∃ a o, h !! a = None ∧ LDAllFlagsState_Map state h = Some (VHeap a, <[a := ObValue (VObject o)]> h) ∧
    Ordered o ∧ ∀ k, find k o = evaluations_ s !! k.
Proof.
  intros Hs. unfold LDAllFlagsState_Map, flags_state_at. unfold bind at 1 2, load. rewrite Hs. cbn [ret].
  destruct (new_value_makes (VObject (Object_of_list (map_to_list (evaluations_ s)))) h) as (a & Ha & ->). exists a. eexists.
  destruct (Object_of_list_spec (map_to_list (evaluations_ s))) as [Ho Hf]. split_and!; [done|done|done|].
  intros k. rewrite Hf. apply option_eq. intros x. rewrite <- elem_of_map_to_list. split.
  - intros Hk. by apply find_Some_elem.
  - intros Hin. pose proof (NoDup_fst_map_to_list (evaluations_ s)) as Hnd. revert Hnd Hin.
    generalize (map_to_list (evaluations_ s)). induction l as [|[j y] l IH]; cbn; intros Hnd Hin; [by apply elem_of_nil in Hin|].
    apply NoDup_cons in Hnd as [Hj Hnd]. apply elem_of_cons in Hin as [[= -> ->]|Hin]; [by rewrite str_eqb_refl|].
    destruct (str_eqb k j) eqn:E; [|by apply IH]. apply str_eqb_eq in E as ->. destruct Hj.
    apply list_elem_of_fmap. by exists (j, x).
Qed.
End Delivered.
