(* ===== verification/CClient.v ===== *)
(** * The C interface of the client-side client

    libs/client-sdk/src/bindings/c/sdk.cpp (variations, tracking, [AllFlags]), over the client of
    [ClientSide] and the heap of [CBindings]; see [CServer] for the server's. *)

From S2P Require Import Prelude OrderedMap Doubles Values Contexts Reasons DataModel Json EventData EvaluationResults ClientFlags StatusManager.
From S2P Require Import ClientSide CBindings CHooks.
#[local] Open Scope c_scope.
#[local] Open Scope Z_scope.

Section Client.
Context (sdk : ClientView) (fuel : nat).
Implicit Types (flag_key event_name : string) (calls : Calls) (out_detail : bool).

(** A call that returns, of the client. *)
Definition call {A} (r : option (A * Calls)) : C (A * Calls) := match r with Some x => ret x | None => undefined end.

Definition client_MaybeDetail {T} out_detail (r : EvaluationDetail T * Calls) : C (T * option nat * Calls) :=
  if negb out_detail then ret (value_ r.1, None, r.2)
  else d <- new (ObCDetail (variation_index_ r.1) (reason_ r.1)) ;; ret (value_ r.1, Some d, r.2).

(** The conversion of a [double] to the [int] that is returned. *)
Definition to_int (d : double) : C Z := match d_to_signed 32 d with Some n => ret n | None => undefined end.
Definition defined_int (n : option Z) : C Z := match n with Some n => ret n | None => undefined end.

Definition client_strdup (s : string) : C nat := new (ObString (from_c_str s)).

Definition LDClientSDK_BoolVariation flag_key (default_value : bool) calls : C (bool * Calls) :=
  call (BoolVariation sdk fuel (from_c_str flag_key) default_value calls).
Definition LDClientSDK_BoolVariationDetail flag_key (default_value : bool) out_detail calls : C (bool * option nat * Calls) :=
  r <- call (BoolVariationDetail sdk fuel (from_c_str flag_key) default_value calls) ;; client_MaybeDetail out_detail r.

Definition LDClientSDK_StringVariation flag_key (default_value : string) calls : C (nat * Calls) :=
  r <- call (StringVariation sdk fuel (from_c_str flag_key) (from_c_str default_value) calls) ;;
  s <- client_strdup r.1 ;; ret (s, r.2).
Definition LDClientSDK_StringVariationDetail flag_key (default_value : string) out_detail calls : C (nat * option nat * Calls) :=
  r <- call (StringVariationDetail sdk fuel (from_c_str flag_key) (from_c_str default_value) calls) ;;
  x <- client_MaybeDetail out_detail r ;; s <- client_strdup x.1.1 ;; ret (s, x.1.2, x.2).

Definition LDClientSDK_IntVariation flag_key (default_value : Z) calls : C (Z * Calls) :=
  r <- call (IntVariation sdk fuel (from_c_str flag_key) default_value calls) ;; n <- defined_int r.1 ;; ret (n, r.2).
Definition LDClientSDK_IntVariationDetail flag_key (default_value : Z) out_detail calls : C (Z * option nat * Calls) :=
  r <- call (IntVariationDetail sdk fuel (from_c_str flag_key) default_value calls) ;;
  n <- defined_int (value_ r.1) ;; client_MaybeDetail out_detail (mkDetail n (variation_index_ r.1) (reason_ r.1), r.2).

(** Both return an [int]. *)
Definition LDClientSDK_DoubleVariation flag_key (default_value : double) calls : C (Z * Calls) :=
  r <- call (DoubleVariation sdk fuel (from_c_str flag_key) default_value calls) ;; n <- to_int r.1 ;; ret (n, r.2).
Definition LDClientSDK_DoubleVariationDetail flag_key (default_value : double) out_detail calls : C (Z * option nat * Calls) :=
  r <- call (DoubleVariationDetail sdk fuel (from_c_str flag_key) default_value calls) ;;
  x <- client_MaybeDetail out_detail r ;; n <- to_int x.1.1 ;; ret (n, x.1.2, x.2).

Definition LDClientSDK_JsonVariation flag_key (default_value : LDValue) calls : C (LDValue * Calls) :=
  v <- value_at default_value ;; r <- call (JsonVariation sdk fuel (from_c_str flag_key) v calls) ;;
  p <- new_value r.1 ;; ret (p, r.2).
Definition LDClientSDK_JsonVariationDetail flag_key (default_value : LDValue) out_detail calls : C (LDValue * option nat * Calls) :=
  v <- value_at default_value ;; r <- call (JsonVariationDetail sdk fuel (from_c_str flag_key) v calls) ;;
  x <- client_MaybeDetail out_detail r ;; p <- new_value x.1.1 ;; ret (p, x.1.2, x.2).

Definition LDClientSDK_AllFlags : C LDValue := new_value (VObject (Object_of_list (map_to_list (AllFlags sdk)))).

Definition LDClientSDK_TrackEvent event_name calls : C Calls := ret (Track_name sdk (from_c_str event_name) calls).

(** [Track(event_name, metric_value, value)], where the data are expected before the metric. *)
Definition LDClientSDK_TrackMetric event_name (metric_value : double) (value : LDValue) calls : C Calls :=
  v <- value_at value ;; LDValue_Free value ;;; ret (Track_metric sdk (from_c_str event_name) (VNumber metric_value) (AsDouble v) calls).
Definition LDClientSDK_TrackData event_name (value : LDValue) calls : C Calls :=
  v <- value_at value ;; LDValue_Free value ;;; ret (Track_data sdk (from_c_str event_name) v calls).

(** ** What C gets *)

(** A number that is not an integer loses its fraction; one that an [int] does not hold has no
    defined result. *)
Theorem double_variation_truncated flag_key (default_value : double) calls d calls' h :
  DoubleVariation sdk fuel (from_c_str flag_key) default_value calls = Some (d, calls') →
  LDClientSDK_DoubleVariation flag_key default_value calls h =
    match d_to_signed 32 d with Some n => Some ((n, calls'), h) | None => None end.
Proof. intros Hd. unfold LDClientSDK_DoubleVariation, bind, call, to_int. rewrite Hd. cbn [fst snd ret]. by destruct (d_to_signed 32 d). Qed.

(** A value and its detail, in two new objects that are the caller's. *)
Theorem c_json_detail_delivered h p v flag_key calls r calls' :
  deref h p = Some v → JsonVariationDetail sdk fuel (from_c_str flag_key) v calls = Some (r, calls') →
  ∃ a d, a ≠ d ∧ h !! a = None ∧ h !! d = None ∧
    LDClientSDK_JsonVariationDetail flag_key p true calls h =
      Some ((VHeap a, Some d, calls'), <[a := ObValue (value_ r)]> (<[d := ObCDetail (variation_index_ r) (reason_ r)]> h)).
Proof.
  intros Hp Hr. unfold LDClientSDK_JsonVariationDetail. unfold bind at 1. rewrite (value_at_ok _ _ _ Hp). unfold bind at 1, call. rewrite Hr.
  cbn [ret]. unfold client_MaybeDetail. cbn [negb fst snd]. unfold bind at 1 2.
  destruct (new_makes (ObCDetail (variation_index_ r) (reason_ r)) h) as (d & Hd & ->). cbn [id ret fst snd]. unfold bind.
  destruct (new_value_makes (value_ r) (<[d := ObCDetail (variation_index_ r) (reason_ r)]> h)) as (a & Ha & ->).
  assert (a ≠ d) as Hne by (intros ->; by rewrite lookup_insert_eq in Ha). rewrite lookup_insert_ne in Ha by done.
  by exists a, d.
Qed.
End Client.

Definition sample_view : ClientView := mkView ∅ (mkContext [] [] [] true EmptyString "u") ClientState.kValid false (λ _, 0).

(** The metric is sent as the data, and 0, which is what null converts to, as the metric. *)
Example metric_sent_as_data :
  (λ r, sent_events r.1) <$>
    (val <- LDValue_NewNull ;; LDClientSDK_TrackMetric sample_view "m" (d_of_Z 3) val (mkCalls [] 0)) ∅ =
  Some [Track (mkTrackParams 0 "m" (view_context sample_view) (Some (VNumber (d_of_Z 3))) (Some (d_of_Z 0)))].
Proof. vm_compute. reflexivity. Qed.

(** One half comes back as 0. *)
Example half_truncated :
  (λ r, r.1.1) <$> LDClientSDK_DoubleVariation sample_view 1 "f" (SpecFloat.S754_finite false 4503599627370496 (-53)) (mkCalls [] 0) ∅ = Some 0.
Proof. vm_compute. reflexivity. Qed.
