(* ===== verification/CConfig.v ===== *)
(** * The C interface to configurations

    libs/server-sdk/src/bindings/c: builder.cpp and fdv2_builder.cpp; libs/client-sdk/src/bindings/c:
    builder.cpp; libs/common/src/bindings/c: config/logging_builder.cpp, status.cpp; with
    [ConsumeBuilder] of c_binding_helpers.hpp.

    The heap is that of [CBindings].  What is built through the C interface is compared with what the
    C++ builders build: a program in C is a list of settings. *)

From S2P Require Import Prelude OrderedMap AttributeReferences Contexts HttpRequester Logging Configurations ClientConfig Json CConfigObjects CBindings.
#[local] Open Scope c_scope.

(** ** status.cpp and c_binding_helpers.hpp *)

(** A status is null for success. *)
Abbreviation LDStatus := (option nat).
Definition LDStatus_Success : LDStatus := None.
Definition LDStatus_Ok (res : LDStatus) : bool := match res with None => true | Some _ => false end.

Definition ErrorToString (err : Error.t) : string :=
  match err with
  | Error.kConfig_Endpoints_EmptyURL => "endpoints: cannot specify empty URL"
  | Error.kConfig_Endpoints_AllURLsMustBeSet =>
      "endpoints: if any endpoint is specified, then all endpoints must be specified"
  | Error.kConfig_ApplicationInfo_EmptyKeyOrValue => "application info: cannot specify an empty key or value"
  | Error.kConfig_ApplicationInfo_ValueTooLong => "application info: the specified value is too long"
  | Error.kConfig_ApplicationInfo_InvalidKeyCharacters => "application info: the key contains invalid characters"
  | Error.kConfig_ApplicationInfo_InvalidValueCharacters => "application info: the value contains invalid characters"
  | Error.kConfig_Events_ZeroCapacity => "events: capacity must be non-zero"
  | Error.kConfig_SDKKey_Empty => "sdk key: cannot be empty"
  | Error.kConfig_DataSystem_LazyLoad_MissingSource => "data system: lazy load config requires a source"
  | Error.kConfig_BigSegments_NullStore => "big segments: store must not be null"
  end.

Definition LDStatus_Error (res : LDStatus) : C (option string) :=
  match res with
  | None => ret None
  | Some a => o <- load a ;; match o with ObConfig (CoError e) => ret (Some (ErrorToString e)) | _ => undefined end
  end.

Definition LDStatus_Free (res : LDStatus) : C unit :=
  match res with
  | None => ret ()
  | Some a => o <- load a ;; match o with ObConfig (CoError _) => free a | _ => undefined end
  end.

(** What a handle of a type points to, and an update of it. *)
Definition object_at {A} (select : ConfigObject → option A) (a : nat) : C A :=
  o <- load a ;; match o with ObConfig c => match select c with Some x => ret x | None => undefined end | _ => undefined end.
Definition update {A} (select : ConfigObject → option A) (wrap : A → ConfigObject) (f : A → A) (a : nat) : C unit :=
  x <- object_at select a ;; store a (ObConfig (wrap (f x))).
Definition delete_object {A} (select : ConfigObject → option A) (a : nat) : C unit := object_at select a ;;; free a.

(** [ConsumeBuilder]: the pointer stored in [out_result], and the status. *)
Definition ConsumeBuilder {B R} (select : ConfigObject → option B) (wrap : R → ConfigObject) (Build : B → built R) (builder : nat)
    : C (option nat * LDStatus) :=
  b <- object_at select builder ;;
  free builder ;;;
  match Build b with
  | Unexpected e => s <- new (ObConfig (CoError e)) ;; ret (None, Some s)
  | Val r => a <- new (ObConfig (wrap r)) ;; ret (Some a, LDStatus_Success)
  end.

Definition as_server c := match c with CoServerBuilder b => Some b | _ => None end.
Definition as_streaming c := match c with CoStreaming b => Some b | _ => None end.
Definition as_polling c := match c with CoPolling b => Some b | _ => None end.
Definition as_lazy_load c := match c with CoLazyLoad b => Some b | _ => None end.
Definition as_fdv2 c := match c with CoFDv2 b => Some b | _ => None end.
Definition as_fdv2_streaming c := match c with CoFDv2Streaming b => Some b | _ => None end.
Definition as_fdv2_polling c := match c with CoFDv2Polling b => Some b | _ => None end.
Definition as_tls c := match c with CoTls b => Some b | _ => None end.
Definition as_basic c := match c with CoBasicLogging b => Some b | _ => None end.
Definition as_custom c := match c with CoCustomLogging b => Some b | _ => None end.
Definition as_client c := match c with CoClientBuilder b => Some b | _ => None end.
Definition as_client_streaming c := match c with CoClientStreaming b => Some b | _ => None end.
Definition as_client_polling c := match c with CoClientPolling b => Some b | _ => None end.
Definition as_persistence c := match c with CoPersistence b => Some b | _ => None end.

Abbreviation on_server := (update as_server CoServerBuilder).
Abbreviation on_client := (update as_client CoClientBuilder).

(** [env] is the variable LD_LOG_LEVEL, and [curl] whether the SDK is built with libcurl. *)
Section Interface.
Context (env : option string) (curl : bool).

(** ** Logging builders *)

Definition LDLoggingBasicBuilder_New : C nat := new (ObConfig (CoBasicLogging (GetLogLevelEnum env kInfo, LogTag))).
Definition LDLoggingBasicBuilder_Free := delete_object as_basic.
Definition LDLoggingBasicBuilder_Level (b : nat) (level : Z) : C unit :=
  update as_basic CoBasicLogging (λ x, (level, x.2)) b.
Definition LDLoggingBasicBuilder_Tag (b : nat) (tag : string) : C unit :=
  update as_basic CoBasicLogging (λ x, (x.1, from_c_str tag)) b.
Definition LDLoggingCustomBuilder_New : C nat := new (ObConfig (CoCustomLogging None)).
Definition LDLoggingCustomBuilder_Free := delete_object as_custom.
Definition LDLoggingCustomBuilder_Backend (b backend : nat) : C unit :=
  update as_custom CoCustomLogging (λ _, Some backend) b.

(** ** The server's builder.cpp *)

Definition LDServerDataSourceStreamBuilder_New : C nat := new (ObConfig (CoStreaming server_streaming)).
Definition LDServerDataSourceStreamBuilder_InitialReconnectDelayMs (b : nat) (milliseconds : Z) : C unit :=
  update as_streaming CoStreaming (InitialReconnectDelay milliseconds) b.
Definition LDServerDataSourceStreamBuilder_Filter (b : nat) (filter_key : string) : C unit :=
  update as_streaming CoStreaming (Streaming_Filter (from_c_str filter_key)) b.
Definition LDServerDataSourceStreamBuilder_Free := delete_object as_streaming.

Definition LDServerDataSourcePollBuilder_New : C nat := new (ObConfig (CoPolling server_polling)).
Definition LDServerDataSourcePollBuilder_IntervalS (b : nat) (seconds : Z) : C unit :=
  update as_polling CoPolling (PollInterval seconds) b.
Definition LDServerDataSourcePollBuilder_Filter (b : nat) (filter_key : string) : C unit :=
  update as_polling CoPolling (Polling_Filter (from_c_str filter_key)) b.
Definition LDServerDataSourcePollBuilder_Free := delete_object as_polling.

Definition LDServerLazyLoadBuilder_New : C nat := new (ObConfig (CoLazyLoad (mkLazyConfig 300000 None))).
Definition LDServerLazyLoadBuilder_Free := delete_object as_lazy_load.
Definition LDServerLazyLoadBuilder_SourcePtr (b source : nat) : C unit :=
  update as_lazy_load CoLazyLoad (LazyLoad_Source (Some source)) b.
Definition LDServerLazyLoadBuilder_CacheRefreshMs (b : nat) (milliseconds : Z) : C unit :=
  update as_lazy_load CoLazyLoad (CacheRefresh milliseconds) b.

(** There is one policy, which the configuration does not record. *)
Definition LDServerLazyLoadBuilder_CachePolicy (b : nat) (policy : Z) : C unit := update as_lazy_load CoLazyLoad (λ c, c) b.

Definition LDServerHttpPropertiesTlsBuilder_New : C nat := new (ObConfig (CoTls (mkTls false None))).
Definition LDServerHttpPropertiesTlsBuilder_SkipVerifyPeer (b : nat) (skip : bool) : C unit := update as_tls CoTls (SkipVerifyPeer skip) b.
Definition LDServerHttpPropertiesTlsBuilder_CustomCAFile (b : nat) (file : string) : C unit :=
  update as_tls CoTls (CustomCAFile (from_c_str file)) b.
Definition LDServerHttpPropertiesTlsBuilder_Free := delete_object as_tls.

Definition LDServerConfigBuilder_New (sdk_key : string) : C nat := new (ObConfig (CoServerBuilder (new_config env (from_c_str sdk_key)))).
Definition LDServerConfigBuilder_Build : nat → C (option nat * LDStatus) := ConsumeBuilder as_server CoServerConfig ConfigBuilder_Build.
Definition LDServerConfigBuilder_Free := delete_object as_server.

Definition LDServerConfigBuilder_ServiceEndpoints_PollingBaseURL (b : nat) (url : string) : C unit :=
  on_server (CB_ServiceEndpoints (PollingBaseUrl (from_c_str url))) b.
Definition LDServerConfigBuilder_ServiceEndpoints_StreamingBaseURL (b : nat) (url : string) : C unit :=
  on_server (CB_ServiceEndpoints (StreamingBaseUrl (from_c_str url))) b.
Definition LDServerConfigBuilder_ServiceEndpoints_EventsBaseURL (b : nat) (url : string) : C unit :=
  on_server (CB_ServiceEndpoints (EventsBaseUrl (from_c_str url))) b.
Definition LDServerConfigBuilder_ServiceEndpoints_RelayProxyBaseURL (b : nat) (url : string) : C unit :=
  on_server (CB_ServiceEndpoints (RelayProxyBaseURL (from_c_str url))) b.
Definition LDServerConfigBuilder_AppInfo_Identifier (b : nat) (app_id : string) : C unit :=
  on_server (CB_AppInfo (Identifier (from_c_str app_id))) b.
Definition LDServerConfigBuilder_AppInfo_Version (b : nat) (app_version : string) : C unit :=
  on_server (CB_AppInfo (App_Version (from_c_str app_version))) b.
Definition LDServerConfigBuilder_Offline (b : nat) (offline : bool) : C unit := on_server (CB_Offline offline) b.
Definition LDServerConfigBuilder_Events_Enabled (b : nat) (enabled : bool) : C unit := on_server (CB_Events (EB_Enabled enabled)) b.
Definition LDServerConfigBuilder_Events_Capacity (b capacity : nat) : C unit := on_server (CB_Events (EB_Capacity capacity)) b.
Definition LDServerConfigBuilder_Events_ContextKeysCapacity (b capacity : nat) : C unit :=
  on_server (CB_Events (EB_ContextKeysCapacity capacity)) b.
Definition LDServerConfigBuilder_Events_FlushIntervalMs (b : nat) (milliseconds : Z) : C unit :=
  on_server (CB_Events (EB_FlushInterval milliseconds)) b.
Definition LDServerConfigBuilder_Events_AllAttributesPrivate (b : nat) (value : bool) : C unit :=
  on_server (CB_Events (EB_AllAttributesPrivate value)) b.
Definition LDServerConfigBuilder_Events_PrivateAttribute (b : nat) (reference : string) : C unit :=
  on_server (CB_Events (EB_PrivateAttribute (FromReferenceStr (from_c_str reference)))) b.

(** The builder of a part is copied into the configuration, and freed. *)
Definition LDServerConfigBuilder_DataSystem_BackgroundSync_Streaming (b stream_builder : nat) : C unit :=
  sb <- object_at as_streaming stream_builder ;;
  on_server (CB_DataSystem (DS_Method (BackgroundSync (inl sb)))) b ;;; LDServerDataSourceStreamBuilder_Free stream_builder.
Definition LDServerConfigBuilder_DataSystem_BackgroundSync_Polling (b poll_builder : nat) : C unit :=
  pb <- object_at as_polling poll_builder ;;
  on_server (CB_DataSystem (DS_Method (BackgroundSync (inr pb)))) b ;;; LDServerDataSourcePollBuilder_Free poll_builder.
Definition LDServerConfigBuilder_DataSystem_LazyLoad (b lazy_load_builder : nat) : C unit :=
  llb <- object_at as_lazy_load lazy_load_builder ;;
  on_server (CB_DataSystem (DS_Method (LazyLoad llb))) b ;;; LDServerLazyLoadBuilder_Free lazy_load_builder.
Definition LDServerConfigBuilder_DataSystem_Enabled (b : nat) (enabled : bool) : C unit := on_server (CB_DataSystem (DS_Enabled enabled)) b.

Definition LDServerConfigBuilder_HttpProperties_WrapperName (b : nat) (name : string) : C unit :=
  on_server (CB_HttpProperties (PB_WrapperName (from_c_str name))) b.
Definition LDServerConfigBuilder_HttpProperties_WrapperVersion (b : nat) (version : string) : C unit :=
  on_server (CB_HttpProperties (PB_WrapperVersion (from_c_str version))) b.
Definition LDServerConfigBuilder_HttpProperties_Header (b : nat) (key value : string) : C unit :=
  on_server (CB_HttpProperties (PB_Header (from_c_str key) (Some (from_c_str value)))) b.
Definition LDServerConfigBuilder_HttpProperties_Tls (b tls_builder : nat) : C unit :=
  t <- object_at as_tls tls_builder ;;
  on_server (CB_HttpProperties (PB_Tls t)) b ;;; LDServerHttpPropertiesTlsBuilder_Free tls_builder.
(** An exception does not return to C. *)
Definition LDServerConfigBuilder_HttpProperties_Proxy (b : nat) (proxy_url : string) : C unit :=
  x <- object_at as_server b ;;
  match PB_Proxy curl (Some (from_c_str proxy_url)) (cb_http x) with
  | Some p => store b (ObConfig (CoServerBuilder (CB_HttpProperties (λ _, p) x)))
  | None => undefined
  end.

Definition LDServerConfigBuilder_Logging_Disable (b : nat) : C unit := on_server (CB_Logging NoLogging) b.
Definition LDServerConfigBuilder_Logging_Basic (b basic_builder : nat) : C unit :=
  bb <- object_at as_basic basic_builder ;;
  on_server (CB_Logging (BasicLogging bb.1 bb.2)) b ;;; LDLoggingBasicBuilder_Free basic_builder.
Definition LDServerConfigBuilder_Logging_Custom (b custom_builder : nat) : C unit :=
  cb <- object_at as_custom custom_builder ;;
  on_server (CB_Logging (CustomLogging cb)) b ;;; LDLoggingCustomBuilder_Free custom_builder.
Definition LDServerConfigBuilder_Hooks (b hook : nat) : C unit := on_server (CB_Hooks (Some hook)) b.

(** ** fdv2_builder.cpp *)

Definition LDServerFDv2Builder_Default : C nat := new (ObConfig (CoFDv2 fdv2_Default)).
Definition LDServerFDv2Builder_Custom : C nat := new (ObConfig (CoFDv2 new_fdv2)).
Definition LDServerFDv2Builder_Free := delete_object as_fdv2.

Definition LDServerFDv2StreamingBuilder_New : C nat := new (ObConfig (CoFDv2Streaming fdv2_streaming)).
Definition LDServerFDv2StreamingBuilder_InitialReconnectDelayMs (b : nat) (milliseconds : Z) : C unit :=
  update as_fdv2_streaming CoFDv2Streaming (λ x, (milliseconds, x.2)) b.
Definition LDServerFDv2StreamingBuilder_BaseURL (b : nat) (base_url : string) : C unit :=
  update as_fdv2_streaming CoFDv2Streaming (λ x, (x.1, Some (from_c_str base_url))) b.
Definition LDServerFDv2StreamingBuilder_Free := delete_object as_fdv2_streaming.

Definition LDServerFDv2PollingBuilder_New : C nat := new (ObConfig (CoFDv2Polling fdv2_polling)).
Definition LDServerFDv2PollingBuilder_IntervalS (b : nat) (seconds : Z) : C unit :=
  update as_fdv2_polling CoFDv2Polling (λ x, (seconds * 1000, x.2)) b.
Definition LDServerFDv2PollingBuilder_BaseURL (b : nat) (base_url : string) : C unit :=
  update as_fdv2_polling CoFDv2Polling (λ x, (x.1, Some (from_c_str base_url))) b.
Definition LDServerFDv2PollingBuilder_Free := delete_object as_fdv2_polling.

Abbreviation on_fdv2 := (update as_fdv2 CoFDv2).
Definition LDServerFDv2Builder_Initializer_Polling (b polling : nat) : C unit :=
  p <- object_at as_fdv2_polling polling ;; on_fdv2 (Initializer p) b ;;; LDServerFDv2PollingBuilder_Free polling.
Definition LDServerFDv2Builder_Synchronizer_Streaming (b streaming : nat) : C unit :=
  p <- object_at as_fdv2_streaming streaming ;; on_fdv2 (Synchronizer (inl p)) b ;;; LDServerFDv2StreamingBuilder_Free streaming.
Definition LDServerFDv2Builder_Synchronizer_Polling (b polling : nat) : C unit :=
  p <- object_at as_fdv2_polling polling ;; on_fdv2 (Synchronizer (inr p)) b ;;; LDServerFDv2PollingBuilder_Free polling.
Definition LDServerFDv2Builder_FDv1Fallback_Streaming (b fdv1_streaming : nat) : C unit :=
  p <- object_at as_streaming fdv1_streaming ;; on_fdv2 (FDv1Fallback (inl p)) b ;;; LDServerDataSourceStreamBuilder_Free fdv1_streaming.
Definition LDServerFDv2Builder_FDv1Fallback_Polling (b fdv1_polling : nat) : C unit :=
  p <- object_at as_polling fdv1_polling ;; on_fdv2 (FDv1Fallback (inr p)) b ;;; LDServerDataSourcePollBuilder_Free fdv1_polling.
Definition LDServerFDv2Builder_DisableFDv1Fallback (b : nat) : C unit := on_fdv2 DisableFDv1Fallback b.
Definition LDServerFDv2Builder_FallbackTimeoutMs (b : nat) (milliseconds : Z) : C unit := on_fdv2 (FallbackTimeout milliseconds) b.
Definition LDServerFDv2Builder_RecoveryTimeoutMs (b : nat) (milliseconds : Z) : C unit := on_fdv2 (RecoveryTimeout milliseconds) b.

Definition LDServerConfigBuilder_DataSystem_FDv2 (b fdv2_builder : nat) : C unit :=
  fb <- object_at as_fdv2 fdv2_builder ;;
  on_server (CB_DataSystem (DS_Method (FDv2 fb))) b ;;; LDServerFDv2Builder_Free fdv2_builder.
End Interface.

(** A call that a program makes or not, and the calls in order. *)
Definition optionally {A} (o : option A) (f : A → C unit) : C unit := match o with Some x => f x | None => ret () end.
Definition set_if {A B} (o : option A) (f : A → B → B) (x : B) : B := match o with Some y => f y x | None => x end.

Fixpoint run_all {S} (run : S → C unit) (settings : list S) : C unit :=
  match settings with [] => ret () | s :: rest => run s ;;; run_all run rest end.

(** ** Lemmas *)

Lemma new_ok o (h : Heap) : new o h = Some (fresh (dom h), <[fresh (dom h) := o]> h).
Proof. done. Qed.

Lemma object_at_ok {A} (select : ConfigObject → option A) c x a (h : Heap) :
  h !! a = Some (ObConfig c) → select c = Some x → object_at select a h = Some (x, h).
Proof. intros Ha Hs. unfold object_at, bind, load. by rewrite Ha, Hs. Qed.

Lemma update_ok {A} (select : ConfigObject → option A) wrap f a x (h : Heap) :
  select (wrap x) = Some x →
  update select wrap f a (<[a := ObConfig (wrap x)]> h) = Some ((), <[a := ObConfig (wrap (f x))]> h).
Proof.
  intros Hs. unfold update, bind. rewrite (object_at_ok _ (wrap x) x) by (done || apply lookup_insert_eq).
  unfold store. by rewrite insert_insert_eq.
Qed.

Lemma delete_object_ok {A} (select : ConfigObject → option A) c x a (h : Heap) :
  select c = Some x → h !! a = None → delete_object select a (<[a := ObConfig c]> h) = Some ((), h).
Proof.
  intros Hs Ha. unfold delete_object, bind. rewrite (object_at_ok _ c x) by (done || apply lookup_insert_eq).
  unfold free. by rewrite lookup_insert_eq, delete_insert_id.
Qed.

(** The builder of a part is handed over: the whole has the part, and the builder is gone. *)
Lemma hand_over {A B} (select : ConfigObject → option A) (select' : ConfigObject → option B) wrap' g c x a b y (h : Heap) :
  select c = Some x → select' (wrap' y) = Some y → <[b := ObConfig (wrap' y)]> h !! a = None →
  (z <- object_at select a ;; update select' wrap' (g z) b ;;; delete_object select a)
    (<[a := ObConfig c]> (<[b := ObConfig (wrap' y)]> h)) = Some ((), <[b := ObConfig (wrap' (g x y))]> h).
Proof.
  intros Hs Hs' Ha. apply lookup_insert_None in Ha as [Ha Hne]. unfold bind at 1.
  rewrite (object_at_ok _ c x) by (done || apply lookup_insert_eq). rewrite insert_insert_ne by done.
  unfold bind at 1. rewrite update_ok by done. rewrite insert_insert_ne by done.
  rewrite (delete_object_ok _ _ x) by (done || by rewrite lookup_insert_ne). done.
Qed.

Lemma run_all_ok {S A} (run : S → C unit) (apply : S → A → A) (ok : S → Prop) (inject : A → Heap) settings x :
  (∀ s x, ok s → run s (inject x) = Some ((), inject (apply s x))) → Forall ok settings →
  run_all run settings (inject x) = Some ((), inject (foldl (λ c s, apply s c) x settings)).
Proof.
  intros Hrun Hok. revert x. induction Hok as [|s rest Hs _ IH]; intros x; cbn; [done|]. unfold bind. by rewrite Hrun.
Qed.

Lemma consume_ok {B R} (select : ConfigObject → option B) (wrap : R → ConfigObject) Build c x a (h : Heap) :
  select c = Some x → h !! a = None →
  ConsumeBuilder select wrap Build a (<[a := ObConfig c]> h) =
  Some (match Build x with
        | Val r => ((Some (fresh (dom h)), LDStatus_Success), <[fresh (dom h) := ObConfig (wrap r)]> h)
        | Unexpected e => ((None, Some (fresh (dom h))), <[fresh (dom h) := ObConfig (CoError e)]> h)
        end).
Proof.
  intros Hs Ha. unfold ConsumeBuilder. eapply bind_ok; [by apply (object_at_ok _ c x); [apply lookup_insert_eq|]|].
  unfold free, bind. rewrite lookup_insert_eq, delete_insert_id by done. by destruct (Build x).
Qed.

(** What is set one after the other of a new object. *)
Ltac c_set := eapply bind_ok; [first [apply new_ok|by apply update_ok|reflexivity]|].
Ltac c_sets := repeat match goal with
  | |- bind (optionally ?o _) _ _ = _ => destruct o; cbn [optionally]
  | |- bind _ _ _ = _ => c_set
  end.

(** The builder of a part is set, and handed over with [g]. *)
Ltac c_part select select' wrap' g :=
  c_sets; (etransitivity; [apply (hand_over select select' wrap' g); first [reflexivity|apply fresh_free]|reflexivity]).

Lemma proxy_ok curl url b : curl = true ∨ url = EmptyString → ∃ p, PB_Proxy curl (Some url) b = Some p.
Proof. unfold PB_Proxy, ProxyOptions. intros [->| ->]; cbn; [by eexists|]. rewrite andb_false_r. by eexists. Qed.

(** ** Programs that configure a server-side SDK *)

Section ServerPrograms.
Context (env : option string) (curl : bool).

Inductive FDv2Setting :=
| FInitializer (interval : option Z) (url : option string)
| FStreaming (delay : option Z) (url : option string)
| FPolling (interval : option Z) (url : option string)
| FFallbackStreaming (delay : option Z) (filter : option string)
| FFallbackPolling (interval : option Z) (filter : option string)
| FNoFallback
| FFallbackTimeout (ms : Z)
| FRecoveryTimeout (ms : Z).

Inductive ServerSetting :=
| SPollingURL (url : string) | SStreamingURL (url : string) | SEventsURL (url : string) | SRelayURL (url : string)
| SAppId (id : string) | SAppVersion (version : string) | SOffline (offline : bool)
| SEventsEnabled (enabled : bool) | SEventsCapacity (n : nat) | SEventsKeys (n : nat) | SEventsFlush (ms : Z)
| SEventsAllPrivate (value : bool) | SEventsPrivate (reference : string)
| SStreaming (delay : option Z) (filter : option string)
| SPolling (interval : option Z) (filter : option string)
| SLazyLoad (source : option nat) (refresh : option Z)
| SFDv2 (dflt : bool) (settings : list FDv2Setting)
| SEnabled (enabled : bool)
| SWrapperName (name : string) | SWrapperVersion (version : string) | SHeader (key value : string)
| STls (skip : option bool) (ca_file : option string) | SProxy (url : string)
| SLogNothing | SLogBasic (level : option Z) (tag : option string) | SLogCustom (backend : option nat)
| SHook (hook : nat).

(** The settings through the C interface: a part has its own builder, which is handed over. *)
Definition streaming_builder (delay : option Z) (filter : option string) : C nat :=
  a <- LDServerDataSourceStreamBuilder_New ;;
  optionally delay (LDServerDataSourceStreamBuilder_InitialReconnectDelayMs a) ;;;
  optionally filter (LDServerDataSourceStreamBuilder_Filter a) ;;; ret a.
Definition polling_builder (interval : option Z) (filter : option string) : C nat :=
  a <- LDServerDataSourcePollBuilder_New ;;
  optionally interval (LDServerDataSourcePollBuilder_IntervalS a) ;;;
  optionally filter (LDServerDataSourcePollBuilder_Filter a) ;;; ret a.
Definition fdv2_streaming_builder (delay : option Z) (url : option string) : C nat :=
  a <- LDServerFDv2StreamingBuilder_New ;;
  optionally delay (LDServerFDv2StreamingBuilder_InitialReconnectDelayMs a) ;;;
  optionally url (LDServerFDv2StreamingBuilder_BaseURL a) ;;; ret a.
Definition fdv2_polling_builder (interval : option Z) (url : option string) : C nat :=
  a <- LDServerFDv2PollingBuilder_New ;;
  optionally interval (LDServerFDv2PollingBuilder_IntervalS a) ;;;
  optionally url (LDServerFDv2PollingBuilder_BaseURL a) ;;; ret a.

Definition run_fdv2 (b : nat) (s : FDv2Setting) : C unit :=
  match s with
  | FInitializer interval url => a <- fdv2_polling_builder interval url ;; LDServerFDv2Builder_Initializer_Polling b a
  | FStreaming delay url => a <- fdv2_streaming_builder delay url ;; LDServerFDv2Builder_Synchronizer_Streaming b a
  | FPolling interval url => a <- fdv2_polling_builder interval url ;; LDServerFDv2Builder_Synchronizer_Polling b a
  | FFallbackStreaming delay filter => a <- streaming_builder delay filter ;; LDServerFDv2Builder_FDv1Fallback_Streaming b a
  | FFallbackPolling interval filter => a <- polling_builder interval filter ;; LDServerFDv2Builder_FDv1Fallback_Polling b a
  | FNoFallback => LDServerFDv2Builder_DisableFDv1Fallback b
  | FFallbackTimeout ms => LDServerFDv2Builder_FallbackTimeoutMs b ms
  | FRecoveryTimeout ms => LDServerFDv2Builder_RecoveryTimeoutMs b ms
  end.

Definition run_server (b : nat) (s : ServerSetting) : C unit :=
  match s with
  | SPollingURL url => LDServerConfigBuilder_ServiceEndpoints_PollingBaseURL b url
  | SStreamingURL url => LDServerConfigBuilder_ServiceEndpoints_StreamingBaseURL b url
  | SEventsURL url => LDServerConfigBuilder_ServiceEndpoints_EventsBaseURL b url
  | SRelayURL url => LDServerConfigBuilder_ServiceEndpoints_RelayProxyBaseURL b url
  | SAppId id => LDServerConfigBuilder_AppInfo_Identifier b id
  | SAppVersion version => LDServerConfigBuilder_AppInfo_Version b version
  | SOffline offline => LDServerConfigBuilder_Offline b offline
  | SEventsEnabled enabled => LDServerConfigBuilder_Events_Enabled b enabled
  | SEventsCapacity n => LDServerConfigBuilder_Events_Capacity b n
  | SEventsKeys n => LDServerConfigBuilder_Events_ContextKeysCapacity b n
  | SEventsFlush ms => LDServerConfigBuilder_Events_FlushIntervalMs b ms
  | SEventsAllPrivate value => LDServerConfigBuilder_Events_AllAttributesPrivate b value
  | SEventsPrivate reference => LDServerConfigBuilder_Events_PrivateAttribute b reference
  | SStreaming delay filter => a <- streaming_builder delay filter ;; LDServerConfigBuilder_DataSystem_BackgroundSync_Streaming b a
  | SPolling interval filter => a <- polling_builder interval filter ;; LDServerConfigBuilder_DataSystem_BackgroundSync_Polling b a
  | SLazyLoad source refresh =>
      a <- LDServerLazyLoadBuilder_New ;; optionally source (LDServerLazyLoadBuilder_SourcePtr a) ;;;
      optionally refresh (LDServerLazyLoadBuilder_CacheRefreshMs a) ;;; LDServerConfigBuilder_DataSystem_LazyLoad b a
  | SFDv2 dflt settings =>
      a <- (if dflt then LDServerFDv2Builder_Default else LDServerFDv2Builder_Custom) ;;
      run_all (run_fdv2 a) settings ;;; LDServerConfigBuilder_DataSystem_FDv2 b a
  | SEnabled enabled => LDServerConfigBuilder_DataSystem_Enabled b enabled
  | SWrapperName name => LDServerConfigBuilder_HttpProperties_WrapperName b name
  | SWrapperVersion version => LDServerConfigBuilder_HttpProperties_WrapperVersion b version
  | SHeader key value => LDServerConfigBuilder_HttpProperties_Header b key value
  | STls skip ca_file =>
      a <- LDServerHttpPropertiesTlsBuilder_New ;; optionally skip (LDServerHttpPropertiesTlsBuilder_SkipVerifyPeer a) ;;;
      optionally ca_file (LDServerHttpPropertiesTlsBuilder_CustomCAFile a) ;;; LDServerConfigBuilder_HttpProperties_Tls b a
  | SProxy url => LDServerConfigBuilder_HttpProperties_Proxy curl b url
  | SLogNothing => LDServerConfigBuilder_Logging_Disable b
  | SLogBasic level tag =>
      a <- LDLoggingBasicBuilder_New env ;; optionally level (LDLoggingBasicBuilder_Level a) ;;;
      optionally tag (LDLoggingBasicBuilder_Tag a) ;;; LDServerConfigBuilder_Logging_Basic b a
  | SLogCustom backend =>
      a <- LDLoggingCustomBuilder_New ;; optionally backend (LDLoggingCustomBuilder_Backend a) ;;;
      LDServerConfigBuilder_Logging_Custom b a
  | SHook hook => LDServerConfigBuilder_Hooks b hook
  end.

(** A program: what is built, and the status. *)
Definition server_program (sdk_key : string) (settings : list ServerSetting) : C (option nat * LDStatus) :=
  b <- LDServerConfigBuilder_New env sdk_key ;; run_all (run_server b) settings ;;; LDServerConfigBuilder_Build b.

(** The same settings of the C++ builders. *)
Definition streaming_of (delay : option Z) (filter : option string) : StreamingConfig :=
  set_if filter (λ f, Streaming_Filter (from_c_str f)) (set_if delay InitialReconnectDelay server_streaming).
Definition polling_of (interval : option Z) (filter : option string) : PollingConfig :=
  set_if filter (λ f, Polling_Filter (from_c_str f)) (set_if interval PollInterval server_polling).
Definition fdv2_streaming_of (delay : option Z) (url : option string) : Z * option string :=
  (default 1000 delay, from_c_str <$> url).
Definition fdv2_polling_of (interval : option Z) (url : option string) : Z * option string :=
  (default 30000 ((λ seconds, seconds * 1000) <$> interval), from_c_str <$> url).

Definition apply_fdv2 (s : FDv2Setting) (c : FDv2Config) : FDv2Config :=
  match s with
  | FInitializer interval url => Initializer (fdv2_polling_of interval url) c
  | FStreaming delay url => Synchronizer (inl (fdv2_streaming_of delay url)) c
  | FPolling interval url => Synchronizer (inr (fdv2_polling_of interval url)) c
  | FFallbackStreaming delay filter => FDv1Fallback (inl (streaming_of delay filter)) c
  | FFallbackPolling interval filter => FDv1Fallback (inr (polling_of interval filter)) c
  | FNoFallback => DisableFDv1Fallback c
  | FFallbackTimeout ms => FallbackTimeout ms c
  | FRecoveryTimeout ms => RecoveryTimeout ms c
  end.

Definition apply_server (s : ServerSetting) (b : ServerBuilder) : ServerBuilder :=
  match s with
  | SPollingURL url => CB_ServiceEndpoints (PollingBaseUrl (from_c_str url)) b
  | SStreamingURL url => CB_ServiceEndpoints (StreamingBaseUrl (from_c_str url)) b
  | SEventsURL url => CB_ServiceEndpoints (EventsBaseUrl (from_c_str url)) b
  | SRelayURL url => CB_ServiceEndpoints (RelayProxyBaseURL (from_c_str url)) b
  | SAppId id => CB_AppInfo (Identifier (from_c_str id)) b
  | SAppVersion version => CB_AppInfo (App_Version (from_c_str version)) b
  | SOffline offline => CB_Offline offline b
  | SEventsEnabled enabled => CB_Events (EB_Enabled enabled) b
  | SEventsCapacity n => CB_Events (EB_Capacity n) b
  | SEventsKeys n => CB_Events (EB_ContextKeysCapacity n) b
  | SEventsFlush ms => CB_Events (EB_FlushInterval ms) b
  | SEventsAllPrivate value => CB_Events (EB_AllAttributesPrivate value) b
  | SEventsPrivate reference => CB_Events (EB_PrivateAttribute (FromReferenceStr (from_c_str reference))) b
  | SStreaming delay filter => CB_DataSystem (DS_Method (BackgroundSync (inl (streaming_of delay filter)))) b
  | SPolling interval filter => CB_DataSystem (DS_Method (BackgroundSync (inr (polling_of interval filter)))) b
  | SLazyLoad source refresh => CB_DataSystem (DS_Method (LazyLoad (mkLazyConfig (default 300000 refresh) source))) b
  | SFDv2 dflt settings =>
      CB_DataSystem (DS_Method (FDv2 (foldl (λ c s, apply_fdv2 s c) (if dflt then fdv2_Default else new_fdv2) settings))) b
  | SEnabled enabled => CB_DataSystem (DS_Enabled enabled) b
  | SWrapperName name => CB_HttpProperties (PB_WrapperName (from_c_str name)) b
  | SWrapperVersion version => CB_HttpProperties (PB_WrapperVersion (from_c_str version)) b
  | SHeader key value => CB_HttpProperties (PB_Header (from_c_str key) (Some (from_c_str value))) b
  | STls skip ca_file =>
      CB_HttpProperties (PB_Tls (set_if ca_file (λ f, CustomCAFile (from_c_str f)) (set_if skip SkipVerifyPeer (mkTls false None)))) b
  | SProxy url => CB_HttpProperties (λ p, default p (PB_Proxy curl (Some (from_c_str url)) p)) b
  | SLogNothing => CB_Logging NoLogging b
  | SLogBasic level tag => CB_Logging (BasicLogging (default (GetLogLevelEnum env kInfo) level) (default LogTag (from_c_str <$> tag))) b
  | SLogCustom backend => CB_Logging (CustomLogging backend) b
  | SHook hook => CB_Hooks (Some hook) b
  end.

(** Only a proxy that is set without libcurl is not done. *)
Definition server_setting_ok (s : ServerSetting) : Prop :=
  match s with SProxy url => curl = true ∨ from_c_str url = EmptyString | _ => True end.

Lemma streaming_builder_ok delay filter (h : Heap) :
  streaming_builder delay filter h = Some (fresh (dom h), <[fresh (dom h) := ObConfig (CoStreaming (streaming_of delay filter))]> h).
Proof. unfold streaming_builder. c_sets; done. Qed.

Lemma polling_builder_ok interval filter (h : Heap) :
  polling_builder interval filter h = Some (fresh (dom h), <[fresh (dom h) := ObConfig (CoPolling (polling_of interval filter))]> h).
Proof. unfold polling_builder. c_sets; done. Qed.

Lemma fdv2_streaming_builder_ok delay url (h : Heap) :
  fdv2_streaming_builder delay url h =
  Some (fresh (dom h), <[fresh (dom h) := ObConfig (CoFDv2Streaming (fdv2_streaming_of delay url))]> h).
Proof. unfold fdv2_streaming_builder. c_sets; done. Qed.

Lemma fdv2_polling_builder_ok interval url (h : Heap) :
  fdv2_polling_builder interval url h =
  Some (fresh (dom h), <[fresh (dom h) := ObConfig (CoFDv2Polling (fdv2_polling_of interval url))]> h).
Proof. unfold fdv2_polling_builder. c_sets; done. Qed.

Lemma run_fdv2_ok b s c (h : Heap) :
  run_fdv2 b s (<[b := ObConfig (CoFDv2 c)]> h) = Some ((), <[b := ObConfig (CoFDv2 (apply_fdv2 s c))]> h).
Proof.
  destruct s; cbn [run_fdv2 apply_fdv2]; try (by apply update_ok);
    (eapply bind_ok; [first [apply fdv2_polling_builder_ok|apply fdv2_streaming_builder_ok|apply streaming_builder_ok|apply polling_builder_ok]|]);
    [apply (hand_over as_fdv2_polling as_fdv2 CoFDv2 Initializer)|apply (hand_over as_fdv2_streaming as_fdv2 CoFDv2 (λ p, Synchronizer (inl p)))
    |apply (hand_over as_fdv2_polling as_fdv2 CoFDv2 (λ p, Synchronizer (inr p)))|apply (hand_over as_streaming as_fdv2 CoFDv2 (λ p, FDv1Fallback (inl p)))
    |apply (hand_over as_polling as_fdv2 CoFDv2 (λ p, FDv1Fallback (inr p)))]; first [done|apply fresh_free].
Qed.

Ltac c_server_part select g :=
  eapply bind_ok; [first [apply streaming_builder_ok|apply polling_builder_ok|apply new_ok]|]; c_part select as_server CoServerBuilder g.

Lemma run_server_ok b s x (h : Heap) :
  server_setting_ok s →
  run_server b s (<[b := ObConfig (CoServerBuilder x)]> h) = Some ((), <[b := ObConfig (CoServerBuilder (apply_server s x))]> h).
Proof.
  intros Hok. destruct s; cbn [run_server apply_server]; try (by apply update_ok).
  - c_server_part as_streaming (λ p, CB_DataSystem (DS_Method (BackgroundSync (inl p))) : ServerBuilder → ServerBuilder).
  - c_server_part as_polling (λ p, CB_DataSystem (DS_Method (BackgroundSync (inr p))) : ServerBuilder → ServerBuilder).
  - c_server_part as_lazy_load (λ p, CB_DataSystem (DS_Method (LazyLoad p)) : ServerBuilder → ServerBuilder).
  - set (H := <[b := _]> h). assert (H !! fresh (dom H) = None) as Hf by apply fresh_free.
    apply (bind_ok _ _ (fresh (dom H)) _ (<[fresh (dom H) := ObConfig (CoFDv2 (if dflt then fdv2_Default else new_fdv2))]> H)); [by destruct dflt|].
    eapply bind_ok; [apply (run_all_ok _ apply_fdv2 (λ _, True) (λ c, <[fresh (dom H) := ObConfig (CoFDv2 c)]> H)); [by intros; apply run_fdv2_ok|by apply Forall_true]|].
    by apply (hand_over as_fdv2 as_server CoServerBuilder (λ p, CB_DataSystem (DS_Method (FDv2 p)))).
  - c_server_part as_tls (λ p, CB_HttpProperties (PB_Tls p) : ServerBuilder → ServerBuilder).
  - unfold LDServerConfigBuilder_HttpProperties_Proxy. eapply bind_ok; [by apply (object_at_ok _ (CoServerBuilder x) x); [apply lookup_insert_eq|]|].
    assert (∃ p, PB_Proxy curl (Some (from_c_str url)) (cb_http x) = Some p) as [p Hp] by by apply proxy_ok.
    rewrite Hp. unfold store. rewrite insert_insert_eq. unfold CB_HttpProperties. by rewrite Hp.
  - c_server_part as_basic (λ p, CB_Logging (BasicLogging p.1 p.2) : ServerBuilder → ServerBuilder).
  - c_server_part as_custom (λ p, CB_Logging (CustomLogging p) : ServerBuilder → ServerBuilder).
Qed.

(** What a program in C builds is what the same settings of the C++ builders build, and nothing else
    is left of it: the heap has the configuration besides what it had before or, when a setting is
    wrong, the error, which the status points to. *)
Theorem c_server_config sdk_key settings (h : Heap) :
  Forall server_setting_ok settings →
  let a := fresh (dom h) in
  server_program sdk_key settings h =
  Some (match ConfigBuilder_Build (foldl (λ b s, apply_server s b) (new_config env (from_c_str sdk_key)) settings) with
        | Val c => ((Some a, LDStatus_Success), <[a := ObConfig (CoServerConfig c)]> h)
        | Unexpected e => ((None, Some a), <[a := ObConfig (CoError e)]> h)
        end).
Proof.
  intros Hok a. unfold server_program. c_set.
  eapply bind_ok; [apply (run_all_ok _ apply_server server_setting_ok (λ x, <[a := ObConfig (CoServerBuilder x)]> h)); [by intros; apply run_server_ok|done]|].
  by apply (consume_ok as_server CoServerConfig); [|apply fresh_free].
Qed.
End ServerPrograms.
