(* ===== verification/CClientConfig.v ===== *)
(** * The C interface to client-side configurations

    libs/client-sdk/src/bindings/c/builder.cpp: the builder of the configuration and of its parts, and
    the wrapper around a persistence written in C.  As in [CConfig], a program in C is a list of
    settings, compared with what the C++ builders build. *)

From S2P Require Import Prelude OrderedMap AttributeReferences Contexts HttpRequester Logging Configurations ClientConfig Json.
From S2P Require Import CConfigObjects CBindings CConfig.
#[local] Open Scope c_scope.

(** ** builder.cpp *)

Section Interface.
Context (env : option string) (curl : bool).

Definition LDDataSourceStreamBuilder_New : C nat := new (ObConfig (CoClientStreaming client_streaming)).
Definition LDDataSourceStreamBuilder_InitialReconnectDelayMs (b : nat) (milliseconds : Z) : C unit :=
  update as_client_streaming CoClientStreaming (CS_InitialReconnectDelay milliseconds) b.
Definition LDDataSourceStreamBuilder_Free := delete_object as_client_streaming.
Definition LDDataSourcePollBuilder_New : C nat := new (ObConfig (CoClientPolling client_polling)).
Definition LDDataSourcePollBuilder_IntervalS (b : nat) (seconds : Z) : C unit :=
  update as_client_polling CoClientPolling (CP_PollInterval seconds) b.
Definition LDDataSourcePollBuilder_Free := delete_object as_client_polling.

Definition LDClientHttpPropertiesTlsBuilder_New : C nat := new (ObConfig (CoTls (mkTls false None))).
Definition LDClientHttpPropertiesTlsBuilder_SkipVerifyPeer (b : nat) (skip : bool) : C unit := update as_tls CoTls (SkipVerifyPeer skip) b.
Definition LDClientHttpPropertiesTlsBuilder_CustomCAFile (b : nat) (file : string) : C unit :=
  update as_tls CoTls (CustomCAFile (from_c_str file)) b.
Definition LDClientHttpPropertiesTlsBuilder_Free := delete_object as_tls.

Definition LDPersistenceCustomBuilder_New : C nat := new (ObConfig (CoPersistence None)).
Definition LDPersistenceCustomBuilder_Free := delete_object as_persistence.
Definition LDPersistenceCustomBuilder_Implementation (b impl : nat) : C unit := update as_persistence CoPersistence (λ _, Some impl) b.

Definition LDClientConfigBuilder_New (sdk_key : string) : C nat :=
  new (ObConfig (CoClientBuilder (new_client_config env (from_c_str sdk_key)))).
Definition LDClientConfigBuilder_Build : nat → C (option nat * LDStatus) := ConsumeBuilder as_client CoClientConfig ClientConfigBuilder_Build.
Definition LDClientConfigBuilder_Free := delete_object as_client.

Definition LDClientConfigBuilder_ServiceEndpoints_PollingBaseURL (b : nat) (url : string) : C unit :=
  on_client (CC_ServiceEndpoints (PollingBaseUrl (from_c_str url))) b.
Definition LDClientConfigBuilder_ServiceEndpoints_StreamingBaseURL (b : nat) (url : string) : C unit :=
  on_client (CC_ServiceEndpoints (StreamingBaseUrl (from_c_str url))) b.
Definition LDClientConfigBuilder_ServiceEndpoints_EventsBaseURL (b : nat) (url : string) : C unit :=
  on_client (CC_ServiceEndpoints (EventsBaseUrl (from_c_str url))) b.
Definition LDClientConfigBuilder_ServiceEndpoints_RelayProxyBaseURL (b : nat) (url : string) : C unit :=
  on_client (CC_ServiceEndpoints (RelayProxyBaseURL (from_c_str url))) b.
Definition LDClientConfigBuilder_AppInfo_Identifier (b : nat) (app_id : string) : C unit :=
  on_client (CC_AppInfo (Identifier (from_c_str app_id))) b.
Definition LDClientConfigBuilder_AppInfo_Version (b : nat) (app_version : string) : C unit :=
  on_client (CC_AppInfo (App_Version (from_c_str app_version))) b.
Definition LDClientConfigBuilder_Offline (b : nat) (offline : bool) : C unit := on_client (CC_Offline offline) b.
Definition LDClientConfigBuilder_Events_Enabled (b : nat) (enabled : bool) : C unit := on_client (CC_Events (EB_Enabled enabled)) b.
Definition LDClientConfigBuilder_Events_Capacity (b capacity : nat) : C unit := on_client (CC_Events (EB_Capacity capacity)) b.
Definition LDClientConfigBuilder_Events_FlushIntervalMs (b : nat) (milliseconds : Z) : C unit :=
  on_client (CC_Events (EB_FlushInterval milliseconds)) b.
Definition LDClientConfigBuilder_Events_AllAttributesPrivate (b : nat) (value : bool) : C unit :=
  on_client (CC_Events (EB_AllAttributesPrivate value)) b.
Definition LDClientConfigBuilder_Events_PrivateAttribute (b : nat) (reference : string) : C unit :=
  on_client (CC_Events (EB_PrivateAttribute (FromReferenceStr (from_c_str reference)))) b.
Definition LDClientConfigBuilder_DataSource_WithReasons (b : nat) (value : bool) : C unit := on_client (CC_DataSource (WithReasons value)) b.
Definition LDClientConfigBuilder_DataSource_UseReport (b : nat) (value : bool) : C unit := on_client (CC_DataSource (UseReport value)) b.
Definition LDClientConfigBuilder_DataSource_MethodStream (b stream_builder : nat) : C unit :=
  sb <- object_at as_client_streaming stream_builder ;;
  on_client (CC_DataSource (Client_Method (inl sb))) b ;;; LDDataSourceStreamBuilder_Free stream_builder.
Definition LDClientConfigBuilder_DataSource_MethodPoll (b poll_builder : nat) : C unit :=
  pb <- object_at as_client_polling poll_builder ;;
  on_client (CC_DataSource (Client_Method (inr pb))) b ;;; LDDataSourcePollBuilder_Free poll_builder.
Definition LDClientConfigBuilder_HttpProperties_WrapperName (b : nat) (name : string) : C unit :=
  on_client (CC_HttpProperties (PB_WrapperName (from_c_str name))) b.
Definition LDClientConfigBuilder_HttpProperties_WrapperVersion (b : nat) (version : string) : C unit :=
  on_client (CC_HttpProperties (PB_WrapperVersion (from_c_str version))) b.
Definition LDClientConfigBuilder_HttpProperties_Header (b : nat) (key value : string) : C unit :=
  on_client (CC_HttpProperties (PB_Header (from_c_str key) (Some (from_c_str value)))) b.
Definition LDClientConfigBuilder_HttpProperties_Tls (b tls_builder : nat) : C unit :=
  t <- object_at as_tls tls_builder ;;
  on_client (CC_HttpProperties (PB_Tls t)) b ;;; LDClientHttpPropertiesTlsBuilder_Free tls_builder.
(** An exception does not return to C. *)
Definition LDClientConfigBuilder_HttpProperties_Proxy (b : nat) (proxy_url : string) : C unit :=
  x <- object_at as_client b ;;
  match PB_Proxy curl (Some (from_c_str proxy_url)) (cc_http x) with
  | Some p => store b (ObConfig (CoClientBuilder (CC_HttpProperties (λ _, p) x)))
  | None => undefined
  end.
Definition LDClientConfigBuilder_Logging_Disable (b : nat) : C unit := on_client (CC_Logging NoLogging) b.
Definition LDClientConfigBuilder_Logging_Basic (b basic_builder : nat) : C unit :=
  bb <- object_at as_basic basic_builder ;;
  on_client (CC_Logging (BasicLogging bb.1 bb.2)) b ;;; LDLoggingBasicBuilder_Free basic_builder.
Definition LDClientConfigBuilder_Logging_Custom (b custom_builder : nat) : C unit :=
  cb <- object_at as_custom custom_builder ;;
  on_client (CC_Logging (CustomLogging cb)) b ;;; LDLoggingCustomBuilder_Free custom_builder.
Definition LDClientConfigBuilder_Persistence_Custom (b custom_builder : nat) : C unit :=
  cb <- object_at as_persistence custom_builder ;;
  on_client (CC_Persistence (P_Type (CustomBuilder cb))) b ;;; LDPersistenceCustomBuilder_Free custom_builder.
(** The body is empty. *)
Definition LDClientConfigBuilder_Persistence_None (b : nat) : C unit := ret ().
End Interface.

(** ** Programs that configure a client-side SDK *)

Section ClientPrograms.
Context (env : option string) (curl : bool).

Inductive ClientSetting :=
| TPollingURL (url : string) | TStreamingURL (url : string) | TEventsURL (url : string) | TRelayURL (url : string)
| TAppId (id : string) | TAppVersion (version : string) | TOffline (offline : bool)
| TEventsEnabled (enabled : bool) | TEventsCapacity (n : nat) | TEventsFlush (ms : Z)
| TEventsAllPrivate (value : bool) | TEventsPrivate (reference : string)
| TWithReasons (value : bool) | TUseReport (value : bool)
| TStreaming (delay : option Z) | TPolling (interval : option Z)
| TWrapperName (name : string) | TWrapperVersion (version : string) | THeader (key value : string)
| TTls (skip : option bool) (ca_file : option string) | TProxy (url : string)
| TLogNothing | TLogBasic (level : option Z) (tag : option string) | TLogCustom (backend : option nat)
| TPersistence (impl : option nat) | TNoPersistence.

Definition run_client (b : nat) (s : ClientSetting) : C unit :=
  match s with
  | TPollingURL url => LDClientConfigBuilder_ServiceEndpoints_PollingBaseURL b url
  | TStreamingURL url => LDClientConfigBuilder_ServiceEndpoints_StreamingBaseURL b url
  | TEventsURL url => LDClientConfigBuilder_ServiceEndpoints_EventsBaseURL b url
  | TRelayURL url => LDClientConfigBuilder_ServiceEndpoints_RelayProxyBaseURL b url
  | TAppId id => LDClientConfigBuilder_AppInfo_Identifier b id
  | TAppVersion version => LDClientConfigBuilder_AppInfo_Version b version
  | TOffline offline => LDClientConfigBuilder_Offline b offline
  | TEventsEnabled enabled => LDClientConfigBuilder_Events_Enabled b enabled
  | TEventsCapacity n => LDClientConfigBuilder_Events_Capacity b n
  | TEventsFlush ms => LDClientConfigBuilder_Events_FlushIntervalMs b ms
  | TEventsAllPrivate value => LDClientConfigBuilder_Events_AllAttributesPrivate b value
  | TEventsPrivate reference => LDClientConfigBuilder_Events_PrivateAttribute b reference
  | TWithReasons value => LDClientConfigBuilder_DataSource_WithReasons b value
  | TUseReport value => LDClientConfigBuilder_DataSource_UseReport b value
  | TStreaming delay =>
      a <- LDDataSourceStreamBuilder_New ;; optionally delay (LDDataSourceStreamBuilder_InitialReconnectDelayMs a) ;;;
      LDClientConfigBuilder_DataSource_MethodStream b a
  | TPolling interval =>
      a <- LDDataSourcePollBuilder_New ;; optionally interval (LDDataSourcePollBuilder_IntervalS a) ;;;
      LDClientConfigBuilder_DataSource_MethodPoll b a
  | TWrapperName name => LDClientConfigBuilder_HttpProperties_WrapperName b name
  | TWrapperVersion version => LDClientConfigBuilder_HttpProperties_WrapperVersion b version
  | THeader key value => LDClientConfigBuilder_HttpProperties_Header b key value
  | TTls skip ca_file =>
      a <- LDClientHttpPropertiesTlsBuilder_New ;; optionally skip (LDClientHttpPropertiesTlsBuilder_SkipVerifyPeer a) ;;;
      optionally ca_file (LDClientHttpPropertiesTlsBuilder_CustomCAFile a) ;;; LDClientConfigBuilder_HttpProperties_Tls b a
  | TProxy url => LDClientConfigBuilder_HttpProperties_Proxy curl b url
  | TLogNothing => LDClientConfigBuilder_Logging_Disable b
  | TLogBasic level tag =>
      a <- LDLoggingBasicBuilder_New env ;; optionally level (LDLoggingBasicBuilder_Level a) ;;;
      optionally tag (LDLoggingBasicBuilder_Tag a) ;;; LDClientConfigBuilder_Logging_Basic b a
  | TLogCustom backend =>
      a <- LDLoggingCustomBuilder_New ;; optionally backend (LDLoggingCustomBuilder_Backend a) ;;;
      LDClientConfigBuilder_Logging_Custom b a
  | TPersistence impl =>
      a <- LDPersistenceCustomBuilder_New ;; optionally impl (LDPersistenceCustomBuilder_Implementation a) ;;;
      LDClientConfigBuilder_Persistence_Custom b a
  | TNoPersistence => LDClientConfigBuilder_Persistence_None b
  end.

Definition client_program (sdk_key : string) (settings : list ClientSetting) : C (option nat * LDStatus) :=
  b <- LDClientConfigBuilder_New env sdk_key ;; run_all (run_client b) settings ;;; LDClientConfigBuilder_Build b.

(** The same settings of the C++ builders, but for [TNoPersistence], which does nothing. *)
Definition apply_client (s : ClientSetting) (b : CClientBuilder) : CClientBuilder :=
  match s with
  | TPollingURL url => CC_ServiceEndpoints (PollingBaseUrl (from_c_str url)) b
  | TStreamingURL url => CC_ServiceEndpoints (StreamingBaseUrl (from_c_str url)) b
  | TEventsURL url => CC_ServiceEndpoints (EventsBaseUrl (from_c_str url)) b
  | TRelayURL url => CC_ServiceEndpoints (RelayProxyBaseURL (from_c_str url)) b
  | TAppId id => CC_AppInfo (Identifier (from_c_str id)) b
  | TAppVersion version => CC_AppInfo (App_Version (from_c_str version)) b
  | TOffline offline => CC_Offline offline b
  | TEventsEnabled enabled => CC_Events (EB_Enabled enabled) b
  | TEventsCapacity n => CC_Events (EB_Capacity n) b
  | TEventsFlush ms => CC_Events (EB_FlushInterval ms) b
  | TEventsAllPrivate value => CC_Events (EB_AllAttributesPrivate value) b
  | TEventsPrivate reference => CC_Events (EB_PrivateAttribute (FromReferenceStr (from_c_str reference))) b
  | TWithReasons value => CC_DataSource (WithReasons value) b
  | TUseReport value => CC_DataSource (UseReport value) b
  | TStreaming delay => CC_DataSource (Client_Method (inl (set_if delay CS_InitialReconnectDelay client_streaming))) b
  | TPolling interval => CC_DataSource (Client_Method (inr (set_if interval CP_PollInterval client_polling))) b
  | TWrapperName name => CC_HttpProperties (PB_WrapperName (from_c_str name)) b
  | TWrapperVersion version => CC_HttpProperties (PB_WrapperVersion (from_c_str version)) b
  | THeader key value => CC_HttpProperties (PB_Header (from_c_str key) (Some (from_c_str value))) b
  | TTls skip ca_file =>
      CC_HttpProperties (PB_Tls (set_if ca_file (λ f, CustomCAFile (from_c_str f)) (set_if skip SkipVerifyPeer (mkTls false None)))) b
  | TProxy url => CC_HttpProperties (λ p, default p (PB_Proxy curl (Some (from_c_str url)) p)) b
  | TLogNothing => CC_Logging NoLogging b
  | TLogBasic level tag => CC_Logging (BasicLogging (default (GetLogLevelEnum env kInfo) level) (default LogTag (from_c_str <$> tag))) b
  | TLogCustom backend => CC_Logging (CustomLogging backend) b
  | TPersistence impl => CC_Persistence (P_Custom impl) b
  | TNoPersistence => b
  end.

Definition client_setting_ok (s : ClientSetting) : Prop :=
  match s with TProxy url => curl = true ∨ from_c_str url = EmptyString | _ => True end.

Ltac c_client_part select g := c_part select as_client CoClientBuilder g.

Lemma run_client_ok b s x (h : Heap) :
  client_setting_ok s →
  run_client b s (<[b := ObConfig (CoClientBuilder x)]> h) = Some ((), <[b := ObConfig (CoClientBuilder (apply_client s x))]> h).
Proof.
  intros Hok. destruct s; cbn [run_client apply_client]; try (by apply update_ok).
  - c_client_part as_client_streaming (λ p, CC_DataSource (Client_Method (inl p)) : CClientBuilder → CClientBuilder).
  - c_client_part as_client_polling (λ p, CC_DataSource (Client_Method (inr p)) : CClientBuilder → CClientBuilder).
  - c_client_part as_tls (λ p, CC_HttpProperties (PB_Tls p) : CClientBuilder → CClientBuilder).
  - unfold LDClientConfigBuilder_HttpProperties_Proxy. eapply bind_ok; [by apply (object_at_ok _ (CoClientBuilder x) x); [apply lookup_insert_eq|]|].
    assert (∃ p, PB_Proxy curl (Some (from_c_str url)) (cc_http x) = Some p) as [p Hp] by by apply proxy_ok.
    rewrite Hp. unfold store. rewrite insert_insert_eq. unfold CC_HttpProperties. by rewrite Hp.
  - c_client_part as_basic (λ p, CC_Logging (BasicLogging p.1 p.2) : CClientBuilder → CClientBuilder).
  - c_client_part as_custom (λ p, CC_Logging (CustomLogging p) : CClientBuilder → CClientBuilder).
  - c_client_part as_persistence (λ p, CC_Persistence (P_Type (CustomBuilder p)) : CClientBuilder → CClientBuilder).
  - done.
Qed.

(** What a program in C builds is what the same settings of the C++ builders build, and the heap has
    nothing else besides what it had before. *)
Theorem c_client_config sdk_key settings (h : Heap) :
  Forall client_setting_ok settings →
  let a := fresh (dom h) in
  client_program sdk_key settings h =
  Some (match ClientConfigBuilder_Build (foldl (λ b s, apply_client s b) (new_client_config env (from_c_str sdk_key)) settings) with
        | Val c => ((Some a, LDStatus_Success), <[a := ObConfig (CoClientConfig c)]> h)
        | Unexpected e => ((None, Some a), <[a := ObConfig (CoError e)]> h)
        end).
Proof.
  intros Hok a. unfold client_program. c_set.
  eapply bind_ok; [apply (run_all_ok _ apply_client client_setting_ok (λ x, <[a := ObConfig (CoClientBuilder x)]> h)); [by intros; apply run_client_ok|done]|].
  by apply (consume_ok as_client CoClientConfig); [|apply fresh_free].
Qed.

(** Persistence that was configured stays configured after the call that is to disable it, unlike with
    the C++ builder. *)
Lemma c_persistence_not_disabled sdk_key impl :
  sdk_key ≠ EmptyString → from_c_str sdk_key = sdk_key →
  ∃ c, client_program sdk_key [TPersistence (Some impl); TNoPersistence] ∅ = Some ((Some (fresh (dom (∅ : Heap))), LDStatus_Success),
      {[fresh (dom (∅ : Heap)) := ObConfig (CoClientConfig c)]}) ∧
    MakePersistence (cl_persistence c) = Some impl ∧ MakePersistence (PersistenceBuilder_Build (P_None (P_Custom (Some impl) new_persistence))) = None.
Proof.
  intros Hk Hc. rewrite c_client_config by (repeat constructor). cbn [foldl apply_client]. rewrite Hc.
  unfold ClientConfigBuilder_Build. cbn -[is_empty fresh dom]. destruct (is_empty sdk_key) eqn:E; [by apply is_empty_true in E|].
  eexists. split_and!; reflexivity.
Qed.
End ClientPrograms.

(** ** A persistence written in C *)

Section Persistence.
Context {St : Type}.

(** [LDPersistence]: what its functions do to a state of the application.  [Read] gives a size and, unless
    the pointer it sets is null, what can be read there. *)
Record LDPersistence := mkLDPersistence {
  impl_Set : string → string → string → St → St;
  impl_Remove : string → string → St → St;
  impl_Read : string → string → St → nat * option string * St;
  impl_FreeRead : string → St → St;
}.

Definition LDPersistence_Init : LDPersistence := mkLDPersistence (λ _ _ _ s, s) (λ _ _ s, s) (λ _ _ s, (0%nat, None, s)) (λ _ s, s).

(** [PersistenceImplementationWrapper]: the functions get C strings.  Reading more than there is would be
    undefined. *)
Definition wrapper_Set (impl : LDPersistence) (storage_namespace key data : string) (s : St) : St :=
  impl_Set impl (from_c_str storage_namespace) (from_c_str key) (from_c_str data) s.
Definition wrapper_Remove (impl : LDPersistence) (storage_namespace key : string) (s : St) : St :=
  impl_Remove impl (from_c_str storage_namespace) (from_c_str key) s.
Definition wrapper_Read (impl : LDPersistence) (storage_namespace key : string) (s : St) : option (option string * St) :=
  let '(size, read_value, s) := impl_Read impl (from_c_str storage_namespace) (from_c_str key) s in
  match read_value with
  | None => Some (None, s)
  | Some text =>
      if (length (chars text) <? size)%nat then None
      else Some (if (size =? 0)%nat then None else Some (of_chars (take size (chars text))), impl_FreeRead impl text s)
  end.

(** A store in C that does what the header asks for: [contents] is what it holds. *)
Record CStore (impl : LDPersistence) (contents : St → gmap (string * string) string) : Prop := {
  store_set : ∀ ns key data s, contents (impl_Set impl ns key data s) = <[(ns, key) := data]> (contents s);
  store_remove : ∀ ns key s, contents (impl_Remove impl ns key s) = delete (ns, key) (contents s);
  store_read : ∀ ns key s, (impl_Read impl ns key s).1 =
    match contents s !! (ns, key) with Some v => (length (chars v), Some v) | None => (0%nat, None) end;
  store_read_keeps : ∀ ns key s, contents (impl_Read impl ns key s).2 = contents s;
  store_free_keeps : ∀ text s, contents (impl_FreeRead impl text s) = contents s;
}.

(** What the SDK reads from such a store is what is in it, but that an empty value is read as none. *)
Lemma wrapper_read_spec impl contents ns key s :
  CStore impl contents → from_c_str ns = ns → from_c_str key = key →
  ∃ s', contents s' = contents s ∧
    wrapper_Read impl ns key s =
      Some (match contents s !! (ns, key) with Some v => if is_empty v then None else Some v | None => None end, s').
Proof.
  intros Hs Hns Hkey. unfold wrapper_Read. rewrite Hns, Hkey. pose proof (store_read _ _ Hs ns key s) as Hr.
  pose proof (store_read_keeps _ _ Hs ns key s) as Hk. destruct (impl_Read impl ns key s) as [[size value] s']. cbn in Hr, Hk. revert Hr.
  destruct (contents s !! (ns, key)) as [v|]; intros [= -> ->]; [|by exists s'].
  exists (impl_FreeRead impl v s'). split; [by rewrite (store_free_keeps _ _ Hs)|].
  rewrite Nat.ltb_irrefl. destruct v as [|c v]; [done|]. cbn [is_empty]. do 2 f_equal.
  rewrite take_ge, of_chars_chars by lia. done.
Qed.

(** A value that is written is read back, if it is a C string and not empty. *)
Theorem c_persistence_roundtrip impl contents ns key data s :
  CStore impl contents → from_c_str ns = ns → from_c_str key = key → from_c_str data = data → data ≠ EmptyString →
  ∃ s', wrapper_Read impl ns key (wrapper_Set impl ns key data s) = Some (Some data, s').
Proof.
  intros Hs Hns Hkey Hd Hne. destruct (wrapper_read_spec impl contents ns key (wrapper_Set impl ns key data s)) as (s' & _ & E); [done..|].
  exists s'. rewrite E. unfold wrapper_Set. rewrite Hns, Hkey, Hd, (store_set _ _ Hs), lookup_insert_eq. by destruct data.
Qed.

(** An empty value, which the interface allows, is not. *)
Lemma c_persistence_empty impl contents ns key s :
  CStore impl contents → from_c_str ns = ns → from_c_str key = key →
  ∃ s', wrapper_Read impl ns key (wrapper_Set impl ns key EmptyString s) = Some (None, s').
Proof.
  intros Hs Hns Hkey. destruct (wrapper_read_spec impl contents ns key (wrapper_Set impl ns key EmptyString s)) as (s' & _ & E); [done..|].
  exists s'. rewrite E. unfold wrapper_Set. rewrite Hns, Hkey, (store_set _ _ Hs). change (from_c_str EmptyString) with EmptyString.
  by rewrite lookup_insert_eq.
Qed.
End Persistence.

(** A map is such a store. *)
Definition map_store : @LDPersistence (gmap (string * string) string) :=
  mkLDPersistence (λ ns key data s, <[(ns, key) := data]> s) (λ ns key s, delete (ns, key) s)
    (λ ns key s, (match s !! (ns, key) with Some v => (length (chars v), Some v) | None => (0%nat, None) end, s)) (λ _ s, s).

Lemma map_store_ok : CStore map_store (λ s, s).
Proof. split; done. Qed.
