(* ===== verification/CStatus.v ===== *)
(** * Following a client from C

    The rest of libs/server-sdk/src/bindings/c/sdk.cpp and libs/client-sdk/src/bindings/c/sdk.cpp (statuses of
    the data source, their listeners, listeners of flags, making and starting clients) with libs/common/src/bindings/c/data_source/error_info.cpp and
    listener_connection.cpp and flag_listener.cpp, on the heap of [CBindings]; how statuses are written, in data_source_status.cpp of
    both SDKs and libs/common/src/data_sources.

    The functions of the two SDKs are the same but for the type of the state, which is a parameter.  A clock
    counts [ticks] in a second. *)

From S2P Require Import Prelude StatusManager OrderedMap Values Contexts Externals Json JsonModel Persistence ClientFlags CBindings.
#[local] Open Scope c_scope.
#[local] Open Scope Z_scope.

(** ** Codes and names *)

(** The enumerations of C++ and of C, whose values are the same. *)
Definition server_state_code (s : ServerState.t) : Z :=
  match s with ServerState.kInitializing => 0 | ServerState.kValid => 1 | ServerState.kInterrupted => 2 | ServerState.kOff => 3 end.
Definition client_state_code (s : ClientState.t) : Z :=
  match s with
  | ClientState.kInitializing => 0 | ClientState.kValid => 1 | ClientState.kInterrupted => 2
  | ClientState.kSetOffline => 3 | ClientState.kShutdown => 4
  end.
Definition error_kind_code (k : StatusErrorKind.t) : Z :=
  match k with
  | StatusErrorKind.kUnknown => 0 | StatusErrorKind.kNetworkError => 1 | StatusErrorKind.kErrorResponse => 2
  | StatusErrorKind.kInvalidData => 3 | StatusErrorKind.kStoreError => 4
  end.

Definition server_state_name (s : ServerState.t) : string :=
  match s with
  | ServerState.kInitializing => "INITIALIZING" | ServerState.kValid => "VALID"
  | ServerState.kInterrupted => "INTERRUPTED" | ServerState.kOff => "OFF"
  end.
Definition error_kind_name (k : StatusErrorKind.t) : string :=
  match k with
  | StatusErrorKind.kUnknown => "UNKNOWN" | StatusErrorKind.kNetworkError => "NETWORK_ERROR"
  | StatusErrorKind.kErrorResponse => "ERROR_RESPONSE" | StatusErrorKind.kInvalidData => "INVALID_DATA"
  | StatusErrorKind.kStoreError => "STORE_ERROR"
  end.

(** [GetDataSourceStateName]: a C program may pass any number as a state. *)
Definition GetDataSourceStateName (state : Z) (default_if_unknown : string) : string :=
  if state =? 0 then "INITIALIZING" else if state =? 1 then "VALID" else if state =? 2 then "INTERRUPTED"
  else if state =? 3 then "OFFLINE" else if state =? 4 then "SHUTDOWN" else default_if_unknown.
Definition LDDataSourceStatus_State_Name (state : Z) (default_if_unknown : string) : string := GetDataSourceStateName state default_if_unknown.

(** [operator<<]; [date] writes a time. *)
Definition print_error (date : Z → string) (e : ErrorInfo) : string :=
  "Error(" +:+ error_kind_name (error_kind_ e) +:+ ", " +:+ error_message_ e +:+ ", StatusCode(" +:+ to_string (error_status_code_ e) +:+
  "), Since(" +:+ date (error_time_ e) +:+ "))".
Definition print_status {S} (name : S → string) (date : Z → string) (s : DataSourceStatus S) : string :=
  "Status(" +:+ name (status_state s) +:+ ", Since(" +:+ date (status_since s) +:+ ")" +:+
  match status_last_error s with Some e => ", " +:+ print_error date e | None => EmptyString end +:+ ")".
Definition client_state_name (s : ClientState.t) : string := GetDataSourceStateName (client_state_code s) "UNKNOWN".

(** ** Statuses on the heap *)

(** What the functions of an SDK have of their own. *)
Class StatusObject (S : Type) := {
  status_object : DataSourceStatus S → Object_;
  status_of : Object_ → option (DataSourceStatus S);
  state_code : S → Z;
  status_of_object s : status_of (status_object s) = Some s;
}.

#[global] Instance server_status : StatusObject ServerState.t.
Proof.
  refine {| status_object := ObServerStatus; status_of := λ o, match o with ObServerStatus s => Some s | _ => None end;
            state_code := server_state_code |}. done.
Defined.
#[global] Instance client_status : StatusObject ClientState.t.
Proof.
  refine {| status_object := ObClientStatus; status_of := λ o, match o with ObClientStatus s => Some s | _ => None end;
            state_code := client_state_code |}. done.
Defined.

Section Statuses.
Variable ticks : Z.

(** [duration_cast<seconds>], which rounds towards zero. *)
Definition seconds (time : Z) : Z := Z.quot time ticks.

Definition error_at (info : nat) : C ErrorInfo := o <- load info ;; match o with ObErrorInfo e => ret e | _ => undefined end.

Definition LDDataSourceStatus_ErrorInfo_GetKind (info : nat) : C Z := e <- error_at info ;; ret (error_kind_code (error_kind_ e)).
Definition LDDataSourceStatus_ErrorInfo_StatusCode (info : nat) : C Z := e <- error_at info ;; ret (error_status_code_ e).
Definition LDDataSourceStatus_ErrorInfo_Message (info : nat) : C string := e <- error_at info ;; ret (from_c_str (error_message_ e)).
Definition LDDataSourceStatus_ErrorInfo_Time (info : nat) : C Z := e <- error_at info ;; ret (seconds (error_time_ e)).
Definition LDDataSourceStatus_ErrorInfo_Free (info : option nat) : C unit :=
  match info with None => ret () | Some a => error_at a ;;; free a end.

Section Sdk.
Context {S : Type} `{!StatusObject S}.
Implicit Types (status : nat) (m : StatusManager S).

Definition status_at status : C (DataSourceStatus S) := o <- load status ;; match status_of o with Some s => ret s | None => undefined end.

Definition GetState status : C Z := s <- status_at status ;; ret (state_code (status_state s)).
Definition GetLastError status : C (option nat) :=
  s <- status_at status ;;
  match status_last_error s with
  | None => ret None
  | Some e => a <- new (ObErrorInfo (mkErrorInfo (error_kind_ e) (error_status_code_ e) (error_message_ e) (error_time_ e))) ;; ret (Some a)
  end.
Definition StateSince status : C Z := s <- status_at status ;; ret (seconds (status_since s)).
Definition DataSourceStatus_Status m : C nat := new (status_object (Status m)).
Definition Status_Free (status : option nat) : C unit :=
  match status with None => ret () | Some a => status_at a ;;; free a end.
End Sdk.

Definition LDServerDataSourceStatus_GetState := GetState (S := ServerState.t).
Definition LDServerDataSourceStatus_GetLastError := GetLastError (S := ServerState.t).
Definition LDServerDataSourceStatus_StateSince := StateSince (S := ServerState.t).
Definition LDServerSDK_DataSourceStatus_Status := DataSourceStatus_Status (S := ServerState.t).
Definition LDServerDataSourceStatus_Free := Status_Free (S := ServerState.t).
Definition LDDataSourceStatus_GetState := GetState (S := ClientState.t).
Definition LDDataSourceStatus_GetLastError := GetLastError (S := ClientState.t).
Definition LDDataSourceStatus_StateSince := StateSince (S := ClientState.t).
Definition LDClientSDK_DataSourceStatus_Status := DataSourceStatus_Status (S := ClientState.t).
Definition LDDataSourceStatus_Free := Status_Free (S := ClientState.t).

(** *** Reading a status *)

(** A program that asks for the status, reads all of it and frees what it was given. *)
Definition read_error (info : nat) : C (Z * Z * string * Z) :=
  kind <- LDDataSourceStatus_ErrorInfo_GetKind info ;; code <- LDDataSourceStatus_ErrorInfo_StatusCode info ;;
  message <- LDDataSourceStatus_ErrorInfo_Message info ;; time <- LDDataSourceStatus_ErrorInfo_Time info ;;
  LDDataSourceStatus_ErrorInfo_Free (Some info) ;;; ret (kind, code, message, time).
Definition read_status {S} `{!StatusObject S} (m : StatusManager S) : C (Z * Z * option (Z * Z * string * Z)) :=
  status <- DataSourceStatus_Status m ;; state <- GetState status ;; since <- StateSince status ;; info <- GetLastError status ;;
  Status_Free (Some status) ;;;
  match info with Some a => e <- read_error a ;; ret (state, since, Some e) | None => ret (state, since, None) end.

Definition error_read (e : ErrorInfo) : Z * Z * string * Z :=
  (error_kind_code (error_kind_ e), error_status_code_ e, from_c_str (error_message_ e), seconds (error_time_ e)).

Lemma status_at_new {S} `{!StatusObject S} (s : DataSourceStatus S) a h :
  h !! a = Some (status_object s) → status_at a h = Some (s, h).
Proof. intros Ha. unfold status_at, bind, load. by rewrite Ha, status_of_object. Qed.

Lemma read_error_ok e a h : h !! a = None → read_error a (<[a := ObErrorInfo e]> h) = Some (error_read e, h).
Proof.
  intros Ha. set (h1 := <[a := ObErrorInfo e]> h). assert (error_at a h1 = Some (e, h1)) as He by (unfold error_at, bind, load, h1; by rewrite lookup_insert_eq).
  unfold read_error. do 4 (eapply bind_ok; [eapply bind_ok; [exact He|reflexivity]|]).
  eapply bind_ok; [eapply bind_ok; [exact He|unfold free, h1; by rewrite lookup_insert_eq]|]. by rewrite delete_insert_id by done.
Qed.

(** A status is read as it is, and outlives the error that was read of it; nothing is left on the heap. *)
Theorem c_status_read {S} `{!StatusObject S} (m : StatusManager S) h :
  read_status m h = Some ((state_code (sm_state_ m), seconds (state_since_ m), error_read <$> last_error_ m), h).
Proof.
  unfold read_status. destruct (new_makes (status_object (Status m)) h) as (a & Ha & Hnew). eapply bind_ok; [exact Hnew|]. cbn [id].
  set (h1 := <[a := status_object (Status m)]> h). assert (status_at a h1 = Some (Status m, h1)) as Hs by (apply status_at_new, lookup_insert_eq).
  eapply bind_ok; [eapply bind_ok; [exact Hs|reflexivity]|]. eapply bind_ok; [eapply bind_ok; [exact Hs|reflexivity]|].
  destruct (last_error_ m) as [e|] eqn:He.
  - destruct (new_makes (ObErrorInfo e) h1) as (b & Hb & Hinfo).
    eapply bind_ok; [eapply bind_ok; [exact Hs|unfold Status; cbn [status_last_error]; rewrite He; eapply bind_ok; [destruct e; exact Hinfo|reflexivity]]|].
    assert (a ≠ b) as Hne by (intros ->; unfold h1 in Hb; by rewrite lookup_insert_eq in Hb).
    cbn [id fmap option_fmap option_map].
    eapply bind_ok; [eapply bind_ok; [apply (status_at_new (Status m)); unfold h1; by rewrite lookup_insert_ne, lookup_insert_eq by done|]|].
    + unfold free, h1. by rewrite lookup_insert_ne, lookup_insert_eq by done.
    + rewrite delete_insert_ne by done. unfold h1. rewrite delete_insert_id by done.
      eapply bind_ok; [apply read_error_ok|]; [|done]. rewrite <- (delete_insert_id h a (status_object (Status m))) by done.
      by rewrite lookup_delete_ne by done.
  - eapply bind_ok; [eapply bind_ok; [exact Hs|unfold Status; cbn [status_last_error]; rewrite He; reflexivity]|].
    eapply bind_ok; [eapply bind_ok; [exact Hs|unfold free, h1; by rewrite lookup_insert_eq]|]. unfold h1. rewrite delete_insert_id by done. done.
Qed.
End Statuses.

(** ** Listeners *)

(** The struct of a listener: the callback and the pointer it is given, unless null. *)
Record Listener := mkListener { StatusChanged : option nat; UserData : option nat }.

Definition LDServerDataSourceStatusListener_Init : Listener := mkListener None None.
Definition LDDataSourceStatusListener_Init : Listener := mkListener None None.

Section Listeners.
Context {S : Type} `{!SourceState S}.

(** A connected callback, and a call of one: it is given the status and its pointer. *)
Record Slot := mkSlot { slot_id : nat; slot_callback : nat; slot_data : option nat }.
Record StatusCall := mkCall { call_slot : Slot; call_status : DataSourceStatus S }.

(** The status of an SDK with its signal: the slots in the order they were connected, and the calls made. *)
Record Signalled := mkSignalled {
  sg_status : StatusManager S;
  sg_slots : list Slot;
  sg_connections : nat;
  sg_calls : list StatusCall;
}.
Implicit Types (k : Signalled) (h : Heap).

Definition new_signalled (now : Z) : Signalled := mkSignalled (new_status_manager now) [] 0 [].

Definition signal k (status : DataSourceStatus S) : Signalled :=
  mkSignalled (sg_status k) (sg_slots k) (sg_connections k) (sg_calls k ++ ((λ s, mkCall s status) <$> sg_slots k)).

(** An operation on the status, which signals what it broadcasts. *)
Definition signal_step (op : StatusOp S) (now : Z) k : Signalled :=
  let m := status_step op now (sg_status k) in
  foldl signal (mkSignalled m (sg_slots k) (sg_connections k) (sg_calls k)) (drop (length (broadcasts_ (sg_status k))) (broadcasts_ m)).

(** [OnDataSourceStatusChange]: the connection, if the callback is not null. *)
Definition OnStatusChange (listener : Listener) k : C (option nat * Signalled) :=
  match StatusChanged listener with
  | None => ret (None, k)
  | Some callback =>
      let id := sg_connections k in
      a <- new (ObConnection id) ;;
      ret (Some a, mkSignalled (sg_status k) (sg_slots k ++ [mkSlot id callback (UserData listener)]) (Datatypes.S id) (sg_calls k))
  end.

Definition connection_at (connection : nat) : C nat := o <- load connection ;; match o with ObConnection id => ret id | _ => undefined end.

Definition LDListenerConnection_Disconnect (connection : nat) k : C Signalled :=
  id <- connection_at connection ;;
  ret (mkSignalled (sg_status k) (base.filter (λ s, slot_id s ≠ id) (sg_slots k)) (sg_connections k) (sg_calls k)).

(** Freeing a connection does not disconnect it. *)
Definition LDListenerConnection_Free (connection : option nat) : C unit :=
  match connection with None => ret () | Some a => connection_at a ;;; free a end.

(** What a program and the data source do, in any order. *)
Inductive SignalOp :=
| SoStatus (op : StatusOp S) (now : Z)
| SoConnect (listener : Listener)
| SoDisconnect (connection : nat)
| SoFree (connection : nat).

Definition signal_op (op : SignalOp) k : C Signalled :=
  match op with
  | SoStatus op now => ret (signal_step op now k)
  | SoConnect listener => r <- OnStatusChange listener k ;; ret r.2
  | SoDisconnect connection => LDListenerConnection_Disconnect connection k
  | SoFree connection => LDListenerConnection_Free (Some connection) ;;; ret k
  end.

Fixpoint signal_ops (ops : list SignalOp) k : C Signalled :=
  match ops with [] => ret k | op :: ops => k <- signal_op op k ;; signal_ops ops k end.

(** *** What a listener is told *)

Definition calls_of (id : nat) k : list (DataSourceStatus S) := call_status <$> base.filter (λ c, slot_id (call_slot c) = id) (sg_calls k).

(** Connections are numbered, and no two are the same. *)
Record SlotsOk k h : Prop := {
  ids_known : Forall (λ s, slot_id s < sg_connections k)%nat (sg_slots k);
  ids_unique : NoDup (slot_id <$> sg_slots k);
  calls_known : Forall (λ c, slot_id (call_slot c) < sg_connections k)%nat (sg_calls k);
  connections_known : ∀ a id, h !! a = Some (ObConnection id) → (id < sg_connections k)%nat;
  connections_unique : ∀ a b id, h !! a = Some (ObConnection id) → h !! b = Some (ObConnection id) → a = b;
}.

Lemma status_step_broadcasts (op : StatusOp S) now (m : StatusManager S) : ∃ new, broadcasts_ (status_step op now m) = broadcasts_ m ++ new.
Proof.
  assert (∀ state, broadcasts_ (UpdateState state now m).1 = broadcasts_ m) as Hu by (intros state; unfold UpdateState; by destruct (negb _)).
  destruct op as [st|st code msg|st kind msg|kind msg|code msg]; unfold status_step, SetState, SetStateCode, SetStateKind.
  - pose proof (Hu st) as Hst. destruct (UpdateState st now m) as [m' []]; cbn in Hst; rewrite <- Hst; [by eexists|]. exists []. by rewrite app_nil_r.
  - eexists. unfold broadcast, set_last_error. cbn [broadcasts_]. by rewrite Hu.
  - eexists. unfold broadcast, set_last_error. cbn [broadcasts_]. by rewrite Hu.
  - by eexists.
  - by eexists.
Qed.

Lemma signals_kept statuses k :
  let k' := foldl signal k statuses in
  sg_status k' = sg_status k ∧ sg_slots k' = sg_slots k ∧ sg_connections k' = sg_connections k ∧
  sg_calls k' = sg_calls k ++ (statuses ≫= λ s, (λ slot, mkCall slot s) <$> sg_slots k).
Proof.
  revert k. induction statuses as [|s statuses IH]; intros k; cbn; [by rewrite app_nil_r|].
  destruct (IH (signal k s)) as (-> & -> & -> & ->). cbn. by rewrite <- app_assoc.
Qed.

Lemma filter_calls id slots s :
  NoDup (slot_id <$> slots) →
  call_status <$> base.filter (λ c, slot_id (call_slot c) = id) ((λ slot, mkCall slot s) <$> slots) =
  if decide (id ∈ slot_id <$> slots) then [s] else [].
Proof.
  induction slots as [|slot slots IH]; cbn [fmap list_fmap]; [done|]. intros [Hn Hnd]%NoDup_cons. specialize (IH Hnd). rewrite filter_cons. cbn [call_slot].
  destruct (decide (slot_id slot = id)) as [<-|Hne].
  - cbn [fmap list_fmap call_status]. rewrite IH, decide_False by done. by rewrite decide_True by left.
  - rewrite IH. destruct (decide (id ∈ slot_id <$> slots)) as [Hin|Hin]; [by rewrite decide_True by (by right)|].
    rewrite decide_False; [done|]. intros [->|H]%elem_of_cons; done.
Qed.

Lemma calls_signalled id statuses k :
  NoDup (slot_id <$> sg_slots k) →
  calls_of id (foldl signal k statuses) = calls_of id k ++ (if decide (id ∈ slot_id <$> sg_slots k) then statuses else []).
Proof.
  intros Hnd. unfold calls_of. destruct (signals_kept statuses k) as (_ & _ & _ & ->). rewrite filter_app, fmap_app. f_equal.
  induction statuses as [|s statuses IH]; cbn; [by case_decide|]. rewrite filter_app, fmap_app, IH, filter_calls by done. by case_decide.
Qed.

(** What an operation does: it keeps the connections apart; the calls of a slot that is connected are what is
    broadcast, and others have none; a slot is only disconnected by its connection; connections are new or old. *)
Record OpOk (op : SignalOp) (id : nat) k h k' h' : Prop := {
  op_slots : SlotsOk k' h';
  op_connections : (sg_connections k ≤ sg_connections k')%nat;
  op_calls : ∃ new, broadcasts_ (sg_status k') = broadcasts_ (sg_status k) ++ new ∧
    calls_of id k' = calls_of id k ++ (if decide (id ∈ slot_id <$> sg_slots k) then new else []);
  op_gone : (id < sg_connections k)%nat → id ∈ slot_id <$> sg_slots k' → id ∈ slot_id <$> sg_slots k;
  op_kept : (∀ a, op = SoDisconnect a → h !! a ≠ Some (ObConnection id)) → id ∈ slot_id <$> sg_slots k → id ∈ slot_id <$> sg_slots k';
  op_handles : ∀ a, (id < sg_connections k)%nat → h' !! a = Some (ObConnection id) → h !! a = Some (ObConnection id);
}.

Lemma nothing_told id k k' :
  broadcasts_ (sg_status k') = broadcasts_ (sg_status k) → sg_calls k' = sg_calls k →
  ∃ new, broadcasts_ (sg_status k') = broadcasts_ (sg_status k) ++ new ∧
    calls_of id k' = calls_of id k ++ (if decide (id ∈ slot_id <$> sg_slots k) then new else []).
Proof. intros Hb Hc. exists []. rewrite app_nil_r. split; [done|]. unfold calls_of. rewrite Hc. case_decide; by rewrite app_nil_r. Qed.

Lemma status_ok op now id k h : SlotsOk k h → OpOk (SoStatus op now) id k h (signal_step op now k) h.
Proof.
  intros [H1 H2 H3 H4 H5]. unfold signal_step. destruct (status_step_broadcasts op now (sg_status k)) as [new Hnew].
  rewrite Hnew, drop_app_length. set (k0 := mkSignalled _ _ _ _). destruct (signals_kept new k0) as (E1 & E2 & E3 & E4).
  split; [split|..]; rewrite ?E1, ?E2, ?E3; try done.
  - rewrite E4. apply Forall_app. split; [done|]. apply Forall_forall. intros c (s & Hc & _)%list_elem_of_bind.
    apply list_elem_of_fmap in Hc as (slot & -> & Hs). by rewrite Forall_forall in H1; apply H1.
  - exists new. split; [done|]. exact (calls_signalled id new k0 H2).
Qed.

Lemma connect_ok callback data id k h :
  SlotsOk k h →
  OpOk (SoConnect (mkListener (Some callback) data)) id k h
    (mkSignalled (sg_status k) (sg_slots k ++ [mkSlot (sg_connections k) callback data]) (Datatypes.S (sg_connections k)) (sg_calls k))
    (<[fresh (dom h) := ObConnection (sg_connections k)]> h).
Proof.
  intros [H1 H2 H3 H4 H5]. set (n := sg_connections k). set (h1 := <[_ := _]> h).
  assert (∀ b i, h1 !! b = Some (ObConnection i) → i = n ∧ b = fresh (dom h) ∨ h !! b = Some (ObConnection i)) as Hb.
  { intros b i Hbi. unfold h1 in Hbi. apply lookup_insert_Some in Hbi as [[<- [= <-]]|[_ ?]]; auto. }
  split; cbn; [split; cbn|lia|by apply nothing_told|..].
  - apply Forall_app. split; [|by repeat constructor; cbn; lia]. eapply Forall_impl; [exact H1|]. cbn. lia.
  - rewrite fmap_app. apply NoDup_app. split_and!; [done| |apply NoDup_singleton]. intros i Hi ->%list_elem_of_singleton.
    apply list_elem_of_fmap in Hi as (s & Es & Hs). rewrite Forall_forall in H1. apply H1 in Hs. cbn in Es. lia.
  - eapply Forall_impl; [exact H3|]. cbn. lia.
  - intros b i [[-> _]|Hbi%H4]%Hb; lia.
  - intros b b' i Hi Hi'. apply Hb in Hi as [[-> ->]|Hi]; apply Hb in Hi' as [[E ->]|Hi']; [done| | |by eapply H5].
    + apply H4 in Hi'. lia.
    + apply H4 in Hi. lia.
  - intros Hid. rewrite fmap_app, elem_of_app. cbn. rewrite list_elem_of_singleton. intros [?| ->]; [done|lia].
  - intros _ Hin. rewrite fmap_app. apply elem_of_app. by left.
  - intros b Hid [[-> _]|?]%Hb; [lia|done].
Qed.

Lemma disconnect_ok a i id k h :
  SlotsOk k h → h !! a = Some (ObConnection i) →
  OpOk (SoDisconnect a) id k h (mkSignalled (sg_status k) (base.filter (λ s, slot_id s ≠ i) (sg_slots k)) (sg_connections k) (sg_calls k)) h.
Proof.
  intros [H1 H2 H3 H4 H5] Ha. split; cbn; [split; cbn; try done|lia|by apply nothing_told|..|done].
  - apply Forall_forall. intros s [_ Hs]%list_elem_of_filter. rewrite Forall_forall in H1. by apply H1.
  - eapply sublist_NoDup; [exact H2|exact (fmap_sublist _ _ _ (sublist_filter _ _))].
  - intros _ (s & -> & [_ Hs]%list_elem_of_filter)%list_elem_of_fmap. apply list_elem_of_fmap. by exists s.
  - intros Hne (s & -> & Hs)%list_elem_of_fmap. specialize (Hne a eq_refl). apply list_elem_of_fmap. exists s. split; [done|].
    apply list_elem_of_filter. split; [congruence|done].
Qed.

Lemma connection_free_ok a id k h : SlotsOk k h → OpOk (SoFree a) id k h k (delete a h).
Proof.
  intros [H1 H2 H3 H4 H5].
  assert (∀ b i, delete a h !! b = Some (ObConnection i) → h !! b = Some (ObConnection i)) as Hb by (intros b i [_ ?]%lookup_delete_Some; done).
  split; [split|done|by apply nothing_told|done|done|]; eauto.
Qed.

Lemma connection_at_inv a h id h' : connection_at a h = Some (id, h') → h' = h ∧ h !! a = Some (ObConnection id).
Proof.
  intros (o & h1 & Ho & Hc)%bind_inv. unfold load in Ho. destruct (h !! a) as [o'|] eqn:Ha; [|done]. injection Ho as <- <-.
  by destruct o'; try done; injection Hc as <- <-.
Qed.

Lemma signal_op_ok op k h k' h' id : SlotsOk k h → signal_op op k h = Some (k', h') → OpOk op id k h k' h'.
Proof.
  intros Hok Hop. destruct op as [op now|[[callback|] data]|a|a]; cbn in Hop.
  - injection Hop as <- <-. by apply status_ok.
  - injection Hop as <- <-. by apply connect_ok.
  - injection Hop as <- <-. split; [done|done|by apply nothing_told|done|done|done].
  - unfold LDListenerConnection_Disconnect in Hop. apply bind_inv in Hop as (i & h1 & [-> Ha]%connection_at_inv & Hop).
    injection Hop as <- <-. by apply disconnect_ok.
  - apply bind_inv in Hop as ([] & h1 & Hf & Hop). apply bind_inv in Hf as (i & h2 & [-> Ha]%connection_at_inv & Hf).
    unfold free in Hf. rewrite Ha in Hf. injection Hf as <-. injection Hop as <- <-. by apply connection_free_ok.
Qed.

Lemma signal_ops_ok ops k h k' h' : SlotsOk k h → signal_ops ops k h = Some (k', h') → SlotsOk k' h'.
Proof.
  revert k h. induction ops as [|op ops IH]; intros k h Hok; cbn [signal_ops]; [by intros [= <- <-]|]. unfold bind.
  destruct (signal_op op k h) as [[k1 h1]|] eqn:Hop; [|done]. apply IH. by destruct (signal_op_ok _ _ _ _ _ 0 Hok Hop).
Qed.

(** The calls of a slot: all that is broadcast, if it is connected and stays so; nothing, if it is not. *)
Lemma signal_ops_calls ops id a k h k' h' :
  SlotsOk k h → (id < sg_connections k)%nat → (∀ b, h !! b = Some (ObConnection id) → b = a) →
  (id ∈ slot_id <$> sg_slots k → SoDisconnect a ∉ ops) → signal_ops ops k h = Some (k', h') →
  ∃ new, broadcasts_ (sg_status k') = broadcasts_ (sg_status k) ++ new ∧
    calls_of id k' = calls_of id k ++ (if decide (id ∈ slot_id <$> sg_slots k) then new else []).
Proof.
  revert k h. induction ops as [|op ops IH]; intros k h Hok Hid Ha Hn; cbn [signal_ops]; [intros [= <- <-]; by apply nothing_told|].
  unfold bind. destruct (signal_op op k h) as [[k1 h1]|] eqn:Hop; [|done]. intros Hops.
  destruct (signal_op_ok _ _ _ _ _ id Hok Hop) as [Hok1 Hc1 (new1 & Hb1 & Hn1) Hgone Hkept Hh1].
  assert (id ∈ slot_id <$> sg_slots k1 ↔ id ∈ slot_id <$> sg_slots k) as Hiff.
  { split; [by apply Hgone|]. intros Hin. apply Hkept; [|done]. intros b -> Hb. apply Ha in Hb as ->. by apply Hn; [|left]. }
  destruct (IH k1 h1 Hok1) as (new2 & Hb2 & Hn2); [lia| | |done|].
  { intros b Hb. by apply Ha, Hh1. }
  { rewrite Hiff. intros Hin Hd. by apply Hn; [|right]. }
  exists (new1 ++ new2). rewrite Hb2, Hb1, app_assoc. split; [done|]. rewrite Hn2, Hn1, <- app_assoc. f_equal. repeat case_decide; tauto || done.
Qed.

Lemma new_signalled_ok now : SlotsOk (new_signalled now) ∅.
Proof. split; cbn; try constructor; intros; by rewrite lookup_empty in *. Qed.

Implicit Types (before after : list SignalOp).

(** A listener that is connected is told of every status that is broadcast until it is disconnected, in order
    and once, whatever happens to other listeners, and also if its connection is freed. *)
Theorem c_listener_told t0 before after callback data k h a k1 h1 k2 h2 :
  signal_ops before (new_signalled t0) ∅ = Some (k, h) →
  OnStatusChange (mkListener (Some callback) data) k h = Some ((Some a, k1), h1) →
  signal_ops after k1 h1 = Some (k2, h2) → SoDisconnect a ∉ after →
  calls_of (sg_connections k) k2 = drop (length (broadcasts_ (sg_status k))) (broadcasts_ (sg_status k2)).
Proof.
  intros Hk%(signal_ops_ok _ _ _ _ _ (new_signalled_ok t0)) Hc Hafter Hn. injection Hc as <- <- <-.
  destruct (connect_ok callback data 0 k h Hk) as [Hok1 _ _ _ _ _]. destruct Hk as [_ _ H3 H4 _].
  eapply (signal_ops_calls _ (sg_connections k)) in Hafter as (new & Hb & ->); [|exact Hok1|cbn; lia| |by intros _].
  - cbn in Hb. rewrite Hb, drop_app_length, decide_True by (cbn; rewrite fmap_app; apply elem_of_app; right; by left).
    replace (calls_of _ _) with (@nil (DataSourceStatus S)); [done|]. unfold calls_of. cbn.
    clear - H3. induction H3 as [|c l Hc _ IH]; [done|]. by rewrite filter_cons_False by (cbn in *; lia).
  - intros b Hb. apply lookup_insert_Some in Hb as [[<- _]|[_ Hb%H4]]; [done|lia].
Qed.

(** After it is disconnected it is told nothing. *)
Theorem c_listener_disconnected t0 before after k h a id k1 h1 k2 h2 :
  signal_ops before (new_signalled t0) ∅ = Some (k, h) → h !! a = Some (ObConnection id) →
  LDListenerConnection_Disconnect a k h = Some (k1, h1) → signal_ops after k1 h1 = Some (k2, h2) → calls_of id k2 = calls_of id k.
Proof.
  intros Hk%(signal_ops_ok _ _ _ _ _ (new_signalled_ok t0)) Ha (i & h0 & [-> Ha']%connection_at_inv & Hd)%bind_inv Hafter.
  rewrite Ha in Ha'. injection Ha' as <-. injection Hd as <- <-.
  destruct (disconnect_ok a id 0 k h Hk Ha) as [Hok1 _ _ _ _ _]. destruct Hk as [_ _ _ H4 H5].
  assert (id ∉ slot_id <$> base.filter (λ s, slot_id s ≠ id) (sg_slots k)) as Hnot.
  { intros (s & -> & [Hne _]%list_elem_of_filter)%list_elem_of_fmap. done. }
  eapply (signal_ops_calls _ id a) in Hafter as (new & Hb & ->); [|exact Hok1|cbn; by eapply H4|intros b Hb; by eapply H5|done].
  rewrite decide_False by done. by rewrite app_nil_r.
Qed.
End Listeners.

Definition LDServerSDK_DataSourceStatus_OnStatusChange := OnStatusChange (S := ServerState.t).
Definition LDClientSDK_DataSourceStatus_OnStatusChange := OnStatusChange (S := ClientState.t).

(** Three statuses; the listener is connected before the second, its connection is freed after it, and it is told of
    the second and the third. *)
Example freed_listener_told :
  (λ r, status_state <$> calls_of 0 r.1) <$>
  signal_ops [SoStatus (OpState ServerState.kValid) 1; SoConnect (mkListener (Some 7%nat) None); SoStatus (OpState ServerState.kInterrupted) 2;
              SoFree 0; SoStatus (OpState ServerState.kOff) 3] (new_signalled 0) ∅ = Some [ServerState.kInterrupted; ServerState.kOff].
Proof. by vm_compute. Qed.

(** ** Listeners of flags *)

Record FlagListener := mkFlagListener { FlagChanged : option nat; FlagUserData : option nat }.

Definition LDFlagListener_Init : FlagListener := mkFlagListener None None.

(** The updater of [ClientFlags], whose handlers are numbers, with what the handlers made for C call. *)
Record FlagSignals := mkFlagSignals { fs_updater : FlagUpdater; fs_handlers : gmap nat (nat * option nat) }.

(** What the callback is given: the key, the new and the old value, whether the flag was deleted, and the pointer. *)
Record FlagCall := mkFlagCall {
  fc_callback : nat;
  fc_key : string;
  fc_new : Value;
  fc_old : Value;
  fc_deleted : bool;
  fc_data : option nat;
}.

Definition flag_call (event : FlagValueChangeEvent) (handler : nat * option nat) : FlagCall :=
  mkFlagCall handler.1 (from_c_str (flag_name_ event)) (new_value_ event) (old_value_ event) (deleted_ event) handler.2.

(** The calls that have been made. *)
Definition flag_calls (s : FlagSignals) : list FlagCall :=
  omap (λ n, flag_call n.2 <$> fs_handlers s !! n.1) (notified (fs_updater s)).

(** The handler is new. *)
Definition LDClientSDK_FlagNotifier_OnFlagChange (flag_key : string) (listener : FlagListener) (s : FlagSignals) : C (option nat * FlagSignals) :=
  match FlagChanged listener with
  | None => ret (None, s)
  | Some callback =>
      let key := from_c_str flag_key in
      let handler := fresh (dom (fs_handlers s)) in
      a <- new (ObFlagConnection key handler) ;;
      ret (Some a, mkFlagSignals (OnFlagChange key handler (fs_updater s)) (<[handler := (callback, FlagUserData listener)]> (fs_handlers s)))
  end.

(** [LDListenerConnection_Disconnect] of such a connection. *)
Definition flag_Disconnect (connection : nat) (s : FlagSignals) : C FlagSignals :=
  o <- load connection ;;
  match o with
  | ObFlagConnection key handler => ret (mkFlagSignals (Disconnect key handler (fs_updater s)) (fs_handlers s))
  | _ => undefined
  end.

Definition flag_dispatch (event : FlagValueChangeEvent) (s : FlagSignals) : FlagSignals :=
  mkFlagSignals (DispatchEvent (fs_updater s) event) (fs_handlers s).

(** Handlers are those that were made. *)
Definition handlers_known (s : FlagSignals) : Prop :=
  (∀ key hs, signals_ (fs_updater s) !! key = Some hs → Forall (λ n, n ∈ dom (fs_handlers s)) hs) ∧
  Forall (λ n, n.1 ∈ dom (fs_handlers s)) (notified (fs_updater s)).

Lemma dispatch_notified u event :
  notified (DispatchEvent u event) = notified u ++ ((λ h, (h, event)) <$> default [] (signals_ u !! flag_name_ event)).
Proof. unfold DispatchEvent. destruct (signals_ u !! flag_name_ event) as [[|h hs]|]; cbn; by rewrite ?app_nil_r. Qed.

(** A new handler does not change the calls of the others. *)
Lemma calls_fresh (handlers : gmap nat (nat * option nat)) n x (l : list (nat * FlagValueChangeEvent)) :
  n ∉ dom handlers → Forall (λ e, e.1 ∈ dom handlers) l →
  omap (λ e, flag_call e.2 <$> <[n := x]> handlers !! e.1) l = omap (λ e, flag_call e.2 <$> handlers !! e.1) l.
Proof.
  intros Hn Hl. induction Hl as [|e l He _ IH]; [done|]. cbn. rewrite IH. by rewrite lookup_insert_ne by (intros ->; done).
Qed.

(** A change of the flag is told to the listener, after those that listened before; a change of another flag is
    not, nor any change after it is disconnected. *)
Theorem c_flag_listener flag_key callback data s (h h1 : Heap) a s1 event :
  handlers_known s →
  LDClientSDK_FlagNotifier_OnFlagChange flag_key (mkFlagListener (Some callback) data) s h = Some ((Some a, s1), h1) →
  flag_calls (flag_dispatch event s1) =
    flag_calls (flag_dispatch event s) ++ (if decide (flag_name_ event = from_c_str flag_key) then [flag_call event (callback, data)] else []) ∧
  ∃ s2, flag_Disconnect a s1 h1 = Some (s2, h1) ∧ flag_calls (flag_dispatch event s2) = flag_calls (flag_dispatch event s).
Proof.
  intros [Hs Hn] Hc. injection Hc as <- <- <-. set (f := fresh (dom (fs_handlers s))). set (key := from_c_str flag_key).
  assert (f ∉ dom (fs_handlers s)) as Hf by apply is_fresh.
  set (before := default [] (signals_ (fs_updater s) !! flag_name_ event)).
  assert (Forall (λ n, n ∈ dom (fs_handlers s)) before) as Hb.
  { unfold before. destruct (signals_ (fs_updater s) !! flag_name_ event) as [hs|] eqn:E; [by eapply Hs|by constructor]. }
  assert (Forall (λ e : nat * FlagValueChangeEvent, e.1 ∈ dom (fs_handlers s)) (notified (fs_updater s) ++ ((λ h, (h, event)) <$> before))) as Hall.
  { apply Forall_app. split; [done|]. by apply Forall_fmap. }
  split; [|eexists; split; [unfold flag_Disconnect; eapply bind_ok; [unfold load; by rewrite lookup_insert_eq|reflexivity]|]];
    unfold flag_calls, flag_dispatch; cbn [fs_updater fs_handlers]; rewrite !dispatch_notified; fold before; unfold Disconnect, OnFlagChange; cbn [signals_ notified].
  - destruct (decide (flag_name_ event = key)) as [E|E].
    + rewrite E, lookup_insert_eq. cbn [default from_option id]. rewrite <- E. fold before. rewrite fmap_app, app_assoc, omap_app. f_equal; [by apply calls_fresh|].
      cbn. by rewrite lookup_insert_eq.
    + rewrite lookup_insert_ne by done. fold before. rewrite app_nil_r. by apply calls_fresh.
  - enough (default [] (alter (base.filter (λ h, h ≠ f)) key (<[key := default [] (signals_ (fs_updater s) !! key) ++ [f]]> (signals_ (fs_updater s))) !! flag_name_ event) = before) as ->
      by by apply calls_fresh.
    destruct (decide (flag_name_ event = key)) as [E|E]; [|by rewrite lookup_alter_ne, lookup_insert_ne by done].
    rewrite E, lookup_alter_eq, lookup_insert_eq. cbn [fmap option_fmap option_map default from_option id]. rewrite <- E. fold before.
    rewrite filter_app, filter_cons_False, filter_nil, app_nil_r by naive_solver.
    clear - Hb Hf. induction Hb as [|n l Hn _ IH]; [done|]. rewrite filter_cons_True by (intros ->; done). by rewrite IH.
Qed.

(** ** Making and starting clients

    [LDServerSDK_New], [LDServerSDK_Start] and [LDServerSDK_Initialized] of the server, and [LDClientSDK_Start],
    [LDClientSDK_Identify] and [LDClientSDK_Initialized] of the client, over [ServerStart] and [ClientLifecycle].

    A call that waits for a future waits while the other threads work: for the server, that is a list of what its
    stream brings; for the client, any tasks of its thread. *)

From S2P Require Import Prelude OrderedMap DataModel Stores Dependencies Notifier Externals Json JsonModel Persistence Contexts ClientFlags ClientCache ClientSource ClientSide ClientLifecycle.
From S2P Require Import StatusManager SseClient HttpRequester BackgroundSync Logging Configurations StreamStart ServerStart CConfigObjects CBindings.

Definition LD_NONBLOCKING : Z := 0.

(** What a call returns and what it writes to [out_succeeded], if that is not null, when the future has the
    value at the end of the wait. *)
Definition wait_result (out_succeeded : bool) (value : option bool) : bool * option bool :=
  match value with
  | Some b => (true, if out_succeeded then Some b else None)
  | None => (false, None)
  end.

(** *** The server *)

Record MadeServer := mkMade {
  made_properties : HttpProperties;
  made_system : @MadeSystem nat;
  made_events : option (ServiceEndpoints * Events);
}.

(** The configuration is consumed. *)
Definition LDServerSDK_New (version instance_id : string) (config : nat) : C MadeServer :=
  o <- load config ;;
  match o with
  | ObConfig (CoServerConfig c) =>
      free config ;;; ret (mkMade (server_properties version instance_id c) (MakeDataSystem c) (MakeEventProcessor c))
  | _ => undefined
  end.

Lemma c_offline_client version instance_id (b : ServerBuilder) c a (h : Heap) :
  cb_offline b = true → ConfigBuilder_Build b = Val c → h !! a = None →
  LDServerSDK_New version instance_id a (<[a := ObConfig (CoServerConfig c)]> h) =
  Some (mkMade (server_properties version instance_id c) MadeOffline None, h).
Proof.
  intros Hb Hc Ha. destruct (offline_is_silent b c Hb Hc) as [Hs He].
  unfold LDServerSDK_New, bind, load, free. rewrite !lookup_insert_eq, delete_insert_id by done. unfold ret. by rewrite Hs, He.
Qed.

Section Server.
Context `{B : BoostJson} `{J : JsonText} `{!HashOrder} `{U : BoostUrl} `{W : Web} `{X : Externals} (user_agent : string).
Abbreviation StreamServer := (@Server (SyncState (ChangeNotifier MemoryStore))).
Implicit Types (sv : StreamServer) (events : list StreamEvent).

Definition stream_step (e : StreamEvent) sv : StreamServer := system_step sy_status sync_Initialized (stream_event e) sv.

Definition future_value (promise : nat) sv : option bool := if decide (promise ∈ sv_resolved sv) then Some true else None.

(** [future.wait_for]: until the future is ready, or until the time is over, which is when the events are. *)
Fixpoint wait_for (promise : nat) events sv : StreamServer :=
  if future_value promise sv then sv
  else match events with [] => sv | e :: events => wait_for promise events (stream_step e sv) end.

Definition LDServerSDK_Start (milliseconds : Z) (out_succeeded : bool) (endpoint : string) (cfg : StreamingConfig) (properties : HttpProperties)
    (now : Z) events sv : (bool * option bool) * StreamServer :=
  let promise := sv_promises sv in
  let sv := ServerStart.StartAsync sy_status sync_Initialized (sync_Initialize user_agent endpoint cfg properties now) sv in
  if milliseconds =? LD_NONBLOCKING then ((false, None), sv)
  else let sv := wait_for promise events sv in (wait_result out_succeeded (future_value promise sv), sv).

Definition LDServerSDK_Initialized sv : bool := BackgroundSync.Initialized (sv_system sv).

Lemma c_started_ok endpoint cfg properties t0 t1 :
  StartOk (ServerStart.StartAsync sy_status sync_Initialized (sync_Initialize user_agent endpoint cfg properties t1) (new_server (new_system t0))).
Proof. unfold ServerStart.StartAsync, system_step. rewrite listeners_wait by done. split; [done|]. intros _. apply stream_start_state. Qed.

Lemma wait_ok promise events sv : StartOk sv → StartOk (wait_for promise events sv).
Proof.
  revert sv. induction events as [|e events IH]; intros sv Hok; cbn; destruct (future_value promise sv); try done.
  apply IH. by apply stream_event_start.
Qed.

Lemma future_initialized sv : StartOk sv → future_value 0 sv = if LDServerSDK_Initialized sv then Some true else None.
Proof.
  intros [Hp _]. unfold future_value, LDServerSDK_Initialized. destruct (BackgroundSync.Initialized _); destruct Hp as [_ ->]; done.
Qed.

(** A call that waits returns whether the client is initialized, and writes nothing but true: a client that
    cannot be initialized is waited for until the time is over. *)
Theorem c_start_waits milliseconds out_succeeded endpoint cfg properties t0 t1 events :
  milliseconds ≠ LD_NONBLOCKING →
  let '(result, sv) := LDServerSDK_Start milliseconds out_succeeded endpoint cfg properties t1 events (new_server (new_system t0)) in
  result = (LDServerSDK_Initialized sv, if LDServerSDK_Initialized sv && out_succeeded then Some true else None).
Proof.
  intros Hm%Z.eqb_neq. unfold LDServerSDK_Start. rewrite Hm. cbn [sv_promises new_server].
  rewrite future_initialized by apply wait_ok, c_started_ok. unfold wait_result. by destruct (LDServerSDK_Initialized _), out_succeeded.
Qed.

(** It returns as soon as the client is initialized, and not before. *)
Lemma wait_over promise events sv :
  ∃ seen rest, events = seen ++ rest ∧ wait_for promise events sv = foldl (λ sv e, stream_step e sv) sv seen ∧
    (future_value promise (wait_for promise events sv) = None → rest = []) ∧
    (∀ before e after, seen = before ++ e :: after → future_value promise (foldl (λ sv e, stream_step e sv) sv before) = None).
Proof.
  revert sv. induction events as [|e events IH]; intros sv; cbn; destruct (future_value promise sv) eqn:E.
  - exists [], []. split_and!; try done. by intros [] ?.
  - exists [], []. split_and!; try done. by intros [] ?.
  - exists [], (e :: events). split_and!; [done|done|congruence|]. by intros [] ?.
  - destruct (IH (stream_step e sv)) as (seen & rest & -> & Hw & Hr & Hb). exists (e :: seen), rest. split_and!; [done|done|done|].
    intros [|e' before] e1 after Hs; injection Hs as <- Hs; [done|]. by apply (Hb before e1 after).
Qed.
End Server.

(** *** The client *)

Section Client.
Context `{X : Externals} `{B : BoostJson} `{J : JsonText} `{!HashOrder} `{!Sha256} `{!StdSort} {P : Type} `{!IPersistence P}.
Implicit Types (c : ClientLifecycle.ClientImpl P) (h : Heap) (result : bool * option bool).

(** What a call that waits for a promise may return, and the client then. *)
Definition client_waited (milliseconds : Z) (out_succeeded : bool) (promise : nat) c c' result : Prop :=
  if milliseconds =? LD_NONBLOCKING then c' = c ∧ result = (false, None)
  else rtc task c c' ∧ result = wait_result out_succeeded (promise_value promise c').

Definition LDClientSDK_Start (milliseconds : Z) (out_succeeded : bool) (now : Z) c c' result : Prop :=
  let '(promise, c) := ClientLifecycle.StartAsync now c in client_waited milliseconds out_succeeded promise c c' result.

(** The context is consumed. *)
Definition identify_context (context : nat) (now : Z) c : C (option (nat * ClientLifecycle.ClientImpl P)) :=
  ctx <- context_at context ;; LDContext_Free context ;;; ret (IdentifyAsync ctx now c).
Definition LDClientSDK_Identify (context : nat) (milliseconds : Z) (out_succeeded : bool) (now : Z) c h c' h' result : Prop :=
  ∃ promise c1, identify_context context now c h = Some (Some (promise, c1), h') ∧ client_waited milliseconds out_succeeded promise c1 c' result.

Definition LDClientSDK_Initialized c : bool := ClientLifecycle.Initialized c.

Lemma context_at_inv context ctx h h' : context_at context h = Some (ctx, h') → h' = h ∧ h !! context = Some (ObContext ctx).
Proof.
  intros (o & h1 & Ho & Hc)%bind_inv. unfold load in Ho. destruct (h !! context) as [o'|] eqn:E; [|done]. injection Ho as <- <-.
  by destruct o'; try done; injection Hc as <- <-.
Qed.

Lemma context_freed context ctx h h1 h2 :
  context_at context h = Some (ctx, h1) → LDContext_Free context h1 = Some ((), h2) → h2 = delete context h.
Proof.
  intros [-> Hc]%context_at_inv (ctx' & h4 & [-> _]%context_at_inv & Hf)%bind_inv. unfold free in Hf. rewrite Hc in Hf. by injection Hf.
Qed.

(** What a call that identifies another context returns for a client that is online: that it is not ready, that
    it is and the data source has become valid, or that it is and the data source has shut down.  The context is
    freed and nothing else. *)
Theorem c_identify_result context milliseconds now c h c' h' result :
  sourced c → LDClientSDK_Identify context milliseconds true now c h c' h' result →
  h' = delete context h ∧
  (result = (false, None) ∨
   ∃ s, s ∈ broadcasts_ (data_status (client_data c')) ∧
     ((result = (true, Some true) ∧ status_state s = ClientState.kValid) ∨ (result = (true, Some false) ∧ status_state s = ClientState.kShutdown))).
Proof.
  intros Hsrc (promise & c1 & Hid & Hw).
  unfold identify_context in Hid. apply bind_inv in Hid as (ctx & h1 & Hctx & Hid). apply bind_inv in Hid as ([] & h2 & Hfree & Hid).
  injection Hid as Hid <-. split; [by eapply context_freed|]. unfold client_waited in Hw. destruct (milliseconds =? LD_NONBLOCKING); [left; apply Hw|].
  destruct Hw as [Ht ->]. destruct (call_kept c promise c1 Hsrc (call_identify ctx now c promise c1 Hid)) as [Hsrc1 Hk].
  destruct (moves_kept promise c1 c' Hsrc1 Hk) as [_ [[_ Hp]|[[_ Hnil] _]]];
    [by apply (rtc_subrel task); [constructor|]| |left; unfold promise_value; by rewrite Hnil].
  unfold wait_result, promise_value. destruct Hp as [[_ ->]|(s & Hs & Hst)]; [by left|right]. rewrite Hs. exists s. split.
  - apply head_Some_elem_of in Hs. apply list_elem_of_filter in Hs as [_ Hs]. apply list_elem_of_lookup in Hs as [i Hi].
    rewrite lookup_drop in Hi. by eapply list_elem_of_lookup_2.
  - cbn [fmap option_fmap option_map]. destruct Hst as [E|E]; rewrite E; [by left|by right].
Qed.
End Client.
