(* ===== verification/Fdv2Polling.v ===== *)
(** * Requests and polling for FDv2

    libs/server-sdk/src/data_systems/fdv2: polling_synchronizer.cpp ([Next], [Close] and when a
    request is made), polling_initializer.cpp ([Run]) and the request that both make
    (fdv2_polling_impl.cpp); streaming_synchronizer.cpp (the URL of each connection).  What a response means is [HandleFDv2PollResponse] of [Fdv2Sources].

    A call of [Next] is a number until its future is resolved.  [WhenAny] resolves with the first
    of its futures, and the continuations run at once; so a call waits for a delay and then for a
    response, and closing resolves every call.  Times are in nanoseconds. *)

From S2P Require Import Prelude OrderedMap DataModel Stores Notifier Externals ReferenceExternals Json JsonModel Persistence Fdv2 StatusManager SourceResults.
From S2P Require Import Fdv2Sources HttpRequester.

(** ** The request *)

(** Boost.URL: a URL with its segments and its parameters. *)
Record SegmentedUrl := mkUrl { su_base : string; su_segments : list string; su_params : list (string * string) }.
Class UrlParts := { parse_url : string → option SegmentedUrl; url_buffer : SegmentedUrl → string; encoded_target : SegmentedUrl → string }.

(** A trailing empty segment is removed before the path is appended. *)
Definition without_trailing (segs : list string) : list string :=
  match last segs with Some s => if is_empty s then removelast segs else segs | None => segs end.

Definition poll_segments (segs : list string) : list string := without_trailing segs ++ ["sdk"; "poll"].

(** The URL of the request; [None] when the base does not parse, and the request is not valid. *)
Definition MakeFDv2PollRequest `{UrlParts, Externals} (polling_base_url : string) (selector : Selector) (filter_key : option string) : option string :=
  match parse_url polling_base_url with
  | None => None
  | Some u =>
      let basis := match selector with Some s => [("basis", selector_state s)] | None => [] end in
      let filter := match filter_key with Some key => if ValidateFilterKey key then [("filter", key)] else [] | None => [] end in
      Some (url_buffer (mkUrl (su_base u) (poll_segments (su_segments u)) (su_params u ++ basis ++ filter)))
  end.

(** With or without a slash at the end, a base URL leads to the same requests. *)
Lemma poll_request_slash `{UrlParts, Externals} base base' u selector filter_key :
  parse_url base = Some u → parse_url base' = Some (mkUrl (su_base u) (su_segments u ++ [EmptyString]) (su_params u)) →
  last (su_segments u) ≠ Some EmptyString →
  MakeFDv2PollRequest base' selector filter_key = MakeFDv2PollRequest base selector filter_key.
Proof.
  intros Hu Hu' Hlast. unfold MakeFDv2PollRequest. rewrite Hu, Hu'. cbn. do 3 f_equal. unfold poll_segments, without_trailing.
  rewrite last_snoc. cbn. rewrite removelast_last.
  destruct (last (su_segments u)) as [s|] eqn:E; [|done]. destruct (is_empty s) eqn:Es; [|done]. destruct Hlast. destruct s; done.
Qed.

(** ** The URL of a stream *)

(** The URL that [EnsureStarted] builds and keeps. *)
Definition stream_base_url (u : SegmentedUrl) : SegmentedUrl :=
  mkUrl (su_base u) (without_trailing (su_segments u) ++ ["sdk"; "stream"]) (su_params u).

(** Boost.URL's [params().set], and what its documentation says: the parameter is there once, with
    its value, and those of other names do not change. *)
Class UrlParams := params_set : string → string → list (string * string) → list (string * string).

Class UrlParamsOk `{UrlParams} : Prop := {
  params_set_same : ∀ name value params, base.filter (λ q, q.1 = name) (params_set name value params) = [(name, value)];
  params_set_other : ∀ name name' value params, name ≠ name' →
    base.filter (λ q, q.1 = name') (params_set name value params) = base.filter (λ q, q.1 = name') params;
}.

(** The target that [OnConnect] gives the request of a connection. *)
Definition OnConnect `{UrlParts, UrlParams, Externals} (base_url_ : SegmentedUrl) (latest_selector : Selector) (filter_key_ : option string) : string :=
  let params := match latest_selector with
                | Some s => params_set "basis" (selector_state s) (su_params base_url_)
                | None => su_params base_url_
                end in
  let params := match filter_key_ with
                | Some key => if ValidateFilterKey key then params_set "filter" key params else params
                | None => params
                end in
  encoded_target (mkUrl (su_base base_url_) (su_segments base_url_) params).

(** Each connection asks for what follows the selector of the latest [Next], whatever the
    connections before it asked for and whatever the base URL says. *)
Lemma connect_latest_selector `{UrlParts, UrlParamsOk, Externals} base filter_key st now sel url_ok client_ok :
  st_closed_ st = false →
  ∃ u, OnConnect base (latest_selector_ (StreamNext now (Some sel) url_ok client_ok st).1) filter_key = encoded_target u ∧
    base.filter (λ q, q.1 = "basis") (su_params u) = [("basis", selector_state sel)].
Proof.
  intros Hc. eexists. split.
  { unfold OnConnect. replace (latest_selector_ _) with (Some sel); [reflexivity|].
    unfold StreamNext. rewrite Hc. unfold EnsureStarted. cbn. rewrite Hc. destruct (queue_next _). cbn.
    destruct (started_ st), url_ok, client_ok; reflexivity. }
  cbn. destruct filter_key as [key|]; [|apply params_set_same]. destruct (ValidateFilterKey key); [|apply params_set_same].
  rewrite params_set_other by done. apply params_set_same.
Qed.

(** A function that does this: the first parameter of the name takes the value and the others are
    removed. *)
Fixpoint set_param (name value : string) (params : list (string * string)) : list (string * string) :=
  match params with
  | [] => [(name, value)]
  | p :: rest =>
      if bool_decide (p.1 = name) then (name, value) :: base.filter (λ q, q.1 ≠ name) rest
      else p :: set_param name value rest
  end.

Lemma set_param_same name value params : base.filter (λ q, q.1 = name) (set_param name value params) = [(name, value)].
Proof.
  induction params as [|p rest IH]; cbn [set_param]; [by rewrite filter_cons_True|]. case_bool_decide as Hp.
  - rewrite filter_cons_True by done. f_equal. rewrite list_filter_filter. clear. induction rest as [|q rest IHr]; [done|].
    rewrite filter_cons_False by naive_solver. apply IHr.
  - by rewrite filter_cons_False.
Qed.

Lemma set_param_other name name' value params :
  name ≠ name' → base.filter (λ q, q.1 = name') (set_param name value params) = base.filter (λ q, q.1 = name') params.
Proof.
  intros Hn. induction params as [|p rest IH]; cbn [set_param]; [by rewrite filter_cons_False|]. case_bool_decide as Hp.
  - rewrite !filter_cons_False by (cbn; congruence). rewrite list_filter_filter. apply list_filter_iff. naive_solver.
  - by rewrite !filter_cons, IH.
Qed.

Lemma set_param_ok : @UrlParamsOk set_param.
Proof. split; [apply set_param_same|apply set_param_other]. Qed.

(** ** The synchronizer *)

Section Synchronizer.
Context `{B : BoostJson, J : JsonText} (interval : Z).

(** A call that waits for the time to poll, or for the response. *)
Inductive Phase := WaitsDelay (selector : Selector) (until : Z) | WaitsResponse.

Record PollSync := mkPollSync {
  ps_closed : bool;
  last_poll_start_ : option Z;
  outstanding : gmap nat Phase;
  next_call : nat;
  resolved : list (nat * FDv2SourceResult);
  requests : list (Z * Selector);
}.

Definition new_poll_sync : PollSync := mkPollSync false None ∅ 0 [] [].

Implicit Types (s : PollSync) (id : nat) (now : Z).

Definition shutdown_result : FDv2SourceResult := plain_result ResShutdown.

Definition resolve id (r : FDv2SourceResult) s : PollSync :=
  mkPollSync (ps_closed s) (last_poll_start_ s) (delete id (outstanding s)) (next_call s) (resolved s ++ [(id, r)]) (requests s).

Definition await id (p : Phase) s : PollSync :=
  mkPollSync (ps_closed s) (last_poll_start_ s) (<[id := p]> (outstanding s)) (next_call s) (resolved s) (requests s).

Definition RecordPollStarted (selector : Selector) now s : PollSync :=
  mkPollSync (ps_closed s) (Some now) (outstanding s) (next_call s) (resolved s) (requests s ++ [(now, selector)]).

Definition DoPoll id (selector : Selector) now s : PollSync :=
  if ps_closed s then resolve id shutdown_result s else await id WaitsResponse (RecordPollStarted selector now s).

Definition DoNext id (selector : Selector) now s : PollSync :=
  if ps_closed s then resolve id shutdown_result s
  else
    match CreatePollDelay interval (last_poll_start_ s) now with
    | None => DoPoll id selector now s
    | Some delay => await id (WaitsDelay selector (now + delay)) s
    end.

Definition poll_Next (selector : Selector) now s : PollSync :=
  let id := next_call s in
  DoNext id selector now (mkPollSync (ps_closed s) (last_poll_start_ s) (outstanding s) (S id) (resolved s) (requests s)).

(** The promise is resolved, and with it the futures that wait for it. *)
Definition poll_Close s : PollSync :=
  mkPollSync true (last_poll_start_ s) ∅ (next_call s)
    (resolved s ++ ((λ id, (id, shutdown_result)) <$> (map_to_list (outstanding s)).*1)) (requests s).

Inductive PollStep :=
| PNext (selector : Selector) (now : Z)
| PDelayOver (id : nat) (now : Z)
| PResponse (id : nat) (res : HttpResponse) (now : Z)
| PClose.

(** A timer does not fire before its time. *)
Definition poll_step s (a : PollStep) : PollSync :=
  match a with
  | PNext selector now => poll_Next selector now s
  | PDelayOver id now =>
      match outstanding s !! id with
      | Some (WaitsDelay selector until) => if until <=? now then DoPoll id selector now s else s
      | _ => s
      end
  | PResponse id res now =>
      match outstanding s !! id with
      | Some WaitsResponse => resolve id (HandleFDv2PollResponse now res new_handler) s
      | _ => s
      end
  | PClose => poll_Close s
  end.

(** ** Every call is answered once *)

Record CallsOk s : Prop := {
  calls_once : (resolved s).*1 ++ (map_to_list (outstanding s)).*1 ≡ₚ seq 0 (next_call s);
  calls_closed : ps_closed s = true → outstanding s = ∅;
}.

Lemma outstanding_keys_insert (m : gmap nat Phase) id p : m !! id = None → (map_to_list (<[id := p]> m)).*1 ≡ₚ id :: (map_to_list m).*1.
Proof. intros H. by rewrite map_to_list_insert. Qed.

Lemma outstanding_keys_delete (m : gmap nat Phase) id p : m !! id = Some p → id :: (map_to_list (delete id m)).*1 ≡ₚ (map_to_list m).*1.
Proof. intros H. rewrite <- (map_to_list_delete m id p H). done. Qed.

(** A call that is not yet waited for is resolved or starts to wait. *)
Definition Pending id s : Prop :=
  outstanding s !! id = None ∧ (resolved s).*1 ++ id :: (map_to_list (outstanding s)).*1 ≡ₚ seq 0 (next_call s) ∧
  (ps_closed s = true → outstanding s = ∅).

Lemma resolve_ok id r s : Pending id s → CallsOk (resolve id r s).
Proof.
  intros (Hid & Hp & Hc). split; cbn; rewrite delete_id by done; [|done].
  rewrite fmap_app, <- app_assoc. cbn. exact Hp.
Qed.

Lemma await_ok id p s : Pending id s → ps_closed s = false → CallsOk (await id p s).
Proof.
  intros (Hid & Hp & Hc) Hn. split; cbn; [|by rewrite Hn]. by rewrite outstanding_keys_insert.
Qed.

Lemma do_poll_ok id selector now s : Pending id s → CallsOk (DoPoll id selector now s).
Proof.
  intros Hp. unfold DoPoll. destruct (ps_closed s) eqn:E; [by apply resolve_ok|]. apply await_ok; [exact Hp|done].
Qed.

Lemma poll_step_ok a s : CallsOk s → CallsOk (poll_step s a).
Proof.
  intros [Hp Hc]. destruct a as [selector now|id now|id res now|]; cbn.
  - assert (∀ m, m = mkPollSync (ps_closed s) (last_poll_start_ s) (outstanding s) (S (next_call s)) (resolved s) (requests s) → Pending (next_call s) m) as Hpend.
    { intros m ->. unfold Pending. cbn [outstanding resolved next_call ps_closed]. split_and!; [| |done].
      - destruct (outstanding s !! next_call s) as [p|] eqn:E; [|done]. exfalso.
        assert (next_call s ∈ seq 0 (next_call s)) as Hin.
        { rewrite <- Hp. apply elem_of_app. right. apply list_elem_of_fmap. exists (next_call s, p). split; [done|by apply elem_of_map_to_list]. }
        apply elem_of_seq in Hin. lia.
      - rewrite <- Permutation_middle, Hp, seq_S. by rewrite <- Permutation_cons_append. }
    unfold poll_Next, DoNext. cbn [ps_closed last_poll_start_]. destruct (ps_closed s) eqn:E; [by apply resolve_ok, Hpend|].
    destruct (CreatePollDelay _ _ _); [apply await_ok; [by apply Hpend|done]|by apply do_poll_ok, Hpend].
  - destruct (outstanding s !! id) as [[selector until|]|] eqn:E; [|done|done]. destruct (until <=? now); [|done].
    unfold DoPoll. destruct (ps_closed s) eqn:Ec; [rewrite (Hc eq_refl) in E; done|].
    split; cbn; [|by rewrite Ec]. rewrite <- Hp, <- insert_delete_eq, outstanding_keys_insert by apply lookup_delete_eq.
    by rewrite (outstanding_keys_delete _ _ _ E).
  - destruct (outstanding s !! id) as [[|]|] eqn:E; [done| |done]. split; cbn.
    + rewrite fmap_app, <- app_assoc. cbn. by rewrite (outstanding_keys_delete _ _ _ E).
    + intros Ec. rewrite (Hc Ec). apply delete_empty.
  - split; cbn; [|done]. rewrite fmap_app, map_to_list_empty, app_nil_r, <- list_fmap_compose. cbn.
    rewrite list_fmap_id. exact Hp.
Qed.

(** Whatever happens and in whatever order: a future that [Next] returned is resolved once or waits,
    and once the synchronizer is closed none waits. *)
Theorem poll_calls_answered (steps : list PollStep) :
  let s := foldl poll_step new_poll_sync steps in
  (resolved s).*1 ++ (map_to_list (outstanding s)).*1 ≡ₚ seq 0 (next_call s) ∧ (ps_closed s = true → outstanding s = ∅).
Proof.
  intros s. enough (CallsOk s) as [A B']; [done|]. unfold s. clear s.
  assert (CallsOk new_poll_sync) as H0 by (split; [done|done]). revert H0. generalize new_poll_sync.
  induction steps as [|a steps IH]; intros s0 H0; [done|]. apply IH. by apply poll_step_ok.
Qed.

(** ** Requests are spaced *)

(** [Next] is called when no call is outstanding. *)
Fixpoint one_at_a_time (steps : list PollStep) s : Prop :=
  match steps with
  | [] => True
  | a :: rest => (match a with PNext _ _ => outstanding s = ∅ | _ => True end) ∧ one_at_a_time rest (poll_step s a)
  end.

(** The last request is the one recorded, a delay that is waited for ends no sooner than the
    interval after it, and requests are at least the interval apart. *)
Record SpacedOk s : Prop := {
  spaced_one : ∀ id id', is_Some (outstanding s !! id) → is_Some (outstanding s !! id') → id = id';
  spaced_last : last_poll_start_ s = fst <$> last (requests s);
  spaced_delay : ∀ id selector until, outstanding s !! id = Some (WaitsDelay selector until) →
    ∃ start, last_poll_start_ s = Some start ∧ start + poll_interval_ interval ≤ until;
  spaced_apart : ∀ i a b, requests s !! i = Some a → requests s !! S i = Some b → a.1 + poll_interval_ interval ≤ b.1;
}.

Lemma create_delay_spec last now :
  match CreatePollDelay interval last now with
  | None => ∀ start, last = Some start → start + poll_interval_ interval ≤ now
  | Some delay => ∃ start, last = Some start ∧ now + delay = start + poll_interval_ interval
  end.
Proof.
  unfold CreatePollDelay. destruct last as [start|]; [|done]. cbv zeta. destruct (Z.leb_spec (poll_interval_ interval) (now - start)).
  - intros ? [= <-]. lia.
  - exists start. split; [done|]. lia.
Qed.

Lemma poll_spaced id selector now s :
  SpacedOk s → ps_closed s = false → (∀ start, last_poll_start_ s = Some start → start + poll_interval_ interval ≤ now) →
  (∀ id', is_Some (outstanding s !! id') → id' = id) → SpacedOk (DoPoll id selector now s).
Proof.
  intros Hok Hc Hnow Hone. unfold DoPoll. rewrite Hc. split; cbn.
  - intros j k Hj Hk. destruct (decide (id = j)) as [->|Hnj]; destruct (decide (j = k)) as [->|Hnk]; try done.
    + rewrite lookup_insert_ne in Hk by done. by rewrite (Hone _ Hk) in Hnk.
    + rewrite lookup_insert_ne in Hj by done. by rewrite (Hone _ Hj) in Hnj.
  - by rewrite last_snoc.
  - intros j sel until. destruct (decide (id = j)) as [->|Hn]; [by rewrite lookup_insert_eq|]. rewrite lookup_insert_ne by done.
    intros Hj. destruct Hn. symmetry. apply Hone. by eexists.
  - intros i a b Ha Hb. pose proof (lookup_lt_Some _ _ _ Hb) as Hlt. rewrite length_app in Hlt. cbn in Hlt.
    rewrite lookup_app_l in Ha by lia. destruct (decide (S i < length (requests s))%nat) as [Hin|Hout].
    + rewrite lookup_app_l in Hb by done. by eapply spaced_apart.
    + assert (S i = length (requests s)) as E by lia. rewrite lookup_app_r, E, Nat.sub_diag in Hb by lia. injection Hb as <-. cbn.
      apply Hnow. rewrite (spaced_last _ Hok), last_lookup, <- E. cbn. by rewrite Ha.
Qed.

Lemma unlink_spaced id s r : SpacedOk s → SpacedOk (resolve id r s).
Proof.
  intros Hok. split; cbn.
  - intros j k [x Hj] [y Hk]. apply lookup_delete_Some in Hj as [_ Hj]. apply lookup_delete_Some in Hk as [_ Hk].
    by apply (spaced_one _ Hok); eexists.
  - apply Hok.
  - intros j sel until Hj. apply lookup_delete_Some in Hj as [_ Hj]. by eapply spaced_delay.
  - apply Hok.
Qed.

Lemma next_spaced selector now s : SpacedOk s → outstanding s = ∅ → SpacedOk (poll_Next selector now s).
Proof.
  intros Hok He. unfold poll_Next. set (s1 := mkPollSync _ _ _ _ _ _). assert (SpacedOk s1) as H1 by (by destruct Hok; split).
  unfold DoNext. destruct (ps_closed s1) eqn:Ec; [by apply unlink_spaced|]. pose proof (create_delay_spec (last_poll_start_ s1) now) as Hd.
  destruct (CreatePollDelay _ _ _) as [delay|].
  - destruct Hd as (start & Hs & Ed). split; cbn.
    + rewrite He. intros j k [x Hj] [y Hk]. apply lookup_insert_Some in Hj as [[Ej _]|[_ ?]]; [|done].
      apply lookup_insert_Some in Hk as [[Ek _]|[_ ?]]; [congruence|done].
    + apply H1.
    + rewrite He. intros j sel until Hj. apply lookup_insert_Some in Hj as [[_ [= _ <-]]|[_ ?]]; [|done].
      exists start. split; [done|]. lia.
    + apply H1.
  - apply poll_spaced; [done|done|done|]. cbn. rewrite He. intros id' [x Hx]. done.
Qed.

Lemma poll_step_spaced a s :
  SpacedOk s → CallsOk s → (match a with PNext _ _ => outstanding s = ∅ | _ => True end) → SpacedOk (poll_step s a).
Proof.
  intros Hok Hcalls Ha. destruct a as [selector now|id now|id res now|]; cbn.
  - by apply next_spaced.
  - destruct (outstanding s !! id) as [[selector until|]|] eqn:E; [|done|done]. destruct (Z.leb_spec until now); [|done].
    destruct (ps_closed s) eqn:Ec; [by rewrite (calls_closed _ Hcalls Ec) in E|].
    destruct (spaced_delay _ Hok _ _ _ E) as (start & Hs & Hle). apply poll_spaced; [done|done| |].
    + rewrite Hs. intros ? [= <-]. lia.
    + intros id' Hid'. apply (spaced_one _ Hok); [done|by eexists].
  - destruct (outstanding s !! id) as [[|]|]; [done| |done]. by apply unlink_spaced.
  - split; cbn; [intros ?? [? ?]; done|apply Hok|done|apply Hok].
Qed.

(** If [Next] is called only after the previous call was answered, requests are at least the
    polling interval apart, which is at least 30 seconds. *)
Theorem fdv2_polls_spaced (steps : list PollStep) i a b :
  one_at_a_time steps new_poll_sync →
  let s := foldl poll_step new_poll_sync steps in
  requests s !! i = Some a → requests s !! S i = Some b → Z.max interval kMinPollInterval ≤ b.1 - a.1.
Proof.
  intros Hs s Ha Hb. enough (SpacedOk s) as Hok.
  { pose proof (spaced_apart _ Hok _ _ _ Ha Hb). unfold poll_interval_ in *. lia. }
  unfold s. clear s Ha Hb. assert (SpacedOk new_poll_sync) as H0 by (split; cbn; [intros ?? [? ?]; done|done|done|done]).
  assert (CallsOk new_poll_sync) as H1 by (split; [done|done]). revert H0 H1 Hs. generalize new_poll_sync.
  induction steps as [|st steps IH]; intros s0 H0 H1 Hs; [done|]. destruct Hs as [Hst Hs].
  apply IH; [by apply poll_step_spaced|by apply poll_step_ok|done].
Qed.
End Synchronizer.

(** ** The initializer *)

Section Initializer.
Context `{B : BoostJson, J : JsonText}.

(** What happens after [Run] was called. *)
Inductive InitEvent := IResponse (res : HttpResponse) (now : Z) | IClose.

Definition invalid_endpoint (now : Z) : FDv2SourceResult :=
  plain_result (ResTerminalError (mkErrorInfo StatusErrorKind.kUnknown 0 "invalid polling endpoint URL" now)).

(** The race of the response and of closing: what resolves the future first. *)
Definition init_race (events : list InitEvent) : option FDv2SourceResult :=
  match events with
  | [] => None
  | IResponse res now :: _ => Some (HandleFDv2PollResponse now res new_handler)
  | IClose :: _ => Some shutdown_result
  end.

(** The result of [Run], called at [now] for a request to [url]; [None] while the future is not resolved. *)
Definition init_Run (url : option string) (closed : bool) (now : Z) (events : list InitEvent) : option FDv2SourceResult :=
  match url with
  | None => Some (invalid_endpoint now)
  | Some _ => if closed then Some shutdown_result else init_race events
  end.

(** The first thing that happens decides; what comes later changes nothing, and the future of an
    initializer that was closed is always resolved. *)
Lemma init_run_first (url : option string) closed now events more r :
  init_Run url closed now events = Some r → init_Run url closed now (events ++ more) = Some r.
Proof. unfold init_Run. destruct url, closed; [done| |done|done]. by destruct events as [|[]]. Qed.

Lemma init_run_closed (url : option string) closed now events :
  closed = true ∨ IClose ∈ events → is_Some (init_Run url closed now events).
Proof.
  unfold init_Run. destruct url; [|by eexists]. intros [->|Hin]; [by eexists|]. destruct closed; [by eexists|].
  destruct events as [|[]]; [by apply not_elem_of_nil in Hin|by eexists|by eexists].
Qed.
End Initializer.
